(* ===== verification/_CoqProject ===== *)
-Q . S2P
Prelude.v
Opcode.v
Num.v
Stack.v
Script.v
Builder.v
Crypto.v
Keys.v
Sighash.v
SigEncoding.v
Interpreter.v
InterpreterSafety.v
InterpreterSpec.v
Serialization.v
Codec.v
Chain.v
ChainHash.v
Typed.v
Sign.v
U256.v
Compact.v
Network.v
Work.v
Storage.v
Deployments.v
Verify.v
Accept.v
AcceptSpec.v
ChainVerifier.v
Kv.v
DiskDb.v
Db.v
DbSpec.v
DbUtxo.v
DbExamples.v
PartialMerkle.v
Message.v
MessageSpec.v
P2pIo.v
LinkedMap.v
Filters.v
FiltersSpec.v
Peers.v
HashQueue.v
MemoryPool.v
MemoryPoolInv.v
MemoryPoolSpec.v
BlockAssembler.v
BlockAssemblerSpec.v
CpuMiner.v
OrphanPools.v
OrphanSpec.v
SyncChain.v
SyncChainSpec.v
Float64.v
PeersTasks.v
PeersTasksSpec.v
ClientCore.v
SyncManager.v
SyncManagerSpec.v
SyncVerifier.v
SyncVerifierSpec.v
BlocksWriter.v
BlocksWriterSpec.v
SyncNode.v
SyncNodeSpec.v
ClientCoreSpec.v
SyncExecutor.v
SyncServer.v
SyncServerSpec.v
SyncRelaySpec.v
LocalNode.v
LocalNodeSpec.v
PeerContext.v
PeerContextSpec.v
