(* ===== verification/Prelude.v ===== *)
(** * A verification of parity-bitcoin

    The program is a Bitcoin full node in Rust.  This library models its consensus
    core as Rocq functions, one per Rust function, and proves what they compute.
    File and function names below are those under src/.

    ** Conventions

    - A Rust computation is an [outcome]: [Ok] or [Err] for a [Result], [Panic] for a
      failed assertion, [expect], [unwrap], index or overflow check, [Diverge] for a
      loop that does not end.  Overflow is that of a build with overflow checks; a
      wrap-around the source asks for ([as] casts, shifts) is written out with [wrap]
      and [swrap].  Running out of memory is not modelled, a capacity overflow is.
    - Machine integers are [Z] at a width ([uint], [sint]); byte strings, hashes,
      scripts, keys and signatures are [list byte]; vectors are lists; positions in a
      script are [nat].
    - A loop whose end is not structural takes fuel and is [Diverge] without it.  The
      fuel is always the length of the input it walks over (plus one), and theorems
      show that it is enough: [eval_script_returns], [without_separators_total],
      [is_push_only_total], [find_and_delete_returns], [merkle_root_total], the
      [deserialize_terminates] law.  The Bitcoin Cash work loop takes the height.  The
      threshold iterator of the deployments, which may visit every period, runs under
      [run 32], that is 2^32 steps with early exit, more than there are heights.  The
      search for the origin of a side block has the source's own bound of 2048 blocks.
      The loops of the memory pool, the orphan pools and the synchronization chain take
      the number of entries, outputs or hashes they can visit, and their theorems show
      that they end; [check_double_spend] takes its fuel from the caller, since it visits an
      output once for each path to it, and so does the search of the server for a common
      block, which [serve_get_headers_correct] shows to end.  The miner runs over its
      nonces under [run 32] and over its extra nonces under [run 256], all there are; the
      sending of waiting responses takes the number of entries of the queue.
    - Packages are classes whose laws state their documented behaviour: [Crypto]
      (digest sizes), [Secp256k1] (serialized keys and signatures parse back, signatures
      verify), [Base58], [U256] (256-bit arithmetic), [BitVec] (bit_vec), [Rayon] (how a
      parallel iterator is cut), [LruCache] (lru_cache), [AsyncRead] (a source that gives
      its bytes in any portions), [U256Bytes] (the bytes of a number), [Murmur3],
      [LinkedHashMap] (linked_hash_map), [RocksDb] (rocksdb), [HashOrder] (the order in which a HashSet or
      HashMap is walked).  Each has an example instance that satisfies the laws and
      evaluates.
    - Locks are left out: an operation is one step of its state, and the node
      ([node_step], [local_step]) takes these steps in any order.  Where threads
      interleave within an operation, the steps are a relation ([cache_step]) or the
      cutting is arbitrary ([Rayon]).

    ** Parts and files

    Prelude: outcomes, integers, bytes, vectors, tactics, the hint database [rust].

    The script crate:
    - Opcode: opcode.rs, flags.rs, error.rs.
    - Num: num.rs, script numbers.  Parsing and printing are inverse, minimal
      re-encoding keeps values.
    - Stack: stack.rs.  Each indexed operation is the list transformation of its name,
      or an error on a short stack.
    - Script: script.rs.  Decoding, templates, separator removal, signature-operation
      counts and their bounds, [find_and_delete] (and what it leaves in place).
    - Builder: builder.rs.  Pushed data decodes back; templates accept exactly the
      scripts that are built.
    - Sighash, Sign: sign.rs and the transaction checker of verify.rs.  What each
      signature hash type covers and ignores, lock-time checks, and that a signed
      spend is accepted.
    - SigEncoding: the encoding checks of interpreter.rs and the checker trait of
      verify.rs, the class [SignatureChecker] against which the interpreter is proved.
    - Interpreter: eval_script and verify_script of interpreter.rs, one definition per
      opcode arm.  InterpreterSafety proves that evaluation returns and keeps the limits
      in every reachable state; InterpreterSpec proves what it computes: the run of the
      decoded instructions, arithmetic, OP_CHECKMULTISIG, pay-to-public-key-hash.
    - [TransactionSignatureChecker_returns] in Sign discharges the interface.

    Serialization, chain and keys:
    - Crypto: crypto/src/lib.rs.  Keys: keys/src.
    - Serialization: serialization/src; a [Codec] is a type's [Serializable] and
      [Deserializable] implementations, [CodecLaws] what they promise (appending, round
      trip, progress, termination).  Codec: what serialization_derive generates, with
      the laws for fields and structs.
    - Chain: transactions, headers, blocks and their encodings (chain/src).  ChainHash:
      hashes, reading while hashing, indexed structures, merkle roots.  A theorem that
      holds up to collisions names the strings that are hashed, and [collides] says that
      two different ones among them have the same double hash.

    Consensus parameters and work:
    - U256, Compact: primitives/src/compact.rs.  Encoding rounds down; canonical
      encodings round-trip.
    - Network: network/src, and the header interface and iterators of storage/src.
    - Work: work.rs, work_bch.rs, timestamp.rs and constants.rs of verification/src.
      Proof of work, retargeting, median time, block rewards and their total.

    Storage and verification:
    - Storage: transaction_meta.rs, transaction_provider.rs, duplex_store.rs and
      block_impls.rs of storage/src.  Metadata bits and their encoding; the caching
      provider answers as its backend under every interleaving.
    - Deployments: deployments.rs of verification/src.  The cached state of a deployment
      is that of the version-bits state machine over the chain, unless the chain is
      reorganized within a period.
    - Verify: the rules of verify_block.rs, verify_header.rs, verify_transaction.rs,
      verify_chain.rs and sigops.rs.  What the block rules accept, that they always
      return, and that the parallel check is the sequential one.
    - Accept: the rules of accept_block.rs, accept_header.rs, accept_transaction.rs and
      accept_chain.rs.  AcceptSpec: value is conserved, outputs are spent once,
      coinbases differ, the witness commitment binds; where the rules fall short.
    - ChainVerifier: chain_verifier.rs, and that an accepted block is valid.

    The database:
    - Kv: keys, values, batches, the memory database, overlays and the header cache of
      db/src/kv.  [KeyValueDatabaseLaws] is what a database promises that reads back what
      was written; the memory database, overlays and self-flushing overlays over such a
      database discharge it.  The theorems of Db and of all that is built on it are about
      these databases.  [KeyValueStoreLaws] is what a database promises that keeps only a
      part of what it is given.
    - DiskDb: the raw keys and values of transaction.rs and the database of diskdb.rs,
      which discharges [KeyValueStoreLaws] and not the stronger laws: it keeps
      transactions without witness data and completes the bits of metadata to bytes.  The
      stack the node opens over it answers as the disk does, up to what the disk leaves
      out.
    - Db: block_chain_db.rs over any such database.  DbSpec: the chain it holds is an
      invariant of every operation and of reorganizations, origins and forks are what they should be.  DbUtxo:
      canonizing spends exactly what the block spends, and decanonizing undoes it.
      DbExamples: witnesses, and what rolling back leaves behind.

    Messages and the connection:
    - Typed: what reading a block gives has every field in the range of its type.
    - Message: every payload of message/src with its versions, the types it is made of,
      headers with magic, length and checksum.  MessageSpec: the codecs of the payloads
      keep [CodecLaws].  P2pIo: the framing futures of p2p/src/io, [AsyncRead] being the
      source; a sent message is read back, and every malformed frame is refused.
    - PeerContext: synchronizer.rs, response_queue.rs and peer_context.rs of p2p/src.
      PeerContextSpec: responses are sent in the order of their requests, the numbers of
      which wrap around; a list of answers is the specification.

    The sync crate:
    - PartialMerkle: partial_merkle_tree.rs; a tree that parses to the root of a list of
      hashes holds hashes of that list, or two strings that were hashed collide.
    - Filters: the filters of a connection, merkle blocks and compact blocks
      (bloom_filter.rs, known_hash_filter.rs, fee_rate_filter.rs, connection_filter.rs,
      compact_block_builder.rs).  FiltersSpec: what a filtered block proves, that bloom
      filters miss nothing, the window of known hashes.
    - LinkedMap: the laws of linked hash maps, shared by the pools and the peers' tasks.
    - Peers: synchronization_peers.rs and the limits of inbound_connection.rs.
    - HashQueue: hash_queue.rs and best_headers_chain.rs; the queues are lists without
      repetition, the best headers a linked list of headers.
    - OrphanPools: orphan_blocks_pool.rs and orphan_transactions_pool.rs.  OrphanSpec:
      what becomes known is given out once, parents first.
    - SyncChain: synchronization_chain.rs over Db, HashQueue and MemoryPool.
      SyncChainSpec: inserting a block to the main chain and by reorganization, block
      locators, forgetting a block with its successors.
    - Float64: the binary64 numbers of times and speeds.
    - PeersTasks: average_speed_meter.rs and synchronization_peers_tasks.rs.
      PeersTasksSpec: each peer has been asked for what the history of operations says.
    - ClientCore: synchronization_client_core.rs with its shared state; a handler is a
      step of the whole state and what leaves the client a list of effects.
      ClientCoreSpec: how requests are divided, which headers are scheduled.
    - SyncManager: a round of synchronization_manager.rs.  SyncManagerSpec: it loses no
      request.
    - SyncVerifier: synchronization_verifier.rs and memory_pool_transaction_provider.rs;
      the class [VerificationSink] is what a verifier reports to.  SyncVerifierSpec: how a
      storage grows ([history], [grown]): by blocks that are valid on the storage as it is
      when they are inserted.
    - BlocksWriter: blocks_writer.rs, the import loop and the genesis block of pbtc, a
      sink that stores.  BlocksWriterSpec: imported blocks are stored or wait.
    - SyncNode: synchronization_client.rs and create_local_sync_node, the core as a sink;
      the steps of the client, the verification and the manager in any order.
      SyncNodeSpec: the storage is safe under all of them.
    - SyncExecutor: synchronization_executor.rs.  SyncServer: synchronization_server.rs.
      SyncServerSpec: the answers to getheaders and getdata, and that the queue is a list
      of requests for every peer ([turns]), with the peers taking turns.  SyncRelaySpec: announcing a block, and compact blocks from the
      announcement to the transactions that are asked for.
    - LocalNode: local_node.rs, inbound_connection.rs and its factory; the client, the
      peers, the server and the executor composed.  LocalNodeSpec: the whole node is
      safe, however messages, requests and threads interleave.

    The miner crate:
    - MemoryPool: memory_pool.rs and fee.rs.  MemoryPoolInv: the invariant of the
      storage under each operation.  MemoryPoolSpec: no output is spent twice, the pool
      can be drained, parents first, as long as nothing is put in that an entry spends
      ([pool_step]); where late parents, packages and orders go wrong.
    - BlockAssembler: block_assembler.rs.  BlockAssemblerSpec: reading the pool is
      removing without effect, and a template fits and passes the ordering rule.
    - CpuMiner: cpu_miner.rs; the class [CoinbaseTransactionBuilder] is the trait of its
      coinbases.  The search ends with the first solution there is.

    ** Not modelled

    The threads of sync/src as such: how they are created, wait and are joined; what they
    do is modelled as steps that come in any order.  RocksDB is a package; opening
    it with its options and iterating over it (diskdb.rs) are left out, and a write that
    fails leaves no state in the model.
    Sockets, handshakes and sessions of p2p, rpc, the command line of pbtc, the reading of
    block files of import, logs, bencher and test-data are input and output or fixtures.
    The table of known nodes (node_table.rs of p2p), which suggests whom to connect to, is
    left out; no theorem here depends on it.
    In the modelled crates: [Debug] and [Display] of structures, the texts of logs and
    errors, heap sizes, floating-point difficulty, random key generation, the
    configuration store, and genesis blocks. *)
From Stdlib Require Import ZArith Lia Strings.Byte.
From stdpp Require Import base decidable numbers countable gmap strings list.

Local Open Scope Z_scope.

(** * Outcomes of Rust computations *)

(** A Rust function that returns [Result<A, E>] either returns [Ok] or [Err],
    or panics (a failed [assert!], [expect], [unwrap], slice index or overflow
    check), or never returns.  A function without a [Result] type is an
    [outcome] over any [E]. *)
Inductive outcome (E A : Type) : Type :=
| Ok (a : A)
| Err (e : E)
| Panic
| Diverge.
Arguments Ok {E A} a.
Arguments Err {E A} e.
Arguments Panic {E A}.
Arguments Diverge {E A}.

#[global] Instance outcome_ret E : MRet (outcome E) := fun A a => Ok a.
#[global] Instance outcome_bind E : MBind (outcome E) := fun A B f m =>
  match m with
  | Ok a => f a
  | Err e => Err e
  | Panic => Panic
  | Diverge => Diverge
  end.
#[global] Instance outcome_fmap E : FMap (outcome E) := fun A B f m =>
  match m with
  | Ok a => Ok (f a)
  | Err e => Err e
  | Panic => Panic
  | Diverge => Diverge
  end.

(** [Option::ok_or] and [Option::expect] (also [unwrap]). *)
Definition ok_or {E A} (o : option A) (e : E) : outcome E A :=
  match o with Some a => Ok a | None => Err e end.
Definition expect {E A} (o : option A) : outcome E A :=
  match o with Some a => Ok a | None => Panic end.

(** [Result::map_err]. *)
Definition map_err {E E' A} (f : E -> E') (m : outcome E A) : outcome E' A :=
  match m with
  | Ok a => Ok a
  | Err e => Err (f e)
  | Panic => Panic
  | Diverge => Diverge
  end.

(** [match m { Ok(a) => ok(a), Err(e) => err(e) }]. *)
Definition match_result {E E' A B} (m : outcome E A) (ok : A -> outcome E' B)
    (err : E -> outcome E' B) : outcome E' B :=
  match m with
  | Ok a => ok a
  | Err e => err e
  | Panic => Panic
  | Diverge => Diverge
  end.

(** [assert!]. *)
Definition rust_assert {E} (b : bool) : outcome E unit :=
  if b then Ok tt else Panic.

(** [if cond { return Err(e) }]. *)
Definition fail_if {E} (b : bool) (e : E) : outcome E unit :=
  if b then Err e else Ok tt.

(** The computation comes back to its caller: no panic, no divergence. *)
Definition returns {E A} (m : outcome E A) : Prop :=
  match m with Ok _ | Err _ => True | Panic | Diverge => False end.

(** The computation comes back and, when it succeeds, its value satisfies [P]. *)
Definition returns_such {E A} (P : A -> Prop) (m : outcome E A) : Prop :=
  match m with Ok a => P a | Err _ => True | Panic | Diverge => False end.

(** * Machine integers: [Z] at a width *)

Definition uint (w z : Z) : Prop := 0 <= z < 2 ^ w.
Definition sint (w z : Z) : Prop := - 2 ^ (w - 1) <= z < 2 ^ (w - 1).
Definition is_uint (w z : Z) : bool := (0 <=? z) && (z <? 2 ^ w).
Definition is_sint (w z : Z) : bool := (- 2 ^ (w - 1) <=? z) && (z <? 2 ^ (w - 1)).

(** [as uN] and [as iN] casts. *)
Definition wrap (w z : Z) : Z := z mod 2 ^ w.
Definition swrap (w z : Z) : Z := (z + 2 ^ (w - 1)) mod 2 ^ w - 2 ^ (w - 1).

(** Arithmetic with overflow checks: the overflow is a panic. *)
Definition ucheck {E} (w z : Z) : outcome E Z := if is_uint w z then Ok z else Panic.
Definition scheck {E} (w z : Z) : outcome E Z := if is_sint w z then Ok z else Panic.

Abbreviation u8_max := 255.
Abbreviation u16_max := 65535.
Abbreviation u32_max := 4294967295.
Abbreviation u64_max := 18446744073709551615.

(** * Bytes *)

#[global] Instance byte_eq_dec : EqDecision byte := Byte.byte_eq_dec.
#[global] Program Instance byte_countable : Countable byte :=
  inj_countable Byte.to_N Byte.of_N _.
Next Obligation. intros b. apply Byte.of_to_N. Qed.

Definition u8 (b : byte) : Z := Z.of_N (Byte.to_N b).
Definition byte_of (z : Z) : byte :=
  match Byte.of_N (Z.to_N (z mod 256)) with Some b => b | None => x00 end.

Abbreviation bytes := (list byte).

(** Length of a vector as the [usize] the code computes with. *)
Abbreviation zlen l := (Z.of_nat (length l)).

(** Little-endian encoding of the low [n] bytes of [z], and its inverse. *)
Fixpoint le_bytes (n : nat) (z : Z) : bytes :=
  match n with
  | O => []
  | S n' => byte_of z :: le_bytes n' (z / 256)
  end.
Fixpoint le_value (bs : bytes) : Z :=
  match bs with
  | [] => 0
  | b :: bs' => u8 b + 256 * le_value bs'
  end.

(** Slice indexing: [data[i]] panics out of range. *)
Definition index {E A} (l : list A) (i : nat) : outcome E A := expect (l !! i).

(** Slicing [data[from..to]]. *)
Definition slice {A} (l : list A) (from to : nat) : list A := take (to - from) (drop from l).

(** Slicing with the bounds check: out of range it panics. *)
Definition checked_slice {E A} (l : list A) (from to : nat) : outcome E (list A) :=
  if (from <=? to)%nat && (to <=? length l)%nat then Ok (slice l from to) else Panic.

(** [Vec::remove], [Vec::insert], [swap] and [swap_remove]; all panic out of
    range. *)
Definition vec_remove {E A} (l : list A) (i : nat) : outcome E (A * list A) :=
  v ← index l i; Ok (v, delete i l).
Definition vec_insert {E A} (l : list A) (i : nat) (v : A) : outcome E (list A) :=
  if (i <=? length l)%nat then Ok (take i l ++ v :: drop i l) else Panic.
Definition vec_swap {E A} (l : list A) (i j : nat) : outcome E (list A) :=
  a ← index l i; b ← index l j; Ok (<[j := a]> (<[i := b]> l)).
Definition vec_swap_remove {E A} (l : list A) (i : nat) : outcome E (list A) :=
  _ ← @index E _ l i; v ← expect (last l); Ok (removelast (<[i := v]> l)).

(** Up to [2 ^ n] iterations of a loop body that either goes on with a new state or
    leaves the loop with a result. *)
Fixpoint run {S R} (n : nat) (body : S -> S + R) (s : S) : S + R :=
  match n with
  | O => body s
  | Datatypes.S n' =>
      match run n' body s with
      | inl s' => run n' body s'
      | inr r => inr r
      end
  end.

(** * Tactics *)

(** Split a conjunction of boolean tests in the hypotheses into propositions. *)
Ltac bool_prop :=
  repeat match goal with
  | H : _ && _ = true |- _ => apply andb_true_iff in H; destruct H
  | H : _ || _ = false |- _ => apply orb_false_iff in H; destruct H
  | H : negb _ = true |- _ => apply negb_true_iff in H
  | H : negb _ = false |- _ => apply negb_false_iff in H
  | H : (_ <=? _) = true |- _ => apply Z.leb_le in H
  | H : (_ <=? _) = false |- _ => apply Z.leb_gt in H
  | H : (_ <? _) = true |- _ => apply Z.ltb_lt in H
  | H : (_ <? _) = false |- _ => apply Z.ltb_ge in H
  | H : (_ =? _) = true |- _ => apply Z.eqb_eq in H
  | H : (_ =? _) = false |- _ => apply Z.eqb_neq in H
  end.

(** Case analysis on the next [if] or [match] of the goal. *)
Ltac step_case :=
  match goal with
  | |- context [if ?b then _ else _] => destruct b eqn:?
  | |- context [match ?x with _ => _ end] => destruct x eqn:?
  end.

(** Invert an equation between outcomes built by the monad's operations. *)
Ltac outcome_inv :=
  repeat match goal with
  | H : Ok _ = Ok _ |- _ => injection H as H
  | H : Err _ = Err _ |- _ => injection H as H
  | H : Ok _ = Err _ |- _ => discriminate H
  | H : Err _ = Ok _ |- _ => discriminate H
  | H : Panic = _ |- _ => discriminate H
  | H : Diverge = _ |- _ => discriminate H
  | H : _ = Panic |- _ => discriminate H
  | H : _ = Diverge |- _ => discriminate H
  end.

Create HintDb rust.
Create Rewrite HintDb rust.

(** * Generic lemmas *)

Lemma bind_Ok {E A B} (m : outcome E A) (f : A -> outcome E B) b :
  m ≫= f = Ok b <-> exists a, m = Ok a /\ f a = Ok b.
Proof.
  split.
  - destruct m; simpl; intros; outcome_inv; eauto.
  - by intros (a & -> & Hf).
Qed.

Lemma ok_bind {E A B} (a : A) (f : A -> outcome E B) : Ok a ≫= f = f a.
Proof. done. Qed.

Lemma returns_bind {E A B} (m : outcome E A) (f : A -> outcome E B) :
  returns m -> (forall a, m = Ok a -> returns (f a)) -> returns (m ≫= f).
Proof. destruct m; simpl; eauto. Qed.

Lemma returns_such_bind {E A B} (P : A -> Prop) (Q : B -> Prop)
    (m : outcome E A) (f : A -> outcome E B) :
  returns_such P m -> (forall a, P a -> returns_such Q (f a)) ->
  returns_such Q (m ≫= f).
Proof. destruct m; simpl; eauto. Qed.

Lemma returns_such_mono {E A} (P Q : A -> Prop) (m : outcome E A) :
  (forall a, P a -> Q a) -> returns_such P m -> returns_such Q m.
Proof. destruct m; simpl; eauto. Qed.

Lemma returns_such_returns {E A} (P : A -> Prop) (m : outcome E A) :
  returns_such P m -> returns m.
Proof. destruct m; simpl; eauto. Qed.

Lemma returns_such_Ok {E A} (P : A -> Prop) (m : outcome E A) a :
  returns_such P m -> m = Ok a -> P a.
Proof. by intros H ->. Qed.

Lemma returns_ok_or {E A} (o : option A) (e : E) : returns (ok_or o e).
Proof. by destruct o. Qed.

Lemma returns_fail_if {E} b (e : E) : returns (fail_if b e).
Proof. by destruct b. Qed.

Lemma returns_map_err {E E' A} (f : E -> E') (m : outcome E A) :
  returns m -> returns (map_err f m).
Proof. by destruct m. Qed.

#[export] Hint Resolve returns_ok_or returns_fail_if returns_map_err : rust.

Lemma fail_if_Ok {E} b (e : E) u : fail_if b e = Ok u <-> b = false.
Proof. destruct b; simpl; split; intros; try done. by destruct u. Qed.

Lemma is_uint_spec w z : is_uint w z = true <-> uint w z.
Proof. unfold is_uint, uint. rewrite andb_true_iff, Z.leb_le, Z.ltb_lt. done. Qed.

Lemma is_sint_spec w z : is_sint w z = true <-> sint w z.
Proof. unfold is_sint, sint. rewrite andb_true_iff, Z.leb_le, Z.ltb_lt. done. Qed.

Lemma ucheck_Ok {E} w z : uint w z -> @ucheck E w z = Ok z.
Proof. intros H. unfold ucheck. by rewrite (proj2 (is_uint_spec w z) H). Qed.

Lemma scheck_Ok {E} w z : sint w z -> @scheck E w z = Ok z.
Proof. intros H. unfold scheck. by rewrite (proj2 (is_sint_spec w z) H). Qed.

Lemma wrap_uint w z : uint w z -> wrap w z = z.
Proof. apply Z.mod_small. Qed.

Lemma uint_wrap w z : 0 <= w -> uint w (wrap w z).
Proof. intros. apply Z.mod_pos_bound. lia. Qed.

Lemma swrap_sint w z : 0 < w -> sint w z -> swrap w z = z.
Proof.
  intros Hw [Hlo Hhi]. unfold swrap.
  assert (2 ^ w = 2 * 2 ^ (w - 1)) as E.
  { rewrite <- Z.pow_succ_r by lia. f_equal. lia. }
  rewrite Z.mod_small by lia. lia.
Qed.

(** Casting a signed integer to its unsigned width and back. *)
Lemma swrap_wrap w z : 0 < w -> sint w z -> swrap w (wrap w z) = z.
Proof.
  intros Hw H. rewrite <- (swrap_sint w z Hw H) at 2. unfold swrap, wrap.
  by rewrite Z.add_mod_idemp_l by lia.
Qed.

Lemma u8_bound b : 0 <= u8 b < 256.
Proof.
  unfold u8. pose proof (Byte.to_N_bounded b) as H. apply N2Z.inj_le in H.
  change (Z.of_N 255) with 255 in H. lia.
Qed.

Lemma u8_byte_of z : u8 (byte_of z) = z mod 256.
Proof.
  unfold u8, byte_of. pose proof (Z.mod_pos_bound z 256 eq_refl) as Hb.
  destruct (Byte.of_N (Z.to_N (z mod 256))) as [b|] eqn:E.
  - apply Byte.to_of_N in E. rewrite E. lia.
  - apply Byte.of_N_None_iff in E. lia.
Qed.

Lemma byte_of_u8 b : byte_of (u8 b) = b.
Proof.
  unfold byte_of. rewrite Z.mod_small by apply u8_bound.
  unfold u8. rewrite N2Z.id, Byte.of_to_N. done.
Qed.

#[global] Instance u8_inj : Inj (=) (=) u8.
Proof. intros a b H. by rewrite <- (byte_of_u8 a), H, byte_of_u8. Qed.

Lemma u8_byte_of_small z : 0 <= z < 256 -> u8 (byte_of z) = z.
Proof. intros. rewrite u8_byte_of. by apply Z.mod_small. Qed.

Lemma length_le_bytes n z : length (le_bytes n z) = n.
Proof. revert z. induction n; intros; simpl; auto. Qed.

Lemma le_value_bound bs : 0 <= le_value bs < 256 ^ zlen bs.
Proof.
  induction bs as [|b bs IH]; [done|].
  cbn [le_value length]. rewrite Nat2Z.inj_succ, Z.pow_succ_r by lia.
  pose proof (u8_bound b). lia.
Qed.

Lemma le_value_le_bytes n z : le_value (le_bytes n z) = z mod 256 ^ Z.of_nat n.
Proof.
  revert z. induction n as [|n IH]; intros z.
  - by rewrite Z.mod_1_r.
  - cbn [le_bytes le_value]. rewrite IH, u8_byte_of, Nat2Z.inj_succ, Z.pow_succ_r by lia.
    rewrite Z.rem_mul_r by lia. done.
Qed.

Lemma le_bytes_le_value bs : le_bytes (length bs) (le_value bs) = bs.
Proof.
  induction bs as [|b bs IH]; [done|].
  cbn [length le_value le_bytes].
  pose proof (u8_bound b). pose proof (le_value_bound bs).
  rewrite (Z.mul_comm 256), Z.div_add, Z.div_small, Z.add_0_l, IH by lia. f_equal.
  apply (inj u8). rewrite u8_byte_of, Z.mod_add, Z.mod_small by lia. done.
Qed.

Lemma le_value_le_bytes_id n z :
  0 <= z < 256 ^ Z.of_nat n -> le_value (le_bytes n z) = z.
Proof. intros. rewrite le_value_le_bytes. by apply Z.mod_small. Qed.

Lemma length_slice {A} (l : list A) from to :
  (to <= length l)%nat -> length (slice l from to) = (to - from)%nat.
Proof. intros. unfold slice. rewrite length_take, length_drop. lia. Qed.

Lemma checked_slice_Ok {E A} (l : list A) from to :
  (from <= to <= length l)%nat -> @checked_slice E A l from to = Ok (slice l from to).
Proof. intros. unfold checked_slice. by rewrite (proj2 (Nat.leb_le _ _)), (proj2 (Nat.leb_le _ _)) by lia. Qed.

Lemma slice_all {A} (l : list A) n : length l = n -> slice l 0 n = l.
Proof. intros <-. unfold slice. rewrite drop_0, Nat.sub_0_r. apply take_ge. lia. Qed.

Lemma take_app_exact {A} (l k : list A) : take (length l) (l ++ k) = l.
Proof. by rewrite take_app_length. Qed.

Lemma snoc2 {A} (l : list A) a b : l ++ [a; b] = (l ++ [a]) ++ [b].
Proof. by rewrite <- app_assoc. Qed.

Lemma index_middle {E A} (l k : list A) v i :
  i = length l -> @index E A (l ++ v :: k) i = Ok v.
Proof. intros ->. unfold index. by rewrite list_lookup_middle. Qed.

Lemma vec_remove_middle {E A} (l k : list A) v i :
  i = length l -> @vec_remove E A (l ++ v :: k) i = Ok (v, l ++ k).
Proof.
  intros ->. unfold vec_remove. rewrite index_middle by done. cbn [mbind outcome_bind].
  by rewrite delete_middle.
Qed.

Lemma vec_swap_middle {E A} (l m k : list A) a b i j :
  i = length l -> j = (length l + S (length m))%nat ->
  @vec_swap E A (l ++ a :: m ++ b :: k) i j = Ok (l ++ b :: m ++ a :: k).
Proof.
  intros -> ->. unfold vec_swap. rewrite (index_middle l _ a (length l)) by reflexivity. cbn [mbind outcome_bind].
  assert (@index E A (l ++ a :: m ++ b :: k) (length l + S (length m)) = Ok b) as ->.
  { change (a :: m ++ b :: k) with ((a :: m) ++ b :: k). rewrite app_assoc.
    apply index_middle. by rewrite length_app. }
  cbn [mbind outcome_bind]. rewrite insert_app_r_alt, Nat.sub_diag by lia.
  change (<[0%nat:=b]> (a :: m ++ b :: k)) with ((b :: m) ++ b :: k).
  rewrite insert_app_r_alt by lia.
  replace (length l + S (length m) - length l)%nat with (length (b :: m) + 0)%nat by (simpl; lia).
  by rewrite insert_app_r.
Qed.

(** Bits below [n] and bits from [n] on do not overlap. *)
Lemma lor_shiftl_add a b n :
  0 <= n -> 0 <= a < 2 ^ n -> Z.lor a (Z.shiftl b n) = a + b * 2 ^ n.
Proof.
  intros Hn Ha. rewrite <- Z.shiftl_mul_pow2 by done. symmetry.
  apply Z.add_nocarry_lor, Z.bits_inj'. intros k Hk.
  rewrite Z.land_spec, Z.bits_0, Z.shiftl_spec by done.
  destruct (Z.lt_ge_cases k n).
  - rewrite (Z.testbit_neg_r b) by lia. apply andb_false_r.
  - rewrite <- (Z.mod_small a (2 ^ n)), Z.mod_pow2_bits_high by lia. done.
Qed.

(** Testing a single bit, and a number below a power of two. *)
Lemma land_pow2 x k : 0 <= k -> Z.land x (2 ^ k) = if Z.testbit x k then 2 ^ k else 0.
Proof.
  intros Hk. apply Z.bits_inj'. intros n Hn. rewrite Z.land_spec, Z.pow2_bits_eqb by done.
  destruct (Z.eqb_spec k n) as [->|Hne].
  - destruct (Z.testbit x n); [by rewrite Z.pow2_bits_true|by rewrite Z.bits_0].
  - rewrite andb_false_r. destruct (Z.testbit x k); [by rewrite Z.pow2_bits_false|by rewrite Z.bits_0].
Qed.

Lemma testbit_small x k : 0 <= x < 2 ^ (k + 1) -> 0 <= k -> Z.testbit x k = (2 ^ k <=? x).
Proof.
  intros Hx Hk. rewrite Z.add_1_r, Z.pow_succ_r in Hx by done.
  destruct (Z.leb_spec (2 ^ k) x) as [Hle|Hlt].
  - rewrite Z.testbit_true by done. assert (x / 2 ^ k = 1) as ->; [|done].
    symmetry. apply (Z.div_unique x (2 ^ k) 1 (x - 2 ^ k)); lia.
  - rewrite Z.testbit_false by done. by rewrite Z.div_small by lia.
Qed.

(** ** Bounded iteration *)

Fixpoint loop {S R} (m : nat) (body : S -> S + R) (s : S) : S + R :=
  match m with
  | O => inl s
  | Datatypes.S m' => match body s with inl s' => loop m' body s' | inr r => inr r end
  end.

Lemma loop_add {S R} (body : S -> S + R) a b s :
  loop (a + b) body s = match loop a body s with inl s' => loop b body s' | inr r => inr r end.
Proof. revert s. induction a as [|a IH]; intros s; [done|]. cbn. destruct (body s); [apply IH|done]. Qed.

Lemma run_loop {S R} n (body : S -> S + R) s : run n body s = loop (2 ^ n) body s.
Proof.
  revert s. induction n as [|n IH]; intros s.
  - cbn. by destruct (body s).
  - rewrite Nat.pow_succ_r', Nat.mul_succ_l, Nat.mul_1_l, loop_add. cbn [run]. rewrite IH.
    destruct (loop (2 ^ n) body s); [apply IH|done].
Qed.

Lemma run_result {S R} n (body : S -> S + R) s m r :
  loop m body s = inr r -> Z.of_nat m <= 2 ^ Z.of_nat n -> run n body s = inr r.
Proof.
  intros Hr Hm. rewrite run_loop.
  assert (2 ^ n = m + (2 ^ n - m))%nat as ->.
  { apply Nat2Z.inj. rewrite Nat2Z.inj_add, Nat2Z.inj_sub, Nat2Z.inj_pow; [cbn; lia|].
    apply Nat2Z.inj_le. rewrite Nat2Z.inj_pow. exact Hm. }
  by rewrite loop_add, Hr.
Qed.

#[export] Hint Rewrite length_le_bytes @length_app @length_take @length_drop
  @length_replicate : rust.
