(* ===== verification/Opcode.v ===== *)
(** Script opcodes, verification flags and interpreter errors: the data types
    of src/script/src/opcode.rs, flags.rs and error.rs, with the opcode codec
    and the classification predicates the interpreter and the sigops counter
    use. *)
From Stdlib Require Import ZArith Lia Strings.Byte.
From stdpp Require Import base decidable numbers list.
From S2P Require Import Prelude.

Local Open Scope Z_scope.

(** * Verification flags (flags.rs) *)

Record VerificationFlags : Type := mkFlags {
  none : bool;
  verify_p2sh : bool;
  verify_strictenc : bool;
  verify_dersig : bool;
  verify_low_s : bool;
  verify_nulldummy : bool;
  verify_sigpushonly : bool;
  verify_minimaldata : bool;
  verify_discourage_upgradable_nops : bool;
  verify_cleanstack : bool;
  verify_locktime : bool;
  verify_checksequence : bool;
  verify_witness : bool;
  verify_discourage_upgradable_witness_program : bool;
  verify_concat : bool;
  verify_split : bool;
  verify_and : bool;
  verify_or : bool;
  verify_xor : bool;
  verify_div : bool;
  verify_mod : bool;
  verify_bin2num : bool;
  verify_num2bin : bool;
  verify_checkdatasig : bool
}.

(** [VerificationFlags::default()]: every flag is off. *)
Definition default_flags : VerificationFlags :=
  mkFlags false false false false false false false false false false false false
    false false false false false false false false false false false false.

(** * Opcodes (opcode.rs) *)

Inductive Opcode : Type :=
  | OP_0 | OP_PUSHBYTES_1 | OP_PUSHBYTES_2 | OP_PUSHBYTES_3 | OP_PUSHBYTES_4
  | OP_PUSHBYTES_5 | OP_PUSHBYTES_6 | OP_PUSHBYTES_7 | OP_PUSHBYTES_8 | OP_PUSHBYTES_9
  | OP_PUSHBYTES_10 | OP_PUSHBYTES_11 | OP_PUSHBYTES_12 | OP_PUSHBYTES_13
  | OP_PUSHBYTES_14 | OP_PUSHBYTES_15 | OP_PUSHBYTES_16 | OP_PUSHBYTES_17
  | OP_PUSHBYTES_18 | OP_PUSHBYTES_19 | OP_PUSHBYTES_20 | OP_PUSHBYTES_21
  | OP_PUSHBYTES_22 | OP_PUSHBYTES_23 | OP_PUSHBYTES_24 | OP_PUSHBYTES_25
  | OP_PUSHBYTES_26 | OP_PUSHBYTES_27 | OP_PUSHBYTES_28 | OP_PUSHBYTES_29
  | OP_PUSHBYTES_30 | OP_PUSHBYTES_31 | OP_PUSHBYTES_32 | OP_PUSHBYTES_33
  | OP_PUSHBYTES_34 | OP_PUSHBYTES_35 | OP_PUSHBYTES_36 | OP_PUSHBYTES_37
  | OP_PUSHBYTES_38 | OP_PUSHBYTES_39 | OP_PUSHBYTES_40 | OP_PUSHBYTES_41
  | OP_PUSHBYTES_42 | OP_PUSHBYTES_43 | OP_PUSHBYTES_44 | OP_PUSHBYTES_45
  | OP_PUSHBYTES_46 | OP_PUSHBYTES_47 | OP_PUSHBYTES_48 | OP_PUSHBYTES_49
  | OP_PUSHBYTES_50 | OP_PUSHBYTES_51 | OP_PUSHBYTES_52 | OP_PUSHBYTES_53
  | OP_PUSHBYTES_54 | OP_PUSHBYTES_55 | OP_PUSHBYTES_56 | OP_PUSHBYTES_57
  | OP_PUSHBYTES_58 | OP_PUSHBYTES_59 | OP_PUSHBYTES_60 | OP_PUSHBYTES_61
  | OP_PUSHBYTES_62 | OP_PUSHBYTES_63 | OP_PUSHBYTES_64 | OP_PUSHBYTES_65
  | OP_PUSHBYTES_66 | OP_PUSHBYTES_67 | OP_PUSHBYTES_68 | OP_PUSHBYTES_69
  | OP_PUSHBYTES_70 | OP_PUSHBYTES_71 | OP_PUSHBYTES_72 | OP_PUSHBYTES_73
  | OP_PUSHBYTES_74 | OP_PUSHBYTES_75 | OP_PUSHDATA1 | OP_PUSHDATA2 | OP_PUSHDATA4
  | OP_1NEGATE | OP_RESERVED | OP_1 | OP_2 | OP_3 | OP_4 | OP_5 | OP_6 | OP_7 | OP_8
  | OP_9 | OP_10 | OP_11 | OP_12 | OP_13 | OP_14 | OP_15 | OP_16 | OP_NOP | OP_VER
  | OP_IF | OP_NOTIF | OP_VERIF | OP_VERNOTIF | OP_ELSE | OP_ENDIF | OP_VERIFY
  | OP_RETURN | OP_TOALTSTACK | OP_FROMALTSTACK | OP_2DROP | OP_2DUP | OP_3DUP
  | OP_2OVER | OP_2ROT | OP_2SWAP | OP_IFDUP | OP_DEPTH | OP_DROP | OP_DUP | OP_NIP
  | OP_OVER | OP_PICK | OP_ROLL | OP_ROT | OP_SWAP | OP_TUCK | OP_CAT | OP_SUBSTR
  | OP_LEFT | OP_RIGHT | OP_SIZE | OP_INVERT | OP_AND | OP_OR | OP_XOR | OP_EQUAL
  | OP_EQUALVERIFY | OP_RESERVED1 | OP_RESERVED2 | OP_1ADD | OP_1SUB | OP_2MUL
  | OP_2DIV | OP_NEGATE | OP_ABS | OP_NOT | OP_0NOTEQUAL | OP_ADD | OP_SUB | OP_MUL
  | OP_DIV | OP_MOD | OP_LSHIFT | OP_RSHIFT | OP_BOOLAND | OP_BOOLOR | OP_NUMEQUAL
  | OP_NUMEQUALVERIFY | OP_NUMNOTEQUAL | OP_LESSTHAN | OP_GREATERTHAN
  | OP_LESSTHANOREQUAL | OP_GREATERTHANOREQUAL | OP_MIN | OP_MAX | OP_WITHIN
  | OP_RIPEMD160 | OP_SHA1 | OP_SHA256 | OP_HASH160 | OP_HASH256 | OP_CODESEPARATOR
  | OP_CHECKSIG | OP_CHECKSIGVERIFY | OP_CHECKMULTISIG | OP_CHECKMULTISIGVERIFY
  | OP_NOP1 | OP_CHECKLOCKTIMEVERIFY | OP_CHECKSEQUENCEVERIFY | OP_NOP4 | OP_NOP5
  | OP_NOP6 | OP_NOP7 | OP_NOP8 | OP_NOP9 | OP_NOP10 | OP_CHECKDATASIG
  | OP_CHECKDATASIGVERIFY.

(** [opcode as u8]: the discriminants of the [repr(u8)] enum. *)
Definition opcode_byte (o : Opcode) : byte :=
  match o with
  | OP_0 => x00 | OP_PUSHBYTES_1 => x01 | OP_PUSHBYTES_2 => x02 | OP_PUSHBYTES_3 => x03
  | OP_PUSHBYTES_4 => x04 | OP_PUSHBYTES_5 => x05 | OP_PUSHBYTES_6 => x06
  | OP_PUSHBYTES_7 => x07 | OP_PUSHBYTES_8 => x08 | OP_PUSHBYTES_9 => x09
  | OP_PUSHBYTES_10 => x0a | OP_PUSHBYTES_11 => x0b | OP_PUSHBYTES_12 => x0c
  | OP_PUSHBYTES_13 => x0d | OP_PUSHBYTES_14 => x0e | OP_PUSHBYTES_15 => x0f
  | OP_PUSHBYTES_16 => x10 | OP_PUSHBYTES_17 => x11 | OP_PUSHBYTES_18 => x12
  | OP_PUSHBYTES_19 => x13 | OP_PUSHBYTES_20 => x14 | OP_PUSHBYTES_21 => x15
  | OP_PUSHBYTES_22 => x16 | OP_PUSHBYTES_23 => x17 | OP_PUSHBYTES_24 => x18
  | OP_PUSHBYTES_25 => x19 | OP_PUSHBYTES_26 => x1a | OP_PUSHBYTES_27 => x1b
  | OP_PUSHBYTES_28 => x1c | OP_PUSHBYTES_29 => x1d | OP_PUSHBYTES_30 => x1e
  | OP_PUSHBYTES_31 => x1f | OP_PUSHBYTES_32 => x20 | OP_PUSHBYTES_33 => x21
  | OP_PUSHBYTES_34 => x22 | OP_PUSHBYTES_35 => x23 | OP_PUSHBYTES_36 => x24
  | OP_PUSHBYTES_37 => x25 | OP_PUSHBYTES_38 => x26 | OP_PUSHBYTES_39 => x27
  | OP_PUSHBYTES_40 => x28 | OP_PUSHBYTES_41 => x29 | OP_PUSHBYTES_42 => x2a
  | OP_PUSHBYTES_43 => x2b | OP_PUSHBYTES_44 => x2c | OP_PUSHBYTES_45 => x2d
  | OP_PUSHBYTES_46 => x2e | OP_PUSHBYTES_47 => x2f | OP_PUSHBYTES_48 => x30
  | OP_PUSHBYTES_49 => x31 | OP_PUSHBYTES_50 => x32 | OP_PUSHBYTES_51 => x33
  | OP_PUSHBYTES_52 => x34 | OP_PUSHBYTES_53 => x35 | OP_PUSHBYTES_54 => x36
  | OP_PUSHBYTES_55 => x37 | OP_PUSHBYTES_56 => x38 | OP_PUSHBYTES_57 => x39
  | OP_PUSHBYTES_58 => x3a | OP_PUSHBYTES_59 => x3b | OP_PUSHBYTES_60 => x3c
  | OP_PUSHBYTES_61 => x3d | OP_PUSHBYTES_62 => x3e | OP_PUSHBYTES_63 => x3f
  | OP_PUSHBYTES_64 => x40 | OP_PUSHBYTES_65 => x41 | OP_PUSHBYTES_66 => x42
  | OP_PUSHBYTES_67 => x43 | OP_PUSHBYTES_68 => x44 | OP_PUSHBYTES_69 => x45
  | OP_PUSHBYTES_70 => x46 | OP_PUSHBYTES_71 => x47 | OP_PUSHBYTES_72 => x48
  | OP_PUSHBYTES_73 => x49 | OP_PUSHBYTES_74 => x4a | OP_PUSHBYTES_75 => x4b
  | OP_PUSHDATA1 => x4c | OP_PUSHDATA2 => x4d | OP_PUSHDATA4 => x4e | OP_1NEGATE => x4f
  | OP_RESERVED => x50 | OP_1 => x51 | OP_2 => x52 | OP_3 => x53 | OP_4 => x54
  | OP_5 => x55 | OP_6 => x56 | OP_7 => x57 | OP_8 => x58 | OP_9 => x59 | OP_10 => x5a
  | OP_11 => x5b | OP_12 => x5c | OP_13 => x5d | OP_14 => x5e | OP_15 => x5f
  | OP_16 => x60 | OP_NOP => x61 | OP_VER => x62 | OP_IF => x63 | OP_NOTIF => x64
  | OP_VERIF => x65 | OP_VERNOTIF => x66 | OP_ELSE => x67 | OP_ENDIF => x68
  | OP_VERIFY => x69 | OP_RETURN => x6a | OP_TOALTSTACK => x6b | OP_FROMALTSTACK => x6c
  | OP_2DROP => x6d | OP_2DUP => x6e | OP_3DUP => x6f | OP_2OVER => x70
  | OP_2ROT => x71 | OP_2SWAP => x72 | OP_IFDUP => x73 | OP_DEPTH => x74
  | OP_DROP => x75 | OP_DUP => x76 | OP_NIP => x77 | OP_OVER => x78 | OP_PICK => x79
  | OP_ROLL => x7a | OP_ROT => x7b | OP_SWAP => x7c | OP_TUCK => x7d | OP_CAT => x7e
  | OP_SUBSTR => x7f | OP_LEFT => x80 | OP_RIGHT => x81 | OP_SIZE => x82
  | OP_INVERT => x83 | OP_AND => x84 | OP_OR => x85 | OP_XOR => x86 | OP_EQUAL => x87
  | OP_EQUALVERIFY => x88 | OP_RESERVED1 => x89 | OP_RESERVED2 => x8a | OP_1ADD => x8b
  | OP_1SUB => x8c | OP_2MUL => x8d | OP_2DIV => x8e | OP_NEGATE => x8f | OP_ABS => x90
  | OP_NOT => x91 | OP_0NOTEQUAL => x92 | OP_ADD => x93 | OP_SUB => x94 | OP_MUL => x95
  | OP_DIV => x96 | OP_MOD => x97 | OP_LSHIFT => x98 | OP_RSHIFT => x99
  | OP_BOOLAND => x9a | OP_BOOLOR => x9b | OP_NUMEQUAL => x9c
  | OP_NUMEQUALVERIFY => x9d | OP_NUMNOTEQUAL => x9e | OP_LESSTHAN => x9f
  | OP_GREATERTHAN => xa0 | OP_LESSTHANOREQUAL => xa1 | OP_GREATERTHANOREQUAL => xa2
  | OP_MIN => xa3 | OP_MAX => xa4 | OP_WITHIN => xa5 | OP_RIPEMD160 => xa6
  | OP_SHA1 => xa7 | OP_SHA256 => xa8 | OP_HASH160 => xa9 | OP_HASH256 => xaa
  | OP_CODESEPARATOR => xab | OP_CHECKSIG => xac | OP_CHECKSIGVERIFY => xad
  | OP_CHECKMULTISIG => xae | OP_CHECKMULTISIGVERIFY => xaf | OP_NOP1 => xb0
  | OP_CHECKLOCKTIMEVERIFY => xb1 | OP_CHECKSEQUENCEVERIFY => xb2 | OP_NOP4 => xb3
  | OP_NOP5 => xb4 | OP_NOP6 => xb5 | OP_NOP7 => xb6 | OP_NOP8 => xb7 | OP_NOP9 => xb8
  | OP_NOP10 => xb9 | OP_CHECKDATASIG => xba | OP_CHECKDATASIGVERIFY => xbb
  end.

Definition from_u8 (u : byte) : option Opcode :=
  match u with
  | x00 => Some OP_0 | x01 => Some OP_PUSHBYTES_1 | x02 => Some OP_PUSHBYTES_2
  | x03 => Some OP_PUSHBYTES_3 | x04 => Some OP_PUSHBYTES_4
  | x05 => Some OP_PUSHBYTES_5 | x06 => Some OP_PUSHBYTES_6
  | x07 => Some OP_PUSHBYTES_7 | x08 => Some OP_PUSHBYTES_8
  | x09 => Some OP_PUSHBYTES_9 | x0a => Some OP_PUSHBYTES_10
  | x0b => Some OP_PUSHBYTES_11 | x0c => Some OP_PUSHBYTES_12
  | x0d => Some OP_PUSHBYTES_13 | x0e => Some OP_PUSHBYTES_14
  | x0f => Some OP_PUSHBYTES_15 | x10 => Some OP_PUSHBYTES_16
  | x11 => Some OP_PUSHBYTES_17 | x12 => Some OP_PUSHBYTES_18
  | x13 => Some OP_PUSHBYTES_19 | x14 => Some OP_PUSHBYTES_20
  | x15 => Some OP_PUSHBYTES_21 | x16 => Some OP_PUSHBYTES_22
  | x17 => Some OP_PUSHBYTES_23 | x18 => Some OP_PUSHBYTES_24
  | x19 => Some OP_PUSHBYTES_25 | x1a => Some OP_PUSHBYTES_26
  | x1b => Some OP_PUSHBYTES_27 | x1c => Some OP_PUSHBYTES_28
  | x1d => Some OP_PUSHBYTES_29 | x1e => Some OP_PUSHBYTES_30
  | x1f => Some OP_PUSHBYTES_31 | x20 => Some OP_PUSHBYTES_32
  | x21 => Some OP_PUSHBYTES_33 | x22 => Some OP_PUSHBYTES_34
  | x23 => Some OP_PUSHBYTES_35 | x24 => Some OP_PUSHBYTES_36
  | x25 => Some OP_PUSHBYTES_37 | x26 => Some OP_PUSHBYTES_38
  | x27 => Some OP_PUSHBYTES_39 | x28 => Some OP_PUSHBYTES_40
  | x29 => Some OP_PUSHBYTES_41 | x2a => Some OP_PUSHBYTES_42
  | x2b => Some OP_PUSHBYTES_43 | x2c => Some OP_PUSHBYTES_44
  | x2d => Some OP_PUSHBYTES_45 | x2e => Some OP_PUSHBYTES_46
  | x2f => Some OP_PUSHBYTES_47 | x30 => Some OP_PUSHBYTES_48
  | x31 => Some OP_PUSHBYTES_49 | x32 => Some OP_PUSHBYTES_50
  | x33 => Some OP_PUSHBYTES_51 | x34 => Some OP_PUSHBYTES_52
  | x35 => Some OP_PUSHBYTES_53 | x36 => Some OP_PUSHBYTES_54
  | x37 => Some OP_PUSHBYTES_55 | x38 => Some OP_PUSHBYTES_56
  | x39 => Some OP_PUSHBYTES_57 | x3a => Some OP_PUSHBYTES_58
  | x3b => Some OP_PUSHBYTES_59 | x3c => Some OP_PUSHBYTES_60
  | x3d => Some OP_PUSHBYTES_61 | x3e => Some OP_PUSHBYTES_62
  | x3f => Some OP_PUSHBYTES_63 | x40 => Some OP_PUSHBYTES_64
  | x41 => Some OP_PUSHBYTES_65 | x42 => Some OP_PUSHBYTES_66
  | x43 => Some OP_PUSHBYTES_67 | x44 => Some OP_PUSHBYTES_68
  | x45 => Some OP_PUSHBYTES_69 | x46 => Some OP_PUSHBYTES_70
  | x47 => Some OP_PUSHBYTES_71 | x48 => Some OP_PUSHBYTES_72
  | x49 => Some OP_PUSHBYTES_73 | x4a => Some OP_PUSHBYTES_74
  | x4b => Some OP_PUSHBYTES_75 | x4c => Some OP_PUSHDATA1 | x4d => Some OP_PUSHDATA2
  | x4e => Some OP_PUSHDATA4 | x4f => Some OP_1NEGATE | x50 => Some OP_RESERVED
  | x51 => Some OP_1 | x52 => Some OP_2 | x53 => Some OP_3 | x54 => Some OP_4
  | x55 => Some OP_5 | x56 => Some OP_6 | x57 => Some OP_7 | x58 => Some OP_8
  | x59 => Some OP_9 | x5a => Some OP_10 | x5b => Some OP_11 | x5c => Some OP_12
  | x5d => Some OP_13 | x5e => Some OP_14 | x5f => Some OP_15 | x60 => Some OP_16
  | x61 => Some OP_NOP | x62 => Some OP_VER | x63 => Some OP_IF | x64 => Some OP_NOTIF
  | x65 => Some OP_VERIF | x66 => Some OP_VERNOTIF | x67 => Some OP_ELSE
  | x68 => Some OP_ENDIF | x69 => Some OP_VERIFY | x6a => Some OP_RETURN
  | x6b => Some OP_TOALTSTACK | x6c => Some OP_FROMALTSTACK | x6d => Some OP_2DROP
  | x6e => Some OP_2DUP | x6f => Some OP_3DUP | x70 => Some OP_2OVER
  | x71 => Some OP_2ROT | x72 => Some OP_2SWAP | x73 => Some OP_IFDUP
  | x74 => Some OP_DEPTH | x75 => Some OP_DROP | x76 => Some OP_DUP
  | x77 => Some OP_NIP | x78 => Some OP_OVER | x79 => Some OP_PICK
  | x7a => Some OP_ROLL | x7b => Some OP_ROT | x7c => Some OP_SWAP
  | x7d => Some OP_TUCK | x7e => Some OP_CAT | x7f => Some OP_SUBSTR
  | x80 => Some OP_LEFT | x81 => Some OP_RIGHT | x82 => Some OP_SIZE
  | x83 => Some OP_INVERT | x84 => Some OP_AND | x85 => Some OP_OR | x86 => Some OP_XOR
  | x87 => Some OP_EQUAL | x88 => Some OP_EQUALVERIFY | x89 => Some OP_RESERVED1
  | x8a => Some OP_RESERVED2 | x8b => Some OP_1ADD | x8c => Some OP_1SUB
  | x8d => Some OP_2MUL | x8e => Some OP_2DIV | x8f => Some OP_NEGATE
  | x90 => Some OP_ABS | x91 => Some OP_NOT | x92 => Some OP_0NOTEQUAL
  | x93 => Some OP_ADD | x94 => Some OP_SUB | x95 => Some OP_MUL | x96 => Some OP_DIV
  | x97 => Some OP_MOD | x98 => Some OP_LSHIFT | x99 => Some OP_RSHIFT
  | x9a => Some OP_BOOLAND | x9b => Some OP_BOOLOR | x9c => Some OP_NUMEQUAL
  | x9d => Some OP_NUMEQUALVERIFY | x9e => Some OP_NUMNOTEQUAL
  | x9f => Some OP_LESSTHAN | xa0 => Some OP_GREATERTHAN
  | xa1 => Some OP_LESSTHANOREQUAL | xa2 => Some OP_GREATERTHANOREQUAL
  | xa3 => Some OP_MIN | xa4 => Some OP_MAX | xa5 => Some OP_WITHIN
  | xa6 => Some OP_RIPEMD160 | xa7 => Some OP_SHA1 | xa8 => Some OP_SHA256
  | xa9 => Some OP_HASH160 | xaa => Some OP_HASH256 | xab => Some OP_CODESEPARATOR
  | xac => Some OP_CHECKSIG | xad => Some OP_CHECKSIGVERIFY
  | xae => Some OP_CHECKMULTISIG | xaf => Some OP_CHECKMULTISIGVERIFY
  | xb0 => Some OP_NOP1 | xb1 => Some OP_CHECKLOCKTIMEVERIFY
  | xb2 => Some OP_CHECKSEQUENCEVERIFY | xb3 => Some OP_NOP4 | xb4 => Some OP_NOP5
  | xb5 => Some OP_NOP6 | xb6 => Some OP_NOP7 | xb7 => Some OP_NOP8
  | xb8 => Some OP_NOP9 | xb9 => Some OP_NOP10 | xba => Some OP_CHECKDATASIG
  | xbb => Some OP_CHECKDATASIGVERIFY | _ => None
  end.

Definition opcode_u8 (o : Opcode) : Z := u8 (opcode_byte o).

(** The derived [PartialOrd]: comparison of discriminants. *)
Definition opcode_leb (a b : Opcode) : bool := opcode_u8 a <=? opcode_u8 b.
Definition opcode_ltb (a b : Opcode) : bool := opcode_u8 a <? opcode_u8 b.

Lemma from_u8_opcode_byte o : from_u8 (opcode_byte o) = Some o.
Proof. by destruct o. Qed.

#[global] Instance opcode_byte_inj : Inj (=) (=) opcode_byte.
Proof.
  intros a b H. apply (inj Some). by rewrite <- !from_u8_opcode_byte, H.
Qed.

#[global] Instance opcode_eq_dec : EqDecision Opcode.
Proof.
  refine (fun a b => match decide (opcode_byte a = opcode_byte b) with
                     | left H => left _
                     | right H => right _
                     end).
  - by apply (inj opcode_byte).
  - by intros ->.
Defined.

Definition opcode_eqb (a b : Opcode) : bool := bool_decide (a = b).

Definition is_disabled (o : Opcode) (flags : VerificationFlags) : bool :=
  match o with
  | OP_CAT => negb (verify_concat flags)
  | OP_SUBSTR => negb (verify_split flags)
  | OP_AND => negb (verify_and flags)
  | OP_OR => negb (verify_or flags)
  | OP_XOR => negb (verify_xor flags)
  | OP_DIV => negb (verify_div flags)
  | OP_MOD => negb (verify_mod flags)
  | OP_RIGHT => negb (verify_bin2num flags)
  | OP_LEFT => negb (verify_num2bin flags)
  | OP_INVERT | OP_2MUL | OP_2DIV | OP_MUL | OP_LSHIFT | OP_RSHIFT => true
  | _ => false
  end.

Definition is_countable (o : Opcode) : bool := opcode_ltb OP_16 o.

Definition is_simple_push (o : Opcode) : bool := opcode_ltb o OP_PUSHDATA1.

Definition is_push_value (o : Opcode) : bool :=
  opcode_leb OP_1NEGATE o && opcode_leb o OP_16.

Definition is_within_op_n (o : Opcode) : bool :=
  opcode_leb OP_1 o && opcode_leb o OP_16.

(** [decode_op_n] asserts [is_within_op_n]. *)
Definition decode_op_n {E} (o : Opcode) : outcome E Z :=
  _ ← rust_assert (is_within_op_n o);
  let value := opcode_u8 o in
  let op0 := opcode_u8 OP_1 - 1 in
  Ok (value - op0).

(** * Interpreter errors (error.rs) *)

Module Error.
Inductive Error : Type :=
  | Unknown | EvalFalse | ReturnOpcode | ScriptSize | PushSize | OpCount | StackSize
  | NumberOverflow | NumberNotMinimallyEncoded | SigCount | PubkeyCount
  | InvalidOperandSize | Verify | EqualVerify | CheckSigVerify | CheckDataSigVerify
  | NumEqualVerify | BadOpcode | DisabledOpcode (o : Opcode) | InvalidStackOperation
  | InvalidAltstackOperation | UnbalancedConditional | InvalidSplitRange
  | DivisionByZero | ImpossibleEncoding | NegativeLocktime | UnsatisfiedLocktime
  | SignatureHashtype | SignatureDer | SignatureIllegalForkId | SignatureMustUseForkId
  | Minimaldata | SignaturePushOnly | SignatureHighS | SignatureNullDummy | PubkeyType
  | Cleanstack | DiscourageUpgradableNops | DiscourageUpgradableWitnessProgram
  | WitnessProgramWrongLength | WitnessProgramWitnessEmpty | WitnessProgramMismatch
  | WitnessMalleated | WitnessMalleatedP2SH | WitnessUnexpected | WitnessPubKeyType.
End Error.

(** * Lemmas *)

Lemma from_u8_Some u o : from_u8 u = Some o <-> opcode_byte o = u.
Proof.
  split; [|intros <-; apply from_u8_opcode_byte].
  destruct u; intros H; try discriminate H; by injection H as <-.
Qed.

Lemma opcode_eqb_eq a b : opcode_eqb a b = true <-> a = b.
Proof. apply bool_decide_eq_true. Qed.

(** The defined opcodes are exactly the bytes up to 0xbb. *)
Lemma from_u8_defined u : is_Some (from_u8 u) <-> u8 u <= 187.
Proof.
  split.
  - intros [o Ho]. apply from_u8_Some in Ho as <-. by destruct o.
  - destruct u; intros H; first [exact (ex_intro _ _ eq_refl) | by destruct H].
Qed.

Lemma decode_op_n_spec {E} o :
  is_within_op_n o = true -> exists n, @decode_op_n E o = Ok n /\ 1 <= n <= 16.
Proof.
  intros H. unfold decode_op_n. rewrite H. eexists. split; [done|].
  unfold is_within_op_n, opcode_leb in H. bool_prop.
  change (opcode_u8 OP_1) with 81 in *. change (opcode_u8 OP_16) with 96 in *. lia.
Qed.
