(* ===== verification/Num.v ===== *)
(** Script numbers (src/script/src/num.rs): the sign-magnitude little-endian
    encoding of the interpreter's integers, its parser with the minimality and
    size rules, and the checked 64-bit arithmetic on parsed numbers.  A [Num]
    is its [value] field, a [Z] that stays within [i64]. *)
From Stdlib Require Import ZArith Lia Strings.Byte.
From stdpp Require Import base decidable numbers list.
From S2P Require Import Prelude Opcode.

Local Open Scope Z_scope.

Module Num.

(** * Conversions *)

Definition from_bool (i : bool) : Z := if i then 1 else 0.

(** [usize as i64]. *)
Definition from_usize (i : Z) : Z := swrap 64 i.

(** [i64 as u32] and [i64 as usize]. *)
Definition to_u32 (n : Z) : Z := wrap 32 n.
Definition to_usize (n : Z) : Z := wrap 64 n.

(** * Parsing *)

(** [x << n] on [i64]: the shift amount is checked, high bits are lost. *)
Definition shl_i64 {E} (x n : Z) : outcome E Z :=
  if n <? 64 then Ok (swrap 64 (Z.shiftl x n)) else Panic.

(** The loop [for (i, item) in data.iter().enumerate() { result |= item << 8i }]. *)
Fixpoint or_bytes {E} (data : bytes) (i result : Z) : outcome E Z :=
  match data with
  | [] => Ok result
  | item :: data' =>
      s ← shl_i64 (u8 item) (8 * i);
      or_bytes data' (i + 1) (Z.lor result s)
  end.

Definition from_slice (data : bytes) (require_minimal : bool) (max_size : Z)
    : outcome Error.Error Z :=
  if max_size <? zlen data then Err Error.NumberOverflow else
  match last data with
  | None => Ok 0
  | Some lst =>
      not_minimal ←
        (if require_minimal && (Z.land (u8 lst) 127 =? 0) then
           if zlen data <=? 1 then Ok true
           else b ← index data (length data - 2); Ok (Z.land (u8 b) 128 =? 0)
         else Ok false);
      if not_minimal : bool then Err Error.NumberNotMinimallyEncoded else
      result ← or_bytes data 0 0;
      if negb (Z.land (u8 lst) 128 =? 0) then
        m ← shl_i64 128 (8 * (zlen data - 1));
        scheck 64 (- Z.land result (Z.lnot m))
      else Ok result
  end.

(** [data.iter().rev().skip_while(|x| x == 0)], reversed back. *)
Fixpoint skip_zeros (rdata : bytes) : bytes :=
  match rdata with
  | x00 :: r => skip_zeros r
  | _ => rdata
  end.

Definition or_byte (a b : byte) : byte := byte_of (Z.lor (u8 a) (u8 b)).

Definition minimally_encode (data : bytes) (max_size : Z) : outcome Error.Error Z :=
  match last data with
  | None => from_slice data true max_size
  | Some lst =>
      if negb (u8 lst =? 0) && negb (u8 lst =? 128) then from_slice data true max_size else
      if zlen data =? 1 then from_slice [] true max_size else
      b ← index data (length data - 2);
      if Z.land (u8 b) 128 =? 128 then from_slice data true max_size else
      let data' := reverse (skip_zeros (reverse (take (length data - 1) data))) in
      if zlen data' =? 0 then from_slice [] true max_size else
      second_last ← expect (last data');
      let data'' :=
        if Z.land (u8 second_last) 128 =? 128 then data' ++ [lst]
        else alter (fun x => or_byte x lst) (length data' - 1)%nat data' in
      from_slice data'' true max_size
  end.

(** * Printing *)

(** The loop [while absvalue > 0 { push(absvalue as u8); absvalue >>= 8 }]; a
    [u64] is exhausted after eight rounds. *)
Fixpoint abs_bytes {E} (fuel : nat) (absvalue : Z) : outcome E bytes :=
  if absvalue <=? 0 then Ok []
  else match fuel with
       | O => Diverge
       | S fuel' =>
           rest ← abs_bytes fuel' (Z.shiftr absvalue 8);
           Ok (byte_of (Z.land absvalue 255) :: rest)
       end.

Definition to_bytes {E} (value : Z) : outcome E bytes :=
  if value =? 0 then Ok [] else
  let negative := value <? 0 in
  absvalue ← (if negative then v ← scheck 64 (- value); Ok (wrap 64 v)
              else Ok (wrap 64 value));
  result ← abs_bytes 8 absvalue;
  lst ← index result (length result - 1);
  if negb (Z.land (u8 lst) 128 =? 0) then
    Ok (result ++ [if negative then x80 else x00])
  else if negative then
    Ok (alter (fun b => or_byte b x80) (length result - 1)%nat result)
  else Ok result.

(** * Arithmetic on [i64] *)

Definition is_negative (n : Z) : bool := n <? 0.
Definition is_zero (n : Z) : bool := n =? 0.
Definition abs {E} (n : Z) : outcome E Z := if n <? 0 then scheck 64 (- n) else Ok n.
Definition add {E} (a b : Z) : outcome E Z := scheck 64 (a + b).
Definition sub {E} (a b : Z) : outcome E Z := scheck 64 (a - b).
Definition neg {E} (a : Z) : outcome E Z := scheck 64 (- a).
Definition bitand (a b : Z) : Z := Z.land a b.
(** Division and remainder truncate towards zero and panic on zero. *)
Definition div {E} (a b : Z) : outcome E Z :=
  if b =? 0 then Panic else scheck 64 (Z.quot a b).
Definition rem {E} (a b : Z) : outcome E Z :=
  if b =? 0 then Panic else _ ← @scheck E 64 (Z.quot a b); Ok (Z.rem a b).

(** * Specification *)

(** The integer a byte string denotes: little-endian magnitude, the top bit of
    the last byte is the sign. *)
Definition num_value (data : bytes) : Z :=
  match last data with
  | None => 0
  | Some lst =>
      let magnitude :=
        le_value (removelast data) + 256 ^ (zlen data - 1) * (u8 lst mod 128) in
      if u8 lst <? 128 then magnitude else - magnitude
  end.

(** A byte string with no shorter encoding of the same number. *)
Definition minimal (data : bytes) : bool :=
  match last data with
  | None => true
  | Some lst =>
      negb (u8 lst mod 128 =? 0) ||
      match last (removelast data) with
      | Some b => 128 <=? u8 b
      | None => false
      end
  end.

(** * Bit-level lemmas *)

Lemma land_127 b : Z.land (u8 b) 127 = u8 b mod 128.
Proof. exact (Z.land_ones (u8 b) 7 ltac:(lia)). Qed.

Lemma land_128_clear b : (Z.land (u8 b) 128 =? 0) = (u8 b <? 128).
Proof. by destruct b. Qed.

Lemma land_128_set b : (Z.land (u8 b) 128 =? 128) = (128 <=? u8 b).
Proof. by destruct b. Qed.

Lemma or_byte_0 b : or_byte b x00 = b.
Proof. by destruct b. Qed.

Lemma u8_or_byte_128 b : u8 b < 128 -> u8 (or_byte b x80) = u8 b + 128.
Proof. destruct b; vm_compute; intros; done. Qed.

Lemma land_lnot_top r n :
  0 <= n -> 0 <= r < 2 ^ n -> Z.land (r + 2 ^ n) (Z.lnot (2 ^ n)) = r.
Proof.
  intros Hn Hr. rewrite <- Z.ldiff_land.
  rewrite <- Z.sub_nocarry_ldiff; [lia|].
  replace (r + 2 ^ n) with (Z.lor r (Z.shiftl 1 n)) by (rewrite lor_shiftl_add; lia).
  apply Z.bits_inj'. intros k Hk.
  rewrite Z.ldiff_spec, Z.lor_spec, Z.shiftl_1_l, Z.bits_0.
  destruct (Z.testbit (2 ^ n) k); [|done]. by rewrite orb_true_r.
Qed.

Lemma pow_256 k : 0 <= k -> 2 ^ (8 * k) = 256 ^ k.
Proof. intros. by rewrite Z.pow_mul_r by lia. Qed.

Lemma pow_256_pos k : 0 <= k -> 0 < 256 ^ k.
Proof. intros. apply Z.pow_pos_nonneg; lia. Qed.

Lemma shl_i64_Ok {E} x k :
  0 <= k -> 0 <= x -> x * 256 ^ k < 2 ^ 63 -> k < 8 -> @shl_i64 E x (8 * k) = Ok (Z.shiftl x (8 * k)).
Proof.
  intros Hk Hx Hb Hk8. unfold shl_i64. rewrite (proj2 (Z.ltb_lt _ _)) by lia.
  rewrite Z.shiftl_mul_pow2, pow_256 by lia.
  rewrite swrap_sint; [done|lia|]. pose proof (pow_256_pos k Hk).
  unfold sint. change (2 ^ (64 - 1)) with (2 ^ 63). nia.
Qed.

Lemma le_value_app a b : le_value (a ++ b) = le_value a + 256 ^ zlen a * le_value b.
Proof.
  induction a as [|x a IH]; [by cbn -[Z.pow]; rewrite Z.pow_0_r; lia|].
  cbn [app le_value length]. rewrite IH, Nat2Z.inj_succ, Z.pow_succ_r by lia. lia.
Qed.

Lemma le_value_inj a b : length a = length b -> le_value a = le_value b -> a = b.
Proof. intros Hl Hv. by rewrite <- (le_bytes_le_value a), Hl, Hv, le_bytes_le_value. Qed.

Lemma pow_256_mono a b : 0 <= a <= b -> 256 ^ a <= 256 ^ b.
Proof. intros. apply Z.pow_le_mono_r; lia. Qed.

(** * The parser *)

Lemma or_bytes_spec {E} data i r :
  0 <= i -> i + zlen data <= 7 -> 0 <= r < 256 ^ i ->
  @or_bytes E data i r = Ok (r + 256 ^ i * le_value data).
Proof.
  revert i r. induction data as [|b data IH]; intros i r Hi Hl Hr.
  { cbn -[Z.pow]. f_equal. lia. }
  cbn [or_bytes le_value]. cbn [length] in Hl.
  pose proof (u8_bound b). pose proof (pow_256_mono i 6 ltac:(lia)).
  rewrite shl_i64_Ok by (try lia; nia). cbn [mbind outcome_bind].
  rewrite lor_shiftl_add by (rewrite ?pow_256; lia).
  rewrite pow_256, IH, Z.pow_add_r by (rewrite ?Z.pow_add_r; nia). f_equal. lia.
Qed.

Lemma num_value_snoc init l :
  num_value (init ++ [l]) =
  (if u8 l <? 128 then 1 else -1) * (le_value init + 256 ^ zlen init * (u8 l mod 128)).
Proof.
  unfold num_value. rewrite last_snoc, removelast_last, length_app. simpl length.
  replace (Z.of_nat (length init + 1) - 1) with (zlen init) by lia.
  destruct (u8 l <? 128); lia.
Qed.

Lemma minimal_snoc init l :
  minimal (init ++ [l]) =
  negb (u8 l mod 128 =? 0) || match last init with Some b => 128 <=? u8 b | None => false end.
Proof. unfold minimal. by rewrite last_snoc, removelast_last. Qed.

(** The second byte from the end, as the code indexes it. *)
Lemma index_second_last {E} (init : bytes) l :
  init <> [] ->
  exists b, last init = Some b /\ @index E _ (init ++ [l]) (length (init ++ [l]) - 2) = Ok b.
Proof.
  intros Hne. destruct (exists_last Hne) as (i & b & ->). exists b.
  rewrite last_snoc, !length_app. split; [done|]. unfold index. cbn [length].
  replace (length i + 1 + 1 - 2)%nat with (length i) by lia.
  rewrite <- app_assoc. cbn [app]. by rewrite list_lookup_middle.
Qed.

Lemma minimality_check {E} rm (init : bytes) l :
  (if rm && (u8 l mod 128 =? 0) then
     if zlen (init ++ [l]) <=? 1 then Ok true
     else b ← index (init ++ [l]) (length (init ++ [l]) - 2); Ok (Z.land (u8 b) 128 =? 0)
   else Ok false) = @Ok E _ (rm && negb (minimal (init ++ [l]))).
Proof.
  rewrite minimal_snoc. destruct rm, (u8 l mod 128 =? 0); simpl; try done.
  destruct (decide (init = [])) as [->|Hne]; [done|].
  rewrite (proj2 (Z.leb_gt _ _)) by (rewrite length_app; destruct init; simpl; lia || done).
  destruct (@index_second_last E init l Hne) as (b & -> & ->). cbn.
  rewrite land_128_clear. f_equal. by rewrite Z.leb_antisym, negb_involutive.
Qed.

(** The sign branch: the sign bit is cleared and the magnitude negated. *)
Lemma negate_magnitude {E} r k l :
  0 <= k <= 6 -> 0 <= r < 256 ^ k -> 128 <= u8 l ->
  (m ← shl_i64 128 (8 * k);
   scheck 64 (- Z.land (r + 256 ^ k * u8 l) (Z.lnot m))) =
  @Ok E _ (- (r + 256 ^ k * (u8 l mod 128))).
Proof.
  intros Hk Hr Hl. pose proof (u8_bound l).
  pose proof (pow_256_mono k 6 ltac:(lia)). pose proof (pow_256_pos k ltac:(lia)).
  rewrite shl_i64_Ok by lia. cbn [mbind outcome_bind].
  assert (Hmod : u8 l mod 128 = u8 l - 128)
    by (rewrite <- (Z.mod_unique (u8 l) 128 1 (u8 l - 128)); lia).
  assert (Hp : 2 ^ (7 + 8 * k) = 128 * 256 ^ k)
    by (rewrite Z.pow_add_r, pow_256 by lia; done).
  rewrite Z.shiftl_mul_pow2, pow_256, <- Hp by lia.
  replace (r + 256 ^ k * u8 l) with (r + 256 ^ k * (u8 l mod 128) + 2 ^ (7 + 8 * k))
    by (rewrite Hp, Hmod; lia).
  rewrite land_lnot_top by (rewrite ?Hp, ?Hmod; nia).
  apply scheck_Ok. unfold sint. rewrite Hmod. change (2 ^ (64 - 1)) with (2 ^ 63). nia.
Qed.

Lemma from_slice_spec data rm max :
  zlen data <= max -> max <= 7 ->
  from_slice data rm max =
  if rm && negb (minimal data) then Err Error.NumberNotMinimallyEncoded
  else Ok (num_value data).
Proof.
  intros Hl Hm. unfold from_slice. rewrite (proj2 (Z.ltb_ge _ _)) by done.
  destruct data as [|l init _] using rev_ind; [by destruct rm|].
  rewrite last_snoc, num_value_snoc, land_127, land_128_clear, minimality_check.
  cbn [mbind outcome_bind]. step_case; [done|].
  rewrite or_bytes_spec by lia. cbn [mbind outcome_bind].
  rewrite le_value_app, length_app in *. cbn [le_value length] in *.
  pose proof (u8_bound l).
  replace (0 + 256 ^ 0 * (le_value init + 256 ^ zlen init * (u8 l + 256 * 0)))
    with (le_value init + 256 ^ zlen init * u8 l) by lia.
  destruct (u8 l <? 128) eqn:Hs; bool_prop; cbn [negb].
  - rewrite Z.mod_small, Z.mul_1_l by lia. done.
  - replace (Z.of_nat (length init + 1) - 1) with (zlen init) by lia.
    rewrite negate_magnitude by (auto using le_value_bound; lia). by rewrite Z.opp_eq_mul_m1, Z.mul_comm.
Qed.

(** * The size of a minimal encoding *)

(** A minimal string of [n] bytes denotes a number whose doubled magnitude has
    exactly [n] digits in base 256. *)
Lemma minimal_size data :
  minimal data = true -> data <> [] ->
  256 ^ (zlen data - 1) <= 2 * Z.abs (num_value data) < 256 ^ zlen data.
Proof.
  intros Hm Hne. destruct (exists_last Hne) as (init & l & ->).
  rewrite minimal_snoc in Hm. rewrite num_value_snoc, length_app. cbn [length].
  replace (Z.of_nat (length init + 1)) with (Z.succ (zlen init)) by lia.
  replace (Z.succ (zlen init) - 1) with (zlen init) by lia.
  pose proof (le_value_bound init) as Hb. pose proof (Z.mod_pos_bound (u8 l) 128 eq_refl) as Hl.
  rewrite Z.pow_succ_r, Z.abs_mul by lia.
  replace (Z.abs (if u8 l <? 128 then 1 else -1)) with 1 by (by destruct (u8 l <? 128)).
  rewrite Z.mul_1_l, Z.abs_eq by nia. split; [|nia].
  apply orb_true_iff in Hm as [Hm|Hm]; [bool_prop; nia|].
  destruct (last init) as [b|] eqn:Hi; [|done]. bool_prop.
  apply last_Some in Hi as (t & ->). rewrite le_value_app, length_app. cbn [le_value length].
  replace (Z.of_nat (length t + 1)) with (Z.succ (zlen t)) by lia.
  rewrite Z.pow_succ_r by lia. pose proof (pow_256_pos (zlen t) ltac:(lia)).
  pose proof (le_value_bound t). nia.
Qed.

Lemma num_value_bound d : 2 * Z.abs (num_value d) < 256 ^ zlen d.
Proof.
  destruct d as [|l init _] using rev_ind; [done|].
  rewrite num_value_snoc, length_app. cbn [length].
  replace (Z.of_nat (length init + 1)) with (Z.succ (zlen init)) by lia.
  rewrite Z.pow_succ_r by lia. pose proof (le_value_bound init).
  pose proof (Z.mod_pos_bound (u8 l) 128 eq_refl). pose proof (pow_256_pos (zlen init) ltac:(lia)).
  destruct (u8 l <? 128); rewrite Z.abs_mul; cbn -[Z.mul Z.pow]; nia.
Qed.

Lemma minimal_length_le data m :
  minimal data = true -> 0 <= m ->
  (zlen data <= m <-> 2 * Z.abs (num_value data) < 256 ^ m).
Proof.
  intros Hmin Hm. destruct (decide (data = [])) as [->|Hne].
  { cbn -[Z.pow]. pose proof (pow_256_pos m Hm). lia. }
  pose proof (minimal_size data Hmin Hne) as [Hlo Hhi]. split; intros H.
  - pose proof (pow_256_mono (zlen data) m ltac:(lia)). lia.
  - destruct (Z.lt_ge_cases m (zlen data)) as [Hlt|]; [|done].
    pose proof (pow_256_mono m (zlen data - 1) ltac:(lia)). lia.
Qed.

Lemma minimal_inj a b :
  minimal a = true -> minimal b = true -> num_value a = num_value b -> a = b.
Proof.
  intros Ha Hb Hv.
  assert (length a = length b) as Hlen.
  { pose proof (proj1 (minimal_length_le a (zlen a) Ha ltac:(lia)) ltac:(lia)) as H1.
    pose proof (proj1 (minimal_length_le b (zlen b) Hb ltac:(lia)) ltac:(lia)) as H2.
    rewrite Hv in H1. rewrite <- Hv in H2.
    apply minimal_length_le in H1; [|done|lia]. apply minimal_length_le in H2; [|done|lia]. lia. }
  destruct (decide (a = [])) as [->|Hne]; [by destruct b|].
  pose proof (minimal_size a Ha Hne) as [Hpos _].
  pose proof (pow_256_pos (zlen a - 1) ltac:(destruct a; simpl; [done|lia])).
  assert (Hne' : b <> []) by (intros ->; by destruct a).
  destruct (exists_last Hne) as (i & l & ->). destruct (exists_last Hne') as (i' & l' & ->).
  rewrite !length_app in Hlen. cbn [length] in Hlen. assert (length i = length i') as Hl by lia.
  rewrite !num_value_snoc, <- Hl in *.
  pose proof (le_value_bound i). pose proof (le_value_bound i') as Hi'. rewrite <- Hl in Hi'.
  pose proof (Z.mod_pos_bound (u8 l) 128 eq_refl). pose proof (Z.mod_pos_bound (u8 l') 128 eq_refl).
  assert ((u8 l <? 128) = (u8 l' <? 128) /\ le_value i = le_value i' /\
    u8 l mod 128 = u8 l' mod 128) as (Hs & Hi & Hm).
  { destruct (u8 l <? 128), (u8 l' <? 128); try (exfalso; nia); (split; [done|]);
      apply and_comm, (Z.div_mod_unique (256 ^ zlen i)); lia. }
  f_equal; [by apply le_value_inj|]. f_equal. apply (inj u8).
  pose proof (u8_bound l). pose proof (u8_bound l'). revert Hm.
  destruct (u8 l <? 128) eqn:E1; destruct (u8 l' <? 128) eqn:E2; try done; bool_prop.
  - rewrite !Z.mod_small by lia. done.
  - rewrite <- (Z.mod_unique (u8 l) 128 1 (u8 l - 128)), <- (Z.mod_unique (u8 l') 128 1 (u8 l' - 128)) by lia. lia.
Qed.

Lemma from_slice_minimal data max :
  minimal data = true -> 0 <= max <= 7 ->
  from_slice data true max =
  if 2 * Z.abs (num_value data) <? 256 ^ max then Ok (num_value data)
  else Err Error.NumberOverflow.
Proof.
  intros Hmin Hm. pose proof (minimal_length_le data max Hmin ltac:(lia)) as Hl.
  destruct (2 * Z.abs (num_value data) <? 256 ^ max) eqn:E; bool_prop.
  - rewrite from_slice_spec by (rewrite ?Hl; lia). by rewrite Hmin.
  - unfold from_slice. rewrite (proj2 (Z.ltb_lt _ _)); [done|].
    destruct (Z.lt_ge_cases max (zlen data)); [done|]. exfalso. apply Hl in H. lia.
Qed.

(** * The printer *)

(** Evaluate the sign and magnitude of the sign bytes [0x00] and [0x80]. *)
Ltac sign_byte :=
  cbn -[Z.pow Z.mul Z.modulo]; change (0 mod 128) with 0; change (128 mod 128) with 0; lia.

Lemma abs_bytes_spec {E} fuel a :
  0 <= a < 256 ^ Z.of_nat fuel ->
  exists bs, @abs_bytes E fuel a = Ok bs /\ le_value bs = a /\
    (forall b, last bs = Some b -> 0 < u8 b).
Proof.
  revert a. induction fuel as [|fuel IH]; intros a Ha.
  { exists []. cbn -[Z.leb] in *. rewrite (proj2 (Z.leb_le _ _)) by lia. split_and!; [done|lia|done]. }
  cbn [abs_bytes]. destruct (a <=? 0) eqn:E0; bool_prop.
  { exists []. split_and!; [done|simpl; lia|done]. }
  rewrite Nat2Z.inj_succ, Z.pow_succ_r in Ha by lia.
  rewrite Z.shiftr_div_pow2 by lia. change (2 ^ 8) with 256.
  destruct (IH (a / 256)) as (bs & -> & Hv & Hl).
  { split; [apply Z.div_pos; lia|apply Z.div_lt_upper_bound; lia]. }
  assert (Hb : u8 (byte_of (Z.land a 255)) = a mod 256).
  { change 255 with (Z.ones 8). by rewrite Z.land_ones, u8_byte_of, Z.mod_mod by lia. }
  eexists. split_and!; [done| |].
  - cbn [le_value]. rewrite Hb, Hv. pose proof (Z.div_mod a 256). lia.
  - intros b. destruct bs as [|c bs]; [|by rewrite last_cons_cons; apply Hl].
    intros [= <-]. rewrite Hb. cbn in Hv.
    pose proof (Z.div_mod a 256). pose proof (Z.mod_pos_bound a 256). lia.
Qed.

(** [to_bytes] is the minimal encoding, for every [i64] but the smallest one,
    whose negation overflows. *)
Lemma to_bytes_minimal {E} v :
  sint 64 v -> v <> - 2 ^ 63 ->
  exists data, @to_bytes E v = Ok data /\ minimal data = true /\ num_value data = v.
Proof.
  intros Hv Hmin. unfold sint in Hv. change (2 ^ (64 - 1)) with (2 ^ 63) in Hv. unfold to_bytes.
  destruct (v =? 0) eqn:E0; bool_prop; [by exists []; subst|].
  assert ((if v <? 0 then w ← scheck 64 (- v); Ok (wrap 64 w) else Ok (wrap 64 v)) =
    @Ok E Z (Z.abs v)) as ->.
  { destruct (v <? 0) eqn:En; bool_prop.
    - rewrite scheck_Ok by (unfold sint; lia). cbn. rewrite wrap_uint by (unfold uint; lia).
      f_equal. lia.
    - rewrite wrap_uint by (unfold uint; lia). f_equal. lia. }
  cbn [mbind outcome_bind].
  destruct (@abs_bytes_spec E 8 (Z.abs v)) as (bs & -> & Ha & Hl); [lia|].
  cbn [mbind outcome_bind]. destruct bs as [|l init _] using rev_ind; [simpl in Ha; lia|].
  specialize (Hl l (last_snoc _ _)). pose proof (u8_bound l).
  rewrite length_app. cbn [length]. rewrite Nat.add_sub. unfold index.
  rewrite list_lookup_middle by done. cbn [expect mbind outcome_bind]. rewrite land_128_clear.
  rewrite le_value_app in Ha. cbn [le_value] in Ha.
  destruct (u8 l <? 128) eqn:Hs; bool_prop; cbn [negb].
  - destruct (v <? 0) eqn:En; bool_prop.
    + rewrite alter_app_r_alt, Nat.sub_diag by lia. cbn [alter list_alter].
      eexists. split; [done|]. rewrite minimal_snoc, num_value_snoc, u8_or_byte_128 by done.
      rewrite <- (Z.mod_unique (u8 l + 128) 128 1 (u8 l)) by lia.
      rewrite (proj2 (Z.eqb_neq _ _)), (proj2 (Z.ltb_ge _ _)) by lia. split; [done|lia].
    + eexists. split; [done|]. rewrite minimal_snoc, num_value_snoc, Z.mod_small by lia.
      rewrite (proj2 (Z.eqb_neq _ _)), (proj2 (Z.ltb_lt _ _)) by lia. split; [done|lia].
  - eexists. split; [done|]. rewrite minimal_snoc, num_value_snoc, last_snoc, le_value_app.
    cbn [le_value]. rewrite (proj2 (Z.leb_le _ _)) by lia. rewrite orb_true_r. split; [done|].
    destruct (v <? 0) eqn:En; bool_prop; sign_byte.
Qed.

(** * Trimming to the minimal encoding *)

Lemma skip_zeros_spec r :
  exists k, r = replicate k x00 ++ skip_zeros r /\
    (forall b, head (skip_zeros r) = Some b -> u8 b <> 0).
Proof.
  induction r as [|b r (k & IH & Hh)]; [by exists O|].
  destruct (decide (b = x00)) as [->|Hb].
  - exists (S k). cbn. by rewrite <- IH.
  - exists O. assert (skip_zeros (b :: r) = b :: r) as -> by (by destruct b).
    split; [done|]. intros c [= <-] Hc. apply Hb, (inj u8). by rewrite Hc.
Qed.

Lemma le_value_zeros k : le_value (replicate k x00) = 0.
Proof. induction k as [|k IH]; [done|]. cbn [replicate le_value]. by rewrite IH. Qed.

(** Dropping the high zero bytes keeps the value. *)
Lemma trim_spec init :
  let t := reverse (skip_zeros (reverse init)) in
  le_value init = le_value t /\ (forall b, last t = Some b -> u8 b <> 0).
Proof.
  destruct (skip_zeros_spec (reverse init)) as (k & Hr & Hh). cbn zeta.
  apply (f_equal reverse) in Hr. rewrite reverse_involutive, reverse_app, reverse_replicate in Hr.
  split.
  - rewrite Hr at 1. rewrite le_value_app, le_value_zeros. lia.
  - intros b. rewrite last_reverse. apply Hh.
Qed.

(** Every branch of [minimally_encode] hands [from_slice] a minimal string of
    the same value. *)
Lemma minimally_encode_minimal data max :
  exists data', minimally_encode data max = from_slice data' true max /\
    minimal data' = true /\ num_value data' = num_value data.
Proof.
  destruct data as [|l init _] using rev_ind; [by exists []|].
  unfold minimally_encode. rewrite last_snoc. destruct (_ && _) eqn:El.
  { eexists. split_and!; [done| |done]. rewrite minimal_snoc. bool_prop.
    apply orb_true_iff. left. by destruct l. }
  assert (Hl : l = x00 \/ l = x80) by (destruct l; try discriminate El; auto).
  assert (Hz : num_value (init ++ [l]) = (if u8 l <? 128 then 1 else -1) * le_value init)
    by (rewrite num_value_snoc; destruct Hl as [-> | ->]; sign_byte).
  rewrite length_app, Hz. cbn [length].
  destruct (decide (init = [])) as [->|Hne]; [exists []; by destruct (u8 l <? 128)|].
  rewrite (proj2 (Z.eqb_neq _ _)) by (destruct init; [done|simpl; lia]).
  destruct (@index_second_last Error.Error init l Hne) as (b & Hb & Hix).
  rewrite length_app in Hix. cbn [length] in Hix. rewrite Hix. cbn [mbind outcome_bind].
  rewrite land_128_set. destruct (128 <=? u8 b) eqn:E1.
  { eexists. split_and!; [done| |by rewrite Hz]. rewrite minimal_snoc, Hb, E1. apply orb_true_r. }
  rewrite Nat.add_sub, take_app_length.
  destruct (trim_spec init) as [-> Ht]. cbn zeta in Ht.
  set (t := reverse (skip_zeros (reverse init))) in *. clearbody t.
  destruct t as [|s t _] using rev_ind; [exists []; by destruct (u8 l <? 128)|].
  rewrite length_app, last_snoc. cbn [length expect mbind outcome_bind].
  rewrite (proj2 (Z.eqb_neq _ _)), land_128_set by lia. specialize (Ht s (last_snoc _ _)).
  pose proof (u8_bound s). destruct (128 <=? u8 s) eqn:E2; bool_prop; eexists; (split; [done|]).
  { rewrite minimal_snoc, last_snoc, num_value_snoc, (proj2 (Z.leb_le _ _)), orb_true_r by done.
    split; [done|]. destruct Hl as [-> | ->]; sign_byte. }
  rewrite Nat.add_sub, alter_app_r_alt, Nat.sub_diag by lia. cbn [alter list_alter].
  rewrite minimal_snoc, num_value_snoc, le_value_app. cbn [le_value].
  destruct Hl as [-> | ->].
  - rewrite or_byte_0, Z.mod_small, (proj2 (Z.eqb_neq _ _)), (proj2 (Z.ltb_lt (u8 s) _)) by lia.
    split; [done|]. sign_byte.
  - rewrite u8_or_byte_128, <- (Z.mod_unique (u8 s + 128) 128 1 (u8 s)) by lia.
    rewrite (proj2 (Z.eqb_neq _ _)), (proj2 (Z.ltb_ge (u8 s + 128) _)) by lia.
    split; [done|]. sign_byte.
Qed.

(** * Properties *)

(** Printing a script number and parsing it back, with the minimality check
    on, returns the number, for every number that fits the parser's size bound
    (at most seven bytes; the interpreter uses four and five). *)
Theorem from_slice_to_bytes v max :
  0 <= max <= 7 -> 2 * Z.abs v < 256 ^ max ->
  exists data, @to_bytes Error.Error v = Ok data /\ from_slice data true max = Ok v.
Proof.
  intros Hm Hv. pose proof (pow_256_mono max 7 ltac:(lia)).
  destruct (@to_bytes_minimal Error.Error v) as (data & -> & Hmin & <-); [unfold sint|..]; try lia.
  exists data. split; [done|]. rewrite from_slice_minimal by done.
  by rewrite (proj2 (Z.ltb_lt _ _)).
Qed.

Lemma from_slice_to_bytes_witness :
  exists data, @to_bytes Error.Error (-2147483647) = Ok data /\
    from_slice data true 4 = Ok (-2147483647).
Proof. apply from_slice_to_bytes; vm_compute; intuition congruence. Defined.

(** A byte string accepted under the minimality rule is the one string
    [to_bytes] prints for its number, so the accepted encoding of a number is
    unique. *)
Theorem to_bytes_from_slice data max v :
  0 <= max <= 7 -> from_slice data true max = Ok v -> @to_bytes Error.Error v = Ok data.
Proof.
  intros Hm H. destruct (Z.lt_ge_cases max (zlen data)).
  { unfold from_slice in H. by rewrite (proj2 (Z.ltb_lt _ _)) in H. }
  rewrite from_slice_spec in H by lia. destruct (minimal data) eqn:Hmin; [|done].
  cbn in H. injection H as <-.
  pose proof (proj1 (minimal_length_le data max Hmin ltac:(lia)) ltac:(lia)) as Hs.
  pose proof (pow_256_mono max 7 ltac:(lia)).
  destruct (@to_bytes_minimal Error.Error (num_value data)) as (d & -> & Hd & Hv);
    [unfold sint|..]; try lia.
  f_equal. by apply minimal_inj.
Qed.

Lemma to_bytes_from_slice_witness : @to_bytes Error.Error (-255) = Ok [xff; x80].
Proof. by apply (to_bytes_from_slice [xff; x80] 4); vm_compute; intuition congruence. Defined.

(** [minimally_encode] accepts a string of any length exactly when the number
    it denotes fits [max_size] bytes, returns that number, and otherwise reports
    [NumberOverflow]; it never panics. *)
Theorem minimally_encode_spec data max :
  0 <= max <= 7 ->
  minimally_encode data max =
  if 2 * Z.abs (num_value data) <? 256 ^ max then Ok (num_value data)
  else Err Error.NumberOverflow.
Proof.
  intros Hm. destruct (minimally_encode_minimal data max) as (d & -> & Hd & <-).
  by apply from_slice_minimal.
Qed.

Lemma minimally_encode_spec_witness :
  minimally_encode [x01; x00; x00; x00; x00; x80] 4 = Ok (-1).
Proof. rewrite minimally_encode_spec; [reflexivity|lia]. Defined.

End Num.
