(* ===== verification/Stack.v ===== *)
(** The interpreter's stack (src/script/src/stack.rs): a [Vec] whose last element
    is the top, with the block operations behind OP_DUP, OP_OVER, OP_ROT,
    OP_SWAP, OP_NIP, OP_TUCK and their two- and three-element variants. *)
From Stdlib Require Import ZArith Lia.
From stdpp Require Import base decidable numbers list.
From S2P Require Import Prelude Opcode.

Local Open Scope Z_scope.

Module Stack.

Section stack.
Context {T : Type}.
Implicit Types (data : list T) (i : Z).

Definition require data (len : Z) : outcome Error.Error unit :=
  if zlen data <? len then Err Error.InvalidStackOperation else Ok tt.

Definition last data : outcome Error.Error T :=
  ok_or (list.last data) Error.InvalidStackOperation.

(** The popped value and the rest. *)
Definition pop data : outcome Error.Error (T * list T) :=
  v ← last data; Ok (v, removelast data).

Definition push data (value : T) : list T := data ++ [value].

Definition top data i : outcome Error.Error T :=
  pos ← ucheck 64 (i + 1);
  _ ← require data pos;
  index data (length data - Z.to_nat pos).

Definition remove data i : outcome Error.Error (T * list T) :=
  pos ← ucheck 64 (i + 1);
  _ ← require data pos;
  vec_remove data (length data - Z.to_nat pos).

(** [while j > 0 { self.data.pop(); j -= 1 }]: popping an empty vector is no error. *)
Fixpoint pop_loop (j : nat) data : list T :=
  match j with
  | O => data
  | S j' => pop_loop j' (removelast data)
  end.

Definition drop data i : outcome Error.Error (list T) :=
  _ ← require data i; Ok (pop_loop (Z.to_nat i) data).

(** The copying loop of [dup] and [over]: [j] times, push a clone of the element
    [back] positions from the end of the growing vector. *)
Fixpoint clone_loop (j : nat) (back : nat) data : outcome Error.Error (list T) :=
  match j with
  | O => Ok data
  | S j' => v ← index data (length data - back); clone_loop j' back (data ++ [v])
  end.

Definition dup data i : outcome Error.Error (list T) :=
  _ ← require data i; clone_loop (Z.to_nat i) (Z.to_nat i) data.

Definition over data i : outcome Error.Error (list T) :=
  j ← ucheck 64 (i * 2);
  _ ← require data j;
  clone_loop (Z.to_nat (j - i)) (Z.to_nat j) data.

(** [while j > limit { let v = self.data.remove(to_remove); self.data.push(v) }]. *)
Fixpoint rot_loop (j : nat) (to_remove : nat) data : outcome Error.Error (list T) :=
  match j with
  | O => Ok data
  | S j' => '(v, data') ← vec_remove data to_remove; rot_loop j' to_remove (data' ++ [v])
  end.

Definition rot data i : outcome Error.Error (list T) :=
  j ← ucheck 64 (i * 3);
  _ ← require data j;
  rot_loop (Z.to_nat (j - (j - i))) (length data - Z.to_nat j) data.

Fixpoint swap_loop (k : nat) (j len : nat) data : outcome Error.Error (list T) :=
  match k with
  | O => Ok data
  | S k' => data' ← vec_swap data (len - j) (len - k); swap_loop k' (j - 1) len data'
  end.

Definition swap data i : outcome Error.Error (list T) :=
  j ← ucheck 64 (i * 2);
  _ ← require data j;
  swap_loop (Z.to_nat i) (Z.to_nat j) (length data) data.

Definition nip data : outcome Error.Error (list T) :=
  _ ← require data 2; vec_swap_remove data (length data - 2).

Definition tuck data : outcome Error.Error (list T) :=
  _ ← require data 2;
  v ← index data (length data - 1);
  vec_insert data (length data - 2) v.

(** * Lemmas *)

Lemma require_Ok data len : require data len = Ok tt <-> len <= zlen data.
Proof. unfold require. destruct (_ <? _) eqn:E; bool_prop; split; intros; (done || lia). Qed.

Lemma require_dec data len :
  require data len = if len <=? zlen data then Ok tt else Err Error.InvalidStackOperation.
Proof. unfold require. rewrite Z.leb_antisym. by destruct (_ <? _). Qed.

Lemma pop_snoc data v : pop (data ++ [v]) = Ok (v, data).
Proof. unfold pop, last. by rewrite last_snoc, removelast_last. Qed.

Lemma pop_nil : pop [] = Err Error.InvalidStackOperation.
Proof. done. Qed.

(** The vector below the top [n] elements, and those elements. *)
Lemma split_top data n :
  Z.of_nat n <= zlen data -> exists s t, data = s ++ t /\ length t = n.
Proof.
  intros H. exists (take (length data - n) data), (list.drop (length data - n) data).
  rewrite take_drop, length_drop. split; [done|lia].
Qed.

Lemma top_app s v t i :
  zlen t = i -> uint 64 (i + 1) -> top (s ++ v :: t) i = Ok v.
Proof.
  intros <- Hu. unfold top. rewrite ucheck_Ok by done. cbn [mbind outcome_bind].
  rewrite (proj2 (require_Ok _ _)) by (rewrite length_app; simpl; lia).
  cbn [mbind outcome_bind]. unfold index. rewrite length_app. cbn [length].
  rewrite list_lookup_middle by lia. done.
Qed.

Lemma remove_app s v t i :
  zlen t = i -> uint 64 (i + 1) -> remove (s ++ v :: t) i = Ok (v, s ++ t).
Proof.
  intros <- Hu. unfold remove. rewrite ucheck_Ok by done. cbn [mbind outcome_bind].
  rewrite (proj2 (require_Ok _ _)) by (rewrite length_app; simpl; lia).
  cbn [mbind outcome_bind]. apply vec_remove_middle. rewrite length_app. cbn [length]. lia.
Qed.

Lemma top_short data i :
  uint 64 (i + 1) -> zlen data <= i -> top data i = Err Error.InvalidStackOperation.
Proof.
  intros Hu Hl. unfold top. rewrite ucheck_Ok by done. cbn [mbind outcome_bind].
  rewrite require_dec, (proj2 (Z.leb_gt _ _)) by lia. done.
Qed.

Lemma remove_short data i :
  uint 64 (i + 1) -> zlen data <= i -> remove data i = Err Error.InvalidStackOperation.
Proof.
  intros Hu Hl. unfold remove. rewrite ucheck_Ok by done. cbn [mbind outcome_bind].
  rewrite require_dec, (proj2 (Z.leb_gt _ _)) by lia. done.
Qed.

Lemma pop_loop_app s t : pop_loop (length t) (s ++ t) = s.
Proof.
  induction t as [|v t IH] using rev_ind; [by rewrite app_nil_r|].
  rewrite length_app, Nat.add_1_r, app_assoc. cbn [pop_loop]. by rewrite removelast_last.
Qed.

Lemma clone_loop_app s p a b :
  clone_loop (length a) (length p + length a + length b) (s ++ p ++ a ++ b ++ p) =
  Ok (s ++ p ++ a ++ b ++ p ++ a).
Proof.
  revert p. induction a as [|v a IH]; intros p; cbn [length clone_loop].
  { by rewrite app_nil_r. }
  rewrite (app_assoc s p), <- app_comm_cons, index_middle
    by (rewrite !length_app; cbn [length]; rewrite !length_app; lia).
  cbn [mbind outcome_bind]. specialize (IH (p ++ [v])).
  rewrite length_app in IH. cbn [length] in IH.
  replace (length p + S (length a))%nat with (length p + 1 + length a)%nat by lia.
  rewrite <- !app_assoc in *. cbn [app] in *. rewrite <- !app_assoc in *. exact IH.
Qed.

Lemma rot_loop_app s a r : rot_loop (length a) (length s) (s ++ a ++ r) = Ok (s ++ r ++ a).
Proof.
  revert r. induction a as [|v a IH]; intros r; cbn [length rot_loop].
  { by rewrite app_nil_r. }
  cbn [app]. rewrite vec_remove_middle by done. cbn [mbind outcome_bind].
  rewrite <- !app_assoc, IH. by rewrite <- app_assoc.
Qed.

Lemma swap_loop_app s b1 a2 a1 b2 len :
  length a1 = length b1 -> length a2 = length b2 ->
  len = (length s + 2 * length a1 + 2 * length a2)%nat ->
  swap_loop (length a2) (length a1 + 2 * length a2) len (s ++ b1 ++ a2 ++ a1 ++ b2) =
  Ok (s ++ b1 ++ b2 ++ a1 ++ a2).
Proof.
  revert b1 a1 b2. induction a2 as [|x a2 IH]; intros b1 a1 b2 H1 H2 Hl.
  { by destruct b2. }
  destruct b2 as [|y b2]; [done|]. injection H2 as H2. cbn [length swap_loop] in *.
  rewrite (app_assoc s b1), <- app_comm_cons, (app_assoc a2 a1).
  rewrite vec_swap_middle by (rewrite ?length_app; lia). cbn [mbind outcome_bind].
  specialize (IH (b1 ++ [y]) (a1 ++ [x]) b2). rewrite !length_app in IH. cbn [length] in IH.
  replace (length a1 + 2 * S (length a2) - 1)%nat with (length a1 + 1 + 2 * length a2)%nat by lia.
  rewrite <- !app_assoc in *. cbn [app] in *. apply IH; lia.
Qed.

Lemma nip_app s a b : nip (s ++ [a; b]) = Ok (s ++ [b]).
Proof.
  unfold nip. rewrite (proj2 (require_Ok _ _)) by (rewrite length_app; simpl; lia).
  cbn [mbind outcome_bind]. unfold vec_swap_remove. rewrite length_app. cbn [length].
  rewrite index_middle by lia. cbn [mbind outcome_bind].
  assert (list.last (s ++ [a; b]) = Some b) as -> by (by rewrite snoc2, last_snoc).
  cbn [expect mbind outcome_bind]. rewrite insert_app_r_alt by lia.
  replace (length s + 2 - 2 - length s)%nat with 0%nat by lia.
  change (<[0%nat:=b]> [a; b]) with [b; b]. by rewrite snoc2, removelast_last.
Qed.

Lemma tuck_app s a b : tuck (s ++ [a; b]) = Ok (s ++ [b; a; b]).
Proof.
  unfold tuck. rewrite (proj2 (require_Ok _ _)) by (rewrite length_app; simpl; lia).
  cbn [mbind outcome_bind]. rewrite length_app. cbn [length].
  rewrite snoc2, index_middle by (rewrite length_app; simpl; lia).
  cbn [mbind outcome_bind]. unfold vec_insert. rewrite <- snoc2.
  replace (length s + 2 - 2)%nat with (length s) by lia.
  rewrite (proj2 (Nat.leb_le _ _)) by (rewrite length_app; lia).
  by rewrite take_app_length, drop_app_length.
Qed.

(** The operations on whole blocks. *)
Lemma drop_app s a i : zlen a = i -> drop (s ++ a) i = Ok s.
Proof.
  intros <-. unfold drop. rewrite (proj2 (require_Ok _ _)) by (rewrite length_app; lia).
  cbn [mbind outcome_bind]. by rewrite Nat2Z.id, pop_loop_app.
Qed.

Lemma dup_app s a i : zlen a = i -> dup (s ++ a) i = Ok (s ++ a ++ a).
Proof.
  intros <-. unfold dup. rewrite (proj2 (require_Ok _ _)) by (rewrite length_app; lia).
  cbn [mbind outcome_bind]. pose proof (clone_loop_app s [] a []) as H.
  rewrite !app_nil_r, !Nat.add_0_r in H. by rewrite Nat2Z.id.
Qed.

Lemma over_app s a b i :
  zlen a = i -> zlen b = i -> uint 64 (2 * i) -> over (s ++ a ++ b) i = Ok (s ++ a ++ b ++ a).
Proof.
  intros <- Hb Hu. unfold over. rewrite ucheck_Ok by (unfold uint in *; lia). cbn [mbind outcome_bind].
  rewrite (proj2 (require_Ok _ _)) by (rewrite !length_app; lia). cbn [mbind outcome_bind].
  pose proof (clone_loop_app s [] a b) as H. rewrite !app_nil_r in H. cbn [app length] in H.
  rewrite <- H. f_equal; lia.
Qed.

Lemma swap_app s a b i :
  zlen a = i -> zlen b = i -> uint 64 (2 * i) -> swap (s ++ a ++ b) i = Ok (s ++ b ++ a).
Proof.
  intros <- Hb Hu. unfold swap. rewrite ucheck_Ok by (unfold uint in *; lia). cbn [mbind outcome_bind].
  rewrite (proj2 (require_Ok _ _)) by (rewrite !length_app; lia). cbn [mbind outcome_bind].
  pose proof (swap_loop_app s [] a [] b (length (s ++ a ++ b))) as H. cbn [app length] in H.
  rewrite <- H; [|done|lia|rewrite !length_app; lia]. f_equal; lia.
Qed.

Lemma rot_app s a b c i :
  zlen a = i -> zlen b = i -> zlen c = i -> uint 64 (3 * i) ->
  rot (s ++ a ++ b ++ c) i = Ok (s ++ b ++ c ++ a).
Proof.
  intros <- Hb Hc Hu. unfold rot. rewrite ucheck_Ok by (unfold uint in *; lia). cbn [mbind outcome_bind].
  rewrite (proj2 (require_Ok _ _)) by (rewrite !length_app; lia). cbn [mbind outcome_bind].
  pose proof (rot_loop_app s a (b ++ c)) as H. rewrite <- !app_assoc in H. rewrite <- H.
  f_equal; rewrite ?length_app; lia.
Qed.

(** On too short a stack. *)
Lemma drop_short data i : zlen data < i -> drop data i = Err Error.InvalidStackOperation.
Proof. intros. unfold drop. by rewrite require_dec, (proj2 (Z.leb_gt _ _)) by lia. Qed.

Lemma dup_short data i : zlen data < i -> dup data i = Err Error.InvalidStackOperation.
Proof. intros. unfold dup. by rewrite require_dec, (proj2 (Z.leb_gt _ _)) by lia. Qed.

Lemma over_short data i :
  uint 64 (2 * i) -> zlen data < 2 * i -> over data i = Err Error.InvalidStackOperation.
Proof.
  intros. unfold over, uint in *. rewrite ucheck_Ok by (unfold uint; lia). cbn [mbind outcome_bind].
  by rewrite require_dec, (proj2 (Z.leb_gt _ _)) by lia.
Qed.

Lemma swap_short data i :
  uint 64 (2 * i) -> zlen data < 2 * i -> swap data i = Err Error.InvalidStackOperation.
Proof.
  intros. unfold swap, uint in *. rewrite ucheck_Ok by (unfold uint; lia). cbn [mbind outcome_bind].
  by rewrite require_dec, (proj2 (Z.leb_gt _ _)) by lia.
Qed.

Lemma rot_short data i :
  uint 64 (3 * i) -> zlen data < 3 * i -> rot data i = Err Error.InvalidStackOperation.
Proof.
  intros. unfold rot, uint in *. rewrite ucheck_Ok by (unfold uint; lia). cbn [mbind outcome_bind].
  by rewrite require_dec, (proj2 (Z.leb_gt _ _)) by lia.
Qed.

Lemma nip_short data : zlen data < 2 -> nip data = Err Error.InvalidStackOperation.
Proof. intros. unfold nip. by rewrite require_dec, (proj2 (Z.leb_gt _ _)) by lia. Qed.

Lemma tuck_short data : zlen data < 2 -> tuck data = Err Error.InvalidStackOperation.
Proof. intros. unfold tuck. by rewrite require_dec, (proj2 (Z.leb_gt _ _)) by lia. Qed.

(** * Properties *)

(** The block operations move whole blocks of [i] elements: OP_2DROP, OP_2DUP,
    OP_3DUP, OP_2OVER, OP_2SWAP, OP_2ROT and the one-element forms are [drop],
    [dup], [over], [swap] and [rot] on blocks [a], [b], [c] above the untouched
    rest [s], although the code moves one element per loop round. *)
Theorem block_operations s a b c i :
  zlen a = i -> zlen b = i -> zlen c = i -> uint 64 (3 * i) ->
  drop (s ++ a) i = Ok s /\
  dup (s ++ a) i = Ok (s ++ a ++ a) /\
  over (s ++ a ++ b) i = Ok (s ++ a ++ b ++ a) /\
  swap (s ++ a ++ b) i = Ok (s ++ b ++ a) /\
  rot (s ++ a ++ b ++ c) i = Ok (s ++ b ++ c ++ a).
Proof.
  intros Ha Hb Hc Hu. unfold uint in Hu.
  split_and!; [apply drop_app|apply dup_app|apply over_app|apply swap_app|apply rot_app];
    unfold uint; (done || lia).
Qed.

(** On a stack with fewer elements than the operation needs, every block
    operation reports [InvalidStackOperation] and does nothing else. *)
Theorem block_operations_short data i :
  0 <= i -> uint 64 (3 * i) ->
  (zlen data < i -> drop data i = Err Error.InvalidStackOperation /\
                    dup data i = Err Error.InvalidStackOperation) /\
  (zlen data < 2 * i -> over data i = Err Error.InvalidStackOperation /\
                        swap data i = Err Error.InvalidStackOperation) /\
  (zlen data < 3 * i -> rot data i = Err Error.InvalidStackOperation) /\
  (zlen data < 2 -> nip data = Err Error.InvalidStackOperation /\
                    tuck data = Err Error.InvalidStackOperation).
Proof.
  intros Hi Hu. unfold uint in Hu.
  split_and!; intros; rewrite ?drop_short, ?dup_short, ?over_short, ?swap_short, ?rot_short,
    ?nip_short, ?tuck_short by (unfold uint; lia); done.
Qed.

End stack.

Lemma block_operations_witness :
  drop ([9] ++ [1; 2]) 2 = Ok [9] /\
  dup ([9] ++ [1; 2]) 2 = Ok [9; 1; 2; 1; 2] /\
  over ([9] ++ [1; 2] ++ [3; 4]) 2 = Ok [9; 1; 2; 3; 4; 1; 2] /\
  swap ([9] ++ [1; 2] ++ [3; 4]) 2 = Ok [9; 3; 4; 1; 2] /\
  rot ([9] ++ [1; 2] ++ [3; 4] ++ [5; 6]) 2 = Ok [9; 3; 4; 5; 6; 1; 2].
Proof. by apply (block_operations [9] [1; 2] [3; 4] [5; 6] 2). Defined.

Lemma block_operations_short_witness :
  rot [1; 2] 1 = Err Error.InvalidStackOperation.
Proof. by apply (block_operations_short [1; 2] 1). Defined.

End Stack.
