(* ===== verification/Script.v ===== *)
(** Serialized scripts (src/script/src/script.rs) and their builder
    (src/script/src/builder.rs): the instruction decoder, the script templates,
    signature-operation counting, [find_and_delete] and [without_separators].
    A [Script] is its byte vector.  A loop over the program counter takes fuel
    one larger than the script: every instruction is at least one byte. *)
From Stdlib Require Import ZArith Lia Strings.Byte.
From stdpp Require Import base decidable numbers list.
From S2P Require Import Prelude Opcode Num.

Local Open Scope Z_scope.

Module Script.

(** * Constants and data types *)

Definition MAX_SCRIPT_ELEMENT_SIZE : Z := 520.
Definition MAX_OPS_PER_SCRIPT : Z := 201.
Definition MAX_PUBKEYS_PER_MULTISIG : Z := 20.
Definition MAX_SCRIPT_SIZE : Z := 10000.

Inductive ScriptType :=
  NonStandard | PubKey | PubKeyHash | ScriptHash | Multisig | NullData | WitnessScript | WitnessKey.

(** [keys::Type] and [ScriptAddress]. *)
Inductive AddressType := P2PKH | P2SH.
Record ScriptAddress := { kind : AddressType; hash : bytes }.
Definition new_p2pkh (h : bytes) : ScriptAddress := {| kind := P2PKH; hash := h |}.
Definition new_p2sh (h : bytes) : ScriptAddress := {| kind := P2SH; hash := h |}.

Record Instruction := { opcode : Opcode; step : nat; data : option bytes }.

(** [script[i] == b], for an [i] that a length test has put in range. *)
Definition byte_is (script : bytes) (i : nat) (b : byte) : bool :=
  match script !! i with Some c => bool_decide (c = b) | None => false end.

Definition opcode_is (script : bytes) (i : nat) (o : Opcode) : bool :=
  byte_is script i (opcode_byte o).

(** * Decoding *)

Definition get_opcode (script : bytes) (position : nat) : outcome Error.Error Opcode :=
  b ← index script position; ok_or (from_u8 b) Error.BadOpcode.

Definition take (script : bytes) (offset : nat) (len : Z) : outcome Error.Error bytes :=
  if zlen script <? Z.of_nat offset + len then Err Error.BadOpcode
  else Ok (slice script offset (offset + Z.to_nat len)).

(** [data.iter().take(size).enumerate().fold(0, |acc, (i, x)| acc + (x << i * 8))]. *)
Fixpoint fold_le (data : bytes) (i acc : Z) : Z :=
  match data with
  | [] => acc
  | x :: data' => fold_le data' (i + 1) (acc + Z.shiftl (u8 x) (i * 8))
  end.

Definition read_usize (data : bytes) (size : nat) : outcome Error.Error Z :=
  if zlen data <? Z.of_nat size then Err Error.BadOpcode
  else Ok (fold_le (list.take size data) 0 0).

(** The arm of the match on the opcode: how many length bytes an OP_PUSHDATA has. *)
Definition pushdata_len (o : Opcode) : option nat :=
  match o with
  | OP_PUSHDATA1 => Some 1%nat
  | OP_PUSHDATA2 => Some 2%nat
  | OP_PUSHDATA4 => Some 4%nat
  | _ => None
  end.

Definition get_instruction (script : bytes) (position : nat)
    : outcome Error.Error Instruction :=
  opcode ← get_opcode script position;
  match pushdata_len opcode with
  | Some len =>
      slice ← take script (position + 1) (Z.of_nat len);
      n ← read_usize slice len;
      bytes ← take script (position + 1 + len) n;
      Ok {| opcode := opcode; step := len + Z.to_nat n + 1; data := Some bytes |}
  | None =>
      if opcode_leb opcode OP_PUSHBYTES_75 then
        bytes ← take script (position + 1) (opcode_u8 opcode);
        Ok {| opcode := opcode; step := Z.to_nat (opcode_u8 opcode) + 1; data := Some bytes |}
      else Ok {| opcode := opcode; step := 1; data := None |}
  end.

(** * Templates *)

Definition is_pay_to_public_key_hash (script : bytes) : bool :=
  (zlen script =? 25) && opcode_is script 0 OP_DUP && opcode_is script 1 OP_HASH160 &&
  opcode_is script 2 OP_PUSHBYTES_20 && opcode_is script 23 OP_EQUALVERIFY &&
  opcode_is script 24 OP_CHECKSIG.

Definition is_pay_to_public_key (script : bytes) : bool :=
  match script with
  | [] => false
  | x :: _ =>
      let check (len : nat) := (length script =? len)%nat && opcode_is script (len - 1) OP_CHECKSIG in
      if bool_decide (x = opcode_byte OP_PUSHBYTES_33) then check 35%nat
      else if bool_decide (x = opcode_byte OP_PUSHBYTES_65) then check 67%nat
      else false
  end.

Definition is_pay_to_script_hash (script : bytes) : bool :=
  (zlen script =? 23) && opcode_is script 0 OP_HASH160 &&
  opcode_is script 1 OP_PUSHBYTES_20 && opcode_is script 22 OP_EQUAL.

Definition is_pay_to_witness_key_hash (script : bytes) : bool :=
  (zlen script =? 22) && opcode_is script 0 OP_0 && opcode_is script 1 OP_PUSHBYTES_20.

Definition is_pay_to_witness_script_hash (script : bytes) : bool :=
  (zlen script =? 34) && opcode_is script 0 OP_0 && opcode_is script 1 OP_PUSHBYTES_32.

(** The version and the program. *)
Definition parse_witness_program (script : bytes) : option (Z * bytes) :=
  match script with
  | b0 :: b1 :: program =>
      if (zlen script <? 4) || (42 <? zlen script) || negb (zlen script =? u8 b1 + 2) then None
      else match from_u8 b0 with
           | Some OP_0 => Some (0, program)
           | Some x =>
               if opcode_leb OP_1 x && opcode_leb x OP_16
               then Some (opcode_u8 x - opcode_u8 OP_1 + 1, program) else None
           | None => None
           end
  | _ => None
  end.

(** The number a multisig length opcode stands for. *)
Definition small_number (m : outcome Error.Error Opcode) : option Z :=
  match m with
  | Ok OP_0 => Some 0
  | Ok o =>
      if opcode_leb OP_1 o && opcode_leb o OP_16
      then Some (opcode_u8 o - (opcode_u8 OP_1 - 1)) else None
  | _ => None
  end.

(** The key loop of [is_multisig_script]; [None] is the early [return false],
    the key counter is a [u8]. *)
Fixpoint multisig_keys {E} (fuel : nat) (script : bytes) (pc : nat) (keys : Z)
    : outcome E (option Z) :=
  match fuel with
  | O => Diverge
  | S fuel' =>
      if (pc <? length script - 2)%nat then
        match_result (get_instruction script pc)
          (fun i =>
             match opcode i with
             | OP_PUSHBYTES_33 | OP_PUSHBYTES_65 =>
                 keys' ← ucheck 8 (keys + 1);
                 multisig_keys fuel' script (pc + step i) keys'
             | _ => Ok None
             end)
          (fun _ => Ok None)
      else Ok (Some keys)
  end.

Definition is_multisig_script {E} (script : bytes) : outcome E bool :=
  if zlen script <? 3 then Ok false else
  match small_number (get_opcode script 0) with
  | None => Ok false
  | Some siglen =>
      match small_number (get_opcode script (length script - 2)) with
      | None => Ok false
      | Some keylen =>
          if keylen <? siglen then Ok false else
          if negb (opcode_is script (length script - 1) OP_CHECKMULTISIG) then Ok false else
          keys ← multisig_keys (S (length script)) script 1 0;
          Ok (match keys with Some k => k =? keylen | None => false end)
      end
  end.

Fixpoint is_push_only_loop {E} (fuel : nat) (script : bytes) (pc : nat) : outcome E bool :=
  match fuel with
  | O => Diverge
  | S fuel' =>
      if (pc <? length script)%nat then
        match_result (get_instruction script pc)
          (fun i => if opcode_ltb OP_16 (opcode i) then Ok false
                    else is_push_only_loop fuel' script (pc + step i))
          (fun _ => Ok false)
      else Ok true
  end.

Definition is_push_only {E} (script : bytes) : outcome E bool :=
  is_push_only_loop (S (length script)) script 0.

(** [self.data[from..]]: panics past the end. *)
Definition subscript {E} (script : bytes) (from : nat) : outcome E bytes :=
  if (from <=? length script)%nat then Ok (drop from script) else Panic.

Definition is_null_data_script {E} (script : bytes) : outcome E bool :=
  if opcode_is script 0 OP_RETURN then rest ← subscript script 1; is_push_only rest
  else Ok false.

Definition script_type {E} (script : bytes) : outcome E ScriptType :=
  if is_pay_to_public_key script then Ok PubKey
  else if is_pay_to_public_key_hash script then Ok PubKeyHash
  else if is_pay_to_script_hash script then Ok ScriptHash
  else
    multisig ← is_multisig_script script;
    if multisig : bool then Ok Multisig else
    null_data ← is_null_data_script script;
    if null_data : bool then Ok NullData
    else if is_pay_to_witness_key_hash script then Ok WitnessKey
    else if is_pay_to_witness_script_hash script then Ok WitnessScript
    else Ok NonStandard.

(** * Editing *)

Fixpoint find_and_delete_loop {E} (fuel : nat) (script data : bytes) (current : nat)
    (result : bytes) : outcome E bytes :=
  match fuel with
  | O => Diverge
  | S fuel' =>
      if (current <? length script - length data)%nat then
        if bool_decide (slice script current (current + length data) = data) then
          find_and_delete_loop fuel' script data (current + length data) result
        else
          b ← index script current;
          find_and_delete_loop fuel' script data (current + 1) (result ++ [b])
      else
        rest ← subscript script current;
        Ok (result ++ rest)
  end.

Definition find_and_delete {E} (script data : bytes) : outcome E bytes :=
  if (length script <? length data)%nat || (length data =? 0)%nat then Ok script
  else find_and_delete_loop (S (length script)) script data 0 [].

Fixpoint without_separators_loop {E} (fuel : nat) (script : bytes) (pc : nat) (result : bytes)
    : outcome E bytes :=
  match fuel with
  | O => Diverge
  | S fuel' =>
      if (pc <? length script)%nat then
        match_result (get_instruction script pc)
          (fun i =>
             let result' := if opcode_eqb (opcode i) OP_CODESEPARATOR then result
                            else result ++ slice script pc (pc + step i) in
             without_separators_loop fuel' script (pc + step i) result')
          (fun _ =>
             b ← index script pc;
             without_separators_loop fuel' script (pc + 1) (result ++ [b]))
      else Ok result
  end.

Definition without_separators {E} (script : bytes) : outcome E bytes :=
  without_separators_loop (S (length script)) script 0 [].

(** * Signature operations *)

(** The loop over [self.opcodes()]: the iterator decodes the instruction at its
    position, and the counter stops at the first invalid one. *)
Fixpoint sigops_loop {E} (fuel : nat) (script : bytes) (position : nat)
    (checkdatasig_active serialized_script : bool) (last_opcode : Opcode) (total : Z)
    : outcome E Z :=
  match fuel with
  | O => Diverge
  | S fuel' =>
      if (length script <=? position)%nat then Ok total else
      match_result (get_instruction script position)
        (fun i =>
           total' ←
             match opcode i with
             | OP_CHECKSIG | OP_CHECKSIGVERIFY => ucheck 64 (total + 1)
             | OP_CHECKDATASIG | OP_CHECKDATASIGVERIFY =>
                 if checkdatasig_active then ucheck 64 (total + 1) else Ok total
             | OP_CHECKMULTISIG | OP_CHECKMULTISIGVERIFY =>
                 if serialized_script && is_within_op_n last_opcode then
                   n ← decode_op_n last_opcode; ucheck 64 (total + n)
                 else ucheck 64 (total + MAX_PUBKEYS_PER_MULTISIG)
             | _ => Ok total
             end;
           sigops_loop fuel' script (position + step i) checkdatasig_active serialized_script
             (opcode i) total')
        (fun _ => Ok total)
  end.

Definition sigops_count {E} (script : bytes) (checkdatasig_active serialized_script : bool)
    : outcome E Z :=
  sigops_loop (S (length script)) script 0 checkdatasig_active serialized_script OP_0 0.

(** [self.iter().last()]: after an error the iterator's position stands still, so
    it yields that error for ever. *)
Fixpoint iter_last_loop {E} (fuel : nat) (script : bytes) (position : nat)
    (acc : option Instruction) : outcome E (option Instruction) :=
  match fuel with
  | O => Diverge
  | S fuel' =>
      if (length script <=? position)%nat then Ok acc else
      match_result (get_instruction script position)
        (fun i => iter_last_loop fuel' script (position + step i) (Some i))
        (fun _ => Diverge)
  end.

Definition pay_to_script_hash_sigops {E} (script : bytes) (checkdatasig_active : bool)
    (prev_out : bytes) : outcome E Z :=
  if negb (is_pay_to_script_hash prev_out) then Ok 0 else
  if bool_decide (script = []) then Ok 0 else
  push_only ← is_push_only script;
  if negb push_only then Ok 0 else
  lst ← iter_last_loop (S (length script)) script 0 None;
  i ← expect lst;
  d ← expect (data i);
  sigops_count d checkdatasig_active true.

Definition num_signatures_required {E} (script : bytes) : outcome E Z :=
  multisig ← is_multisig_script script;
  if multisig : bool then
    x ← index script 0;
    if bool_decide (x = opcode_byte OP_0) then Ok 0
    else d ← ucheck 8 (u8 x - opcode_u8 OP_1); ucheck 8 (d + 1)
  else Ok 1.

(** The [keys] crate's error, and its parser of public keys (src/keys/src/public.rs):
    a key is its bytes, compressed or not. *)
Inductive KeysError :=
  InvalidPublic | InvalidSecret | InvalidMessage | InvalidSignature | InvalidNetwork |
  InvalidChecksum | InvalidPrivate | InvalidAddress | FailedKeyGeneration.

Definition public_from_slice (data : bytes) : outcome KeysError bytes :=
  if (zlen data =? 33) || (zlen data =? 65) then Ok data else Err InvalidPublic.

Section destinations.
(** The crypto library's RIPEMD160 after SHA256, which hashes a public key. *)
Variable dhash160 : bytes -> bytes.

Definition address_hash (public : bytes) : bytes := dhash160 public.

Fixpoint multisig_addresses (fuel : nat) (script : bytes) (pc : nat)
    (addresses : list ScriptAddress) : outcome KeysError (list ScriptAddress) :=
  match fuel with
  | O => Diverge
  | S fuel' =>
      if (pc <? length script - 2)%nat then
        match_result (get_instruction script pc)
          (fun i =>
             d ← expect (data i);
             public ← public_from_slice d;
             multisig_addresses fuel' script (pc + step i)
               (addresses ++ [new_p2pkh (address_hash public)]))
          (fun _ => Panic)
      else Ok addresses
  end.

Definition extract_destinations (script : bytes) : outcome KeysError (list ScriptAddress) :=
  t ← script_type script;
  match t with
  | NonStandard | NullData | WitnessScript | WitnessKey => Ok []
  | PubKey =>
      x ← index script 0;
      key ← (if bool_decide (x = opcode_byte OP_PUSHBYTES_33) then Ok (slice script 1 34)
             else if bool_decide (x = opcode_byte OP_PUSHBYTES_65) then Ok (slice script 1 66)
             else Panic);
      public ← public_from_slice key;
      Ok [new_p2pkh (address_hash public)]
  | PubKeyHash => Ok [new_p2pkh (slice script 3 23)]
  | ScriptHash => Ok [new_p2sh (slice script 2 22)]
  | Multisig => multisig_addresses (S (length script)) script 1 []
  end.

End destinations.

(** [ScriptWitness] and the commitment output of BIP 141. *)
Definition is_witness_commitment_script (script : bytes) : bool :=
  (38 <=? zlen script) && opcode_is script 0 OP_RETURN && byte_is script 1 x24 &&
  byte_is script 2 xaa && byte_is script 3 x21 && byte_is script 4 xa9 && byte_is script 5 xed.

(** * The decoder *)

Lemma fold_le_spec d i acc : 0 <= i -> fold_le d i acc = acc + 256 ^ i * le_value d.
Proof.
  revert i acc. induction d as [|x d IH]; intros i acc Hi; cbn [fold_le le_value]; [lia|].
  rewrite IH, Z.shiftl_mul_pow2, Z.pow_add_r, Z.mul_comm, Z.pow_mul_r by lia.
  rewrite <- (Z.pow_mul_r 2 i 8), (Z.mul_comm i 8), (Z.pow_mul_r 2 8 i) by lia.
  change (2 ^ 8) with 256. lia.
Qed.

Lemma read_usize_spec d n :
  read_usize d n = if (length d <? n)%nat then Err Error.BadOpcode
                   else Ok (le_value (list.take n d)).
Proof.
  unfold read_usize. destruct (Nat.ltb_spec (length d) n); bool_prop.
  - by rewrite (proj2 (Z.ltb_lt _ _)) by lia.
  - rewrite (proj2 (Z.ltb_ge _ _)) by lia. rewrite fold_le_spec by lia. f_equal. lia.
Qed.

Lemma take_Ok script offset len d :
  0 <= len -> take script offset len = Ok d ->
  Z.of_nat offset + len <= zlen script /\ zlen d = len /\
  d = slice script offset (offset + Z.to_nat len).
Proof.
  intros Hl. unfold take. destruct (_ <? _) eqn:E; [done|]. intros [= <-]. bool_prop.
  split_and!; [done| |done]. rewrite length_slice by lia. lia.
Qed.

(** The decoder reads only from its position on ... *)
Lemma take_shift pre script k n :
  take (pre ++ script) (length pre + k) n = take script k n.
Proof.
  unfold take, slice. rewrite length_app.
  replace (Z.of_nat (length pre + length script) <? Z.of_nat (length pre + k) + n)
    with (zlen script <? Z.of_nat k + n) by (apply eq_true_iff_eq; rewrite !Z.ltb_lt; lia).
  destruct (_ <? _); [done|]. do 2 f_equal; [lia|]. rewrite drop_app_ge by lia. f_equal. lia.
Qed.

Lemma get_instruction_shift pre script :
  get_instruction (pre ++ script) (length pre) = get_instruction script 0.
Proof.
  unfold get_instruction, get_opcode, index.
  rewrite lookup_app_r, Nat.sub_diag by lia.
  destruct (script !! 0%nat) as [b|]; [|done]. cbn. destruct (from_u8 b) as [o|]; [|done]. cbn.
  destruct (pushdata_len o) as [len|].
  - rewrite take_shift. destruct (take script 1 _); cbn; try done.
    destruct (read_usize a len); cbn; try done.
    replace (length pre + 1 + len)%nat with (length pre + S len)%nat by lia. by rewrite take_shift.
  - destruct (opcode_leb _ _); [|done]. by rewrite take_shift.
Qed.

(** ... and no further than the instruction's step. *)
Lemma take_prefix s s' (m k : nat) n :
  list.take m s = list.take m s' -> (m <= length s)%nat -> (m <= length s')%nat ->
  0 <= n -> Z.of_nat k + n <= Z.of_nat m -> take s k n = take s' k n.
Proof.
  intros E Hs Hs' Hn Hm. unfold take. rewrite !(proj2 (Z.ltb_ge _ _)) by lia. f_equal.
  unfold slice. rewrite !take_drop_commute.
  replace (k + (k + Z.to_nat n - k))%nat with (m `min` (k + (k + Z.to_nat n - k)))%nat by lia.
  rewrite Nat.min_comm, <- !take_take. by rewrite E.
Qed.

Lemma pushdata_len_bound o len : pushdata_len o = Some len -> (1 <= len <= 4)%nat.
Proof. destruct o; cbn; intros H; try done; injection H as <-; lia. Qed.

Lemma opcode_u8_bound o : 0 <= opcode_u8 o < 256.
Proof. apply u8_bound. Qed.

(** A decoded instruction lies within the script. *)
Lemma get_instruction_step script pc :
  (pc < length script)%nat ->
  returns_such (fun i => (1 <= step i)%nat /\ (pc + step i <= length script)%nat)
    (get_instruction script pc).
Proof.
  intros Hpc. unfold get_instruction, get_opcode, index.
  destruct (lookup_lt_is_Some_2 script pc Hpc) as [b ->]. cbn.
  destruct (from_u8 b) as [o|]; [|done]. cbn. destruct (pushdata_len o) as [len|] eqn:El.
  - destruct (take script (pc + 1) _) as [d| | |] eqn:E1; cbn; [|done|..];
      [|unfold take in E1; by destruct (_ <? _)..].
    apply take_Ok in E1 as (H1 & H2 & _); [|lia].
    rewrite read_usize_spec, (proj2 (Nat.ltb_ge _ _)) by lia. cbn.
    destruct (take script (pc + 1 + len) _) as [e| | |] eqn:E2; cbn; [|done|..];
      [|unfold take in E2; by destruct (_ <? _)..].
    apply take_Ok in E2 as (H3 & _); [|apply le_value_bound].
    pose proof (proj1 (le_value_bound (list.take len d))). lia.
  - destruct (opcode_leb o OP_PUSHBYTES_75); [|cbn; lia]. pose proof (opcode_u8_bound o).
    destruct (take script (pc + 1) _) as [d| | |] eqn:E1; cbn; [|done|..];
      [|unfold take in E1; by destruct (_ <? _)..].
    apply take_Ok in E1 as (H1 & _); lia.
Qed.

(** The decoded instruction depends only on its own bytes. *)
Lemma get_instruction_prefix s s' i :
  get_instruction s 0 = Ok i -> (step i <= length s')%nat ->
  list.take (step i) s = list.take (step i) s' -> get_instruction s' 0 = Ok i.
Proof.
  intros Hi Hs' E.
  assert (Hne : (0 < length s)%nat) by (destruct s; [done|simpl; lia]).
  pose proof (get_instruction_step s 0 Hne) as Hst. rewrite Hi in Hst. destruct Hst as [H1 H2].
  assert (s' !! 0%nat = s !! 0%nat) as E0.
  { rewrite <- (lookup_take_lt s' (step i)), <- E by lia. apply lookup_take_lt. lia. }
  revert Hi. unfold get_instruction, get_opcode, index. rewrite E0.
  destruct (s !! 0%nat) as [b|]; [|done]. cbn. destruct (from_u8 b) as [o|]; [|done]. cbn.
  destruct (pushdata_len o) as [len|].
  - intros Hi. apply bind_Ok in Hi as (d & Hd & Hi). apply bind_Ok in Hi as (n & Hn & Hi).
    apply bind_Ok in Hi as (e & He & Hi). injection Hi as <-. cbn [step] in *.
    rewrite read_usize_spec in Hn. destruct (_ <? _)%nat; [done|]. injection Hn as <-.
    pose proof (proj1 (le_value_bound (list.take len d))).
    rewrite <- (take_prefix s s' _ _ _ E) by lia. rewrite Hd. cbn.
    rewrite read_usize_spec. apply take_Ok in Hd as (_ & Hl & _); [|lia].
    rewrite (proj2 (Nat.ltb_ge _ _)) by lia. cbn.
    by rewrite <- (take_prefix s s' _ _ _ E), He by lia.
  - destruct (opcode_leb o OP_PUSHBYTES_75); [|done]. pose proof (opcode_u8_bound o).
    intros Hi. apply bind_Ok in Hi as (d & Hd & Hi). injection Hi as <-. cbn [step] in *.
    by rewrite <- (take_prefix s s' _ _ _ E), Hd by lia.
Qed.

(** The bytes of an instruction decode to it wherever they stand. *)
Lemma get_instruction_local s pc i pre post :
  get_instruction s pc = Ok i -> (pc < length s)%nat ->
  get_instruction (pre ++ slice s pc (pc + step i) ++ post) (length pre) = Ok i.
Proof.
  intros Hi Hpc. pose proof (get_instruction_step s pc Hpc) as Hst. rewrite Hi in Hst.
  destruct Hst as [H1 H2]. rewrite get_instruction_shift.
  assert (get_instruction (drop pc s) 0 = Ok i) as Hd.
  { pose proof (get_instruction_shift (list.take pc s) (drop pc s)) as H.
    rewrite take_drop, length_take, Nat.min_l in H by lia. by rewrite <- H. }
  unfold slice. rewrite Nat.add_comm, Nat.add_sub.
  apply (get_instruction_prefix _ _ _ Hd).
  - rewrite length_app, length_take, length_drop. lia.
  - rewrite take_app_le by (rewrite length_take, length_drop; lia). by rewrite take_take, Nat.min_id.
Qed.

(** Decoding at a position in range: an instruction inside the script, or an
    error; never a panic. *)
Lemma get_instruction_cases script pc :
  (pc < length script)%nat ->
  (exists i, get_instruction script pc = Ok i /\ (1 <= step i)%nat /\
     (pc + step i <= length script)%nat) \/
  (exists e, get_instruction script pc = Err e).
Proof.
  intros Hpc. pose proof (get_instruction_step script pc Hpc) as H.
  destruct (get_instruction script pc); cbn in H; try done; eauto.
Qed.

(** Case analysis on the instruction at the program counter of a loop. *)
Ltac at_instruction script pc H :=
  destruct (Nat.ltb_spec pc (length script)) as [H|H]; [|try done];
  [destruct (get_instruction_cases script pc H) as [(?i & ?Ei & ?Hs & ?Hl)|(?e & ?Ei)];
   rewrite ?Ei; cbn [match_result]|..].

(** * The instruction stream *)

(** [decodes script pc ins]: from [pc] on the script is exactly the instructions
    [ins]. *)
Inductive decodes (script : bytes) : nat -> list Instruction -> Prop :=
| decodes_end pc : (length script <= pc)%nat -> decodes script pc []
| decodes_step pc i ins :
    (pc < length script)%nat -> get_instruction script pc = Ok i ->
    decodes script (pc + step i) ins -> decodes script pc (i :: ins).

Lemma is_push_only_loop_spec {E} script fuel pc :
  (pc <= length script < fuel + pc)%nat ->
  exists b, @is_push_only_loop E fuel script pc = Ok b /\
    (b = true <-> exists ins, decodes script pc ins /\
       Forall (fun i => opcode_leb (opcode i) OP_16 = true) ins).
Proof.
  revert pc. induction fuel as [|fuel IH]; intros pc Hf; cbn [is_push_only_loop].
  { lia. }
  at_instruction script pc Hpc.
  - destruct (opcode_ltb OP_16 (opcode i)) eqn:Ho.
    + exists false. split; [done|]. split; [done|]. intros (ins & Hd & Hall).
      inversion Hd as [|? ? ? ? Ei' ?]; subst; [lia|]. rewrite Ei in Ei'. injection Ei' as <-.
      inversion Hall as [|? ? Hi ?]; subst. unfold opcode_leb, opcode_ltb in *. bool_prop. lia.
    + destruct (IH (pc + step i)%nat) as (b & Hb & Hiff); [lia|]. exists b. split; [done|].
      rewrite Hiff. split.
      * intros (ins & Hd & Hall). exists (i :: ins). split; [by constructor|]. constructor; [|done].
        unfold opcode_leb, opcode_ltb in *. apply Z.leb_le. bool_prop. lia.
      * intros (ins & Hd & Hall). inversion Hd as [|? ? ins' ? Ei' Hd']; subst; [lia|].
        rewrite Ei in Ei'. injection Ei' as <-. inversion Hall; subst. by exists ins'.
  - exists false. split; [done|]. split; [done|]. intros (ins & Hd & _).
    inversion Hd; subst; [lia|congruence].
  - exists true. split; [done|]. split; [|done]. intros _. exists []. by repeat constructor.
Qed.

Lemma decodes_det script pc ins ins' : decodes script pc ins -> decodes script pc ins' -> ins = ins'.
Proof.
  intros H. revert ins'. induction H; intros ins' H'; inversion H'; subst; try done; try lia.
  f_equal; [congruence|]. apply IHdecodes. congruence.
Qed.

(** Decoding does not depend on what precedes the program counter. *)
Lemma decodes_shift pre script ins :
  decodes script 0 ins -> decodes (pre ++ script) (length pre) ins.
Proof.
  assert (forall pc, decodes script pc ins -> decodes (pre ++ script) (length pre + pc) ins) as H.
  { induction 1 as [pc Hpc|pc i ins Hpc Hi Hd IH].
    - constructor. rewrite length_app. lia.
    - constructor; [rewrite length_app; lia| |by rewrite <- Nat.add_assoc].
      rewrite <- Hi. pose proof (get_instruction_shift (pre ++ list.take pc script) (drop pc script)) as H1.
      pose proof (get_instruction_shift (list.take pc script) (drop pc script)) as H2.
      rewrite <- app_assoc, take_drop, length_app, length_take, Nat.min_l in H1 by lia.
      rewrite take_drop, length_take, Nat.min_l in H2 by lia. congruence. }
  intros Hd. specialize (H 0%nat Hd). by rewrite Nat.add_0_r in H.
Qed.

(** Prepending the bytes of an instruction prepends the instruction. *)
Lemma decodes_cons s pc i script ins :
  get_instruction s pc = Ok i -> (pc < length s)%nat ->
  decodes script 0 ins -> decodes (slice s pc (pc + step i) ++ script) 0 (i :: ins).
Proof.
  intros Hi Hpc Hd. pose proof (get_instruction_step s pc Hpc) as Hst. rewrite Hi in Hst.
  destruct Hst as [H1 H2].
  assert (length (slice s pc (pc + step i)) = step i) as Hl by (rewrite length_slice by lia; lia).
  constructor.
  - rewrite length_app. lia.
  - exact (get_instruction_local s pc i [] script Hi Hpc).
  - rewrite Nat.add_0_l. rewrite <- Hl at 2. by apply decodes_shift.
Qed.

Definition is_separator (i : Instruction) : bool := opcode_eqb (opcode i) OP_CODESEPARATOR.

Lemma without_separators_loop_spec {E} script fuel pc ins result :
  (pc <= length script < fuel + pc)%nat -> decodes script pc ins ->
  exists tail, @without_separators_loop E fuel script pc result = Ok (result ++ tail) /\
    decodes tail 0 (filter (fun i => is_separator i = false) ins).
Proof.
  intros Hf Hd. revert fuel result Hf. induction Hd as [pc Hpc|pc i ins Hpc Hi Hd IH];
    intros [|fuel] result Hf; cbn [without_separators_loop]; try lia.
  { rewrite (proj2 (Nat.ltb_ge _ _)) by lia. exists []. rewrite app_nil_r. split; [done|].
    by constructor. }
  pose proof (get_instruction_step script pc Hpc) as Hst. rewrite Hi in *. destruct Hst as [H1 H2].
  rewrite (proj2 (Nat.ltb_lt _ _)) by lia. cbn [match_result]. rewrite filter_cons.
  fold (is_separator i). destruct (is_separator i).
  - destruct (IH fuel result) as (tail & -> & Ht); [lia|]. exists tail. split; [done|].
    by rewrite decide_False.
  - destruct (IH fuel (result ++ slice script pc (pc + step i))) as (tail & -> & Ht); [lia|].
    rewrite <- app_assoc. eexists. split; [done|]. rewrite decide_True by done.
    by apply decodes_cons.
Qed.

(** On any script, decodable or not, the result is no longer than the script. *)
Lemma without_separators_loop_total {E} script fuel pc result :
  (pc <= length script < fuel + pc)%nat ->
  exists r, @without_separators_loop E fuel script pc result = Ok r /\
    (length r <= length result + (length script - pc))%nat.
Proof.
  revert pc result. induction fuel as [|fuel IH]; intros pc result Hf; [lia|]. cbn [without_separators_loop].
  destruct (Nat.ltb_spec pc (length script)) as [Hpc|Hpc].
  2:{ eexists. split; [done|lia]. }
  destruct (lookup_lt_is_Some_2 script pc Hpc) as [b Hb].
  destruct (get_instruction_cases script pc Hpc) as [(i & Hi & H1 & H2)|(e & He)].
  - rewrite Hi. cbn [match_result].
    destruct (opcode_eqb _ _);
      (edestruct (IH (pc + step i)%nat) as (r & -> & Hr); [lia|exists r; split; [done|]]); [lia|].
    rewrite length_app, length_slice in Hr by lia. lia.
  - rewrite He. cbn [match_result]. unfold index. rewrite Hb. cbn [expect mbind outcome_bind].
    destruct (IH (pc + 1)%nat (result ++ [b])) as (r & -> & Hr); [lia|]. exists r. split; [done|].
    rewrite length_app in Hr. cbn in Hr. lia.
Qed.

Lemma without_separators_total {E} script :
  exists r, @without_separators E script = Ok r /\ (length r <= length script)%nat.
Proof.
  destruct (@without_separators_loop_total E script (S (length script)) 0 []) as (r & Hr & Hl); [lia|].
  exists r. split; [done|]. cbn in Hl. lia.
Qed.

(** * Counting *)

(** What one opcode adds to the signature-operation count. *)
Definition sigops_cost (checkdatasig_active serialized_script : bool) (last o : Opcode) : Z :=
  match o with
  | OP_CHECKSIG | OP_CHECKSIGVERIFY => 1
  | OP_CHECKDATASIG | OP_CHECKDATASIGVERIFY => if checkdatasig_active then 1 else 0
  | OP_CHECKMULTISIG | OP_CHECKMULTISIGVERIFY =>
      if serialized_script && is_within_op_n last then opcode_u8 last - 80 else 20
  | _ => 0
  end.

Lemma sigops_cost_bound cds ser last o : 0 <= sigops_cost cds ser last o <= 20.
Proof.
  assert (is_within_op_n last = true -> 81 <= opcode_u8 last <= 96).
  { unfold is_within_op_n, opcode_leb. intros H. bool_prop. done. }
  unfold sigops_cost. destruct o, cds, ser; cbn; try lia;
    (destruct (is_within_op_n last); [specialize (H eq_refl)|]; lia).
Qed.

Lemma sigops_cost_le cds last o :
  sigops_cost cds true last o <= sigops_cost cds false last o.
Proof.
  pose proof (sigops_cost_bound cds true last o). revert H.
  unfold sigops_cost. destruct o, cds; cbn; lia.
Qed.

(** The running total, as the code adds to it. *)
Lemma sigops_total {E} cds ser last o total :
  0 <= total -> total + 20 < 2 ^ 64 ->
  match o with
  | OP_CHECKSIG | OP_CHECKSIGVERIFY => ucheck 64 (total + 1)
  | OP_CHECKDATASIG | OP_CHECKDATASIGVERIFY =>
      if cds : bool then ucheck 64 (total + 1) else Ok total
  | OP_CHECKMULTISIG | OP_CHECKMULTISIGVERIFY =>
      if ser && is_within_op_n last then n ← decode_op_n last; ucheck 64 (total + n)
      else ucheck 64 (total + MAX_PUBKEYS_PER_MULTISIG)
  | _ => Ok total
  end = @Ok E Z (total + sigops_cost cds ser last o).
Proof.
  intros H0 H1.
  assert (is_within_op_n last = true -> @decode_op_n E last = Ok (opcode_u8 last - 80)) as Hn.
  { intros H. unfold decode_op_n. by rewrite H. }
  pose proof (sigops_cost_bound cds ser last o) as Hb. revert Hb. unfold MAX_PUBKEYS_PER_MULTISIG.
  destruct o; cbn [sigops_cost]; try (intros _; f_equal; lia);
    try (by intros _; rewrite ucheck_Ok by (unfold uint; lia));
    try (by intros _; destruct cds; [rewrite ucheck_Ok by (unfold uint; lia)|f_equal; lia]);
    destruct (ser && is_within_op_n last) eqn:Ew;
    try (by intros _; rewrite ucheck_Ok by (unfold uint; lia));
    bool_prop; rewrite Hn by done; intros; cbn [mbind outcome_bind];
    by rewrite ucheck_Ok by (unfold uint; lia).
Qed.

Lemma sigops_loop_bounds {E} cds ser script fuel pc last total :
  (pc <= length script < fuel + pc)%nat -> 0 <= total ->
  total + 20 * (zlen script - Z.of_nat pc + 1) < 2 ^ 64 ->
  exists n, @sigops_loop E fuel script pc cds ser last total = Ok n /\
    total <= n <= total + 20 * (zlen script - Z.of_nat pc).
Proof.
  revert pc last total. induction fuel as [|fuel IH]; intros pc last total Hf H0 H1; [lia|].
  cbn [sigops_loop]. destruct (Nat.leb_spec (length script) pc) as [Hpc|Hpc].
  { exists total. split; [done|]. lia. }
  destruct (get_instruction_cases script pc Hpc) as [(i & -> & Hs & Hl)|(e & ->)]; cbn [match_result].
  - rewrite sigops_total by lia. cbn [mbind outcome_bind].
    pose proof (sigops_cost_bound cds ser last (opcode i)).
    destruct (IH (pc + step i)%nat (opcode i) (total + sigops_cost cds ser last (opcode i)))
      as (n & -> & Hn); try lia. exists n. split; [done|]. lia.
  - exists total. split; [done|]. lia.
Qed.

Lemma sigops_loop_mono {E} cds script fuel pc last total total' :
  (pc <= length script < fuel + pc)%nat -> 0 <= total <= total' ->
  total' + 20 * (zlen script - Z.of_nat pc + 1) < 2 ^ 64 ->
  exists n n', @sigops_loop E fuel script pc cds true last total = Ok n /\
    @sigops_loop E fuel script pc cds false last total' = Ok n' /\ n <= n'.
Proof.
  revert pc last total total'. induction fuel as [|fuel IH]; intros pc last total total' Hf H0 H1; [lia|].
  cbn [sigops_loop]. destruct (Nat.leb_spec (length script) pc) as [Hpc|Hpc].
  { exists total, total'. split_and!; [done..|lia]. }
  destruct (get_instruction_cases script pc Hpc) as [(i & -> & Hs & Hl)|(e & ->)]; cbn [match_result].
  - rewrite !sigops_total by lia. cbn [mbind outcome_bind].
    pose proof (sigops_cost_bound cds true last (opcode i)).
    pose proof (sigops_cost_bound cds false last (opcode i)).
    pose proof (sigops_cost_le cds last (opcode i)). apply IH; lia.
  - exists total, total'. split_and!; [done..|lia].
Qed.

(** * Deleting a byte string *)

Lemma slice_app_middle {A} (a d b : list A) :
  slice (a ++ d ++ b) (length a) (length a + length d) = d.
Proof.
  unfold slice. rewrite drop_app_length, Nat.add_comm, Nat.add_sub. apply take_app_length.
Qed.

Lemma slice_split {A} (l : list A) i j :
  (i <= j <= length l)%nat -> l = list.take i l ++ slice l i j ++ drop j l.
Proof.
  intros H. unfold slice. rewrite <- (take_drop i l) at 1. f_equal.
  rewrite <- (take_drop (j - i) (drop i l)) at 1. f_equal. rewrite drop_drop. f_equal. lia.
Qed.

Lemma take_snoc_lookup {A} (l : list A) n x :
  l !! n = Some x -> list.take (n + 1) l = list.take n l ++ [x].
Proof. intros H. rewrite Nat.add_1_r. by apply take_S_r. Qed.

Lemma sublist_take_le {A} (l : list A) n m :
  (n <= m)%nat -> list.take n l `sublist_of` list.take m l.
Proof. intros. rewrite <- (Nat.min_l n m), <- take_take by done. apply sublist_take. Qed.

(** Every loop round either copies one byte or skips a whole occurrence. *)
Lemma find_and_delete_loop_sublist {E} script d fuel current result :
  d <> [] -> (current <= length script < fuel + current)%nat ->
  result `sublist_of` list.take current script ->
  exists r, @find_and_delete_loop E fuel script d current result = Ok r /\ r `sublist_of` script.
Proof.
  intros Hd. revert current result. induction fuel as [|fuel IH]; intros current result Hf Hr; [lia|].
  assert (0 < length d)%nat by (destruct d; [done|simpl; lia]).
  cbn [find_and_delete_loop]. destruct (Nat.ltb_spec current (length script - length d)) as [Hc|Hc].
  - case_bool_decide.
    + apply IH; [lia|]. etrans; [exact Hr|]. apply sublist_take_le. lia.
    + destruct (lookup_lt_is_Some_2 script current) as [b Hb]; [lia|].
      unfold index. rewrite Hb. cbn [expect mbind outcome_bind]. apply IH; [lia|].
      rewrite (take_snoc_lookup _ _ _ Hb). by apply sublist_app.
  - unfold subscript. rewrite (proj2 (Nat.leb_le _ _)) by lia. cbn [mbind outcome_bind].
    eexists. split; [done|]. rewrite <- (take_drop current script) at 2. by apply sublist_app.
Qed.

(** Without an occurrence before the end every round copies a byte. *)
Lemma find_and_delete_loop_id {E} script d fuel current :
  d <> [] -> (forall a b, script = a ++ d ++ b -> b = []) ->
  (current <= length script < fuel + current)%nat ->
  @find_and_delete_loop E fuel script d current (list.take current script) = Ok script.
Proof.
  intros Hd Hend. revert current. induction fuel as [|fuel IH]; intros current Hf; [lia|].
  cbn [find_and_delete_loop]. destruct (Nat.ltb_spec current (length script - length d)) as [Hc|Hc].
  - rewrite bool_decide_false; swap 1 2.
    { intros Hs. pose proof (slice_split script current (current + length d) ltac:(lia)) as Hsp.
      rewrite Hs in Hsp. apply Hend, (f_equal length) in Hsp. rewrite length_drop in Hsp.
      simpl in Hsp. lia. }
    destruct (lookup_lt_is_Some_2 script current) as [b Hb]; [lia|].
    unfold index. rewrite Hb. cbn [expect mbind outcome_bind].
    rewrite <- (take_snoc_lookup _ _ _ Hb). apply IH. lia.
  - unfold subscript. rewrite (proj2 (Nat.leb_le _ _)) by lia. cbn [mbind outcome_bind].
    by rewrite take_drop.
Qed.

Lemma find_and_delete_returns {E} script d :
  exists r, @find_and_delete E script d = Ok r /\ r `sublist_of` script.
Proof.
  unfold find_and_delete. destruct (_ || _) eqn:Hd; [by eexists|]. apply orb_false_iff in Hd as [_ Hd].
  apply find_and_delete_loop_sublist; [by intros ->|lia|apply sublist_nil_l].
Qed.

(** * Multisig templates *)

(** A direct push carries as many bytes as its opcode says. *)
Lemma get_instruction_push script pc i :
  get_instruction script pc = Ok i -> opcode_leb (opcode i) OP_PUSHBYTES_75 = true ->
  step i = (Z.to_nat (opcode_u8 (opcode i)) + 1)%nat /\
  exists d, data i = Some d /\ zlen d = opcode_u8 (opcode i).
Proof.
  unfold get_instruction. intros Hi Ho. apply bind_Ok in Hi as (o & _ & Hi).
  destruct (pushdata_len o) as [len|] eqn:El.
  - apply bind_Ok in Hi as (d & _ & Hi). apply bind_Ok in Hi as (n & _ & Hi).
    apply bind_Ok in Hi as (e & _ & Hi). injection Hi as <-. cbn in Ho. by destruct o.
  - destruct (opcode_leb o OP_PUSHBYTES_75) eqn:E.
    + apply bind_Ok in Hi as (d & Hd & Hi). injection Hi as <-. cbn.
      split; [done|]. exists d. split; [done|].
      apply take_Ok in Hd as (_ & ? & _); [done|]. apply opcode_u8_bound.
    + injection Hi as <-. cbn in Ho. congruence.
Qed.

Definition is_key_push (o : Opcode) : bool :=
  match o with OP_PUSHBYTES_33 | OP_PUSHBYTES_65 => true | _ => false end.

Lemma is_key_push_step script pc i :
  get_instruction script pc = Ok i -> is_key_push (opcode i) = true ->
  (34 <= step i)%nat /\ exists d, data i = Some d /\ public_from_slice d = Ok d.
Proof.
  intros Hi Hk. destruct (get_instruction_push script pc i Hi) as (Hs & d & Hd & Hl).
  { by destruct (opcode i). }
  unfold public_from_slice. rewrite Hs, Hd.
  destruct (opcode i); try discriminate Hk; cbn in *; (split; [lia|]); exists d; by rewrite Hl.
Qed.

Lemma match_key_push {B} o (a b : B) :
  match o with OP_PUSHBYTES_33 | OP_PUSHBYTES_65 => a | _ => b end = if is_key_push o then a else b.
Proof. by destruct o. Qed.

(** Every accepted key occupies at least 34 bytes, so the [u8] counter holds. *)
Lemma multisig_keys_total {E} script fuel pc keys :
  (pc <= length script < fuel + pc)%nat -> 0 <= keys ->
  34 * keys + zlen script - Z.of_nat pc < 34 * 256 ->
  exists k, @multisig_keys E fuel script pc keys = Ok k.
Proof.
  revert pc keys. induction fuel as [|fuel IH]; intros pc keys Hf H0 H1; [lia|].
  cbn [multisig_keys]. destruct (Nat.ltb_spec pc (length script - 2)) as [Hpc|Hpc]; [|eauto].
  destruct (get_instruction_cases script pc) as [(i & Ei & Hs & Hl)|(e & ->)]; [lia| |by eauto].
  rewrite Ei. cbn [match_result]. rewrite match_key_push.
  destruct (is_key_push (opcode i)) eqn:Hk; [|by eauto].
  destruct (is_key_push_step script pc i Ei Hk) as [H34 _].
  rewrite ucheck_Ok by (unfold uint; lia). cbn [mbind outcome_bind]. apply IH; lia.
Qed.

Lemma multisig_addresses_spec {E} dhash160 script fuel pc keys k addresses :
  @multisig_keys E fuel script pc keys = Ok (Some k) ->
  exists l, multisig_addresses dhash160 fuel script pc addresses = Ok (addresses ++ l) /\
    zlen l = k - keys /\ Forall (fun a => kind a = P2PKH) l.
Proof.
  revert pc keys addresses. induction fuel as [|fuel IH]; intros pc keys addresses; [done|].
  cbn [multisig_keys multisig_addresses]. destruct (pc <? length script - 2)%nat; swap 1 2.
  { intros [= <-]. exists []. rewrite app_nil_r. split_and!; [done|simpl; lia|done]. }
  destruct (get_instruction script pc) as [i|e| |] eqn:Ei; cbn [match_result]; try done.
  rewrite match_key_push. destruct (is_key_push (opcode i)) eqn:Hk; [|done].
  destruct (is_key_push_step script pc i Ei Hk) as (_ & d & -> & Hp). cbn [expect mbind outcome_bind].
  rewrite Hp. cbn [mbind outcome_bind]. intros Hm. apply bind_Ok in Hm as (k' & Hk' & Hm).
  unfold ucheck in Hk'. destruct (is_uint _ _); [|done]. injection Hk' as <-.
  destruct (IH _ _ (addresses ++ [new_p2pkh (address_hash dhash160 d)]) Hm) as (l & -> & Hl & Hall).
  rewrite <- app_assoc. eexists. split; [done|]. split; [simpl; lia|]. by constructor.
Qed.

Lemma is_push_only_total {E} script : exists b, @is_push_only E script = Ok b.
Proof.
  unfold is_push_only.
  destruct (@is_push_only_loop_spec E script (S (length script)) 0) as (b & -> & _); [lia|]. eauto.
Qed.

Lemma script_type_total {E} script :
  zlen script <= 8700 -> exists t, @script_type E script = Ok t /\
    (t = Multisig -> exists k,
       @multisig_keys E (S (length script)) script 1 0 = Ok (Some k)) /\
    (t = PubKey -> is_pay_to_public_key script = true).
Proof.
  intros Hl. unfold script_type.
  destruct (is_pay_to_public_key script); [by eexists|].
  destruct (is_pay_to_public_key_hash script); [by eexists|].
  destruct (is_pay_to_script_hash script); [by eexists|].
  assert (exists b, @is_multisig_script E script = Ok b /\ (b = true -> exists k,
    @multisig_keys E (S (length script)) script 1 0 = Ok (Some k))) as (b & -> & Hb).
  { unfold is_multisig_script. destruct (_ <? _) eqn:H3; [by eexists|]. bool_prop.
    destruct (small_number _); [|by eexists]. destruct (small_number _); [|by eexists].
    destruct (_ <? _); [by eexists|]. destruct (negb _); [by eexists|].
    destruct (@multisig_keys_total E script (S (length script)) 1 0) as (k & ->); try lia.
    cbn [mbind outcome_bind]. eexists. split; [done|]. destruct k; [by eauto|done]. }
  cbn [mbind outcome_bind]. destruct b; [eexists; split; [done|]; by split; [eauto|]|].
  assert (exists b, @is_null_data_script E script = Ok b) as [b ->].
  { unfold is_null_data_script. destruct (opcode_is script 0 OP_RETURN) eqn:E0; [|by eexists].
    destruct script as [|x script]; [done|]. cbn [subscript length Nat.leb mbind outcome_bind].
    apply is_push_only_total. }
  cbn [mbind outcome_bind]. destruct b; [by eexists|]. repeat (step_case; [by eexists|]). by eexists.
Qed.

(** * Properties *)

(** [is_push_only] terminates on every script and answers [true] exactly when
    the whole script decodes into instructions with opcodes up to OP_16. *)
Theorem is_push_only_spec {E} script :
  exists b, @is_push_only E script = Ok b /\
    (b = true <-> exists ins, decodes script 0 ins /\
       Forall (fun i => opcode_leb (opcode i) OP_16 = true) ins).
Proof. apply is_push_only_loop_spec. lia. Qed.

(** On a script that decodes, [without_separators] returns a script that
    decodes to the same instructions with exactly the OP_CODESEPARATORs removed. *)
Theorem without_separators_spec {E} script ins :
  decodes script 0 ins ->
  exists r, @without_separators E script = Ok r /\
    decodes r 0 (filter (fun i => is_separator i = false) ins).
Proof.
  intros H. destruct (@without_separators_loop_spec E script (S (length script)) 0 ins []) as (r & Hr & Hd);
    [lia|done|]. eauto.
Qed.

Lemma without_separators_spec_witness :
  exists r, @without_separators unit [x51; xab; x01; xab] = Ok r /\
    decodes r 0 (filter (fun i => is_separator i = false)
      [ {| opcode := OP_1; step := 1; data := None |};
        {| opcode := OP_CODESEPARATOR; step := 1; data := None |};
        {| opcode := OP_PUSHBYTES_1; step := 2; data := Some [xab] |} ]).
Proof.
  apply without_separators_spec.
  repeat (first [apply decodes_end; cbn; lia
                |eapply decodes_step; [cbn; lia|reflexivity|cbn]]).
Defined.

(** Counting signature operations never overflows or diverges for a script of
    any practical length; the count is at most twenty per byte, and the accurate
    count of a serialized (P2SH) script never exceeds the legacy count. *)
Theorem sigops_count_bounds {E} script checkdatasig_active :
  zlen script < 2 ^ 59 ->
  exists n n', @sigops_count E script checkdatasig_active true = Ok n /\
    @sigops_count E script checkdatasig_active false = Ok n' /\
    0 <= n <= n' /\ n' <= 20 * zlen script.
Proof.
  intros Hl. unfold sigops_count.
  destruct (@sigops_loop_mono E checkdatasig_active script (S (length script)) 0 OP_0 0 0)
    as (n & n' & Hn & Hn' & Hle); try lia.
  destruct (@sigops_loop_bounds E checkdatasig_active true script (S (length script)) 0 OP_0 0)
    as (m & Hm & Hb); try lia.
  destruct (@sigops_loop_bounds E checkdatasig_active false script (S (length script)) 0 OP_0 0)
    as (m' & Hm' & Hb'); try lia.
  exists n, n'. split_and!; try done; rewrite Hn in Hm; rewrite Hn' in Hm';
    injection Hm as ->; injection Hm' as ->; lia.
Qed.

Lemma sigops_count_bounds_witness :
  exists n n', @sigops_count unit [x52; xae; xac] true true = Ok n /\
    @sigops_count unit [x52; xae; xac] true false = Ok n' /\
    0 <= n <= n' /\ n' <= 20 * zlen [x52; xae; xac].
Proof. by apply sigops_count_bounds. Defined.

(** Counting the signature operations of a P2SH spend panics when the last
    instruction of the push-only input script is OP_1NEGATE, OP_RESERVED or one of
    OP_1 to OP_16, which are pushes without data bytes. *)
Theorem pay_to_script_hash_sigops_panics {E} o checkdatasig_active prev_out :
  opcode_leb OP_1NEGATE o = true -> opcode_leb o OP_16 = true ->
  is_pay_to_script_hash prev_out = true ->
  @pay_to_script_hash_sigops E [opcode_byte o] checkdatasig_active prev_out = Panic.
Proof.
  intros H1 H2 Hp. unfold pay_to_script_hash_sigops. rewrite Hp.
  destruct o; try discriminate H1; try discriminate H2; reflexivity.
Qed.

Lemma pay_to_script_hash_sigops_panics_witness :
  @pay_to_script_hash_sigops unit [x51] true
    ([xa9; x14] ++ replicate 20 x00 ++ [x87]) = Panic.
Proof. by apply (pay_to_script_hash_sigops_panics OP_1). Defined.

(** [find_and_delete] terminates on every script and pattern, and returns a
    subsequence of the script. *)
Theorem find_and_delete_total {E} script d :
  exists r, @find_and_delete E script d = Ok r /\ r `sublist_of` script.
Proof. apply find_and_delete_returns. Qed.

(** An occurrence of the pattern at the very end of the script is kept: when
    the pattern occurs nowhere else, [find_and_delete] changes nothing. *)
Theorem find_and_delete_keeps_end {E} script d :
  (forall a b, script = a ++ d ++ b -> b = []) -> @find_and_delete E script d = Ok script.
Proof.
  intros Hend. unfold find_and_delete. destruct (_ || _) eqn:Hd; [done|].
  apply orb_false_iff in Hd as [_ Hd].
  apply (find_and_delete_loop_id script d (S (length script)) 0); [by intros ->|done|lia].
Qed.

Lemma find_and_delete_keeps_end_witness :
  @find_and_delete unit [xac; x01; x05] [x01; x05] = Ok [xac; x01; x05].
Proof.
  apply find_and_delete_keeps_end.
  intros a b H. apply (f_equal length) in H as Hl. rewrite !length_app in Hl. cbn in Hl.
  destruct a as [|a0 a]; [discriminate H|]. destruct b; [done|]. cbn in Hl. lia.
Defined.

(** Extracting the destinations of a script of up to 8700 bytes always
    succeeds: the unwraps of the multisig branch and the [unreachable!] of the
    public-key branch cannot be hit. *)
Theorem extract_destinations_total dhash160 script :
  zlen script <= 8700 -> exists l, extract_destinations dhash160 script = Ok l.
Proof.
  intros Hl. unfold extract_destinations.
  destruct (@script_type_total KeysError script Hl) as (t & -> & Hm & Hk). cbn [mbind outcome_bind].
  destruct t; try (by eexists).
  - specialize (Hk eq_refl). unfold is_pay_to_public_key in Hk. destruct script as [|x rest]; [done|].
    cbn [index expect mbind outcome_bind lookup list_lookup]. unfold public_from_slice.
    case_bool_decide; [|case_bool_decide; [|done]];
      apply andb_true_iff in Hk as [Hk _]; apply Nat.eqb_eq in Hk;
      cbn [mbind outcome_bind]; rewrite length_slice by lia; by eexists.
  - destruct (Hm eq_refl) as (k & Hk').
    destruct (multisig_addresses_spec dhash160 _ _ _ _ _ [] Hk') as (l & -> & _). by eexists.
Qed.

Lemma extract_destinations_total_witness :
  exists l, extract_destinations (fun _ => []) ([x51; x21] ++ replicate 33 x02 ++ [x51; xae]) = Ok l.
Proof. apply extract_destinations_total. vm_compute. congruence. Defined.

End Script.
