(* ===== verification/Builder.v ===== *)
(** The script builder (src/script/src/builder.rs), and its agreement with the
    decoder and the templates of Script.v: what the builder pushes the decoder
    reads back, and the built templates are exactly the recognised ones. *)
From Stdlib Require Import ZArith Lia Strings.Byte.
From stdpp Require Import base decidable numbers list.
From S2P Require Import Prelude Opcode Num Script.

Local Open Scope Z_scope.

Module Builder.
Import Script.

(** A builder is its [data]. *)
Abbreviation Builder := bytes.
Definition default : Builder := [].

Definition push_opcode (self : Builder) (o : Opcode) : Builder := self ++ [opcode_byte o].

Definition push_bool (self : Builder) (value : bool) : Builder :=
  self ++ [if value then opcode_byte OP_1 else opcode_byte OP_0].

(** The opcode of a direct push of [len] bytes, for [1 <= len <= 75]; the panics
    are the explicit one and the [expect] on the conversion. *)
Definition direct_push {E} (len : Z) : outcome E byte :=
  if (len <? 1) || (75 <? len) then Panic
  else o ← expect (from_u8 (byte_of (opcode_u8 OP_PUSHBYTES_1 + len - 1))); Ok (opcode_byte o).

Definition push_bytes {E} (self : Builder) (bytes : bytes) : outcome E Builder :=
  o ← direct_push (zlen bytes); Ok (self ++ [o] ++ bytes).

Definition push_data {E} (self : Builder) (data : bytes) : outcome E Builder :=
  let len := zlen data in
  header ←
    (if len <? opcode_u8 OP_PUSHDATA1 then Ok [byte_of len]
     else if len <? 256 then Ok [opcode_byte OP_PUSHDATA1; byte_of len]
     else if len <? 65536 then
       Ok [opcode_byte OP_PUSHDATA2; byte_of len; byte_of (Z.shiftr len 8)]
     else if len <? 4294967296 then
       Ok [opcode_byte OP_PUSHDATA4; byte_of len; byte_of (Z.shiftr len 8);
           byte_of (Z.shiftr len 16); byte_of (Z.shiftr len 24)]
     else Panic);
  Ok (self ++ header ++ data).

Definition push_num {E} (self : Builder) (num : Z) : outcome E Builder :=
  data ← Num.to_bytes num; push_data self data.

Definition return_bytes {E} (self : Builder) (bytes : bytes) : outcome E Builder :=
  o ← direct_push (zlen bytes); Ok (self ++ [opcode_byte OP_RETURN; o] ++ bytes).

Definition push_invalid_opcode (self : Builder) : Builder := self ++ [xff].

Definition into_script (self : Builder) : bytes := self.
Definition into_bytes (self : Builder) : bytes := self.

Definition build_p2pkh {E} (address : bytes) : outcome E bytes :=
  b ← push_bytes (push_opcode (push_opcode default OP_DUP) OP_HASH160) address;
  Ok (into_script (push_opcode (push_opcode b OP_EQUALVERIFY) OP_CHECKSIG)).

Definition build_p2sh {E} (address : bytes) : outcome E bytes :=
  b ← push_bytes (push_opcode default OP_HASH160) address;
  Ok (into_script (push_opcode b OP_EQUAL)).

Definition build_nulldata {E} (bytes : bytes) : outcome E Prelude.bytes :=
  b ← push_bytes (push_opcode default OP_RETURN) bytes; Ok (into_script b).

(** * Lemmas *)

(** The little-endian length bytes the builder pushes. *)
Lemma length_header_2 len :
  [byte_of len; byte_of (Z.shiftr len 8)] = le_bytes 2 len.
Proof. cbn [le_bytes]. by rewrite Z.shiftr_div_pow2 by lia. Qed.

Lemma length_header_4 len :
  [byte_of len; byte_of (Z.shiftr len 8); byte_of (Z.shiftr len 16); byte_of (Z.shiftr len 24)] =
  le_bytes 4 len.
Proof.
  cbn [le_bytes]. rewrite !Z.shiftr_div_pow2, !Z.div_div by lia. done.
Qed.

Lemma take_whole pre d post offset n :
  offset = length pre -> n = zlen d ->
  Script.take (pre ++ d ++ post) offset n = Ok d.
Proof.
  intros -> ->. unfold Script.take. rewrite !length_app, (proj2 (Z.ltb_ge _ _)) by lia.
  by rewrite Nat2Z.id, slice_app_middle.
Qed.

(** A push with [len] explicit length bytes decodes to its data. *)
Lemma decode_pushdata o len d rest :
  pushdata_len o = Some len -> zlen d < 256 ^ Z.of_nat len ->
  get_instruction (([opcode_byte o] ++ le_bytes len (zlen d) ++ d) ++ rest) 0 =
  Ok {| opcode := o; step := length ([opcode_byte o] ++ le_bytes len (zlen d) ++ d); data := Some d |}.
Proof.
  intros Ho Hd. unfold get_instruction, get_opcode. cbn [app index lookup list_lookup expect mbind outcome_bind].
  rewrite from_u8_opcode_byte. cbn [ok_or mbind outcome_bind]. rewrite Ho.
  rewrite <- app_assoc.
  rewrite (take_whole [opcode_byte o] (le_bytes len (zlen d)) (d ++ rest)) by (done || by rewrite length_le_bytes).
  cbn [mbind outcome_bind]. rewrite read_usize_spec, length_le_bytes, Nat.ltb_irrefl.
  cbn [mbind outcome_bind]. rewrite take_ge by (by rewrite length_le_bytes).
  rewrite le_value_le_bytes_id by lia.
  change (opcode_byte o :: le_bytes len (zlen d) ++ d ++ rest)
    with ((opcode_byte o :: le_bytes len (zlen d)) ++ d ++ rest).
  rewrite take_whole by (cbn; rewrite ?length_le_bytes; lia). cbn [mbind outcome_bind].
  do 2 f_equal. cbn. rewrite length_app, length_le_bytes. lia.
Qed.

(** A direct push of up to 75 bytes decodes to its data. *)
Lemma decode_direct b d rest :
  zlen d <= 75 -> u8 b = zlen d ->
  exists o, opcode_byte o = b /\
    get_instruction (([b] ++ d) ++ rest) 0 =
    Ok {| opcode := o; step := length ([b] ++ d); data := Some d |}.
Proof.
  intros Hd Hb. destruct (proj2 (from_u8_defined b)) as [o Ho]; [lia|].
  apply from_u8_Some in Ho as <-. exists o. split; [done|].
  unfold get_instruction, get_opcode. cbn [app index lookup list_lookup expect mbind outcome_bind].
  rewrite from_u8_opcode_byte. cbn [ok_or mbind outcome_bind].
  fold (opcode_u8 o) in Hb. assert (opcode_u8 o <= 75) as Hle by lia.
  assert (pushdata_len o = None) as -> by (destruct o; try done; by vm_compute in Hle).
  unfold opcode_leb. change (opcode_u8 OP_PUSHBYTES_75) with 75.
  rewrite (proj2 (Z.leb_le _ _)) by done.
  rewrite (take_whole [opcode_byte o] d rest) by done. cbn [mbind outcome_bind].
  do 2 f_equal. cbn. lia.
Qed.

(** The push opcode that goes with the length of the data. *)
Definition shortest_push (d : bytes) (o : Opcode) : Prop :=
  (zlen d < 76 -> opcode_u8 o = zlen d) /\ (76 <= zlen d < 256 -> o = OP_PUSHDATA1) /\
  (256 <= zlen d < 65536 -> o = OP_PUSHDATA2).

Lemma push_data_shortest {E} self d :
  zlen d < 2 ^ 32 ->
  exists enc o, @push_data E self d = Ok (self ++ enc) /\
    (length d < length enc <= length d + 5)%nat /\ opcode_leb o OP_PUSHDATA4 = true /\ shortest_push d o /\
    forall rest, get_instruction (enc ++ rest) 0 =
      Ok {| opcode := o; step := length enc; data := Some d |}.
Proof.
  intros Hd. unfold push_data, shortest_push. change (opcode_u8 OP_PUSHDATA1) with 76.
  destruct (zlen d <? 76) eqn:E1; bool_prop.
  { destruct (decode_direct (byte_of (zlen d)) d []) as (o & Ho & _); [lia|rewrite u8_byte_of_small; lia|].
    assert (opcode_u8 o = zlen d) as Hu by (unfold opcode_u8; rewrite Ho, u8_byte_of_small; lia).
    exists ([byte_of (zlen d)] ++ d), o. split; [done|]. split; [cbn; lia|]. split.
    { unfold opcode_leb. rewrite Hu. apply Z.leb_le. change (opcode_u8 OP_PUSHDATA4) with 78. lia. }
    split; [by split_and!; intros; try lia|]. intros rest.
    destruct (decode_direct (byte_of (zlen d)) d rest) as (o' & Ho' & Hi);
      [lia|rewrite u8_byte_of_small; lia|].
    assert (o' = o) as -> by (apply (inj opcode_byte); congruence). done. }
  destruct (zlen d <? 256) eqn:E2; bool_prop.
  { exists ([opcode_byte OP_PUSHDATA1] ++ le_bytes 1 (zlen d) ++ d), OP_PUSHDATA1. split; [done|].
    split; [cbn; lia|]. split; [done|]. split; [split_and!; intros; done || lia|].
    intros rest. by apply decode_pushdata. }
  destruct (zlen d <? 65536) eqn:E3; bool_prop.
  { exists ([opcode_byte OP_PUSHDATA2] ++ le_bytes 2 (zlen d) ++ d), OP_PUSHDATA2.
    rewrite length_header_2. split; [done|]. split; [cbn; lia|]. split; [done|].
    split; [split_and!; intros; done || lia|]. intros rest. by apply decode_pushdata. }
  rewrite (proj2 (Z.ltb_lt _ _)), length_header_4 by lia.
  exists ([opcode_byte OP_PUSHDATA4] ++ le_bytes 4 (zlen d) ++ d), OP_PUSHDATA4. split; [done|].
  split; [cbn; lia|]. split; [done|]. split; [split_and!; intros; lia|].
  intros rest. by apply decode_pushdata.
Qed.

Lemma push_data_spec {E} self d :
  zlen d < 2 ^ 32 ->
  exists enc o, @push_data E self d = Ok (self ++ enc) /\
    (length d < length enc <= length d + 5)%nat /\ opcode_leb o OP_PUSHDATA4 = true /\
    forall rest, get_instruction (enc ++ rest) 0 =
      Ok {| opcode := o; step := length enc; data := Some d |}.
Proof.
  intros Hd. destruct (push_data_shortest (E := E) self d Hd) as (enc & o & H1 & H2 & H3 & _ & H5). by exists enc, o.
Qed.

Lemma direct_push_20 {E} (h : bytes) : length h = 20%nat -> @direct_push E (zlen h) = Ok x14.
Proof. intros ->. done. Qed.

Lemma byte_is_true script i b : byte_is script i b = true -> script !! i = Some b.
Proof.
  unfold byte_is. destruct (script !! i); [|done]. intros ->%bool_decide_eq_true. done.
Qed.

(** A script with the 20 hash bytes cut out. *)
Lemma split_hash (script : bytes) (from : nat) :
  (from + 20 <= length script)%nat ->
  exists h, length h = 20%nat /\ script = list.take from script ++ h ++ drop (from + 20) script.
Proof.
  intros H. exists (slice script from (from + 20)). split; [rewrite length_slice; lia|].
  apply slice_split. lia.
Qed.

(** * Properties *)

(** Whatever the builder pushes with [push_data] (below 4 GiB, else it
    panics), the decoder reads back at that position as one push instruction with
    the same data, at the builder's end and whatever follows. *)
Theorem push_data_get_instruction {E} self d :
  zlen d < 2 ^ 32 ->
  exists script o, @push_data E self d = Ok script /\
    forall rest, get_instruction (script ++ rest) (length self) =
      Ok {| opcode := o; step := length script - length self; data := Some d |}.
Proof.
  intros Hd. destruct (@push_data_spec E self d Hd) as (enc & o & Hp & _ & _ & Hi).
  exists (self ++ enc), o. split; [done|]. intros rest.
  rewrite <- app_assoc, get_instruction_shift, Hi, length_app. do 2 f_equal. lia.
Qed.

Lemma push_data_get_instruction_witness :
  exists script o, @push_data unit [x51] (replicate 300 xaa) = Ok script /\
    forall rest, get_instruction (script ++ rest) 1 =
      Ok {| opcode := o; step := length script - 1; data := Some (replicate 300 xaa) |}.
Proof. by apply (push_data_get_instruction [x51] (replicate 300 xaa)). Defined.

(** A script is recognised as P2SH exactly when the builder makes it from a
    20-byte hash. *)
Theorem is_pay_to_script_hash_iff_built script :
  is_pay_to_script_hash script = true <->
  exists h, length h = 20%nat /\ @build_p2sh unit h = Ok script.
Proof.
  split.
  - unfold is_pay_to_script_hash. intros H. bool_prop.
    repeat match goal with H : opcode_is _ _ _ = true |- _ => apply byte_is_true in H end.
    assert (length script = 23%nat) as Hl by lia.
    destruct (split_hash script 2) as (h & Hh & Hs); [lia|]. exists h. split; [done|].
    unfold build_p2sh, push_bytes. rewrite direct_push_20 by done. cbn. f_equal.
    rewrite Hs. cbn [Nat.add] in *. rewrite (drop_S _ _ _ H0), drop_ge by lia.
    rewrite (take_S_r _ _ _ H1), (take_S_r _ _ _ H2). done.
  - intros (h & Hh & Hb). unfold build_p2sh, push_bytes in Hb. rewrite direct_push_20 in Hb by done.
    cbn in Hb. injection Hb as <-. do 20 (destruct h as [|? h]; [done|]). by destruct h.
Qed.

(** A script is recognised as P2PKH exactly when the builder makes it from a
    20-byte hash. *)
Theorem is_pay_to_public_key_hash_iff_built script :
  is_pay_to_public_key_hash script = true <->
  exists h, length h = 20%nat /\ @build_p2pkh unit h = Ok script.
Proof.
  split.
  - unfold is_pay_to_public_key_hash. intros H. bool_prop.
    repeat match goal with H : opcode_is _ _ _ = true |- _ => apply byte_is_true in H end.
    assert (length script = 25%nat) as Hl by lia.
    destruct (split_hash script 3) as (h & Hh & Hs); [lia|]. exists h. split; [done|].
    unfold build_p2pkh, push_bytes. rewrite direct_push_20 by done. cbn. f_equal.
    rewrite Hs. cbn [Nat.add] in *. rewrite (drop_S _ _ _ H1), (drop_S _ _ _ H0), drop_ge by lia.
    rewrite (take_S_r _ _ _ H2), (take_S_r _ _ _ H3), (take_S_r _ _ _ H4).
    cbn [app list.take]. by rewrite <- app_assoc.
  - intros (h & Hh & Hb). unfold build_p2pkh, push_bytes in Hb. rewrite direct_push_20 in Hb by done.
    cbn in Hb. injection Hb as <-. do 20 (destruct h as [|? h]; [done|]). by destruct h.
Qed.

End Builder.
