(* ===== verification/Crypto.v ===== *)
(** Hash functions (src/crypto/src/lib.rs).  SHA-1, SHA-256 and RIPEMD-160 come
    from the rust-crypto package and SipHash-2-4 from the siphasher package: they
    are the operations of a class, with their digest sizes as its laws.  The
    double hashes and the checksum are the repository's own compositions. *)
From Stdlib Require Import ZArith Lia Strings.Byte.
From stdpp Require Import base decidable numbers list.
From S2P Require Import Prelude.

Local Open Scope Z_scope.

Class Crypto := {
  sha1 : bytes -> bytes;
  ripemd160 : bytes -> bytes;
  sha256 : bytes -> bytes;
  (** the two keys and the input *)
  siphash24 : Z -> Z -> bytes -> Z;
}.

(** The documented digest sizes. *)
Class CryptoLaws (C : Crypto) := {
  length_sha1 x : length (sha1 x) = 20%nat;
  length_ripemd160 x : length (ripemd160 x) = 20%nat;
  length_sha256 x : length (sha256 x) = 32%nat;
  siphash24_u64 k0 k1 x : uint 64 (siphash24 k0 k1 x);
}.

Section crypto.
Context `{Crypto}.

Definition dhash160 (input : bytes) : bytes := ripemd160 (sha256 input).
Definition dhash256 (input : bytes) : bytes := sha256 (sha256 input).
Definition checksum (data : bytes) : bytes := take 4 (dhash256 data).

(** The streaming digest [DHash256]: its state is the input so far. *)
Record DHash256 := { hasher : bytes }.
Definition DHash256_new : DHash256 := {| hasher := [] |}.
Definition DHash256_input (self : DHash256) (d : bytes) : DHash256 :=
  {| hasher := hasher self ++ d |}.
Definition DHash256_finish (self : DHash256) : bytes := sha256 (sha256 (hasher self)).

End crypto.

Section laws.
Context `{CryptoLaws}.

Lemma length_dhash160 x : length (dhash160 x) = 20%nat.
Proof. apply length_ripemd160. Qed.

Lemma length_dhash256 x : length (dhash256 x) = 32%nat.
Proof. apply length_sha256. Qed.

Lemma length_checksum x : length (checksum x) = 4%nat.
Proof. unfold checksum. rewrite length_take, length_dhash256. done. Qed.

End laws.

#[export] Hint Rewrite @length_sha1 @length_ripemd160 @length_sha256 @length_dhash160
  @length_dhash256 @length_checksum using typeclasses eauto : rust.

(** A concrete instance with the right digest sizes, for evaluating examples: the
    digest is the input cut or padded to its size. *)
Definition pad (n : nat) (x : bytes) : bytes := take n (x ++ replicate n x00).

Module ExampleCrypto.
#[export] Instance example_crypto : Crypto := {|
  sha1 := pad 20; ripemd160 := pad 20; sha256 := pad 32; siphash24 := fun _ _ _ => 0;
|}.
Lemma length_pad n x : length (pad n x) = n.
Proof. unfold pad. rewrite length_take, length_app, length_replicate. lia. Qed.
#[export] Instance example_crypto_laws : CryptoLaws example_crypto.
Proof. split; intros; [apply length_pad..|done]. Qed.
End ExampleCrypto.
