(* ===== verification/Keys.v ===== *)
(** Keys, addresses and signatures (src/keys/src).  Curve arithmetic is the secp256k1
    package and the textual form the base58 package: both are classes, with the
    behaviour the repository relies on as laws. *)
From Stdlib Require Import ZArith Lia Strings.Byte.
From stdpp Require Import base decidable numbers strings list.
From S2P Require Import Prelude Opcode Script Crypto.

Local Open Scope Z_scope.

(** * The secp256k1 and base58 packages *)

Inductive SecpError :=
  InvalidPublicKey | InvalidSecretKey | SecpInvalidMessage | IncorrectSignature | OtherSecpError.

Class Secp256k1 := {
  secp_secret : Type;
  secp_public : Type;
  secp_message : Type;
  secp_signature : Type;
  secp_recoverable : Type;
  secp_recovery_id : Type;
  secret_from_slice : bytes -> SecpError + secp_secret;
  secret_bytes : secp_secret -> bytes;
  public_key_from_slice : bytes -> SecpError + secp_public;
  public_from_secret_key : secp_secret -> SecpError + secp_public;
  (** [serialize_vec(compressed)] *)
  public_serialize : secp_public -> bool -> bytes;
  message_from_slice : bytes -> SecpError + secp_message;
  signature_from_der_lax : bytes -> SecpError + secp_signature;
  signature_normalize_s : secp_signature -> secp_signature;
  signature_serialize_der : secp_signature -> bytes;
  secp_sign : secp_message -> secp_secret -> SecpError + secp_signature;
  secp_verify : secp_message -> secp_signature -> secp_public -> SecpError + unit;
  recovery_id_from_i32 : Z -> SecpError + secp_recovery_id;
  recovery_id_to_i32 : secp_recovery_id -> Z;
  secp_sign_recoverable : secp_message -> secp_secret -> SecpError + secp_recoverable;
  recoverable_serialize_compact : secp_recoverable -> secp_recovery_id * bytes;
  recoverable_from_compact : bytes -> secp_recovery_id -> SecpError + secp_recoverable;
  secp_recover : secp_message -> secp_recoverable -> SecpError + secp_public;
}.

(** What is documented of the package: sizes of serialized keys; serialized keys and
    signatures parse back; a signature made with a secret key verifies under its
    public key, normalised or not. *)
Class Secp256k1Laws (S : Secp256k1) := {
  length_public_serialize p c : length (public_serialize p c) = if c : bool then 33%nat else 65%nat;
  public_from_serialize p c : public_key_from_slice (public_serialize p c) = inr p;
  signature_from_serialize s : signature_from_der_lax (signature_serialize_der s) = inr s;
  verify_sign m k p s :
    public_from_secret_key k = inr p -> secp_sign m k = inr s ->
    secp_verify m (signature_normalize_s s) p = inr tt;
}.

Class Base58 := {
  to_base58 : bytes -> string;
  from_base58 : string -> option bytes;
}.
Class Base58Laws (B : Base58) := from_to_base58 x : from_base58 (to_base58 x) = Some x.

Module Keys.
Import Script.

Inductive Network := Mainnet | Testnet.

(** [From<SecpError> for Error], applied by the [?] operator. *)
Definition keys_error (e : SecpError) : KeysError :=
  match e with
  | InvalidPublicKey => InvalidPublic
  | InvalidSecretKey => InvalidSecret
  | SecpInvalidMessage => InvalidMessage
  | _ => InvalidSignature
  end.
Definition try_secp {A} (r : SecpError + A) : outcome KeysError A :=
  match r with inl e => Err (keys_error e) | inr a => Ok a end.

(** * Addresses *)

Record Address := mkAddress {
  kind : AddressType;
  network : Network;
  address_hash : bytes;
}.

Record Private := mkPrivate {
  private_network : Network;
  secret : bytes;
  compressed : bool;
}.

(** A [Public] is its bytes; 33 of them when compressed. *)
Record KeyPair := mkKeyPair { private : Private; public : bytes }.

(** The first byte of a layout, written and read. *)
Definition address_prefix (net : Network) (k : AddressType) : Z :=
  match net, k with
  | Mainnet, P2PKH => 0
  | Mainnet, P2SH => 5
  | Testnet, P2PKH => 111
  | Testnet, P2SH => 196
  end.
Definition parse_address_prefix (d0 : byte) : outcome KeysError (Network * AddressType) :=
  if u8 d0 =? 0 then Ok (Mainnet, P2PKH)
  else if u8 d0 =? 5 then Ok (Mainnet, P2SH)
  else if u8 d0 =? 111 then Ok (Testnet, P2PKH)
  else if u8 d0 =? 196 then Ok (Testnet, P2SH)
  else Err InvalidAddress.
Definition private_prefix (net : Network) : Z := match net with Mainnet => 128 | Testnet => 239 end.
Definition parse_private_prefix (d0 : byte) : outcome KeysError Network :=
  if u8 d0 =? 128 then Ok Mainnet
  else if u8 d0 =? 239 then Ok Testnet
  else Err InvalidPrivate.

Section layout.
Context `{Crypto}.

Definition address_layout (self : Address) : bytes :=
  let result := byte_of (address_prefix (network self) (kind self)) :: address_hash self in
  result ++ checksum result.

Definition address_from_layout (data : bytes) : outcome KeysError Address :=
  if negb (zlen data =? 25) then Err InvalidAddress else
  let cs := checksum (slice data 0 21) in
  if negb (bool_decide (drop 21 data = cs)) then Err InvalidChecksum else
  d0 ← index data 0;
  '(net, k) ← parse_address_prefix d0;
  Ok (mkAddress k net (slice data 1 21)).

(** * Private keys *)

Definition private_layout (self : Private) : bytes :=
  let result := byte_of (private_prefix (private_network self)) :: secret self in
  let result := if compressed self then result ++ [byte_of 1] else result in
  result ++ checksum result.

Definition private_from_layout (data : bytes) : outcome KeysError Private :=
  compressed ← (if zlen data =? 37 then Ok false
                else if zlen data =? 38 then Ok true else Err InvalidPrivate);
  marked ← (if compressed : bool then b ← index data (length data - 5); Ok (u8 b =? 1) else Ok true);
  if negb marked then Err InvalidPrivate else
  let cs := checksum (slice data 0 (length data - 4)) in
  if negb (bool_decide (drop (length data - 4) data = cs)) then Err InvalidChecksum else
  d0 ← index data 0;
  net ← parse_private_prefix d0;
  Ok (mkPrivate net (slice data 1 33) compressed).

(** * Text *)

Context `{Base58}.

Definition address_to_string (self : Address) : string := to_base58 (address_layout self).
Definition address_from_str (s : string) : outcome KeysError Address :=
  data ← ok_or (from_base58 s) InvalidAddress; address_from_layout data.
Definition private_to_string (self : Private) : string := to_base58 (private_layout self).
Definition private_from_str (s : string) : outcome KeysError Private :=
  data ← ok_or (from_base58 s) InvalidPrivate; private_from_layout data.

End layout.

(** * Signing and verifying *)

Section secp.
Context `{Secp256k1}.

Definition private_sign (self : Private) (message : bytes) : outcome KeysError bytes :=
  secret ← try_secp (secret_from_slice (secret self));
  message ← try_secp (message_from_slice message);
  signature ← try_secp (secp_sign message secret);
  Ok (signature_serialize_der signature).

Definition sign_compact (self : Private) (message : bytes) : outcome KeysError bytes :=
  secret ← try_secp (secret_from_slice (secret self));
  message ← try_secp (message_from_slice message);
  signature ← try_secp (secp_sign_recoverable message secret);
  let '(recovery_id, data) := recoverable_serialize_compact signature in
  let recovery_id := wrap 8 (recovery_id_to_i32 recovery_id) in
  first ← ucheck 8 (27 + recovery_id);
  first ← (if compressed self then ucheck 8 (first + 4) else Ok first);
  data ← checked_slice data 0 64;
  Ok (byte_of first :: data).

Definition public_verify (self message signature : bytes) : outcome KeysError bool :=
  public ← try_secp (public_key_from_slice self);
  signature ← try_secp (signature_from_der_lax signature);
  let signature := signature_normalize_s signature in
  message ← try_secp (message_from_slice message);
  match secp_verify message signature public with
  | inr _ => Ok true
  | inl IncorrectSignature => Ok false
  | inl x => Err (keys_error x)
  end.

(** The first byte carries the recovery id and the compression flag; [signature[0] - 27]
    is checked. *)
Definition recover_compact (message signature : bytes) : outcome KeysError bytes :=
  s0 ← index signature 0;
  n ← ucheck 8 (u8 s0 - 27);
  let recovery_id := Z.land n 3 in
  let compressed := negb (Z.land n 4 =? 0) in
  recovery_id ← try_secp (recovery_id_from_i32 recovery_id);
  data ← checked_slice signature 1 65;
  signature ← try_secp (recoverable_from_compact data recovery_id);
  message ← try_secp (message_from_slice message);
  pubkey ← try_secp (secp_recover message signature);
  let serialized := public_serialize pubkey compressed in
  checked_slice serialized 0 (if compressed then 33 else 65).

Definition keypair_from_private (p : Private) : outcome KeysError KeyPair :=
  s ← try_secp (secret_from_slice (secret p));
  pub_key ← try_secp (public_from_secret_key s);
  let serialized := public_serialize pub_key (compressed p) in
  public ← checked_slice serialized 0 (if compressed p then 33 else 65);
  Ok (mkKeyPair p public).

Definition from_keypair (sec : secp_secret) (pub : secp_public) (net : Network)
    : outcome KeysError KeyPair :=
  let serialized := public_serialize pub false in
  secret ← checked_slice (secret_bytes sec) 0 32;
  public ← checked_slice serialized 0 65;
  Ok (mkKeyPair (mkPrivate net secret false) public).

Definition keypair_address `{Crypto} (self : KeyPair) : Address :=
  mkAddress P2PKH (private_network (private self)) (Script.address_hash dhash160 (public self)).

End secp.

(** * Lemmas *)

Lemma parse_address_prefix_spec b net k :
  parse_address_prefix b = Ok (net, k) <-> b = byte_of (address_prefix net k).
Proof.
  split; [|intros ->; by destruct net, k].
  unfold parse_address_prefix. repeat case_match; intros [= <- <-]; apply (inj u8); bool_prop; done.
Qed.

Lemma parse_private_prefix_spec b net :
  parse_private_prefix b = Ok net <-> b = byte_of (private_prefix net).
Proof.
  split; [|intros ->; by destruct net].
  unfold parse_private_prefix. repeat case_match; intros [= <-]; apply (inj u8); bool_prop; done.
Qed.

Section laws.
Context `{CryptoLaws}.

Lemma address_from_layout_spec data a :
  address_from_layout data = Ok a <-> address_layout a = data /\ length (address_hash a) = 20%nat.
Proof.
  unfold address_from_layout, address_layout. split.
  - destruct (Z.eqb_spec (zlen data) 25) as [Hl|]; [|done]. cbn [negb].
    destruct (bool_decide_reflect (drop 21 data = checksum (slice data 0 21))) as [Hc|]; [|done]. cbn [negb].
    destruct data as [|d0 data]; [done|]. intros Hm. apply bind_Ok in Hm as (b & Hb & Hm).
    injection Hb as ->. apply bind_Ok in Hm as ([net k] & Hk & Hm). injection Hm as <-.
    apply parse_address_prefix_spec in Hk as ->. cbn [kind network address_hash].
    rewrite length_slice by lia. split; [|done]. set (x := byte_of _) in *.
    change (x :: slice (x :: data) 1 21) with (firstn 21 (x :: data)).
    change (slice (x :: data) 0 21) with (firstn 21 (x :: data)) in Hc.
    rewrite <- Hc. apply take_drop.
  - intros [<- Hl]. set (x := byte_of _). set (r := x :: address_hash a).
    assert (length r = 21%nat) as Hr by (subst r; cbn; by rewrite Hl).
    rewrite length_app, Hr, length_checksum. change (negb (Z.of_nat (21 + 4) =? 25)) with false. cbn iota.
    rewrite drop_app_length' by done. change (slice (r ++ checksum r) 0 21) with (firstn 21 (r ++ checksum r)).
    rewrite take_app_length', bool_decide_eq_true_2 by done. cbn [negb].
    change (index (r ++ checksum r) 0) with (@Ok KeysError byte x). cbn [mbind outcome_bind].
    rewrite (proj2 (parse_address_prefix_spec x (network a) (kind a))) by done. cbn [mbind outcome_bind].
    assert (slice (r ++ checksum r) 1 21 = address_hash a) as ->; [|by destruct a].
    change (slice (r ++ checksum r) 1 21) with (firstn 20 (address_hash a ++ checksum r)).
    by apply take_app_length'.
Qed.

(** The body of a private-key layout: network byte, secret and compression marker. *)
Lemma private_from_layout_sound data p :
  private_from_layout data = Ok p -> private_layout p = data /\ length (secret p) = 32%nat.
Proof.
  unfold private_from_layout, private_layout. intros Hm. apply bind_Ok in Hm as (c & Hc & Hm). apply bind_Ok in Hm as (mk & Hmk & Hm).
  destruct mk; cbn [negb] in Hm; [|done].
  destruct (bool_decide_reflect (drop (length data - 4) data = checksum (slice data 0 (length data - 4)))) as [Hs|]; [|done].
  cbn [negb] in Hm. destruct data as [|d0 data]; [done|]. apply bind_Ok in Hm as (b & Hb & Hm).
  injection Hb as ->. apply bind_Ok in Hm as (net & Hk & Hm). injection Hm as <-.
  apply parse_private_prefix_spec in Hk as ->. cbn [private_network secret compressed].
  set (x := byte_of _) in *. change (slice (x :: data) 1 33) with (firstn 32 data).
  destruct (Z.eqb_spec (zlen (x :: data)) 37) as [Hl|]; [|destruct (Z.eqb_spec (zlen (x :: data)) 38) as [Hl|]; [|done]];
    injection Hc as <-; cbn [length] in *; (split; [|rewrite length_take; lia]).
  - assert (length data = 36%nat) as En by lia. rewrite En in Hs. cbn [Nat.sub] in Hs. change (slice (x :: data) 0 33) with (x :: firstn 32 data) in Hs.
    rewrite <- Hs. cbn [drop app]. f_equal. apply take_drop.
  - assert (length data = 37%nat) as En by lia. rewrite En in Hs, Hmk. cbn [Nat.sub] in Hs, Hmk. unfold index in Hmk.
    change ((x :: data) !! 33%nat) with (data !! 32%nat) in Hmk.
    destruct (data !! 32%nat) as [y|] eqn:Ey; [|done]. cbn in Hmk. injection Hmk as Hy.
    assert (y = byte_of 1) as -> by (apply (inj u8); apply Z.eqb_eq in Hy; by rewrite Hy).
    change (slice (x :: data) 0 34) with (x :: firstn 33 data) in Hs.
    rewrite (take_S_r data 32 _ Ey) in Hs. cbn [app]. rewrite <- Hs. cbn [drop].
    rewrite <- (take_S_r data 32 _ Ey). f_equal. apply take_drop.
Qed.

Lemma private_from_layout_complete p :
  length (secret p) = 32%nat -> private_from_layout (private_layout p) = Ok p.
Proof.
  unfold private_from_layout, private_layout. intros Hl. set (x := byte_of _).
  set (r := if compressed p then (x :: secret p) ++ [byte_of 1] else x :: secret p).
  assert (length r = if compressed p then 34 else 33)%nat as Hr.
  { subst r. destruct (compressed p); [rewrite length_app|]; cbn; rewrite Hl; done. }
  assert (length (r ++ checksum r) = length r + 4)%nat as Hrl by by rewrite length_app, length_checksum.
  assert (exists t, r = x :: secret p ++ t) as [t Ht].
  { subst r. destruct (compressed p); [by exists [byte_of 1]|exists []; by rewrite app_nil_r]. }
  rewrite Hrl, Nat.add_sub. rewrite drop_app_length.
  assert (slice (r ++ checksum r) 0 (length r) = r) as ->.
  { unfold slice. rewrite drop_0, Nat.sub_0_r. apply take_app_length. }
  rewrite (bool_decide_eq_true_2 _ eq_refl). cbn [negb].
  assert (@index KeysError _ (r ++ checksum r) 0 = Ok x) as -> by by rewrite Ht.
  assert (slice (r ++ checksum r) 1 33 = secret p) as ->.
  { rewrite Ht. unfold slice. cbn. rewrite <- app_assoc. by apply take_app_length'. }
  assert ((if zlen (r ++ checksum r) =? 37 then Ok false
           else if zlen (r ++ checksum r) =? 38 then Ok true else Err InvalidPrivate) =
          @Ok KeysError _ (compressed p)) as Hlen by by rewrite Hrl, Hr; destruct (compressed p).
  rewrite Hrl in Hlen. rewrite Hlen. cbn [mbind outcome_bind].
  assert ((if compressed p then b ← index (r ++ checksum r) (length r + 4 - 5); Ok (u8 b =? 1) else Ok true) =
          @Ok KeysError _ true) as ->.
  { destruct (compressed p) eqn:Ec; [|done]. rewrite Hr. subst r. cbn [Nat.sub Nat.add].
    rewrite <- app_assoc. change ([byte_of 1] ++ ?l) with (byte_of 1 :: l).
    rewrite (index_middle (x :: secret p)); [done|cbn; by rewrite Hl]. }
  cbn [mbind outcome_bind negb].
  rewrite (proj2 (parse_private_prefix_spec x (private_network p))) by done. by destruct p.
Qed.

End laws.

Lemma keypair_public `{Secp256k1Laws} p kp :
  keypair_from_private p = Ok kp ->
  exists k pk, secret_from_slice (secret p) = inr k /\ public_from_secret_key k = inr pk /\
    private kp = p /\ public kp = public_serialize pk (compressed p).
Proof.
  unfold keypair_from_private. destruct (secret_from_slice (secret p)) as [|k]; [done|]. cbn.
  destruct (public_from_secret_key k) as [|pk] eqn:Epk; [done|]. cbn.
  pose proof (length_public_serialize pk (compressed p)) as Hl.
  rewrite checked_slice_Ok by (rewrite Hl; destruct (compressed p); lia). cbn. intros [= <-].
  exists k, pk. split_and!; [done..|]. cbn. apply slice_all. rewrite Hl. by destruct (compressed p).
Qed.

Lemma sign_verifies `{Secp256k1Laws} p kp m s :
  keypair_from_private p = Ok kp -> private_sign p m = Ok s -> public_verify (public kp) m s = Ok true.
Proof.
  intros (k & pk & Hk & Hpk & _ & ->)%keypair_public. unfold private_sign, public_verify. rewrite Hk. cbn.
  destruct (message_from_slice m) as [|msg]; [done|]. cbn.
  destruct (secp_sign msg k) as [|sg] eqn:Es; [done|]. cbn. intros [= <-].
  rewrite public_from_serialize. cbn. rewrite signature_from_serialize. cbn.
  by rewrite (verify_sign msg k pk sg).
Qed.

(** * Properties *)

(** The layouts of addresses and private keys (network byte, payload,
    checksum) are read back to exactly the value they were written from, every
    other byte string is refused, and so the textual form round-trips. *)
Theorem layouts_roundtrip `{CryptoLaws} `{Base58Laws} :
  (forall data a, address_from_layout data = Ok a <->
     address_layout a = data /\ length (address_hash a) = 20%nat) /\
  (forall data p, private_from_layout data = Ok p <->
     private_layout p = data /\ length (secret p) = 32%nat) /\
  (forall a, length (address_hash a) = 20%nat -> address_from_str (address_to_string a) = Ok a) /\
  (forall p, length (secret p) = 32%nat -> private_from_str (private_to_string p) = Ok p).
Proof.
  split_and!.
  - apply address_from_layout_spec.
  - intros data p. split; [apply private_from_layout_sound|].
    intros [<- Hl]. by apply private_from_layout_complete.
  - intros a Ha. unfold address_from_str, address_to_string. rewrite from_to_base58. cbn.
    by apply address_from_layout_spec.
  - intros p Hp. unfold private_from_str, private_to_string. rewrite from_to_base58. cbn.
    by apply private_from_layout_complete.
Qed.

(** A signature made with a private key verifies under the public key of its
    key pair, compressed or not. *)
Theorem sign_verify `{Secp256k1Laws} p kp m s :
  keypair_from_private p = Ok kp -> private_sign p m = Ok s -> public_verify (public kp) m s = Ok true.
Proof. apply sign_verifies. Qed.

(** A toy instance of the packages that satisfies their laws: a key pair is one
    byte, every message is signed by that byte. *)
Module ExampleKeys.

#[export] Instance example_secp : Secp256k1 := {|
  secp_secret := byte; secp_public := byte; secp_message := unit; secp_signature := byte;
  secp_recoverable := byte; secp_recovery_id := unit;
  secret_from_slice := fun b => match b with x :: _ => inr x | [] => inl InvalidSecretKey end;
  secret_bytes := fun k => replicate 32 k;
  public_key_from_slice := fun b => match b with x :: _ => inr x | [] => inl InvalidPublicKey end;
  public_from_secret_key := fun k => inr k;
  public_serialize := fun p c => replicate (if c then 33 else 65) p;
  message_from_slice := fun _ => inr tt;
  signature_from_der_lax := fun b => match b with x :: _ => inr x | [] => inl IncorrectSignature end;
  signature_normalize_s := fun s => s;
  signature_serialize_der := fun s => replicate 30 s;
  secp_sign := fun _ k => inr k;
  secp_verify := fun _ s p => if bool_decide (s = p) then inr tt else inl IncorrectSignature;
  recovery_id_from_i32 := fun _ => inr tt;
  recovery_id_to_i32 := fun _ => 0;
  secp_sign_recoverable := fun _ k => inr k;
  recoverable_serialize_compact := fun s => (tt, replicate 64 s);
  recoverable_from_compact := fun b _ => match b with x :: _ => inr x | [] => inl IncorrectSignature end;
  secp_recover := fun _ s => inr s;
|}.

#[export] Instance example_secp_laws : Secp256k1Laws example_secp.
Proof.
  split; cbn.
  - intros p c. by rewrite length_replicate.
  - by intros p [].
  - done.
  - intros m k p s [= <-] [= <-]. by rewrite bool_decide_eq_true_2.
Qed.

Definition key : Private := mkPrivate Mainnet (replicate 32 x07) true.

Lemma sign_verify_witness : public_verify (replicate 33 x07) [x01] (replicate 30 x07) = Ok true.
Proof. apply (sign_verify key (mkKeyPair key (replicate 33 x07)) [x01] (replicate 30 x07)); by vm_compute. Defined.

(** Bytes as text, for the textual round trip. *)
#[export] Instance example_base58 : Base58 := {|
  to_base58 := fun b => String.string_of_list_byte b;
  from_base58 := fun s => Some (String.list_byte_of_string s);
|}.
#[export] Instance example_base58_laws : Base58Laws example_base58.
Proof. intros x. unfold from_base58, to_base58. cbn -[String.list_byte_of_string String.string_of_list_byte].
  f_equal. apply String.list_byte_of_string_of_list_byte. Qed.

Import ExampleCrypto.
Lemma layouts_roundtrip_witness :
  private_from_str (private_to_string key) = Ok key.
Proof. by apply layouts_roundtrip. Defined.

End ExampleKeys.

End Keys.
