(* ===== verification/Sighash.v ===== *)
(** Signature versions and signature hash types (src/script/src/sign.rs, the first
    part): the decoding of the hash-type byte that follows a signature. *)
From Stdlib Require Import ZArith Lia Strings.Byte.
From stdpp Require Import base decidable numbers list.
From S2P Require Import Prelude.

Local Open Scope Z_scope.

Inductive SignatureVersion := Base | WitnessV0 | ForkId.
#[global] Instance SignatureVersion_eq_dec : EqDecision SignatureVersion.
Proof. solve_decision. Defined.

Module Sighash.

Inductive SighashBase := All | None | Single.
#[global] Instance SighashBase_eq_dec : EqDecision SighashBase.
Proof. solve_decision. Defined.

Definition base_to_u32 (s : SighashBase) : Z :=
  match s with All => 1 | None => 2 | Single => 3 end.

Record Sighash := { base : SighashBase; anyone_can_pay : bool; fork_id : bool }.

Definition to_u32 (s : Sighash) : Z :=
  let b := base_to_u32 (base s) in
  let b := if anyone_can_pay s then Z.lor b 128 else b in
  if fork_id s then Z.lor b 64 else b.

Definition is_defined (version : SignatureVersion) (u : Z) : bool :=
  let u := match version with
           | ForkId => Z.land u (Z.lnot (Z.lor 64 128))
           | _ => Z.land u (Z.lnot 128)
           end in
  (u =? 1) || (u =? 2) || (u =? 3).

Definition from_u32 (version : SignatureVersion) (u : Z) : Sighash :=
  {| base := match Z.land u 31 with 2 => None | 3 => Single | _ => All end;
     anyone_can_pay := Z.land u 128 =? 128;
     fork_id := bool_decide (version = ForkId) && (Z.land u 64 =? 64) |}.

(** A hash type survives encoding and decoding, and its encoding passes the
    strict check, when the fork id bit is used only with the fork-id signature
    version. *)
Theorem from_u32_to_u32 version s :
  (fork_id s = true -> version = ForkId) ->
  from_u32 version (to_u32 s) = s /\ is_defined version (to_u32 s) = true.
Proof.
  destruct s as [b a f]. cbn. intros H.
  destruct f; [rewrite (H eq_refl)|destruct version]; destruct b, a; by vm_compute.
Qed.

Lemma from_u32_to_u32_witness :
  from_u32 ForkId (to_u32 {| base := Single; anyone_can_pay := true; fork_id := true |}) =
  {| base := Single; anyone_can_pay := true; fork_id := true |}.
Proof. by apply from_u32_to_u32. Defined.

End Sighash.
