(* ===== verification/SigEncoding.v ===== *)
(** Signature and public-key encodings, minimal pushes and booleans: the helper
    functions at the top of src/script/src/interpreter.rs, and the signature
    checker interface of src/script/src/verify.rs they call. *)
From Stdlib Require Import ZArith Lia Strings.Byte.
From stdpp Require Import base decidable numbers list.
From S2P Require Import Prelude Opcode Num Script Sighash.

Local Open Scope Z_scope.

(** * The checker interface *)

(** The trait [SignatureChecker].  A [Signature], [Public], [Message] or [Script] is
    its bytes.  An implementation may panic. *)
Class SignatureChecker := {
  verify_signature : bytes -> bytes -> bytes -> outcome Error.Error bool;
  check_signature : bytes -> bytes -> bytes -> Z -> SignatureVersion -> outcome Error.Error bool;
  check_lock_time : Z -> outcome Error.Error bool;
  check_sequence : Z -> outcome Error.Error bool;
}.

(** What the interpreter relies on: the methods return a [bool]. *)
Class CheckerReturns (C : SignatureChecker) := {
  verify_signature_returns s p m : exists b, verify_signature s p m = Ok b;
  check_signature_returns s p c t v : exists b, check_signature s p c t v = Ok b;
  check_lock_time_returns n : exists b, check_lock_time n = Ok b;
  check_sequence_returns n : exists b, check_sequence n = Ok b;
}.

(** [NoopSignatureChecker]: only data signatures can be valid.  [public_verify public
    hash signature] stands for [Public::verify(..).unwrap_or(false)] of the keys
    crate, which calls the secp256k1 library. *)
Definition NoopSignatureChecker (public_verify : bytes -> bytes -> bytes -> bool)
    : SignatureChecker := {|
  verify_signature signature public hash := Ok (public_verify public hash signature);
  check_signature _ _ _ _ _ := Ok false;
  check_lock_time _ := Ok false;
  check_sequence _ := Ok false;
|}.

#[global] Instance NoopSignatureChecker_returns public_verify :
  CheckerReturns (NoopSignatureChecker public_verify).
Proof. split; intros; by eexists. Qed.

Module SigEncoding.

Section helpers.
Context `{SignatureChecker}.

(** The helper [check_signature] of the interpreter: the last byte of the script
    signature is the hash type. *)
Definition check_script_signature (script_sig public script_code : bytes)
    (version : SignatureVersion) : outcome Error.Error bool :=
  match Script.public_from_slice public with
  | Ok public =>
      match last script_sig with
      | Some hash_type =>
          check_signature (removelast script_sig) public script_code (u8 hash_type) version
      | None => Ok false
      end
  | _ => Ok false
  end.

(** The helper [verify_signature]. *)
Definition verify_data_signature (signature public message : bytes) : outcome Error.Error bool :=
  match Script.public_from_slice public with
  | Ok public =>
      match signature with
      | [] => Ok false
      | _ => verify_signature signature public message
      end
  | _ => Ok false
  end.

End helpers.

Definition is_public_key (v : bytes) : bool :=
  match v with
  | x :: _ =>
      if zlen v =? 33 then (u8 x =? 2) || (u8 x =? 3)
      else if zlen v =? 65 then u8 x =? 4
      else false
  | [] => false
  end.

(** Every index into the signature is checked, so that an index out of range shows
    as a panic. *)
Definition is_valid_signature_encoding {E} (sig : bytes) : outcome E bool :=
  if (zlen sig <? 9) || (73 <? zlen sig) then Ok false else
  s0 ← index sig 0;
  if negb (u8 s0 =? 48) then Ok false else
  s1 ← index sig 1;
  if negb (u8 s1 =? zlen sig - 3) then Ok false else
  s3 ← index sig 3;
  let len_r := u8 s3 in
  if zlen sig <=? len_r + 5 then Ok false else
  b ← index sig (Z.to_nat (len_r + 5));
  let len_s := u8 b in
  if negb (len_r + len_s + 7 =? zlen sig) then Ok false else
  s2 ← index sig 2;
  if negb (u8 s2 =? 2) then Ok false else
  if len_r =? 0 then Ok false else
  s4 ← index sig 4;
  if negb (Z.land (u8 s4) 128 =? 0) then Ok false else
  r_padded ← (if (1 <? len_r) && (u8 s4 =? 0) then
                s5 ← index sig 5; Ok (Z.land (u8 s5) 128 =? 0)
              else Ok false);
  if r_padded : bool then Ok false else
  b4 ← index sig (Z.to_nat (len_r + 4));
  if negb (u8 b4 =? 2) then Ok false else
  if len_s =? 0 then Ok false else
  b6 ← index sig (Z.to_nat (len_r + 6));
  if negb (Z.land (u8 b6) 128 =? 0) then Ok false else
  s_padded ← (if (1 <? len_s) && (u8 b6 =? 0) then
                b7 ← index sig (Z.to_nat (len_r + 7)); Ok (Z.land (u8 b7) 128 =? 0)
              else Ok false);
  if s_padded : bool then Ok false else Ok true.

(** [Signature::check_low_s] of src/keys/src/signature.rs is [unimplemented!()]. *)
Definition check_low_s {E} (sig : bytes) : outcome E bool := Panic.

Definition is_low_der_signature (sig : bytes) : outcome Error.Error unit :=
  valid ← is_valid_signature_encoding sig;
  if negb valid then Err Error.SignatureDer else
  low ← check_low_s sig;
  if negb low then Err Error.SignatureHighS else Ok tt.

Definition is_defined_hashtype_signature (version : SignatureVersion) (sig : bytes) : bool :=
  match last sig with
  | None => false
  | Some b => Sighash.is_defined version (u8 b)
  end.

Definition parse_hash_type (version : SignatureVersion) (sig : bytes) : Sighash.Sighash :=
  Sighash.from_u32 version (match last sig with None => 0 | Some b => u8 b end).

Definition check_signature_encoding (sig : bytes) (flags : VerificationFlags)
    (version : SignatureVersion) : outcome Error.Error unit :=
  match sig with
  | [] => Ok tt
  | _ =>
      bad_der ← (if verify_dersig flags || verify_low_s flags || verify_strictenc flags
                 then valid ← is_valid_signature_encoding sig; Ok (negb valid)
                 else Ok false);
      if bad_der : bool then Err Error.SignatureDer else
      _ ← (if verify_low_s flags then is_low_der_signature sig else Ok tt);
      if verify_strictenc flags && negb (is_defined_hashtype_signature version sig)
      then Err Error.SignatureHashtype else
      if verify_strictenc flags then
        let uses_fork_id := Sighash.fork_id (parse_hash_type version sig) in
        let enabled_fork_id := bool_decide (version = ForkId) in
        if uses_fork_id && negb enabled_fork_id then Err Error.SignatureIllegalForkId
        else if negb uses_fork_id && enabled_fork_id then Err Error.SignatureMustUseForkId
        else Ok tt
      else Ok tt
  end.

Definition check_pubkey_encoding (v : bytes) (flags : VerificationFlags)
    : outcome Error.Error unit :=
  if verify_strictenc flags && negb (is_public_key v) then Err Error.PubkeyType else Ok tt.

Definition check_minimal_push (data : bytes) (o : Opcode) : bool :=
  match data with
  | [] => opcode_eqb o OP_0
  | x :: _ =>
      if (zlen data =? 1) && (1 <=? u8 x) && (u8 x <=? 16) then
        opcode_u8 o =? opcode_u8 OP_1 + (u8 x - 1)
      else if (zlen data =? 1) && (u8 x =? 129) then opcode_eqb o OP_1NEGATE
      else if zlen data <=? 75 then opcode_u8 o =? zlen data
      else if zlen data <=? 255 then opcode_eqb o OP_PUSHDATA1
      else if zlen data <=? 65535 then opcode_eqb o OP_PUSHDATA2
      else true
  end.

Definition cast_to_bool (data : bytes) : bool :=
  match last data with
  | None => false
  | Some lst =>
      if existsb (fun x => negb (u8 x =? 0)) (removelast data) then true
      else negb ((u8 lst =? 0) || (u8 lst =? 128))
  end.

(** * Lemmas and specification *)

(** A positive big-endian DER integer: non-empty, top bit clear, no needless
    leading zero. *)
Definition der_integer (i : bytes) : bool :=
  match i with
  | [] => false
  | [x] => u8 x <? 128
  | x :: y :: _ => (u8 x <? 128) && (negb (u8 x =? 0) || (128 <=? u8 y))
  end.

(** [30 len 02 len(R) R 02 len(S) S hashtype]. *)
Definition der_signature (r s : bytes) (hashtype : byte) : bytes :=
  [x30; byte_of (zlen r + zlen s + 4); x02; byte_of (zlen r)] ++ r ++
  [x02; byte_of (zlen s)] ++ s ++ [hashtype].

(** The parts of a signature whose length bytes fit. *)
Definition parts (s0 s1 s2 : byte) (r : bytes) (b4 : byte) (s : bytes) (hashtype : byte) : bytes :=
  s0 :: s1 :: s2 :: byte_of (zlen r) :: r ++ b4 :: byte_of (zlen s) :: s ++ [hashtype].

(** The rest of the checks, from the first byte of an integer. *)
Lemma der_integer_check {E} (i rest : bytes) (k : outcome E bool) :
  i <> [] -> rest <> [] ->
  (x ← index (i ++ rest) 0;
   if negb (Z.land (u8 x) 128 =? 0) then Ok false else
   padded ← (if (1 <? zlen i) && (u8 x =? 0) then
               y ← index (i ++ rest) 1; Ok (Z.land (u8 y) 128 =? 0) else Ok false);
   if padded : bool then Ok false else k) =
  if der_integer i then k else Ok false.
Proof.
  intros Hi Hr. destruct i as [|x [|y i]]; [done|..]; cbn [app index lookup list_lookup expect mbind outcome_bind];
    rewrite Num.land_128_clear.
  - cbn. by destruct (u8 x <? 128).
  - rewrite (proj2 (Z.ltb_lt 1 _)) by (cbn; lia). cbn [der_integer].
    destruct (u8 x <? 128); [|done]. destruct (u8 x =? 0); cbn; [|done].
    rewrite Num.land_128_clear, Z.leb_antisym. by destruct (u8 y <? 128).
Qed.

Lemma index_parts {E} s0 s1 s2 r b4 s ht (j : nat) :
  @index E _ (parts s0 s1 s2 r b4 s ht) (Z.to_nat (zlen r + 4 + Z.of_nat j)) =
  index (b4 :: byte_of (zlen s) :: s ++ [ht]) j.
Proof.
  unfold parts, index.
  replace (Z.to_nat (zlen r + 4 + Z.of_nat j)) with (4 + (length r + j))%nat by lia.
  change (expect ((r ++ b4 :: byte_of (zlen s) :: s ++ [ht]) !! (length r + j)%nat) =
    @expect E _ ((b4 :: byte_of (zlen s) :: s ++ [ht]) !! j)).
  rewrite lookup_app_r by lia. do 2 f_equal. lia.
Qed.

Lemma index_parts_at {E} s0 s1 s2 r b4 s ht k (j : nat) :
  k = 4 + Z.of_nat j ->
  @index E _ (parts s0 s1 s2 r b4 s ht) (Z.to_nat (zlen r + k)) =
  index (b4 :: byte_of (zlen s) :: s ++ [ht]) j.
Proof. intros ->. rewrite <- (index_parts s0 s1 s2 r b4 s ht). f_equal. lia. Qed.

Lemma length_parts s0 s1 s2 r b4 s ht :
  zlen (parts s0 s1 s2 r b4 s ht) = zlen r + zlen s + 7.
Proof. unfold parts. cbn [length]. rewrite length_app. cbn [length]. rewrite length_app. cbn. lia. Qed.

(** What the validator computes on a signature cut along its length bytes. *)
Lemma is_valid_parts {E} s0 s1 s2 r b4 s ht :
  zlen r < 256 -> zlen s < 256 ->
  @is_valid_signature_encoding E (parts s0 s1 s2 r b4 s ht) =
  Ok ((zlen r + zlen s + 7 <=? 73) && (u8 s0 =? 48) && (u8 s1 =? zlen r + zlen s + 4) &&
      (u8 s2 =? 2) && (u8 b4 =? 2) && der_integer r && der_integer s).
Proof.
  intros Hr Hs. unfold is_valid_signature_encoding. rewrite length_parts.
  destruct (zlen r + zlen s + 7 <? 9) eqn:E9.
  { cbn [orb]. f_equal. symmetry. apply not_true_iff_false. intros Hv. bool_prop.
    destruct r, s; try done. cbn in E9. lia. }
  cbn [orb]. rewrite Z.leb_antisym. destruct (73 <? zlen r + zlen s + 7); [done|]. cbn [negb andb].
  change (index (parts s0 s1 s2 r b4 s ht) 0) with (@Ok E _ s0).
  change (index (parts s0 s1 s2 r b4 s ht) 1) with (@Ok E _ s1).
  change (index (parts s0 s1 s2 r b4 s ht) 2) with (@Ok E _ s2).
  change (index (parts s0 s1 s2 r b4 s ht) 3) with (@Ok E _ (byte_of (zlen r))).
  cbn [mbind outcome_bind].
  destruct (u8 s0 =? 48); [|done]. cbn [negb andb].
  replace (zlen r + zlen s + 7 - 3) with (zlen r + zlen s + 4) by lia.
  destruct (u8 s1 =? zlen r + zlen s + 4); [|done]. cbn [negb andb].
  rewrite (u8_byte_of_small (zlen r)) by lia. rewrite (proj2 (Z.leb_gt _ _)) by lia.
  rewrite (index_parts_at s0 s1 s2 r b4 s ht 5 1), (index_parts_at s0 s1 s2 r b4 s ht 4 0),
    (index_parts_at s0 s1 s2 r b4 s ht 6 2), (index_parts_at s0 s1 s2 r b4 s ht 7 3) by done.
  change (index (b4 :: byte_of (zlen s) :: s ++ [ht]) 0) with (@Ok E _ b4).
  change (index (b4 :: byte_of (zlen s) :: s ++ [ht]) 1) with (@Ok E _ (byte_of (zlen s))).
  cbn [mbind outcome_bind].
  rewrite (u8_byte_of_small (zlen s)), Z.eqb_refl by lia. cbn [negb].
  destruct (u8 s2 =? 2); [|done]. cbn [negb andb].
  destruct r as [|r0 r]; [by rewrite andb_false_r|].
  rewrite (proj2 (Z.eqb_neq _ _)) by (cbn; lia).
  set (tail := b4 :: byte_of (zlen s) :: s ++ [ht]).
  change (index (parts s0 s1 s2 (r0 :: r) b4 s ht) 4) with (@index E _ ((r0 :: r) ++ tail) 0).
  change (index (parts s0 s1 s2 (r0 :: r) b4 s ht) 5) with (@index E _ ((r0 :: r) ++ tail) 1).
  rewrite (der_integer_check (r0 :: r) tail) by done. subst tail.
  destruct (u8 b4 =? 2); cbn [negb andb]; [|by destruct (der_integer _)].
  destruct s as [|x s]; [by rewrite andb_false_r; destruct (der_integer _)|].
  rewrite (proj2 (Z.eqb_neq _ _)) by (cbn; lia).
  change (index (b4 :: byte_of (zlen (x :: s)) :: (x :: s) ++ [ht]) 2) with (@index E _ ((x :: s) ++ [ht]) 0).
  change (index (b4 :: byte_of (zlen (x :: s)) :: (x :: s) ++ [ht]) 3) with (@index E _ ((x :: s) ++ [ht]) 1).
  rewrite (der_integer_check (x :: s) [ht]) by done.
  by destruct (der_integer (r0 :: r)), (der_integer (x :: s)).
Qed.

(** A signature that passes the length checks is cut along its length bytes. *)
Lemma split_parts s0 s1 s2 s3 (t : bytes) b :
  t !! Z.to_nat (u8 s3 + 1) = Some b -> zlen t = u8 s3 + u8 b + 3 ->
  exists r b4 s ht, s0 :: s1 :: s2 :: s3 :: t = parts s0 s1 s2 r b4 s ht /\
    zlen r < 256 /\ zlen s < 256.
Proof.
  intros Hb Hl. pose proof (u8_bound s3). pose proof (u8_bound b).
  set (n := Z.to_nat (u8 s3)). assert (Hn : Z.to_nat (u8 s3 + 1) = S n) by lia. rewrite Hn in Hb.
  destruct (lookup_lt_is_Some_2 t n) as [b4 Hb4]; [lia|].
  assert (Hne : drop (S (S n)) t <> []).
  { intros Hnil. apply (f_equal length) in Hnil. rewrite length_drop in Hnil. simpl in Hnil. lia. }
  destruct (exists_last Hne) as (s & ht & Hs).
  assert (Hls : zlen s = u8 b).
  { apply (f_equal length) in Hs. rewrite length_drop, length_app in Hs. simpl in Hs. lia. }
  assert (Hlr : zlen (take n t) = u8 s3) by (rewrite length_take; lia).
  exists (take n t), b4, s, ht. split_and!; [|lia..]. unfold parts.
  rewrite Hlr, Hls, !byte_of_u8. do 4 f_equal.
  rewrite <- (take_drop n t) at 1. f_equal. rewrite (drop_S _ _ _ Hb4), (drop_S _ _ _ Hb). by rewrite Hs.
Qed.

Lemma is_valid_split {E} sig :
  @is_valid_signature_encoding E sig = Ok false \/
  exists s0 s1 s2 r b4 s ht, sig = parts s0 s1 s2 r b4 s ht /\ zlen r < 256 /\ zlen s < 256.
Proof.
  unfold is_valid_signature_encoding. destruct (_ || _) eqn:El; [by left|].
  apply orb_false_iff in El as [El _]. bool_prop.
  destruct sig as [|s0 [|s1 [|s2 [|s3 t]]]]; try (cbn in El; lia).
  cbn [index lookup list_lookup expect mbind outcome_bind].
  destruct (negb (u8 s0 =? 48)); [by left|]. destruct (negb (u8 s1 =? _)); [by left|].
  pose proof (u8_bound s3). destruct (_ <=? u8 s3 + 5) eqn:E5; [by left|]. bool_prop.
  assert (zlen (s0 :: s1 :: s2 :: s3 :: t) = zlen t + 4) as Hlen by (cbn [length]; lia).
  rewrite Hlen in *.
  destruct (lookup_lt_is_Some_2 t (Z.to_nat (u8 s3 + 1))) as [b Hb]; [lia|].
  replace (Z.to_nat (u8 s3 + 5)) with (4 + Z.to_nat (u8 s3 + 1))%nat by lia.
  change (index (s0 :: s1 :: s2 :: s3 :: t) (4 + Z.to_nat (u8 s3 + 1)))
    with (@index E _ t (Z.to_nat (u8 s3 + 1))).
  assert (@index E _ t (Z.to_nat (u8 s3 + 1)) = Ok b) as -> by (unfold index; by rewrite Hb).
  cbn [mbind outcome_bind].
  destruct (negb (u8 s3 + u8 b + 7 =? _)) eqn:E7; [by left|]. bool_prop.
  right. destruct (split_parts s0 s1 s2 s3 t b Hb) as (r & b4 & s & ht & -> & ?); [lia|]. eauto 10.
Qed.

Lemma is_valid_total {E} sig : exists b, @is_valid_signature_encoding E sig = Ok b.
Proof.
  destruct (@is_valid_split E sig) as [->|(s0 & s1 & s2 & r & b4 & s & ht & -> & Hr & Hs)]; [by eexists|].
  rewrite is_valid_parts by done. by eexists.
Qed.

(** With the unimplemented low-S check off, checking an encoding returns. *)
Lemma check_signature_encoding_returns sig flags version :
  verify_low_s flags = false -> returns (check_signature_encoding sig flags version).
Proof.
  intros Hl. unfold check_signature_encoding. destruct sig as [|x sig]; [done|].
  rewrite Hl. destruct (@is_valid_total Error.Error (x :: sig)) as [b ->].
  destruct (verify_dersig flags || false || verify_strictenc flags);
    [destruct b|]; cbn; try done; repeat (step_case; try done).
Qed.

Lemma check_pubkey_encoding_returns v flags : returns (check_pubkey_encoding v flags).
Proof. unfold check_pubkey_encoding. by destruct (_ && _). Qed.

Section returns.
Context `{CheckerReturns}.

Lemma check_script_signature_returns sig public code version :
  exists b, check_script_signature sig public code version = Ok b.
Proof.
  unfold check_script_signature, Script.public_from_slice. destruct (_ || _); [|by eexists].
  destruct (last sig); [apply check_signature_returns|by eexists].
Qed.

Lemma verify_data_signature_returns sig public message :
  exists b, verify_data_signature sig public message = Ok b.
Proof.
  unfold verify_data_signature, Script.public_from_slice. destruct (_ || _); [|by eexists].
  destruct sig; [by eexists|apply verify_signature_returns].
Qed.

End returns.

(** * Properties *)

(** The signature validator never reads out of range, and accepts exactly the
    strict DER encodings of two positive integers with minimal length, followed
    by a hash-type byte, of at most 73 bytes in all. *)
Theorem is_valid_signature_encoding_spec {E} sig :
  exists b, @is_valid_signature_encoding E sig = Ok b /\
    (b = true <-> exists r s hashtype,
       sig = der_signature r s hashtype /\ der_integer r = true /\ der_integer s = true /\
       zlen r + zlen s <= 66).
Proof.
  assert (forall r s ht, zlen r + zlen s <= 66 -> der_integer r = true -> der_integer s = true ->
    @is_valid_signature_encoding E (der_signature r s ht) = Ok true) as Hder.
  { intros r s ht Hl Hr Hs. change (der_signature r s ht) with
      (parts x30 (byte_of (zlen r + zlen s + 4)) x02 r x02 s ht).
    rewrite is_valid_parts by lia. rewrite u8_byte_of_small, (Z.eqb_refl (zlen r + zlen s + 4)), Hr, Hs by lia.
    by rewrite (proj2 (Z.leb_le _ _)) by lia. }
  destruct (@is_valid_split E sig) as [Hf|(s0 & s1 & s2 & r & b4 & s & ht & -> & Hr & Hs)].
  - exists false. split; [done|]. split; [done|]. intros (r & s & ht & -> & Hr & Hs & Hl).
    rewrite Hder in Hf by done. by injection Hf.
  - eexists. split; [by apply is_valid_parts|]. split.
    + intros Hv. bool_prop. exists r, s, ht. split_and!; try done; [|lia].
      unfold parts, der_signature. cbn [app]. 
      replace s0 with x30 by (apply (inj u8); cbn; lia).
      replace s2 with x02 by (apply (inj u8); cbn; lia).
      replace b4 with x02 by (apply (inj u8); cbn; lia).
      do 2 f_equal. apply (inj u8). rewrite u8_byte_of_small; lia.
    + intros (r' & s' & ht' & Heq & Hr' & Hs' & Hl).
      pose proof (Hder r' s' ht' Hl Hr' Hs') as Hok. rewrite <- Heq, is_valid_parts in Hok by done.
      by injection Hok.
Qed.

Lemma le_value_0 l : le_value l = 0 <-> existsb (fun x => negb (u8 x =? 0)) l = false.
Proof.
  induction l as [|x l IH]; [done|]. cbn [le_value existsb]. pose proof (u8_bound x).
  pose proof (le_value_bound l). rewrite orb_false_iff, <- IH, negb_false_iff, Z.eqb_eq. lia.
Qed.

(** A stack element is false in a conditional exactly when it denotes the
    number zero, in any of its encodings: zero bytes and negative zero. *)
Theorem cast_to_bool_spec data : cast_to_bool data = negb (Num.num_value data =? 0).
Proof.
  destruct data as [|l init _] using rev_ind; [done|].
  unfold cast_to_bool. rewrite last_snoc, removelast_last, Num.num_value_snoc.
  pose proof (le_value_0 init) as H0. pose proof (le_value_bound init).
  pose proof (Z.mod_pos_bound (u8 l) 128 eq_refl). pose proof (Num.pow_256_pos (zlen init) ltac:(lia)).
  assert ((u8 l =? 0) || (u8 l =? 128) = (u8 l mod 128 =? 0)) as -> by (by destruct l).
  set (m := le_value init + 256 ^ zlen init * (u8 l mod 128)).
  assert (((if u8 l <? 128 then 1 else -1) * m =? 0) = (m =? 0)) as ->.
  { apply eq_true_iff_eq. rewrite !Z.eqb_eq. destruct (u8 l <? 128); lia. }
  destruct (existsb _ init).
  - symmetry. apply negb_true_iff, Z.eqb_neq. subst m. assert (le_value init <> 0) by (intros E%H0; done). nia.
  - f_equal. apply eq_true_iff_eq. rewrite !Z.eqb_eq. subst m. rewrite (proj2 H0) by done. nia.
Qed.

End SigEncoding.
