(* ===== verification/Interpreter.v ===== *)
(** The script interpreter (src/script/src/interpreter.rs): [eval_script] with one
    definition per arm of its opcode match, [verify_witness_program] and
    [verify_script].  The arms that only touch the main stack map a stack to a
    stack; the loop threads the interpreter's local variables as a record.  The
    loop's fuel is the script length: every round advances the program counter. *)
From Stdlib Require Import ZArith Lia Strings.Byte.
From stdpp Require Import base decidable numbers list.
From S2P Require Import Prelude Opcode Num Stack Script Builder Crypto Sighash SigEncoding.

Local Open Scope Z_scope.

Module Interpreter.
Import SigEncoding.

(** [chain::constants::SEQUENCE_LOCKTIME_DISABLE_FLAG]. *)
Definition SEQUENCE_LOCKTIME_DISABLE_FLAG : Z := Z.shiftl 1 31.

(** The local variables of [eval_script]; [stack] is its argument. *)
Record state := mkState {
  stack : list bytes;
  altstack : list bytes;
  exec_stack : list bool;
  op_count : Z;
  pc : nat;
  begincode : nat;
}.

Abbreviation M := (outcome Error.Error).

(** [*stack.last_mut()? = v]. *)
Definition set_last (s : list bytes) (v : bytes) : list bytes := removelast s ++ [v].

(** [Num::from_slice(&stack.pop()?, flags.verify_minimaldata, 4)?]. *)
Definition pop_num (flags : VerificationFlags) (s : list bytes) : M (Z * list bytes) :=
  '(d, s) ← Stack.pop s; n ← Num.from_slice d (verify_minimaldata flags) 4; Ok (n, s).

(** [stack.push(n.to_bytes())]. *)
Definition push_num (s : list bytes) (n : Z) : M (list bytes) :=
  d ← Num.to_bytes n; Ok (Stack.push s d).

(** [if b { stack.push(vec![1].into()) } else { stack.push(Bytes::new()) }]. *)
Definition push_bool (s : list bytes) (b : bool) : list bytes :=
  Stack.push s (if b then [x01] else []).

(** * Pushes *)

Definition op_push_value (o : Opcode) (s : list bytes) : M (list bytes) :=
  push_num s (opcode_u8 o - (opcode_u8 OP_1 - 1)).

(** * Splice operations *)

Definition op_cat (s : list bytes) : M (list bytes) :=
  '(value_to_append, s) ← Stack.pop s;
  value_to_update ← Stack.last s;
  if Script.MAX_SCRIPT_ELEMENT_SIZE <? zlen value_to_update + zlen value_to_append
  then Err Error.PushSize
  else Ok (set_last s (value_to_update ++ value_to_append)).

Definition op_split (flags : VerificationFlags) (s : list bytes) : M (list bytes) :=
  '(n, s) ← pop_num flags s;
  if Num.is_negative n then Err Error.InvalidStackOperation else
  let n := Num.to_usize n in
  value_to_split ← Stack.last s;
  if zlen value_to_split <? n then Err Error.InvalidSplitRange else
  Ok (Stack.push (set_last s (take (Z.to_nat n) value_to_split))
        (drop (Z.to_nat n) value_to_split)).

(** The loops of OP_AND, OP_OR and OP_XOR over the zipped operands. *)
Definition op_bitwise (f : Z -> Z -> Z) (s : list bytes) : M (list bytes) :=
  '(mask, s) ← Stack.pop s;
  value_to_update ← Stack.last s;
  if negb (zlen mask =? zlen value_to_update) then Err Error.InvalidOperandSize else
  Ok (set_last s (zip_with (fun x m => byte_of (f (u8 x) (u8 m))) value_to_update mask)).

Definition op_bin2num (s : list bytes) : M (list bytes) :=
  '(bin, s) ← Stack.pop s; n ← Num.minimally_encode bin 4; push_num s n.

(** The extension of [num] to [bin_size] bytes: the sign bit moves to the new last
    byte. *)
Definition extend_num (num : bytes) (bin_size : nat) : bytes :=
  let '(num, sign_byte) :=
    match last num with
    | Some b => (removelast num ++ [byte_of (Z.land (u8 b) 127)], byte_of (Z.land (u8 b) 128))
    | None => (num, x00)
    end in
  resize (bin_size - 1) x00 num ++ [sign_byte].

Definition op_num2bin (flags : VerificationFlags) (s : list bytes) : M (list bytes) :=
  '(bin_size, s) ← pop_num flags s;
  if Num.is_negative bin_size || (Num.from_usize Script.MAX_SCRIPT_ELEMENT_SIZE <? bin_size)
  then Err Error.PushSize else
  let bin_size := Num.to_usize bin_size in
  '(d, s) ← Stack.pop s;
  n ← Num.minimally_encode d 4;
  num ← Num.to_bytes n;
  if bin_size <? zlen num then Err Error.ImpossibleEncoding else
  Ok (Stack.push s (if zlen num <? bin_size then extend_num num (Z.to_nat bin_size) else num)).

(** * Arithmetic *)

Definition op_div (flags : VerificationFlags) (s : list bytes) : M (list bytes) :=
  '(v1, s) ← pop_num flags s;
  '(v2, s) ← pop_num flags s;
  if Num.is_zero v2 then Err Error.DivisionByZero else
  q ← Num.div v1 v2; push_num s q.

Definition op_mod (flags : VerificationFlags) (s : list bytes) : M (list bytes) :=
  '(v1, s) ← pop_num flags s;
  '(v2, s) ← pop_num flags s;
  if Num.is_zero v2 then Err Error.DivisionByZero else
  r ← Num.rem v1 v2; push_num s r.

(** An arm that replaces the top number [n] by [f n]. *)
Definition num_unop (flags : VerificationFlags) (f : Z -> M Z) (s : list bytes) : M (list bytes) :=
  '(n, s) ← pop_num flags s; r ← f n; push_num s r.

(** An arm that replaces the top number [v1] and the one below, [v2], by [f v1 v2]. *)
Definition num_binop (flags : VerificationFlags) (f : Z -> Z -> M Z) (s : list bytes)
    : M (list bytes) :=
  '(v1, s) ← pop_num flags s;
  '(v2, s) ← pop_num flags s;
  r ← f v1 v2; push_num s r.

Definition op_1add flags := num_unop flags (fun n => Num.add n 1).
Definition op_1sub flags := num_unop flags (fun n => Num.sub n 1).
Definition op_negate flags := num_unop flags (fun n => Num.neg n).
Definition op_abs flags := num_unop flags (fun n => Num.abs n).
Definition op_not flags := num_unop flags (fun n => Ok (Num.from_bool (Num.is_zero n))).
Definition op_0notequal flags := num_unop flags (fun n => Ok (Num.from_bool (negb (Num.is_zero n)))).
Definition op_add flags := num_binop flags (fun v1 v2 => Num.add v1 v2).
Definition op_sub flags := num_binop flags (fun v1 v2 => Num.sub v2 v1).
Definition op_booland flags := num_binop flags (fun v1 v2 =>
  Ok (Num.from_bool (negb (Num.is_zero v1) && negb (Num.is_zero v2)))).
Definition op_boolor flags := num_binop flags (fun v1 v2 =>
  Ok (Num.from_bool (negb (Num.is_zero v1) || negb (Num.is_zero v2)))).
Definition op_numequal flags := num_binop flags (fun v1 v2 => Ok (Num.from_bool (v1 =? v2))).
Definition op_numnotequal flags :=
  num_binop flags (fun v1 v2 => Ok (Num.from_bool (negb (v1 =? v2)))).
Definition op_lessthan flags := num_binop flags (fun v1 v2 => Ok (Num.from_bool (v2 <? v1))).
Definition op_greaterthan flags := num_binop flags (fun v1 v2 => Ok (Num.from_bool (v1 <? v2))).
Definition op_lessthanorequal flags :=
  num_binop flags (fun v1 v2 => Ok (Num.from_bool (v2 <=? v1))).
Definition op_greaterthanorequal flags :=
  num_binop flags (fun v1 v2 => Ok (Num.from_bool (v1 <=? v2))).
Definition op_min flags := num_binop flags (fun v1 v2 => Ok (Z.min v1 v2)).
Definition op_max flags := num_binop flags (fun v1 v2 => Ok (Z.max v1 v2)).

Definition op_numequalverify (flags : VerificationFlags) (s : list bytes) : M (list bytes) :=
  '(v1, s) ← pop_num flags s;
  '(v2, s) ← pop_num flags s;
  if negb (v1 =? v2) then Err Error.NumEqualVerify else Ok s.

Definition op_within (flags : VerificationFlags) (s : list bytes) : M (list bytes) :=
  '(v1, s) ← pop_num flags s;
  '(v2, s) ← pop_num flags s;
  '(v3, s) ← pop_num flags s;
  Ok (push_bool s ((v2 <=? v3) && (v3 <? v1))).

(** * Stack and comparison operations *)

Definition op_verify (s : list bytes) : M (list bytes) :=
  '(v, s) ← Stack.pop s;
  if negb (cast_to_bool v) then Err Error.Verify else Ok s.

Definition op_ifdup (s : list bytes) : M (list bytes) :=
  v ← Stack.last s; if cast_to_bool v then Stack.dup s 1 else Ok s.

Definition op_depth (s : list bytes) : M (list bytes) := push_num s (Num.from_usize (zlen s)).

Definition op_drop (s : list bytes) : M (list bytes) := '(_, s) ← Stack.pop s; Ok s.

(** OP_PICK copies and OP_ROLL moves the element at depth [n]. *)
Definition op_pick_roll (flags : VerificationFlags) (pick : bool) (s : list bytes)
    : M (list bytes) :=
  '(n, s) ← pop_num flags s;
  if (n <? 0) || (Num.from_usize (zlen s) <=? n) then Err Error.InvalidStackOperation else
  '(v, s) ← (if pick then v ← Stack.top s (Num.to_usize n); Ok (v, s)
             else Stack.remove s (Num.to_usize n));
  Ok (Stack.push s v).

Definition op_size (s : list bytes) : M (list bytes) :=
  v ← Stack.last s; push_num s (Num.from_usize (zlen v)).

Definition op_equal (s : list bytes) : M (list bytes) :=
  '(v1, s) ← Stack.pop s;
  '(v2, s) ← Stack.pop s;
  Ok (push_bool s (bool_decide (v1 = v2))).

Definition op_equalverify (s : list bytes) : M (list bytes) :=
  '(v1, s) ← Stack.pop s;
  '(v2, s) ← Stack.pop s;
  if negb (bool_decide (v1 = v2)) then Err Error.EqualVerify else Ok s.

Definition op_hash (h : bytes -> bytes) (s : list bytes) : M (list bytes) :=
  '(v, s) ← Stack.pop s; Ok (Stack.push s (h v)).

(** * Conditionals and other state operations *)

Definition op_if (notif executing : bool) (st : state) : M state :=
  '(exec_value, s) ←
    (if executing then
       '(v, s) ← map_err (fun _ => Error.UnbalancedConditional) (Stack.pop (stack st));
       Ok (if notif then negb (cast_to_bool v) else cast_to_bool v, s)
     else Ok (false, stack st));
  Ok (mkState s (altstack st) (exec_stack st ++ [exec_value]) (op_count st) (pc st) (begincode st)).

Definition op_else (st : state) : M state :=
  match exec_stack st with
  | [] => Err Error.UnbalancedConditional
  | es =>
      Ok (mkState (stack st) (altstack st) (alter negb (length es - 1)%nat es)
            (op_count st) (pc st) (begincode st))
  end.

Definition op_endif (st : state) : M state :=
  match exec_stack st with
  | [] => Err Error.UnbalancedConditional
  | es =>
      Ok (mkState (stack st) (altstack st) (removelast es) (op_count st) (pc st) (begincode st))
  end.

Definition op_toaltstack (st : state) : M state :=
  '(v, s) ← Stack.pop (stack st);
  Ok (mkState s (Stack.push (altstack st) v) (exec_stack st) (op_count st) (pc st) (begincode st)).

Definition op_fromaltstack (st : state) : M state :=
  '(v, alt) ← map_err (fun _ => Error.InvalidAltstackOperation) (Stack.pop (altstack st));
  Ok (mkState (Stack.push (stack st) v) alt (exec_stack st) (op_count st) (pc st) (begincode st)).

Definition op_codeseparator (st : state) : M state :=
  Ok (mkState (stack st) (altstack st) (exec_stack st) (op_count st) (pc st) (pc st)).

Definition op_nop (flags : VerificationFlags) (s : list bytes) : M (list bytes) :=
  if verify_discourage_upgradable_nops flags then Err Error.DiscourageUpgradableNops else Ok s.

Definition set_stack (st : state) (s : list bytes) : state :=
  mkState s (altstack st) (exec_stack st) (op_count st) (pc st) (begincode st).

Definition on_stack (st : state) (m : M (list bytes)) : M state := s ← m; Ok (set_stack st s).

Section interpreter.
Context `{Crypto} `{SignatureChecker}.

(** * Lock times *)

Definition op_checklocktimeverify (flags : VerificationFlags) (s : list bytes)
    : M (list bytes) :=
  if verify_locktime flags then
    d ← Stack.last s;
    lock_time ← Num.from_slice d (verify_minimaldata flags) 5;
    if Num.is_negative lock_time then Err Error.NegativeLocktime else
    ok ← check_lock_time lock_time;
    if negb ok then Err Error.UnsatisfiedLocktime else Ok s
  else if verify_discourage_upgradable_nops flags then Err Error.DiscourageUpgradableNops
  else Ok s.

Definition op_checksequenceverify (flags : VerificationFlags) (s : list bytes)
    : M (list bytes) :=
  if verify_checksequence flags then
    d ← Stack.last s;
    sequence ← Num.from_slice d (verify_minimaldata flags) 5;
    if Num.is_negative sequence then Err Error.NegativeLocktime else
    failed ← (if Num.is_zero (Num.bitand sequence SEQUENCE_LOCKTIME_DISABLE_FLAG)
              then ok ← check_sequence sequence; Ok (negb ok)
              else Ok false);
    if failed : bool then Err Error.UnsatisfiedLocktime else Ok s
  else if verify_discourage_upgradable_nops flags then Err Error.DiscourageUpgradableNops
  else Ok s.

(** * Signature operations *)

(** The match on the version: whether the signature is removed from the script
    that is hashed. *)
Definition delete_signature (version : SignatureVersion) (signature subscript : bytes)
    : M bytes :=
  let sighash := parse_hash_type version signature in
  match version with
  | ForkId => if Sighash.fork_id sighash then Ok subscript else
              signature_script ← Builder.push_data Builder.default signature;
              Script.find_and_delete subscript signature_script
  | WitnessV0 => Ok subscript
  | Base => signature_script ← Builder.push_data Builder.default signature;
            Script.find_and_delete subscript signature_script
  end.

(** The last match of the signature arms: push the result, or verify it. *)
Definition finish_check (verify success : bool) (e : Error.Error) (s : list bytes)
    : M (list bytes) :=
  if verify then if success then Ok s else Err e else Ok (push_bool s success).

Definition op_checksig (flags : VerificationFlags) (version : SignatureVersion) (verify : bool)
    (script : bytes) (begincode : nat) (s : list bytes) : M (list bytes) :=
  '(pubkey, s) ← Stack.pop s;
  '(signature, s) ← Stack.pop s;
  subscript ← Script.subscript script begincode;
  subscript ← delete_signature version signature subscript;
  _ ← check_signature_encoding signature flags version;
  _ ← check_pubkey_encoding pubkey flags;
  success ← check_script_signature signature pubkey subscript version;
  finish_check verify success Error.CheckSigVerify s.

(** [(0..n).map(|_| stack.pop()).collect::<Result<Vec<_>, _>>()?]. *)
Fixpoint pop_many (n : nat) (s : list bytes) : M (list bytes * list bytes) :=
  match n with
  | O => Ok ([], s)
  | S n' => '(v, s) ← Stack.pop s; '(vs, s) ← pop_many n' s; Ok (v :: vs, s)
  end.

(** [for signature in &sigs { ... subscript = subscript.find_and_delete(..) }]. *)
Fixpoint delete_signatures (version : SignatureVersion) (sigs : list bytes) (subscript : bytes)
    : M bytes :=
  match sigs with
  | [] => Ok subscript
  | signature :: sigs' =>
      subscript ← delete_signature version signature subscript;
      delete_signatures version sigs' subscript
  end.

(** [while s < sigs.len() && success]: each round consumes a key, so as much fuel as
    keys is enough. *)
Fixpoint multisig_loop (fuel : nat) (flags : VerificationFlags) (version : SignatureVersion)
    (subscript : bytes) (keys sigs : list bytes) (k s : nat) (success : bool) : M bool :=
  if (s <? length sigs)%nat && success then
    match fuel with
    | O => Diverge
    | S fuel' =>
        key ← index keys k;
        sig ← index sigs s;
        _ ← check_signature_encoding sig flags version;
        _ ← check_pubkey_encoding key flags;
        ok ← check_script_signature sig key subscript version;
        let s' := if ok : bool then (s + 1)%nat else s in
        let k' := (k + 1)%nat in
        sigs_left ← ucheck 64 (zlen sigs - Z.of_nat s');
        keys_left ← ucheck 64 (zlen keys - Z.of_nat k');
        multisig_loop fuel' flags version subscript keys sigs k' s' (sigs_left <=? keys_left)
    end
  else Ok success.

Definition op_checkmultisig (flags : VerificationFlags) (version : SignatureVersion)
    (verify : bool) (script : bytes) (begincode : nat) (s : list bytes) : M (list bytes) :=
  '(keys_count, s) ← pop_num flags s;
  if (keys_count <? 0) || (Num.from_usize Script.MAX_PUBKEYS_PER_MULTISIG <? keys_count)
  then Err Error.PubkeyCount else
  let keys_count := Num.to_usize keys_count in
  '(keys, s) ← pop_many (Z.to_nat keys_count) s;
  '(sigs_count, s) ← pop_num flags s;
  if (sigs_count <? 0) || (Num.from_usize keys_count <? sigs_count)
  then Err Error.SigCount else
  let sigs_count := Num.to_usize sigs_count in
  '(sigs, s) ← pop_many (Z.to_nat sigs_count) s;
  subscript ← Script.subscript script begincode;
  subscript ← delete_signatures version sigs subscript;
  success ← multisig_loop (length keys) flags version subscript keys sigs 0 0 true;
  '(dummy, s) ← Stack.pop s;
  if negb (bool_decide (dummy = [])) && verify_nulldummy flags
  then Err Error.SignatureNullDummy
  else finish_check verify success Error.CheckSigVerify s.

Definition op_checkdatasig (flags : VerificationFlags) (version : SignatureVersion)
    (verify : bool) (s : list bytes) : M (list bytes) :=
  '(pubkey, s) ← Stack.pop s;
  '(message, s) ← Stack.pop s;
  '(signature, s) ← Stack.pop s;
  _ ← check_signature_encoding signature flags version;
  _ ← check_pubkey_encoding pubkey flags;
  let message_hash := sha256 message in
  success ← verify_data_signature signature pubkey message_hash;
  finish_check verify success Error.CheckDataSigVerify s.

(** * The opcode match *)

(** The opcodes that only use the main stack. *)
Definition exec_stack_opcode (flags : VerificationFlags) (o : Opcode) (s : list bytes)
    : M (list bytes) :=
  match o with
  | OP_NOP => Ok s
  | OP_NOP1 | OP_NOP4 | OP_NOP5 | OP_NOP6 | OP_NOP7 | OP_NOP8 | OP_NOP9 | OP_NOP10 => op_nop flags s
  | OP_CHECKLOCKTIMEVERIFY => op_checklocktimeverify flags s
  | OP_CHECKSEQUENCEVERIFY => op_checksequenceverify flags s
  | OP_VERIFY => op_verify s
  | OP_RETURN => Err Error.ReturnOpcode
  | OP_2DROP => Stack.drop s 2
  | OP_2DUP => Stack.dup s 2
  | OP_3DUP => Stack.dup s 3
  | OP_2OVER => Stack.over s 2
  | OP_2ROT => Stack.rot s 2
  | OP_2SWAP => Stack.swap s 2
  | OP_IFDUP => op_ifdup s
  | OP_DEPTH => op_depth s
  | OP_DROP => op_drop s
  | OP_DUP => Stack.dup s 1
  | OP_NIP => Stack.nip s
  | OP_OVER => Stack.over s 1
  | OP_PICK => op_pick_roll flags true s
  | OP_ROLL => op_pick_roll flags false s
  | OP_ROT => Stack.rot s 1
  | OP_SWAP => Stack.swap s 1
  | OP_TUCK => Stack.tuck s
  | OP_SIZE => op_size s
  | OP_EQUAL => op_equal s
  | OP_EQUALVERIFY => op_equalverify s
  | OP_1ADD => op_1add flags s
  | OP_1SUB => op_1sub flags s
  | OP_NEGATE => op_negate flags s
  | OP_ABS => op_abs flags s
  | OP_NOT => op_not flags s
  | OP_0NOTEQUAL => op_0notequal flags s
  | OP_ADD => op_add flags s
  | OP_SUB => op_sub flags s
  | OP_BOOLAND => op_booland flags s
  | OP_BOOLOR => op_boolor flags s
  | OP_NUMEQUAL => op_numequal flags s
  | OP_NUMEQUALVERIFY => op_numequalverify flags s
  | OP_NUMNOTEQUAL => op_numnotequal flags s
  | OP_LESSTHAN => op_lessthan flags s
  | OP_GREATERTHAN => op_greaterthan flags s
  | OP_LESSTHANOREQUAL => op_lessthanorequal flags s
  | OP_GREATERTHANOREQUAL => op_greaterthanorequal flags s
  | OP_MIN => op_min flags s
  | OP_MAX => op_max flags s
  | OP_WITHIN => op_within flags s
  | OP_RIPEMD160 => op_hash ripemd160 s
  | OP_SHA1 => op_hash sha1 s
  | OP_SHA256 => op_hash sha256 s
  | OP_HASH160 => op_hash dhash160 s
  | OP_HASH256 => op_hash dhash256 s
  (* enabled by their flags, otherwise disabled *)
  | OP_CAT => if verify_concat flags then op_cat s else Err (Error.DisabledOpcode o)
  | OP_SUBSTR => if verify_split flags then op_split flags s else Err (Error.DisabledOpcode o)
  | OP_AND => if verify_and flags then op_bitwise Z.land s else Err (Error.DisabledOpcode o)
  | OP_OR => if verify_or flags then op_bitwise Z.lor s else Err (Error.DisabledOpcode o)
  | OP_XOR => if verify_xor flags then op_bitwise Z.lxor s else Err (Error.DisabledOpcode o)
  | OP_DIV => if verify_div flags then op_div flags s else Err (Error.DisabledOpcode o)
  | OP_MOD => if verify_mod flags then op_mod flags s else Err (Error.DisabledOpcode o)
  | OP_RIGHT => if verify_bin2num flags then op_bin2num s else Err (Error.DisabledOpcode o)
  | OP_LEFT => if verify_num2bin flags then op_num2bin flags s else Err (Error.DisabledOpcode o)
  | OP_INVERT | OP_2MUL | OP_2DIV | OP_MUL | OP_LSHIFT | OP_RSHIFT | OP_VERIF | OP_VERNOTIF =>
      Err (Error.DisabledOpcode o)
  (* the remaining arms belong to [exec_opcode] *)
  | _ => Ok s
  end.

(** The whole match: the arms below use more than the main stack, or are the pushes. *)
Definition exec_opcode (flags : VerificationFlags) (version : SignatureVersion) (script : bytes)
    (executing : bool) (i : Script.Instruction) (st : state) : M state :=
  let o := Script.opcode i in
  if opcode_leb o OP_PUSHDATA4 then
    match Script.data i with
    | Some d => Ok (set_stack st (Stack.push (stack st) d))
    | None => Ok st
    end
  else
  match o with
  | OP_1NEGATE | OP_1 | OP_2 | OP_3 | OP_4 | OP_5 | OP_6 | OP_7 | OP_8 | OP_9 | OP_10 | OP_11
  | OP_12 | OP_13 | OP_14 | OP_15 | OP_16 => on_stack st (op_push_value o (stack st))
  | OP_IF => op_if false executing st
  | OP_NOTIF => op_if true executing st
  | OP_ELSE => op_else st
  | OP_ENDIF => op_endif st
  | OP_TOALTSTACK => op_toaltstack st
  | OP_FROMALTSTACK => op_fromaltstack st
  | OP_CODESEPARATOR => op_codeseparator st
  | OP_CHECKSIG =>
      on_stack st (op_checksig flags version false script (begincode st) (stack st))
  | OP_CHECKSIGVERIFY =>
      on_stack st (op_checksig flags version true script (begincode st) (stack st))
  | OP_CHECKMULTISIG =>
      on_stack st (op_checkmultisig flags version false script (begincode st) (stack st))
  | OP_CHECKMULTISIGVERIFY =>
      on_stack st (op_checkmultisig flags version true script (begincode st) (stack st))
  | OP_RESERVED | OP_VER | OP_RESERVED1 | OP_RESERVED2 =>
      if executing then Err (Error.DisabledOpcode o) else Ok st
  | OP_CHECKDATASIG =>
      if verify_checkdatasig flags then on_stack st (op_checkdatasig flags version false (stack st))
      else Err (Error.DisabledOpcode o)
  | OP_CHECKDATASIGVERIFY =>
      if verify_checkdatasig flags then on_stack st (op_checkdatasig flags version true (stack st))
      else Err (Error.DisabledOpcode o)
  | _ => on_stack st (exec_stack_opcode flags o (stack st))
  end.

(** * The loop *)

(** The checks on a decoded instruction before the match. *)
Definition check_push (flags : VerificationFlags) (executing : bool) (i : Script.Instruction)
    : M unit :=
  match Script.data i with
  | Some d =>
      if Script.MAX_SCRIPT_ELEMENT_SIZE <? zlen d then Err Error.PushSize else
      if executing && verify_minimaldata flags && negb (check_minimal_push d (Script.opcode i))
      then Err Error.Minimaldata else Ok tt
  | None => Ok tt
  end.

Definition count_op (o : Opcode) (op_count : Z) : M Z :=
  if is_countable o then
    op_count ← ucheck 32 (op_count + 1);
    if Script.MAX_OPS_PER_SCRIPT <? op_count then Err Error.OpCount else Ok op_count
  else Ok op_count.

(** The rest of a round once the instruction is decoded. *)
Definition exec_instruction (flags : VerificationFlags) (version : SignatureVersion)
    (script : bytes) (executing : bool) (i : Script.Instruction) (st : state) : M state :=
  let o := Script.opcode i in
  _ ← check_push flags executing i;
  op_count' ← count_op o (op_count st);
  if is_disabled o flags then Err (Error.DisabledOpcode o) else
  let st := mkState (stack st) (altstack st) (exec_stack st) op_count'
              (pc st + Script.step i) (begincode st) in
  if negb (executing || (opcode_leb OP_IF o && opcode_leb o OP_ENDIF)) then Ok st else
  st ← exec_opcode flags version script executing i st;
  if 1000 <? zlen (stack st) + zlen (altstack st) then Err Error.StackSize else Ok st.

(** One round of the loop; an undecodable opcode outside the executed branch is
    skipped byte by byte. *)
Definition eval_step (flags : VerificationFlags) (version : SignatureVersion) (script : bytes)
    (st : state) : M state :=
  let executing := forallb id (exec_stack st) in
  match_result (Script.get_instruction script (pc st))
    (fun i => exec_instruction flags version script executing i st)
    (fun e => match e with
              | Error.BadOpcode =>
                  if negb executing
                  then Ok (mkState (stack st) (altstack st) (exec_stack st) (op_count st)
                             (pc st + 1) (begincode st))
                  else Err e
              | _ => Err e
              end).

Fixpoint eval_loop (fuel : nat) (flags : VerificationFlags) (version : SignatureVersion)
    (script : bytes) (st : state) : M state :=
  if (pc st <? length script)%nat then
    match fuel with
    | O => Diverge
    | S fuel' => st ← eval_step flags version script st; eval_loop fuel' flags version script st
    end
  else Ok st.

(** The result and the final stack. *)
Definition eval_script (s : list bytes) (script : bytes) (flags : VerificationFlags)
    (version : SignatureVersion) : M (bool * list bytes) :=
  if Script.MAX_SCRIPT_SIZE <? zlen script then Err Error.ScriptSize else
  st ← eval_loop (length script) flags version script (mkState s [] [] 0 0 0);
  match exec_stack st with
  | [] =>
      match stack st with
      | [] => Ok (false, [])
      | _ => v ← Stack.last (stack st); Ok (cast_to_bool v, stack st)
      end
  | _ => Err Error.UnbalancedConditional
  end.

(** * Witness programs *)

Definition p2wpkh_script (witness_program : bytes) : M bytes :=
  b ← Builder.push_data
        (Builder.push_opcode (Builder.push_opcode Builder.default OP_DUP) OP_HASH160)
        witness_program;
  Ok (Builder.into_script (Builder.push_opcode (Builder.push_opcode b OP_EQUALVERIFY) OP_CHECKSIG)).

Definition verify_witness_program (witness : list bytes) (witness_version : Z)
    (witness_program : bytes) (flags : VerificationFlags) : M bool :=
  if negb (witness_version =? 0) then
    if verify_discourage_upgradable_witness_program flags
    then Err Error.DiscourageUpgradableWitnessProgram else Ok true
  else
  '(s, script_pubkey) ←
    (if zlen witness_program =? 32 then
       match last witness with
       | None => Err Error.WitnessProgramWitnessEmpty
       | Some script_pubkey =>
           if negb (bool_decide (sha256 script_pubkey = take 32 witness_program))
           then Err Error.WitnessProgramMismatch
           else Ok (removelast witness, script_pubkey)
       end
     else if zlen witness_program =? 20 then
       if negb (zlen witness =? 2) then Err Error.WitnessProgramMismatch
       else script_pubkey ← p2wpkh_script witness_program; Ok (witness, script_pubkey)
     else Err Error.WitnessProgramWrongLength);
  if existsb (fun e => Script.MAX_SCRIPT_ELEMENT_SIZE <? zlen e) s then Err Error.PushSize else
  '(ok, s) ← eval_script s script_pubkey flags WitnessV0;
  if negb ok then Ok false else
  if negb (zlen s =? 1) then Err Error.EvalFalse else
  v ← expect (last s);
  Ok (cast_to_bool v).

(** * [verify_script] *)

(** The witness part, for the public key script and for the P2SH redeem script:
    [true] when the script is a witness program, which then has been verified.  The
    malleability test is only computed for a witness program. *)
Definition check_witness (witness : list bytes) (script : bytes) (malleated : M bool)
    (e : Error.Error) (flags : VerificationFlags) : M bool :=
  if verify_witness flags then
    match Script.parse_witness_program script with
    | Some (witness_version, witness_program) =>
        bad ← malleated;
        if bad : bool then Err e else
        ok ← verify_witness_program witness witness_version witness_program flags;
        if negb ok then Err Error.EvalFalse else Ok true
    | None => Ok false
    end
  else Ok false.

(** The P2SH part: the remaining stack and whether a witness was verified. *)
Definition verify_p2sh_script (script_sig : bytes) (witness stack_copy : list bytes)
    (flags : VerificationFlags) (version : SignatureVersion) : M (bool * list bytes) :=
  push_only ← Script.is_push_only script_sig;
  if negb push_only then Err Error.SignaturePushOnly else
  _ ← rust_assert (negb (bool_decide (stack_copy = [])));
  '(pubkey2, s) ← Stack.pop stack_copy;
  '(res, s) ← eval_script s pubkey2 flags version;
  if negb res then Err Error.EvalFalse else
  had_witness ← check_witness witness pubkey2
    (expected ← Builder.push_data Builder.default pubkey2;
     Ok (negb (bool_decide (script_sig = Builder.into_script expected))))
    Error.WitnessMalleatedP2SH flags;
  Ok (had_witness, s).

Definition verify_script (script_sig script_pubkey : bytes) (witness : list bytes)
    (flags : VerificationFlags) (version : SignatureVersion) : M unit :=
  push_only ← (if verify_sigpushonly flags then Script.is_push_only script_sig else Ok true);
  if negb push_only then Err Error.SignaturePushOnly else
  '(_, s) ← eval_script [] script_sig flags version;
  let stack_copy := if verify_p2sh flags then s else [] in
  '(res, s) ← eval_script s script_pubkey flags version;
  if negb res then Err Error.EvalFalse else
  had_witness ← check_witness witness script_pubkey (Ok (negb (bool_decide (script_sig = []))))
    Error.WitnessMalleated flags;
  '(had_witness', s) ←
    (if verify_p2sh flags && Script.is_pay_to_script_hash script_pubkey
     then verify_p2sh_script script_sig witness stack_copy flags version
     else Ok (false, s));
  let had_witness := had_witness || had_witness' in
  _ ← (if verify_cleanstack flags && negb had_witness then
         _ ← rust_assert (verify_p2sh flags); fail_if (negb (zlen s =? 1)) Error.Cleanstack
       else Ok tt);
  if verify_witness flags then
    _ ← rust_assert (verify_p2sh flags);
    fail_if (negb had_witness && negb (bool_decide (witness = []))) Error.WitnessUnexpected
  else Ok tt.

End interpreter.

End Interpreter.
