(* ===== verification/InterpreterSafety.v ===== *)
(** Safety of the interpreter: no script makes [eval_script] or [verify_script]
    panic or diverge, and every reachable interpreter state respects the limits
    (element size, stack size, operation count).  Each opcode arm is shown to keep
    the elements of a stack within 520 bytes and to grow it by at most three. *)
From Stdlib Require Import ZArith Lia Strings.Byte.
From stdpp Require Import base decidable numbers list.
From S2P Require Import Prelude Opcode Num Stack Script Builder Crypto Sighash SigEncoding Interpreter.

Local Open Scope Z_scope.

Module InterpreterSafety.
Import SigEncoding Interpreter.

(** A stack of at most [n] elements, each of a legal size. *)
Definition good (n : Z) (s : list bytes) : Prop :=
  Forall (fun e => zlen e <= 520) s /\ zlen s <= n.

Definition popped (n : Z) (p : bytes * list bytes) : Prop := zlen p.1 <= 520 /\ good n p.2.
Definition popped_num (n : Z) (p : Z * list bytes) : Prop := Z.abs p.1 < 2 ^ 31 /\ good n p.2.

Create HintDb interp.

Lemma good_mono n m s : good n s -> n <= m -> good m s.
Proof. intros [H1 H2] Hm. split; [done|lia]. Qed.

Lemma good_app n m s t : good n s -> good m t -> good (n + m) (s ++ t).
Proof. intros [] []. split; [by apply Forall_app|]. rewrite length_app. lia. Qed.

(** A permutation-like rearrangement of good blocks is good: all elements come from
    a good stack. *)
Lemma good_incl n m s t : good n s -> (forall e, e ∈ t -> e ∈ s) -> zlen t <= m -> good m t.
Proof.
  intros [Hs _] Hin Hl. split; [|done]. rewrite Forall_forall in *. auto.
Qed.

Lemma pop_good n s : good n s -> returns_such (popped (n - 1)) (Stack.pop s).
Proof.
  intros [Hs Hl]. destruct s as [|v s _] using rev_ind; [done|].
  rewrite Stack.pop_snoc. apply Forall_app in Hs as [Hs Hv]. rewrite length_app in Hl.
  cbn in Hl. repeat split; cbn; [by inversion Hv|done|lia].
Qed.

Lemma last_good n s : good n s -> returns_such (fun v => zlen v <= 520) (Stack.last s).
Proof.
  intros [Hs Hl]. destruct s as [|v s _] using rev_ind; [done|].
  unfold Stack.last. rewrite last_snoc. apply Forall_app in Hs as [_ Hv]. by inversion Hv.
Qed.

Lemma push_good n m s v : good n s -> zlen v <= 520 -> n + 1 <= m -> good m (Stack.push s v).
Proof.
  intros Hs Hv Hm. apply good_mono with (n + 1); [|done]. apply good_app; [done|].
  split; [by repeat constructor|]. cbn. lia.
Qed.

Lemma push_bool_good n m s b : good n s -> n + 1 <= m -> good m (push_bool s b).
Proof. intros. eapply push_good; [done|destruct b; cbn; lia|done]. Qed.

Lemma set_last_good n m s v :
  good n s -> zlen v <= 520 -> n <= m -> 1 <= m -> good m (set_last s v).
Proof.
  intros [Hs Hl] Hv Hm H1. unfold set_last. destruct s as [|x s _] using rev_ind.
  { split; [by repeat constructor|]. cbn. lia. }
  rewrite removelast_last. apply Forall_app in Hs as [Hs _]. rewrite length_app in Hl. cbn in Hl.
  split; [apply Forall_app; split; [done|by repeat constructor]|]. rewrite length_app. cbn. lia.
Qed.

(** * Numbers *)

Lemma from_slice_bound d rm max :
  0 <= max <= 7 ->
  returns_such (fun v => 2 * Z.abs v < 256 ^ max) (Num.from_slice d rm max).
Proof.
  intros Hm. destruct (Z.lt_ge_cases max (zlen d)).
  { unfold Num.from_slice. by rewrite (proj2 (Z.ltb_lt _ _)). }
  rewrite Num.from_slice_spec by lia. destruct (_ && _); [done|]. cbn.
  pose proof (Num.num_value_bound d). pose proof (Num.pow_256_mono (zlen d) max ltac:(lia)). lia.
Qed.

Lemma to_bytes_bound {E} v :
  Z.abs v < 2 ^ 62 -> returns_such (fun d => zlen d <= 520) (@Num.to_bytes E v).
Proof.
  intros Hv. destruct (@Num.to_bytes_minimal E v) as (d & -> & Hd & Hnv); [unfold sint; lia|lia|].
  cbn. pose proof (proj2 (Num.minimal_length_le d 8 Hd ltac:(lia))) as Hl. rewrite Hnv in Hl. lia.
Qed.

Lemma pop_num_good flags n s : good n s -> returns_such (popped_num (n - 1)) (pop_num flags s).
Proof.
  intros Hs. unfold pop_num. eapply returns_such_bind; [by apply pop_good|].
  intros [d s'] [Hd Hs']. eapply returns_such_bind; [by apply (from_slice_bound _ _ 4)|].
  cbn. intros v Hv. split; cbn; [lia|done].
Qed.

Lemma push_num_good n m s v :
  good n s -> Z.abs v < 2 ^ 62 -> n + 1 <= m -> returns_such (good m) (push_num s v).
Proof.
  intros Hs Hv Hm. unfold push_num. eapply returns_such_bind; [by apply to_bytes_bound|].
  cbn. intros d Hd. by apply (push_good n).
Qed.

Lemma minimally_encode_bound d :
  returns_such (fun v => Z.abs v < 2 ^ 31) (Num.minimally_encode d 4).
Proof.
  destruct (Num.minimally_encode_minimal d 4) as (d' & -> & _).
  eapply returns_such_mono, from_slice_bound; [|lia]. cbn. lia.
Qed.

Lemma scheck_bound {E} z : Z.abs z < 2 ^ 62 -> returns_such (fun v => v = z) (@scheck E 64 z).
Proof. intros. by rewrite scheck_Ok by (unfold sint; lia). Qed.

(** One step through an arm: a bind whose first part has a lemma, a test, an end. *)
Ltac interp_pair :=
  match goal with
  | H : popped _ ?p |- _ => destruct p as [? ?]; destruct H as [? ?]; cbn [fst snd] in *
  | H : popped_num _ ?p |- _ => destruct p as [? ?]; destruct H as [? ?]; cbn [fst snd] in *
  end.

Ltac interp_step :=
  match goal with
  | |- returns_such _ (Stack.pop _ ≫= _) => eapply returns_such_bind; [by apply pop_good|]
  | |- returns_such _ (pop_num _ _ ≫= _) => eapply returns_such_bind; [by apply pop_num_good|]
  | |- returns_such _ (Stack.last _ ≫= _) => eapply returns_such_bind; [by eapply last_good|]
  | |- returns_such _ (Num.minimally_encode _ _ ≫= _) =>
      eapply returns_such_bind; [by apply minimally_encode_bound|]
  | |- returns_such _ (scheck 64 _ ≫= _) => eapply returns_such_bind; [apply scheck_bound; lia|]
  | |- returns_such _ (Ok _ ≫= _) => cbn [mbind outcome_bind]
  | |- returns_such _ (if ?b then _ else _) => destruct b eqn:?; bool_prop
  | |- returns_such _ (Err _) => exact I
  | |- returns_such _ (push_num _ _) => eapply push_num_good; [eassumption|lia|lia]
  end; intros; cbn beta in *; repeat interp_pair; cbn [returns_such]; try exact I.

Ltac interp := repeat interp_step.

Section arms.
Context `{CryptoLaws} `{CheckerReturns}.
Implicit Types (n : Z) (s : list bytes).

Lemma op_push_value_good n o s :
  good n s -> returns_such (good (n + 3)) (op_push_value o s).
Proof.
  intros Hs. pose proof (Script.opcode_u8_bound o). unfold op_push_value.
  change (opcode_u8 OP_1) with 81. interp.
Qed.

Lemma op_cat_good n s : good n s -> 1 <= n -> returns_such (good (n + 3)) (op_cat s).
Proof.
  intros Hs Hn. unfold op_cat, Script.MAX_SCRIPT_ELEMENT_SIZE. interp.
  eapply set_last_good; [done| |lia..]. rewrite length_app. lia.
Qed.

Lemma op_split_good flags n s : good n s -> 1 <= n -> returns_such (good (n + 3)) (op_split flags s).
Proof.
  intros Hs Hn. unfold op_split. interp.
  apply (push_good (n + 1)); [eapply set_last_good; [done|..]|..]; rewrite ?length_take, ?length_drop; lia.
Qed.

Lemma op_bitwise_good f n s : good n s -> 1 <= n -> returns_such (good (n + 3)) (op_bitwise f s).
Proof.
  intros Hs Hn. unfold op_bitwise. interp.
  eapply set_last_good; [done| |lia..]. rewrite length_zip_with. lia.
Qed.

Lemma op_bin2num_good n s : good n s -> returns_such (good (n + 3)) (op_bin2num s).
Proof. intros Hs. unfold op_bin2num. interp. Qed.

Lemma length_extend_num num k : (length num < k)%nat -> length (extend_num num k) = k.
Proof.
  intros Hk. unfold extend_num. destruct (last num);
    rewrite length_app, length_resize; cbn; lia.
Qed.

Lemma from_usize_small z : 0 <= z < 2 ^ 62 -> Num.from_usize z = z.
Proof. intros. apply swrap_sint; [lia|]. unfold sint. lia. Qed.

Lemma to_usize_small z : 0 <= z < 2 ^ 62 -> Num.to_usize z = z.
Proof. intros. apply wrap_uint. unfold uint. lia. Qed.

Lemma op_num2bin_good flags n s : good n s -> returns_such (good (n + 3)) (op_num2bin flags s).
Proof.
  intros Hs. unfold op_num2bin, Script.MAX_SCRIPT_ELEMENT_SIZE. rewrite from_usize_small by lia.
  interp_step. destruct (_ || _) eqn:Hb; [done|]. unfold Num.is_negative in Hb. bool_prop.
  rewrite to_usize_small by lia. interp.
  eapply returns_such_bind; [apply to_bytes_bound; lia|]. cbn beta. intros num Hnum. interp.
  eapply push_good; [done| |lia]. destruct (_ <? _) eqn:Hlt; bool_prop; [|done].
  rewrite length_extend_num by lia. lia.
Qed.

Lemma num_unop_good flags f n s :
  (forall v, Z.abs v < 2 ^ 31 -> returns_such (fun r => Z.abs r < 2 ^ 62) (f v)) ->
  good n s -> returns_such (good (n + 3)) (num_unop flags f s).
Proof.
  intros Hf Hs. unfold num_unop. interp_step. eapply returns_such_bind; [by apply Hf|].
  cbn beta. intros. interp.
Qed.

Lemma num_binop_good flags f n s :
  (forall v w, Z.abs v < 2 ^ 31 -> Z.abs w < 2 ^ 31 ->
     returns_such (fun r => Z.abs r < 2 ^ 62) (f v w)) ->
  good n s -> returns_such (good (n + 3)) (num_binop flags f s).
Proof.
  intros Hf Hs. unfold num_binop. do 2 interp_step. eapply returns_such_bind; [by apply Hf|].
  cbn beta. intros. interp.
Qed.

Lemma scheck_small {E} z :
  Z.abs z < 2 ^ 62 -> returns_such (fun r => Z.abs r < 2 ^ 62) (@scheck E 64 z).
Proof. intros. by rewrite scheck_Ok by (unfold sint; lia). Qed.

Lemma from_bool_small b : Z.abs (Num.from_bool b) < 2 ^ 62.
Proof. by destruct b. Qed.

Lemma quot_small a b : b <> 0 -> Z.abs a < 2 ^ 31 -> Z.abs (Z.quot a b) < 2 ^ 31.
Proof.
  intros Hb Ha. rewrite <- Z.quot_abs by done.
  rewrite Z.quot_div_nonneg by lia.
  apply Z.le_lt_trans with (Z.abs a); [|done]. apply Z.div_le_upper_bound; [lia|]. nia.
Qed.

Lemma op_div_good flags n s : good n s -> returns_such (good (n + 3)) (op_div flags s).
Proof.
  intros Hs. unfold op_div, Num.is_zero, Num.div. interp.
  pose proof (quot_small z z0 ltac:(done) ltac:(done)). interp.
Qed.

Lemma op_mod_good flags n s : good n s -> returns_such (good (n + 3)) (op_mod flags s).
Proof.
  intros Hs. unfold op_mod, Num.is_zero, Num.rem. interp.
  pose proof (quot_small z z0 ltac:(done) ltac:(done)).
  rewrite scheck_Ok by (unfold sint; lia). cbn [mbind outcome_bind].
  pose proof (Z.rem_bound_abs z z0). interp.
Qed.

Lemma op_numequalverify_good flags n s :
  good n s -> returns_such (good (n + 3)) (op_numequalverify flags s).
Proof. intros Hs. unfold op_numequalverify. interp. eapply good_mono; [done|lia]. Qed.

Lemma op_within_good flags n s : good n s -> returns_such (good (n + 3)) (op_within flags s).
Proof. intros Hs. unfold op_within. interp. eapply push_bool_good; [done|lia]. Qed.

Lemma op_verify_good n s : good n s -> returns_such (good (n + 3)) (op_verify s).
Proof. intros Hs. unfold op_verify. interp. eapply good_mono; [done|lia]. Qed.

Lemma op_drop_good n s : good n s -> returns_such (good (n + 3)) (op_drop s).
Proof. intros Hs. unfold op_drop. interp. eapply good_mono; [done|lia]. Qed.

Lemma op_depth_good n s : good n s -> n < 2 ^ 62 -> returns_such (good (n + 3)) (op_depth s).
Proof.
  intros Hs Hn. unfold op_depth. pose proof (proj2 Hs). rewrite from_usize_small by lia. interp.
Qed.

Lemma op_size_good n s : good n s -> returns_such (good (n + 3)) (op_size s).
Proof. intros Hs. unfold op_size. interp. rewrite from_usize_small by lia. interp. Qed.

Lemma op_equal_good n s : good n s -> returns_such (good (n + 3)) (op_equal s).
Proof. intros Hs. unfold op_equal. interp. eapply push_bool_good; [done|lia]. Qed.

Lemma op_equalverify_good n s : good n s -> returns_such (good (n + 3)) (op_equalverify s).
Proof. intros Hs. unfold op_equalverify. interp. eapply good_mono; [done|lia]. Qed.

Lemma op_hash_good h n s :
  (forall x, zlen (h x) <= 520) -> good n s -> returns_such (good (n + 3)) (op_hash h s).
Proof. intros Hh Hs. unfold op_hash. interp. eapply push_good; [done|done|lia]. Qed.

(** The block operations: the result rearranges elements of the stack. *)
Lemma block_good n s (m : M (list bytes)) :
  good n s ->
  (m = Err Error.InvalidStackOperation \/
   exists t, m = Ok t /\ (forall e, e ∈ t -> e ∈ s) /\ zlen t <= zlen s + 3) ->
  returns_such (good (n + 3)) m.
Proof.
  intros Hs [->|(t & -> & Hin & Hl)]; [done|]. cbn. eapply good_incl; [done..|].
  destruct Hs. lia.
Qed.

(** Case split of a block operation on [k] blocks of [i] elements. *)
Ltac split_block s k :=
  destruct (Z.lt_ge_cases (zlen s) (Z.of_nat k)) as [?Hshort|?Hlong];
  [left|right; apply Stack.split_top in Hlong as (?a & ?t & -> & ?Ht)].

Ltac block_rest :=
  eexists; split; [done|]; split;
  [intros ?; rewrite ?elem_of_app, ?elem_of_cons, ?elem_of_app; tauto
  |rewrite ?length_app in *; cbn in *; lia].

Lemma dup_good n s i : 1 <= i <= 3 -> good n s -> returns_such (good (n + 3)) (Stack.dup s i).
Proof.
  intros Hi Hs. eapply block_good; [done|]. split_block s (Z.to_nat i).
  - apply Stack.dup_short. lia.
  - rewrite Stack.dup_app by lia. block_rest.
Qed.

Lemma drop_good n s i : 0 <= i -> good n s -> returns_such (good (n + 3)) (Stack.drop s i).
Proof.
  intros Hi Hs. eapply block_good; [done|]. split_block s (Z.to_nat i).
  - apply Stack.drop_short. lia.
  - rewrite Stack.drop_app by lia. block_rest.
Qed.

Lemma over_good n s i : 1 <= i <= 2 -> good n s -> returns_such (good (n + 3)) (Stack.over s i).
Proof.
  intros Hi Hs. eapply block_good; [done|]. split_block s (Z.to_nat i + Z.to_nat i)%nat.
  - apply Stack.over_short; unfold uint; lia.
  - destruct (Stack.split_top t (Z.to_nat i)) as (b & c & -> & Hc); [lia|].
    rewrite length_app in Ht. rewrite Stack.over_app by (unfold uint; lia). block_rest.
Qed.

Lemma swap_good n s i : 1 <= i <= 2 -> good n s -> returns_such (good (n + 3)) (Stack.swap s i).
Proof.
  intros Hi Hs. eapply block_good; [done|]. split_block s (Z.to_nat i + Z.to_nat i)%nat.
  - apply Stack.swap_short; unfold uint; lia.
  - destruct (Stack.split_top t (Z.to_nat i)) as (b & c & -> & Hc); [lia|].
    rewrite length_app in Ht. rewrite Stack.swap_app by (unfold uint; lia). block_rest.
Qed.

Lemma rot_good n s i : 1 <= i <= 2 -> good n s -> returns_such (good (n + 3)) (Stack.rot s i).
Proof.
  intros Hi Hs. eapply block_good; [done|]. split_block s (Z.to_nat i + Z.to_nat i + Z.to_nat i)%nat.
  - apply Stack.rot_short; unfold uint; lia.
  - destruct (Stack.split_top t (Z.to_nat i)) as (b & c & -> & Hc); [lia|].
    destruct (Stack.split_top b (Z.to_nat i)) as (d & e & -> & He); [rewrite !length_app in *; lia|].
    rewrite !length_app in Ht. rewrite <- app_assoc. rewrite Stack.rot_app by (unfold uint; lia).
    block_rest.
Qed.

Lemma nip_good n s : good n s -> returns_such (good (n + 3)) (Stack.nip s).
Proof.
  intros Hs. eapply block_good; [done|]. split_block s 2%nat.
  - by apply Stack.nip_short.
  - destruct t as [|x [|y []]]; try done. rewrite Stack.nip_app. block_rest.
Qed.

Lemma tuck_good n s : good n s -> returns_such (good (n + 3)) (Stack.tuck s).
Proof.
  intros Hs. eapply block_good; [done|]. split_block s 2%nat.
  - by apply Stack.tuck_short.
  - destruct t as [|x [|y []]]; try done. rewrite Stack.tuck_app. block_rest.
Qed.

Lemma op_ifdup_good n s : good n s -> returns_such (good (n + 3)) (op_ifdup s).
Proof.
  intros Hs. unfold op_ifdup. interp; [by apply dup_good|]. eapply good_mono; [done|lia].
Qed.

Lemma op_nop_good flags n s : good n s -> returns_such (good (n + 3)) (op_nop flags s).
Proof. intros Hs. unfold op_nop. interp. eapply good_mono; [done|lia]. Qed.

Lemma good_lookup n s k v : good n s -> s !! k = Some v -> zlen v <= 520.
Proof. intros [Hs _] Hv. rewrite Forall_lookup in Hs. eauto. Qed.

Lemma op_pick_roll_good flags pick n s :
  good n s -> n < 2 ^ 62 -> returns_such (good (n + 3)) (op_pick_roll flags pick s).
Proof.
  intros Hs Hn. unfold op_pick_roll. interp_step. pose proof (proj2 H2).
  destruct (_ || _) eqn:Hb; [done|]. bool_prop.
  rewrite from_usize_small in * by lia. rewrite to_usize_small by lia.
  destruct (Stack.split_top l (Z.to_nat z + 1)) as (a & t & -> & Ht); [lia|].
  destruct t as [|v t]; [cbn in Ht; lia|]. cbn [length] in Ht.
  assert (zlen t = z) as Hz by lia. assert (uint 64 (z + 1)) by (unfold uint; lia).
  assert (zlen v <= 520) by (eapply (good_lookup _ _ (length a)); [done|by apply list_lookup_middle]).
  destruct pick.
  - rewrite Stack.top_app by done. cbn. apply (push_good (n - 1)); [done..|lia].
  - rewrite Stack.remove_app by done. cbn. apply (push_good (n - 1)); [|done|lia].
    eapply good_incl; [done| |rewrite length_app in *; cbn in *; lia].
    intros e. rewrite !elem_of_app, elem_of_cons. tauto.
Qed.

Lemma op_checklocktimeverify_good flags n s :
  good n s -> returns_such (good (n + 3)) (op_checklocktimeverify flags s).
Proof.
  intros Hs. assert (good (n + 3) s) by (eapply good_mono; [done|lia]).
  unfold op_checklocktimeverify. interp; try done.
  eapply returns_such_bind; [by apply (from_slice_bound _ _ 5)|]. intros v Hv. interp.
  destruct (check_lock_time_returns v) as [b ->]. cbn. by destruct b.
Qed.

Lemma op_checksequenceverify_good flags n s :
  good n s -> returns_such (good (n + 3)) (op_checksequenceverify flags s).
Proof.
  intros Hs. assert (good (n + 3) s) by (eapply good_mono; [done|lia]).
  unfold op_checksequenceverify. interp; try done.
  eapply returns_such_bind; [by apply (from_slice_bound _ _ 5)|]. intros v Hv. interp.
  destruct (Num.is_zero _); [|by interp].
  destruct (check_sequence_returns v) as [b ->]. cbn. by destruct b.
Qed.

(** * Signatures *)

Lemma finish_check_good verify success e n s :
  good n s -> returns_such (good (n + 1)) (finish_check verify success e s).
Proof.
  intros Hs. unfold finish_check. interp; [|eapply push_bool_good; [done|lia]].
  eapply good_mono; [done|lia].
Qed.

Lemma delete_signature_returns version sig sub :
  zlen sig <= 520 -> exists r, delete_signature version sig sub = Ok r.
Proof.
  intros Hl. destruct (@Builder.push_data_spec Error.Error Builder.default sig) as (enc & o & Hp & _); [lia|].
  destruct (@Script.find_and_delete_returns Error.Error sub (Builder.default ++ enc)) as (r & Hr & _).
  unfold delete_signature. rewrite Hp. cbn [mbind outcome_bind]. rewrite Hr.
  destruct version; [by eexists..|]. by destruct (Sighash.fork_id _); eexists.
Qed.

Lemma delete_signatures_returns version sigs sub :
  Forall (fun e => zlen e <= 520) sigs -> exists r, delete_signatures version sigs sub = Ok r.
Proof.
  intros Hs. revert sub. induction Hs as [|sig sigs Hl Hs IH]; intros sub; [by eexists|].
  cbn [delete_signatures]. destruct (delete_signature_returns version sig sub Hl) as [r ->]. apply IH.
Qed.

Lemma subscript_returns {E} script from :
  (from <= length script)%nat -> @Script.subscript E script from = Ok (drop from script).
Proof. intros. unfold Script.subscript. by rewrite (proj2 (Nat.leb_le _ _)). Qed.

(** A computation that returns, used for its effect only. *)
Lemma returns_such_seq {A B} (Q : B -> Prop) (m : M A) (f : A -> M B) :
  returns m -> (forall a, returns_such Q (f a)) -> returns_such Q (m ≫= f).
Proof. destruct m; cbn; auto; done. Qed.

Lemma op_checksig_good flags version verify script begin n s :
  verify_low_s flags = false -> (begin <= length script)%nat -> good n s ->
  returns_such (good (n + 3)) (op_checksig flags version verify script begin s).
Proof.
  intros Hlow Hb Hs. unfold op_checksig. do 2 interp_step.
  rewrite subscript_returns by done. cbn [mbind outcome_bind].
  destruct (delete_signature_returns version l1 (drop begin script)) as [r ->]; [done|].
  cbn [mbind outcome_bind]. apply returns_such_seq; [by apply check_signature_encoding_returns|intros _].
  apply returns_such_seq; [apply check_pubkey_encoding_returns|intros _].
  destruct (check_script_signature_returns l1 l r version) as [b ->]. cbn [mbind outcome_bind].
  eapply returns_such_mono; [|by apply finish_check_good]. intros t Ht. eapply good_mono; [done|lia].
Qed.

Lemma op_checkdatasig_good flags version verify n s :
  verify_low_s flags = false -> good n s ->
  returns_such (good (n + 3)) (op_checkdatasig flags version verify s).
Proof.
  intros Hlow Hs. unfold op_checkdatasig. do 3 interp_step.
  apply returns_such_seq; [by apply check_signature_encoding_returns|intros _].
  apply returns_such_seq; [apply check_pubkey_encoding_returns|intros _].
  destruct (verify_data_signature_returns l3 l (sha256 l1)) as [b ->]. cbn [mbind outcome_bind].
  eapply returns_such_mono; [|by apply finish_check_good]. intros t Ht. eapply good_mono; [done|lia].
Qed.

Lemma pop_many_good k n s :
  good n s -> returns_such (fun p : list bytes * list bytes =>
    Forall (fun e => zlen e <= 520) p.1 /\ length p.1 = k /\ good n p.2) (pop_many k s).
Proof.
  revert n s. induction k as [|k IH]; intros n s Hs; [by split|].
  cbn [pop_many]. interp_step. eapply returns_such_bind; [by apply IH|].
  intros [vs s'] (Hvs & Hl & Hs'). cbn in *. split_and!; [by constructor|lia|].
  eapply good_mono; [done|lia].
Qed.

Lemma multisig_loop_returns flags version sub keys sigs fuel k i success :
  verify_low_s flags = false ->
  (k + fuel = length keys)%nat -> (i <= length sigs)%nat -> zlen sigs <= zlen keys <= 2 ^ 62 ->
  (success = true -> (length sigs - i <= length keys - k)%nat) ->
  returns (multisig_loop fuel flags version sub keys sigs k i success).
Proof.
  intros Hlow. revert k i success. induction fuel as [|fuel IH]; intros k i success Hk Hi Hb Hs;
    cbn [multisig_loop]; destruct (_ && _) eqn:E; try done; apply andb_true_iff in E as [E ->];
    apply Nat.ltb_lt in E; specialize (Hs eq_refl); [lia|].
  destruct (lookup_lt_is_Some_2 keys k) as [key Hkey]; [lia|].
  destruct (lookup_lt_is_Some_2 sigs i) as [sig Hsig]; [lia|].
  unfold index. rewrite Hkey, Hsig. cbn [expect mbind outcome_bind].
  apply returns_bind; [by apply check_signature_encoding_returns|intros _ _].
  apply returns_bind; [apply check_pubkey_encoding_returns|intros _ _].
  destruct (check_script_signature_returns sig key sub version) as [b ->]. cbn [mbind outcome_bind].
  rewrite !ucheck_Ok by (unfold uint; destruct b; lia). cbn [mbind outcome_bind].
  apply IH; [lia|destruct b; lia|done|]. intros Hle. bool_prop. destruct b; lia.
Qed.

Lemma op_checkmultisig_good flags version verify script begin n s :
  verify_low_s flags = false -> (begin <= length script)%nat -> good n s -> 0 <= n < 2 ^ 62 ->
  returns_such (good (n + 3)) (op_checkmultisig flags version verify script begin s).
Proof.
  intros Hlow Hb Hs Hn. unfold op_checkmultisig, Script.MAX_PUBKEYS_PER_MULTISIG.
  rewrite from_usize_small by lia. interp_step.
  destruct (_ || _) eqn:Hk; [done|]. bool_prop. rewrite to_usize_small, from_usize_small by lia.
  eapply returns_such_bind; [by apply pop_many_good|]. intros [keys s1] (Hkeys & Hkl & Hs1). cbn [fst snd] in *.
  interp_step. destruct (_ || _) eqn:Hsc; [done|]. bool_prop. rewrite to_usize_small by lia.
  eapply returns_such_bind; [by apply pop_many_good|]. intros [sigs s2] (Hsigs & Hsl & Hs2). cbn [fst snd] in *.
  rewrite subscript_returns by done. cbn [mbind outcome_bind].
  destruct (delete_signatures_returns version sigs (drop begin script) Hsigs) as [sub ->].
  cbn [mbind outcome_bind].
  apply returns_such_seq; [apply multisig_loop_returns; (done || lia)|intros success].
  interp_step. interp_step.
  eapply returns_such_mono; [|by apply finish_check_good]. intros t Ht. eapply good_mono; [done|lia].
Qed.

(** Arithmetic arms: the operands are below [2^31], the results fit an [i64]. *)
Ltac num_arm :=
  first [apply num_unop_good | apply num_binop_good];
  [intros; unfold Num.add, Num.sub, Num.neg, Num.abs;
   try (match goal with |- context [if ?b then _ else _] => destruct b end);
   first [apply scheck_small; lia | apply from_bool_small | cbn; lia]
  |done].

Lemma exec_stack_opcode_good flags o n s :
  good n s -> 1 <= n < 2 ^ 62 -> returns_such (good (n + 3)) (exec_stack_opcode flags o s).
Proof.
  intros Hs Hn. assert (Hs3 : good (n + 3) s) by (eapply good_mono; [done|lia]).
  destruct o; cbn [exec_stack_opcode]; try exact Hs3; try exact I;
    try (destruct (_ : bool); [|exact I]);
    first [ by apply op_nop_good | by apply op_checklocktimeverify_good
          | by apply op_checksequenceverify_good | by apply op_verify_good
          | by apply drop_good | by apply dup_good | by apply over_good | by apply rot_good
          | by apply swap_good | by apply op_ifdup_good | apply op_depth_good; [done|lia]
          | by apply op_drop_good | by apply nip_good | by apply tuck_good
          | apply op_pick_roll_good; [done|lia] | by apply op_size_good | by apply op_equal_good
          | by apply op_equalverify_good | by apply op_numequalverify_good | by apply op_within_good
          | apply op_hash_good; [intros x; autorewrite with rust; lia|done]
          | apply op_cat_good; [done|lia] | apply op_split_good; [done|lia]
          | apply op_bitwise_good; [done|lia] | by apply op_div_good | by apply op_mod_good
          | by apply op_bin2num_good | by apply op_num2bin_good
          | num_arm ].
Qed.

(** * The state invariant *)

(** Element sizes, total stack size, operation count and code positions. *)
Record inv (bound : Z) (script : bytes) (st : state) : Prop := {
  inv_stack : Forall (fun e => zlen e <= 520) (stack st);
  inv_alt : Forall (fun e => zlen e <= 520) (altstack st);
  inv_size : zlen (stack st) + zlen (altstack st) <= bound;
  inv_ops : 0 <= op_count st <= 201;
  inv_begin : (begincode st <= length script)%nat;
  inv_pc : (pc st <= length script)%nat;
}.

(** The parts of the state an opcode arm leaves alone. *)
Definition same_pc (st st' : state) : Prop := pc st' = pc st /\ op_count st' = op_count st.

Lemma inv_good bound script st :
  inv bound script st -> good (bound - zlen (altstack st)) (stack st).
Proof. intros []. split; [done|lia]. Qed.

Lemma on_stack_inv bound script st m :
  inv bound script st -> returns_such (good (bound - zlen (altstack st) + 3)) m ->
  returns_such (fun st' => inv (bound + 3) script st' /\ same_pc st st') (on_stack st m).
Proof.
  intros [] Hm. unfold on_stack. eapply returns_such_bind; [exact Hm|].
  intros s' [H1' H2']. cbn. split; [|done]. split; cbn; (done || lia).
Qed.

Lemma op_if_inv notif executing bound script st :
  inv bound script st ->
  returns_such (fun st' => inv (bound + 3) script st' /\ same_pc st st') (op_if notif executing st).
Proof.
  intros Hi. pose proof (pop_good _ _ (inv_good _ _ _ Hi)) as Hp. destruct Hi. unfold op_if.
  destruct executing; [|cbn; split; [split; cbn; (done || lia)|done]].
  destruct (Stack.pop (stack st)) as [[v s']| | |]; cbn in Hp |- *; try done.
  destruct Hp as (_ & Hs' & Hl). cbn in *. split; [split; cbn; (done || lia)|done].
Qed.

Lemma op_toaltstack_inv bound script st :
  inv bound script st ->
  returns_such (fun st' => inv (bound + 3) script st' /\ same_pc st st') (op_toaltstack st).
Proof.
  intros Hi. unfold op_toaltstack. eapply returns_such_bind; [by eapply pop_good, inv_good|].
  destruct Hi. intros [v s'] (Hv & Hs' & Hl). cbn in *. split; [|done]. split; cbn; try (done || lia).
  - unfold Stack.push. apply Forall_app. split; [done|by repeat constructor].
  - unfold Stack.push. rewrite length_app. cbn. lia.
Qed.

Lemma op_fromaltstack_inv bound script st :
  inv bound script st ->
  returns_such (fun st' => inv (bound + 3) script st' /\ same_pc st st') (op_fromaltstack st).
Proof.
  intros []. unfold op_fromaltstack.
  pose proof (pop_good (zlen (altstack st)) (altstack st)) as Hp.
  assert (good (zlen (altstack st)) (altstack st)) as Ha by (by split). specialize (Hp Ha).
  destruct (Stack.pop (altstack st)) as [[v s']| | |]; cbn in Hp |- *; try done.
  destruct Hp as (Hv & Hs' & Hl). cbn in *. split; [|done]. split; cbn; try (done || lia).
  - unfold Stack.push. apply Forall_app. split; [done|by repeat constructor].
  - unfold Stack.push. rewrite length_app. cbn. lia.
Qed.

Lemma exec_opcode_inv flags version script executing i st bound :
  verify_low_s flags = false -> 1 <= bound - zlen (altstack st) -> bound < 2 ^ 62 ->
  inv bound script st ->
  (forall d, Script.data i = Some d -> zlen d <= 520) ->
  returns_such (fun st' => inv (bound + 3) script st' /\ same_pc st st')
    (exec_opcode flags version script executing i st).
Proof.
  intros Hlow Hb1 Hb2 Hi Hd. unfold exec_opcode.
  assert (Hw : inv (bound + 3) script st) by (destruct Hi; split; (done || lia)).
  pose proof (inv_good _ _ _ Hi) as Hg. pose proof (inv_begin _ _ _ Hi) as Hbc.
  destruct (opcode_leb (Script.opcode i) OP_PUSHDATA4).
  { destruct (Script.data i) as [d|]; [|by split]. cbn. split; [|done].
    specialize (Hd d eq_refl). destruct Hi. split; cbn; unfold Stack.push; try (done || lia).
    - apply Forall_app. split; [done|by repeat constructor].
    - rewrite length_app. cbn. lia. }
  destruct (Script.opcode i);
    try (by apply on_stack_inv, op_push_value_good);
    try (by apply on_stack_inv, op_checksig_good);
    try (apply on_stack_inv, op_checkmultisig_good; (done || lia));
    try (destruct (verify_checkdatasig flags); [by apply on_stack_inv, op_checkdatasig_good|exact I]);
    try (by destruct executing);
    try (apply on_stack_inv, exec_stack_opcode_good; (done || lia));
    [by apply op_if_inv|by apply op_if_inv|..|by apply op_toaltstack_inv|by apply op_fromaltstack_inv|].
  - unfold op_else. destruct (exec_stack st); [done|]. destruct Hw. split; [split; cbn; (done || lia)|done].
  - unfold op_endif. destruct (exec_stack st); [done|]. destruct Hw. split; [split; cbn; (done || lia)|done].
  - destruct Hw. split; [split; cbn; (done || lia)|done].
Qed.

Lemma check_push_returns flags executing i :
  returns_such (fun _ => forall d, Script.data i = Some d -> zlen d <= 520) (check_push flags executing i).
Proof.
  unfold check_push, Script.MAX_SCRIPT_ELEMENT_SIZE. destruct (Script.data i) as [d|]; [|done].
  destruct (_ <? _) eqn:E; [done|]. destruct (_ && _); [done|]. cbn. intros d' [= <-]. bool_prop. done.
Qed.

Lemma count_op_returns o c :
  0 <= c <= 201 -> returns_such (fun c' => 0 <= c' <= 201) (count_op o c).
Proof.
  intros Hc. unfold count_op, Script.MAX_OPS_PER_SCRIPT. destruct (is_countable o); [|done].
  rewrite ucheck_Ok by (unfold uint; lia). cbn. destruct (_ <? _) eqn:E; [done|]. bool_prop. cbn. lia.
Qed.

Lemma eval_step_inv flags version script st bound :
  verify_low_s flags = false -> 1000 <= bound < 2 ^ 61 -> inv bound script st ->
  (pc st < length script)%nat ->
  returns_such (fun st' => inv bound script st' /\ (pc st < pc st')%nat)
    (eval_step flags version script st).
Proof.
  intros Hlow Hb Hi Hpc. unfold eval_step.
  destruct (Script.get_instruction_cases script (pc st) Hpc) as [(i & -> & H1i & H2i)|(e & ->)];
    cbn [match_result]; swap 1 2.
  { destruct e; try exact I. destruct (negb _); [|exact I]. destruct Hi. cbn.
    split; [split; cbn; (done || lia)|lia]. }
  unfold exec_instruction. eapply returns_such_bind; [apply check_push_returns|]. cbn beta. intros _ Hd.
  destruct Hi as [Hs Ha Hsz Hop Hbc Hp].
  eapply returns_such_bind; [by apply count_op_returns|]. cbn beta. intros c Hc.
  destruct (is_disabled _ _); [exact I|].
  destruct (negb _); [cbn; split; [split; cbn; (done || lia)|lia]|].
  eapply returns_such_bind.
  { eapply (exec_opcode_inv _ _ _ _ _ _ (bound + 1)); try done; cbn; try lia.
    split; cbn; (done || lia). }
  intros st' [[Hs' Ha' Hsz' Hop' Hbc' Hp'] [Hpc' Hoc']]. cbn in Hpc', Hoc'.
  destruct (1000 <? _) eqn:E; [exact I|]. bool_prop. cbn. split; [split; (done || lia)|lia].
Qed.

Lemma eval_loop_inv flags version script bound fuel st :
  verify_low_s flags = false -> 1000 <= bound < 2 ^ 61 -> inv bound script st ->
  (length script <= fuel + pc st)%nat ->
  returns_such (inv bound script) (eval_loop fuel flags version script st).
Proof.
  intros Hlow Hb. revert st. induction fuel as [|fuel IH]; intros st Hi Hf; cbn [eval_loop];
    destruct (Nat.ltb_spec (pc st) (length script)); try done; [lia|].
  eapply returns_such_bind; [by apply (eval_step_inv _ _ _ _ bound)|].
  intros st' [Hi' Hlt]. apply IH; [done|lia].
Qed.

Lemma eval_script_good flags version script s bound :
  verify_low_s flags = false -> 1000 <= bound < 2 ^ 61 -> good bound s ->
  returns_such (fun p : bool * list bytes => good bound p.2) (eval_script s script flags version).
Proof.
  intros Hlow Hb [Hs Hl]. unfold eval_script. destruct (_ <? _); [exact I|].
  eapply returns_such_bind.
  { apply (eval_loop_inv _ _ _ bound); [done..| |cbn; lia]. split; cbn; (done || lia). }
  intros st [Hst _ Hsz _ _ _]. destruct (exec_stack st); [|exact I].
  assert (good bound (stack st)) as Hg by (split; [done|lia]).
  pose proof (last_good _ _ Hg) as Hlast.
  destruct (stack st) eqn:Est; [by split; [constructor|cbn; lia]|].
  eapply returns_such_bind; [exact Hlast|]. done.
Qed.

(** * Witness programs and [verify_script] *)

Lemma forall_small (s : list bytes) :
  existsb (fun e => Script.MAX_SCRIPT_ELEMENT_SIZE <? zlen e) s = false ->
  Forall (fun e => zlen e <= 520) s.
Proof.
  unfold Script.MAX_SCRIPT_ELEMENT_SIZE. induction s as [|e s IH]; [constructor|].
  cbn [existsb]. intros H'. apply orb_false_iff in H' as [He Hs]. bool_prop. constructor; auto.
Qed.

Lemma p2wpkh_script_returns program :
  zlen program = 20 -> exists r, p2wpkh_script program = Ok r.
Proof.
  intros Hl. unfold p2wpkh_script.
  destruct (@Builder.push_data_spec Error.Error
    (Builder.push_opcode (Builder.push_opcode Builder.default OP_DUP) OP_HASH160) program)
    as (enc & o & -> & _); [lia|]. by eexists.
Qed.

Lemma verify_witness_program_returns witness wversion program flags :
  verify_low_s flags = false -> zlen witness < 2 ^ 60 ->
  returns (verify_witness_program witness wversion program flags).
Proof.
  intros Hlow Hw. unfold verify_witness_program. destruct (negb (wversion =? 0)).
  { by destruct (verify_discourage_upgradable_witness_program flags). }
  eapply returns_such_returns, (returns_such_bind (fun p : list bytes * bytes => zlen p.1 < 2 ^ 60)).
  - destruct (zlen program =? 32).
    + destruct (last witness) as [pk|] eqn:El; [|exact I]. destruct (negb _); [exact I|]. cbn.
      apply last_Some in El as [w ->]. rewrite removelast_last. rewrite length_app in Hw. lia.
    + destruct (zlen program =? 20) eqn:E20; [|exact I]. bool_prop. destruct (negb _); [exact I|].
      by destruct (p2wpkh_script_returns program E20) as [r ->].
  - intros [s pk] Hs. cbn [fst] in Hs. destruct (existsb _ s) eqn:Ex; [exact I|].
    apply forall_small in Ex.
    eapply returns_such_bind.
    { apply (eval_script_good _ _ _ _ (2 ^ 60)); [done|lia|]. split; [done|lia]. }
    intros [ok s'] _. instantiate (1 := fun _ => True). destruct (negb ok); [exact I|].
    destruct (zlen s' =? 1) eqn:E1; [|exact I]. bool_prop.
    destruct s' as [|v [|]]; cbn in E1; try lia. exact I.
Qed.

Lemma check_witness_returns witness script malleated e flags :
  verify_low_s flags = false -> zlen witness < 2 ^ 60 -> returns malleated ->
  returns (check_witness witness script malleated e flags).
Proof.
  intros Hlow Hw Hm. unfold check_witness. destruct (verify_witness flags); [|exact I].
  destruct (Script.parse_witness_program script) as [[v p]|]; [|exact I].
  apply returns_bind; [done|]. intros bad _. destruct bad; [exact I|].
  apply returns_bind; [by apply verify_witness_program_returns|]. intros ok _. by destruct ok.
Qed.

(** A P2SH script starts with OP_HASH160, which fails on an empty stack. *)
Lemma eval_p2sh_empty_stack script flags version :
  Script.is_pay_to_script_hash script = true ->
  eval_script [] script flags version = Err Error.InvalidStackOperation.
Proof.
  unfold Script.is_pay_to_script_hash. intros Hp. bool_prop.
  apply Builder.byte_is_true in H4. destruct script as [|x script]; [done|]. injection H4 as ->.
  unfold eval_script. rewrite (proj2 (Z.ltb_ge _ _)) by (unfold Script.MAX_SCRIPT_SIZE; lia).
  cbn [length eval_loop pc Nat.ltb Nat.leb]. unfold eval_step.
  change (Script.get_instruction (opcode_byte OP_HASH160 :: script) 0)
    with (@Ok Error.Error _ {| Script.opcode := OP_HASH160; Script.step := 1; Script.data := None |}).
  by destruct flags.
Qed.

Lemma verify_p2sh_script_returns script_sig witness copy flags version :
  verify_low_s flags = false -> zlen witness < 2 ^ 60 -> good 1000 copy -> copy <> [] ->
  returns (verify_p2sh_script script_sig witness copy flags version).
Proof.
  intros Hlow Hw Hc Hne. unfold verify_p2sh_script.
  destruct (@Script.is_push_only_total Error.Error script_sig) as [b ->]. cbn [mbind outcome_bind].
  destruct b; [|exact I]. rewrite bool_decide_false by done. cbn [negb rust_assert mbind outcome_bind].
  eapply returns_such_returns, returns_such_bind; [by apply pop_good|].
  intros [pk s'] [Hpk Hs']. cbn [fst snd] in *.
  eapply returns_such_bind; [apply (eval_script_good _ _ _ _ 1000); [done|lia|]|].
  { eapply good_mono; [done|lia]. }
  intros [res s2] _. destruct (negb res); [exact I|].
  instantiate (1 := fun _ => True). apply returns_such_seq; [|intros; exact I].
  apply check_witness_returns; [done..|].
  destruct (@Builder.push_data_spec Error.Error Builder.default pk) as (enc & o & -> & _); [lia|]. exact I.
Qed.

Lemma verify_script_no_panic script_sig script_pubkey witness flags version :
  verify_low_s flags = false ->
  (verify_cleanstack flags || verify_witness flags = true -> verify_p2sh flags = true) ->
  zlen witness < 2 ^ 60 ->
  returns (verify_script script_sig script_pubkey witness flags version).
Proof.
  intros Hlow Hp2sh Hw. unfold verify_script.
  destruct (@Script.is_push_only_total Error.Error script_sig) as [b Hb]. rewrite Hb.
  apply returns_bind; [by destruct (verify_sigpushonly flags)|]. intros po _. destruct (negb po); [exact I|].
  assert (good 1000 []) as Hnil by (split; [constructor|cbn; lia]).
  eapply returns_such_returns, returns_such_bind.
  { by apply (eval_script_good flags version script_sig [] 1000); [|lia|]. }
  intros [r1 s1] Hs1. cbn [snd] in Hs1.
  destruct (eval_script s1 script_pubkey flags version) as [[res s2]| | |] eqn:Ev; swap 2 3; swap 3 4;
    try (pose proof (eval_script_good flags version script_pubkey s1 1000 Hlow ltac:(lia) Hs1) as Hg;
         rewrite Ev in Hg; contradiction); [|exact I].
  cbn [mbind outcome_bind]. destruct (negb res); [exact I|].
  instantiate (1 := fun _ => True). apply returns_such_seq; [by apply check_witness_returns|intros hw].
  apply returns_such_seq.
  - destruct (verify_p2sh flags && Script.is_pay_to_script_hash script_pubkey) eqn:Ep; [|exact I].
    apply andb_true_iff in Ep as [Ep1 Ep2]. rewrite Ep1. apply verify_p2sh_script_returns; [done..|].
    intros ->. rewrite eval_p2sh_empty_stack in Ev by done. discriminate Ev.
  - intros [hw' s3]. apply returns_such_seq.
    + destruct (verify_cleanstack flags && _) eqn:Ec; [|exact I].
      apply andb_true_iff in Ec as [Ec _]. rewrite Hp2sh by (by rewrite Ec). cbn. by destruct (negb _).
    + intros _. destruct (verify_witness flags) eqn:Ew; [|exact I].
      rewrite Hp2sh by apply orb_true_r. cbn. by destruct (_ && _).
Qed.

End arms.

(** * Reachable states *)

(** The states the loop of [eval_script] goes through. *)
Inductive reachable `{Crypto} `{SignatureChecker} (flags : VerificationFlags)
    (version : SignatureVersion) (script : bytes) (s : list bytes) : state -> Prop :=
| reachable_start : reachable flags version script s (mkState s [] [] 0 0 0)
| reachable_step st st' :
    reachable flags version script s st -> (pc st < length script)%nat ->
    eval_step flags version script st = Ok st' -> reachable flags version script s st'.

Section properties.
Context `{CryptoLaws} `{CheckerReturns}.

(** C9: evaluating any script, on any stack of legal elements, comes back with a
    result or an error: no panic, no overflow, no endless loop, whatever the flags
    but the unimplemented low-S check. *)
Theorem eval_script_returns script s flags version :
  verify_low_s flags = false -> Forall (fun e => zlen e <= 520) s -> zlen s < 2 ^ 60 ->
  returns (eval_script s script flags version).
Proof.
  intros Hlow Hs Hl.
  eapply returns_such_returns, (eval_script_good _ _ _ _ (2 ^ 60)); [done|lia|]. split; [done|lia].
Qed.

(** In every reachable state of the loop the stack elements are at most 520
    bytes, the two stacks together hold at most 1000 elements, the operation count
    is at most 201, and the program counter and the code separator position lie
    within the script. *)
Theorem reachable_limits script s flags version st :
  verify_low_s flags = false -> Forall (fun e => zlen e <= 520) s -> zlen s <= 1000 ->
  reachable flags version script s st ->
  Forall (fun e => zlen e <= 520) (stack st ++ altstack st) /\
  zlen (stack st) + zlen (altstack st) <= 1000 /\ 0 <= op_count st <= 201 /\
  (begincode st <= length script)%nat /\ (pc st <= length script)%nat.
Proof.
  intros Hlow Hs Hl Hr. assert (inv 1000 script st) as [].
  { induction Hr as [|st st' Hr IH Hpc Hstep].
    - split; cbn; (done || lia).
    - pose proof (eval_step_inv flags version script st 1000 Hlow ltac:(lia) IH Hpc) as Hi.
      rewrite Hstep in Hi. apply Hi. }
  split_and!; try done; try lia. by apply Forall_app.
Qed.

(** Verifying an input against an output script never panics: the P2SH
    assertion that the copied stack is non-empty, the flag assertions (given the
    documented dependency of CLEANSTACK and WITNESS on P2SH) and every unwrap are
    unreachable. *)
Theorem verify_script_returns script_sig script_pubkey witness flags version :
  verify_low_s flags = false ->
  (verify_cleanstack flags || verify_witness flags = true -> verify_p2sh flags = true) ->
  zlen witness < 2 ^ 60 ->
  returns (verify_script script_sig script_pubkey witness flags version).
Proof. apply verify_script_no_panic. Qed.

End properties.

(** Witnesses, with the fixed-size example digests and the checker that rejects
    every signature. *)
Section witnesses.
Import ExampleCrypto.
#[local] Instance example_checker : SignatureChecker := NoopSignatureChecker (fun _ _ _ => false).

Lemma eval_script_returns_witness :
  returns (eval_script [] [x51; x63; x52; x67; x53; x68] default_flags Base).
Proof. by apply eval_script_returns. Defined.

Lemma reachable_limits_witness :
  let st := mkState [[x01]; [x02]] [] [] 0 2 0 in
  Forall (fun e => zlen e <= 520) (stack st ++ altstack st) /\
  zlen (stack st) + zlen (altstack st) <= 1000 /\ 0 <= op_count st <= 201 /\
  (begincode st <= length [x51; x52])%nat /\ (pc st <= length [x51; x52])%nat.
Proof.
  apply (reachable_limits [x51; x52] [] default_flags Base); [done..|].
  apply (reachable_step _ _ _ _ (mkState [[x01]] [] [] 0 1 0)); [|cbn; lia|reflexivity].
  apply (reachable_step _ _ _ _ (mkState [] [] [] 0 0 0)); [constructor|cbn; lia|reflexivity].
Defined.

Lemma verify_script_returns_witness :
  returns (verify_script [x51] [x51; x87] [] default_flags Base).
Proof. by apply verify_script_returns. Defined.

End witnesses.
End InterpreterSafety.
