(* ===== verification/InterpreterSpec.v ===== *)
(** Functional behaviour of the interpreter: the loop over a decodable script is a
    run over its instructions, OP_CHECKMULTISIG decides whether the signatures
    match an ordered choice of the keys, a pay-to-public-key-hash spend is valid
    exactly when the key hashes to the address and signs, and the places where the
    code departs from its documentation. *)
From Stdlib Require Import ZArith Lia Strings.Byte.
From stdpp Require Import base decidable numbers list.
From S2P Require Import Prelude Opcode Num Stack Script Builder Crypto Sighash SigEncoding Interpreter.

Local Open Scope Z_scope.

Module InterpreterSpec.
Import SigEncoding Interpreter.

(** * Ordered matching of signatures and keys *)

(** Some subsequence of the keys accepts the signatures one by one. *)
Definition matches (ck : bytes -> bytes -> bool) (sigs keys : list bytes) : Prop :=
  exists ks, ks `sublist_of` keys /\ Forall2 (fun s k => ck s k = true) sigs ks.

Section matching.
Variable ck : bytes -> bytes -> bool.

Lemma matches_nil keys : matches ck [] keys.
Proof. exists []. split; [apply sublist_nil_l|constructor]. Qed.

Lemma matches_length sigs keys : matches ck sigs keys -> (length sigs <= length keys)%nat.
Proof.
  intros (ks & Hs & Hf). apply Forall2_length in Hf. apply sublist_length in Hs. lia.
Qed.

(** Giving the first signature to the first key that accepts it loses nothing. *)
Lemma matches_accept s sigs k keys :
  ck s k = true -> matches ck (s :: sigs) (k :: keys) <-> matches ck sigs keys.
Proof.
  intros Hc. split.
  - intros (ks & Hs & Hf). inversion Hf as [|? k' ? ks' _ Hf']; subst. exists ks'. split; [|done].
    apply sublist_cons_r in Hs as [Hs|(? & [= -> ->] & Hs)]; [|done].
    by apply sublist_cons_l in Hs as (k1 & k2 & -> & Hs); apply sublist_inserts_l, sublist_cons.
  - intros (ks & Hs & Hf). exists (k :: ks). split; [by apply sublist_skip|by constructor].
Qed.

Lemma matches_reject s sigs k keys :
  ck s k = false -> matches ck (s :: sigs) (k :: keys) <-> matches ck (s :: sigs) keys.
Proof.
  intros Hc. split.
  - intros (ks & Hs & Hf). exists ks. split; [|done].
    apply sublist_cons_r in Hs as [Hs|(ks' & -> & Hs)]; [done|].
    inversion Hf; subst. congruence.
  - intros (ks & Hs & Hf). exists ks. split; [by apply sublist_cons|done].
Qed.

End matching.

Section loop.
Context `{SignatureChecker}.
Variables (flags : VerificationFlags) (version : SignatureVersion) (sub : bytes).
Variable ck : bytes -> bytes -> bool.
Hypothesis Hck : forall s k, check_script_signature s k sub version = Ok (ck s k).

Lemma multisig_loop_matches keys sigs fuel k i :
  Forall (fun s => check_signature_encoding s flags version = Ok tt) sigs ->
  Forall (fun p => check_pubkey_encoding p flags = Ok tt) keys ->
  zlen keys < 2 ^ 63 -> zlen sigs < 2 ^ 63 ->
  (k + fuel = length keys)%nat -> (i <= length sigs)%nat ->
  exists b, multisig_loop fuel flags version sub keys sigs k i
      (zlen sigs - Z.of_nat i <=? zlen keys - Z.of_nat k) = Ok b /\
    (b = true <-> matches ck (drop i sigs) (drop k keys)).
Proof.
  intros Hse Hke Hkb Hsb. revert k i. induction fuel as [|fuel IH]; intros k i Hk Hi;
    cbn [multisig_loop]; destruct (Z.leb_spec (zlen sigs - Z.of_nat i) (zlen keys - Z.of_nat k)) as [Hle|Hgt].
  1,3: destruct (Nat.ltb_spec i (length sigs)) as [Hlt|Hge].
  all: cbn [andb].
  1: lia.
  1: exists true; rewrite drop_ge by lia; split; [done|]; split; [intros _; apply matches_nil|done].
  3,4: exists false; rewrite andb_false_r; split; [done|]; split; [done|];
    intros Hm%matches_length; rewrite !length_drop in Hm; lia.
  2: exists true; rewrite drop_ge by lia; split; [done|]; split; [intros _; apply matches_nil|done].
  destruct (lookup_lt_is_Some_2 keys k) as [key Hkey]; [lia|].
  destruct (lookup_lt_is_Some_2 sigs i) as [sig Hsig]; [lia|].
  unfold index. rewrite Hkey, Hsig. cbn [expect mbind outcome_bind].
  rewrite (Forall_lookup_1 _ _ _ _ Hse Hsig), (Forall_lookup_1 _ _ _ _ Hke Hkey), Hck.
  cbn [mbind outcome_bind]. rewrite !ucheck_Ok by (unfold uint; destruct (ck sig key); lia).
  cbn [mbind outcome_bind].
  rewrite (drop_S _ _ _ Hsig), (drop_S _ _ _ Hkey). destruct (ck sig key) eqn:Hc.
  - destruct (IH (k + 1)%nat (i + 1)%nat) as (b & -> & Hb); [lia..|]. exists b. split; [done|].
    rewrite Hb, matches_accept by done. by rewrite !Nat.add_1_r.
  - destruct (IH (k + 1)%nat i) as (b & -> & Hb); [lia..|]. exists b. split; [done|].
    rewrite Hb, matches_reject by done. by rewrite Nat.add_1_r, (drop_S _ _ _ Hsig).
Qed.

End loop.

(** * The loop as a run over instructions *)

Section run.
Context `{Crypto} `{SignatureChecker}.
Variables (flags : VerificationFlags) (version : SignatureVersion) (script : bytes).

Fixpoint run (ins : list Script.Instruction) (st : state) : M state :=
  match ins with
  | [] => Ok st
  | i :: ins' =>
      st ← exec_instruction flags version script (forallb id (exec_stack st)) i st;
      run ins' st
  end.

Lemma on_stack_pc st m st' : on_stack st m = Ok st' -> pc st' = pc st.
Proof. unfold on_stack. intros H1. apply bind_Ok in H1 as (s & _ & H1). by injection H1 as <-. Qed.

Lemma exec_opcode_pc executing i st st' :
  exec_opcode flags version script executing i st = Ok st' -> pc st' = pc st.
Proof.
  unfold exec_opcode. destruct (opcode_leb _ _).
  { destruct (Script.data i); intros [= <-]; done. }
  destruct (Script.opcode i);
    try apply on_stack_pc;
    try (destruct (_ : bool); [apply on_stack_pc|discriminate]);
    try (destruct executing; [discriminate|by intros [= <-]]).
  - unfold op_if. intros H1. apply bind_Ok in H1 as ([b s] & _ & H1). by injection H1 as <-.
  - unfold op_if. intros H1. apply bind_Ok in H1 as ([b s] & _ & H1). by injection H1 as <-.
  - unfold op_else. destruct (exec_stack st); [discriminate|]. by intros [= <-].
  - unfold op_endif. destruct (exec_stack st); [discriminate|]. by intros [= <-].
  - unfold op_toaltstack. intros H1. apply bind_Ok in H1 as ([b s] & _ & H1). by injection H1 as <-.
  - unfold op_fromaltstack. intros H1. apply bind_Ok in H1 as ([b s] & _ & H1). by injection H1 as <-.
  - by intros [= <-].
Qed.

Lemma exec_instruction_pc executing i st st' :
  exec_instruction flags version script executing i st = Ok st' ->
  pc st' = (pc st + Script.step i)%nat.
Proof.
  unfold exec_instruction. intros H1. apply bind_Ok in H1 as (? & _ & H1).
  apply bind_Ok in H1 as (c & _ & H1). destruct (is_disabled _ _); [discriminate|].
  destruct (negb _); [by injection H1 as <-|]. apply bind_Ok in H1 as (st1 & H1 & H2).
  apply exec_opcode_pc in H1. destruct (1000 <? _); [discriminate|]. by injection H2 as <-.
Qed.

(** On a script that decodes, the loop runs the instructions in order. *)
Lemma eval_loop_run ins fuel st :
  Script.decodes script (pc st) ins -> (length ins <= fuel)%nat ->
  eval_loop fuel flags version script st = run ins st.
Proof.
  intros Hd. revert fuel. remember (pc st) as p eqn:Ep. revert st Ep.
  induction Hd as [p Hp|p i ins Hp Hi Hd IH]; intros st -> fuel Hf.
  - destruct fuel; cbn [eval_loop run]; by rewrite (proj2 (Nat.ltb_ge _ _)) by done.
  - destruct fuel as [|fuel]; [cbn in Hf; lia|]. cbn [eval_loop run].
    rewrite (proj2 (Nat.ltb_lt _ _)) by done. unfold eval_step. rewrite Hi. cbn [match_result].
    destruct (exec_instruction _ _ _ _ i st) as [st'| | |] eqn:Ex; try done. cbn [mbind outcome_bind].
    apply exec_instruction_pc in Ex. apply IH; [done|cbn in Hf; lia].
Qed.

Lemma decodes_length pc0 ins :
  Script.decodes script pc0 ins -> (length ins <= length script - pc0)%nat.
Proof.
  induction 1 as [p Hp|p i ins Hp Hi Hd IH]; cbn; [lia|].
  pose proof (Script.get_instruction_step script p Hp) as Hs. rewrite Hi in Hs. cbn in Hs. lia.
Qed.

Lemma eval_script_run ins s :
  Script.decodes script 0 ins -> zlen script <= 10000 ->
  eval_script s script flags version =
  (st ← run ins (mkState s [] [] 0 0 0);
   match exec_stack st with
   | [] => match stack st with
           | [] => Ok (false, [])
           | _ => v ← Stack.last (stack st); Ok (cast_to_bool v, stack st)
           end
   | _ => Err Error.UnbalancedConditional
   end).
Proof.
  intros Hd Hl. unfold eval_script, Script.MAX_SCRIPT_SIZE. rewrite (proj2 (Z.ltb_ge _ _)) by lia.
  rewrite (eval_loop_run ins) by (done || (pose proof (decodes_length _ _ Hd); cbn; lia)). done.
Qed.

End run.

(** * Pay to public key hash *)

Lemma decodes_op o rest ins :
  opcode_leb o OP_PUSHDATA4 = false -> Script.decodes rest 0 ins ->
  Script.decodes (opcode_byte o :: rest) 0
    ({| Script.opcode := o; Script.step := 1; Script.data := None |} :: ins).
Proof.
  intros Ho Hd. apply Script.decodes_step; [cbn; lia| |exact (Script.decodes_shift [opcode_byte o] rest ins Hd)].
  unfold Script.get_instruction, Script.get_opcode. cbn [index lookup list_lookup expect mbind outcome_bind].
  rewrite from_u8_opcode_byte. cbn [ok_or mbind outcome_bind].
  assert (Script.pushdata_len o = None) as -> by (by destruct o).
  unfold opcode_leb in *. bool_prop. rewrite (proj2 (Z.leb_gt _ _)); [done|].
  change (opcode_u8 OP_PUSHDATA4) with 78 in Ho. change (opcode_u8 OP_PUSHBYTES_75) with 75. lia.
Qed.

Lemma decodes_push enc i rest ins :
  Script.get_instruction (enc ++ rest) 0 = Ok i -> Script.step i = length enc ->
  (1 <= length enc)%nat -> Script.decodes rest 0 ins -> Script.decodes (enc ++ rest) 0 (i :: ins).
Proof.
  intros Hi Hs Hl Hd. apply Script.decodes_step; [rewrite length_app; lia|done|].
  rewrite Hs. by apply Script.decodes_shift.
Qed.

Definition push_instr (o : Opcode) (n : nat) (d : bytes) : Script.Instruction :=
  {| Script.opcode := o; Script.step := n; Script.data := Some d |}.
Definition op_instr (o : Opcode) : Script.Instruction :=
  {| Script.opcode := o; Script.step := 1; Script.data := None |}.

Section p2pkh.
Context `{Crypto} `{SignatureChecker}.
Variables (flags : VerificationFlags) (version : SignatureVersion).

(** The push of [d] with [o] passes where pushes have to be minimal. *)
Definition push_passes (d : bytes) (o : Opcode) : Prop := verify_minimaldata flags = true -> check_minimal_push d o = true.

(** A push as the interpreter runs it. *)
Lemma run_push script o n d ins st :
  push_passes d o -> opcode_leb o OP_PUSHDATA4 = true -> zlen d <= 520 ->
  exec_stack st = [] -> zlen (stack st) + zlen (altstack st) < 1000 ->
  run flags version script (push_instr o n d :: ins) st =
  run flags version script ins
    (mkState (stack st ++ [d]) (altstack st) [] (op_count st) (pc st + n) (begincode st)).
Proof.
  intros Hmin Ho Hd Hex Hsz. destruct st as [s alt ex oc p bc]. cbn in Hex, Hsz |- *. subst ex.
  unfold exec_instruction, check_push, Script.MAX_SCRIPT_ELEMENT_SIZE, push_instr.
  cbn [Script.data Script.opcode forallb].
  rewrite (proj2 (Z.ltb_ge _ _)) by lia. cbn [andb].
  assert (verify_minimaldata flags && negb (check_minimal_push d o) = false) as ->.
  { destruct (verify_minimaldata flags) eqn:Hm; [|done]. by rewrite (Hmin Hm). }
  cbn [mbind outcome_bind].
  assert (is_countable o = false) as Hc.
  { unfold is_countable, opcode_ltb, opcode_leb in *. bool_prop.
    change (opcode_u8 OP_PUSHDATA4) with 78 in Ho. apply Z.ltb_ge. change (opcode_u8 OP_16) with 96. lia. }
  unfold count_op. rewrite Hc. cbn [mbind outcome_bind].
  assert (is_disabled o flags = false) as -> by (by destruct o).
  cbn [orb negb]. unfold exec_opcode. cbn [Script.opcode Script.data]. rewrite Ho.
  cbn [mbind outcome_bind set_stack stack altstack]. unfold Stack.push.
  rewrite (proj2 (Z.ltb_ge _ _)) by (rewrite length_app; cbn; lia). done.
Qed.

(** What [push_data] writes is minimal, data of one byte or none apart. *)
Lemma shortest_push_minimal d o :
  2 <= zlen d <= 520 -> Builder.shortest_push d o -> check_minimal_push d o = true.
Proof.
  intros Hd (Ho1 & Ho2 & Ho3). unfold check_minimal_push. destruct d as [|x d]; [cbn in Hd; lia|].
  set (l := x :: d) in *. rewrite (proj2 (Z.eqb_neq (zlen l) 1)) by lia. cbn [andb].
  destruct (Z.leb_spec (zlen l) 75); [rewrite Ho1 by lia; apply Z.eqb_refl|].
  destruct (Z.leb_spec (zlen l) 255); [by rewrite Ho2 by lia|].
  destruct (Z.leb_spec (zlen l) 65535); [by rewrite Ho3 by lia|done].
Qed.

(** The unlocking script: signature and public key. *)
Lemma eval_unlock sig pk :
  (verify_minimaldata flags = true -> 2 <= zlen sig /\ 2 <= zlen pk) ->
  zlen sig <= 520 -> zlen pk <= 520 ->
  exists ssig, (b ← @Builder.push_data Error.Error Builder.default sig; Builder.push_data b pk) = Ok ssig /\
    @Script.is_push_only Error.Error ssig = Ok true /\
    eval_script [] ssig flags version = Ok (cast_to_bool pk, [sig; pk]).
Proof.
  intros Hmin Hs Hp.
  destruct (@Builder.push_data_shortest Error.Error Builder.default sig) as (e1 & o1 & H1 & Hl1 & Ho1 & Hm1 & Hi1); [lia|].
  rewrite H1. cbn [mbind outcome_bind].
  destruct (@Builder.push_data_shortest Error.Error (Builder.default ++ e1) pk) as (e2 & o2 & H2 & Hl2 & Ho2 & Hm2 & Hi2); [lia|].
  assert (push_passes sig o1) by (intros Hf; apply shortest_push_minimal; [|done]; destruct (Hmin Hf); lia).
  assert (push_passes pk o2) by (intros Hf; apply shortest_push_minimal; [|done]; destruct (Hmin Hf); lia).
  rewrite H2. eexists. split; [done|]. change (Builder.default ++ e1) with e1.
  assert (Script.decodes (e1 ++ e2) 0
    [push_instr o1 (length e1) sig; push_instr o2 (length e2) pk]) as Hd.
  { apply decodes_push; [apply Hi1|done|lia|]. rewrite <- (app_nil_r e2) at 1.
    apply decodes_push; [apply Hi2|done|lia|]. by constructor. }
  split.
  - unfold Script.is_push_only.
    destruct (@Script.is_push_only_loop_spec Error.Error (e1 ++ e2) (S (length (e1 ++ e2))) 0)
      as (b & -> & Hb); [lia|].
    assert (forall o, opcode_leb o OP_PUSHDATA4 = true -> opcode_leb o OP_16 = true) as Hle.
    { unfold opcode_leb. intros o Ho. bool_prop. apply Z.leb_le.
      change (opcode_u8 OP_PUSHDATA4) with 78 in Ho. change (opcode_u8 OP_16) with 96. lia. }
    f_equal. apply Hb. eexists. split; [exact Hd|]. repeat constructor; cbn; auto.
  - rewrite (eval_script_run _ _ _ _ _ Hd) by (rewrite length_app; lia).
    rewrite run_push, run_push by (done || cbn; lia). done.
Qed.

(** An executed opcode that counts. *)
Lemma run_op script o ins st :
  is_countable o = true -> is_disabled o flags = false -> exec_stack st = [] ->
  0 <= op_count st < 201 ->
  run flags version script (op_instr o :: ins) st =
  (st' ← exec_opcode flags version script true (op_instr o)
     (mkState (stack st) (altstack st) [] (op_count st + 1) (pc st + 1) (begincode st));
   if 1000 <? zlen (stack st') + zlen (altstack st') then Err Error.StackSize
   else run flags version script ins st').
Proof.
  intros Hc Hd Hex Hop. cbn [run]. rewrite Hex. cbn [forallb]. unfold exec_instruction, check_push, op_instr.
  cbn [Script.data Script.opcode Script.step mbind outcome_bind]. unfold count_op.
  rewrite Hc, ucheck_Ok by (unfold uint; lia). cbn [mbind outcome_bind].
  unfold Script.MAX_OPS_PER_SCRIPT. rewrite (proj2 (Z.ltb_ge _ _)) by lia. cbn [mbind outcome_bind].
  rewrite Hd, Hex. cbn [orb negb].
  destruct (exec_opcode _ _ _ _ _ _) as [st'| | |]; cbn; [|done..]. by destruct (1000 <? _).
Qed.

Lemma p2pkh_decodes h :
  length h = 20%nat ->
  @Builder.build_p2pkh Error.Error h = Ok ([x76; xa9; x14] ++ h ++ [x88; xac]) /\
  Script.decodes ([x76; xa9; x14] ++ h ++ [x88; xac]) 0
    [op_instr OP_DUP; op_instr OP_HASH160; push_instr OP_PUSHBYTES_20 21 h;
     op_instr OP_EQUALVERIFY; op_instr OP_CHECKSIG].
Proof.
  intros Hh. split.
  { unfold Builder.build_p2pkh, Builder.push_bytes. rewrite Builder.direct_push_20 by done.
    cbn. f_equal. by rewrite <- app_assoc. }
  apply (decodes_op OP_DUP); [done|]. apply (decodes_op OP_HASH160); [done|].
  change (x14 :: h ++ [x88; xac]) with (([x14] ++ h) ++ [x88; xac]).
  destruct (Builder.decode_direct x14 h [x88; xac]) as (o & Ho & Hi); [lia|by rewrite Hh|].
  assert (o = OP_PUSHBYTES_20) as -> by (by apply (inj opcode_byte)).
  apply decodes_push; [|cbn; lia..|].
  { rewrite Hi. cbn. by rewrite Hh. }
  apply (decodes_op OP_EQUALVERIFY); [done|]. apply (decodes_op OP_CHECKSIG); [done|].
  constructor. cbn. lia.
Qed.

(** The signature check at the end of the locking script. *)
Definition check_spend (sig pk script : bytes) : M bool :=
  sub ← delete_signature version sig script;
  _ ← check_signature_encoding sig flags version;
  _ ← check_pubkey_encoding pk flags;
  check_script_signature sig pk sub version.

Lemma exec_checksig sig pk script st :
  stack st = [sig; pk] -> begincode st = 0%nat ->
  exec_opcode flags version script true (op_instr OP_CHECKSIG) st =
  (ok ← check_spend sig pk script; Ok (set_stack st [if ok : bool then [x01] else []])).
Proof.
  intros Hs Hb. unfold exec_opcode. cbn [Script.opcode op_instr].
  change (opcode_leb OP_CHECKSIG OP_PUSHDATA4) with false. cbn iota. rewrite Hs, Hb.
  unfold on_stack, op_checksig. cbn [Stack.pop Stack.last list.last ok_or mbind outcome_bind removelast].
  unfold Script.subscript. cbn [Nat.leb mbind outcome_bind drop]. unfold check_spend.
  destruct (delete_signature _ _ _); cbn [mbind outcome_bind]; [|done..].
  destruct (check_signature_encoding _ _ _); cbn [mbind outcome_bind]; [|done..].
  destruct (check_pubkey_encoding _ _); cbn [mbind outcome_bind]; [|done..].
  by destruct (check_script_signature _ _ _ _).
Qed.

Lemma eval_p2pkh h sig pk :
  length h = 20%nat ->
  eval_script [sig; pk] ([x76; xa9; x14] ++ h ++ [x88; xac]) flags version =
  if bool_decide (dhash160 pk = h) then
    ok ← check_spend sig pk ([x76; xa9; x14] ++ h ++ [x88; xac]);
    Ok (ok, [if ok : bool then [x01] else []])
  else Err Error.EqualVerify.
Proof.
  intros Hh. rewrite (eval_script_run _ _ _ _ _ (proj2 (p2pkh_decodes h Hh)))
    by (rewrite !length_app, Hh; cbn; lia).
  set (script := [x76; xa9; x14] ++ h ++ [x88; xac]). clearbody script.
  rewrite run_op by done. cbn [exec_opcode op_instr Script.opcode].
  change (exec_opcode flags version script true _ _) with
    (@Ok Error.Error _ (mkState [sig; pk; pk] [] [] 1 1 0)). cbn [mbind outcome_bind].
  change (1000 <? _) with false. cbn iota. rewrite run_op by done.
  change (exec_opcode flags version script true _ _) with
    (@Ok Error.Error _ (mkState [sig; pk; dhash160 pk] [] [] 2 2 0)). cbn [mbind outcome_bind].
  change (1000 <? _) with false. cbn iota.
  assert (push_passes h OP_PUSHBYTES_20).
  { intros _. apply shortest_push_minimal; [lia|]. split_and!; intros; [by rewrite Hh|lia..]. }
  rewrite run_push by (done || cbn; lia).
  cbn [stack altstack op_count pc begincode app]. rewrite run_op by done.
  assert (exec_opcode flags version script true (op_instr OP_EQUALVERIFY)
    (mkState [sig; pk; dhash160 pk; h] [] [] (2 + 1) (2 + 21 + 1) 0) =
    if bool_decide (dhash160 pk = h) then Ok (mkState [sig; pk] [] [] 3 24 0) else Err Error.EqualVerify)
    as Heq.
  { unfold exec_opcode. cbn. destruct (bool_decide_reflect (h = dhash160 pk)) as [->|Hn].
    - by rewrite bool_decide_true.
    - by rewrite bool_decide_false by congruence. }
  cbn [stack altstack op_count pc begincode]. rewrite Heq.
  destruct (bool_decide _); [|done]. cbn [mbind outcome_bind].
  change (1000 <? _) with false. cbn iota. rewrite run_op by done.
  rewrite (exec_checksig sig pk) by done. destruct (check_spend _ _ _) as [[]| | |]; done.
Qed.

End p2pkh.

(** A pay-to-public-key-hash script is not a witness program. *)
Lemma p2pkh_not_witness h :
  length h = 20%nat -> Script.parse_witness_program ([x76; xa9; x14] ++ h ++ [x88; xac]) = None.
Proof. intros Hh. cbn [app Script.parse_witness_program]. by destruct (_ || _). Qed.

Lemma p2pkh_verify `{Crypto} `{SignatureChecker} flags version sig pk h :
  (verify_minimaldata flags = true -> 2 <= zlen sig /\ 2 <= zlen pk) ->
  (verify_cleanstack flags || verify_witness flags = true -> verify_p2sh flags = true) ->
  length h = 20%nat -> zlen sig <= 520 -> zlen pk <= 520 ->
  exists script_sig script_pubkey,
    (b ← @Builder.push_data Error.Error Builder.default sig; Builder.push_data b pk) = Ok script_sig /\
    @Builder.build_p2pkh Error.Error h = Ok script_pubkey /\
    verify_script script_sig script_pubkey [] flags version =
    if bool_decide (dhash160 pk = h) then
      ok ← check_spend flags version sig pk script_pubkey;
      if ok : bool then Ok tt else Err Error.EvalFalse
    else Err Error.EqualVerify.
Proof.
  intros Hmin Hp2sh Hh Hs Hp.
  destruct (eval_unlock flags version sig pk Hmin Hs Hp) as (ssig & E1 & Epush & E2).
  destruct (p2pkh_decodes h Hh) as [E3 _]. do 2 eexists. split; [exact E1|]. split; [exact E3|].
  unfold verify_script. rewrite Epush, E2. cbn [mbind outcome_bind].
  rewrite (eval_p2pkh flags version h sig pk Hh).
  assert (forall b : bool, (if b then @Ok Error.Error bool true else Ok true) = Ok true) as -> by (by intros []).
  cbn [mbind outcome_bind negb].
  destruct (bool_decide (dhash160 pk = h)); [|done].
  destruct (check_spend _ _ _ _ _) as [[]| | |]; cbn [mbind outcome_bind negb]; try done.
  unfold check_witness. rewrite p2pkh_not_witness by done.
  assert (forall b : bool, (if b then @Ok Error.Error bool false else Ok false) = Ok false) as -> by (by intros []).
  unfold Script.is_pay_to_script_hash. rewrite !length_app, Hh. cbn. rewrite andb_false_r. cbn.
  destruct (verify_p2sh flags), (verify_cleanstack flags), (verify_witness flags); cbn in Hp2sh |- *;
    done || by specialize (Hp2sh eq_refl).
Qed.

(** * Arithmetic *)

(** [d] is a four-byte encoding of [v]. *)
Definition encodes (d : bytes) (v : Z) : Prop := @Num.to_bytes Error.Error v = Ok d /\ Z.abs v < 2 ^ 31.

Lemma pop_num_encoded flags s d v : encodes d v -> pop_num flags (s ++ [d]) = Ok (v, s).
Proof.
  intros [Hd Hv]. unfold pop_num. rewrite Stack.pop_snoc. cbn [mbind outcome_bind].
  destruct (@Num.to_bytes_minimal Error.Error v) as (d' & Hd' & Hmin & Hnv); [unfold sint; lia|lia|].
  rewrite Hd in Hd'. injection Hd' as <-.
  rewrite Num.from_slice_spec; [by rewrite Hmin, andb_false_r, Hnv| |lia].
  apply Num.minimal_length_le; [done|lia|]. rewrite Hnv. lia.
Qed.

Lemma pop_num_encoded2 flags s d1 d2 v1 v2 :
  encodes d1 v1 -> encodes d2 v2 ->
  pop_num flags (s ++ [d2; d1]) = Ok (v1, s ++ [d2]) /\ pop_num flags (s ++ [d2]) = Ok (v2, s).
Proof. intros. rewrite snoc2. split; by apply pop_num_encoded. Qed.

Lemma num_binop_encoded flags f s d1 d2 v1 v2 r :
  encodes d1 v1 -> encodes d2 v2 -> f v1 v2 = Ok r ->
  num_binop flags f (s ++ [d2; d1]) = push_num s r.
Proof.
  intros H1 H2 Hf. destruct (pop_num_encoded2 flags s d1 d2 v1 v2 H1 H2) as [E1 E2].
  unfold num_binop. rewrite E1. cbn [mbind outcome_bind]. rewrite E2. cbn [mbind outcome_bind].
  by rewrite Hf.
Qed.

Lemma num_unop_encoded flags f s d v r :
  encodes d v -> f v = Ok r -> num_unop flags f (s ++ [d]) = push_num s r.
Proof.
  intros H1 Hf. unfold num_unop. rewrite (pop_num_encoded flags s d v H1). cbn [mbind outcome_bind].
  by rewrite Hf.
Qed.

(** * Properties *)

(** On a script that decodes, [eval_script] is the run of its instructions in
    order followed by the balance check and the cast of the top element. *)
Theorem eval_script_runs_instructions `{Crypto} `{SignatureChecker} flags version script ins s :
  Script.decodes script 0 ins -> zlen script <= 10000 ->
  eval_script s script flags version =
  (st ← run flags version script ins (mkState s [] [] 0 0 0);
   match exec_stack st with
   | [] => match stack st with
           | [] => Ok (false, [])
           | _ => v ← Stack.last (stack st); Ok (cast_to_bool v, stack st)
           end
   | _ => Err Error.UnbalancedConditional
   end).
Proof. apply eval_script_run. Qed.

(** C27: the key loop of OP_CHECKMULTISIG, which tries each key once, answers [true]
    exactly when the signatures match some choice of the keys in order: trying the
    first accepting key loses no solution, and giving up early when too few keys
    remain rejects none. *)
Theorem multisig_loop_spec `{SignatureChecker} flags version sub keys sigs ck :
  (forall s k, check_script_signature s k sub version = Ok (ck s k)) ->
  Forall (fun s => check_signature_encoding s flags version = Ok tt) sigs ->
  Forall (fun p => check_pubkey_encoding p flags = Ok tt) keys ->
  zlen sigs <= zlen keys <= 20 ->
  exists b, multisig_loop (length keys) flags version sub keys sigs 0 0 true = Ok b /\
    (b = true <-> exists ks, ks `sublist_of` keys /\ Forall2 (fun s k => ck s k = true) sigs ks).
Proof.
  intros Hck Hs Hk Hl.
  destruct (multisig_loop_matches flags version sub ck Hck keys sigs (length keys) 0 0) as (b & Hb & Hm);
    try (done || lia).
  rewrite (proj2 (Z.leb_le _ _)) in Hb by lia. eauto.
Qed.

(** C28: spending a pay-to-public-key-hash output.  With the unlocking script that
    pushes a signature and a key of at most 520 bytes, and no witness,
    [verify_script] succeeds exactly when the key hashes to the address and the
    signature check of the (signature-stripped) locking script accepts; a wrong key is
    reported as [EqualVerify], a wrong signature as [EvalFalse], and errors of the
    encoding checks are passed on.  The flags are arbitrary, but CLEANSTACK and WITNESS
    come with P2SH, without which the code panics, and where pushes have to be minimal
    the signature and the key have two bytes or more. *)
Theorem p2pkh_spend `{Crypto} `{SignatureChecker} flags version sig pk h :
  (verify_minimaldata flags = true -> 2 <= zlen sig /\ 2 <= zlen pk) ->
  (verify_cleanstack flags || verify_witness flags = true -> verify_p2sh flags = true) ->
  length h = 20%nat -> zlen sig <= 520 -> zlen pk <= 520 ->
  exists script_sig script_pubkey,
    (b ← @Builder.push_data Error.Error Builder.default sig; Builder.push_data b pk) = Ok script_sig /\
    @Builder.build_p2pkh Error.Error h = Ok script_pubkey /\
    verify_script script_sig script_pubkey [] flags version =
    if bool_decide (dhash160 pk = h) then
      ok ← check_spend flags version sig pk script_pubkey;
      if ok : bool then Ok tt else Err Error.EvalFalse
    else Err Error.EqualVerify.
Proof. apply p2pkh_verify. Qed.

(** The two-operand arithmetic opcodes on encoded numbers [a] below [b] compute
    in the order of the script: [a b OP_SUB] is [a - b], [a b OP_LESSTHAN] is
    [a < b], and so on; the result is pushed in its minimal encoding. *)
Theorem binary_arithmetic flags s da db a b :
  encodes da a -> encodes db b ->
  op_add flags (s ++ [da; db]) = push_num s (a + b) /\
  op_sub flags (s ++ [da; db]) = push_num s (a - b) /\
  op_min flags (s ++ [da; db]) = push_num s (Z.min a b) /\
  op_max flags (s ++ [da; db]) = push_num s (Z.max a b) /\
  op_numequal flags (s ++ [da; db]) = push_num s (Num.from_bool (a =? b)) /\
  op_lessthan flags (s ++ [da; db]) = push_num s (Num.from_bool (a <? b)) /\
  op_greaterthan flags (s ++ [da; db]) = push_num s (Num.from_bool (b <? a)) /\
  op_lessthanorequal flags (s ++ [da; db]) = push_num s (Num.from_bool (a <=? b)) /\
  op_greaterthanorequal flags (s ++ [da; db]) = push_num s (Num.from_bool (b <=? a)) /\
  op_booland flags (s ++ [da; db]) = push_num s (Num.from_bool (negb (a =? 0) && negb (b =? 0))) /\
  op_boolor flags (s ++ [da; db]) = push_num s (Num.from_bool (negb (a =? 0) || negb (b =? 0))).
Proof.
  intros Ha Hb. pose proof (proj2 Ha). pose proof (proj2 Hb).
  split_and!; eapply num_binop_encoded; try done;
    try (unfold Num.add, Num.sub; rewrite scheck_Ok by (unfold sint; lia); f_equal; lia).
  - by rewrite Z.min_comm.
  - by rewrite Z.max_comm.
  - by rewrite Z.eqb_sym.
  - unfold Num.is_zero. by rewrite andb_comm.
  - unfold Num.is_zero. by rewrite orb_comm.
Qed.

(** OP_DIV and OP_MOD take their operands in the other order than the rest of
    the arithmetic: [a b OP_DIV] computes [b / a] and fails when [a], not [b], is
    zero. *)
Theorem div_mod_operand_order flags s da db a b :
  encodes da a -> encodes db b ->
  op_div flags (s ++ [da; db]) =
    (if a =? 0 then Err Error.DivisionByZero else push_num s (Z.quot b a)) /\
  op_mod flags (s ++ [da; db]) =
    (if a =? 0 then Err Error.DivisionByZero else push_num s (Z.rem b a)).
Proof.
  intros Ha Hb. destruct (pop_num_encoded2 flags s db da b a Hb Ha) as [E1 E2].
  unfold op_div, op_mod, Num.is_zero, Num.div, Num.rem.
  rewrite E1. cbn [mbind outcome_bind]. rewrite E2. cbn [mbind outcome_bind].
  destruct (a =? 0) eqn:E0; [done|]. bool_prop.
  assert (sint 64 (Z.quot b a)) as Hq.
  { destruct Hb as [_ Hb]. pose proof (Z.quot_abs b a E0) as Hqa. rewrite Z.quot_div_nonneg in Hqa by lia.
    assert (Z.abs b / Z.abs a <= Z.abs b) by (apply Z.div_le_upper_bound; nia). unfold sint. lia. }
  by rewrite scheck_Ok by done.
Qed.

(** Witnesses: example digests, and a checker that accepts a key as its own
    signature. *)
Section witnesses.
Import ExampleCrypto.
#[local] Instance self_checker : SignatureChecker := {|
  verify_signature _ _ _ := Ok false;
  check_signature sig public _ _ _ := Ok (bool_decide (sig = public));
  check_lock_time _ := Ok false;
  check_sequence _ := Ok false;
|}.

Definition key (b : byte) : bytes := replicate 33 b.

Lemma eval_script_runs_instructions_witness :
  eval_script [] [x51; x76] default_flags Base =
  (st ← run default_flags Base [x51; x76] [op_instr OP_1; op_instr OP_DUP] (mkState [] [] [] 0 0 0);
   match exec_stack st with
   | [] => match stack st with
           | [] => Ok (false, [])
           | _ => v ← Stack.last (stack st); Ok (cast_to_bool v, stack st)
           end
   | _ => Err Error.UnbalancedConditional
   end).
Proof.
  apply eval_script_runs_instructions; [|cbn; lia].
  apply (decodes_op OP_1); [done|]. apply (decodes_op OP_DUP); [done|]. constructor. cbn. lia.
Defined.

Lemma multisig_loop_spec_witness :
  exists b, multisig_loop 3 default_flags Base [] [key x02; key x03; key x04]
      [key x02 ++ [x01]; key x04 ++ [x01]] 0 0 true = Ok b /\
    (b = true <-> exists ks, ks `sublist_of` [key x02; key x03; key x04] /\
       Forall2 (fun s k => match Script.public_from_slice k with
                           | Ok p => match last s with
                                     | Some _ => bool_decide (removelast s = p)
                                     | None => false
                                     end
                           | _ => false
                           end = true) [key x02 ++ [x01]; key x04 ++ [x01]] ks).
Proof.
  apply (multisig_loop_spec default_flags Base [] [key x02; key x03; key x04]
    [key x02 ++ [x01]; key x04 ++ [x01]]
    (fun s k => match Script.public_from_slice k with
                | Ok p => match last s with
                          | Some _ => bool_decide (removelast s = p)
                          | None => false
                          end
                | _ => false
                end)).
  - intros s k. unfold check_script_signature. destruct (Script.public_from_slice k); [|done..].
    by destruct (last s).
  - by repeat constructor.
  - by repeat constructor.
  - cbn. lia.
Defined.

Lemma p2pkh_spend_witness :
  exists script_sig script_pubkey,
    (b ← @Builder.push_data Error.Error Builder.default (key x02 ++ [x01]);
     Builder.push_data b (key x02)) = Ok script_sig /\
    @Builder.build_p2pkh Error.Error (replicate 20 x02) = Ok script_pubkey /\
    verify_script script_sig script_pubkey [] default_flags Base =
    if bool_decide (dhash160 (key x02) = replicate 20 x02) then
      ok ← check_spend default_flags Base (key x02 ++ [x01]) (key x02) script_pubkey;
      if ok : bool then Ok tt else Err Error.EvalFalse
    else Err Error.EqualVerify.
Proof. apply p2pkh_spend; try reflexivity; vm_compute; try congruence. all: intros; discriminate. Defined.

Lemma binary_arithmetic_witness :
  op_sub default_flags ([] ++ [[x07]; [x09]]) = push_num [] (-2).
Proof. by apply (binary_arithmetic default_flags [] [x07] [x09] 7 9). Defined.

Lemma div_mod_operand_order_witness :
  op_div default_flags ([] ++ [[x05]; [x0d]]) = push_num [] 2.
Proof. by apply (div_mod_operand_order default_flags [] [x05] [x0d] 5 13). Defined.

End witnesses.

End InterpreterSpec.
