(* ===== verification/Serialization.v ===== *)
(** Serialization of Bitcoin structures (src/serialization/src): the output
    [Stream] (stream.rs), the [Reader] with its one peeked byte (reader.rs),
    variable-length integers (compact_integer.rs), and the encodings of integers,
    hashes, byte strings and lists (impls.rs, list.rs).  A reader reads a slice of
    bytes; the traits [Serializable] and [Deserializable] of a type are a [Codec]
    record, its laws a class. *)
From Stdlib Require Import ZArith Lia Strings.Byte.
From stdpp Require Import base decidable numbers list.
From S2P Require Import Prelude.

Local Open Scope Z_scope.

Module Ser.

(** * The stream (stream.rs) *)

Definition SERIALIZE_TRANSACTION_WITNESS : Z := 1073741824.

Record Stream := mkStream { stream_buffer : bytes; stream_flags : Z }.

Definition stream_default : Stream := mkStream [] 0.
Definition with_flags (flags : Z) : Stream := mkStream [] flags.

Definition include_transaction_witness (s : Stream) : bool :=
  negb (Z.land (stream_flags s) SERIALIZE_TRANSACTION_WITNESS =? 0).

Definition append_slice (bs : bytes) (s : Stream) : Stream :=
  mkStream (stream_buffer s ++ bs) (stream_flags s).

Definition out (s : Stream) : bytes := stream_buffer s.

(** * The reader (reader.rs) *)

Inductive ReaderError := MalformedData | UnexpectedEnd | UnreadData.

Record Reader := mkReader { buffer : bytes; peeked : option byte }.

Definition reader_new (b : bytes) : Reader := mkReader b None.

(** The bytes still to be read. *)
Definition pending (r : Reader) : bytes :=
  match peeked r with Some p => p :: buffer r | None => buffer r end.

(** A reading computation. *)
Abbreviation rd A := (Reader -> outcome ReaderError (A * Reader)).

(** [io::Read::read] into a buffer of [n] bytes: the peeked byte first, then as much
    of the slice as fits. *)
Definition read_some (r : Reader) (n : Z) : bytes * Reader :=
  match peeked r with
  | None =>
      let k := Z.to_nat (Z.min n (zlen (buffer r))) in
      (take k (buffer r), mkReader (drop k (buffer r)) None)
  | Some p =>
      if n =? 0 then ([], r)
      else
        let k := Z.to_nat (Z.min (n - 1) (zlen (buffer r))) in
        (p :: take k (buffer r), mkReader (drop k (buffer r)) None)
  end.

(** [io::Read::read_exact]: read until the buffer is full or nothing comes.  On a
    slice the first round reads all there is, so two rounds decide. *)
Fixpoint read_exact (fuel : nat) (r : Reader) (n : Z) (acc : bytes)
    : outcome ReaderError (bytes * Reader) :=
  if n =? 0 then Ok (acc, r)
  else match fuel with
       | O => Diverge
       | S fuel' =>
           let '(got, r') := read_some r n in
           match got with
           | [] => Err UnexpectedEnd
           | _ => read_exact fuel' r' (n - zlen got) (acc ++ got)
           end
       end.

Definition read_slice (n : Z) : rd bytes := fun r => read_exact 2 r n [].

(** The reader's state is unchanged by a successful peek, up to [pending]. *)
Definition is_finished (r : Reader) : outcome ReaderError (bool * Reader) :=
  match peeked r with
  | Some _ => Ok (false, r)
  | None =>
      match read_slice 1 r with
      | Ok ([p], r') => Ok (false, mkReader (buffer r') (Some p))
      | Ok (_, r') => Ok (false, r')
      | Err _ => Ok (true, mkReader [] None)
      | Panic => Panic
      | Diverge => Diverge
      end
  end.

(** [skip_while]: each round consumes a byte. *)
Fixpoint skip_while_loop (fuel : nat) (predicate : byte -> bool) (r : Reader)
    : outcome ReaderError Reader :=
  match fuel with
  | O => Diverge
  | S fuel' =>
      match pending r with
      | [] => Ok (mkReader [] None)
      | next :: rest =>
          if negb (predicate next) then Ok (mkReader rest (Some next))
          else skip_while_loop fuel' predicate (mkReader rest None)
      end
  end.

Definition skip_while (predicate : byte -> bool) (r : Reader) : outcome ReaderError Reader :=
  skip_while_loop (S (length (pending r))) predicate r.

(** * Codecs *)

(** The two traits of a type: [Serializable] and [Deserializable], and the size in
    memory that [Vec::with_capacity] multiplies. *)
Record Codec (A : Type) := mkCodec {
  serialize : A -> Stream -> Stream;
  serialized_size : A -> Z;
  deserialize : rd A;
  size_of : Z;
}.
Arguments serialize {A}.
Arguments serialized_size {A}.
Arguments deserialize {A}.
Arguments size_of {A}.

(** [Stream::append], and the functions [serialize] and [serialize_with_flags]. *)
Definition append {A} (c : Codec A) (x : A) (s : Stream) : Stream := serialize c x s.
Definition to_bytes_with_flags {A} (c : Codec A) (flags : Z) (x : A) : bytes :=
  out (append c x (with_flags flags)).
Definition to_bytes {A} (c : Codec A) (x : A) : bytes := out (append c x stream_default).

(** The function [deserialize]: the whole input must be consumed. *)
Definition from_bytes_of {A} (de : rd A) (buffer : bytes) : outcome ReaderError A :=
  '(x, r) ← de (reader_new buffer);
  '(finished, _) ← is_finished r;
  if finished : bool then Ok x else Err UnreadData.

Definition from_bytes {A} (c : Codec A) : bytes -> outcome ReaderError A := from_bytes_of (deserialize c).

(** * Integers, hashes and compact integers *)

(** The byteorder package writes and reads little-endian integers of [n] bytes;
    signed ones in two's complement. *)
Definition uint_codec (n : nat) : Codec Z := {|
  serialize := fun (z : Z) (s : Stream) => append_slice (le_bytes n z) s;
  serialized_size := fun _ => Z.of_nat n;
  deserialize := fun r : Reader => '(bs, r) ← read_slice (Z.of_nat n) r; Ok (le_value bs, r);
  size_of := Z.of_nat n;
|}.
Definition sint_codec (n : nat) : Codec Z := {|
  serialize := fun (z : Z) (s : Stream) => append_slice (le_bytes n z) s;
  serialized_size := fun _ => Z.of_nat n;
  deserialize := fun r : Reader => '(bs, r) ← read_slice (Z.of_nat n) r; Ok (swrap (8 * Z.of_nat n) (le_value bs), r);
  size_of := Z.of_nat n;
|}.

Definition u8_codec := uint_codec 1.
Definition u16_codec := uint_codec 2.
Definition u32_codec := uint_codec 4.
Definition u64_codec := uint_codec 8.
Definition i32_codec := sint_codec 4.
Definition i64_codec := sint_codec 8.

Definition bool_codec : Codec bool := {|
  serialize := fun (b : bool) (s : Stream) => append_slice [if b then x01 else x00] s;
  serialized_size := fun _ => 1;
  deserialize := fun r : Reader =>
    '(v, r) ← deserialize u8_codec r;
    if v =? 0 then Ok (false, r) else if v =? 1 then Ok (true, r) else Err MalformedData;
  size_of := 1;
|}.

(** [impl_ser_for_hash!]. *)
Definition hash_codec (n : nat) : Codec bytes := {|
  serialize := fun (h : bytes) (s : Stream) => append_slice h s;
  serialized_size := fun _ => Z.of_nat n;
  deserialize := read_slice (Z.of_nat n);
  size_of := Z.of_nat n;
|}.

Definition compact_integer_codec : Codec Z := {|
  serialize := fun (i : Z) (s : Stream) =>
    if i <=? 252 then append u8_codec (wrap 8 i) s
    else if i <=? 65535 then append u16_codec (wrap 16 i) (append u8_codec 253 s)
    else if i <=? 4294967295 then append u32_codec (wrap 32 i) (append u8_codec 254 s)
    else append u64_codec i (append u8_codec 255 s);
  serialized_size := fun i : Z =>
    if i <=? 252 then 1 else if i <=? 65535 then 3 else if i <=? 4294967295 then 5 else 9;
  deserialize := fun r : Reader =>
    '(i, r) ← deserialize u8_codec r;
    if i <=? 252 then Ok (i, r)
    else if i =? 253 then deserialize u16_codec r
    else if i =? 254 then deserialize u32_codec r
    else deserialize u64_codec r;
  size_of := 8;
|}.

(** * Byte strings and lists *)

(** [Vec::with_capacity(len)] and [vec![0; len]]: a capacity overflow panics. *)
Definition isize_max : Z := 2 ^ 63 - 1.
Definition with_capacity {E} (len size : Z) : outcome E unit :=
  rust_assert (len * size <=? isize_max).

Definition bytes_codec : Codec bytes := {|
  serialize := fun (b : bytes) (s : Stream) => append_slice b (append compact_integer_codec (zlen b) s);
  serialized_size := fun b : bytes => serialized_size compact_integer_codec (zlen b) + zlen b;
  deserialize := fun r : Reader =>
    '(len, r) ← deserialize compact_integer_codec r;
    _ ← with_capacity len 1;
    read_slice len r;
  size_of := 24;
|}.

(** [Stream::append_list]. *)
Definition append_list {A} (c : Codec A) (t : list A) (s : Stream) : Stream :=
  foldl (fun s i => serialize c i s) (append compact_integer_codec (zlen t) s) t.

Definition serialized_list_size {A} (c : Codec A) (t : list A) : Z :=
  serialized_size compact_integer_codec (zlen t) + foldr Z.add 0 (map (serialized_size c) t).

Fixpoint read_items {A} (de : rd A) (fuel : nat) (r : Reader) (len : Z) (result : list A)
    : outcome ReaderError (list A * Reader) :=
  if len <=? 0 then Ok (result, r)
  else match fuel with
       | O => Diverge
       | S fuel' =>
           '(x, r) ← de r;
           read_items de fuel' r (len - 1) (result ++ [x])
       end.

(** [Reader::read_list] of items of [size] bytes in memory; an item takes at least
    one byte of input, so the input is fuel enough. *)
Definition read_list_of {A} (size : Z) (de : rd A) : rd (list A) := fun r =>
  '(len, r) ← deserialize compact_integer_codec r;
  _ ← with_capacity len size;
  read_items de (S (length (pending r))) r len [].

Definition read_list {A} (c : Codec A) : rd (list A) := read_list_of (size_of c) (deserialize c).

Definition read_list_max {A} (c : Codec A) (max : Z) : rd (list A) := fun r =>
  '(len, r) ← deserialize compact_integer_codec r;
  if max <? len then Err MalformedData else
  _ ← with_capacity len (size_of c);
  read_items (deserialize c) (S (length (pending r))) r len [].

Definition list_codec {A} (c : Codec A) : Codec (list A) := {|
  serialize := fun (t : list A) (s : Stream) => append_list c t s;
  serialized_size := fun t : list A => serialized_list_size c t;
  deserialize := read_list c;
  size_of := 24;
|}.

(** * The reader refines a plain list of bytes *)

Lemma read_some_spec r n :
  0 < n ->
  exists got r', read_some r n = (got, r') /\ pending r = got ++ pending r' /\
    zlen got = Z.min n (zlen (pending r)).
Proof.
  intros Hn. unfold read_some, pending. destruct r as [b [p|]]; cbn.
  - rewrite (proj2 (Z.eqb_neq _ _)) by lia. do 2 eexists. split; [done|]. cbn.
    rewrite take_drop, length_take. split; [done|]. lia.
  - do 2 eexists. split; [done|]. cbn. rewrite take_drop, length_take. split; [done|]. lia.
Qed.

Lemma read_slice_cases n r :
  0 <= n ->
  (exists bs r', read_slice n r = Ok (bs, r') /\ pending r = bs ++ pending r' /\ zlen bs = n) \/
  (read_slice n r = Err UnexpectedEnd /\ zlen (pending r) < n).
Proof.
  intros Hn. unfold read_slice. cbn [read_exact]. destruct (n =? 0) eqn:E0; bool_prop.
  { left. exists [], r. subst. done. }
  destruct (read_some_spec r n) as (got & r1 & -> & Hp & Hg); [lia|].
  assert (zlen (pending r) = zlen got + zlen (pending r1)) as Hlen.
  { rewrite Hp at 1. rewrite length_app. lia. }
  destruct got as [|g got]; [right; cbn in *; split; [done|lia]|].
  cbn [app]. destruct (n - zlen (g :: got) =? 0) eqn:E1; bool_prop.
  { left. exists (g :: got), r1. split_and!; [done|done|lia]. }
  right. destruct (read_some_spec r1 (n - zlen (g :: got))) as (got2 & r2 & -> & Hp2 & Hg2); [lia|].
  assert (got2 = []) as ->; [|split; [done|lia]]. apply length_zero_iff_nil. lia.
Qed.

Lemma read_slice_app n r bs rest :
  pending r = bs ++ rest -> zlen bs = n ->
  exists r', read_slice n r = Ok (bs, r') /\ pending r' = rest.
Proof.
  intros Hp Hn. destruct (read_slice_cases n r) as [(bs' & r' & -> & Hp' & Hn')|[_ Hlt]]; [lia| |].
  - exists r'. rewrite Hp in Hp'. apply app_inj_1 in Hp' as [-> ->]; [done|lia].
  - rewrite Hp, length_app in Hlt. lia.
Qed.

Lemma read_slice_progress n r bs r' :
  0 < n -> read_slice n r = Ok (bs, r') -> (length (pending r') < length (pending r))%nat.
Proof.
  intros Hn H. destruct (read_slice_cases n r) as [(bs' & r1 & H1 & Hp & Hl)|[H1 _]]; [lia| |congruence].
  rewrite H1 in H. injection H as -> ->. rewrite Hp, length_app. lia.
Qed.

Lemma read_slice_returns n r : 0 <= n -> returns (read_slice n r).
Proof.
  intros Hn. destruct (read_slice_cases n r Hn) as [(? & ? & -> & _)|[-> _]]; done.
Qed.

(** * Laws of a codec *)

(** [wf flags x]: the values the encoding is meant for; [norm flags x]: what comes
    back (a transaction written without witness data loses it). *)
Class CodecLaws {A} (c : Codec A) (wf : Z -> A -> Prop) (norm : Z -> A -> A) := {
  serialize_append x s :
    serialize c x s = append_slice (to_bytes_with_flags c (stream_flags s) x) s;
  deserialize_serialize flags x r rest :
    wf flags x -> pending r = to_bytes_with_flags c flags x ++ rest ->
    exists r', deserialize c r = Ok (norm flags x, r') /\ pending r' = rest;
  deserialize_progress r x r' :
    deserialize c r = Ok (x, r') -> (length (pending r') < length (pending r))%nat;
  deserialize_terminates r : deserialize c r <> Diverge;
}.

(** The encoding does not depend on the stream's flags, and its length is the
    announced size. *)
Class SizeLaw {A} (c : Codec A) (wf : Z -> A -> Prop) :=
  serialized_size_spec x : wf 0 x -> serialized_size c x = zlen (to_bytes c x).

Abbreviation same := (fun (_ : Z) x => x).

Lemma append_slice_app a b s : append_slice b (append_slice a s) = append_slice (a ++ b) s.
Proof. unfold append_slice. cbn. by rewrite app_assoc. Qed.

Lemma append_slice_flags bs s : stream_flags (append_slice bs s) = stream_flags s.
Proof. done. Qed.

Lemma append_slice_nil s : append_slice [] s = s.
Proof. destruct s. unfold append_slice. cbn. by rewrite app_nil_r. Qed.

Lemma to_bytes_append_slice f bs : stream_buffer (append_slice bs (with_flags f)) = bs.
Proof. done. Qed.

#[global] Instance uint_codec_laws n :
  CodecLaws (uint_codec (S n)) (fun _ z => uint (8 * Z.of_nat (S n)) z) same.
Proof.
  split.
  - done.
  - intros f z r rest Hz Hp.
    destruct (read_slice_app (Z.of_nat (S n)) r _ _ Hp) as (r' & Hr & Hp').
    { change (to_bytes_with_flags _ _ _) with (le_bytes (S n) z). by rewrite length_le_bytes. }
    exists r'. cbn [deserialize uint_codec]. rewrite Hr. cbn [mbind outcome_bind].
    change (to_bytes_with_flags _ _ _) with (le_bytes (S n) z).
    rewrite le_value_le_bytes_id; [done|]. unfold uint in Hz. by rewrite Z.pow_mul_r in Hz by lia.
  - intros r x r' Hd. cbn [deserialize uint_codec] in Hd.
    apply bind_Ok in Hd as ([bs r1] & Hr & Hd). injection Hd as _ <-.
    eapply read_slice_progress; [|exact Hr]. lia.
  - intros r. cbn [deserialize uint_codec].
    pose proof (read_slice_returns (Z.of_nat (S n)) r ltac:(lia)) as Hr.
    by destruct (read_slice _ r) as [[]| | |].
Qed.

#[global] Instance sint_codec_laws n :
  CodecLaws (sint_codec (S n)) (fun _ z => sint (8 * Z.of_nat (S n)) z) same.
Proof.
  split.
  - done.
  - intros f z r rest Hz Hp.
    destruct (read_slice_app (Z.of_nat (S n)) r _ _ Hp) as (r' & Hr & Hp').
    { change (to_bytes_with_flags _ _ _) with (le_bytes (S n) z). by rewrite length_le_bytes. }
    exists r'. cbn [deserialize sint_codec]. rewrite Hr. cbn [mbind outcome_bind].
    change (to_bytes_with_flags _ _ _) with (le_bytes (S n) z).
    rewrite le_value_le_bytes. replace (256 ^ Z.of_nat (S n)) with (2 ^ (8 * Z.of_nat (S n)))
      by (by rewrite Z.pow_mul_r by lia).
    fold (wrap (8 * Z.of_nat (S n)) z). by rewrite swrap_wrap by (done || lia).
  - intros r x r' Hd. cbn [deserialize sint_codec] in Hd.
    apply bind_Ok in Hd as ([bs r1] & Hr & Hd). injection Hd as _ <-.
    eapply read_slice_progress; [|exact Hr]. lia.
  - intros r. cbn [deserialize sint_codec].
    pose proof (read_slice_returns (Z.of_nat (S n)) r ltac:(lia)) as Hr.
    by destruct (read_slice _ r) as [[]| | |].
Qed.

#[global] Instance uint_codec_size n wf : SizeLaw (uint_codec n) wf.
Proof. intros x _. unfold to_bytes. cbn. by rewrite length_le_bytes. Qed.

#[global] Instance sint_codec_size n wf : SizeLaw (sint_codec n) wf.
Proof. intros x _. unfold to_bytes. cbn. by rewrite length_le_bytes. Qed.

#[global] Instance hash_codec_laws n :
  CodecLaws (hash_codec (S n)) (fun _ h => length h = S n) same.
Proof.
  split.
  - done.
  - intros f h r rest Hh Hp. apply (read_slice_app _ r h); [exact Hp|by rewrite Hh].
  - intros r x r'. cbn [deserialize hash_codec]. apply read_slice_progress. lia.
  - intros r. cbn [deserialize hash_codec].
    pose proof (read_slice_returns (Z.of_nat (S n)) r ltac:(lia)) as Hr.
    by destruct (read_slice _ r) as [[]| | |].
Qed.

#[global] Instance hash_codec_size n : SizeLaw (hash_codec n) (fun _ h => length h = n).
Proof. intros x Hx. unfold to_bytes. cbn. by rewrite Hx. Qed.

(** * Compact integers, byte strings, lists *)

(** The encoding of a compact integer. *)
Definition compact_bytes (i : Z) : bytes :=
  if i <=? 252 then le_bytes 1 i
  else if i <=? 65535 then le_bytes 1 253 ++ le_bytes 2 i
  else if i <=? 4294967295 then le_bytes 1 254 ++ le_bytes 4 i
  else le_bytes 1 255 ++ le_bytes 8 i.

Lemma compact_serialize i s :
  0 <= i -> serialize compact_integer_codec i s = append_slice (compact_bytes i) s.
Proof.
  intros Hi. cbn [serialize compact_integer_codec]. unfold compact_bytes, append.
  destruct (i <=? 252) eqn:E1; bool_prop.
  { cbn [serialize u8_codec uint_codec]. by rewrite wrap_uint by (unfold uint; lia). }
  destruct (i <=? 65535) eqn:E2; bool_prop.
  { cbn [serialize u8_codec u16_codec uint_codec]. rewrite wrap_uint by (unfold uint; lia).
    by rewrite append_slice_app. }
  destruct (i <=? 4294967295) eqn:E3; bool_prop.
  { cbn [serialize u8_codec u32_codec uint_codec]. rewrite wrap_uint by (unfold uint; lia).
    by rewrite append_slice_app. }
  cbn [serialize u8_codec u64_codec uint_codec]. by rewrite append_slice_app.
Qed.

Lemma compact_size i :
  0 <= i -> serialized_size compact_integer_codec i = zlen (compact_bytes i).
Proof.
  intros Hi. cbn [serialized_size compact_integer_codec]. unfold compact_bytes.
  repeat destruct (_ <=? _); rewrite ?length_app, !length_le_bytes; done.
Qed.

(** Reading back the first field of a struct. *)
Lemma read_uint n r z rest :
  uint (8 * Z.of_nat (S n)) z -> pending r = le_bytes (S n) z ++ rest ->
  exists r', deserialize (uint_codec (S n)) r = Ok (z, r') /\ pending r' = rest.
Proof. intros Hz Hp. exact (deserialize_serialize (c := uint_codec (S n)) 0 z r rest Hz Hp). Qed.

Lemma compact_deserialize i r rest :
  uint 64 i -> pending r = compact_bytes i ++ rest ->
  exists r', deserialize compact_integer_codec r = Ok (i, r') /\ pending r' = rest.
Proof.
  intros Hi Hp. unfold uint in Hi. unfold compact_bytes in Hp.
  cbn [deserialize compact_integer_codec]. unfold u8_codec, u16_codec, u32_codec, u64_codec.
  destruct (i <=? 252) eqn:E1; [|destruct (i <=? 65535) eqn:E2; [|destruct (i <=? 4294967295) eqn:E3]];
    bool_prop; rewrite <- ?app_assoc in Hp;
    (eapply read_uint in Hp as (r1 & -> & Hp1); [|unfold uint; lia]); cbn [mbind outcome_bind Z.leb Z.eqb].
  - exists r1. rewrite (proj2 (Z.leb_le _ _)) by done. done.
  - apply read_uint; [unfold uint; lia|done].
  - apply read_uint; [unfold uint; lia|done].
  - apply read_uint; [unfold uint; lia|done].
Qed.

Lemma compact_progress r x r' :
  deserialize compact_integer_codec r = Ok (x, r') -> (length (pending r') < length (pending r))%nat.
Proof.
  cbn [deserialize compact_integer_codec]. intros H.
  apply bind_Ok in H as ([i r1] & H1 & H). apply (deserialize_progress (c := uint_codec 1)) in H1.
  destruct (i <=? 252); [by injection H as _ <-|].
  destruct (i =? 253); [apply (deserialize_progress (c := uint_codec 2)) in H; lia|].
  destruct (i =? 254); [apply (deserialize_progress (c := uint_codec 4)) in H; lia|].
  apply (deserialize_progress (c := uint_codec 8)) in H. lia.
Qed.

(** Every accepted compact integer is a [u64]. *)
Lemma uint_deserialize_bound n r z r' :
  deserialize (uint_codec n) r = Ok (z, r') -> 0 <= z < 256 ^ Z.of_nat n.
Proof.
  cbn [deserialize uint_codec]. intros H. apply bind_Ok in H as ([bs r1] & H1 & H). injection H as <- _.
  destruct (read_slice_cases (Z.of_nat n) r) as [(bs' & r2 & H2 & _ & Hl)|[H2 _]]; [lia| |congruence].
  rewrite H1 in H2. injection H2 as <- <-. rewrite <- Hl. apply le_value_bound.
Qed.

Lemma compact_bound r z r' : deserialize compact_integer_codec r = Ok (z, r') -> uint 64 z.
Proof.
  cbn [deserialize compact_integer_codec]. intros H. unfold uint.
  apply bind_Ok in H as ([i r1] & H1 & H). apply (uint_deserialize_bound 1) in H1.
  destruct (i <=? 252); [injection H as <- _; lia|].
  destruct (i =? 253); [apply (uint_deserialize_bound 2) in H; lia|].
  destruct (i =? 254); [apply (uint_deserialize_bound 4) in H; lia|].
  apply (uint_deserialize_bound 8) in H. lia.
Qed.

(** The first part of a sequence: the bind diverges only if one of its parts does. *)
Lemma bind_terminates {E A B} (m : outcome E A) (f : A -> outcome E B) :
  m <> Diverge -> (forall a, m = Ok a -> f a <> Diverge) -> m ≫= f <> Diverge.
Proof. destruct m; cbn; auto; done. Qed.

#[global] Instance compact_integer_laws :
  CodecLaws compact_integer_codec (fun _ i => uint 64 i) same.
Proof.
  assert (forall f i, 0 <= i -> to_bytes_with_flags compact_integer_codec f i = compact_bytes i) as Hb.
  { intros f i Hi. unfold to_bytes_with_flags, out, append. by rewrite compact_serialize. }
  split.
  - intros x s. destruct (Z.le_gt_cases 0 x); [by rewrite Hb, compact_serialize by done|].
    unfold to_bytes_with_flags, out, append. cbn [serialize compact_integer_codec].
    by rewrite (proj2 (Z.leb_le _ _)) by lia.
  - intros f x r rest Hx Hp. rewrite Hb in Hp by (unfold uint in Hx; lia). by apply compact_deserialize.
  - apply compact_progress.
  - intros r. cbn [deserialize compact_integer_codec].
    apply bind_terminates; [apply (deserialize_terminates (c := uint_codec 1))|].
    intros [i r1] _. repeat destruct (_ : bool); [done|..]; apply (deserialize_terminates (c := uint_codec _)).
Qed.

#[global] Instance compact_integer_size : SizeLaw compact_integer_codec (fun _ i => uint 64 i).
Proof.
  intros x Hx. unfold uint in Hx. rewrite compact_size by lia. unfold to_bytes, out, append.
  by rewrite compact_serialize by lia.
Qed.

Lemma with_capacity_Ok {E} len size :
  len * size <= isize_max -> @with_capacity E len size = Ok tt.
Proof. intros. unfold with_capacity. by rewrite (proj2 (Z.leb_le _ _)). Qed.

Lemma with_capacity_terminates {E} len size : @with_capacity E len size <> Diverge.
Proof. unfold with_capacity, rust_assert. by destruct (_ <=? _). Qed.

Lemma bytes_serialize b s :
  serialize bytes_codec b s = append_slice (compact_bytes (zlen b) ++ b) s.
Proof.
  cbn [serialize bytes_codec]. unfold append. rewrite compact_serialize by lia. apply append_slice_app.
Qed.

#[global] Instance bytes_codec_laws :
  CodecLaws bytes_codec (fun _ b => zlen b <= isize_max) same.
Proof.
  split.
  - intros x s. unfold to_bytes_with_flags, out, append. by rewrite !bytes_serialize.
  - intros f b r rest Hb Hp. unfold to_bytes_with_flags, out, append in Hp.
    rewrite bytes_serialize, to_bytes_append_slice, <- app_assoc in Hp.
    apply compact_deserialize in Hp as (r1 & Hr & Hp1); [|unfold uint; unfold isize_max in Hb; lia].
    cbn [deserialize bytes_codec]. rewrite Hr. cbn [mbind outcome_bind].
    rewrite with_capacity_Ok by lia. cbn [mbind outcome_bind]. by apply read_slice_app.
  - intros r x r' H. cbn [deserialize bytes_codec] in H.
    apply bind_Ok in H as ([len r1] & H1 & H). apply bind_Ok in H as (_ & _ & H).
    pose proof (compact_bound _ _ _ H1) as Hb. apply compact_progress in H1.
    destruct (read_slice_cases len r1) as [(bs & r2 & H2 & Hp & _)|[H2 _]]; [unfold uint in Hb; lia| |congruence].
    rewrite H2 in H. injection H as _ <-. rewrite Hp, length_app in H1. lia.
  - intros r. cbn [deserialize bytes_codec].
    apply bind_terminates; [apply deserialize_terminates|]. intros [len r1] H1.
    apply bind_terminates; [apply with_capacity_terminates|]. intros _ _.
    apply compact_bound in H1. pose proof (read_slice_returns len r1 (proj1 H1)) as Hr.
    by destruct (read_slice len r1).
Qed.

#[global] Instance bytes_codec_size wf : SizeLaw bytes_codec wf.
Proof.
  intros b _. cbn [serialized_size bytes_codec]. rewrite compact_size by lia.
  unfold to_bytes, out, append. rewrite bytes_serialize. cbn. rewrite length_app. lia.
Qed.

Section lists.
Context {A} (c : Codec A) (wf : Z -> A -> Prop) (norm : Z -> A -> A) `{!CodecLaws c wf norm}.

Definition items_bytes (flags : Z) (t : list A) : bytes :=
  concat (map (to_bytes_with_flags c flags) t).

Lemma append_items t s :
  foldl (fun s i => serialize c i s) s t = append_slice (items_bytes (stream_flags s) t) s.
Proof.
  revert s. induction t as [|x t IH]; intros s; cbn [foldl items_bytes map concat].
  { by rewrite append_slice_nil. }
  rewrite IH, serialize_append, append_slice_flags. apply append_slice_app.
Qed.

Lemma append_list_bytes t s :
  append_list c t s =
  append_slice (compact_bytes (zlen t) ++ items_bytes (stream_flags s) t) s.
Proof.
  unfold append_list, append. rewrite append_items, compact_serialize by lia.
  rewrite append_slice_flags. apply append_slice_app.
Qed.

Lemma read_items_serialize flags t fuel r rest result :
  Forall (wf flags) t -> pending r = items_bytes flags t ++ rest ->
  (length t < fuel)%nat ->
  exists r', read_items (deserialize c) fuel r (zlen t) result = Ok (result ++ map (norm flags) t, r') /\
    pending r' = rest.
Proof.
  intros Ht. revert fuel r result. induction Ht as [|x t Hx Ht IH]; intros fuel r result Hp Hf.
  - exists r. destruct fuel; cbn; by rewrite app_nil_r.
  - destruct fuel as [|fuel]; [lia|]. cbn [read_items].
    rewrite (proj2 (Z.leb_gt _ _)) by (cbn; lia).
    cbn [items_bytes map concat] in Hp. rewrite <- app_assoc in Hp.
    destruct (deserialize_serialize flags x r _ Hx Hp) as (r1 & -> & Hp1). cbn [mbind outcome_bind].
    replace (zlen (x :: t) - 1) with (zlen t) by (cbn; lia).
    destruct (IH fuel r1 (result ++ [norm flags x]) Hp1) as (r2 & -> & Hp2); [cbn in Hf; lia|].
    exists r2. by rewrite <- app_assoc.
Qed.

(** An item takes at least one byte. *)
Lemma to_bytes_nonempty flags x : wf flags x -> to_bytes_with_flags c flags x <> [].
Proof.
  intros Hx He.
  destruct (deserialize_serialize flags x (reader_new (to_bytes_with_flags c flags x)) [] Hx) as (r' & Hd & Hp).
  { by rewrite app_nil_r. }
  apply deserialize_progress in Hd. rewrite He, Hp in Hd. cbn in Hd. lia.
Qed.

Lemma items_bytes_length flags t :
  Forall (wf flags) t -> (length t <= length (items_bytes flags t))%nat.
Proof.
  unfold items_bytes. induction 1 as [|x t Hx Ht IH]; [done|]. cbn [map concat length].
  rewrite length_app. pose proof (to_bytes_nonempty flags x Hx).
  destruct (to_bytes_with_flags c flags x); [done|]. cbn [length]. lia.
Qed.

Lemma read_items_progress fuel r len result t r' :
  read_items (deserialize c) fuel r len result = Ok (t, r') -> (length (pending r') <= length (pending r))%nat.
Proof.
  revert r len result. induction fuel as [|fuel IH]; intros r len result; cbn [read_items];
    destruct (len <=? 0); try (intros [= _ <-]; lia); try done.
  intros H. apply bind_Ok in H as ([x r1] & H1 & H). apply deserialize_progress in H1.
  apply IH in H. lia.
Qed.

Lemma read_items_terminates fuel r len result :
  (length (pending r) < fuel)%nat -> read_items (deserialize c) fuel r len result <> Diverge.
Proof.
  revert r len result. induction fuel as [|fuel IH]; intros r len result Hf; [lia|].
  cbn [read_items]. destruct (len <=? 0); [done|].
  apply bind_terminates; [apply deserialize_terminates|].
  intros [x r1] H1. apply deserialize_progress in H1. apply IH. lia.
Qed.

Lemma read_list_serialize flags t r rest :
  Forall (wf flags) t -> uint 64 (zlen t) -> zlen t * size_of c <= isize_max ->
  pending r = compact_bytes (zlen t) ++ items_bytes flags t ++ rest ->
  exists r', read_list c r = Ok (map (norm flags) t, r') /\ pending r' = rest.
Proof.
  intros Ht Hu Hc Hp. unfold read_list, read_list_of.
  apply compact_deserialize in Hp as (r1 & -> & Hp1); [|done]. cbn [mbind outcome_bind].
  rewrite with_capacity_Ok by done. cbn [mbind outcome_bind].
  destruct (read_items_serialize flags t (S (length (pending r1))) r1 rest [] Ht Hp1) as (r' & -> & Hp').
  { rewrite Hp1, length_app. pose proof (items_bytes_length flags t Ht). lia. }
  by exists r'.
Qed.

#[global] Instance list_codec_laws :
  CodecLaws (list_codec c)
    (fun flags t => Forall (wf flags) t /\ uint 64 (zlen t) /\ zlen t * size_of c <= isize_max)
    (fun flags t => map (norm flags) t).
Proof.
  split.
  - intros t s. unfold to_bytes_with_flags, out, append. cbn [serialize list_codec].
    by rewrite !append_list_bytes.
  - intros f t r rest (Ht & Hu & Hc) Hp. cbn [deserialize list_codec].
    apply read_list_serialize; [done..|]. unfold to_bytes_with_flags, out, append in Hp.
    cbn [serialize list_codec] in Hp. rewrite append_list_bytes, to_bytes_append_slice in Hp.
    by rewrite <- app_assoc in Hp.
  - intros r x r' H. cbn [deserialize list_codec] in H. unfold read_list, read_list_of in H.
    apply bind_Ok in H as ([len r1] & H1 & H). apply bind_Ok in H as (_ & _ & H).
    apply compact_progress in H1. apply read_items_progress in H. lia.
  - intros r. cbn [deserialize list_codec]. unfold read_list, read_list_of.
    apply bind_terminates; [apply deserialize_terminates|]. intros [len r1] _.
    apply bind_terminates; [apply with_capacity_terminates|]. intros _ _.
    apply read_items_terminates. lia.
Qed.

Lemma items_size (Hsz : SizeLaw c wf) t :
  Forall (wf 0) t -> foldr Z.add 0 (map (serialized_size c) t) = zlen (items_bytes 0 t).
Proof.
  unfold items_bytes. induction 1 as [|x t Hx Ht IH]; [done|]. cbn [map foldr concat].
  rewrite IH, length_app, serialized_size_spec by done.
  change (to_bytes c x) with (to_bytes_with_flags c 0 x). lia.
Qed.

#[global] Instance list_codec_size (Hsz : SizeLaw c wf) :
  SizeLaw (list_codec c)
    (fun flags t => Forall (wf flags) t /\ uint 64 (zlen t) /\ zlen t * size_of c <= isize_max).
Proof.
  intros t (Ht & _ & _). cbn [serialized_size list_codec]. unfold serialized_list_size.
  rewrite items_size, compact_size by (done || lia). unfold to_bytes, out, append.
  cbn [serialize list_codec]. rewrite append_list_bytes. cbn. rewrite length_app. lia.
Qed.

End lists.

(** * Whole inputs *)

Lemma is_finished_spec r :
  exists r', is_finished r = Ok (bool_decide (pending r = []), r') /\ pending r' = pending r.
Proof.
  unfold is_finished. destruct r as [[|x b] [p|]]; cbn [peeked]; try (by eexists).
  assert (read_slice 1 (mkReader (x :: b) None) = Ok ([x], mkReader b None)) as ->; [|by eexists].
  unfold read_slice, read_exact, read_some. cbn [peeked buffer Z.eqb].
  replace (Z.to_nat (Z.min 1 (zlen (x :: b)))) with 1%nat by (cbn [length]; lia). done.
Qed.

Lemma from_bytes_to_bytes {A} (c : Codec A) wf norm `{!CodecLaws c wf norm} flags x :
  wf flags x -> from_bytes c (to_bytes_with_flags c flags x) = Ok (norm flags x).
Proof.
  intros Hx. unfold from_bytes, from_bytes_of.
  destruct (deserialize_serialize flags x (reader_new (to_bytes_with_flags c flags x)) [] Hx) as (r & -> & Hp).
  { by rewrite app_nil_r. }
  cbn [mbind outcome_bind]. destruct (is_finished_spec r) as (r' & -> & _). cbn [mbind outcome_bind].
  by rewrite Hp.
Qed.

(** Left-over input is reported. *)
Lemma from_bytes_unread {A} (c : Codec A) wf norm `{!CodecLaws c wf norm} flags x rest :
  wf flags x -> rest <> [] ->
  from_bytes c (to_bytes_with_flags c flags x ++ rest) = Err UnreadData.
Proof.
  intros Hx Hr. unfold from_bytes, from_bytes_of.
  destruct (deserialize_serialize flags x (reader_new (to_bytes_with_flags c flags x ++ rest)) rest Hx)
    as (r & -> & Hp); [done|].
  cbn [mbind outcome_bind]. destruct (is_finished_spec r) as (r' & -> & _). cbn [mbind outcome_bind].
  rewrite Hp. by rewrite bool_decide_false.
Qed.

(** Encodings determine what comes back from them. *)
Lemma to_bytes_inj {A} (c : Codec A) wf norm `{!CodecLaws c wf norm} flags x y :
  wf flags x -> wf flags y -> to_bytes_with_flags c flags x = to_bytes_with_flags c flags y ->
  norm flags x = norm flags y.
Proof.
  intros Hx Hy He. set (r := reader_new (to_bytes_with_flags c flags x)).
  destruct (deserialize_serialize flags x r [] Hx) as (r1 & H1 & _); [by rewrite app_nil_r|].
  destruct (deserialize_serialize flags y r [] Hy) as (r2 & H2 & _); [by rewrite app_nil_r, <- He|].
  rewrite H1 in H2. by injection H2.
Qed.

(** So do encodings that follow one another. *)
Lemma items_inj {A} (c : Codec A) wf norm `{!CodecLaws c wf norm} flags l l' :
  Forall (wf flags) l -> Forall (wf flags) l' -> items_bytes c flags l = items_bytes c flags l' ->
  map (norm flags) l = map (norm flags) l'.
Proof.
  intros Hl. revert l'. induction Hl as [|x l Hx Hl IH]; intros l' Hl' He.
  - destruct Hl' as [|y l' Hy Hl']; [done|]. symmetry in He. apply app_eq_nil in He as [He _].
    by destruct (to_bytes_nonempty c wf norm flags y Hy).
  - destruct Hl' as [|y l' Hy Hl']; [apply app_eq_nil in He as [He _]; by destruct (to_bytes_nonempty c wf norm flags x Hx)|].
    cbn [items_bytes map concat] in He. set (r := reader_new (items_bytes c flags (x :: l))).
    destruct (deserialize_serialize flags x r _ Hx eq_refl) as (r1 & H1 & Hp1).
    destruct (deserialize_serialize flags y r _ Hy He) as (r2 & H2 & Hp2).
    rewrite H1 in H2. injection H2 as Hn <-. cbn [map]. rewrite Hn. f_equal. apply IH; [done|]. by rewrite Hp1 in Hp2.
Qed.

(** * Properties *)

(** The reader with its peeked byte behaves as a plain list of bytes: reading
    [n] bytes returns the next [n] pending bytes and leaves the rest, or reports
    [UnexpectedEnd] exactly when fewer are pending; peeking changes nothing. *)
Theorem reader_refines_list n r :
  0 <= n ->
  (exists bs r', read_slice n r = Ok (bs, r') /\ pending r = bs ++ pending r' /\ zlen bs = n) \/
  (read_slice n r = Err UnexpectedEnd /\ zlen (pending r) < n).
Proof. apply read_slice_cases. Qed.

Lemma reader_refines_list_witness :
  (exists bs r', read_slice 2 (mkReader [x02; x03] (Some x01)) = Ok (bs, r') /\
    [x01; x02; x03] = bs ++ pending r' /\ zlen bs = 2) \/
  (read_slice 2 (mkReader [x02; x03] (Some x01)) = Err UnexpectedEnd /\ zlen [x01; x02; x03] < 2).
Proof. apply (reader_refines_list 2 (mkReader [x02; x03] (Some x01))). lia. Defined.

(** A compact integer of any [u64] value round-trips, with the size the code
    announces. *)
Theorem compact_integer_roundtrip flags i :
  uint 64 i ->
  from_bytes compact_integer_codec (to_bytes_with_flags compact_integer_codec flags i) = Ok i /\
  serialized_size compact_integer_codec i = zlen (to_bytes compact_integer_codec i).
Proof.
  intros Hi. split; [|by apply (serialized_size_spec (c := compact_integer_codec))].
  by apply (from_bytes_to_bytes compact_integer_codec (fun _ i => uint 64 i) same).
Qed.

Lemma compact_integer_roundtrip_witness :
  from_bytes compact_integer_codec (to_bytes_with_flags compact_integer_codec 0 65536) = Ok 65536 /\
  serialized_size compact_integer_codec 65536 = zlen (to_bytes compact_integer_codec 65536).
Proof. apply compact_integer_roundtrip. unfold uint. lia. Defined.

(** Reading a list announced longer than a vector can be panics with a
    capacity overflow before any item is read, whatever follows. *)
Theorem read_list_capacity_panic {A} (c : Codec A) len rest :
  uint 64 len -> isize_max < len * size_of c ->
  read_list c (reader_new (compact_bytes len ++ rest)) = Panic.
Proof.
  intros Hu Hl. unfold read_list, read_list_of.
  destruct (compact_deserialize len (reader_new (compact_bytes len ++ rest)) rest Hu) as (r & -> & _); [done|].
  cbn [mbind outcome_bind]. unfold with_capacity. by rewrite (proj2 (Z.leb_gt _ _)).
Qed.

Lemma read_list_capacity_panic_witness :
  read_list bytes_codec (reader_new (compact_bytes (2 ^ 63) ++ [])) = Panic.
Proof. apply read_list_capacity_panic; [unfold uint|vm_compute]; lia || done. Defined.

End Ser.
