(* ===== verification/Codec.v ===== *)
(** The derived serialization of structs (src/serialization_derive/src): fields are
    written and read in order, and sizes add up.  A struct is a nested pair of its
    fields up to an isomorphism. *)
From Stdlib Require Import ZArith Lia Strings.Byte.
From stdpp Require Import base decidable numbers list.
From S2P Require Import Prelude Serialization.

Local Open Scope Z_scope.

Module Derive.
Import Ser.

(** Two consecutive fields. *)
Definition fields {A B} (a : Codec A) (b : Codec B) : Codec (A * B) := {|
  serialize := fun (x : A * B) (s : Stream) => append b x.2 (append a x.1 s);
  serialized_size := fun x : A * B => serialized_size a x.1 + serialized_size b x.2;
  deserialize := fun r : Reader =>
    '(x, r) ← deserialize a r; '(y, r) ← deserialize b r; Ok ((x, y), r);
  size_of := size_of a + size_of b;
|}.

(** A struct [S] with the given fields; [size] is its size in memory. *)
Definition struct {A S} (c : Codec A) (to : S -> A) (from : A -> S) (size : Z) : Codec S := {|
  serialize := fun (x : S) (s : Stream) => serialize c (to x) s;
  serialized_size := fun x : S => serialized_size c (to x);
  deserialize := fun r : Reader => '(y, r) ← deserialize c r; Ok (from y, r);
  size_of := size;
|}.

(** * Laws *)

Section fields.
Context {A B} (a : Codec A) (b : Codec B).
Context wfa norma wfb normb `{!CodecLaws a wfa norma} `{!CodecLaws b wfb normb}.

Lemma fields_bytes flags x :
  to_bytes_with_flags (fields a b) flags x =
  to_bytes_with_flags a flags x.1 ++ to_bytes_with_flags b flags x.2.
Proof.
  unfold to_bytes_with_flags, out, append. cbn [serialize fields]. unfold append.
  rewrite (serialize_append (c := b)), (serialize_append (c := a)). cbn.
  unfold to_bytes_with_flags, append. by rewrite (serialize_append (c := a)).
Qed.

#[global] Instance fields_laws :
  CodecLaws (fields a b) (fun f x => wfa f x.1 /\ wfb f x.2)
    (fun f x => (norma f x.1, normb f x.2)).
Proof.
  split.
  - intros x s. rewrite fields_bytes. cbn [serialize fields]. unfold append.
    rewrite (serialize_append (c := b)), (serialize_append (c := a)), append_slice_flags.
    apply append_slice_app.
  - intros f [x y] r rest [Hx Hy] Hp. cbn [fst snd] in *. rewrite fields_bytes, <- app_assoc in Hp.
    destruct (deserialize_serialize f x r _ Hx Hp) as (r1 & H1 & Hp1).
    destruct (deserialize_serialize f y r1 _ Hy Hp1) as (r2 & H2 & Hp2).
    exists r2. cbn [deserialize fields]. rewrite H1. cbn [mbind outcome_bind]. rewrite H2. done.
  - intros r x r' H. cbn [deserialize fields] in H. apply bind_Ok in H as ([y r1] & H1 & H).
    apply bind_Ok in H as ([z r2] & H2 & H). injection H as _ <-.
    apply deserialize_progress in H1. apply deserialize_progress in H2. lia.
  - intros r. cbn [deserialize fields]. apply bind_terminates; [apply deserialize_terminates|].
    intros [y r1] _. apply bind_terminates; [apply deserialize_terminates|]. by intros [z r2] _.
Qed.

#[global] Instance fields_size (Ha : SizeLaw a wfa) (Hb : SizeLaw b wfb) :
  SizeLaw (fields a b) (fun f x => wfa f x.1 /\ wfb f x.2).
Proof.
  intros x [Hx Hy]. cbn [serialized_size fields]. rewrite !serialized_size_spec by done.
  change (to_bytes (fields a b) x) with (to_bytes_with_flags (fields a b) 0 x).
  rewrite fields_bytes, length_app.
  change (to_bytes a x.1) with (to_bytes_with_flags a 0 x.1).
  change (to_bytes b x.2) with (to_bytes_with_flags b 0 x.2). lia.
Qed.

End fields.

Section struct.
Context {A S} (c : Codec A) (to : S -> A) (from : A -> S) (size : Z).
Context wf norm `{!CodecLaws c wf norm}.

#[global] Instance struct_laws :
  CodecLaws (struct c to from size) (fun f x => wf f (to x)) (fun f x => from (norm f (to x))).
Proof.
  split.
  - intros x s. apply (serialize_append (c := c)).
  - intros f x r rest Hx Hp. cbn [deserialize struct].
    destruct (deserialize_serialize (c := c) f (to x) r rest Hx Hp) as (r' & -> & Hp').
    by exists r'.
  - intros r x r' H. cbn [deserialize struct] in H. apply bind_Ok in H as ([y r1] & H1 & H).
    injection H as _ <-. by apply deserialize_progress in H1.
  - intros r. cbn [deserialize struct]. apply bind_terminates; [apply deserialize_terminates|].
    by intros [y r1] _.
Qed.

#[global] Instance struct_size (Hc : SizeLaw c wf) :
  SizeLaw (struct c to from size) (fun f x => wf f (to x)).
Proof. intros x Hx. apply (serialized_size_spec (c := c) (to x) Hx). Qed.

End struct.

(** The laws carry over along pointwise equal norms and stronger well-formedness. *)
Lemma codec_laws_impl {A} (c : Codec A) wf norm (wf' : Z -> A -> Prop) (norm' : Z -> A -> A) :
  CodecLaws c wf norm -> (forall f x, wf' f x -> wf f x) ->
  (forall f x, wf' f x -> norm f x = norm' f x) -> CodecLaws c wf' norm'.
Proof.
  intros Hc Hw Hn. split.
  - apply serialize_append.
  - intros f x r rest Hx Hp. rewrite <- Hn by done. apply deserialize_serialize; auto.
  - apply deserialize_progress.
  - apply deserialize_terminates.
Qed.

End Derive.
