(* ===== verification/Chain.v ===== *)
(** Blocks and transactions (src/chain/src): the data types of transaction.rs,
    block_header.rs and block.rs with their encodings, transaction predicates,
    hashing while reading (read_and_hash.rs, indexed_transaction.rs,
    indexed_header.rs, indexed_block.rs) and the merkle root (merkle_root.rs).
    A hash is its 32 bytes. *)
From Stdlib Require Import ZArith Lia Strings.Byte.
From stdpp Require Import base decidable numbers list.
From S2P Require Import Prelude Crypto Serialization Codec.

Local Open Scope Z_scope.

Module Chain.
Import Ser Derive.

(** * Constants (constants.rs) *)

Definition SEQUENCE_LOCKTIME_DISABLE_FLAG : Z := Z.shiftl 1 31.
Definition SEQUENCE_FINAL : Z := 4294967295.
Definition SEQUENCE_LOCKTIME_TYPE_FLAG : Z := Z.shiftl 1 22.
Definition SEQUENCE_LOCKTIME_MASK : Z := 65535.
Definition LOCKTIME_THRESHOLD : Z := 500000000.
Definition SATOSHIS_IN_COIN : Z := 100000000.

Definition WITNESS_MARKER : Z := 0.
Definition WITNESS_FLAG : Z := 1.

(** * Data types (transaction.rs, block_header.rs, block.rs) *)

Record OutPoint := mkOutPoint { op_hash : bytes; op_index : Z }.

Record TransactionInput := mkInput {
  previous_output : OutPoint;
  script_sig : bytes;
  sequence : Z;
  script_witness : list bytes;
}.

Record TransactionOutput := mkOutput { value : Z; script_pubkey : bytes }.

Record Transaction := mkTx {
  version : Z;
  inputs : list TransactionInput;
  outputs : list TransactionOutput;
  lock_time : Z;
}.

Record BlockHeader := mkHeader {
  hd_version : Z;
  previous_header_hash : bytes;
  merkle_root_hash : bytes;
  time : Z;
  bits : Z;
  nonce : Z;
}.

Record Block := mkBlock { block_header : BlockHeader; transactions : list Transaction }.

#[global] Instance OutPoint_eq_dec : EqDecision OutPoint.
Proof. solve_decision. Defined.
#[global] Instance TransactionInput_eq_dec : EqDecision TransactionInput.
Proof. solve_decision. Defined.
#[global] Instance TransactionOutput_eq_dec : EqDecision TransactionOutput.
Proof. solve_decision. Defined.
#[global] Instance Transaction_eq_dec : EqDecision Transaction.
Proof. solve_decision. Defined.
#[global] Instance BlockHeader_eq_dec : EqDecision BlockHeader.
Proof. solve_decision. Defined.

Definition zero_hash : bytes := replicate 32 x00.

Definition null_outpoint : OutPoint := mkOutPoint zero_hash 4294967295.

Definition outpoint_is_null (o : OutPoint) : bool :=
  forallb (fun b => u8 b =? 0) (op_hash o) && (op_index o =? 4294967295).

Definition coinbase_input (sig : bytes) : TransactionInput :=
  mkInput null_outpoint sig SEQUENCE_FINAL [].

Definition input_is_final (i : TransactionInput) : bool := sequence i =? SEQUENCE_FINAL.
Definition input_has_witness (i : TransactionInput) : bool := negb (bool_decide (script_witness i = [])).

Definition default_output : TransactionOutput := mkOutput 18446744073709551615 [].

(** * Transaction predicates *)

Definition is_empty (tx : Transaction) : bool :=
  bool_decide (inputs tx = []) || bool_decide (outputs tx = []).

Definition is_null (tx : Transaction) : bool :=
  existsb (fun i => outpoint_is_null (previous_output i)) (inputs tx).

Definition is_coinbase (tx : Transaction) : bool :=
  match inputs tx with
  | [i] => outpoint_is_null (previous_output i)
  | _ => false
  end.

Definition is_final (tx : Transaction) : bool :=
  if lock_time tx =? 0 then true else forallb input_is_final (inputs tx).

Definition is_final_in_block (tx : Transaction) (block_height block_time : Z) : bool :=
  if lock_time tx =? 0 then true else
  let max_lock_time := if lock_time tx <? LOCKTIME_THRESHOLD then block_height else block_time in
  if lock_time tx <? max_lock_time then true else forallb input_is_final (inputs tx).

Definition has_witness (tx : Transaction) : bool := existsb input_has_witness (inputs tx).

(** The loop saturates instead of overflowing. *)
Fixpoint total_spends_loop (outs : list TransactionOutput) (result : Z) : Z :=
  match outs with
  | [] => result
  | o :: outs' =>
      if u64_max - result <? value o then u64_max else total_spends_loop outs' (result + value o)
  end.
Definition total_spends (tx : Transaction) : Z := total_spends_loop (outputs tx) 0.

(** * Encodings *)

Definition outpoint_codec : Codec OutPoint :=
  struct (fields (hash_codec 32) u32_codec)
    (fun o => (op_hash o, op_index o)) (fun p => mkOutPoint p.1 p.2) 36.

(** The witness is not part of an input's encoding. *)
Definition input_codec : Codec TransactionInput :=
  struct (fields outpoint_codec (fields bytes_codec u32_codec))
    (fun i => (previous_output i, (script_sig i, sequence i)))
    (fun p => mkInput p.1 p.2.1 p.2.2 []) 88.

Definition output_codec : Codec TransactionOutput :=
  struct (fields u64_codec bytes_codec)
    (fun o => (value o, script_pubkey o)) (fun p => mkOutput p.1 p.2) 32.

Definition serialize_witnesses (ins : list TransactionInput) (s : Stream) : Stream :=
  foldl (fun s i => append_list bytes_codec (script_witness i) s) s ins.

Definition serialize_transaction (tx : Transaction) (s : Stream) : Stream :=
  let include := include_transaction_witness s && has_witness tx in
  if negb include then
    append u32_codec (lock_time tx) (append_list output_codec (outputs tx)
      (append_list input_codec (inputs tx) (append i32_codec (version tx) s)))
  else
    append u32_codec (lock_time tx) (serialize_witnesses (inputs tx)
      (append_list output_codec (outputs tx) (append_list input_codec (inputs tx)
        (append u8_codec WITNESS_FLAG (append u8_codec WITNESS_MARKER
          (append i32_codec (version tx) s)))))).

(** [for input in inputs.iter_mut() { input.script_witness = reader.read_list()?; }]. *)
Fixpoint read_witnesses (ins : list TransactionInput) (r : Reader)
    : outcome ReaderError (list TransactionInput * Reader) :=
  match ins with
  | [] => Ok ([], r)
  | i :: ins' =>
      '(w, r) ← read_list bytes_codec r;
      '(rest, r) ← read_witnesses ins' r;
      Ok (mkInput (previous_output i) (script_sig i) (sequence i) w :: rest, r)
  end.

Definition deserialize_transaction (r : Reader) : outcome ReaderError (Transaction * Reader) :=
  '(version, r) ← deserialize i32_codec r;
  '(inputs, r) ← read_list input_codec r;
  '(read_witness, inputs, r) ←
    (if bool_decide (inputs = []) then
       '(witness_flag, r) ← deserialize u8_codec r;
       if negb (witness_flag =? WITNESS_FLAG) then Err MalformedData else
       '(inputs, r) ← read_list input_codec r;
       Ok (true, inputs, r)
     else Ok (false, inputs, r));
  '(outputs, r) ← read_list output_codec r;
  '(inputs, r) ← (if read_witness : bool then read_witnesses inputs r else Ok (inputs, r));
  '(lock_time, r) ← deserialize u32_codec r;
  Ok (mkTx version inputs outputs lock_time, r).

(** [serialized_size] is the trait's fallback: the length of the encoding. *)
Definition transaction_codec : Codec Transaction := {|
  serialize := serialize_transaction;
  serialized_size := fun tx => zlen (out (serialize_transaction tx stream_default));
  deserialize := deserialize_transaction;
  size_of := 56;
|}.

(** [serialized_size_with_flags], the fallback. *)
Definition transaction_size_with_flags (flags : Z) (tx : Transaction) : Z :=
  zlen (to_bytes_with_flags transaction_codec flags tx).

Definition header_codec : Codec BlockHeader :=
  struct (fields u32_codec (fields (hash_codec 32) (fields (hash_codec 32)
            (fields u32_codec (fields u32_codec u32_codec)))))
    (fun h => (hd_version h, (previous_header_hash h, (merkle_root_hash h, (time h, (bits h, nonce h))))))
    (fun p => mkHeader p.1 p.2.1 p.2.2.1 p.2.2.2.1 p.2.2.2.2.1 p.2.2.2.2.2) 80.

Definition block_codec : Codec Block :=
  struct (fields header_codec (list_codec transaction_codec))
    (fun b => (block_header b, transactions b)) (fun p => mkBlock p.1 p.2) 104.

(** * Well-formedness: the ranges of the fields *)

Definition wf_outpoint (o : OutPoint) : Prop := length (op_hash o) = 32%nat /\ uint 32 (op_index o).

Definition wf_input (i : TransactionInput) : Prop :=
  wf_outpoint (previous_output i) /\ zlen (script_sig i) <= isize_max /\ uint 32 (sequence i).

Definition wf_witness (i : TransactionInput) : Prop :=
  Forall (fun w => zlen w <= isize_max) (script_witness i) /\
  uint 64 (zlen (script_witness i)) /\ zlen (script_witness i) * 24 <= isize_max.

Definition wf_output (o : TransactionOutput) : Prop :=
  uint 64 (value o) /\ zlen (script_pubkey o) <= isize_max.

(** A transaction with no inputs is not well-formed: its encoding starts like a
    witness marker. *)
Record wf_tx (tx : Transaction) : Prop := {
  wf_version : sint 32 (version tx);
  wf_inputs : Forall wf_input (inputs tx);
  wf_inputs_len : uint 64 (zlen (inputs tx)) /\ zlen (inputs tx) * 88 <= isize_max;
  wf_inputs_ne : inputs tx <> [];
  wf_outputs : Forall wf_output (outputs tx);
  wf_outputs_len : uint 64 (zlen (outputs tx)) /\ zlen (outputs tx) * 32 <= isize_max;
  wf_lock_time : uint 32 (lock_time tx);
  wf_witnesses : Forall wf_witness (inputs tx);
}.

Record wf_header (h : BlockHeader) : Prop := {
  wf_hd_version : uint 32 (hd_version h);
  wf_prev : length (previous_header_hash h) = 32%nat;
  wf_root : length (merkle_root_hash h) = 32%nat;
  wf_time : uint 32 (time h);
  wf_bits : uint 32 (bits h);
  wf_nonce : uint 32 (nonce h);
}.

Definition wf_block (b : Block) : Prop :=
  wf_header (block_header b) /\ Forall wf_tx (transactions b) /\
  uint 64 (zlen (transactions b)) /\ zlen (transactions b) * 56 <= isize_max.

Definition strip_input (i : TransactionInput) : TransactionInput :=
  mkInput (previous_output i) (script_sig i) (sequence i) [].
Definition strip_witness (tx : Transaction) : Transaction :=
  mkTx (version tx) (map strip_input (inputs tx)) (outputs tx) (lock_time tx).

(** What survives encoding with the given stream flags. *)
Definition include_witness (flags : Z) (tx : Transaction) : bool :=
  include_transaction_witness (with_flags flags) && has_witness tx.
Definition kept (flags : Z) (tx : Transaction) : Transaction :=
  if include_witness flags tx then tx else strip_witness tx.
Definition kept_block (flags : Z) (b : Block) : Block :=
  mkBlock (block_header b) (map (kept flags) (transactions b)).

(** * Laws *)

#[global] Instance outpoint_laws : CodecLaws outpoint_codec (fun _ o => wf_outpoint o) same.
Proof.
  eapply codec_laws_impl; [apply struct_laws, fields_laws; apply _| |].
  - intros f o [H1 H2]. done.
  - by intros f [] _.
Qed.

#[global] Instance input_laws : CodecLaws input_codec (fun _ i => wf_input i) (fun _ i => strip_input i).
Proof.
  eapply codec_laws_impl; [apply struct_laws, fields_laws; [apply _|apply fields_laws; apply _]| |].
  - intros f o (H1 & H2 & H3). done.
  - done.
Qed.

#[global] Instance output_laws : CodecLaws output_codec (fun _ o => wf_output o) same.
Proof.
  eapply codec_laws_impl; [apply struct_laws, fields_laws; apply _| |].
  - intros f o [H1 H2]. done.
  - by intros f [] _.
Qed.

#[global] Instance header_laws : CodecLaws header_codec (fun _ h => wf_header h) same.
Proof.
  eapply codec_laws_impl.
  { apply struct_laws, fields_laws; [apply _|]. apply fields_laws; [apply _|].
    apply fields_laws; [apply _|]. apply fields_laws; [apply _|]. apply fields_laws; apply _. }
  - intros f h []. done.
  - by intros f [] _.
Qed.

#[global] Instance header_size : SizeLaw header_codec (fun _ h => wf_header h).
Proof.
  intros h [? Hp Hr ? ? ?]. change (to_bytes header_codec h) with
    ((((((le_bytes 4 (hd_version h) ++ previous_header_hash h) ++ merkle_root_hash h) ++
     le_bytes 4 (time h)) ++ le_bytes 4 (bits h)) ++ le_bytes 4 (nonce h))).
  by rewrite !length_app, Hp, Hr, !length_le_bytes.
Qed.

(** The encoding of a transaction as one byte string. *)
Definition witnesses_bytes (ins : list TransactionInput) : bytes :=
  concat (map (fun i => compact_bytes (zlen (script_witness i)) ++
                        items_bytes bytes_codec 0 (script_witness i)) ins).

Definition transaction_bytes (flags : Z) (tx : Transaction) : bytes :=
  let ins := compact_bytes (zlen (inputs tx)) ++ items_bytes input_codec 0 (inputs tx) in
  let outs := compact_bytes (zlen (outputs tx)) ++ items_bytes output_codec 0 (outputs tx) in
  if include_witness flags tx then
    le_bytes 4 (version tx) ++ [x00; x01] ++ ins ++ outs ++ witnesses_bytes (inputs tx) ++
    le_bytes 4 (lock_time tx)
  else le_bytes 4 (version tx) ++ ins ++ outs ++ le_bytes 4 (lock_time tx).

(** The flags only matter at the level of a transaction. *)
Lemma items_bytes_flags {A} (c : Codec A) f f' t :
  (forall x, to_bytes_with_flags c f x = to_bytes_with_flags c f' x) ->
  items_bytes c f t = items_bytes c f' t.
Proof. intros H. unfold items_bytes. f_equal. by apply map_ext. Qed.

Lemma bytes_codec_flags f f' x : to_bytes_with_flags bytes_codec f x = to_bytes_with_flags bytes_codec f' x.
Proof. unfold to_bytes_with_flags, out, append. by rewrite !bytes_serialize. Qed.

Lemma input_codec_flags f f' x : to_bytes_with_flags input_codec f x = to_bytes_with_flags input_codec f' x.
Proof.
  change (to_bytes_with_flags (fields outpoint_codec (fields bytes_codec u32_codec)) f
    (previous_output x, (script_sig x, sequence x)) =
    to_bytes_with_flags (fields outpoint_codec (fields bytes_codec u32_codec)) f'
    (previous_output x, (script_sig x, sequence x))).
  rewrite !(fields_bytes outpoint_codec (fields bytes_codec u32_codec) _ _ _ _),
    !(fields_bytes bytes_codec u32_codec _ _ _ _). cbn [fst snd].
  by rewrite (bytes_codec_flags f f').
Qed.

Lemma output_codec_flags f f' x : to_bytes_with_flags output_codec f x = to_bytes_with_flags output_codec f' x.
Proof.
  change (to_bytes_with_flags (fields u64_codec bytes_codec) f (value x, script_pubkey x) =
    to_bytes_with_flags (fields u64_codec bytes_codec) f' (value x, script_pubkey x)).
  rewrite !(fields_bytes u64_codec bytes_codec _ _ _ _). cbn [fst snd]. by rewrite (bytes_codec_flags f f').
Qed.

Lemma serialize_witnesses_bytes ins s :
  serialize_witnesses ins s = append_slice (witnesses_bytes ins) s.
Proof.
  unfold serialize_witnesses, witnesses_bytes. revert s.
  induction ins as [|i ins IH]; intros s; cbn [foldl map concat]; [by rewrite append_slice_nil|].
  rewrite IH, (append_list_bytes bytes_codec _ _), append_slice_app.
  by rewrite (items_bytes_flags bytes_codec (stream_flags s) 0) by apply bytes_codec_flags.
Qed.

Lemma serialize_transaction_bytes tx s :
  serialize_transaction tx s = append_slice (transaction_bytes (stream_flags s) tx) s.
Proof.
  unfold serialize_transaction, transaction_bytes, include_witness.
  change (include_transaction_witness (with_flags (stream_flags s))) with (include_transaction_witness s).
  destruct (include_transaction_witness s && has_witness tx); cbn [negb]; unfold append;
    rewrite ?serialize_witnesses_bytes, (append_list_bytes output_codec _ _), (append_list_bytes input_codec _ _);
    cbn [serialize u8_codec u32_codec i32_codec uint_codec sint_codec];
    rewrite ?append_slice_flags, !append_slice_app, <- !app_assoc;
    by rewrite (items_bytes_flags output_codec (stream_flags s) 0) by apply output_codec_flags;
       rewrite (items_bytes_flags input_codec (stream_flags s) 0) by apply input_codec_flags.
Qed.

Lemma transaction_to_bytes flags tx :
  to_bytes_with_flags transaction_codec flags tx = transaction_bytes flags tx.
Proof.
  unfold to_bytes_with_flags, out, append. cbn [serialize transaction_codec].
  by rewrite serialize_transaction_bytes.
Qed.

Lemma map_same {A} (l : list A) : map (fun x => x) l = l.
Proof. apply map_id. Qed.

Lemma read_witnesses_spec ins r rest :
  Forall wf_witness ins -> pending r = witnesses_bytes ins ++ rest ->
  exists r', read_witnesses (map strip_input ins) r = Ok (ins, r') /\ pending r' = rest.
Proof.
  intros Hw. revert r. induction Hw as [|i ins (Hf & Hu & Hc) Hw IH]; intros r Hp.
  { by exists r. }
  cbn [map read_witnesses]. unfold witnesses_bytes in Hp. cbn [map concat] in Hp.
  rewrite <- !app_assoc in Hp.
  apply (read_list_serialize bytes_codec _ _ 0) in Hp as (r1 & -> & Hp1); [|done..].
  cbn [mbind outcome_bind]. destruct (IH r1 Hp1) as (r2 & -> & Hp2). cbn [mbind outcome_bind].
  exists r2. rewrite map_same. by destruct i.
Qed.

Lemma read_inputs tx r rest :
  wf_tx tx ->
  pending r = compact_bytes (zlen (inputs tx)) ++ items_bytes input_codec 0 (inputs tx) ++ rest ->
  exists r', read_list input_codec r = Ok (map strip_input (inputs tx), r') /\ pending r' = rest.
Proof.
  intros [] Hp. apply (read_list_serialize input_codec (fun _ i => wf_input i) (fun _ i => strip_input i) 0);
    try done; apply wf_inputs_len0.
Qed.

Lemma read_outputs tx r rest :
  wf_tx tx ->
  pending r = compact_bytes (zlen (outputs tx)) ++ items_bytes output_codec 0 (outputs tx) ++ rest ->
  exists r', read_list output_codec r = Ok (outputs tx, r') /\ pending r' = rest.
Proof.
  intros [] Hp.
  destruct (read_list_serialize output_codec (fun _ o => wf_output o) same 0 (outputs tx) r rest)
    as (r' & Hr & Hp'); try done; [apply wf_outputs_len0..|].
  rewrite map_same in Hr. eauto.
Qed.

Lemma deserialize_transaction_bytes flags tx r rest :
  wf_tx tx -> pending r = transaction_bytes flags tx ++ rest ->
  exists r', deserialize_transaction r = Ok (kept flags tx, r') /\ pending r' = rest.
Proof.
  intros Hwf Hp. unfold transaction_bytes in Hp. unfold deserialize_transaction, kept.
  destruct (include_witness flags tx); rewrite <- !app_assoc in Hp.
  - destruct (deserialize_serialize (c := i32_codec) 0 (version tx) r _ (wf_version _ Hwf) Hp) as (r1 & -> & Hp1).
    cbn [mbind outcome_bind].
    destruct (read_list_serialize input_codec _ _ 0 [] r1 _ (Forall_nil_2 _) ltac:(done) ltac:(done) Hp1)
      as (r2 & -> & Hp2).
    cbn [mbind outcome_bind map]. rewrite bool_decide_true by done.
    destruct (read_uint 0 r2 1 _ ltac:(done) Hp2) as (r3 & H3 & Hp3). unfold u8_codec. rewrite H3.
    cbn [mbind outcome_bind]. change (negb (1 =? WITNESS_FLAG)) with false. cbn iota.
    destruct (read_inputs tx r3 _ Hwf Hp3) as (r4 & -> & Hp4). cbn [mbind outcome_bind].
    destruct (read_outputs tx r4 _ Hwf Hp4) as (r5 & -> & Hp5). cbn [mbind outcome_bind].
    destruct (read_witnesses_spec _ r5 _ (wf_witnesses _ Hwf) Hp5) as (r6 & -> & Hp6). cbn [mbind outcome_bind].
    destruct (read_uint 3 r6 (lock_time tx) rest (wf_lock_time _ Hwf) Hp6) as (r7 & H7 & Hp7).
    unfold u32_codec. rewrite H7. exists r7. by destruct tx.
  - destruct (deserialize_serialize (c := i32_codec) 0 (version tx) r _ (wf_version _ Hwf) Hp) as (r1 & -> & Hp1).
    cbn [mbind outcome_bind].
    destruct (read_inputs tx r1 _ Hwf Hp1) as (r2 & -> & Hp2). cbn [mbind outcome_bind].
    rewrite bool_decide_false by (intros Hn; by apply map_eq_nil, (wf_inputs_ne _ Hwf) in Hn).
    cbn [mbind outcome_bind].
    destruct (read_outputs tx r2 _ Hwf Hp2) as (r5 & -> & Hp5). cbn [mbind outcome_bind].
    destruct (read_uint 3 r5 (lock_time tx) rest (wf_lock_time _ Hwf) Hp5) as (r7 & H7 & Hp7).
    unfold u32_codec. rewrite H7. by exists r7.
Qed.

(** A field that is read takes input away, or leaves it. *)
Lemma read_list_progress {A} (c : Codec A) wf norm `{!CodecLaws c wf norm} r x r' :
  read_list c r = Ok (x, r') -> (length (pending r') < length (pending r))%nat.
Proof. apply (deserialize_progress (c := list_codec c)). Qed.

Lemma read_list_terminates {A} (c : Codec A) wf norm `{!CodecLaws c wf norm} r :
  read_list c r <> Diverge.
Proof. apply (deserialize_terminates (c := list_codec c)). Qed.

Lemma read_witnesses_progress ins r x r' :
  read_witnesses ins r = Ok (x, r') -> (length (pending r') <= length (pending r))%nat.
Proof.
  revert r x. induction ins as [|i ins IH]; intros r x; cbn [read_witnesses].
  { by intros [= _ <-]. }
  intros H. apply bind_Ok in H as ([w r1] & H1 & H). apply bind_Ok in H as ([rest r2] & H2 & H).
  injection H as _ <-. apply (read_list_progress bytes_codec _ _) in H1. apply IH in H2. lia.
Qed.

Lemma read_witnesses_terminates ins r : read_witnesses ins r <> Diverge.
Proof.
  revert r. induction ins as [|i ins IH]; intros r; cbn [read_witnesses]; [done|].
  apply bind_terminates; [apply (read_list_terminates bytes_codec _ _)|]. intros [w r1] _.
  apply bind_terminates; [apply IH|]. by intros [rest r2] _.
Qed.

Lemma deserialize_transaction_progress r x r' :
  deserialize_transaction r = Ok (x, r') -> (length (pending r') < length (pending r))%nat.
Proof.
  unfold deserialize_transaction. intros H. apply bind_Ok in H as ([v r1] & H1 & H).
  apply bind_Ok in H as ([ins r2] & H2 & H). apply bind_Ok in H as ([[w ins'] r3] & H3 & H).
  apply bind_Ok in H as ([outs r4] & H4 & H). apply bind_Ok in H as ([ins2 r5] & H5 & H).
  apply bind_Ok in H as ([lt r6] & H6 & H). injection H as _ <-.
  apply (deserialize_progress (c := i32_codec)) in H1. apply (read_list_progress input_codec _ _) in H2.
  apply (read_list_progress output_codec _ _) in H4. apply (deserialize_progress (c := u32_codec)) in H6.
  assert (length (pending r3) <= length (pending r2))%nat.
  { destruct (bool_decide _); [|injection H3 as _ _ <-; lia].
    apply bind_Ok in H3 as ([f r7] & H7 & H3). destruct (negb _); [discriminate|].
    apply bind_Ok in H3 as ([ins3 r8] & H8 & H3). injection H3 as _ _ <-.
    apply (deserialize_progress (c := u8_codec)) in H7. apply (read_list_progress input_codec _ _) in H8. lia. }
  assert (length (pending r5) <= length (pending r4))%nat.
  { destruct w; [by apply read_witnesses_progress in H5|injection H5 as _ <-; lia]. }
  lia.
Qed.

Lemma deserialize_transaction_terminates r : deserialize_transaction r <> Diverge.
Proof.
  unfold deserialize_transaction.
  apply bind_terminates; [apply (deserialize_terminates (c := i32_codec))|]. intros [v r1] _.
  apply bind_terminates; [apply (read_list_terminates input_codec _ _)|]. intros [ins r2] _.
  apply bind_terminates.
  { destruct (bool_decide _); [|done].
    apply bind_terminates; [apply (deserialize_terminates (c := u8_codec))|]. intros [f r3] _.
    destruct (negb _); [done|]. apply bind_terminates; [apply (read_list_terminates input_codec _ _)|].
    by intros [? ?] _. }
  intros [[w ins'] r3] _. apply bind_terminates; [apply (read_list_terminates output_codec _ _)|].
  intros [outs r4] _. apply bind_terminates; [destruct w; [apply read_witnesses_terminates|done]|].
  intros [ins2 r5] _. apply bind_terminates; [apply (deserialize_terminates (c := u32_codec))|].
  by intros [? ?] _.
Qed.

#[global] Instance transaction_laws : CodecLaws transaction_codec (fun _ tx => wf_tx tx) kept.
Proof.
  split.
  - intros tx s. rewrite transaction_to_bytes. apply serialize_transaction_bytes.
  - intros f tx r rest Hwf Hp. rewrite transaction_to_bytes in Hp. by apply deserialize_transaction_bytes.
  - apply deserialize_transaction_progress.
  - apply deserialize_transaction_terminates.
Qed.

#[global] Instance transaction_size wf : SizeLaw transaction_codec wf.
Proof. done. Qed.

#[global] Instance block_laws : CodecLaws block_codec (fun _ b => wf_block b) kept_block.
Proof.
  eapply codec_laws_impl; [apply struct_laws, fields_laws; apply _| |].
  - intros f b (H1 & H2 & H3 & H4). done.
  - by intros f [] _.
Qed.

End Chain.
