(* ===== verification/ChainHash.v ===== *)
(** Hashes of transactions, headers and blocks, reading with hashing, the indexed
    structures and the merkle root (src/chain/src: transaction.rs, block_header.rs,
    read_and_hash.rs, indexed_*.rs, merkle_root.rs). *)
From Stdlib Require Import ZArith Lia Strings.Byte.
From stdpp Require Import base decidable numbers list sets.
From S2P Require Import Prelude Crypto Serialization Codec Chain.

Local Open Scope Z_scope.

Module ChainHash.
Import Ser Derive Chain.

Record HashedData (A : Type) := mkHashed { hd_size : Z; hd_hash : bytes; hd_data : A }.
Arguments mkHashed {A}.
Arguments hd_size {A}.
Arguments hd_hash {A}.
Arguments hd_data {A}.

Record IndexedTransaction := mkIndexedTx { itx_hash : bytes; itx_raw : Transaction }.
Record IndexedBlockHeader := mkIndexedHeader { ih_hash : bytes; ih_raw : BlockHeader }.
Record IndexedBlock := mkIndexedBlock {
  ib_header : IndexedBlockHeader;
  ib_transactions : list IndexedTransaction;
}.

Section hash.
Context `{Crypto}.

Definition transaction_hash (tx : Transaction) : bytes := dhash256 (to_bytes transaction_codec tx).
Definition witness_hash (tx : Transaction) : bytes :=
  dhash256 (to_bytes_with_flags transaction_codec SERIALIZE_TRANSACTION_WITNESS tx).
Definition block_header_hash (h : BlockHeader) : bytes := dhash256 (to_bytes header_codec h).

(** [read_and_hash]: the proxy feeds every chunk it reads to the hasher, so the
    hasher's input is the part of the input the decoder consumed. *)
Definition read_and_hash {A} (c : Codec A) (r : Reader) : outcome ReaderError (HashedData A * Reader) :=
  '(x, r') ← deserialize c r;
  let consumed := take (length (pending r) - length (pending r')) (pending r) in
  let hasher := DHash256_input DHash256_new consumed in
  Ok (mkHashed (zlen consumed) (DHash256_finish hasher) x, r').

(** * Indexed structures *)

Definition indexed_from_raw (tx : Transaction) : IndexedTransaction :=
  mkIndexedTx (transaction_hash tx) tx.
Definition indexed_header_from_raw (h : BlockHeader) : IndexedBlockHeader :=
  mkIndexedHeader (block_header_hash h) h.
Definition indexed_block_from_raw (b : Block) : IndexedBlock :=
  mkIndexedBlock (indexed_header_from_raw (block_header b)) (map indexed_from_raw (transactions b)).

Definition deserialize_indexed_transaction (r : Reader)
    : outcome ReaderError (IndexedTransaction * Reader) :=
  '(d, r) ← read_and_hash transaction_codec r; Ok (mkIndexedTx (hd_hash d) (hd_data d), r).

(** The size of an [IndexedTransaction] in memory: a hash, two vectors and two words. *)
Definition indexed_transaction_size_of : Z := 88.

Definition deserialize_indexed_header (r : Reader) : outcome ReaderError (IndexedBlockHeader * Reader) :=
  '(d, r) ← read_and_hash header_codec r; Ok (mkIndexedHeader (hd_hash d) (hd_data d), r).

Definition deserialize_indexed_block (r : Reader) : outcome ReaderError (IndexedBlock * Reader) :=
  '(h, r) ← deserialize_indexed_header r;
  '(txs, r) ← read_list_of indexed_transaction_size_of deserialize_indexed_transaction r;
  Ok (mkIndexedBlock h txs, r).

Definition to_raw_block (b : IndexedBlock) : Block :=
  mkBlock (ih_raw (ib_header b)) (map itx_raw (ib_transactions b)).

Definition block_size (b : IndexedBlock) : Z :=
  serialized_size header_codec (ih_raw (ib_header b)) +
  serialized_list_size transaction_codec (map itx_raw (ib_transactions b)).

Definition block_size_with_witness (b : IndexedBlock) : Z :=
  serialized_size header_codec (ih_raw (ib_header b)) +
  (serialized_size compact_integer_codec (zlen (ib_transactions b)) +
   foldr Z.add 0 (map (fun tx => transaction_size_with_flags SERIALIZE_TRANSACTION_WITNESS (itx_raw tx))
                    (ib_transactions b))).

Definition block_is_final (b : IndexedBlock) (height : Z) : bool :=
  forallb (fun tx => is_final_in_block (itx_raw tx) height (time (ih_raw (ib_header b))))
    (ib_transactions b).

(** * The merkle root *)

Definition merkle_node_hash (left right : bytes) : bytes := dhash256 (left ++ right).

(** The pairs of one level; the last element of an odd level is paired with itself. *)
Fixpoint row (hashes : list bytes) : list (bytes * bytes) :=
  match hashes with
  | [] => []
  | [a] => [(a, a)]
  | a :: b :: rest => (a, b) :: row rest
  end.

Definition next_level (hashes : list bytes) : list bytes :=
  map (fun p => merkle_node_hash p.1 p.2) (row hashes).

(** The recursion ends only on a single hash. *)
Fixpoint merkle_root_fuel {E} (fuel : nat) (hashes : list bytes) : outcome E bytes :=
  match fuel with
  | O => Diverge
  | S fuel' =>
      match hashes with
      | [h] => Ok h
      | _ => merkle_root_fuel fuel' (next_level hashes)
      end
  end.

(** The number of hashes is fuel enough, as [merkle_root_total] shows. *)
Definition merkle_root {E} (hashes : list bytes) : outcome E bytes :=
  merkle_root_fuel (length hashes) hashes.

(** The byte strings that are hashed on the way to the root, level by level. *)
Definition level_nodes (hashes : list bytes) : list bytes := map (fun p => p.1 ++ p.2) (row hashes).

Fixpoint merkle_nodes_fuel (fuel : nat) (hashes : list bytes) : list bytes :=
  match fuel with
  | O => []
  | S fuel' =>
      match hashes with
      | [] | [_] => []
      | _ => level_nodes hashes ++ merkle_nodes_fuel fuel' (next_level hashes)
      end
  end.
Definition merkle_nodes (hashes : list bytes) : list bytes := merkle_nodes_fuel (length hashes) hashes.

Definition block_merkle_root {E} (b : IndexedBlock) : outcome E bytes :=
  merkle_root (map itx_hash (ib_transactions b)).

Definition block_witness_merkle_root {E} (b : IndexedBlock) : outcome E bytes :=
  merkle_root (match ib_transactions b with
               | [] => []
               | _ :: rest => zero_hash :: map (fun tx => witness_hash (itx_raw tx)) rest
               end).

(** * Lemmas *)

Lemma length_row hashes : length (row hashes) = Nat.div2 (S (length hashes)).
Proof.
  assert (forall n hashes, (length hashes <= n)%nat -> length (row hashes) = Nat.div2 (S (length hashes))) as Hn.
  { induction n as [|n IH]; intros [|a [|b l]] Hl; cbn in *; try done; try lia.
    rewrite IH by lia. done. }
  by apply (Hn (length hashes)).
Qed.

Lemma length_next_level hashes : length (next_level hashes) = Nat.div2 (S (length hashes)).
Proof. unfold next_level. by rewrite length_map, length_row. Qed.

Lemma div2_S_lt n : (2 <= n)%nat -> (1 <= Nat.div2 (S n) < n)%nat.
Proof.
  intros Hn. pose proof (Nat.div2_odd (S n)) as Ho. destruct (Nat.odd (S n)); cbn [Nat.b2n] in Ho; lia.
Qed.

Lemma merkle_root_fuel_total {E} fuel hashes :
  hashes <> [] -> (length hashes <= fuel)%nat -> exists h, @merkle_root_fuel E fuel hashes = Ok h.
Proof.
  revert hashes. induction fuel as [|fuel IH]; intros hashes Hne Hl.
  { destruct hashes; [done|cbn in Hl; lia]. }
  cbn [merkle_root_fuel]. destruct hashes as [|a [|b l]]; [done|by eexists|].
  pose proof (div2_S_lt (length (a :: b :: l)) ltac:(cbn; lia)) as Hlt.
  apply IH; [intros Hn; apply (f_equal length) in Hn|]; rewrite length_next_level in *;
    [change (length (@nil bytes)) with 0%nat in Hn|]; lia.
Qed.

(** More fuel than needed changes nothing. *)
Lemma merkle_root_fuel_enough {E} fuel fuel' hashes :
  hashes <> [] -> (length hashes <= fuel)%nat -> (length hashes <= fuel')%nat ->
  @merkle_root_fuel E fuel hashes = merkle_root_fuel fuel' hashes.
Proof.
  revert fuel' hashes. induction fuel as [|fuel IH]; intros fuel' hashes Hne Hl Hl'.
  { destruct hashes; [done|cbn in Hl; lia]. }
  destruct fuel' as [|fuel']; [destruct hashes; [done|cbn in Hl'; lia]|].
  cbn [merkle_root_fuel]. destruct hashes as [|a [|b l]]; [done|done|].
  pose proof (div2_S_lt (length (a :: b :: l)) ltac:(cbn; lia)) as Hlt.
  apply IH; [intros Hn; apply (f_equal length) in Hn|..]; rewrite length_next_level in *;
    [change (length (@nil bytes)) with 0%nat in Hn|..]; lia.
Qed.

Lemma merkle_root_step {E} hashes :
  (2 <= length hashes)%nat -> @merkle_root E hashes = merkle_root (next_level hashes).
Proof.
  intros Hl. unfold merkle_root. pose proof (div2_S_lt (length hashes) Hl) as Hlt.
  destruct (length hashes) as [|n] eqn:En; [lia|].
  assert (merkle_root_fuel (S n) hashes = @merkle_root_fuel E n (next_level hashes)) as ->.
  { cbn [merkle_root_fuel]. destruct hashes as [|a [|b l]]; [done|cbn in En; lia|done]. }
  apply merkle_root_fuel_enough; rewrite ?length_next_level, ?En; [|lia..].
  intros Hn. apply (f_equal length) in Hn. rewrite length_next_level, En in Hn.
  change (length (@nil bytes)) with 0%nat in Hn. lia.
Qed.

Lemma merkle_nodes_fuel_enough fuel fuel' hashes :
  (length hashes <= fuel)%nat -> (length hashes <= fuel')%nat ->
  merkle_nodes_fuel fuel hashes = merkle_nodes_fuel fuel' hashes.
Proof.
  revert fuel' hashes. induction fuel as [|fuel IH]; intros fuel' hashes Hl Hl'.
  { destruct hashes; [by destruct fuel'|cbn in Hl; lia]. }
  destruct fuel' as [|fuel']; [destruct hashes; [done|cbn in Hl'; lia]|].
  cbn [merkle_nodes_fuel]. destruct hashes as [|a [|b l]]; [done|done|]. f_equal.
  pose proof (div2_S_lt (length (a :: b :: l)) ltac:(cbn; lia)) as Hlt.
  apply IH; rewrite length_next_level; lia.
Qed.

Lemma merkle_nodes_step hashes :
  (2 <= length hashes)%nat -> merkle_nodes hashes = level_nodes hashes ++ merkle_nodes (next_level hashes).
Proof.
  intros Hl. unfold merkle_nodes at 1. pose proof (div2_S_lt (length hashes) Hl) as Hlt.
  destruct (length hashes) as [|n] eqn:En; [lia|].
  assert (merkle_nodes_fuel (S n) hashes = level_nodes hashes ++ merkle_nodes_fuel n (next_level hashes)) as ->.
  { cbn [merkle_nodes_fuel]. destruct hashes as [|a [|b l]]; cbn in En; [lia|lia|done]. }
  f_equal. apply merkle_nodes_fuel_enough; rewrite length_next_level, En; lia.
Qed.

End hash.

(** * Binding *)

(** Among these byte strings there are two different ones with the same double hash.
    Since the digest is shorter than its inputs such strings exist; the claims below are
    that they are at hand, among the strings that were hashed. *)
Definition collides `{Crypto} (inputs : list bytes) : Prop :=
  exists x y, x ∈ inputs /\ y ∈ inputs /\ x <> y /\ dhash256 x = dhash256 y.

Lemma collides_mono `{Crypto} inputs inputs' : inputs ⊆ inputs' -> collides inputs -> collides inputs'.
Proof. intros Hs (x & y & Hx & Hy & Hc). exists x, y. split; [by apply Hs|]. split; [by apply Hs|done]. Qed.

Lemma collides_same `{Crypto} x l : Forall (fun y => y = x) l -> ~ collides l.
Proof.
  intros Hl (a & b & Ha & Hb & Hne & _). rewrite Forall_forall in Hl. by rewrite (Hl a Ha), (Hl b Hb) in Hne.
Qed.

Section binding.
Context `{CryptoLaws}.
Abbreviation hashes32 := (Forall (fun h : bytes => length h = 32%nat)).

Lemma node_inj inputs a b a' b' :
  length a = 32%nat -> length a' = 32%nat -> a ++ b ∈ inputs -> a' ++ b' ∈ inputs ->
  merkle_node_hash a b = merkle_node_hash a' b' -> (a = a' /\ b = b') \/ collides inputs.
Proof.
  intros Ha Ha' Hi Hi' He. destruct (decide (a ++ b = a' ++ b')) as [Heq|Hne].
  - left. apply app_inj_1 in Heq; [done|lia].
  - right. by exists (a ++ b), (a' ++ b').
Qed.

Lemma next_level_inj inputs l l' :
  length l = length l' -> hashes32 l -> hashes32 l' ->
  level_nodes l ⊆ inputs -> level_nodes l' ⊆ inputs -> next_level l = next_level l' ->
  l = l' \/ collides inputs.
Proof.
  unfold next_level, level_nodes. remember (length l) as n eqn:Hn. revert l l' Hn.
  induction n as [n IH] using lt_wf_ind. intros [|a [|b l]] [|a' [|b' l']] Hn Hl Ha Ha' Hs Hs' He;
    cbn in Hn, Hl; subst n; try lia; [by left| |]; cbn in Hs, Hs'.
  - cbn in He. injection He as He. inversion Ha; inversion Ha'; subst.
    apply (node_inj inputs) in He as [[-> _]|Hc]; [by left|by right|done|done|set_solver|set_solver].
  - cbn in He. injection He as He Hr.
    inversion Ha as [|? ? Ha1 Ha2]; subst. inversion Ha2 as [|? ? Ha3 Ha4]; subst.
    inversion Ha' as [|? ? Ha1' Ha2']; subst. inversion Ha2' as [|? ? Ha3' Ha4']; subst.
    apply (node_inj inputs) in He as [[-> ->]|Hc]; [|by right|done|done|set_solver|set_solver].
    assert (length l < S (S (length l)))%nat as Hlt by lia.
    destruct (IH (length l) Hlt l l') as [->|Hc]; [done|lia|done|done|set_solver|set_solver|done|by left|by right].
Qed.

Lemma next_level_32 l : hashes32 (next_level l).
Proof.
  unfold next_level. apply Forall_map, Forall_true. intros p. apply length_dhash256.
Qed.

Lemma merkle_root_inj {E} l l' :
  length l = length l' -> l <> [] -> hashes32 l -> hashes32 l' ->
  @merkle_root _ E l = merkle_root l' -> l = l' \/ collides (merkle_nodes l ++ merkle_nodes l').
Proof.
  remember (length l) as n eqn:Hn. revert l l' Hn.
  induction n as [n IH] using lt_wf_ind. intros l l' Hn Hl Hne Ha Ha' He.
  destruct (decide (n <= 1)%nat) as [Hle|Hgt].
  - destruct l as [|a [|]]; cbn in Hn; [done| |lia]. destruct l' as [|a' [|]]; cbn in Hl; try lia.
    cbn in He. injection He as ->. by left.
  - rewrite (merkle_root_step l), (merkle_root_step l') in He by lia.
    rewrite (merkle_nodes_step l), (merkle_nodes_step l') by lia.
    pose proof (div2_S_lt n ltac:(lia)) as Hlt.
    destruct (IH (Nat.div2 (S n)) (proj2 Hlt) (next_level l) (next_level l')) as [He'|Hc];
      try apply next_level_32; try done.
    + by rewrite length_next_level, Hn.
    + by rewrite length_next_level, Hl.
    + intros Hnil. apply (f_equal length) in Hnil. rewrite length_next_level, <- Hn in Hnil.
      change (length (@nil bytes)) with 0%nat in Hnil. lia.
    + apply next_level_inj; try done; [lia|set_solver|set_solver].
    + right. eapply collides_mono, Hc. set_solver.
Qed.

End binding.

(** Repeating the last hash of an odd level. *)
Lemma row_duplicate l a :
  Nat.even (length l) = true -> row (l ++ [a; a]) = row (l ++ [a]).
Proof.
  remember (length l) as n eqn:Hn. revert l Hn. induction n as [n IH] using lt_wf_ind.
  intros [|x [|y l]] Hn He; subst n; [done|done|].
  cbn [app row]. f_equal. apply (IH (length l)); [cbn; lia|done|done].
Qed.

(** * Hashing while reading *)

Section reading.
Context `{Crypto}.

Lemma read_and_hash_serialize {A} (c : Codec A) wf norm `{!CodecLaws c wf norm} flags x r rest :
  wf flags x -> pending r = to_bytes_with_flags c flags x ++ rest ->
  exists r', read_and_hash c r =
      Ok (mkHashed (zlen (to_bytes_with_flags c flags x))
            (dhash256 (to_bytes_with_flags c flags x)) (norm flags x), r') /\ pending r' = rest.
Proof.
  intros Hx Hp. unfold read_and_hash.
  destruct (deserialize_serialize flags x r rest Hx Hp) as (r' & -> & Hp'). cbn [mbind outcome_bind].
  exists r'. rewrite Hp, Hp', length_app, Nat.add_sub, take_app_length. done.
Qed.

Lemma indexed_transaction_read flags tx r rest :
  wf_tx tx -> pending r = transaction_bytes flags tx ++ rest ->
  exists r', deserialize_indexed_transaction r =
    Ok (mkIndexedTx (dhash256 (transaction_bytes flags tx)) (kept flags tx), r') /\ pending r' = rest.
Proof.
  intros Hwf Hp. rewrite <- transaction_to_bytes in *. unfold deserialize_indexed_transaction.
  destruct (read_and_hash_serialize transaction_codec (fun _ t => wf_tx t) kept flags tx r rest Hwf Hp)
    as (r' & -> & Hp'). by exists r'.
Qed.

End reading.

(** * Properties *)

(** C29: a transaction written with any stream flags and read back is the same
    transaction, without its witness data exactly when the flags leave it out or
    there is none; a reader stops right after it, and left-over input is reported.  The
    fields are in the ranges of their types, and the transaction has an input: one
    without inputs starts like the marker of witness data. *)
Theorem transaction_roundtrip flags tx rest :
  wf_tx tx ->
  from_bytes transaction_codec (to_bytes_with_flags transaction_codec flags tx) = Ok (kept flags tx) /\
  (rest <> [] ->
   from_bytes transaction_codec (to_bytes_with_flags transaction_codec flags tx ++ rest) = Err UnreadData).
Proof.
  intros Hwf. split.
  - by apply (from_bytes_to_bytes transaction_codec (fun _ t => wf_tx t) kept).
  - by apply (from_bytes_unread transaction_codec (fun _ t => wf_tx t) kept).
Qed.

(** Blocks round-trip in the same sense: header and transactions come back. *)
Theorem block_roundtrip flags b :
  wf_block b ->
  from_bytes block_codec (to_bytes_with_flags block_codec flags b) = Ok (kept_block flags b).
Proof. by apply (from_bytes_to_bytes block_codec (fun _ t => wf_block t) kept_block). Qed.

(** A block header is encoded in exactly 80 bytes and comes back unchanged. *)
Theorem header_roundtrip h :
  wf_header h ->
  from_bytes header_codec (to_bytes header_codec h) = Ok h /\
  zlen (to_bytes header_codec h) = 80 /\ serialized_size header_codec h = 80.
Proof.
  intros Hwf. split_and!.
  - by apply (from_bytes_to_bytes header_codec (fun _ t => wf_header t) same 0).
  - by rewrite <- (serialized_size_spec (c := header_codec)).
  - done.
Qed.

(** Reading an indexed transaction hashes the bytes it consumed.  For an
    encoding without witness data this is the transaction hash; for an encoding
    with witness data it is the witness hash, not the transaction hash that
    [from_raw] computes for the same transaction. *)
Theorem indexed_transaction_hash `{Crypto} flags tx :
  wf_tx tx ->
  from_bytes_of deserialize_indexed_transaction (to_bytes_with_flags transaction_codec flags tx) =
  Ok (mkIndexedTx (if include_witness flags tx then witness_hash tx else transaction_hash tx)
        (kept flags tx)).
Proof.
  intros Hwf. unfold from_bytes_of. rewrite transaction_to_bytes.
  destruct (indexed_transaction_read flags tx (reader_new (transaction_bytes flags tx)) [] Hwf)
    as (r & -> & Hp); [by rewrite app_nil_r|].
  cbn [mbind outcome_bind]. destruct (is_finished_spec r) as (r' & -> & _). cbn [mbind outcome_bind].
  rewrite Hp. cbn. do 2 f_equal. unfold witness_hash, transaction_hash.
  change (to_bytes transaction_codec tx) with (to_bytes_with_flags transaction_codec 0 tx).
  rewrite !transaction_to_bytes. unfold transaction_bytes.
  assert (include_witness 0 tx = false) as -> by done.
  unfold include_witness in *. destruct (include_transaction_witness (with_flags flags)); [|done].
  change (include_transaction_witness (with_flags SERIALIZE_TRANSACTION_WITNESS)) with true.
  by destruct (has_witness tx).
Qed.

(** The merkle root is computed for every non-empty list of hashes (as many
    rounds as hashes are enough), and for the empty list the recursion never ends,
    whatever the number of rounds. *)
Theorem merkle_root_total `{Crypto} {E} hashes fuel :
  (hashes <> [] -> exists h, @merkle_root _ E hashes = Ok h) /\
  @merkle_root_fuel _ E fuel [] = Diverge.
Proof.
  split; [intros Hne; by apply merkle_root_fuel_total|]. by induction fuel.
Qed.

(** C31: two transaction lists of the same length with the same merkle root are
    equal, or two different strings among those hashed in computing the two roots have
    the same double hash. *)
Theorem merkle_root_binding `{CryptoLaws} {E} l l' :
  length l = length l' -> l <> [] ->
  Forall (fun h : bytes => length h = 32%nat) l -> Forall (fun h : bytes => length h = 32%nat) l' ->
  @merkle_root _ E l = merkle_root l' -> l = l' \/ collides (merkle_nodes l ++ merkle_nodes l').
Proof. apply merkle_root_inj. Qed.

(** Lists of different lengths can share a root without any collision:
    repeating the last hash of an odd-length list (of three or more) keeps the root. *)
Theorem merkle_root_duplication `{Crypto} {E} l a :
  Nat.even (length l) = true -> l <> [] ->
  @merkle_root _ E (l ++ [a; a]) = merkle_root (l ++ [a]).
Proof.
  intros He Hne. destruct l as [|x [|y l]]; [done|done|].
  rewrite (merkle_root_step (_ ++ [a; a])), (merkle_root_step (_ ++ [a])) by (rewrite length_app; cbn; lia).
  unfold next_level. by rewrite row_duplicate.
Qed.

(** The total of the outputs saturates at the largest [u64] instead of
    wrapping around. *)
Theorem total_spends_spec tx :
  Forall (fun o => uint 64 (value o)) (outputs tx) ->
  total_spends tx = Z.min u64_max (foldr Z.add 0 (map value (outputs tx))).
Proof.
  unfold total_spends. intros Ho.
  assert (forall r, 0 <= r <= u64_max ->
    total_spends_loop (outputs tx) r = Z.min u64_max (r + foldr Z.add 0 (map value (outputs tx)))) as Hl.
  { induction Ho as [|o outs Hv Ho IH]; intros r Hr; cbn [total_spends_loop map foldr]; [lia|].
    assert (0 <= foldr Z.add 0 (map value outs)).
    { clear IH. induction Ho as [|? ? [Hv' _] _ IH']; cbn; lia. }
    unfold uint in Hv. destruct (_ <? _) eqn:E; bool_prop; [lia|]. rewrite IH by lia. lia. }
  rewrite Hl by lia. by rewrite Z.add_0_l.
Qed.

(** Witnesses: a transaction with one input, one output and a witness item. *)
Definition example_tx : Transaction :=
  mkTx 1 [mkInput (mkOutPoint (replicate 32 x07) 3) [x51] 4294967295 [[x01; x02]]]
    [mkOutput 5000 [x76; xa9]] 0.
Definition example_header : BlockHeader :=
  mkHeader 1 (replicate 32 x02) (replicate 32 x03) 4 5 6.

Lemma wf_example_tx : wf_tx example_tx.
Proof. split; cbn; repeat constructor; cbn; unfold isize_max; (done || lia). Qed.

Lemma wf_example_header : wf_header example_header.
Proof. split; cbn; unfold uint; (done || lia). Qed.

Lemma transaction_roundtrip_witness :
  from_bytes transaction_codec
    (to_bytes_with_flags transaction_codec SERIALIZE_TRANSACTION_WITNESS example_tx) =
  Ok (kept SERIALIZE_TRANSACTION_WITNESS example_tx) /\
  ([x00] <> [] ->
   from_bytes transaction_codec
     (to_bytes_with_flags transaction_codec SERIALIZE_TRANSACTION_WITNESS example_tx ++ [x00]) =
   Err UnreadData).
Proof. apply transaction_roundtrip. exact wf_example_tx. Defined.

Lemma block_roundtrip_witness :
  from_bytes block_codec (to_bytes_with_flags block_codec 0 (mkBlock example_header [example_tx])) =
  Ok (kept_block 0 (mkBlock example_header [example_tx])).
Proof.
  apply block_roundtrip. split; [exact wf_example_header|].
  split; [repeat constructor; apply wf_example_tx|]. cbn. unfold uint, isize_max. lia.
Defined.

Lemma header_roundtrip_witness :
  from_bytes header_codec (to_bytes header_codec example_header) = Ok example_header /\
  zlen (to_bytes header_codec example_header) = 80 /\ serialized_size header_codec example_header = 80.
Proof. apply header_roundtrip. exact wf_example_header. Defined.

Section witnesses.
Import ExampleCrypto.

Lemma indexed_transaction_hash_witness :
  from_bytes_of deserialize_indexed_transaction
    (to_bytes_with_flags transaction_codec SERIALIZE_TRANSACTION_WITNESS example_tx) =
  Ok (mkIndexedTx (if include_witness SERIALIZE_TRANSACTION_WITNESS example_tx
                   then witness_hash example_tx else transaction_hash example_tx)
        (kept SERIALIZE_TRANSACTION_WITNESS example_tx)).
Proof. apply indexed_transaction_hash. exact wf_example_tx. Defined.

Lemma merkle_root_total_witness :
  (([zero_hash; zero_hash; zero_hash] <> []) ->
   exists h, @merkle_root _ unit [zero_hash; zero_hash; zero_hash] = Ok h) /\
  @merkle_root_fuel _ unit 5 [] = Diverge.
Proof. apply merkle_root_total. Defined.

(** The example digest is a prefix, so that the second leaf does not matter; the theorem
    then exhibits the two nodes. *)
Lemma merkle_root_binding_witness :
  collides (merkle_nodes [zero_hash; zero_hash] ++ merkle_nodes [zero_hash; replicate 32 x01]).
Proof.
  destruct (@merkle_root_binding _ _ unit [zero_hash; zero_hash] [zero_hash; replicate 32 x01]) as [He|Hc];
    [done|done|by repeat constructor..|vm_compute; reflexivity|discriminate He|exact Hc].
Defined.

Lemma merkle_root_duplication_witness :
  @merkle_root _ unit ([zero_hash; zero_hash] ++ [zero_hash; zero_hash]) =
  merkle_root ([zero_hash; zero_hash] ++ [zero_hash]).
Proof. by apply merkle_root_duplication. Defined.

End witnesses.

Lemma total_spends_spec_witness :
  total_spends (mkTx 1 [] [mkOutput u64_max []; mkOutput 1 []] 0) =
  Z.min u64_max (foldr Z.add 0 (map value [mkOutput u64_max []; mkOutput 1 []])).
Proof.
  apply (total_spends_spec (mkTx 1 [] [mkOutput u64_max []; mkOutput 1 []] 0)).
  repeat constructor; cbn; lia.
Defined.

End ChainHash.
