(* ===== verification/Typed.v ===== *)
(** What is read is well-typed: a codec of serialization/src and chain/src only yields
    values whose fields are in the ranges of their Rust types, so that they can be
    written and read again. *)
From Stdlib Require Import ZArith Lia Strings.Byte.
From stdpp Require Import base decidable numbers list.
From S2P Require Import Prelude Crypto Serialization Codec Chain ChainHash.

Local Open Scope Z_scope.

Module Typed.
Import Ser Derive Chain ChainHash.

(** The values a codec can read. *)
Class CodecTyped {A} (c : Codec A) (ty : A -> Prop) :=
  deserialize_typed r x r' : deserialize c r = Ok (x, r') -> ty x.

#[export] Instance uint_typed n : CodecTyped (uint_codec n) (fun z => uint (8 * Z.of_nat n) z).
Proof.
  intros r z r' Hd. apply uint_deserialize_bound in Hd. unfold uint.
  rewrite Z.pow_mul_r by lia. done.
Qed.

#[export] Instance i32_typed : CodecTyped i32_codec (sint 32).
Proof.
  intros r z r' Hd. cbn [deserialize i32_codec sint_codec] in Hd.
  apply bind_Ok in Hd as ([bs r1] & _ & Hd). injection Hd as <- _. unfold swrap, sint.
  change (2 ^ (8 * Z.of_nat 4)) with 4294967296. change (2 ^ (8 * Z.of_nat 4 - 1)) with 2147483648.
  pose proof (Z.mod_pos_bound (le_value bs + 2147483648) 4294967296). lia.
Qed.

Lemma read_slice_length n r bs r' : 0 <= n -> read_slice n r = Ok (bs, r') -> zlen bs = n.
Proof.
  intros Hn Hr. destruct (read_slice_cases n r) as [(bs' & r1 & H1 & H2 & H3)|[H1 _]]; [done| |congruence].
  rewrite H1 in Hr. injection Hr as <- <-. done.
Qed.

#[export] Instance hash_typed n : CodecTyped (hash_codec n) (fun h => length h = n).
Proof. intros r h r' Hd. apply read_slice_length in Hd; lia. Qed.

#[export] Instance bytes_typed : CodecTyped bytes_codec (fun b => zlen b <= isize_max).
Proof.
  intros r b r' Hd. cbn [deserialize bytes_codec] in Hd.
  apply bind_Ok in Hd as ([len r1] & Hlen & Hd). apply bind_Ok in Hd as ([] & Hcap & Hd).
  apply compact_bound in Hlen. apply read_slice_length in Hd; [|unfold uint in Hlen; lia].
  unfold with_capacity, rust_assert in Hcap. destruct (Z.leb_spec (len * 1) isize_max); [lia|discriminate].
Qed.

Section list.
Context {A} (c : Codec A) (ty : A -> Prop) `{!CodecTyped c ty}.

Lemma read_items_typed fuel r len result t r' :
  read_items (deserialize c) fuel r len result = Ok (t, r') -> 0 <= len -> Forall ty result ->
  Forall ty t /\ zlen t = zlen result + len.
Proof.
  revert r len result. induction fuel as [|fuel IH]; intros r len result; cbn [read_items];
    (destruct (Z.leb_spec len 0); [intros [= <- <-] ? ?; split; [done|lia]|]); [discriminate|].
  intros Hr Hlen Hty. apply bind_Ok in Hr as ([x r1] & Hx & Hr). apply IH in Hr; [|lia|].
  - rewrite length_app in Hr. cbn in Hr. destruct Hr as [? Hr]. split; [done|lia].
  - apply Forall_app. split; [done|]. constructor; [|done]. by eapply deserialize_typed.
Qed.

Lemma read_list_typed r t r' :
  read_list c r = Ok (t, r') -> Forall ty t /\ uint 64 (zlen t) /\ zlen t * size_of c <= isize_max.
Proof.
  unfold read_list, read_list_of. intros Hr.
  apply bind_Ok in Hr as ([len r1] & Hlen & Hr). apply bind_Ok in Hr as ([] & Hcap & Hr).
  apply compact_bound in Hlen. apply read_items_typed in Hr as [Ht Hl]; [|unfold uint in Hlen; lia|done].
  cbn in Hl. rewrite Hl. split; [done|]. split; [done|].
  unfold with_capacity, rust_assert in Hcap. destruct (Z.leb_spec (len * size_of c) isize_max); [lia|discriminate].
Qed.

#[export] Instance list_typed :
  CodecTyped (list_codec c) (fun t => Forall ty t /\ uint 64 (zlen t) /\ zlen t * size_of c <= isize_max).
Proof. intros r t r'. apply read_list_typed. Qed.
End list.

#[export] Instance fields_typed {A B} (a : Codec A) (b : Codec B) tya tyb
    `{!CodecTyped a tya} `{!CodecTyped b tyb} : CodecTyped (fields a b) (fun x => tya x.1 /\ tyb x.2).
Proof.
  intros r x r' Hd. cbn [deserialize fields] in Hd. apply bind_Ok in Hd as ([y r1] & Hy & Hd).
  apply bind_Ok in Hd as ([z r2] & Hz & Hd). injection Hd as <- _.
  split; by eapply deserialize_typed.
Qed.

Lemma struct_typed {A S} (c : Codec A) (ty : A -> Prop) `{!CodecTyped c ty} (to : S -> A) from size (ty' : S -> Prop) :
  (forall y, ty y -> ty' (from y)) -> CodecTyped (struct c to from size) ty'.
Proof.
  intros Hty r x r' Hd. cbn [deserialize struct] in Hd. apply bind_Ok in Hd as ([y r1] & Hy & Hd).
  injection Hd as <- _. apply Hty. by eapply deserialize_typed.
Qed.

#[export] Instance outpoint_typed : CodecTyped outpoint_codec wf_outpoint.
Proof. eapply struct_typed; [apply _|]. by intros [h i] [??]. Qed.

#[export] Instance input_typed : CodecTyped input_codec (fun i => wf_input i /\ wf_witness i).
Proof.
  eapply struct_typed; [apply _|]. intros [o [s q]] (? & ? & ?). split; [done|].
  repeat split; cbn; (done || constructor || lia).
Qed.

#[export] Instance output_typed : CodecTyped output_codec wf_output.
Proof. eapply struct_typed; [apply _|]. by intros [v s] [??]. Qed.

#[export] Instance header_typed : CodecTyped header_codec wf_header.
Proof. eapply struct_typed; [apply _|]. intros (v & p & m & t & b & n) (? & ? & ? & ? & ? & ?). by split. Qed.

Lemma read_witnesses_typed ins r ins' r' :
  read_witnesses ins r = Ok (ins', r') -> Forall wf_input ins ->
  Forall wf_input ins' /\ Forall wf_witness ins' /\ length ins' = length ins.
Proof.
  revert r ins' r'. induction ins as [|i ins IH]; intros r ins' r' Hr Hin; cbn [read_witnesses] in Hr.
  { injection Hr as <- <-. done. }
  apply bind_Ok in Hr as ([w r1] & Hw & Hr). apply bind_Ok in Hr as ([rest r2] & Hrest & Hr). injection Hr as <- <-.
  apply Forall_cons in Hin as [Hi Hin]. apply read_list_typed with (ty := fun b => zlen b <= isize_max) in Hw; [|apply _].
  destruct (IH _ _ _ Hrest Hin) as (? & ? & Hl). split_and!; [by constructor..|]. cbn. by rewrite Hl.
Qed.

(** A transaction without inputs can be read, after the marker of the witness form. *)
Definition typed_tx (tx : Transaction) : Prop := inputs tx <> [] -> wf_tx tx.

#[export] Instance transaction_typed : CodecTyped transaction_codec typed_tx.
Proof.
  intros r tx r' Hd Hne. cbn [deserialize transaction_codec] in Hd. unfold deserialize_transaction in Hd.
  apply bind_Ok in Hd as ([v r1] & Hv & Hd). apply bind_Ok in Hd as ([ins r2] & Hins & Hd).
  apply bind_Ok in Hd as ([[flag ins1] r3] & Hsel & Hd). apply bind_Ok in Hd as ([outs r4] & Houts & Hd).
  apply bind_Ok in Hd as ([ins2 r5] & Hw & Hd). apply bind_Ok in Hd as ([lt r6] & Hlt & Hd). injection Hd as <- _.
  apply deserialize_typed in Hv. apply deserialize_typed in Hlt. apply read_list_typed with (ty := wf_output) in Houts; [|apply _].
  assert (exists r0 r0', read_list input_codec r0 = Ok (ins1, r0')) as (r0 & r0' & Hread).
  { case_bool_decide; [|injection Hsel as _ <- _; by eexists _, _].
    apply bind_Ok in Hsel as ([wf r7] & _ & Hsel). destruct (negb _); [discriminate|].
    apply bind_Ok in Hsel as ([ins3 r8] & Hread & Hsel). injection Hsel as _ <- _. by eexists _, _. }
  apply read_list_typed with (ty := fun i => wf_input i /\ wf_witness i) in Hread; [|apply _].
  destruct Hread as (Hty & Hl1 & Hl2). apply Forall_and in Hty as [Hwi Hww].
  assert (Forall wf_input ins2 /\ Forall wf_witness ins2 /\ length ins2 = length ins1) as (? & ? & Hl).
  { destruct flag; [by eapply read_witnesses_typed|]. by injection Hw as <- _. }
  destruct Houts as (? & ? & ?). split; cbn in *; try done; by rewrite Hl.
Qed.

#[export] Instance block_typed : CodecTyped block_codec
  (fun b => wf_header (block_header b) /\ Forall typed_tx (transactions b) /\
     uint 64 (zlen (transactions b)) /\ zlen (transactions b) * 56 <= isize_max).
Proof. eapply struct_typed; [apply _|]. by intros [h t] (? & ? & ? & ?). Qed.

Lemma kept_witness tx : kept SERIALIZE_TRANSACTION_WITNESS tx = tx.
Proof.
  unfold kept, include_witness. change (include_transaction_witness _) with true. cbn [andb].
  destruct (has_witness tx) eqn:Hw; [done|]. destruct tx as [v ins outs lt]. unfold strip_witness. cbn in *. f_equal.
  unfold has_witness in Hw. cbn in Hw. induction ins as [|i ins IH]; [done|]. cbn in *.
  apply orb_false_iff in Hw as [Hi Hw]. rewrite IH by done. f_equal. destruct i as [o s q w]. unfold strip_input. cbn in *.
  unfold input_has_witness in Hi. cbn in Hi. apply negb_false_iff, bool_decide_eq_true in Hi. by subst.
Qed.

(** A block read from any bytes is well-typed when its transactions have inputs: every
    field is in the range of its type, hashes have 32 bytes; and writing the block
    with its witnesses and reading it again gives the same block. *)
Theorem read_block_typed bs b :
  from_bytes block_codec bs = Ok b -> Forall (fun tx => inputs tx <> []) (transactions b) ->
  wf_block b /\ from_bytes block_codec (to_bytes_with_flags block_codec SERIALIZE_TRANSACTION_WITNESS b) = Ok b.
Proof.
  intros Hr Hne. unfold from_bytes, from_bytes_of in Hr. apply bind_Ok in Hr as ([b' r] & Hd & Hr).
  apply bind_Ok in Hr as ([fin r'] & _ & Hr). destruct fin; [|discriminate]. injection Hr as ->.
  apply deserialize_typed in Hd as (Hh & Ht & Hl). assert (wf_block b) as Hwf.
  { split; [done|]. split; [|done]. apply Forall_forall. intros tx Hin.
    rewrite Forall_forall in Ht, Hne. by apply Ht, Hne. }
  split; [done|]. rewrite (from_bytes_to_bytes block_codec (fun _ t => wf_block t) kept_block) by done.
  unfold kept_block. destruct b as [h txs]. cbn. do 2 f_equal. clear. induction txs as [|tx txs IH]; [done|].
  cbn. by rewrite kept_witness, IH.
Qed.

End Typed.

Section witness.
Import Ser Chain ChainHash Typed.

Lemma read_block_typed_witness :
  let b := mkBlock example_header [example_tx] in
  from_bytes block_codec (to_bytes_with_flags block_codec SERIALIZE_TRANSACTION_WITNESS b) = Ok b /\ wf_block b.
Proof.
  intros b. assert (from_bytes block_codec (to_bytes_with_flags block_codec SERIALIZE_TRANSACTION_WITNESS b) = Ok b) as Hr
    by (vm_compute; reflexivity).
  split; [exact Hr|]. apply (read_block_typed _ b Hr). constructor; [discriminate|constructor].
Defined.

End witness.
