(* ===== verification/Sign.v ===== *)
(** Signature hashes, signing of inputs and the transaction's signature checker
    (src/script/src: sign.rs, verify.rs). *)
From Stdlib Require Import ZArith Lia Strings.Byte.
From stdpp Require Import base decidable numbers list sets.
From S2P Require Import Prelude Opcode Num Script Builder Crypto Keys Sighash SigEncoding Interpreter InterpreterSafety InterpreterSpec.
From S2P Require Import Serialization Codec Chain ChainHash.

Local Open Scope Z_scope.

Module Sign.
Import Ser Derive Chain ChainHash.

Record UnsignedTransactionInput := mkUnsigned { u_previous_output : OutPoint; u_sequence : Z }.
Record TransactionInputSigner := mkSigner {
  s_version : Z;
  s_inputs : list UnsignedTransactionInput;
  s_outputs : list TransactionOutput;
  s_lock_time : Z;
}.

(** [From<TransactionInput>] and [From<Transaction>]. *)
Definition unsigned_input (i : TransactionInput) : UnsignedTransactionInput :=
  mkUnsigned (previous_output i) (sequence i).
Definition signer_of (t : Transaction) : TransactionInputSigner :=
  mkSigner (version t) (map unsigned_input (inputs t)) (outputs t) (lock_time t).

(** [H256::from(u8)]: the first byte is set. *)
Definition hash_of_u8 (v : Z) : bytes := byte_of v :: replicate 31 x00.

(** The inputs and outputs that a base hash commits to; [script] is the script code
    without separators. *)
Definition single_input (input : UnsignedTransactionInput) (script : bytes) : TransactionInput :=
  mkInput (u_previous_output input) script (u_sequence input) [].

Definition signed_inputs (sighash : Sighash.Sighash) (input_index : nat) (script : bytes)
    (ins : list UnsignedTransactionInput) : list TransactionInput :=
  imap (fun n input =>
    mkInput (u_previous_output input)
      (if bool_decide (n = input_index) then script else [])
      (match Sighash.base sighash with
       | Sighash.Single | Sighash.None =>
           if bool_decide (n = input_index) then u_sequence input else 0
       | Sighash.All => u_sequence input
       end) []) ins.

Definition signed_outputs (sighash : Sighash.Sighash) (input_index : nat)
    (outs : list TransactionOutput) : list TransactionOutput :=
  match Sighash.base sighash with
  | Sighash.All => outs
  | Sighash.Single =>
      imap (fun n out => if bool_decide (n = input_index) then out else default_output)
        (take (input_index + 1) outs)
  | Sighash.None => []
  end.

Section sign.
Context `{Crypto}.

Definition signature_hash_original {E} (self : TransactionInputSigner) (input_index : nat)
    (script_pubkey : bytes) (sighashtype : Z) (sighash : Sighash.Sighash) : outcome E bytes :=
  if (length (s_inputs self) <=? input_index)%nat then Ok (hash_of_u8 1) else
  if bool_decide (Sighash.base sighash = Sighash.Single) && (length (s_outputs self) <=? input_index)%nat
  then Ok (hash_of_u8 1) else
  script_pubkey ← Script.without_separators script_pubkey;
  inputs ← (if Sighash.anyone_can_pay sighash then
              input ← index (s_inputs self) input_index; Ok [single_input input script_pubkey]
            else Ok (signed_inputs sighash input_index script_pubkey (s_inputs self)));
  let outputs := signed_outputs sighash input_index (s_outputs self) in
  let tx := mkTx (s_version self) inputs outputs (s_lock_time self) in
  let stream := append transaction_codec tx stream_default in
  let stream := append u32_codec sighashtype stream in
  Ok (dhash256 (out stream)).

Definition compute_hash_prevouts (sighash : Sighash.Sighash) (inputs : list UnsignedTransactionInput) : bytes :=
  if Sighash.anyone_can_pay sighash then hash_of_u8 0
  else dhash256 (out (foldl (fun s i => append outpoint_codec (u_previous_output i) s) stream_default inputs)).

Definition compute_hash_sequence (sighash : Sighash.Sighash) (inputs : list UnsignedTransactionInput) : bytes :=
  match Sighash.base sighash with
  | Sighash.All =>
      if Sighash.anyone_can_pay sighash then hash_of_u8 0
      else dhash256 (out (foldl (fun s i => append u32_codec (u_sequence i) s) stream_default inputs))
  | _ => hash_of_u8 0
  end.

Definition compute_hash_outputs {E} (sighash : Sighash.Sighash) (input_index : nat)
    (outputs : list TransactionOutput) : outcome E bytes :=
  match Sighash.base sighash with
  | Sighash.All =>
      Ok (dhash256 (out (foldl (fun s o => append output_codec o s) stream_default outputs)))
  | Sighash.Single =>
      if (input_index <? length outputs)%nat then
        output ← index outputs input_index;
        Ok (dhash256 (out (append output_codec output stream_default)))
      else Ok (hash_of_u8 0)
  | Sighash.None => Ok (hash_of_u8 0)
  end.

Definition signature_hash_witness0 {E} (self : TransactionInputSigner) (input_index : nat)
    (input_amount : Z) (script_pubkey : bytes) (sighashtype : Z) (sighash : Sighash.Sighash)
    : outcome E bytes :=
  let hash_prevouts := compute_hash_prevouts sighash (s_inputs self) in
  let hash_sequence := compute_hash_sequence sighash (s_inputs self) in
  hash_outputs ← compute_hash_outputs sighash input_index (s_outputs self);
  let stream := append i32_codec (s_version self) stream_default in
  let stream := append (hash_codec 32) hash_prevouts stream in
  let stream := append (hash_codec 32) hash_sequence stream in
  input ← index (s_inputs self) input_index;
  let stream := append outpoint_codec (u_previous_output input) stream in
  let stream := append_list u8_codec (map u8 script_pubkey) stream in
  let stream := append u64_codec input_amount stream in
  let stream := append u32_codec (u_sequence input) stream in
  let stream := append (hash_codec 32) hash_outputs stream in
  let stream := append u32_codec (s_lock_time self) stream in
  let stream := append u32_codec sighashtype stream in
  Ok (dhash256 (out stream)).

Definition signature_hash_fork_id {E} (self : TransactionInputSigner) (input_index : nat)
    (input_amount : Z) (script_pubkey : bytes) (sighashtype : Z) (sighash : Sighash.Sighash)
    : outcome E bytes :=
  if (length (s_inputs self) <=? input_index)%nat then Ok (hash_of_u8 1) else
  if bool_decide (Sighash.base sighash = Sighash.Single) && (length (s_outputs self) <=? input_index)%nat
  then Ok (hash_of_u8 1) else
  signature_hash_witness0 self input_index input_amount script_pubkey sighashtype sighash.

Definition signature_hash {E} (self : TransactionInputSigner) (input_index : nat) (input_amount : Z)
    (script_pubkey : bytes) (sigversion : SignatureVersion) (sighashtype : Z) : outcome E bytes :=
  let sighash := Sighash.from_u32 sigversion sighashtype in
  match sigversion with
  | ForkId =>
      if Sighash.fork_id sighash then
        signature_hash_fork_id self input_index input_amount script_pubkey sighashtype sighash
      else signature_hash_original self input_index script_pubkey sighashtype sighash
  | Base => signature_hash_original self input_index script_pubkey sighashtype sighash
  | WitnessV0 => signature_hash_witness0 self input_index input_amount script_pubkey sighashtype sighash
  end.

Context `{Secp256k1}.

(** [signed_input]: the [unwrap] of the signature panics on an error. *)
Definition signed_input {E} (self : TransactionInputSigner) (keypair : Keys.KeyPair) (input_index : nat)
    (input_amount : Z) (script_pubkey : bytes) (sigversion : SignatureVersion) (sighash : Z)
    : outcome E TransactionInput :=
  hash ← signature_hash self input_index input_amount script_pubkey sigversion sighash;
  signature ← match Keys.private_sign (Keys.private keypair) hash with Ok s => Ok s | _ => Panic end;
  let signature := signature ++ [byte_of sighash] in
  b ← Builder.push_data Builder.default signature;
  input ← index (s_inputs self) input_index;
  Ok (mkInput (u_previous_output input) (Builder.into_script b) (u_sequence input) []).

(** * The checker of a transaction's input *)

(** [Public::verify(..).unwrap_or(false)]. *)
Definition verify_or_false (public hash signature : bytes) : bool :=
  match Keys.public_verify public hash signature with Ok b => b | _ => false end.

Definition tx_check_lock_time (signer : TransactionInputSigner) (input_index : nat) (lock_time : Z)
    : outcome Error.Error bool :=
  let lock_time_u32 := Num.to_u32 lock_time in
  if negb (((s_lock_time signer <? LOCKTIME_THRESHOLD) && (lock_time_u32 <? LOCKTIME_THRESHOLD)) ||
           ((LOCKTIME_THRESHOLD <=? s_lock_time signer) && (LOCKTIME_THRESHOLD <=? lock_time_u32)))
  then Ok false else
  if s_lock_time signer <? lock_time then Ok false else
  input ← index (s_inputs signer) input_index;
  Ok (negb (SEQUENCE_FINAL =? u_sequence input)).

Definition tx_check_sequence (signer : TransactionInputSigner) (input_index : nat) (sequence : Z)
    : outcome Error.Error bool :=
  input ← index (s_inputs signer) input_index;
  let to_sequence := u_sequence input in
  if wrap 32 (s_version signer) <? 2 then Ok false else
  if negb (Z.land to_sequence SEQUENCE_LOCKTIME_DISABLE_FLAG =? 0) then Ok false else
  let locktime_mask := Z.lor SEQUENCE_LOCKTIME_TYPE_FLAG SEQUENCE_LOCKTIME_MASK in
  let to_sequence_masked := Z.land to_sequence locktime_mask in
  let sequence_masked := Z.land sequence locktime_mask in
  if negb (((to_sequence_masked <? SEQUENCE_LOCKTIME_TYPE_FLAG) &&
            (sequence_masked <? SEQUENCE_LOCKTIME_TYPE_FLAG)) ||
           ((SEQUENCE_LOCKTIME_TYPE_FLAG <=? to_sequence_masked) &&
            (SEQUENCE_LOCKTIME_TYPE_FLAG <=? sequence_masked)))
  then Ok false else
  Ok (sequence_masked <=? to_sequence_masked).

Definition TransactionSignatureChecker (signer : TransactionInputSigner) (input_index : nat)
    (input_amount : Z) : SignatureChecker := {|
  verify_signature signature public hash := Ok (verify_or_false public hash signature);
  check_signature signature public script_code sighashtype version :=
    hash ← signature_hash signer input_index input_amount script_code version sighashtype;
    Ok (verify_or_false public hash signature);
  check_lock_time lock_time := tx_check_lock_time signer input_index lock_time;
  check_sequence sequence := tx_check_sequence signer input_index sequence;
|}.

End sign.

(** * Lemmas *)

(** Changing the outputs or the inputs of a signer. *)
Definition with_outputs (self : TransactionInputSigner) (outs : list TransactionOutput) :=
  mkSigner (s_version self) (s_inputs self) outs (s_lock_time self).
Definition with_inputs (self : TransactionInputSigner) (ins : list UnsignedTransactionInput) :=
  mkSigner (s_version self) ins (s_outputs self) (s_lock_time self).

Section ignored.
Context `{Crypto}.

Lemma index_Ok {E A} (l : list A) i x : l !! i = Some x -> @index E A l i = Ok x.
Proof. intros Hx. unfold index. by rewrite Hx. Qed.

Lemma single_outputs outs outs' i o :
  outs !! i = Some o -> outs' !! i = Some o ->
  imap (fun n out => if bool_decide (n = i) then out else default_output) (take (i + 1) outs) =
  imap (fun n out => if bool_decide (n = i) then out else default_output) (take (i + 1) outs').
Proof.
  intros Ho Ho'. apply list_eq. intros k. rewrite !list_lookup_imap.
  destruct (decide (k < i + 1)%nat) as [Hk|Hk].
  2:{ by rewrite !lookup_take_ge by lia. }
  rewrite !lookup_take_lt by lia. destruct (decide (k = i)) as [->|Hne]; [by rewrite Ho, Ho'|].
  apply lookup_lt_Some in Ho. apply lookup_lt_Some in Ho'.
  destruct (lookup_lt_is_Some_2 outs k ltac:(lia)) as [x ->].
  destruct (lookup_lt_is_Some_2 outs' k ltac:(lia)) as [x' ->].
  cbn. by rewrite !bool_decide_eq_false_2 by done.
Qed.

(** The hash as a function of what it reads. *)
Lemma none_ignores_outputs {E} self outs i amount script ver t :
  Sighash.base (Sighash.from_u32 ver t) = Sighash.None ->
  @signature_hash _ E (with_outputs self outs) i amount script ver t =
  signature_hash self i amount script ver t.
Proof.
  intros Hb. unfold signature_hash, signature_hash_fork_id, signature_hash_witness0, signature_hash_original,
    compute_hash_outputs, signed_outputs. by rewrite !Hb.
Qed.

Lemma single_reads_output {E} self outs i amount script ver t o :
  Sighash.base (Sighash.from_u32 ver t) = Sighash.Single ->
  s_outputs self !! i = Some o -> outs !! i = Some o ->
  @signature_hash _ E (with_outputs self outs) i amount script ver t =
  signature_hash self i amount script ver t.
Proof.
  intros Hb Ho Ho'. pose proof (lookup_lt_Some _ _ _ Ho). pose proof (lookup_lt_Some _ _ _ Ho').
  unfold signature_hash, signature_hash_fork_id, signature_hash_witness0, signature_hash_original,
    compute_hash_outputs, signed_outputs. rewrite !Hb. cbn [s_outputs s_inputs s_version s_lock_time with_outputs].
  rewrite (single_outputs outs (s_outputs self) i o Ho' Ho), !(index_Ok _ _ _ Ho), !(index_Ok _ _ _ Ho').
  rewrite (proj2 (Nat.leb_gt (length outs) i)), (proj2 (Nat.leb_gt (length (s_outputs self)) i)) by lia.
  rewrite (proj2 (Nat.ltb_lt i (length outs))), (proj2 (Nat.ltb_lt i (length (s_outputs self)))) by lia. done.
Qed.

Lemma anyone_can_pay_reads_input {E} self ins i amount script ver t x :
  Sighash.anyone_can_pay (Sighash.from_u32 ver t) = true ->
  s_inputs self !! i = Some x -> ins !! i = Some x ->
  @signature_hash _ E (with_inputs self ins) i amount script ver t =
  signature_hash self i amount script ver t.
Proof.
  intros Hb Ho Ho'. pose proof (lookup_lt_Some _ _ _ Ho). pose proof (lookup_lt_Some _ _ _ Ho').
  unfold signature_hash, signature_hash_fork_id, signature_hash_witness0, signature_hash_original,
    compute_hash_prevouts, compute_hash_sequence. rewrite !Hb.
  cbn [s_outputs s_inputs s_version s_lock_time with_inputs].
  rewrite !(index_Ok _ _ _ Ho), !(index_Ok _ _ _ Ho'), (proj2 (Nat.leb_gt (length ins) i)),
    (proj2 (Nat.leb_gt (length (s_inputs self)) i)) by lia. done.
Qed.

End ignored.

(** ** The checker returns *)

(** The input the checker is for exists; resolved from the hypotheses. *)
Class TCLt (n m : nat) : Prop := tc_lt : (n < m)%nat.

Section returns.
Context `{Crypto} `{Secp256k1}.

Lemma signature_hash_returns {E} self i amount script ver t :
  (i < length (s_inputs self))%nat -> exists h, @signature_hash _ E self i amount script ver t = Ok h.
Proof.
  intros Hi. destruct (lookup_lt_is_Some_2 _ _ Hi) as [x Hx].
  set (sh := Sighash.from_u32 ver t).
  assert (exists h, @signature_hash_original _ E self i script t sh = Ok h) as Ho.
  { unfold signature_hash_original. destruct (_ <=? _)%nat; [by eexists|]. destruct (_ && _); [by eexists|].
    destruct (@Script.without_separators_total E script) as (r & -> & _). cbn [mbind outcome_bind].
    rewrite (index_Ok _ _ _ Hx). destruct (Sighash.anyone_can_pay sh); cbn; by eexists. }
  assert (exists h, @signature_hash_witness0 _ E self i amount script t sh = Ok h) as Hw.
  { unfold signature_hash_witness0, compute_hash_outputs. rewrite (index_Ok _ _ _ Hx).
    destruct (Sighash.base sh); cbn [mbind outcome_bind]; try by eexists.
    destruct (Nat.ltb_spec i (length (s_outputs self))) as [Hl|]; [|by eexists].
    destruct (lookup_lt_is_Some_2 _ _ Hl) as [o Hy]. rewrite (index_Ok _ _ _ Hy). by eexists. }
  unfold signature_hash. fold sh. destruct ver; [done|done|].
  destruct (Sighash.fork_id sh); [|done]. unfold signature_hash_fork_id.
  destruct (_ <=? _)%nat; [by eexists|]. destruct (_ && _); [by eexists|done].
Qed.

#[export] Instance TransactionSignatureChecker_returns signer i amount :
  TCLt i (length (s_inputs signer)) -> CheckerReturns (TransactionSignatureChecker signer i amount).
Proof.
  intros Hi. destruct (lookup_lt_is_Some_2 _ _ Hi) as [x Hx]. split.
  - intros sig p m. by eexists.
  - intros sig p c t v. cbn. destruct (@signature_hash_returns Error.Error signer i amount c v t Hi) as [h ->].
    by eexists.
  - intros n. cbn. unfold tx_check_lock_time. rewrite (index_Ok _ _ _ Hx). repeat step_case; by eexists.
  - intros n. cbn. unfold tx_check_sequence. rewrite (index_Ok _ _ _ Hx). cbn [mbind outcome_bind].
    repeat step_case; by eexists.
Qed.

End returns.

(** ** What a hash commits to *)

Record wf_signer (self : TransactionInputSigner) : Prop := {
  wfs_version : sint 32 (s_version self);
  wfs_inputs : Forall (fun i => wf_outpoint (u_previous_output i) /\ uint 32 (u_sequence i)) (s_inputs self);
  wfs_inputs_len : uint 64 (zlen (s_inputs self)) /\ zlen (s_inputs self) * 88 <= isize_max;
  wfs_outputs : Forall wf_output (s_outputs self);
  wfs_outputs_len : uint 64 (zlen (s_outputs self)) /\ zlen (s_outputs self) * 32 <= isize_max;
  wfs_lock_time : uint 32 (s_lock_time self);
}.

Section binding.
Context `{Crypto}.

(** The transaction that a hash of every input and output is computed from. *)
Definition all_tx (self : TransactionInputSigner) (sh : Sighash.Sighash) (i : nat) (r : bytes) : Transaction :=
  mkTx (s_version self) (signed_inputs sh i r (s_inputs self)) (s_outputs self) (s_lock_time self).

Lemma all_tx_wf self sh i r :
  wf_signer self -> (i < length (s_inputs self))%nat -> zlen r <= isize_max ->
  Sighash.base sh = Sighash.All -> wf_tx (all_tx self sh i r).
Proof.
  intros [] Hi Hr Hb. assert (length (signed_inputs sh i r (s_inputs self)) = length (s_inputs self)) as Hl.
  { apply length_imap. }
  split; cbn [all_tx version inputs outputs lock_time]; try done.
  - apply Forall_lookup. intros n x Hx. unfold signed_inputs in Hx. rewrite list_lookup_imap in Hx.
    destruct (s_inputs self !! n) as [u|] eqn:Eu; [|done]. injection Hx as <-.
    destruct (Forall_lookup_1 _ _ _ _ wfs_inputs0 Eu) as [Ho Hs].
    split_and!; cbn; [done| |by rewrite Hb]. case_bool_decide; [done|]. cbn. unfold isize_max. lia.
  - by rewrite Hl.
  - intros Hn. rewrite Hn in Hl. cbn in Hl. lia.
  - apply Forall_lookup. intros n x Hx. unfold signed_inputs in Hx. rewrite list_lookup_imap in Hx.
    destruct (s_inputs self !! n) as [u|]; [|done]. injection Hx as <-. split_and!; cbn; [constructor|done|done].
Qed.

Lemma kept_all_tx self sh i r : kept 0 (all_tx self sh i r) = all_tx self sh i r.
Proof.
  unfold kept, strip_witness. cbn. unfold all_tx. f_equal.
  unfold signed_inputs. apply list_eq. intros n. rewrite list_lookup_fmap, !list_lookup_imap.
  by destruct (s_inputs self !! n).
Qed.

Lemma original_hash_all {E} self i script t sh r :
  Sighash.base sh = Sighash.All -> Sighash.anyone_can_pay sh = false ->
  (i < length (s_inputs self))%nat -> @Script.without_separators E script = Ok r ->
  @signature_hash_original _ E self i script t sh =
  Ok (dhash256 (to_bytes transaction_codec (all_tx self sh i r) ++ le_bytes 4 t)).
Proof.
  intros Hb Ha Hi Hr. unfold signature_hash_original.
  rewrite (proj2 (Nat.leb_gt _ _)), Hb, Ha by done. rewrite bool_decide_eq_false_2 by done. cbn [andb].
  rewrite Hr. cbn [mbind outcome_bind]. unfold signed_outputs. by rewrite Hb.
Qed.

(** The inputs determine outpoints, sequences and the position of a script. *)
Lemma signed_inputs_inj sh sh' i i' r r' ins ins' :
  Sighash.base sh = Sighash.All -> Sighash.base sh' = Sighash.All -> (i < length ins)%nat ->
  signed_inputs sh i r ins = signed_inputs sh' i' r' ins' ->
  ins = ins' /\ (r <> [] -> i = i' /\ r = r').
Proof.
  intros Hb Hb' Hi He.
  assert (forall n, signed_inputs sh i r ins !! n = signed_inputs sh' i' r' ins' !! n) as Hn by by rewrite He.
  unfold signed_inputs in Hn. setoid_rewrite list_lookup_imap in Hn. rewrite Hb, Hb' in Hn. split.
  - apply list_eq. intros n. specialize (Hn n).
    destruct (ins !! n) as [[o q]|], (ins' !! n) as [[o' q']|]; cbn in Hn; try done.
    by injection Hn as -> _ ->.
  - intros Hr. destruct (lookup_lt_is_Some_2 _ _ Hi) as [u Hu]. specialize (Hn i). rewrite Hu in Hn. cbn in Hn.
    destruct (ins' !! i); cbn in Hn; [|done]. injection Hn as _ Hs _.
    rewrite bool_decide_eq_true_2 in Hs by done. by case_bool_decide; [|destruct (Hr Hs)].
Qed.

(** *** The digest of witness programs and of the fork *)

Definition digest_codec :=
  fields i32_codec (fields (hash_codec 32) (fields (hash_codec 32) (fields outpoint_codec
    (fields (list_codec u8_codec) (fields u64_codec (fields u32_codec (fields (hash_codec 32)
      (fields u32_codec u32_codec)))))))).

(** What the three inner hashes of a digest of every input and output are taken of. *)
Definition prevouts_bytes (self : TransactionInputSigner) : bytes :=
  items_bytes outpoint_codec 0 (map u_previous_output (s_inputs self)).
Definition sequences_bytes (self : TransactionInputSigner) : bytes :=
  items_bytes u32_codec 0 (map u_sequence (s_inputs self)).
Definition outputs_bytes (self : TransactionInputSigner) : bytes := items_bytes output_codec 0 (s_outputs self).

Definition digest_bytes (self : TransactionInputSigner) (input : UnsignedTransactionInput) (amount : Z)
    (script : bytes) (t : Z) : bytes :=
  to_bytes digest_codec (s_version self, (dhash256 (prevouts_bytes self), (dhash256 (sequences_bytes self),
    (u_previous_output input, (map u8 script, (amount, (u_sequence input, (dhash256 (outputs_bytes self),
      (s_lock_time self, t))))))))).

(** Which digest a signature version uses with a hash type. *)
Definition witness_digest (ver : SignatureVersion) (t : Z) : bool :=
  match ver with Base => false | WitnessV0 => true | ForkId => Sighash.fork_id (Sighash.from_u32 ver t) end.

(** The byte strings that are hashed for a hash type that covers every input and output. *)
Definition hashed_strings {E} (self : TransactionInputSigner) (i : nat) (amount : Z) (script : bytes)
    (ver : SignatureVersion) (t : Z) : list bytes :=
  if witness_digest ver t then
    match s_inputs self !! i with
    | Some input => [digest_bytes self input amount script t; prevouts_bytes self; sequences_bytes self; outputs_bytes self]
    | None => []
    end
  else
    match @Script.without_separators E script with
    | Ok r => [to_bytes transaction_codec (all_tx self (Sighash.from_u32 ver t) i r) ++ le_bytes 4 t]
    | _ => []
    end.

Lemma foldl_items {A B} (c : Codec B) wf norm `{!CodecLaws c wf norm} (f : A -> B) (l : list A) :
  out (foldl (fun s x => append c (f x) s) stream_default l) = items_bytes c 0 (map f l).
Proof.
  assert (forall s, foldl (fun s x => append c (f x) s) s l = foldl (fun s y => serialize c y s) s (map f l)) as ->.
  { induction l as [|x l IH]; intros s; [done|]. cbn. apply IH. }
  by rewrite (append_items c wf norm).
Qed.

Lemma witness0_hash_all {E} self i amount script t sh input :
  Sighash.base sh = Sighash.All -> Sighash.anyone_can_pay sh = false -> s_inputs self !! i = Some input ->
  @signature_hash_witness0 _ E self i amount script t sh = Ok (dhash256 (digest_bytes self input amount script t)).
Proof.
  intros Hb Ha Hi. unfold signature_hash_witness0, compute_hash_prevouts, compute_hash_sequence, compute_hash_outputs.
  rewrite Hb, Ha. cbn [mbind outcome_bind]. rewrite (index_Ok _ _ _ Hi). cbn [mbind outcome_bind].
  rewrite (foldl_items outpoint_codec _ _ u_previous_output), (foldl_items u32_codec _ _ u_sequence).
  pose proof (foldl_items output_codec _ _ (fun o => o) (s_outputs self)) as Ho. cbn beta in Ho.
  rewrite map_id in Ho. by rewrite Ho.
Qed.

(** *** The codec of the digest is injective *)

Lemma digest_inj x y :
  let wf d := sint 32 d.1 /\ length d.2.1 = 32%nat /\ length d.2.2.1 = 32%nat /\ wf_outpoint d.2.2.2.1 /\
    (Forall (uint 8) d.2.2.2.2.1 /\ uint 64 (zlen d.2.2.2.2.1) /\ zlen d.2.2.2.2.1 * 1 <= isize_max) /\
    uint 64 d.2.2.2.2.2.1 /\ uint 32 d.2.2.2.2.2.2.1 /\ length d.2.2.2.2.2.2.2.1 = 32%nat /\
    uint 32 d.2.2.2.2.2.2.2.2.1 /\ uint 32 d.2.2.2.2.2.2.2.2.2 in
  wf x -> wf y -> to_bytes digest_codec x = to_bytes digest_codec y -> x = y.
Proof.
  intros wf Hx Hy He. assert (CodecLaws digest_codec (fun _ => wf) same) as Hlaws.
  { eapply codec_laws_impl; [apply _| |]. 
    - intros f d (H1 & H2 & H3 & H4 & H5 & H6 & H7 & H8 & H9 & H10). cbn. split_and!; try done; by apply H5.
    - intros f d _. cbn. destruct d as (?&?&?&?&?&?&?&?&?&?). cbn. by rewrite map_id. }
  by apply (to_bytes_inj digest_codec (fun _ => wf) same 0).
Qed.

(** *** Both digests *)

Definition covers_all (t : Z) : Prop := (Z.land t 31 <> 2 /\ Z.land t 31 <> 3) /\ Z.land t 128 <> 128.

Lemma covers_all_spec ver t : covers_all t ->
  Sighash.base (Sighash.from_u32 ver t) = Sighash.All /\ Sighash.anyone_can_pay (Sighash.from_u32 ver t) = false.
Proof.
  intros [[H2 H3] H128]. cbn. split; [|by apply Z.eqb_neq].
  destruct (Z.land t 31) as [|[[]|[]|]|]; done.
Qed.

(** The string that is hashed last ends in the hash type. *)
Lemma hashed_last {E} self i amount script ver t :
  covers_all t -> (i < length (s_inputs self))%nat ->
  exists x body, @signature_hash _ E self i amount script ver t = Ok (dhash256 x) /\
    x ∈ hashed_strings (E := E) self i amount script ver t /\ x = body ++ le_bytes 4 t /\
    if witness_digest ver t
    then exists input, s_inputs self !! i = Some input /\ x = digest_bytes self input amount script t
    else exists r, @Script.without_separators E script = Ok r /\
      body = to_bytes transaction_codec (all_tx self (Sighash.from_u32 ver t) i r).
Proof.
  intros Hc Hi. destruct (covers_all_spec ver t Hc) as [Hb Ha].
  destruct (lookup_lt_is_Some_2 _ _ Hi) as [input Hin]. destruct (@Script.without_separators_total E script) as (r & Hr & _).
  assert (signature_hash self i amount script ver t =
    if witness_digest ver t then @signature_hash_witness0 _ E self i amount script t (Sighash.from_u32 ver t)
    else signature_hash_original self i script t (Sighash.from_u32 ver t)) as ->.
  { unfold signature_hash, witness_digest, signature_hash_fork_id. destruct ver; [done|done|].
    destruct (Sighash.fork_id _); [|done]. rewrite (proj2 (Nat.leb_gt _ _)), Hb by done. by rewrite bool_decide_eq_false_2 by done. }
  unfold hashed_strings. destruct (witness_digest ver t).
  - rewrite (witness0_hash_all _ _ _ _ _ _ _ Hb Ha Hin), Hin. eexists _, _. split; [done|]. split; [by left|].
    split; [|by exists input]. unfold digest_bytes, to_bytes, digest_codec, append. cbn -[le_bytes append_list]. 
    unfold append_slice at 1. cbn [stream_buffer]. done.
  - rewrite (original_hash_all _ _ _ _ _ _ Hb Ha Hi Hr), Hr. eexists _, _. split; [done|]. split; [by left|].
    split; [done|]. by exists r.
Qed.

Lemma original_binding s s' i i' sh r r' :
  wf_signer s -> wf_signer s' -> (i < length (s_inputs s))%nat -> (i' < length (s_inputs s'))%nat ->
  zlen r <= isize_max -> zlen r' <= isize_max -> Sighash.base sh = Sighash.All ->
  to_bytes transaction_codec (all_tx s sh i r) = to_bytes transaction_codec (all_tx s' sh i' r') ->
  s = s' /\ (r <> [] -> i = i' /\ r = r').
Proof.
  intros Hs Hs' Hi Hi' Hr Hr' Hb Heq.
  apply (to_bytes_inj transaction_codec (fun _ tx => wf_tx tx) kept 0) in Heq; [|by apply all_tx_wf..].
  rewrite !kept_all_tx in Heq. injection Heq as Hv Hin Hout Hlock.
  apply signed_inputs_inj in Hin as [Hin Hpos]; [|done..].
  split; [|done]. destruct s, s'. cbn in *. by subst.
Qed.

Lemma hashed_eq inputs x y : x ∈ inputs -> y ∈ inputs -> dhash256 x = dhash256 y -> x = y \/ collides inputs.
Proof. intros Hx Hy He. destruct (decide (x = y)) as [|Hne]; [by left|right; by exists x, y]. Qed.

(** The inner hashes determine the inputs and the outputs. *)
Lemma inner_binding inputs s s' : wf_signer s -> wf_signer s' ->
  [prevouts_bytes s; sequences_bytes s; outputs_bytes s] ⊆ inputs ->
  [prevouts_bytes s'; sequences_bytes s'; outputs_bytes s'] ⊆ inputs ->
  dhash256 (prevouts_bytes s) = dhash256 (prevouts_bytes s') ->
  dhash256 (sequences_bytes s) = dhash256 (sequences_bytes s') ->
  dhash256 (outputs_bytes s) = dhash256 (outputs_bytes s') ->
  (s_inputs s = s_inputs s' /\ s_outputs s = s_outputs s') \/ collides inputs.
Proof.
  intros [] [] Hi Hi' Hp Hq Ho.
  apply (hashed_eq inputs) in Hp as [Ep|]; [|by right|apply Hi; set_solver|apply Hi'; set_solver].
  apply (hashed_eq inputs) in Hq as [Eq|]; [|by right|apply Hi; set_solver|apply Hi'; set_solver].
  apply (hashed_eq inputs) in Ho as [Eo|]; [|by right|apply Hi; set_solver|apply Hi'; set_solver].
  left. apply (items_inj outpoint_codec (fun _ o => wf_outpoint o) same) in Ep;
    [|by apply Forall_map; eapply Forall_impl; [eassumption|]; intros ? []..].
  apply (items_inj u32_codec (fun _ z => uint (8 * Z.of_nat 4) z) same) in Eq;
    [|by apply Forall_map; eapply Forall_impl; [eassumption|]; intros ? []..].
  apply (items_inj output_codec (fun _ o => wf_output o) same) in Eo; [|done..].
  rewrite !map_id in *. split; [|done].
  revert Ep Eq. generalize (s_inputs s') as l'. clear. induction (s_inputs s) as [|[o q] l IH]; intros [|[o' q'] l'] Ep Eq; try done.
  cbn in *. injection Ep as -> Ep. injection Eq as -> Eq. f_equal. by apply IH.
Qed.

End binding.

Section binding_all.
Context `{CryptoLaws}.

Lemma digest_binding inputs s s' x x' amount amount' script script' t t' :
  wf_signer s -> wf_signer s' -> x ∈ s_inputs s -> x' ∈ s_inputs s' -> uint 64 amount -> uint 64 amount' ->
  zlen script <= isize_max -> zlen script' <= isize_max -> uint 32 t -> uint 32 t' ->
  [prevouts_bytes s; sequences_bytes s; outputs_bytes s] ⊆ inputs ->
  [prevouts_bytes s'; sequences_bytes s'; outputs_bytes s'] ⊆ inputs ->
  digest_bytes s x amount script t = digest_bytes s' x' amount' script' t' ->
  (s = s' /\ x = x' /\ script = script' /\ amount = amount') \/ collides inputs.
Proof.
  intros Hs Hs' Hx Hx' Ha Ha' Hl Hl' Ht Ht' Hi Hi' He.
  assert (forall sc : bytes, zlen sc <= isize_max ->
    Forall (uint 8) (map u8 sc) /\ uint 64 (zlen (map u8 sc)) /\ zlen (map u8 sc) * 1 <= isize_max) as Hsc.
  { intros sc Hsc. rewrite length_map. unfold isize_max in *. split_and!; [|unfold uint; lia|lia].
    apply Forall_map, Forall_true. intros b. apply u8_bound. }
  pose proof (proj1 (Forall_forall _ _) (wfs_inputs _ Hs) _ Hx) as [Hx1 Hx2].
  pose proof (proj1 (Forall_forall _ _) (wfs_inputs _ Hs') _ Hx') as [Hx1' Hx2'].
  apply digest_inj in He; cbn [fst snd].
  - injection He as Hv Hp Hq Ho Hm -> Hsq Hou Hlk Htt.
    destruct (inner_binding inputs s s' Hs Hs' Hi Hi' Hp Hq Hou) as [[Ei Eo]|]; [left|by right].
    split_and!; [destruct s, s'; cbn in *; by subst|destruct x, x'; cbn in *; by subst| |done].
    apply (f_equal (map byte_of)) in Hm. rewrite !map_map in Hm.
    rewrite !(map_ext _ (fun b => b) byte_of_u8), !map_id in Hm. done.
  - split_and!; try done; try apply length_dhash256; try apply Hs; by apply Hsc.
  - split_and!; try done; try apply length_dhash256; try apply Hs'; by apply Hsc.
Qed.

(** What a hash of every input and output determines besides the transaction and the hash
    type. *)
Definition same_spend {E} (s s' : TransactionInputSigner) (i i' : nat) (amount amount' : Z) (script script' : bytes)
    (ver : SignatureVersion) (t : Z) : Prop :=
  if witness_digest ver t then s_inputs s !! i = s_inputs s' !! i' /\ script = script' /\ amount = amount'
  else @Script.without_separators E script = Ok [] \/
    (i = i' /\ @Script.without_separators E script = Script.without_separators script').

Lemma all_binding {E} s s' i i' amount amount' script script' ver t t' :
  wf_signer s -> wf_signer s' ->
  (i < length (s_inputs s))%nat -> (i' < length (s_inputs s'))%nat -> uint 64 amount -> uint 64 amount' ->
  zlen script <= isize_max -> zlen script' <= isize_max -> uint 32 t -> uint 32 t' ->
  covers_all t -> covers_all t' ->
  @signature_hash _ E s i amount script ver t = signature_hash s' i' amount' script' ver t' ->
  (s = s' /\ t = t' /\ same_spend (E := E) s s' i i' amount amount' script script' ver t) \/
  collides (hashed_strings (E := E) s i amount script ver t ++ hashed_strings (E := E) s' i' amount' script' ver t').
Proof.
  intros Hs Hs' Hi Hi' Ha Ha' Hl Hl' Ht Ht' Hc Hc' He.
  destruct (hashed_last (E := E) s i amount script ver t Hc Hi) as (x & body & Hx & Hin & Hxb & Hcase).
  destruct (hashed_last (E := E) s' i' amount' script' ver t' Hc' Hi') as (x' & body' & Hx' & Hin' & Hxb' & Hcase').
  rewrite Hx, Hx' in He. injection He as He. set (strings := _ ++ _).
  apply (hashed_eq strings) in He as [He|]; [|by right|apply elem_of_app; by left|apply elem_of_app; by right].
  pose proof He as Hbt. rewrite Hxb, Hxb' in Hbt. apply app_inj_2 in Hbt as [Hbb Htt]; [|by rewrite !length_le_bytes].
  assert (t = t') as <-.
  { apply (f_equal le_value) in Htt. by rewrite !le_value_le_bytes_id in Htt. }
  unfold same_spend. destruct (witness_digest ver t) eqn:Hw.
  - destruct Hcase as (u & Hu & ->), Hcase' as (u' & Hu' & ->).
    destruct (digest_binding strings s s' u u' amount amount' script script' t t) as [(-> & <- & -> & ->)|]; try done.
    + by eapply list_elem_of_lookup_2.
    + by eapply list_elem_of_lookup_2.
    + unfold strings, hashed_strings. rewrite Hw, Hu. intros y Hy. apply elem_of_app. left. by right.
    + unfold strings, hashed_strings. rewrite Hw, Hu'. intros y Hy. apply elem_of_app. right. by right.
    + left. by rewrite Hu, Hu'.
    + by right.
  - destruct Hcase as (r & Hr & Hb), Hcase' as (r' & Hr' & Hb').
    assert (zlen r <= isize_max /\ zlen r' <= isize_max) as [Hrl Hrl'].
    { destruct (@Script.without_separators_total E script) as (y & Hy & ?).
      destruct (@Script.without_separators_total E script') as (y' & Hy' & ?).
      rewrite Hr in Hy. rewrite Hr' in Hy'. injection Hy as ->. injection Hy' as ->. lia. }
    rewrite Hb, Hb' in Hbb. apply original_binding in Hbb as [-> Hpos]; [|by (done || apply covers_all_spec)..].
    left. split; [done|]. split; [done|]. rewrite Hr, Hr'. destruct r as [|c r]; [by left|right].
    destruct (Hpos ltac:(done)) as [-> ->]. done.
Qed.

End binding_all.

(** ** Signing a pay-to-public-key-hash spend *)

Section spend.
Context `{CryptoLaws} `{Secp256k1Laws}.

(** A script that is shorter than the signature is not changed by its deletion. *)
Lemma delete_longer ver sig script :
  (length script <= length sig)%nat -> zlen sig < 2 ^ 32 -> Interpreter.delete_signature ver sig script = Ok script.
Proof.
  intros Hl Hs. assert (
    (sg ← @Builder.push_data Error.Error Builder.default sig; Script.find_and_delete script sg) = Ok script) as Hd.
  { destruct (@Builder.push_data_spec Error.Error Builder.default sig Hs) as (enc & o & -> & Hlen & _).
    cbn [mbind outcome_bind app Builder.default]. unfold Script.find_and_delete.
    by rewrite (proj2 (Nat.ltb_lt _ _)) by lia. }
  unfold Interpreter.delete_signature. destruct ver; [done|done|]. by destruct (Sighash.fork_id _).
Qed.

Lemma check_spend_signed signer i amount flags ver p kp spk t h s :
  Keys.keypair_from_private p = Ok kp -> uint 8 t -> (length spk <= length s)%nat -> zlen s < 2 ^ 31 ->
  @signature_hash _ Error.Error signer i amount spk ver t = Ok h -> Keys.private_sign p h = Ok s ->
  @InterpreterSpec.check_spend (TransactionSignatureChecker signer i amount) flags ver
    (s ++ [byte_of t]) (Keys.public kp) spk =
  (_ ← SigEncoding.check_signature_encoding (s ++ [byte_of t]) flags ver;
   _ ← SigEncoding.check_pubkey_encoding (Keys.public kp) flags; Ok true).
Proof.
  intros Hk Ht Hlen Hs Hh Hsig. unfold InterpreterSpec.check_spend.
  rewrite delete_longer by (rewrite length_app; cbn; lia). cbn [mbind outcome_bind].
  destruct (SigEncoding.check_signature_encoding _ _ _); cbn [mbind outcome_bind]; [|done..].
  destruct (SigEncoding.check_pubkey_encoding _ _); cbn [mbind outcome_bind]; [|done..].
  unfold SigEncoding.check_script_signature.
  destruct (Keys.keypair_public p kp Hk) as (k & pk & _ & _ & _ & Hpub).
  assert (Script.public_from_slice (Keys.public kp) = Ok (Keys.public kp)) as ->.
  { unfold Script.public_from_slice. rewrite Hpub, length_public_serialize. by destruct (Keys.compressed p). }
  rewrite last_snoc, removelast_last, u8_byte_of_small by done. cbn [check_signature TransactionSignatureChecker].
  rewrite Hh. cbn [mbind outcome_bind]. unfold verify_or_false. by rewrite (Keys.sign_verifies p kp h s).
Qed.

End spend.

(** * Properties *)

(** What a signature does not cover.  With SIGHASH_NONE the outputs, with
    SIGHASH_SINGLE every output but the one at the input's index, and with
    SIGHASH_ANYONECANPAY every other input can change without changing the hash,
    under each of the three signature versions. *)
Theorem signature_hash_ignores `{Crypto} {E} self i amount script ver t :
  let sh := Sighash.from_u32 ver t in
  (forall outs, Sighash.base sh = Sighash.None ->
     @signature_hash _ E (with_outputs self outs) i amount script ver t =
     signature_hash self i amount script ver t) /\
  (forall outs o, Sighash.base sh = Sighash.Single -> s_outputs self !! i = Some o -> outs !! i = Some o ->
     @signature_hash _ E (with_outputs self outs) i amount script ver t =
     signature_hash self i amount script ver t) /\
  (forall ins x, Sighash.anyone_can_pay sh = true -> s_inputs self !! i = Some x -> ins !! i = Some x ->
     @signature_hash _ E (with_inputs self ins) i amount script ver t =
     signature_hash self i amount script ver t).
Proof.
  intros sh. split_and!; intros.
  - by apply none_ignores_outputs.
  - by eapply single_reads_output.
  - by eapply anyone_can_pay_reads_input.
Qed.

(** C8: what a signature of type SIGHASH_ALL covers, for each of the three signature
    versions.  If two such hashes are equal, then version, inputs, outputs, lock time and
    hash type are equal.  The digest of witness programs and of the fork determines the
    outpoint and sequence of the signed input, its amount and the script code; the
    original hash determines the signed position and the script code without
    OP_CODESEPARATOR, unless nothing is left of the script code.  Otherwise two different
    strings among those hashed for the two signatures have the same double hash. *)
Theorem signature_hash_all_binding `{CryptoLaws} {E} s s' i i' amount amount' script script' ver t t' :
  wf_signer s -> wf_signer s' ->
  (i < length (s_inputs s))%nat -> (i' < length (s_inputs s'))%nat -> uint 64 amount -> uint 64 amount' ->
  zlen script <= isize_max -> zlen script' <= isize_max -> uint 32 t -> uint 32 t' ->
  covers_all t -> covers_all t' ->
  @signature_hash _ E s i amount script ver t = signature_hash s' i' amount' script' ver t' ->
  (s = s' /\ t = t' /\ same_spend (E := E) s s' i i' amount amount' script script' ver t) \/
  collides (hashed_strings (E := E) s i amount script ver t ++ hashed_strings (E := E) s' i' amount' script' ver t').
Proof. apply all_binding. Qed.

(** Verifying an input of a transaction with the transaction's own checker
    never panics and always ends. *)
Theorem verify_input_returns `{CryptoLaws} `{Secp256k1} signer i amount script_sig script_pubkey witness flags version :
  (i < length (s_inputs signer))%nat ->
  verify_low_s flags = false ->
  (verify_cleanstack flags || verify_witness flags = true -> verify_p2sh flags = true) ->
  zlen witness < 2 ^ 60 ->
  returns (@Interpreter.verify_script _ (TransactionSignatureChecker signer i amount)
             script_sig script_pubkey witness flags version).
Proof.
  intros Hi. pose proof (TransactionSignatureChecker_returns signer i amount Hi).
  by apply InterpreterSafety.verify_script_no_panic.
Qed.

(** OP_CHECKLOCKTIMEVERIFY and OP_CHECKSEQUENCEVERIFY.  A non-negative operand
    passes the first exactly when it is of the same kind (height or time) as the
    transaction's lock time and not above it and the input is not final; it passes
    the second exactly when the version enables relative lock times, the input's
    are not disabled, and the masked values are of the same kind and in order. *)
Theorem lock_time_checks `{Crypto} `{Secp256k1} signer i x n :
  s_inputs signer !! i = Some x -> uint 32 (s_lock_time signer) -> 0 <= n ->
  tx_check_lock_time signer i n =
    Ok (bool_decide ((n < LOCKTIME_THRESHOLD <-> s_lock_time signer < LOCKTIME_THRESHOLD) /\
                     n <= s_lock_time signer) && negb (u_sequence x =? SEQUENCE_FINAL)) /\
  let masked v := Z.land v (Z.lor SEQUENCE_LOCKTIME_TYPE_FLAG SEQUENCE_LOCKTIME_MASK) in
  tx_check_sequence signer i n =
    Ok (bool_decide (2 <= wrap 32 (s_version signer)) &&
        negb (Z.testbit (u_sequence x) 31) &&
        bool_decide ((masked n < SEQUENCE_LOCKTIME_TYPE_FLAG <->
                      masked (u_sequence x) < SEQUENCE_LOCKTIME_TYPE_FLAG) /\
                     masked n <= masked (u_sequence x))).
Proof.
  intros Hx Hl Hn. split.
  - unfold tx_check_lock_time. rewrite (index_Ok _ _ _ Hx). cbn [mbind outcome_bind].
    rewrite (Z.eqb_sym SEQUENCE_FINAL).
    destruct (Z.le_gt_cases n u32_max) as [Hle|Hgt].
    + assert (Num.to_u32 n = n) as -> by (apply wrap_uint; unfold uint; lia).
      destruct (Z.ltb_spec (s_lock_time signer) LOCKTIME_THRESHOLD), (Z.ltb_spec n LOCKTIME_THRESHOLD),
        (Z.leb_spec LOCKTIME_THRESHOLD (s_lock_time signer)), (Z.leb_spec LOCKTIME_THRESHOLD n); try lia;
        cbn [andb orb negb]; destruct (Z.ltb_spec (s_lock_time signer) n); case_bool_decide; try lia; done.
    + unfold uint in Hl. rewrite (proj2 (Z.ltb_lt _ n)) by lia. rewrite bool_decide_eq_false_2 by lia.
      by destruct (negb _).
  - intros masked. unfold tx_check_sequence. rewrite (index_Ok _ _ _ Hx). cbn [mbind outcome_bind]. fold (masked n).
    fold (masked (u_sequence x)). change SEQUENCE_LOCKTIME_DISABLE_FLAG with (2 ^ 31). rewrite land_pow2 by lia.
    destruct (Z.ltb_spec (wrap 32 (s_version signer)) 2); [by rewrite bool_decide_eq_false_2 by lia|].
    rewrite (bool_decide_eq_true_2 (2 <= _)) by lia. destruct (Z.testbit (u_sequence x) 31); [done|].
    change (negb (0 =? 0)) with false. cbn [andb negb].
    destruct (Z.ltb_spec (masked (u_sequence x)) SEQUENCE_LOCKTIME_TYPE_FLAG),
      (Z.ltb_spec (masked n) SEQUENCE_LOCKTIME_TYPE_FLAG),
      (Z.leb_spec SEQUENCE_LOCKTIME_TYPE_FLAG (masked (u_sequence x))),
      (Z.leb_spec SEQUENCE_LOCKTIME_TYPE_FLAG (masked n)); try lia;
      cbn [andb orb negb]; destruct (Z.leb_spec (masked n) (masked (u_sequence x))); case_bool_decide; try lia; done.
Qed.

(** C2: signing and verifying agree.  Take an input that spends a
    pay-to-public-key-hash output of a private key's address, the hash to sign under any
    of the three signature versions and any hash type byte, the signature the key makes
    over it (of 25 to 519 bytes), and the unlocking script that pushes the signature with
    its hash type and the public key.  What [verify_script] gives with the
    transaction's checker is what the checks of the two encodings give: the hash the
    checker computes is the one that was signed, so that without the flags DERSIG, LOW_S
    and STRICTENC the spend is accepted.  CLEANSTACK and WITNESS come with P2SH,
    without which the code panics. *)
Theorem signed_p2pkh_accepted `{CryptoLaws} `{Secp256k1Laws} signer i amount flags ver p kp t h s :
  Keys.keypair_from_private p = Ok kp -> uint 8 t -> (25 <= length s)%nat -> zlen s < 520 ->
  (verify_cleanstack flags || verify_witness flags = true -> verify_p2sh flags = true) ->
  (spk ← Builder.build_p2pkh (dhash160 (Keys.public kp));
   @signature_hash _ Error.Error signer i amount spk ver t) = Ok h ->
  Keys.private_sign p h = Ok s ->
  exists script_sig spk,
    (b ← @Builder.push_data Error.Error Builder.default (s ++ [byte_of t]);
     Builder.push_data b (Keys.public kp)) = Ok script_sig /\
    @Builder.build_p2pkh Error.Error (dhash160 (Keys.public kp)) = Ok spk /\
    @Interpreter.verify_script _ (TransactionSignatureChecker signer i amount) script_sig spk [] flags ver =
    (_ ← SigEncoding.check_signature_encoding (s ++ [byte_of t]) flags ver;
     SigEncoding.check_pubkey_encoding (Keys.public kp) flags) /\
    (verify_dersig flags || verify_low_s flags || verify_strictenc flags = false ->
     @Interpreter.verify_script _ (TransactionSignatureChecker signer i amount) script_sig spk [] flags ver = Ok tt).
Proof.
  intros Hk Ht Hl Hs Hp2sh Hh Hsig. set (pk := Keys.public kp) in *.
  assert (33 <= length pk <= 65)%nat as Hpk.
  { destruct (Keys.keypair_public p kp Hk) as (k & q & _ & _ & _ & Hpub).
    subst pk. rewrite Hpub, length_public_serialize. destruct (Keys.compressed p); lia. }
  destruct (@InterpreterSpec.p2pkh_verify _ (TransactionSignatureChecker signer i amount) flags ver
    (s ++ [byte_of t]) pk (dhash160 pk)) as (ssig & spk & E1 & E2 & Ev);
    [intros _; rewrite length_app; cbn; lia|done|apply length_dhash160|rewrite length_app; cbn; lia|lia|].
  exists ssig, spk. rewrite Ev. rewrite E2 in Hh. cbn [mbind outcome_bind] in Hh.
  rewrite bool_decide_eq_true_2 by done. subst pk. rewrite (check_spend_signed signer i amount flags ver p kp spk t h s);
    try done; [| |lia].
  - split_and!; [done|done| |].
    + destruct (SigEncoding.check_signature_encoding _ _ _); cbn [mbind outcome_bind]; [|done..].
      by destruct (SigEncoding.check_pubkey_encoding _ _) as [[]| | |].
    + intros [[Hd Hlow]%orb_false_iff Hst]%orb_false_iff. unfold SigEncoding.check_signature_encoding, SigEncoding.check_pubkey_encoding.
      rewrite Hd, Hlow, Hst. by destruct (s ++ [byte_of t]).
  - destruct (InterpreterSpec.p2pkh_decodes (dhash160 (Keys.public kp)) (length_dhash160 _)) as [E3 _].
    rewrite E2 in E3. injection E3 as ->. cbn [length app]. rewrite length_app, length_dhash160. cbn. lia.
Qed.

(** Witnesses, with the example packages and a transaction of one input. *)
Section witnesses.
Import ExampleCrypto Keys.ExampleKeys.

Definition example_signer : TransactionInputSigner :=
  mkSigner 2 [mkUnsigned (mkOutPoint (replicate 32 x07) 3) 5] [mkOutput 5000 [x51]] 100.

Lemma wf_example_signer : wf_signer example_signer.
Proof. split; cbn; unfold sint, uint, isize_max; repeat constructor; cbn; unfold isize_max; (done || lia). Qed.

Lemma signature_hash_ignores_witness :
  @signature_hash _ unit (with_outputs example_signer []) 0 7 [x51] WitnessV0 2 =
  signature_hash example_signer 0 7 [x51] WitnessV0 2.
Proof. by apply signature_hash_ignores. Defined.

(** Under the example digest, which is a prefix, two amounts have the same hash; the
    theorem exhibits the two digests that collide. *)
Lemma signature_hash_all_binding_witness :
  collides (hashed_strings (E := unit) example_signer 0 7 [x51] WitnessV0 1 ++
    hashed_strings (E := unit) example_signer 0 8 [x51] WitnessV0 1).
Proof.
  destruct (@signature_hash_all_binding _ _ unit example_signer example_signer 0 0 7 8 [x51] [x51] WitnessV0 1 1)
    as [(_ & _ & _ & _ & He)|Hc];
    first [exact wf_example_signer | vm_compute; reflexivity | unfold isize_max; cbn; lia | unfold uint; lia | cbn; lia
          | by vm_compute | discriminate He | exact Hc].
Defined.

Lemma verify_input_returns_witness :
  returns (@Interpreter.verify_script _ (TransactionSignatureChecker example_signer 0 7)
             [x51] [x51] [] default_flags Base).
Proof. apply verify_input_returns; [cbn; lia|done|done|cbn; lia]. Defined.

Lemma lock_time_checks_witness :
  tx_check_lock_time example_signer 0 99 = Ok true /\ tx_check_sequence example_signer 0 4 = Ok true.
Proof.
  destruct (lock_time_checks example_signer 0 (mkUnsigned (mkOutPoint (replicate 32 x07) 3) 5) 99) as [H1 _];
    [done|unfold uint; cbn; lia|lia|].
  destruct (lock_time_checks example_signer 0 (mkUnsigned (mkOutPoint (replicate 32 x07) 3) 5) 4) as [_ H2];
    [done|unfold uint; cbn; lia|lia|]. split; [exact H1|exact H2].
Defined.

Lemma signed_p2pkh_accepted_witness :
  exists script_sig spk,
    (b ← @Builder.push_data Error.Error Builder.default (replicate 30 x07 ++ [x01]);
     Builder.push_data b (replicate 33 x07)) = Ok script_sig /\
    @Builder.build_p2pkh Error.Error (dhash160 (replicate 33 x07)) = Ok spk /\
    @Interpreter.verify_script _ (TransactionSignatureChecker example_signer 0 7)
      script_sig spk [] default_flags Base = Ok tt.
Proof.
  edestruct (signed_p2pkh_accepted example_signer 0 7 default_flags Base key (Keys.mkKeyPair key (replicate 33 x07)) 1)
    as (ssig & spk & E1 & E2 & _ & E3).
  - by vm_compute.
  - unfold uint; lia.
  - instantiate (1 := replicate 30 x07). cbn. lia.
  - cbn. lia.
  - intros Hf. discriminate Hf.
  - vm_compute. reflexivity.
  - by vm_compute.
  - exists ssig, spk. split_and!; [exact E1|exact E2|exact (E3 eq_refl)].
Defined.

End witnesses.

End Sign.
