(* ===== verification/U256.v ===== *)
(** The 256-bit integers of the bigint package (re-exported by src/primitives/src/lib.rs
    as [bigint::U256]).  The package is the operations of a class; what the
    repository relies on is its laws, stated through the integer each value
    stands for.  Results of [+] and [*] that do not fit in 256 bits are left
    unspecified. *)
From Stdlib Require Import ZArith Lia Strings.Byte.
From stdpp Require Import base decidable numbers list.
From S2P Require Import Prelude.

Local Open Scope Z_scope.

(** The integer a big-endian byte string stands for. *)
Definition be_value (bs : bytes) : Z := le_value (reverse bs).

Class U256 := {
  u256 : Type;
  (** [U256::from] of a [u32] or [u64] *)
  u256_from : Z -> u256;
  (** [U256::from] of a slice, read as a big-endian number *)
  u256_from_bytes : bytes -> u256;
  u256_max_value : u256;
  u256_one : u256;
  (** [parse] of a string of hexadecimal digits, by its value *)
  u256_parse : Z -> u256;
  u256_shl : u256 -> Z -> u256;
  u256_shr : u256 -> Z -> u256;
  u256_not : u256 -> u256;
  u256_bits : u256 -> Z;
  u256_low_u64 : u256 -> Z;
  u256_low_u32 : u256 -> Z;
  u256_add : forall {E}, u256 -> u256 -> outcome E u256;
  u256_mul : forall {E}, u256 -> u256 -> outcome E u256;
  u256_div : forall {E}, u256 -> u256 -> outcome E u256;
  u256_leb : u256 -> u256 -> bool;
}.

Class U256Laws (U : U256) := {
  uval : u256 -> Z;
  uval_bound x : uint 256 (uval x);
  uval_from z : uint 64 z -> uval (u256_from z) = z;
  uval_from_bytes bs : (length bs <= 32)%nat -> uval (u256_from_bytes bs) = be_value bs;
  uval_max_value : uval u256_max_value = 2 ^ 256 - 1;
  uval_one : uval u256_one = 1;
  uval_parse z : uint 256 z -> uval (u256_parse z) = z;
  uval_shl x n : 0 <= n -> uval (u256_shl x n) = wrap 256 (Z.shiftl (uval x) n);
  uval_shr x n : 0 <= n -> uval (u256_shr x n) = Z.shiftr (uval x) n;
  uval_not x : uval (u256_not x) = 2 ^ 256 - 1 - uval x;
  u256_bits_spec x : u256_bits x = if uval x =? 0 then 0 else Z.log2 (uval x) + 1;
  u256_low_u64_spec x : u256_low_u64 x = wrap 64 (uval x);
  u256_low_u32_spec x : u256_low_u32 x = wrap 32 (uval x);
  uval_add {E} x y : uint 256 (uval x + uval y) ->
    exists z, @u256_add U E x y = Ok z /\ uval z = uval x + uval y;
  uval_mul {E} x y : uint 256 (uval x * uval y) ->
    exists z, @u256_mul U E x y = Ok z /\ uval z = uval x * uval y;
  uval_div {E} x y : uval y <> 0 ->
    exists z, @u256_div U E x y = Ok z /\ uval z = uval x / uval y;
  u256_leb_spec x y : u256_leb x y = (uval x <=? uval y);
}.

(** Integers modulo 2^256 satisfy the laws; used to evaluate examples. *)
Module ExampleU256.
#[export] Instance example_u256 : U256 := {|
  u256 := Z;
  u256_from := wrap 256;
  u256_from_bytes := fun bs => wrap 256 (be_value bs);
  u256_max_value := 2 ^ 256 - 1;
  u256_one := 1;
  u256_parse := wrap 256;
  u256_shl := fun x n => wrap 256 (Z.shiftl (wrap 256 x) n);
  u256_shr := fun x n => Z.shiftr (wrap 256 x) n;
  u256_not := fun x => 2 ^ 256 - 1 - wrap 256 x;
  u256_bits := fun x => if wrap 256 x =? 0 then 0 else Z.log2 (wrap 256 x) + 1;
  u256_low_u64 := fun x => wrap 64 (wrap 256 x);
  u256_low_u32 := fun x => wrap 32 (wrap 256 x);
  u256_add := fun E x y => ucheck 256 (wrap 256 x + wrap 256 y);
  u256_mul := fun E x y => ucheck 256 (wrap 256 x * wrap 256 y);
  u256_div := fun E x y => if wrap 256 y =? 0 then Panic else Ok (wrap 256 x / wrap 256 y);
  u256_leb := fun x y => wrap 256 x <=? wrap 256 y;
|}.

Lemma wrap_wrap w z : 0 <= w -> wrap w (wrap w z) = wrap w z.
Proof. intros. by apply wrap_uint, uint_wrap. Qed.

Lemma be_value_bound bs : (length bs <= 32)%nat -> uint 256 (be_value bs).
Proof.
  intros Hl. pose proof (le_value_bound (reverse bs)) as Hb. unfold uint, be_value.
  rewrite length_reverse in Hb. change (2 ^ 256) with (256 ^ 32).
  pose proof (Z.pow_le_mono_r 256 (zlen bs) 32). lia.
Qed.

Lemma uint_div w x y : uint w x -> 0 < y -> uint w (x / y).
Proof.
  intros [H0 H1] Hy. split; [apply Z.div_pos; lia|]. apply Z.div_lt_upper_bound; nia.
Qed.

#[export] Instance example_u256_laws : U256Laws example_u256.
Proof.
  refine {| uval := wrap 256 |}; cbn -[Z.pow Z.log2 Z.shiftl Z.shiftr Z.div]; intros.
  - by apply uint_wrap.
  - rewrite wrap_wrap by lia. apply wrap_uint.
    unfold uint in *. change (2 ^ 64) with 18446744073709551616 in *. change (2 ^ 256) with (2 ^ 64 * 2 ^ 192). lia.
  - rewrite wrap_wrap by lia. by apply wrap_uint, be_value_bound.
  - done.
  - done.
  - by rewrite wrap_wrap, wrap_uint.
  - by rewrite wrap_wrap.
  - apply wrap_uint. rewrite Z.shiftr_div_pow2 by lia. apply uint_div; [by apply uint_wrap|lia].
  - apply wrap_uint. pose proof (uint_wrap 256 x). unfold uint in *. lia.
  - done.
  - done.
  - done.
  - exists (wrap 256 x + wrap 256 y). split; [by apply ucheck_Ok|by apply wrap_uint].
  - exists (wrap 256 x * wrap 256 y). split; [by apply ucheck_Ok|by apply wrap_uint].
  - exists (wrap 256 x / wrap 256 y). rewrite (proj2 (Z.eqb_neq _ _)) by done.
    pose proof (uint_wrap 256 y ltac:(lia)) as Hy. unfold uint in Hy.
    split; [done|]. apply wrap_uint, uint_div; [by apply uint_wrap|lia].
  - done.
Defined.
End ExampleU256.
