(* ===== verification/Compact.v ===== *)
(** The compact encoding of 256-bit targets (src/primitives/src/compact.rs): eight
    bits of size in bytes, a sign bit and twenty-three bits of leading digits. *)
From Stdlib Require Import ZArith Lia Strings.Byte.
From stdpp Require Import base decidable numbers list.
From S2P Require Import Prelude U256.

Local Open Scope Z_scope.

Module Compact.

(** [Compact(u32)]: its bits. *)
Abbreviation Compact := Z.

Section compact.
Context `{U256}.

(** [Compact::to_u256]; the shift of a small size also changes [word], which the
    tests below then read. *)
Definition to_u256 (self : Compact) : outcome u256 u256 :=
  let size := Z.shiftr self 24 in
  let word := Z.land self 8388607 in
  let '(word, result) :=
    if size <=? 3 then
      let word := Z.shiftr word (8 * (3 - size)) in (word, u256_from word)
    else (word, u256_shl (u256_from word) (8 * (size - 3))) in
  let is_negative := negb (word =? 0) && negb (Z.land self 8388608 =? 0) in
  let is_overflow := (negb (word =? 0) && (34 <? size)) ||
                     ((255 <? word) && (33 <? size)) ||
                     ((65535 <? word) && (32 <? size)) in
  if is_negative || is_overflow then Err result else Ok result.

(** [From<Compact> for U256]: errors are ignored. *)
Definition u256_of_compact (c : Compact) : u256 :=
  match to_u256 c with Ok r | Err r => r | Panic | Diverge => u256_from 0 end.

(** [Compact::from_u256]. *)
Definition from_u256 {E} (val : u256) : outcome E Compact :=
  let size := (u256_bits val + 7) / 8 in
  let compact :=
    if size <=? 3 then wrap 32 (wrap 64 (Z.shiftl (u256_low_u64 val) (8 * (3 - size))))
    else u256_low_u32 (u256_shr val (8 * (size - 3))) in
  let '(compact, size) :=
    if negb (Z.land compact 8388608 =? 0) then (Z.shiftr compact 8, size + 1) else (compact, size) in
  _ ← rust_assert (Z.land compact (u32_max - 8388607) =? 0);
  _ ← rust_assert (size <? 256);
  Ok (Z.lor compact (wrap 32 (Z.shiftl size 24))).

(** [Compact::max_value]. *)
Definition max_value {E} : outcome E Compact := from_u256 u256_max_value.

End compact.

(** The integer a size and a mantissa stand for: [word * 256^(size - 3)], rounded down. *)
Definition scaled (word size : Z) : Z := Z.shiftl word (8 * (size - 3)).

(** The encodings [from_u256] produces: no sign bit, no leading zero byte that the
    sign does not need, no digits below the units, and a size that fits. *)
Definition canonical (c : Compact) : Prop :=
  c = 0 \/
  exists size word, c = word + size * 2 ^ 24 /\ 32768 <= word < 8388608 /\
    (1 <= size <= 32 \/ size = 33 /\ word < 65536) /\
    (size < 3 -> word mod 2 ^ (8 * (3 - size)) = 0).

(** * Lemmas *)

Lemma shiftr_bound v k n : 0 <= v < 2 ^ n -> 0 <= n - k -> 0 <= Z.shiftr v k < 2 ^ (n - k).
Proof.
  intros [H0 H1] Hk. split; [by apply Z.shiftr_nonneg|].
  destruct (Z.le_gt_cases 0 k) as [Hp|Hn].
  - rewrite Z.shiftr_div_pow2 by done. apply Z.div_lt_upper_bound; [lia|].
    rewrite <- Z.pow_add_r by lia. by replace (k + (n - k)) with n by lia.
  - rewrite Z.shiftr_mul_pow2 by lia. destruct (Z.le_gt_cases 0 n).
    + replace (n - k) with (n + - k) by lia. rewrite Z.pow_add_r by lia. nia.
    + rewrite (Z.pow_neg_r 2 n) in H1 by done. lia.
Qed.

Lemma shiftr_lower v k n : 2 ^ n <= v -> 0 <= n -> 0 <= n - k -> 2 ^ (n - k) <= Z.shiftr v k.
Proof.
  intros Hv Hn Hk. destruct (Z.le_gt_cases 0 k) as [Hp|Hm].
  - rewrite Z.shiftr_div_pow2 by done. apply Z.div_le_lower_bound; [lia|].
    rewrite <- Z.pow_add_r by lia. by replace (k + (n - k)) with n by lia.
  - rewrite Z.shiftr_mul_pow2 by lia. replace (n - k) with (n + - k) by lia.
    rewrite Z.pow_add_r by lia. nia.
Qed.

(** The value lost by shifting down and up again. *)
Lemma shift_down_up v k :
  0 <= v -> Z.shiftl (Z.shiftr v k) k = if 0 <=? k then v - v mod 2 ^ k else v.
Proof.
  intros Hv. destruct (Z.leb_spec 0 k) as [Hk|Hk].
  - rewrite Z.shiftl_mul_pow2, Z.shiftr_div_pow2, Z.mod_eq by lia. lia.
  - rewrite Z.shiftl_div_pow2, Z.shiftr_mul_pow2 by lia. apply Z.div_mul. lia.
Qed.

(** Reading the two halves of [word + size * 2^24]. *)
Lemma compact_size_field word size : 0 <= word < 2 ^ 24 -> Z.shiftr (word + size * 2 ^ 24) 24 = size.
Proof. intros. rewrite Z.shiftr_div_pow2, Z.div_add, Z.div_small by lia. lia. Qed.

Lemma compact_word_field word size : 0 <= word < 2 ^ 23 -> Z.land (word + size * 2 ^ 24) 8388607 = word.
Proof.
  intros. change 8388607 with (Z.ones 23). rewrite Z.land_ones by lia.
  change (2 ^ 24) with (2 * 2 ^ 23). rewrite Z.mul_assoc, Z.mod_add, Z.mod_small by lia. done.
Qed.

Lemma compact_sign_field word size : 0 <= word < 2 ^ 23 -> Z.land (word + size * 2 ^ 24) 8388608 = 0.
Proof.
  intros. change 8388608 with (2 ^ 23). rewrite land_pow2 by lia.
  assert (Z.testbit (word + size * 2 ^ 24) 23 = false) as ->; [|done].
  rewrite Z.testbit_false by lia. change (2 ^ 24) with (2 * 2 ^ 23).
  rewrite Z.mul_assoc, Z.div_add, Z.div_small, Z.add_0_l by lia.
  by rewrite Z.mod_mul.
Qed.

Section laws.
Context `{U256Laws}.

(** Decoding a non-negative encoding whose value fits. *)
Lemma to_u256_spec word size :
  0 <= word < 2 ^ 23 -> 0 <= size ->
  (size <= 32 \/ size = 33 /\ word < 65536) ->
  exists r, to_u256 (word + size * 2 ^ 24) = Ok r /\ uval r = scaled word size.
Proof.
  intros Hw Hs Hfit. unfold to_u256, scaled. rewrite compact_size_field, compact_word_field, compact_sign_field by lia.
  destruct (Z.leb_spec size 3) as [Hle|Hgt].
  - eexists. split.
    + rewrite andb_false_r. cbn [orb].
      rewrite (proj2 (Z.ltb_ge 34 size)), (proj2 (Z.ltb_ge 33 size)), (proj2 (Z.ltb_ge 32 size)) by lia.
      by rewrite !andb_false_r.
    + replace (8 * (3 - size)) with (- (8 * (size - 3))) by lia. rewrite Z.shiftr_opp_r.
      rewrite uval_from; [done|]. rewrite Z.shiftl_div_pow2 by lia.
      set (q := 2 ^ (- (8 * (size - 3)))). assert (0 < q) by (apply Z.pow_pos_nonneg; lia).
      unfold uint. split; [by apply Z.div_pos; lia|]. apply Z.div_lt_upper_bound; nia.
  - eexists. split.
    + rewrite andb_false_r. cbn [orb].
      rewrite (proj2 (Z.ltb_ge 34 size)), (proj2 (Z.ltb_ge 33 size)) by lia. rewrite !andb_false_r. cbn [orb].
      destruct (Z.ltb_spec 65535 word), (Z.ltb_spec 32 size); try done. lia.
    + rewrite uval_shl, uval_from by (unfold uint; lia).
      apply wrap_uint. unfold uint. rewrite Z.shiftl_mul_pow2 by lia. split; [lia|].
      destruct Hfit as [Hf|[-> Hf]].
      * apply Z.lt_le_trans with (2 ^ 23 * 2 ^ (8 * (size - 3))); [nia|].
        rewrite <- Z.pow_add_r by lia. apply Z.pow_le_mono_r; lia.
      * apply Z.lt_le_trans with (2 ^ 16 * 2 ^ (8 * (33 - 3))); [nia|]. done.
Qed.

(** The leading twenty-four bits that the encoder starts from. *)
Lemma leading_digits v :
  uval v <> 0 ->
  let size := (u256_bits v + 7) / 8 in
  let compact := Z.shiftr (uval v) (8 * (size - 3)) in
  1 <= size <= 32 /\ 2 ^ 16 <= compact < 2 ^ 24 /\
  (if size <=? 3 then wrap 32 (wrap 64 (Z.shiftl (u256_low_u64 v) (8 * (3 - size))))
   else u256_low_u32 (u256_shr v (8 * (size - 3)))) = compact.
Proof.
  intros Hv size compact. pose proof (uval_bound v) as Hb. unfold uint in Hb.
  assert (size = Z.log2 (uval v) / 8 + 1) as Es.
  { subst size. rewrite u256_bits_spec, (proj2 (Z.eqb_neq _ _)) by done.
    replace (Z.log2 (uval v) + 1 + 7) with (Z.log2 (uval v) + 1 * 8) by lia. by rewrite Z.div_add. }
  assert (0 < uval v) as Hpos by lia.
  pose proof (Z.log2_spec (uval v) Hpos) as [Hlo Hhi]. rewrite <- Z.add_1_r in Hhi.
  pose proof (Z.log2_nonneg (uval v)) as Hl0.
  assert (Z.log2 (uval v) < 256) as Hl1 by (apply Z.log2_lt_pow2; lia).
  set (L := Z.log2 (uval v)) in *.
  pose proof (Z.div_mod L 8 ltac:(lia)) as Hdm. pose proof (Z.mod_pos_bound L 8 ltac:(lia)) as Hm.
  assert (1 <= size <= 32) as Hs by lia.
  assert (2 ^ 16 <= compact < 2 ^ 24) as Hc.
  { pose proof (shiftr_lower _ (8 * (size - 3)) L Hlo Hl0 ltac:(lia)) as H1.
    assert (0 <= uval v < 2 ^ (L + 1)) as Hr by lia.
    pose proof (shiftr_bound _ (8 * (size - 3)) (L + 1) Hr ltac:(lia)) as H2.
    pose proof (Z.pow_le_mono_r 2 16 (L - 8 * (size - 3)) ltac:(lia) ltac:(lia)) as H3.
    pose proof (Z.pow_le_mono_r 2 (L + 1 - 8 * (size - 3)) 24 ltac:(lia) ltac:(lia)) as H4.
    subst compact. lia. }
  split_and!; [lia..|]. destruct (Z.leb_spec size 3) as [Hle|Hgt].
  - rewrite u256_low_u64_spec.
    assert (uval v < 2 ^ 24).
    { eapply Z.lt_le_trans; [apply Hhi|]. apply Z.pow_le_mono_r; lia. }
    rewrite (wrap_uint 64 (uval v)) by (unfold uint; lia).
    replace (8 * (3 - size)) with (- (8 * (size - 3))) by lia. rewrite Z.shiftl_opp_r.
    fold compact. rewrite !wrap_uint; [done|unfold uint; lia..|rewrite wrap_uint; unfold uint; lia].
  - rewrite u256_low_u32_spec, uval_shr by lia. apply wrap_uint. fold compact. unfold uint. lia.
Qed.

Lemma from_u256_form {E} v :
  exists word size, @from_u256 _ E v = Ok (word + size * 2 ^ 24) /\
    word = Z.shiftr (uval v) (8 * (size - 3)) /\ 0 <= word < 2 ^ 23 /\
    (size = 0 /\ uval v = 0 \/
     1 <= size <= 33 /\ 32768 <= word /\ (size = 33 -> word < 65536)).
Proof.
  destruct (Z.eq_dec (uval v) 0) as [Hz|Hnz].
  { exists 0, 0. unfold from_u256. rewrite u256_bits_spec, u256_low_u64_spec, Hz. cbn. split_and!; (lia || done). }
  destruct (leading_digits v Hnz) as (Hs & Hc & He). unfold from_u256. rewrite He.
  set (size := (u256_bits v + 7) / 8) in *. set (compact := Z.shiftr (uval v) (8 * (size - 3))) in *.
  change 8388608 with (2 ^ 23). rewrite land_pow2, testbit_small by (try lia; exact (conj ltac:(lia) (proj2 Hc))).
  assert (forall word n, 0 <= word < 2 ^ 23 -> 0 <= n < 256 ->
    (_ ← rust_assert (Z.land word (u32_max - 8388607) =? 0); _ ← rust_assert (n <? 256);
     Ok (Z.lor word (wrap 32 (Z.shiftl n 24)))) = @Ok E _ (word + n * 2 ^ 24)) as Hend.
  { intros word n Hw Hn. assert (Z.land word (u32_max - 8388607) = 0) as ->.
    { change (u32_max - 8388607) with (Z.shiftl 511 23). apply Z.bits_inj'. intros i Hi.
      rewrite Z.land_spec, Z.bits_0. destruct (Z.lt_ge_cases i 23).
      - rewrite Z.shiftl_spec_low by lia. apply andb_false_r.
      - rewrite (proj2 (Z.testbit_false word i Hi)); [done|]. rewrite Z.div_small; [done|].
        pose proof (Z.pow_le_mono_r 2 23 i). lia. }
    rewrite (proj2 (Z.ltb_lt n 256)) by lia. cbn [rust_assert mbind outcome_bind Z.eqb].
    rewrite wrap_uint, lor_shiftl_add; [done|lia|lia|].
    unfold uint. rewrite Z.shiftl_mul_pow2 by lia. lia. }
  destruct (Z.leb_spec (2 ^ 23) compact) as [Hbig|Hsmall].
  - change (negb (2 ^ 23 =? 0)) with true. assert (0 <= Z.shiftr compact 8 < 2 ^ 16 /\ 32768 <= Z.shiftr compact 8) as [Hw Hw'].
    { rewrite Z.shiftr_div_pow2 by lia. split; [split; [apply Z.div_pos; lia|apply Z.div_lt_upper_bound; lia]|].
      apply Z.div_le_lower_bound; lia. }
    exists (Z.shiftr compact 8), (size + 1). rewrite Hend by lia. split; [done|]. split; [|lia].
    subst compact. rewrite Z.shiftr_shiftr by lia. f_equal. lia.
  - exists compact, size. cbn [negb Z.eqb]. rewrite Hend by lia. split_and!; try done; try lia.
Qed.

(** Floor and exactness of the scaling, without negative exponents. *)
Lemma shiftr_scaled v size :
  0 <= v -> 0 <= size ->
  let word := Z.shiftr v (8 * (size - 3)) in
  word * 2 ^ (8 * size) <= v * 2 ^ 24 < (word + 1) * 2 ^ (8 * size).
Proof.
  intros Hv Hs word. subst word. destruct (Z.le_gt_cases 0 (size - 3)).
  - replace (2 ^ (8 * size)) with (2 ^ (8 * (size - 3)) * 2 ^ 24)
      by (rewrite <- Z.pow_add_r by lia; f_equal; lia).
    rewrite Z.shiftr_div_pow2 by lia. set (q := 2 ^ (8 * (size - 3))).
    assert (0 < q) by (apply Z.pow_pos_nonneg; lia).
    pose proof (Z.div_mod v q ltac:(lia)). pose proof (Z.mod_pos_bound v q ltac:(lia)). nia.
  - rewrite Z.shiftr_mul_pow2 by lia.
    replace (2 ^ 24) with (2 ^ (- (8 * (size - 3))) * 2 ^ (8 * size))
      by (rewrite <- Z.pow_add_r by lia; f_equal; lia).
    assert (0 < 2 ^ (8 * size)) by (apply Z.pow_pos_nonneg; lia). nia.
Qed.

Lemma scaled_exact word size :
  0 <= size -> (size < 3 -> word mod 2 ^ (8 * (3 - size)) = 0) ->
  scaled word size * 2 ^ 24 = word * 2 ^ (8 * size).
Proof.
  intros Hs Hd. unfold scaled. destruct (Z.le_gt_cases 3 size).
  - rewrite Z.shiftl_mul_pow2, <- Z.mul_assoc, <- Z.pow_add_r by lia. do 2 f_equal. lia.
  - rewrite Z.shiftl_div_pow2 by lia. replace (- (8 * (size - 3))) with (8 * (3 - size)) by lia.
    assert (0 < 2 ^ (8 * (3 - size))) by (apply Z.pow_pos_nonneg; lia).
    replace (2 ^ 24) with (2 ^ (8 * (3 - size)) * 2 ^ (8 * size))
      by (rewrite <- Z.pow_add_r by lia; f_equal; lia).
    pose proof (Z.div_mod word (2 ^ (8 * (3 - size))) ltac:(lia)). rewrite Hd in * by lia. nia.
Qed.

(** Two normalised readings of the same value are the same. *)
Lemma normal_unique v word size word' size' :
  0 <= size -> 0 <= size' -> 32768 <= word < 2 ^ 23 -> 32768 <= word' < 2 ^ 23 ->
  v * 2 ^ 24 = word * 2 ^ (8 * size) ->
  word' * 2 ^ (8 * size') <= v * 2 ^ 24 < (word' + 1) * 2 ^ (8 * size') ->
  word = word' /\ size = size'.
Proof.
  intros Hs Hs' Hw Hw' He Hv. rewrite He in Hv.
  assert (0 < 2 ^ (8 * size)) by (apply Z.pow_pos_nonneg; lia).
  assert (0 < 2 ^ (8 * size')) by (apply Z.pow_pos_nonneg; lia).
  destruct (Z.lt_trichotomy size size') as [Hlt|[->|Hgt]]; [exfalso| |exfalso].
  - assert (2 ^ 8 * 2 ^ (8 * size) <= 2 ^ (8 * size')); [|nia].
    rewrite <- Z.pow_add_r by lia. apply Z.pow_le_mono_r; lia.
  - split; [nia|done].
  - assert (2 ^ 8 * 2 ^ (8 * size') <= 2 ^ (8 * size)); [|nia].
    rewrite <- Z.pow_add_r by lia. apply Z.pow_le_mono_r; lia.
Qed.

(** Encoding is total and rounds down. *)
Lemma compact_rounding {E} v :
  exists c w, @from_u256 _ E v = Ok c /\ canonical c /\ uint 32 c /\ to_u256 c = Ok w /\
    uval w <= uval v /\ (uval v - uval w) * 2 ^ 15 <= uval v.
Proof.
  destruct (@from_u256_form E v) as (word & size & -> & Hw & Hb & Hs).
  pose proof (uval_bound v) as Hv. unfold uint in Hv.
  destruct (to_u256_spec word size Hb) as (w & Ht & Hr); [lia|lia|].
  exists (word + size * 2 ^ 24), w. split_and!; [done| | |done|..].
  - destruct Hs as [[-> Hz]|(Hs & Hl & Hf)].
    + left. rewrite Hz, Z.shiftr_0_l in Hw. lia.
    + right. exists size, word. split_and!; try lia.
      intros Hlt. rewrite Hw, Z.shiftr_mul_pow2 by lia.
      replace (- (8 * (size - 3))) with (8 * (3 - size)) by lia. apply Z.mod_mul. lia.
  - unfold uint. lia.
  - rewrite Hr. unfold scaled. rewrite Hw, shift_down_up by lia. destruct (Z.leb_spec 0 (8 * (size - 3))); [|lia].
    pose proof (Z.mod_pos_bound (uval v) (2 ^ (8 * (size - 3))) ltac:(lia)). lia.
  - rewrite Hr. unfold scaled. rewrite Hw, shift_down_up by lia. destruct (Z.leb_spec 0 (8 * (size - 3))) as [Hk|]; [|lia].
    rewrite Z.shiftr_div_pow2 in Hw by lia. set (q := 2 ^ (8 * (size - 3))) in *.
    assert (0 < q) by (apply Z.pow_pos_nonneg; lia).
    pose proof (Z.mod_pos_bound (uval v) q ltac:(lia)). pose proof (Z.div_mod (uval v) q ltac:(lia)).
    destruct Hs as [[-> Hz]|(Hs & Hl & Hf)]; [lia|]. nia.
Qed.

End laws.

(** * Properties *)

(** Encoding never fails, yields a canonical 32-bit encoding, and decoding it
    gives the value rounded down, with a relative error below 2^-15. *)
Theorem compact_rounds_down `{U256Laws} {E} v :
  exists c w, @from_u256 _ E v = Ok c /\ canonical c /\ uint 32 c /\ to_u256 c = Ok w /\
    uval w <= uval v /\ (uval v - uval w) * 2 ^ 15 <= uval v.
Proof. apply compact_rounding. Qed.

(** Every canonical encoding decodes without error and is encoded back
    unchanged. *)
Theorem canonical_roundtrip `{U256Laws} {E} c :
  canonical c -> exists r, to_u256 c = Ok r /\ @from_u256 _ E r = Ok c.
Proof.
  intros Hc. assert (exists word size, c = word + size * 2 ^ 24 /\ 0 <= word < 2 ^ 23 /\ 0 <= size /\
    (size <= 32 \/ size = 33 /\ word < 65536) /\
    (word = 0 /\ size = 0 \/ 32768 <= word) /\ (size < 3 -> word mod 2 ^ (8 * (3 - size)) = 0))
    as (word & size & -> & Hw & Hs & Hfit & Hn & Hd).
  { destruct Hc as [->|(size & word & -> & ? & ? & ?)]; [by exists 0, 0; split_and!; try lia|].
    exists word, size. split_and!; try done; lia. }
  destruct (to_u256_spec word size Hw Hs Hfit) as (r & Hr & Hv). exists r. split; [done|].
  destruct (@from_u256_form _ _ E r) as (word' & size' & -> & Hw' & Hb & Hs').
  pose proof (scaled_exact word size Hs Hd) as He. rewrite <- Hv in He.
  pose proof (uval_bound r) as Hu. unfold uint in Hu.
  destruct Hn as [[-> ->]|Hn].
  - rewrite Hv in Hs', Hw'. change (scaled 0 0) with 0 in *. rewrite Z.shiftr_0_l in Hw'.
    destruct Hs' as [[-> _]|]; [by rewrite Hw'|lia].
  - assert (0 < 2 ^ (8 * size)) by (apply Z.pow_pos_nonneg; lia).
    destruct Hs' as [[_ Hz]|(Hs' & Hl & _)]; [nia|].
    destruct (normal_unique (uval r) word size word' size') as [-> ->]; try lia; [|done].
    pose proof (shiftr_scaled _ size' (proj1 Hu) ltac:(lia)) as Hsc. cbv zeta in Hsc. by rewrite <- Hw' in Hsc.
Qed.

Lemma canonical_roundtrip_witness :
  exists r, @to_u256 ExampleU256.example_u256 486604799 = Ok r /\
    @from_u256 ExampleU256.example_u256 unit r = Ok 486604799.
Proof.
  apply (@canonical_roundtrip _ ExampleU256.example_u256_laws). right.
  exists 29, 65535. split_and!; lia.
Defined.

End Compact.
