(* ===== verification/Network.v ===== *)
(** Networks, forks and consensus parameters (src/network/src: network.rs, consensus.rs,
    deployments.rs) and the interface to stored headers (src/storage/src:
    block_ref.rs, block_provider.rs, block_ancestors.rs, block_iterator.rs). *)
From Stdlib Require Import ZArith Lia Strings.Byte.
From stdpp Require Import base decidable numbers strings list.
From S2P Require Import Prelude Crypto Serialization Chain ChainHash U256 Compact.

Local Open Scope Z_scope.

Module Network.
Import Chain ChainHash.

Definition MAGIC_MAINNET : Z := 0xD9B4BEF9.
Definition MAGIC_TESTNET : Z := 0x0709110B.
Definition MAGIC_REGTEST : Z := 0xDAB5BFFA.
Definition MAGIC_UNITEST : Z := 0x00000000.
Definition BITCOIN_CASH_MAGIC_MAINNET : Z := 0xE8F3E1E3.
Definition BITCOIN_CASH_MAGIC_TESTNET : Z := 0xF4F3E5F4.
Definition BITCOIN_CASH_MAGIC_REGTEST : Z := 0xFABFB5DA.

Inductive Network := Mainnet | Testnet | Regtest | Unitest | Other (magic : Z).

#[global] Instance Network_eq_dec : EqDecision Network.
Proof. solve_decision. Defined.

(** * Deployments *)

Definition VERSIONBITS_TOP_MASK : Z := 0xe0000000.
Definition VERSIONBITS_TOP_BITS : Z := 0x20000000.

Record Deployment := mkDeployment {
  name : string;
  bit : Z;
  start_time : Z;
  timeout : Z;
  activation : option Z;
}.

(** [1 << self.bit] is a [u32] shift: it panics from 32 bits on. *)
Definition deployment_matches {E} (self : Deployment) (version : Z) : outcome E bool :=
  if Z.land version VERSIONBITS_TOP_MASK =? VERSIONBITS_TOP_BITS then
    _ ← rust_assert (bit self <? 32);
    Ok (negb (Z.land version (wrap 32 (Z.shiftl 1 (bit self))) =? 0))
  else Ok false.

(** * Consensus parameters *)

Record BitcoinCashConsensusParams := mkBch {
  bch_height : Z;
  difficulty_adjustion_height : Z;
  monolith_time : Z;
  magnetic_anomaly_time : Z;
}.

Inductive ConsensusFork :=
| BitcoinCore
| BitcoinCash (params : BitcoinCashConsensusParams).

Inductive TransactionOrdering := Topological | Canonical.

Record ConsensusParams := mkParams {
  network : Network;
  bip16_time : Z;
  bip34_height : Z;
  bip65_height : Z;
  bip66_height : Z;
  fork : ConsensusFork;
  rule_change_activation_threshold : Z;
  miner_confirmation_window : Z;
  csv_deployment : option Deployment;
  segwit_deployment : option Deployment;
}.

Definition params_new (net : Network) (f : ConsensusFork) : ConsensusParams :=
  let segwit d := match f with BitcoinCore => Some d | BitcoinCash _ => None end in
  match net with
  | Mainnet | Other _ => {|
      network := net;
      bip16_time := 1333238400;
      bip34_height := 227931;
      bip65_height := 388381;
      bip66_height := 363725;
      segwit_deployment := segwit (mkDeployment "segwit" 1 1479168000 1510704000 (Some 481824));
      fork := f;
      rule_change_activation_threshold := 1916;
      miner_confirmation_window := 2016;
      csv_deployment := Some (mkDeployment "csv" 0 1462060800 1493596800 (Some 419328)) |}
  | Testnet => {|
      network := net;
      bip16_time := 1333238400;
      bip34_height := 21111;
      bip65_height := 581885;
      bip66_height := 330776;
      segwit_deployment := segwit (mkDeployment "segwit" 1 1462060800 1493596800 (Some 834624));
      fork := f;
      rule_change_activation_threshold := 1512;
      miner_confirmation_window := 2016;
      csv_deployment := Some (mkDeployment "csv" 0 1456790400 1493596800 (Some 770112)) |}
  | Regtest | Unitest => {|
      network := net;
      bip16_time := 1333238400;
      bip34_height := 100000000;
      bip65_height := 1351;
      bip66_height := 1251;
      segwit_deployment := segwit (mkDeployment "segwit" 1 0 u32_max None);
      fork := f;
      rule_change_activation_threshold := 108;
      miner_confirmation_window := 144;
      csv_deployment := Some (mkDeployment "csv" 0 0 0 (Some 0)) |}
  end.

Definition bch_params_new (net : Network) : BitcoinCashConsensusParams :=
  match net with
  | Mainnet | Other _ => mkBch 478559 504031 1526400000 1542300000
  | Testnet => mkBch 1155876 1188697 1526400000 1542300000
  | Regtest | Unitest => mkBch 0 0 1526400000 1542300000
  end.

Definition magic (self : Network) (f : ConsensusFork) : Z :=
  match f, self with
  | BitcoinCash _, Mainnet => BITCOIN_CASH_MAGIC_MAINNET
  | BitcoinCash _, Testnet => BITCOIN_CASH_MAGIC_TESTNET
  | BitcoinCash _, Regtest => BITCOIN_CASH_MAGIC_REGTEST
  | _, Mainnet => MAGIC_MAINNET
  | _, Testnet => MAGIC_TESTNET
  | _, Regtest => MAGIC_REGTEST
  | _, Unitest => MAGIC_UNITEST
  | _, Other value => value
  end.

Definition port (self : Network) : Z :=
  match self with Mainnet | Other _ => 8333 | Testnet => 18333 | Regtest | Unitest => 18444 end.

Definition rpc_port (self : Network) : Z :=
  match self with Mainnet | Other _ => 8332 | Testnet => 18332 | Regtest | Unitest => 18443 end.

(** [H256::from_reversed_str]: the digits give the number, the bytes are stored
    least significant first. *)
Definition from_reversed_str (digits : Z) : bytes := le_bytes 32 digits.

Definition is_bip30_exception (self : ConsensusParams) (hash : bytes) (height : Z) : bool :=
  ((height =? 91842) && bool_decide (hash =
     from_reversed_str 0x00000000000a4d0a398161ffc163c503763b1f4360639393e0e4c8e300e0caec)) ||
  ((height =? 91880) && bool_decide (hash =
     from_reversed_str 0x00000000000743f190a18c5577a3c2d2a1f610ae9601ac046a38084ccb7cd721)).

Definition is_segwit_possible (self : ConsensusParams) : bool :=
  match fork self with
  | BitcoinCore => negb (bool_decide (network self = Regtest))
  | BitcoinCash _ => false
  end.

(** * Limits of the forks *)

Definition absolute_maximum_block_size : Z := 32000000.
Definition absolute_maximum_block_sigops : Z := 160000.
Definition witness_scale_factor : Z := 4.

Definition activation_height (self : ConsensusFork) : Z :=
  match self with BitcoinCore => 0 | BitcoinCash f => bch_height f end.

Definition min_transaction_size (self : ConsensusFork) (median_time_past : Z) : Z :=
  match self with
  | BitcoinCash f => if magnetic_anomaly_time f <=? median_time_past then 100 else 0
  | BitcoinCore => 0
  end.

Definition max_transaction_size : Z := 1000000.

Definition min_block_size (self : ConsensusFork) (height : Z) : Z :=
  match self with
  | BitcoinCash f => if height =? bch_height f then 1000001 else 0
  | BitcoinCore => 0
  end.

Definition max_block_size (self : ConsensusFork) (height median_time_past : Z) : Z :=
  match self with
  | BitcoinCash f =>
      if monolith_time f <=? median_time_past then 32000000
      else if bch_height f <=? height then 8000000 else 1000000
  | BitcoinCore => 1000000
  end.

(** [block_size - 1] panics for an empty block size. *)
Definition max_block_sigops {E} (self : ConsensusFork) (height block_size : Z) : outcome E Z :=
  match self with
  | BitcoinCash f =>
      if bch_height f <=? height then
        n ← ucheck 64 (block_size - 1); ucheck 64 (20000 * (1 + n / 1000000))
      else Ok 20000
  | BitcoinCore => Ok 20000
  end.

Definition max_block_sigops_cost {E} (self : ConsensusFork) (height block_size : Z) : outcome E Z :=
  match self with
  | BitcoinCash _ => n ← max_block_sigops self height block_size; ucheck 64 (n * witness_scale_factor)
  | BitcoinCore => Ok 80000
  end.

Definition max_block_weight {E} (self : ConsensusFork) (height : Z) : outcome E Z :=
  match self with BitcoinCore => Ok 4000000 | BitcoinCash _ => Panic end.

Definition transaction_ordering (self : ConsensusFork) (median_time_past : Z) : TransactionOrdering :=
  match self with
  | BitcoinCash f => if magnetic_anomaly_time f <=? median_time_past then Canonical else Topological
  | BitcoinCore => Topological
  end.

(** [Network::max_bits]. *)
Definition max_bits `{U256} {E} (self : Network) : outcome E u256 :=
  match self with
  | Mainnet | Other _ =>
      Ok (u256_parse 0x00000000ffffffffffffffffffffffffffffffffffffffffffffffffffffffff)
  | Testnet =>
      Ok (u256_parse 0x00000000ffffffffffffffffffffffffffffffffffffffffffffffffffffffff)
  | Regtest =>
      Ok (u256_parse 0x7fffffffffffffffffffffffffffffffffffffffffffffffffffffffffffffff)
  | Unitest => c ← Compact.max_value; Ok (Compact.u256_of_compact c)
  end.

(** * Stored headers *)

Inductive BlockRef := Number (n : Z) | Hash (h : bytes).

(** [BlockHeaderProvider]: what verification reads of the storage. *)
Class BlockHeaderProvider := block_header_of : BlockRef -> option IndexedBlockHeader.

(** [BlockAncestors]: the state of the iterator is the next reference. *)
Definition ancestors_next `{BlockHeaderProvider} (block : option BlockRef)
    : option IndexedBlockHeader * option BlockRef :=
  let result := block ≫= block_header_of in
  (result, match result with
           | Some header => Some (Hash (previous_header_hash (ih_raw header)))
           | None => None
           end).

(** [BlockAncestors::new(block, headers).take(n).collect()]. *)
Fixpoint ancestors_take `{BlockHeaderProvider} (n : nat) (block : option BlockRef)
    : list IndexedBlockHeader :=
  match n with
  | O => []
  | S n' =>
      match ancestors_next block with
      | (Some header, next) => header :: ancestors_take n' next
      | (None, _) => []
      end
  end.

(** [BlockIterator::next]: heights [block], [block + period], ... while headers exist;
    the new height is computed before the result is looked at. *)
Definition iterator_next `{BlockHeaderProvider} {E} (block period : Z)
    : outcome E (option (Z * IndexedBlockHeader) * Z) :=
  let result := block_header_of (Number block) in
  next ← ucheck 32 (block + period);
  Ok ((fun header => (block, header)) <$> result, next).

End Network.
