(* ===== verification/Work.v ===== *)
(** Proof of work, difficulty and block reward (src/verification/src: work.rs,
    work_bch.rs, timestamp.rs, constants.rs). *)
From Stdlib Require Import ZArith Lia Strings.Byte.
From stdpp Require Import base decidable numbers sorting list.
From S2P Require Import Prelude Crypto Serialization Chain ChainHash U256 Compact Network.

Local Open Scope Z_scope.

Module Work.
Import Chain ChainHash Compact Network.

Definition BLOCK_MAX_FUTURE : Z := 2 * 60 * 60.
Definition COINBASE_MATURITY : Z := 100.
Definition MIN_COINBASE_SIZE : Z := 2.
Definition MAX_COINBASE_SIZE : Z := 100.
Definition RETARGETING_FACTOR : Z := 4.
Definition TARGET_SPACING_SECONDS : Z := 10 * 60.
Definition DOUBLE_SPACING_SECONDS : Z := 2 * TARGET_SPACING_SECONDS.
Definition TARGET_TIMESPAN_SECONDS : Z := 2 * 7 * 24 * 60 * 60.
Definition MIN_TIMESPAN : Z := TARGET_TIMESPAN_SECONDS / RETARGETING_FACTOR.
Definition MAX_TIMESPAN : Z := TARGET_TIMESPAN_SECONDS * RETARGETING_FACTOR.
Definition RETARGETING_INTERVAL : Z := TARGET_TIMESPAN_SECONDS / TARGET_SPACING_SECONDS.

Definition is_retarget_height (height : Z) : bool := height mod RETARGETING_INTERVAL =? 0.

Definition range_constrain (value min max : Z) : Z := Z.min (Z.max value min) max.

(** The subtraction is done on [i64]. *)
Definition retarget_timespan {E} (retarget_timestamp last_timestamp : Z) : outcome E Z :=
  timespan ← scheck 64 (last_timestamp - retarget_timestamp);
  Ok (wrap 32 (range_constrain timespan MIN_TIMESPAN MAX_TIMESPAN)).

(** [for _ in 0..block_height / 210000 { res /= 2 }]. *)
Definition block_reward_satoshi (block_height : Z) : Z :=
  Nat.iter (Z.to_nat (block_height / 210000)) (fun res => res / 2) (50 * 100 * 1000 * 1000).

Section pow.
Context `{U256}.

Definition is_valid_proof_of_work_hash (bits : Compact) (hash : bytes) : bool :=
  match to_u256 bits with
  | Ok target => u256_leb (u256_from_bytes (reverse hash)) target
  | _ => false
  end.

Definition is_valid_proof_of_work (max_work_bits bits : Compact) (hash : bytes) : bool :=
  match to_u256 max_work_bits with
  | Ok maximum =>
      match to_u256 bits with
      | Ok target =>
          let value := u256_from_bytes (reverse hash) in
          u256_leb target maximum && u256_leb value target
      | _ => false
      end
  | _ => false
  end.

End pow.

(** * Median time *)

Section store.
Context `{U256} `{BlockHeaderProvider}.

Definition median_timestamp_inclusive {E} (previous_header_hash : bytes) : outcome E Z :=
  let timestamps := map (fun h => time (ih_raw h)) (ancestors_take 11 (Some (Hash previous_header_hash))) in
  if bool_decide (timestamps = []) then Ok 0
  else index (merge_sort (≤) timestamps) (length timestamps / 2).

Definition median_timestamp {E} (header : BlockHeader) : outcome E Z :=
  median_timestamp_inclusive (previous_header_hash header).

(** * Required work *)

(** The bits of the parent and its ancestors, at most one interval of them. *)
Fixpoint collect_bits (n : nat) (block_ref : BlockRef) : list Compact :=
  match n with
  | O => []
  | S n' =>
      match block_header_of block_ref with
      | Some previous_header =>
          bits (ih_raw previous_header) :: collect_bits n' (Hash (previous_header_hash (ih_raw previous_header)))
      | None => []
      end
  end.

Fixpoint select_bits {E} (height : Z) (max_bits : Compact) (index : Z) (l : list Compact)
    : outcome E Compact :=
  match l with
  | [] => Ok max_bits
  | bit :: rest =>
      stop ← (if negb (bit =? max_bits) then Ok true
              else h ← ucheck 32 (height - index); h ← ucheck 32 (h - 1); Ok (is_retarget_height h));
      if stop : bool then Ok bit else select_bits height max_bits (index + 1) rest
  end.

Definition work_required_testnet {E} (parent_hash : bytes) (block_time height : Z) (net : Network)
    : outcome E Compact :=
  _ ← rust_assert (negb (height =? 0));
  parent_header ← expect (block_header_of (Hash parent_hash));
  max_time_gap ← ucheck 32 (time (ih_raw parent_header) + DOUBLE_SPACING_SECONDS);
  max ← max_bits net; max ← from_u256 max;
  if max_time_gap <? block_time then Ok max
  else select_bits height max 0 (collect_bits (Z.to_nat RETARGETING_INTERVAL) (Hash parent_hash)).

Definition work_required_retarget {E} (parent_header : IndexedBlockHeader) (height : Z)
    (max_work_bits : Compact) : outcome E Compact :=
  retarget_height ← ucheck 32 (height - RETARGETING_INTERVAL);
  retarget_header ← expect (block_header_of (Number retarget_height));
  let retarget_timestamp := time (ih_raw retarget_header) in
  let last_timestamp := time (ih_raw parent_header) in
  let last_bits := bits (ih_raw parent_header) in
  let retarget := u256_of_compact last_bits in
  let maximum := u256_of_compact max_work_bits in
  timespan ← retarget_timespan retarget_timestamp last_timestamp;
  retarget ← u256_mul retarget (u256_from timespan);
  retarget ← u256_div retarget (u256_from TARGET_TIMESPAN_SECONDS);
  if negb (u256_leb retarget maximum) then Ok max_work_bits else from_u256 retarget.

(** ** Bitcoin Cash *)

(** The median of three headers by time, sorted by swaps. *)
Definition suitable_block {E} (header2 : IndexedBlockHeader) : outcome E IndexedBlockHeader :=
  header1 ← expect (block_header_of (Hash (previous_header_hash (ih_raw header2))));
  header0 ← expect (block_header_of (Hash (previous_header_hash (ih_raw header1))));
  let '(header0, header2) :=
    if time (ih_raw header2) <? time (ih_raw header0) then (header2, header0) else (header0, header2) in
  let '(header0, header1) :=
    if time (ih_raw header1) <? time (ih_raw header0) then (header1, header0) else (header0, header1) in
  let '(header1, header2) :=
    if time (ih_raw header2) <? time (ih_raw header1) then (header2, header1) else (header1, header2) in
  Ok header1.

Definition block_proof {E} (header : IndexedBlockHeader) : outcome E u256 :=
  let proof := u256_of_compact (bits (ih_raw header)) in
  d ← u256_add proof u256_one;
  q ← u256_div (u256_not proof) d;
  u256_add q u256_one.

(** The loop of [compute_work_between_blocks]; it follows the chain down to [first]. *)
Fixpoint work_between_loop {E} (fuel : nat) (first prev_hash : bytes) (chain_work : u256)
    : outcome E u256 :=
  match fuel with
  | O => Diverge
  | S fuel' =>
      header ← expect (block_header_of (Hash prev_hash));
      p ← block_proof header;
      chain_work ← u256_add chain_work p;
      let prev_hash := previous_header_hash (ih_raw header) in
      if bool_decide (prev_hash = first) then Ok chain_work
      else work_between_loop fuel' first prev_hash chain_work
  end.

Definition compute_work_between_blocks {E} (fuel : nat) (first : bytes) (last : IndexedBlockHeader)
    : outcome E u256 :=
  _ ← rust_assert (negb (bool_decide (ih_hash last = first)));
  chain_work ← block_proof last;
  work_between_loop fuel first (previous_header_hash (ih_raw last)) chain_work.

Definition compute_target {E} (fuel : nat) (first_header last_header : IndexedBlockHeader)
    : outcome E u256 :=
  work ← compute_work_between_blocks fuel (ih_hash first_header) last_header;
  work ← u256_mul work (u256_from TARGET_SPACING_SECONDS);
  _ ← rust_assert (time (ih_raw first_header) <? time (ih_raw last_header));
  actual_timespan ← ucheck 32 (time (ih_raw last_header) - time (ih_raw first_header));
  let actual_timespan :=
    if 288 * TARGET_SPACING_SECONDS <? actual_timespan then 288 * TARGET_SPACING_SECONDS
    else if actual_timespan <? 72 * TARGET_SPACING_SECONDS then 72 * TARGET_SPACING_SECONDS
    else actual_timespan in
  work ← u256_div work (u256_from actual_timespan);
  u256_div (u256_not work) work.

(** The chain below a block of height [height] has [height] blocks: fuel enough. *)
Definition work_required_bitcoin_cash_adjusted {E} (parent_header : IndexedBlockHeader)
    (block_time height : Z) (consensus : ConsensusParams) : outcome E Compact :=
  _ ← rust_assert (0 <? height);
  max ← max_bits (network consensus);
  gap_exceeded ←
    (if bool_decide (network consensus = Testnet) || bool_decide (network consensus = Unitest) then
       max_time_gap ← ucheck 32 (time (ih_raw parent_header) + DOUBLE_SPACING_SECONDS);
       Ok (max_time_gap <? block_time)
     else Ok false);
  if gap_exceeded : bool then from_u256 max else
  last_height ← ucheck 32 (height - 1);
  _ ← rust_assert (RETARGETING_INTERVAL <=? last_height);
  last_header ← suitable_block parent_header;
  first_height ← ucheck 32 (last_height - 144);
  first_header ← expect (block_header_of (Number first_height));
  first_header ← suitable_block first_header;
  next_target ← compute_target (Z.to_nat height) first_header last_header;
  if negb (u256_leb next_target max) then from_u256 max else from_u256 next_target.

Definition work_required_bitcoin_cash {E} (parent_header : IndexedBlockHeader) (block_time height : Z)
    (consensus : ConsensusParams) (f : BitcoinCashConsensusParams) (max : Compact)
    : outcome E Compact :=
  if difficulty_adjustion_height f <=? Z.max 0 (height - 1) then
    work_required_bitcoin_cash_adjusted parent_header block_time height consensus
  else if is_retarget_height height then work_required_retarget parent_header height max
  else if bool_decide (network consensus = Testnet) then
    work_required_testnet (ih_hash parent_header) block_time height Testnet
  else if bits (ih_raw parent_header) =? max then Ok (bits (ih_raw parent_header))
  else
    ancient_height ← ucheck 32 (height - 6); ancient_height ← ucheck 32 (ancient_height - 1);
    ancient_header ← expect (block_header_of (Number ancient_height));
    ancient_timestamp ← median_timestamp_inclusive (ih_hash ancient_header);
    parent_timestamp ← median_timestamp_inclusive (ih_hash parent_header);
    let timestamp_diff := Z.max 0 (parent_timestamp - ancient_timestamp) in
    if timestamp_diff <? 43200 then Ok (bits (ih_raw parent_header)) else
    let new_bits := u256_of_compact (bits (ih_raw parent_header)) in
    let max := u256_of_compact max in
    new_bits ← u256_add new_bits (u256_shr new_bits 2);
    from_u256 (if negb (u256_leb new_bits max) then max else new_bits).

(** ** Any network *)

Definition work_required {E} (parent_hash : bytes) (block_time height : Z) (consensus : ConsensusParams)
    : outcome E Compact :=
  max ← max_bits (network consensus); max ← from_u256 max;
  if height =? 0 then Ok max else
  parent_header ← expect (block_header_of (Hash parent_hash));
  let common :=
    if is_retarget_height height then work_required_retarget parent_header height max
    else if bool_decide (network consensus = Testnet) then
      work_required_testnet parent_hash block_time height Testnet
    else Ok (bits (ih_raw parent_header)) in
  match fork consensus with
  | BitcoinCash f =>
      if bch_height f <=? height then
        work_required_bitcoin_cash parent_header block_time height consensus f max
      else common
  | BitcoinCore => common
  end.

End store.

(** * Lemmas *)

Lemma be_value_reverse hash : be_value (reverse hash) = le_value hash.
Proof. unfold be_value. by rewrite reverse_involutive. Qed.

(** ** Block rewards *)

Lemma iter_half n r : Nat.iter n (fun res => res / 2) r = r / 2 ^ Z.of_nat n.
Proof.
  induction n as [|n IH]; [by rewrite Z.div_1_r|].
  rewrite Nat.iter_succ, IH, Z.div_div, Nat2Z.inj_succ, Z.pow_succ_r, (Z.mul_comm 2) by lia. done.
Qed.

Definition era_reward (era : Z) : Z := 5000000000 / 2 ^ era.

Lemma block_reward_era h : 0 <= h -> block_reward_satoshi h = era_reward (h / 210000).
Proof.
  intros Hh. unfold block_reward_satoshi, era_reward. rewrite iter_half, Z2Nat.id; [done|].
  by apply Z.div_pos.
Qed.

(** The coins created by the first [n] blocks. *)
Fixpoint total_supply (n : nat) : Z :=
  match n with O => 0 | S n' => total_supply n' + block_reward_satoshi (Z.of_nat n') end.

(** The rewards per block of the first [n] eras. *)
Fixpoint eras_supply (n : nat) : Z :=
  match n with O => 0 | S n' => eras_supply n' + era_reward (Z.of_nat n') end.

Lemma total_supply_eras n :
  total_supply n =
  210000 * eras_supply (Z.to_nat (Z.of_nat n / 210000)) +
  (Z.of_nat n mod 210000) * era_reward (Z.of_nat n / 210000).
Proof.
  induction n as [|n IH]; [done|]. cbn [total_supply].
  rewrite IH, block_reward_era by lia. rewrite Nat2Z.inj_succ, <- Z.add_1_r.
  set (q := Z.of_nat n / 210000). set (m := Z.of_nat n mod 210000).
  assert (Z.of_nat n = 210000 * q + m) as Hn by (apply Z.div_mod; lia).
  assert (0 <= m < 210000) as Hm by (apply Z.mod_pos_bound; lia).
  assert (0 <= q) as Hq by (apply Z.div_pos; lia). clearbody q m.
  destruct (Z.eq_dec (m + 1) 210000) as [He|Hne].
  - rewrite <- (Z.div_unique (Z.of_nat n + 1) 210000 (q + 1) 0), <- (Z.mod_unique (Z.of_nat n + 1) 210000 (q + 1) 0) by lia.
    rewrite Z2Nat.inj_add, Nat.add_1_r by lia. cbn [eras_supply]. rewrite Z2Nat.id by lia.
    replace m with 209999 by lia. lia.
  - rewrite <- (Z.div_unique (Z.of_nat n + 1) 210000 q (m + 1)), <- (Z.mod_unique (Z.of_nat n + 1) 210000 q (m + 1)) by lia. lia.
Qed.

Lemma era_reward_pos era : 0 <= era -> 0 <= era_reward era.
Proof. intros. apply Z.div_pos; lia. Qed.

Lemma era_reward_end era : 33 <= era -> era_reward era = 0.
Proof.
  intros He. apply Z.div_small. split; [done|]. apply Z.lt_le_trans with (2 ^ 33); [done|].
  apply Z.pow_le_mono_r; lia.
Qed.

Lemma eras_supply_S n : eras_supply (S n) = eras_supply n + era_reward (Z.of_nat n).
Proof. done. Qed.

(** No reward is left after the thirty-third halving. *)
Lemma eras_supply_late n : (33 <= n)%nat -> eras_supply n = 9999999989.
Proof.
  intros Hn. assert (forall k m, m = (33 + k)%nat -> eras_supply m = 9999999989) as Hlate.
  { induction k as [|k IH]; intros m Hm; [subst m; by vm_compute|].
    destruct m as [|m]; [lia|]. rewrite eras_supply_S, (IH m), era_reward_end by lia. lia. }
  apply (Hlate (n - 33)%nat). lia.
Qed.

Lemma eras_supply_mono n m : (n <= m)%nat -> eras_supply n <= eras_supply m.
Proof.
  induction 1 as [|m Hm IH]; [done|]. rewrite eras_supply_S. pose proof (era_reward_pos (Z.of_nat m)). lia.
Qed.

Lemma eras_supply_bound n : eras_supply n <= 9999999989.
Proof.
  rewrite <- (eras_supply_late (n + 33)) by lia. apply eras_supply_mono. lia.
Qed.

(** ** Retargeting *)

Lemma retarget_timespan_Ok {E} r l :
  uint 32 r -> uint 32 l ->
  @retarget_timespan E r l = Ok (range_constrain (l - r) MIN_TIMESPAN MAX_TIMESPAN).
Proof.
  unfold uint. intros Hr Hl. unfold retarget_timespan. rewrite scheck_Ok by (unfold sint; lia).
  cbn [mbind outcome_bind]. f_equal. apply wrap_uint. unfold range_constrain, uint.
  change MIN_TIMESPAN with 302400. change MAX_TIMESPAN with 4838400. lia.
Qed.

Section retarget.
Context `{U256Laws} `{BlockHeaderProvider}.

(** The target an encoding stands for, sign and overflow ignored. *)
Definition target (c : Compact) : Z := uval (u256_of_compact c).

Lemma target_of_u256 {E} v c : @from_u256 _ E v = Ok c -> target c <= uval v /\ (uval v - target c) * 2 ^ 15 <= uval v.
Proof.
  intros He. destruct (@compact_rounding _ _ E v) as (c' & w & Hc & _ & _ & Ht & Hle & Herr).
  rewrite He in Hc. injection Hc as <-. unfold target, u256_of_compact. by rewrite Ht.
Qed.

Lemma work_required_retarget_spec {E} parent height max_work_bits retarget_header :
  RETARGETING_INTERVAL <= height -> uint 32 height ->
  block_header_of (Number (height - RETARGETING_INTERVAL)) = Some retarget_header ->
  uint 32 (time (ih_raw retarget_header)) -> uint 32 (time (ih_raw parent)) ->
  target (bits (ih_raw parent)) < 2 ^ 233 ->
  let span := range_constrain (time (ih_raw parent) - time (ih_raw retarget_header)) MIN_TIMESPAN MAX_TIMESPAN in
  let new := target (bits (ih_raw parent)) * span / TARGET_TIMESPAN_SECONDS in
  exists c, @work_required_retarget _ _ E parent height max_work_bits = Ok c /\
    (target max_work_bits < new -> c = max_work_bits) /\
    (new <= target max_work_bits -> target c <= new /\ (new - target c) * 2 ^ 15 <= new).
Proof.
  intros Hi Hh Hr Ht1 Ht2 HT span new. unfold work_required_retarget.
  assert (302400 <= span <= 4838400) as Hspan.
  { subst span. unfold range_constrain. change MIN_TIMESPAN with 302400. change MAX_TIMESPAN with 4838400. lia. }
  rewrite ucheck_Ok by (change RETARGETING_INTERVAL with 2016 in *; unfold uint in *; lia).
  cbn [mbind outcome_bind]. rewrite Hr. cbn [expect mbind outcome_bind].
  rewrite retarget_timespan_Ok by done. fold span. cbn [mbind outcome_bind].
  unfold target in *. set (T := u256_of_compact (bits (ih_raw parent))) in *.
  pose proof (uval_bound T) as HTb. unfold uint in HTb.
  destruct (@uval_mul _ _ E T (u256_from span)) as (x & -> & Hx).
  { rewrite uval_from by (unfold uint; lia). unfold uint. split; [apply Z.mul_nonneg_nonneg; lia|].
    change (2 ^ 256) with (2 ^ 233 * 2 ^ 23). apply Z.mul_lt_mono_nonneg; lia. }
  rewrite uval_from in Hx by (unfold uint; lia). cbn [mbind outcome_bind].
  destruct (@uval_div _ _ E x (u256_from TARGET_TIMESPAN_SECONDS)) as (y & -> & Hy).
  { rewrite uval_from by (unfold uint; by vm_compute). done. }
  rewrite uval_from, Hx in Hy by (unfold uint; by vm_compute). fold new in Hy. cbn [mbind outcome_bind].
  rewrite u256_leb_spec, Hy. destruct (Z.leb_spec new (uval (u256_of_compact max_work_bits))); cbn [negb].
  - destruct (@compact_rounding _ _ E y) as (c & w & Hc & _). exists c. split; [done|]. split; [lia|].
    intros _. rewrite <- Hy. by apply (@target_of_u256 E).
  - exists max_work_bits. split; [done|]. split; [done|lia].
Qed.

(** Below the height of the fork the chains share their rules. *)
Lemma before_fork {A} f height (x : BitcoinCashConsensusParams -> A) (y : A) :
  match f with BitcoinCash f => height < bch_height f | BitcoinCore => True end ->
  match f with BitcoinCash f => if bch_height f <=? height then x f else y | BitcoinCore => y end = y.
Proof. destruct f as [|f]; [done|]. intros Hlt. by rewrite (proj2 (Z.leb_gt _ _)) by lia. Qed.

Lemma max_bits_mainnet {E} :
  (x ← @max_bits _ E Mainnet; from_u256 x) = Ok 0x1d00ffff.
Proof.
  cbn [max_bits mbind outcome_bind]. unfold from_u256.
  rewrite u256_bits_spec, u256_low_u32_spec, uval_shr, uval_parse; first reflexivity.
  all: rewrite ?uval_parse; first [by vm_compute|unfold uint; lia].
Qed.

Lemma target_mainnet : target 0x1d00ffff = 0xffff * 2 ^ 208.
Proof.
  unfold target, u256_of_compact.
  destruct (to_u256_spec 65535 29) as (r & Hr & Hv); [lia..|].
  change (65535 + 29 * 2 ^ 24) with 0x1d00ffff in Hr. by rewrite Hr.
Qed.

End retarget.

(** ** Medians *)

Lemma sorted_split (l : list Z) k m :
  StronglySorted (≤) l -> l !! k = Some m ->
  Forall (fun t => t <= m) (take (S k) l) /\ Forall (fun t => m <= t) (drop k l).
Proof.
  intros Hs. revert k. induction Hs as [|x l Hs IH Hx]; intros [|k] Hk; [done|done|..].
  - injection Hk as ->. cbn. split; [by repeat constructor|]. by constructor.
  - destruct (IH k Hk) as [H1 H2]. split; [|done]. cbn [take]. constructor; [|done].
    rewrite Forall_forall in Hx. apply Hx. by eapply list_elem_of_lookup_2.
Qed.

Lemma filter_length_ge {A} (P : A -> Prop) `{!forall x, Decision (P x)} (a b : list A) :
  Forall P a -> (length a <= length (filter P (a ++ b)))%nat.
Proof.
  intros Ha. rewrite filter_app, length_app.
  assert (filter P a = a) as ->; [|lia].
  induction Ha as [|x l Hx Hl IH]; [done|]. rewrite filter_cons_True by done. by rewrite IH.
Qed.

(** The element in the middle of a sorted list has enough elements on both sides. *)
Lemma median_counts (l : list Z) m :
  l <> [] -> merge_sort (≤) l !! (length l / 2)%nat = Some m ->
  m ∈ l /\ (length l < 2 * length (filter (fun t => (t <= m)%Z) l))%nat /\
  (length l <= 2 * length (filter (fun t => (m <= t)%Z) l))%nat.
Proof.
  intros Hne Hm. set (s := merge_sort (≤) l) in *.
  assert (s ≡ₚ l) as Hp by apply merge_sort_Permutation.
  assert (length s = length l) as Hl by by rewrite Hp.
  pose proof (StronglySorted_merge_sort (≤) l) as Hs. fold s in Hs.
  destruct (sorted_split s _ m Hs Hm) as [H1 H2].
  assert (length l / 2 < length l)%nat as Hk by (apply Nat.div_lt; [destruct l; [done|cbn; lia]|lia]).
  pose proof (Nat.div_mod_eq (length l) 2) as Hd.
  pose proof (Nat.mod_upper_bound (length l) 2 ltac:(lia)) as Hr.
  split_and!.
  - rewrite <- Hp. by eapply list_elem_of_lookup_2.
  - rewrite <- Hp at 2. rewrite <- (take_drop (S (length l / 2)) s).
    pose proof (filter_length_ge _ _ (drop (S (length l / 2)) s) H1) as Hc. rewrite length_take in Hc. lia.
  - rewrite <- Hp at 2. rewrite <- (take_drop (length l / 2) s), filter_app, length_app.
    pose proof (filter_length_ge _ _ [] H2) as Hc. rewrite app_nil_r, length_drop in Hc. lia.
Qed.

(** * Properties *)

Section properties.
Context `{U256Laws} `{BlockHeaderProvider}.

(** A hash is accepted as proof of work exactly when both encodings decode
    without sign or overflow and the hash, as a little-endian number, is at most
    the target, which is at most the network's maximum. *)
Theorem proof_of_work_spec max_work_bits bits hash :
  length hash = 32%nat ->
  is_valid_proof_of_work max_work_bits bits hash = true <->
  exists M T, to_u256 max_work_bits = Ok M /\ to_u256 bits = Ok T /\ le_value hash <= uval T <= uval M.
Proof.
  intros Hl. unfold is_valid_proof_of_work. split.
  - destruct (to_u256 max_work_bits) as [M| | |]; [|done..]. destruct (to_u256 bits) as [T| | |]; [|done..].
    rewrite !u256_leb_spec, uval_from_bytes, be_value_reverse by (rewrite length_reverse; lia).
    intros Hb. bool_prop. exists M, T. done.
  - intros (M & T & -> & -> & Hle).
    rewrite !u256_leb_spec, uval_from_bytes, be_value_reverse by (rewrite length_reverse; lia).
    apply andb_true_iff. rewrite !Z.leb_le. lia.
Qed.

(** C30: on the main network, before any Bitcoin Cash fork, the required work is always
    computed: between retargets it is the parent's; at a retarget the parent's target
    is scaled by the time from the first block of the interval, 2016 below, to the
    parent, that time constrained to a quarter up to four times two weeks, and the
    result is cut at the network's maximum and rounded down by the compact encoding, by
    one part in 2^15 at most.  It never exceeds the maximum. *)
Theorem work_required_mainnet {E} consensus parent_hash block_time height parent first :
  network consensus = Mainnet ->
  match fork consensus with BitcoinCash f => height < bch_height f | BitcoinCore => True end ->
  0 < height -> uint 32 height ->
  block_header_of (Hash parent_hash) = Some parent ->
  uint 32 (time (ih_raw parent)) -> target (bits (ih_raw parent)) <= 0xffff * 2 ^ 208 ->
  (is_retarget_height height = true ->
   block_header_of (Number (height - 2016)) = Some first /\ uint 32 (time (ih_raw first))) ->
  exists c, @work_required _ _ E parent_hash block_time height consensus = Ok c /\
    target c <= 0xffff * 2 ^ 208 /\
    if is_retarget_height height then
      let elapsed := time (ih_raw parent) - time (ih_raw first) in
      let span := Z.min (Z.max elapsed 302400) 4838400 in
      let new := Z.min (target (bits (ih_raw parent)) * span / 1209600) (0xffff * 2 ^ 208) in
      target c <= new /\ (new - target c) * 2 ^ 15 <= new
    else c = bits (ih_raw parent).
Proof.
  intros Hnet Hfork Hpos Hh Hp Ht HT Hfirst. unfold work_required. rewrite Hnet, Hp.
  pose proof (@max_bits_mainnet _ _ E) as Hmb. cbn [max_bits mbind outcome_bind] in *.
  destruct (from_u256 _) as [mc| | |]; [|done..].
  injection Hmb as ->. rewrite (proj2 (Z.eqb_neq height 0)) by lia. cbn [expect mbind outcome_bind].
  rewrite before_fork by done. destruct (is_retarget_height height) eqn:Er; [|by exists (bits (ih_raw parent))].
  destruct (Hfirst eq_refl) as (Hf & Hft).
  assert (RETARGETING_INTERVAL = 2016 /\ MIN_TIMESPAN = 302400 /\ MAX_TIMESPAN = 4838400) as (Hri & Hmin & Hmax) by done.
  rewrite <- Hri in Hf.
  assert (RETARGETING_INTERVAL <= height) as Hi.
  { unfold is_retarget_height in Er. bool_prop. change RETARGETING_INTERVAL with 2016 in *.
    pose proof (Z.div_mod height 2016 ltac:(lia)). nia. }
  destruct (@work_required_retarget_spec _ _ _ E parent height 0x1d00ffff first) as (c & -> & Hbig & Hsmall);
    [done..|lia|]. exists c. split; [done|]. rewrite target_mainnet in *.
  unfold range_constrain in *. rewrite Hmin, Hmax in *. cbv zeta. set (span := Z.min _ 4838400) in *. change TARGET_TIMESPAN_SECONDS with 1209600 in *.
  set (new := _ * span / 1209600) in *. destruct (Z.le_gt_cases new (0xffff * 2 ^ 208)) as [Hle|Hgt].
  - destruct (Hsmall Hle) as [H1 H2]. rewrite Z.min_l by lia. split; [lia|done].
  - rewrite Hbig by lia. rewrite target_mainnet, Z.min_r by lia. split; [done|]. lia.
Qed.

(** The median time past is the 0 of an unknown block or a timestamp of the
    block and its (at most ten) ancestors that more than half of them do not
    exceed and at least half of them reach. *)
Theorem median_timestamp_spec {E} hash :
  exists m, @median_timestamp_inclusive _ E hash = Ok m /\
    let l := map (fun h => time (ih_raw h)) (ancestors_take 11 (Some (Hash hash))) in
    (l = [] -> m = 0) /\
    (l <> [] -> m ∈ l /\ (length l < 2 * length (filter (fun t => (t <= m)%Z) l))%nat /\
      (length l <= 2 * length (filter (fun t => (m <= t)%Z) l))%nat).
Proof.
  unfold median_timestamp_inclusive. set (l := map _ _). cbv zeta.
  destruct (decide (l = [])) as [He|Hne].
  - exists 0. rewrite bool_decide_eq_true_2 by done. done.
  - rewrite bool_decide_eq_false_2 by done. unfold index.
    destruct (merge_sort (≤) l !! (length l / 2)%nat) as [m|] eqn:Em.
    + exists m. split; [done|]. split; [done|]. intros _. by apply median_counts.
    + apply lookup_ge_None_1 in Em. rewrite merge_sort_Permutation in Em.
      pose proof (Nat.div_lt (length l) 2). destruct l; [done|cbn [length] in *; lia].
Qed.

(** The block the adjusted difficulty starts from is the middle one, by time,
    of a block and its two ancestors. *)
Theorem suitable_block_median {E} header2 header1 header0 :
  block_header_of (Hash (previous_header_hash (ih_raw header2))) = Some header1 ->
  block_header_of (Hash (previous_header_hash (ih_raw header1))) = Some header0 ->
  exists a r b, @suitable_block _ E header2 = Ok r /\ [a; r; b] ≡ₚ [header0; header1; header2] /\
    time (ih_raw a) <= time (ih_raw r) <= time (ih_raw b).
Proof.
  intros H1 H2. unfold suitable_block. rewrite H1. cbn [expect mbind outcome_bind]. rewrite H2.
  cbn [expect mbind outcome_bind].
  repeat match goal with |- context [?x <? ?y] => destruct (Z.ltb_spec x y) end;
    first [ exists header0, header1, header2; solve [split_and!; [done|solve_Permutation|lia..]]
          | exists header0, header2, header1; solve [split_and!; [done|solve_Permutation|lia..]]
          | exists header1, header0, header2; solve [split_and!; [done|solve_Permutation|lia..]]
          | exists header1, header2, header0; solve [split_and!; [done|solve_Permutation|lia..]]
          | exists header2, header0, header1; solve [split_and!; [done|solve_Permutation|lia..]]
          | exists header2, header1, header0; solve [split_and!; [done|solve_Permutation|lia..]] ].
Qed.

(** The work a block proves is the expected number of hashes to find it,
    2^256 / (target + 1), computed within 256 bits. *)
Theorem block_proof_spec {E} header :
  let T := target (bits (ih_raw header)) in
  0 < T < 2 ^ 256 - 1 ->
  exists p, @block_proof _ E header = Ok p /\ uval p = 2 ^ 256 / (T + 1).
Proof.
  intros T HT. unfold block_proof. unfold T, target in *. clear T.
  set (t := u256_of_compact (bits (ih_raw header))) in *.
  destruct (@uval_add _ _ E t u256_one) as (d & -> & Hd); [rewrite uval_one; unfold uint; lia|].
  rewrite uval_one in Hd. cbn [mbind outcome_bind].
  destruct (@uval_div _ _ E (u256_not t) d) as (q & -> & Hq); [lia|].
  rewrite uval_not, Hd in Hq. cbn [mbind outcome_bind].
  assert (uval q + 1 = 2 ^ 256 / (uval t + 1)) as Hp.
  { rewrite Hq. rewrite <- Z.div_add by lia. f_equal. lia. }
  destruct (@uval_add _ _ E q u256_one) as (p & -> & Hp'); [|exists p; rewrite Hp', uval_one; done].
  rewrite uval_one, Hp. split; [apply Z.div_pos; lia|].
  apply Z.div_lt_upper_bound; lia.
Qed.

End properties.

(** All block rewards together are at most 20999999.9769 coins, and exactly
    that from block 6930000 on. *)
Theorem total_supply_bound n :
  total_supply n <= 2099999997690000 /\
  ((6930000 <= Z.of_nat n)%Z -> total_supply n = 2099999997690000).
Proof.
  rewrite total_supply_eras. set (q := Z.of_nat n / 210000).
  assert (0 <= q) as Hq by (apply Z.div_pos; lia).
  pose proof (Z.mod_pos_bound (Z.of_nat n) 210000 ltac:(lia)) as Hm.
  pose proof (eras_supply_bound (S (Z.to_nat q))) as Hs. rewrite eras_supply_S, Z2Nat.id in Hs by done.
  pose proof (era_reward_pos q Hq). split; [nia|]. intros Hn.
  assert (33 <= q) as Hq' by (apply Z.div_le_lower_bound; lia).
  rewrite era_reward_end, eras_supply_late by lia. lia.
Qed.

(** Witnesses: a store that answers every reference with the same header. *)
Module Examples.
Import ExampleU256.

Definition header : IndexedBlockHeader :=
  mkIndexedHeader (replicate 32 x09)
    (mkHeader 1 (replicate 32 x02) (replicate 32 x03) 1231006505 0x1d00ffff 6).
#[export] Instance store : BlockHeaderProvider := fun _ => Some header.

Lemma proof_of_work_spec_witness :
  is_valid_proof_of_work 0x1d00ffff 0x1d00ffff (replicate 32 x00) = true <->
  exists M T, to_u256 0x1d00ffff = Ok M /\ to_u256 0x1d00ffff = Ok T /\
    le_value (replicate 32 x00) <= uval T <= uval M.
Proof. apply (proof_of_work_spec 0x1d00ffff 0x1d00ffff (replicate 32 x00)). done. Defined.

(** An interval that took a week instead of two: half the target. *)
Definition parent : IndexedBlockHeader :=
  mkIndexedHeader (replicate 32 x09)
    (mkHeader 1 (replicate 32 x02) (replicate 32 x03) (1231006505 + 604800) 0x1c00ffff 6).
Definition week_store : BlockHeaderProvider :=
  fun r => match r with Number _ => Some header | Hash _ => Some parent end.

Lemma work_required_mainnet_witness :
  exists c, @work_required _ week_store unit (replicate 32 x09) 0 4032 (params_new Mainnet BitcoinCore) = Ok c /\
    let new := Z.min (target 0x1c00ffff * 604800 / 1209600) (0xffff * 2 ^ 208) in
    target c <= new /\ (new - target c) * 2 ^ 15 <= new.
Proof.
  destruct (@work_required_mainnet _ _ week_store unit (params_new Mainnet BitcoinCore) (replicate 32 x09) 0 4032 parent header)
    as (c & Hc & _ & Hnew); [done|done|lia|unfold uint; lia|done|unfold uint; cbn; lia|by vm_compute| |].
  - intros _. split; [done|]. unfold uint. cbn. lia.
  - exists c. split; [exact Hc|exact Hnew].
Defined.

Lemma suitable_block_median_witness :
  exists a r b, @suitable_block _ unit header = Ok r /\ [a; r; b] ≡ₚ [header; header; header] /\
    time (ih_raw a) <= time (ih_raw r) <= time (ih_raw b).
Proof. by apply suitable_block_median. Defined.

Lemma block_proof_spec_witness :
  exists p, @block_proof _ unit header = Ok p /\ uval p = 2 ^ 256 / (target (bits (ih_raw header)) + 1).
Proof. apply block_proof_spec. split; by vm_compute. Defined.

Lemma total_supply_bound_witness : total_supply 1 <= 2099999997690000.
Proof. apply total_supply_bound. Defined.

End Examples.

End Work.
