(* ===== verification/Storage.v ===== *)
(** What verification and the database share (src/storage/src): transaction metadata
    (transaction_meta.rs), providers of transaction outputs (transaction_provider.rs,
    duplex_store.rs, block_impls.rs), block origins and the best block. *)
From Stdlib Require Import ZArith Lia Strings.Byte.
From stdpp Require Import base decidable numbers countable gmap strings list.
From S2P Require Import Prelude Crypto Serialization Codec Chain ChainHash Network.

Local Open Scope Z_scope.

(** * The bit_vec package *)

(** [set] panics out of range: [None]. *)
Class BitVec := {
  bitvec : Type;
  bv_from_elem : nat -> bool -> bitvec;
  bv_get : bitvec -> nat -> option bool;
  bv_set : bitvec -> nat -> bool -> option bitvec;
  bv_push : bitvec -> bool -> bitvec;
  bv_iter : bitvec -> list bool;
  bv_to_bytes : bitvec -> bytes;
  bv_from_bytes : bytes -> bitvec;
}.

(** The bits of a byte, the highest first. *)
Definition byte_bits (b : byte) : list bool := map (fun k => Z.testbit (u8 b) k) [7; 6; 5; 4; 3; 2; 1; 0].

(** Bits that complete the last byte. *)
Definition bv_padding (n : nat) : nat := (8 - n mod 8) mod 8.

Class BitVecLaws (B : BitVec) := {
  bv_iter_from_elem n b : bv_iter (bv_from_elem n b) = replicate n b;
  bv_get_iter v i : bv_get v i = bv_iter v !! i;
  bv_set_inside v i b :
    (i < length (bv_iter v))%nat -> exists w, bv_set v i b = Some w /\ bv_iter w = <[i := b]> (bv_iter v);
  bv_set_outside v i b : (length (bv_iter v) <= i)%nat -> bv_set v i b = None;
  bv_iter_push v b : bv_iter (bv_push v b) = bv_iter v ++ [b];
  bv_iter_from_bytes bs : bv_iter (bv_from_bytes bs) = List.flat_map byte_bits bs;
  (** Every byte holds eight bits; the last one is completed with zeros. *)
  bv_bytes_roundtrip v :
    bv_iter (bv_from_bytes (bv_to_bytes v)) =
    bv_iter v ++ replicate (bv_padding (length (bv_iter v))) false;
  bv_length_to_bytes v : length (bv_to_bytes v) = ((length (bv_iter v) + 7) / 8)%nat;
}.

Module Storage.
Import Ser Derive Chain ChainHash Network.

(** * Transaction metadata *)

Section meta.
Context `{BitVec}.

(** The first bit tells a coinbase, the others the spent outputs. *)
Record TransactionMeta := mkMeta { block_height : Z; meta_bits : bitvec }.

Definition transaction_meta_codec : Codec TransactionMeta :=
  struct (fields u32_codec bytes_codec)
    (fun m => (block_height m, bv_to_bytes (meta_bits m)))
    (fun p => mkMeta p.1 (bv_from_bytes p.2)) 40.

Definition meta_new (block_height : Z) (outputs : nat) : TransactionMeta :=
  mkMeta block_height (bv_from_elem (outputs + 1) false).

Definition meta_new_coinbase {E} (block_height : Z) (outputs : nat) : outcome E TransactionMeta :=
  let result := meta_new block_height outputs in
  bits ← expect (bv_set (meta_bits result) 0 true);
  Ok (mkMeta block_height bits).

Definition meta_is_coinbase {E} (self : TransactionMeta) : outcome E bool :=
  expect (bv_get (meta_bits self) 0).

Definition denote_used {E} (self : TransactionMeta) (index : nat) : outcome E TransactionMeta :=
  bits ← expect (bv_set (meta_bits self) (index + 1) true);
  Ok (mkMeta (block_height self) bits).

Definition denote_unused {E} (self : TransactionMeta) (index : nat) : outcome E TransactionMeta :=
  bits ← expect (bv_set (meta_bits self) (index + 1) false);
  Ok (mkMeta (block_height self) bits).

Definition meta_height (self : TransactionMeta) : Z := block_height self.

Definition meta_is_spent (self : TransactionMeta) (idx : nat) : option bool :=
  bv_get (meta_bits self) (idx + 1).

Definition is_fully_spent (self : TransactionMeta) : bool :=
  forallb (fun x => x) (drop 1 (bv_iter (meta_bits self))).

(** [TransactionMetaProvider]. *)
Class TransactionMetaProvider := transaction_meta : bytes -> option TransactionMeta.

End meta.

(** * Providers of transaction outputs *)

Definition usize_max : Z := u64_max.

#[global] Program Instance OutPoint_countable : Countable OutPoint :=
  inj_countable' (fun o => (op_hash o, op_index o)) (fun p => mkOutPoint p.1 p.2) _.
Next Obligation. by intros []. Qed.

(** The trait [TransactionOutputProvider]; the second argument of
    [transaction_output] is the index of the spending transaction. *)
Record TransactionOutputProvider := mkProvider {
  transaction_output : OutPoint -> Z -> option TransactionOutput;
  is_spent : OutPoint -> bool;
}.

Definition DuplexTransactionOutputProvider (first second : TransactionOutputProvider)
    : TransactionOutputProvider := {|
  transaction_output := fun prevout transaction_index =>
    match transaction_output first prevout transaction_index with
    | Some o => Some o
    | None => transaction_output second prevout transaction_index
    end;
  is_spent := fun prevout => is_spent first prevout || is_spent second prevout;
|}.

Definition NoopStore : TransactionOutputProvider := {|
  transaction_output := fun _ _ => None;
  is_spent := fun _ => false;
|}.

Definition transaction_index_for_output_check (ordering : TransactionOrdering) (tx_idx : Z) : Z :=
  match ordering with
  | Topological => tx_idx
  | Canonical => usize_max
  end.

(** ** A block as a provider (block_impls.rs) *)

Definition block_transaction_output (transactions : list IndexedTransaction) (prevout : OutPoint)
    : option TransactionOutput :=
  match List.find (fun tx => bool_decide (itx_hash tx = op_hash prevout)) transactions with
  | Some tx => outputs (itx_raw tx) !! Z.to_nat (op_index prevout)
  | None => None
  end.

Definition block_is_spent (transactions : list IndexedTransaction) (prevout : OutPoint) : bool :=
  let spends :=
    length (take 2 (List.filter (fun input => bool_decide (previous_output input = prevout))
                      (List.flat_map (fun tx => inputs (itx_raw tx)) transactions))) in
  (spends =? 2)%nat.

Definition block_provider (block : IndexedBlock) : TransactionOutputProvider := {|
  transaction_output := fun outpoint transaction_index =>
    let take_ := Z.min transaction_index (zlen (ib_transactions block)) in
    block_transaction_output (firstn (Z.to_nat take_) (ib_transactions block)) outpoint;
  is_spent := block_is_spent (ib_transactions block);
|}.

(** ** The caching provider *)

Abbreviation cached_outputs := (gmap OutPoint (option TransactionOutput)).

Definition cached_transaction_output (backend : TransactionOutputProvider) (cache : cached_outputs)
    (outpoint : OutPoint) (transaction_index : Z) : option TransactionOutput * cached_outputs :=
  match cache !! outpoint with
  | Some cached_value => (cached_value, cache)
  | None =>
      let value_from_backend := transaction_output backend outpoint transaction_index in
      (value_from_backend, <[outpoint := value_from_backend]> cache)
  end.

Definition cached_is_spent (backend : TransactionOutputProvider) (outpoint : OutPoint) : bool :=
  is_spent backend outpoint.

(** * Origins of blocks *)

Record BestBlock := mkBest { bb_number : Z; bb_hash : bytes }.

Record SideChainOrigin := mkOrigin {
  ancestor : Z;
  canonized_route : list bytes;
  decanonized_route : list bytes;
  so_block_number : Z;
}.

Inductive BlockOrigin :=
| KnownBlock
| CanonChain (block_number : Z)
| SideChain (origin : SideChainOrigin)
| SideChainBecomingCanonChain (origin : SideChainOrigin).

Inductive StorageError :=
| DatabaseError (msg : string)
| CannotCanonize
| CannotDecanonize
| UnknownParent
| AncientFork.

(** * Lemmas *)

Section meta_lemmas.
Context `{BitVecLaws}.

(** The metadata of a transaction with [n] outputs. *)
Definition wf_meta (n : nat) (m : TransactionMeta) : Prop := length (bv_iter (meta_bits m)) = S n.

Lemma meta_new_wf h n : wf_meta n (meta_new h n).
Proof. unfold wf_meta. cbn. rewrite bv_iter_from_elem, length_replicate. lia. Qed.

Lemma set_bit {E} m i b :
  (i < length (bv_iter (meta_bits m)))%nat ->
  exists w, expect (E := E) (bv_set (meta_bits m) i b) = Ok w /\ bv_iter w = <[i := b]> (bv_iter (meta_bits m)).
Proof. intros Hi. destruct (bv_set_inside (meta_bits m) i b Hi) as (w & -> & Hw). by exists w. Qed.

Lemma meta_new_coinbase_spec {E} h n :
  exists m, @meta_new_coinbase _ E h n = Ok m /\ block_height m = h /\
    bv_iter (meta_bits m) = true :: replicate n false.
Proof.
  unfold meta_new_coinbase.
  destruct (@set_bit E (meta_new h n) 0 true) as (w & -> & Hw).
  { rewrite (meta_new_wf h n). lia. }
  exists (mkMeta h w). split_and!; [done..|]. cbn [meta_bits meta_new] in *.
  rewrite Hw, bv_iter_from_elem, Nat.add_1_r. done.
Qed.

Lemma denote_spec {E} (used : bool) n m i :
  wf_meta n m -> (i < n)%nat ->
  exists m', (if used then @denote_used _ E m i else @denote_unused _ E m i) = Ok m' /\
    block_height m' = block_height m /\
    bv_iter (meta_bits m') = <[(i + 1)%nat := used]> (bv_iter (meta_bits m)).
Proof.
  intros Hwf Hi. destruct (@set_bit E m (i + 1) used) as (w & Hset & Hw); [rewrite Hwf; lia|].
  exists (mkMeta (block_height m) w). unfold denote_used, denote_unused.
  destruct used; rewrite Hset; done.
Qed.

Lemma denote_out_of_range {E} (used : bool) n m i :
  wf_meta n m -> (n <= i)%nat ->
  (if used then @denote_used _ E m i else @denote_unused _ E m i) = Panic.
Proof.
  intros Hwf Hi. unfold wf_meta in Hwf. unfold denote_used, denote_unused.
  destruct used; rewrite bv_set_outside by lia; done.
Qed.

Lemma is_fully_spent_iff m :
  is_fully_spent m = true <-> Forall (eq true) (drop 1 (bv_iter (meta_bits m))).
Proof.
  unfold is_fully_spent. rewrite forallb_forall, Forall_forall. split; intros Hall x Hx.
  - symmetry. apply Hall. by apply list_elem_of_In.
  - apply list_elem_of_In in Hx. by rewrite <- (Hall x Hx).
Qed.

Lemma drop_S_lookup {A} (l : list A) i : drop 1 l !! i = l !! (i + 1)%nat.
Proof. rewrite lookup_drop. f_equal. lia. Qed.

Lemma is_fully_spent_spec n m :
  wf_meta n m ->
  is_fully_spent m = true <-> forall i, (i < n)%nat -> meta_is_spent m i = Some true.
Proof.
  intros Hwf. rewrite is_fully_spent_iff, Forall_lookup. unfold meta_is_spent, wf_meta in *.
  setoid_rewrite drop_S_lookup. setoid_rewrite bv_get_iter. split.
  - intros Hall i Hi. destruct (lookup_lt_is_Some_2 (bv_iter (meta_bits m)) (i + 1)) as [x Hx]; [lia|].
    by rewrite Hx, <- (Hall i x Hx).
  - intros Hall i x Hx. assert (i < n)%nat as Hi.
    { apply lookup_lt_Some in Hx. lia. }
    rewrite (Hall i Hi) in Hx. by injection Hx.
Qed.

(** Metadata written to the database and read back. *)
Definition reloaded (m : TransactionMeta) : TransactionMeta :=
  mkMeta (block_height m) (bv_from_bytes (bv_to_bytes (meta_bits m))).

#[global] Instance transaction_meta_laws :
  CodecLaws transaction_meta_codec
    (fun _ m => uint 32 (block_height m) /\ zlen (bv_to_bytes (meta_bits m)) <= isize_max)
    (fun _ m => reloaded m).
Proof.
  eapply codec_laws_impl; [apply struct_laws, fields_laws; apply _| |].
  - intros f o [H1 H2]. done.
  - by intros f [] _.
Qed.

Lemma reloaded_lookup m i :
  (i < length (bv_iter (meta_bits m)))%nat ->
  bv_iter (meta_bits (reloaded m)) !! i = bv_iter (meta_bits m) !! i.
Proof. intros Hi. cbn. rewrite bv_bytes_roundtrip. by apply lookup_app_l. Qed.

Lemma reloaded_fully_spent n m :
  wf_meta n m -> is_fully_spent (reloaded m) = is_fully_spent m && (bv_padding (S n) =? 0)%nat.
Proof.
  intros Hwf. unfold is_fully_spent, reloaded. cbn [meta_bits]. rewrite bv_bytes_roundtrip, Hwf.
  unfold wf_meta in Hwf. destruct (bv_iter (meta_bits m)) as [|b l]; [done|].
  cbn [app drop]. rewrite drop_0, drop_0, forallb_app. f_equal. by destruct (bv_padding (S n)).
Qed.

End meta_lemmas.

(** ** Providers *)

Lemma length_take_2 {A} (l : list A) : (length (take 2 l) =? 2)%nat = (2 <=? length l)%nat.
Proof. by destruct l as [|a [|b l]]. Qed.

(** Positions in a list where a predicate holds. *)
Lemma filter_two {A} (f : A -> bool) l :
  (2 <= length (List.filter f l))%nat ->
  exists i j x y, i <> j /\ l !! i = Some x /\ l !! j = Some y /\ f x = true /\ f y = true.
Proof.
  induction l as [|a l IH]; cbn [List.filter]; [simpl; lia|]. destruct (f a) eqn:Ha.
  - intros Hl. cbn [length] in Hl. destruct (List.filter f l) as [|b k] eqn:Hf; [simpl in Hl; lia|].
    assert (In b (List.filter f l)) as Hb by (rewrite Hf; by left).
    apply filter_In in Hb as [Hb Hfb]. apply list_elem_of_In, list_elem_of_lookup in Hb as [j Hj].
    by exists 0%nat, (S j), a, b.
  - intros Hl. destruct (IH Hl) as (i & j & x & y & Hij & Hi & Hj & Hx & Hy).
    exists (S i), (S j), x, y. split_and!; try done. lia.
Qed.

Lemma filter_one {A} (f : A -> bool) l i x :
  l !! i = Some x -> f x = true -> (1 <= length (List.filter f l))%nat.
Proof.
  revert i. induction l as [|a l IH]; intros i; [done|]. cbn [List.filter].
  destruct i as [|i]; cbn [lookup list_lookup].
  - intros [= ->] ->. simpl. lia.
  - intros Hi Hx. specialize (IH i Hi Hx). destruct (f a); simpl; lia.
Qed.

Lemma filter_two_rev {A} (f : A -> bool) l i j x y :
  (i < j)%nat -> l !! i = Some x -> l !! j = Some y -> f x = true -> f y = true ->
  (2 <= length (List.filter f l))%nat.
Proof.
  revert i j. induction l as [|a l IH]; intros i j Hij; [done|]. cbn [List.filter].
  destruct j as [|j]; [lia|]. destruct i as [|i]; cbn [lookup list_lookup].
  - intros [= ->] Hj -> Hy. pose proof (filter_one f l j y Hj Hy). simpl. lia.
  - intros Hi Hj Hx Hy. assert (i < j)%nat as Hij' by lia.
    specialize (IH i j Hij' Hi Hj Hx Hy). destruct (f a); simpl; lia.
Qed.

(** Every outpoint the transactions spend, in order. *)
Definition prevouts (transactions : list IndexedTransaction) : list OutPoint :=
  map previous_output (List.flat_map (fun tx => inputs (itx_raw tx)) transactions).

(** An output counts as spent exactly when it is referenced twice. *)
Lemma block_is_spent_spec txs o :
  block_is_spent txs o = true <->
  exists i j, (i < j)%nat /\ prevouts txs !! i = Some o /\ prevouts txs !! j = Some o.
Proof.
  unfold block_is_spent, prevouts. rewrite length_take_2, Nat.leb_le.
  setoid_rewrite list_lookup_fmap. split.
  - intros Hl. destruct (filter_two _ _ Hl) as (i & j & x & y & Hij & Hi & Hj & Hx & Hy).
    apply bool_decide_eq_true in Hx. apply bool_decide_eq_true in Hy.
    destruct (Nat.lt_total i j) as [|[|]]; [|done|].
    + exists i, j. rewrite Hi, Hj. cbn. by rewrite Hx, Hy.
    + exists j, i. rewrite Hi, Hj. cbn. by rewrite Hx, Hy.
  - intros (i & j & Hij & Hi & Hj).
    apply fmap_Some in Hi as (x & Hx & Hox). apply fmap_Some in Hj as (y & Hy & Hoy).
    apply (filter_two_rev _ _ i j x y Hij Hx Hy); by apply bool_decide_eq_true.
Qed.

(** ** The cache shared by verification threads *)

(** The lock is released between the lookup and the insertion: a query that misses is
    in flight until its value is inserted.  [answers] is what callers were given. *)
Record CacheState := mkCache {
  cached : cached_outputs;
  in_flight : list (OutPoint * Z);
  answers : list (OutPoint * Z * option TransactionOutput);
}.

Inductive cache_step (backend : TransactionOutputProvider) : CacheState -> CacheState -> Prop :=
| cache_hit c fl ans o i v :
    c !! o = Some v -> cache_step backend (mkCache c fl ans) (mkCache c fl ((o, i, v) :: ans))
| cache_miss c fl ans o i :
    c !! o = None -> cache_step backend (mkCache c fl ans) (mkCache c ((o, i) :: fl) ans)
| cache_fill c fl fl' ans o i v :
    fl ≡ₚ (o, i) :: fl' -> v = transaction_output backend o i ->
    cache_step backend (mkCache c fl ans) (mkCache (<[o := v]> c) fl' ((o, i, v) :: ans)).

(** The backend does not look at the index of the spending transaction, as the
    database does not. *)
Definition index_free (p : TransactionOutputProvider) : Prop :=
  forall o i j, transaction_output p o i = transaction_output p o j.

Definition cache_ok (backend : TransactionOutputProvider) (s : CacheState) : Prop :=
  (forall o v, cached s !! o = Some v -> v = transaction_output backend o 0) /\
  Forall (fun '(o, i, v) => v = transaction_output backend o i) (answers s).

Lemma cache_ok_step backend s s' :
  index_free backend -> cache_step backend s s' -> cache_ok backend s -> cache_ok backend s'.
Proof.
  intros Hfree Hstep [Hc Ha].
  destruct Hstep as [c fl ans o i v Hv|c fl ans o i Hn|c fl fl' ans o i v Hp ->]; cbn in *.
  - split; [done|]. constructor; [|done]. rewrite (Hc o v Hv). apply Hfree.
  - done.
  - split; [|by constructor]. cbn. intros o' v' [[<- <-]|[_ Hl]]%lookup_insert_Some; [apply Hfree|by apply Hc].
Qed.

Lemma cache_ok_reachable backend s s' :
  index_free backend -> rtc (cache_step backend) s s' -> cache_ok backend s -> cache_ok backend s'.
Proof. intros Hfree. induction 1; eauto using cache_ok_step. Qed.

(** A call on its own is a hit, or a miss followed by its fill. *)
Lemma cached_call_steps backend c fl ans o i :
  rtc (cache_step backend) (mkCache c fl ans)
    (mkCache (cached_transaction_output backend c o i).2 fl
       ((o, i, (cached_transaction_output backend c o i).1) :: ans)).
Proof.
  unfold cached_transaction_output. destruct (c !! o) as [v|] eqn:Hc; cbn.
  - by apply rtc_once, cache_hit.
  - eapply rtc_l; [by apply cache_miss|]. by apply rtc_once, cache_fill.
Qed.

(** * Properties *)

(** Marking an output used or unused changes exactly that output's bit, keeps the
    height and the coinbase flag, and panics out of range; a transaction is fully
    spent when every output is. *)
Theorem meta_denote `{BitVecLaws} {E} (used : bool) n m i :
  wf_meta n m ->
  let r := if used then @denote_used _ E m i else @denote_unused _ E m i in
  ((n <= i)%nat -> r = Panic) /\
  ((i < n)%nat -> exists m', r = Ok m' /\ wf_meta n m' /\ meta_height m' = meta_height m /\
     @meta_is_coinbase _ E m' = meta_is_coinbase m /\
     forall j, meta_is_spent m' j = if decide (j = i) then Some used else meta_is_spent m j) /\
  (is_fully_spent m = true <-> forall j, (j < n)%nat -> meta_is_spent m j = Some true).
Proof.
  intros Hwf r. split_and!; [by apply denote_out_of_range| |by apply is_fully_spent_spec].
  intros Hi. destruct (@denote_spec _ _ E used n m i Hwf Hi) as (m' & Hr & Hh & Hb).
  exists m'. unfold wf_meta, meta_is_coinbase, meta_is_spent. setoid_rewrite bv_get_iter.
  rewrite Hb, length_insert. split_and!; [done..| |].
  - by rewrite list_lookup_insert_ne by lia.
  - intros j. unfold wf_meta in Hwf. case_decide as Hj.
    + subst j. apply list_lookup_insert_eq. lia.
    + rewrite bv_get_iter. apply list_lookup_insert_ne. lia.
Qed.

(** Metadata read back from the database keeps the height, the coinbase flag and the
    spent bit of every output, but a fully spent transaction is no longer seen as
    fully spent unless its bits fill whole bytes: the padding reads as unspent
    outputs. *)
Theorem meta_roundtrip `{BitVecLaws} {E} n m :
  wf_meta n m -> uint 32 (meta_height m) -> zlen (bv_to_bytes (meta_bits m)) <= isize_max ->
  exists m', from_bytes transaction_meta_codec (to_bytes transaction_meta_codec m) = Ok m' /\
    meta_height m' = meta_height m /\ @meta_is_coinbase _ E m' = meta_is_coinbase m /\
    (forall i, (i < n)%nat -> meta_is_spent m' i = meta_is_spent m i) /\
    is_fully_spent m' = is_fully_spent m && (Nat.modulo (S n) 8 =? 0)%nat.
Proof.
  intros Hwf Hh Hl. exists (reloaded m).
  split_and!; [exact (from_bytes_to_bytes transaction_meta_codec _ _ 0 m (conj Hh Hl))|done|..].
  - unfold meta_is_coinbase. rewrite !bv_get_iter, reloaded_lookup; [done|]. rewrite Hwf. lia.
  - intros i Hi. unfold meta_is_spent. rewrite !bv_get_iter, reloaded_lookup; [done|]. rewrite Hwf. lia.
  - rewrite (reloaded_fully_spent n m Hwf). f_equal. unfold bv_padding.
    pose proof (Nat.mod_upper_bound (S n) 8 ltac:(lia)) as Hb.
    destruct (S n mod 8)%nat as [|k] eqn:Hk; [done|]. rewrite Nat.mod_small by lia.
    by rewrite (proj2 (Nat.eqb_neq _ _)) by lia.
Qed.

(** However verification threads interleave, every answer of the caching provider is
    the backend's, provided the backend ignores the spending index.  A call that is
    not interrupted is one of these runs, and answers as the backend does. *)
Theorem cached_provider_refines backend s :
  index_free backend -> rtc (cache_step backend) (mkCache ∅ [] []) s ->
  Forall (fun '(o, i, v) => v = transaction_output backend o i) (answers s) /\
  forall o i, let '(v, c) := cached_transaction_output backend (cached s) o i in
    v = transaction_output backend o i /\
    rtc (cache_step backend) s (mkCache c (in_flight s) ((o, i, v) :: answers s)).
Proof.
  intros Hfree Hs. assert (cache_ok backend s) as Hok.
  { eapply cache_ok_reachable; [done..|]. by split. }
  split; [apply Hok|]. intros o i.
  pose proof (cached_call_steps backend (cached s) (in_flight s) (answers s) o i) as Hcall.
  destruct s as [c fl ans]. unfold cached_transaction_output in *. cbn in *.
  destruct (c !! o) as [v|] eqn:Hc; split; try done. rewrite (proj1 Hok o v Hc). apply Hfree.
Qed.

End Storage.

(** * An instance of the bit_vec interface *)

(** A vector of bits is its list; bytes hold the first bit at the top. *)
Module ExampleBits.

Definition bits_byte (l : list bool) : byte :=
  byte_of (fold_left (fun acc b => 2 * acc + Z.b2z b) (take 8 (l ++ replicate 8 false)) 0).

Fixpoint list_to_bytes (fuel : nat) (l : list bool) : bytes :=
  match fuel, l with
  | S fuel', _ :: _ => bits_byte l :: list_to_bytes fuel' (drop 8 l)
  | _, _ => []
  end.

#[export] Instance list_bits : BitVec := {|
  bitvec := list bool;
  bv_from_elem := fun n b => replicate n b;
  bv_get := fun v i => v !! i;
  bv_set := fun v i b => if (i <? length v)%nat then Some (<[i := b]> v) else None;
  bv_push := fun v b => v ++ [b];
  bv_iter := fun v => v;
  bv_to_bytes := fun v => list_to_bytes (length v) v;
  bv_from_bytes := fun b => List.flat_map byte_bits b;
|}.

Lemma byte_bits_of_eight l :
  length l = 8%nat -> byte_bits (byte_of (fold_left (fun acc b => 2 * acc + Z.b2z b) l 0)) = l.
Proof.
  destruct l as [|b0 [|b1 [|b2 [|b3 [|b4 [|b5 [|b6 [|b7 [|]]]]]]]]]; try done. intros _.
  destruct b0, b1, b2, b3, b4, b5, b6, b7; vm_compute; reflexivity.
Qed.

Lemma byte_bits_byte l : byte_bits (bits_byte l) = take 8 (l ++ replicate 8 false).
Proof. apply byte_bits_of_eight. rewrite length_take, length_app, length_replicate. lia. Qed.

Lemma bv_padding_drop n : (8 <= n)%nat -> bv_padding (n - 8) = bv_padding n.
Proof.
  intros Hn. unfold bv_padding. replace n with (n - 8 + 1 * 8)%nat at 2 by lia.
  by rewrite Nat.Div0.mod_add.
Qed.

Lemma list_to_bytes_roundtrip fuel l :
  (length l <= fuel)%nat ->
  List.flat_map byte_bits (list_to_bytes fuel l) = l ++ replicate (bv_padding (length l)) false.
Proof.
  revert l. induction fuel as [|fuel IH]; intros [|b l] Hl; try done; [cbn in Hl; lia|].
  cbn [list_to_bytes List.flat_map]. rewrite byte_bits_byte.
  destruct (le_lt_dec 8 (length (b :: l))) as [Hle|Hlt].
  - rewrite IH, length_drop, bv_padding_drop, app_assoc by (rewrite ?length_drop; simpl in *; lia).
    f_equal. rewrite take_app_le by done. apply take_drop.
  - rewrite (drop_ge (b :: l)) by lia. rewrite take_app_ge, take_replicate by lia.
    replace (list_to_bytes fuel []) with (@nil byte) by (by destruct fuel). cbn [List.flat_map].
    rewrite app_nil_r. do 2 f_equal. unfold bv_padding.
    rewrite (Nat.mod_small (length (b :: l))), Nat.mod_small by (simpl in *; lia). lia.
Qed.

Lemma length_list_to_bytes fuel l :
  (length l <= fuel)%nat -> length (list_to_bytes fuel l) = ((length l + 7) / 8)%nat.
Proof.
  revert l. induction fuel as [|fuel IH]; intros [|b l] Hl; try done; [cbn in Hl; lia|].
  cbn [list_to_bytes length]. rewrite IH by (rewrite length_drop; simpl in *; lia).
  rewrite length_drop. cbn [length]. destruct (le_lt_dec 8 (S (length l))).
  - replace (S (length l) + 7)%nat with (S (length l) - 8 + 7 + 1 * 8)%nat by lia.
    rewrite Nat.div_add by lia. lia.
  - replace (S (length l) - 8 + 7)%nat with 7%nat by lia.
    change (S (7 / 8)) with 1%nat. apply (Nat.div_unique _ _ _ (length l)); lia.
Qed.

#[export] Instance list_bits_laws : BitVecLaws list_bits.
Proof.
  split; cbn [bv_set bv_iter bv_push bv_from_elem bv_get bv_to_bytes bv_from_bytes list_bits]; try done.
  - intros v i b Hi. rewrite (proj2 (Nat.ltb_lt i (length v))) by done. eauto.
  - intros v i b Hi. by rewrite (proj2 (Nat.ltb_ge i (length v))).
  - intros v. by apply list_to_bytes_roundtrip.
  - intros v. by apply length_list_to_bytes.
Qed.

End ExampleBits.

(** * Witnesses *)

Section witnesses.
Import Storage ExampleBits.

Lemma meta_denote_witness :
  let m := meta_new 7 2 in
  wf_meta 2 m /\
  exists m', @denote_used _ unit m 1 = Ok m' /\ meta_is_spent m' 1 = Some true /\
    meta_is_spent m' 0 = meta_is_spent m 0.
Proof.
  split; [apply meta_new_wf|].
  destruct (@meta_denote _ _ unit true 2 (meta_new 7 2) 1 (meta_new_wf 7 2)) as (_ & Hin & _).
  destruct Hin as (m' & Hr & _ & _ & _ & Hs); [lia|].
  exists m'. split; [exact Hr|]. split; [exact (Hs 1%nat)|exact (Hs 0%nat)].
Defined.

(** Two outputs, both spent: fully spent in memory, not after a reload. *)
Lemma meta_roundtrip_witness :
  let m := @mkMeta list_bits 7 [false; true; true] in
  is_fully_spent m = true /\
  exists m', Ser.from_bytes transaction_meta_codec (Ser.to_bytes transaction_meta_codec m) = Ok m' /\
    is_fully_spent m' = false.
Proof.
  split; [reflexivity|].
  destruct (@meta_roundtrip _ _ unit 2 (@mkMeta list_bits 7 [false; true; true])) as (m' & Hr & _ & _ & _ & Hs).
  - reflexivity.
  - by apply is_uint_spec.
  - vm_compute. discriminate.
  - exists m'. split; [exact Hr|exact Hs].
Defined.

Definition example_outpoint : Chain.OutPoint := Chain.mkOutPoint Chain.zero_hash 0.
Definition example_provider : TransactionOutputProvider :=
  mkProvider (fun o _ => if decide (o = example_outpoint) then Some (Chain.mkOutput 5 []) else None)
    (fun _ => false).

Lemma cached_provider_refines_witness :
  let s := mkCache ∅ [] [] in
  Forall (fun '(o, i, v) => v = transaction_output example_provider o i) (answers s) /\
  (cached_transaction_output example_provider ∅ example_outpoint 3).1 = Some (Chain.mkOutput 5 []).
Proof.
  destruct (cached_provider_refines example_provider (mkCache ∅ [] [])) as [Ha Hc].
  - by intros o i j.
  - apply rtc_refl.
  - split; [exact Ha|]. exact (proj1 (Hc example_outpoint 3)).
Defined.

End witnesses.
