(* ===== verification/Deployments.v ===== *)
(** Version-bits deployments (src/verification/src/deployments.rs): the threshold state
    machine, its iterator over periods, and the cache of the last known states.  The
    reference is the state machine run over the whole chain from the start. *)
From Stdlib Require Import ZArith Lia Strings.Byte.
From stdpp Require Import base decidable numbers countable gmap strings sorting list.
From S2P Require Import Prelude Crypto Serialization Chain ChainHash U256 Compact Network Work.

Local Open Scope Z_scope.

Module Deployments.
Import Chain ChainHash Network Work.

Inductive ThresholdState := ThresholdDefined | Started | LockedIn | Active | Failed.

#[global] Instance ThresholdState_eq_dec : EqDecision ThresholdState.
Proof. solve_decision. Defined.

Definition is_final (self : ThresholdState) : bool :=
  match self with
  | Active | Failed => true
  | ThresholdDefined | Started | LockedIn => false
  end.

Definition is_active (self : ThresholdState) : bool :=
  match self with Active => true | _ => false end.

Record DeploymentState := mkState {
  ds_block_number : Z;
  ds_block_hash : bytes;
  ds_state : ThresholdState;
}.

Abbreviation DeploymentStateCache := (gmap string DeploymentState).

Definition first_of_the_period {E} (block miner_confirmation_window : Z) : outcome E Z :=
  last ← ucheck 32 (miner_confirmation_window - 1);
  if block <? last then Ok 0
  else
    next ← ucheck 32 (block + 1);
    ucheck 32 (block - next mod miner_confirmation_window).

(** [filter(..).count()]. *)
Fixpoint count_matching {E} (deployment : Deployment) (headers : list IndexedBlockHeader) : outcome E Z :=
  match headers with
  | [] => Ok 0
  | header :: rest =>
      matches ← deployment_matches deployment (hd_version (ih_raw header));
      n ← count_matching deployment rest;
      Ok (if matches : bool then 1 + n else n)
  end.

Section store.
Context `{BlockHeaderProvider}.

Definition count_deployment_matches {E} (block_number : Z) (deployment : Deployment) (window : Z)
    : outcome E Z :=
  count_matching deployment (ancestors_take (Z.to_nat window) (Some (Number block_number))).

(** ** The iterator *)

(** The part of [ThresholdIterator] that changes: the position of its block iterator
    and the last state. *)
Record ThresholdIterator := mkIterator { it_block : Z; it_last_state : ThresholdState }.

Section iterator.
Context (deployment : Deployment) (miner_confirmation_window rule_change_activation_threshold : Z).

(** The match on the last state; [None] is the return of [None]. *)
Definition next_state {E} (last_state : ThresholdState) (median block_number : Z)
    : outcome E (option ThresholdState) :=
  match last_state with
  | ThresholdDefined =>
      if timeout deployment <=? median then Ok (Some Failed)
      else if start_time deployment <=? median then Ok (Some Started)
      else Ok (Some ThresholdDefined)
  | Started =>
      if timeout deployment <=? median then Ok (Some Failed)
      else
        count ← count_deployment_matches block_number deployment miner_confirmation_window;
        if rule_change_activation_threshold <=? count then Ok (Some LockedIn) else Ok (Some Started)
  | LockedIn => Ok (Some Active)
  | Failed | Active => Ok None
  end.

Definition threshold_next {E} (self : ThresholdIterator)
    : outcome E (option DeploymentState * ThresholdIterator) :=
  '(item, block) ← iterator_next (it_block self) miner_confirmation_window;
  match item with
  | None => Ok (None, mkIterator block (it_last_state self))
  | Some (block_number, header) =>
      median ← median_timestamp (ih_raw header);
      state ← next_state (it_last_state self) median block_number;
      match state with
      | None => Ok (None, mkIterator block (it_last_state self))
      | Some last_state =>
          Ok (Some (mkState block_number (ih_hash header) last_state), mkIterator block last_state)
      end
  end.

(** One turn of [Iterator::last]. *)
Definition last_body {E} (s : ThresholdIterator * option DeploymentState)
    : (ThresholdIterator * option DeploymentState) + outcome E (option DeploymentState) :=
  match threshold_next s.1 with
  | Ok (Some item, it) => inl (it, Some item)
  | Ok (None, _) => inr (Ok s.2)
  | Err e => inr (Err e)
  | Panic => inr Panic
  | Diverge => inr Diverge
  end.

(** Block numbers grow by the window at every turn and overflow panics, so that
    [2 ^ 32] turns are enough. *)
Definition threshold_last {E} (self : ThresholdIterator) : outcome E (option DeploymentState) :=
  match run 32 last_body (self, None) with
  | inl _ => Diverge
  | inr r => r
  end.

End iterator.

(** ** The cached state *)

Definition threshold_state {E} (cache : DeploymentStateCache) (deployment : Deployment) (number : Z)
    (miner_confirmation_window rule_change_activation_threshold : Z)
    : outcome E (ThresholdState * DeploymentStateCache) :=
  match activation deployment with
  | Some a => if a <=? number then Ok (Active, cache) else Ok (ThresholdDefined, cache)
  | None =>
      let number := Z.max 0 (number - 1) in
      number ← first_of_the_period number miner_confirmation_window;
      match block_header_of (Number number) with
      | None => Ok (ThresholdDefined, cache)
      | Some header =>
          let hash := ih_hash header in
          match cache !! name deployment with
          | Some entry =>
              if (ds_block_number entry =? number) && bool_decide (ds_block_hash entry = hash) then
                Ok (ds_state entry, cache)
              else if is_final (ds_state entry) then Ok (ds_state entry, cache)
              else
                last ← threshold_last deployment miner_confirmation_window
                         rule_change_activation_threshold (mkIterator number (ds_state entry));
                state ← expect last;
                Ok (ds_state state, <[name deployment := state]> cache)
          | None =>
              to_check ← ucheck 32 (miner_confirmation_window - 1);
              last ← threshold_last deployment miner_confirmation_window
                       rule_change_activation_threshold (mkIterator to_check ThresholdDefined);
              let state := default (mkState number hash ThresholdDefined) last in
              Ok (ds_state state, <[name deployment := state]> cache)
          end
      end
  end.

Definition deployment_active {E} (deployment : option Deployment) (cache : DeploymentStateCache)
    (number : Z) (consensus : ConsensusParams) : outcome E (bool * DeploymentStateCache) :=
  match deployment with
  | Some d =>
      '(state, cache) ← threshold_state cache d number (miner_confirmation_window consensus)
                          (rule_change_activation_threshold consensus);
      Ok (is_active state, cache)
  | None => Ok (false, cache)
  end.

Definition csv {E} (cache : DeploymentStateCache) (number : Z) (consensus : ConsensusParams)
    : outcome E (bool * DeploymentStateCache) :=
  deployment_active (csv_deployment consensus) cache number consensus.

Definition segwit {E} (cache : DeploymentStateCache) (number : Z) (consensus : ConsensusParams)
    : outcome E (bool * DeploymentStateCache) :=
  deployment_active (segwit_deployment consensus) cache number consensus.

End store.

(** * The reference: the state after every complete period of a chain *)

Section reference.
Context (d : Deployment) (w : nat) (threshold : Z).

(** The headers below height [i], the latest first. *)
Definition below (hs : list IndexedBlockHeader) (i : nat) : list IndexedBlockHeader :=
  reverse (firstn i hs).

Definition ref_median (hs : list IndexedBlockHeader) (i : nat) : Z :=
  let timestamps := map (fun h => time (ih_raw h)) (firstn 11 (below hs i)) in
  nth (length timestamps / 2) (merge_sort Z.le timestamps) 0.

Definition signals (header : IndexedBlockHeader) : bool :=
  let version := hd_version (ih_raw header) in
  (Z.land version VERSIONBITS_TOP_MASK =? VERSIONBITS_TOP_BITS) && Z.testbit version (bit d).

Definition ref_count (hs : list IndexedBlockHeader) (i : nat) : Z :=
  zlen (List.filter signals (firstn w (below hs (S i)))).

Definition ref_next (s : ThresholdState) (hs : list IndexedBlockHeader) (i : nat) : ThresholdState :=
  match s with
  | ThresholdDefined =>
      if timeout d <=? ref_median hs i then Failed
      else if start_time d <=? ref_median hs i then Started else ThresholdDefined
  | Started =>
      if timeout d <=? ref_median hs i then Failed
      else if threshold <=? ref_count hs i then LockedIn else Started
  | LockedIn => Active
  | Failed => Failed
  | Active => Active
  end.

(** The state once [k] periods are complete; the last block of period [k] has height
    [k * w - 1]. *)
Fixpoint ref_state (hs : list IndexedBlockHeader) (k : nat) : ThresholdState :=
  match k with
  | O => ThresholdDefined
  | S k' => ref_next (ref_state hs k') hs (S k' * w - 1)
  end.

(** The store holds the chain [hs]: its headers are found by height and by hash, each
    links to the one before, and the first one has no stored parent.  Other hashes may
    be stored too. *)
Record provides (h : BlockHeaderProvider) (hs : list IndexedBlockHeader) : Prop := {
  provides_number i : @block_header_of h (Number (Z.of_nat i)) = hs !! i;
  provides_hash i x : hs !! i = Some x -> @block_header_of h (Hash (ih_hash x)) = Some x;
  provides_link i x y :
    hs !! i = Some x -> hs !! S i = Some y -> previous_header_hash (ih_raw y) = ih_hash x;
  provides_genesis x :
    hs !! O = Some x -> @block_header_of h (Hash (previous_header_hash (ih_raw x))) = None;
}.

(** A cached state that belongs to the chain: the state after [k] periods, at the last
    block of period [k]. *)
Definition entry_at (hs : list IndexedBlockHeader) (k : nat) (e : DeploymentState) : Prop :=
  ds_state e = ref_state hs k /\
  exists x, hs !! (k * w - 1)%nat = Some x /\
    ds_block_number e = Z.of_nat (k * w - 1) /\ ds_block_hash e = ih_hash x.

(** The cache is up to date for the next block of the chain: its state is final, or at
    most one period old. *)
Definition coherent (hs : list IndexedBlockHeader) (cache : DeploymentStateCache) : Prop :=
  match cache !! name d with
  | None => True
  | Some e => exists k, entry_at hs k e /\ (k = O -> (1 < w)%nat) /\ (k <= length hs / w)%nat /\
      (is_final (ds_state e) = true \/ (length hs / w <= k + 1)%nat)
  end.

(** After a call the cache has the state of the last complete period, or a final one. *)
Definition fresh (hs : list IndexedBlockHeader) (cache : DeploymentStateCache) : Prop :=
  exists e k, cache !! name d = Some e /\ entry_at hs k e /\ (k = O -> (1 < w)%nat) /\
    (k <= length hs / w)%nat /\ (is_final (ds_state e) = true \/ k = (length hs / w)%nat).

End reference.

(** * Lemmas *)

Section chain.
Context (h : BlockHeaderProvider) (hs : list IndexedBlockHeader).
Context (Hp : provides h hs).

Lemma below_S i x : hs !! i = Some x -> below hs (S i) = x :: below hs i.
Proof. intros Hi. unfold below. by rewrite (take_S_r _ _ _ Hi), reverse_snoc. Qed.

Lemma ancestors_hash n i x :
  hs !! i = Some x -> ancestors_take n (Some (Hash (ih_hash x))) = firstn n (below hs (S i)).
Proof.
  revert i x. induction n as [|n IH]; intros i x Hi; [done|].
  cbn [ancestors_take ancestors_next]. unfold ancestors_next. cbn [mbind option_bind].
  rewrite (provides_hash h hs Hp i x Hi), (below_S i x Hi). cbn [firstn]. f_equal.
  destruct i as [|i].
  - destruct n; [done|]. cbn [ancestors_take]. unfold ancestors_next. cbn [mbind option_bind].
    by rewrite (provides_genesis h hs Hp x Hi).
  - destruct (lookup_lt_is_Some_2 hs i) as [y Hy]; [apply lookup_lt_Some in Hi; lia|].
    rewrite (provides_link h hs Hp i y x Hy Hi). by apply IH.
Qed.

Lemma ancestors_number n i x :
  hs !! i = Some x -> ancestors_take n (Some (Number (Z.of_nat i))) = firstn n (below hs (S i)).
Proof.
  intros Hi. rewrite <- (ancestors_hash n i x Hi). destruct n; [done|].
  cbn [ancestors_take]. unfold ancestors_next. cbn [mbind option_bind].
  by rewrite (provides_number h hs Hp i), (provides_hash h hs Hp i x Hi), Hi.
Qed.

Lemma ancestors_parent n i x :
  hs !! i = Some x ->
  ancestors_take n (Some (Hash (previous_header_hash (ih_raw x)))) = firstn n (below hs i).
Proof.
  intros Hi. destruct i as [|i].
  - destruct n; [done|]. cbn [ancestors_take]. unfold ancestors_next. cbn [mbind option_bind].
    by rewrite (provides_genesis h hs Hp x Hi).
  - destruct (lookup_lt_is_Some_2 hs i) as [y Hy]; [apply lookup_lt_Some in Hi; lia|].
    rewrite (provides_link h hs Hp i y x Hy Hi). by apply ancestors_hash.
Qed.

Lemma median_ref {E} i x :
  hs !! i = Some x -> @median_timestamp h E (ih_raw x) = Ok (ref_median hs i).
Proof.
  intros Hi. unfold median_timestamp, median_timestamp_inclusive, ref_median.
  rewrite (ancestors_parent 11 i x Hi). set (ts := map _ _).
  case_bool_decide as Hts; [by rewrite Hts|]. unfold index.
  assert (length ts / 2 < length (merge_sort Z.le ts))%nat as Hlt.
  { rewrite (Permutation_length (merge_sort_Permutation Z.le ts)).
    destruct ts; [done|]. apply Nat.div_lt; simpl; lia. }
  destruct (lookup_lt_is_Some_2 _ _ Hlt) as [z Hz]. rewrite Hz. cbn. f_equal.
  symmetry. by apply nth_lookup_Some.
Qed.

Context (d : Deployment) (w : nat) (threshold : Z).
Context (Hbit : 0 <= bit d < 32) (Hw : (0 < w)%nat).
Context (Hbound : zlen hs + 2 * Z.of_nat w < 2 ^ 32).

Lemma deployment_matches_signals {E} x :
  @deployment_matches E d (hd_version (ih_raw x)) = Ok (signals d x).
Proof.
  unfold deployment_matches, signals. destruct (_ =? _); [|done].
  rewrite (proj2 (Z.ltb_lt _ _)) by lia. cbn. f_equal.
  rewrite Z.shiftl_1_l, wrap_uint by (split; [lia|apply Z.pow_lt_mono_r; lia]).
  rewrite land_pow2 by lia. destruct (Z.testbit _ _); [|done].
  pose proof (Z.pow_pos_nonneg 2 (bit d)). by rewrite (proj2 (Z.eqb_neq _ _)) by lia.
Qed.

Lemma count_matching_filter {E} l : @count_matching E d l = Ok (zlen (List.filter (signals d) l)).
Proof.
  induction l as [|x l IH]; [done|]. cbn [count_matching List.filter].
  rewrite deployment_matches_signals. cbn [mbind outcome_bind]. rewrite IH. cbn [mbind outcome_bind].
  f_equal. destruct (signals d x); cbn [length]; lia.
Qed.

Lemma next_state_ref {E} s i x :
  hs !! i = Some x ->
  @next_state h d (Z.of_nat w) threshold E s (ref_median hs i) (Z.of_nat i) =
  Ok (if is_final s then None else Some (ref_next d w threshold s hs i)).
Proof.
  intros Hi. destruct s; cbn [next_state is_final ref_next]; try done.
  - by repeat destruct (_ <=? _).
  - destruct (_ <=? _); [done|]. unfold count_deployment_matches.
    rewrite (ancestors_number _ i x Hi), Nat2Z.id, count_matching_filter. cbn [mbind outcome_bind].
    unfold ref_count. by destruct (_ <=? _).
Qed.

Lemma ref_state_final k k' :
  is_final (ref_state d w threshold hs k) = true -> (k <= k')%nat ->
  ref_state d w threshold hs k' = ref_state d w threshold hs k.
Proof.
  intros Hf. induction 1 as [|k' _ IH]; [done|]. cbn [ref_state]. rewrite IH.
  by destruct (ref_state d w threshold hs k).
Qed.

(** One turn of the iterator at the end of period [k + 1]. *)
Lemma last_body_ref {E} k acc :
  (k <= length hs / w)%nat ->
  let it := mkIterator (Z.of_nat (S k * w - 1)) (ref_state d w threshold hs k) in
  @last_body h d (Z.of_nat w) threshold E (it, acc) =
  match hs !! (S k * w - 1)%nat with
  | Some x =>
      if is_final (ref_state d w threshold hs k) then inr (Ok acc)
      else
        let s := ref_state d w threshold hs (S k) in
        inl (mkIterator (Z.of_nat (S (S k) * w - 1)) s,
             Some (mkState (Z.of_nat (S k * w - 1)) (ih_hash x) s))
  | None => inr (Ok acc)
  end.
Proof.
  intros Hk it. unfold last_body, threshold_next, iterator_next, it. cbn [fst snd it_block it_last_state].
  assert (S k * w <= length hs + w)%nat as Hle.
  { pose proof (Nat.Div0.mul_div_le (length hs) w). nia. }
  rewrite ucheck_Ok by (unfold uint; change (2 ^ 32) with 4294967296 in *; lia). cbn [mbind outcome_bind].
  rewrite (provides_number h hs Hp). destruct (hs !! _) as [x|] eqn:Hx; cbn [fmap option_fmap option_map]; [|done].
  rewrite (median_ref _ x Hx). cbn [mbind outcome_bind]. rewrite (next_state_ref _ _ x Hx).
  cbn [mbind outcome_bind]. destruct (is_final _); [done|]. cbn [ref_state].
  do 3 f_equal. f_equal. lia.
Qed.

Abbreviation periods := (length hs / w)%nat.
Abbreviation state_after := (ref_state d w threshold hs).

Lemma period_end k : (k < periods)%nat -> exists x, hs !! (S k * w - 1)%nat = Some x.
Proof.
  intros Hk. apply lookup_lt_is_Some_2. pose proof (Nat.Div0.mul_div_le (length hs) w). nia.
Qed.

Lemma period_missing : hs !! (S periods * w - 1)%nat = None.
Proof. apply lookup_ge_None_2. pose proof (Nat.mul_succ_div_gt (length hs) w). nia. Qed.

(** The entry the iterator ends with: the last period, or the first final state. *)
Definition last_entry (k : nat) (acc acc' : option DeploymentState) : Prop :=
  (acc' = acc /\ (k = periods \/ is_final (state_after k) = true)) \/
  exists k' e, acc' = Some e /\ (k < k' <= periods)%nat /\ entry_at d w threshold hs k' e /\
    (k' = periods \/ is_final (state_after k') = true).

Lemma loop_ref {E} m k acc :
  (k <= periods)%nat -> (m = periods - k)%nat ->
  exists acc', last_entry k acc acc' /\
    loop (S m) (@last_body h d (Z.of_nat w) threshold E)
      (mkIterator (Z.of_nat (S k * w - 1)) (state_after k), acc) = inr (Ok acc').
Proof.
  revert k acc. induction m as [|m IH]; intros k acc Hk Hm; cbn [loop]; rewrite (last_body_ref k acc Hk).
  - assert (k = periods) as -> by lia. rewrite period_missing. exists acc. split; [|done]. left. auto.
  - destruct (period_end k) as [x Hx]; [lia|]. rewrite Hx.
    destruct (is_final (state_after k)) eqn:Hf; [exists acc; split; [left; auto|done]|].
    destruct (IH (S k) (Some (mkState (Z.of_nat (S k * w - 1)) (ih_hash x) (state_after (S k)))))
      as (acc' & Hacc & Hl); [lia..|].
    exists acc'. split; [|exact Hl]. right.
    destruct Hacc as [[-> Hend]|(k' & e & -> & Hk' & He & Hend)].
    + exists (S k), (mkState (Z.of_nat (S k * w - 1)) (ih_hash x) (state_after (S k))). split_and!; try done; try lia.
      split; [done|by exists x].
    + exists k', e. split_and!; try done; lia.
Qed.

Lemma threshold_last_ref {E} k :
  (k <= periods)%nat ->
  exists acc, last_entry k None acc /\
    @threshold_last h d (Z.of_nat w) threshold E (mkIterator (Z.of_nat (S k * w - 1)) (state_after k)) = Ok acc.
Proof.
  intros Hk. destruct (@loop_ref E (periods - k) k None Hk eq_refl) as (acc & Hacc & Hl).
  exists acc. split; [done|]. unfold threshold_last. erewrite run_result; [done|exact Hl|].
  pose proof (Nat.Div0.div_le_upper_bound (length hs) w (length hs)) as Hdiv.
  change (2 ^ Z.of_nat 32) with 4294967296. change (2 ^ 32) with 4294967296 in Hbound.
  assert (periods <= length hs)%nat by (apply Hdiv; nia). lia.
Qed.

#[local] Opaque threshold_last.

(** The height the state is looked up at: the end of the last complete period. *)
Lemma first_of_the_period_ref {E} :
  hs <> [] ->
  @first_of_the_period E (Z.max 0 (zlen hs - 1)) (Z.of_nat w) = Ok (Z.of_nat (periods * w - 1)).
Proof.
  intros Hne. assert (0 < length hs)%nat by (destruct hs; [done|simpl; lia]).
  change (2 ^ 32) with 4294967296 in Hbound.
  unfold first_of_the_period. rewrite (ucheck_Ok 32 (Z.of_nat w - 1)) by (unfold uint; change (2 ^ 32) with 4294967296; lia).
  cbn [mbind outcome_bind]. pose proof (Nat.div_mod_eq (length hs) w).
  pose proof (Nat.mod_upper_bound (length hs) w ltac:(lia)).
  destruct (Z.ltb_spec (Z.max 0 (zlen hs - 1)) (Z.of_nat w - 1)) as [Hlt|Hge].
  - rewrite (Nat.div_small (length hs) w) by lia. done.
  - rewrite ucheck_Ok by (unfold uint; change (2 ^ 32) with 4294967296; lia). cbn [mbind outcome_bind].
    replace (Z.max 0 (zlen hs - 1) + 1) with (zlen hs) by lia. rewrite <- Nat2Z.inj_mod.
    assert (1 <= periods)%nat by (apply Nat.div_le_lower_bound; lia).
    rewrite ucheck_Ok; [f_equal; nia|]. unfold uint. change (2 ^ 32) with 4294967296. nia.
Qed.

Lemma last_lookup : hs <> [] -> exists x, hs !! (periods * w - 1)%nat = Some x.
Proof.
  intros Hne. apply lookup_lt_is_Some_2. pose proof (Nat.Div0.mul_div_le (length hs) w).
  destruct hs; [done|]. simpl length in *. nia.
Qed.

Lemma final_or_last k e :
  entry_at d w threshold hs k e -> (k <= periods)%nat ->
  is_final (ds_state e) = true \/ k = periods -> ds_state e = state_after periods.
Proof.
  intros [Hs _] Hk [Hf| ->]; [|done]. rewrite Hs in *. symmetry. by apply ref_state_final.
Qed.

(** A cached entry of the period looked up belongs to it. *)
Lemma entry_matches k e x :
  hs <> [] -> entry_at d w threshold hs k e -> (k = O -> (1 < w)%nat) -> (k <= periods)%nat ->
  hs !! (periods * w - 1)%nat = Some x ->
  (ds_block_number e =? Z.of_nat (periods * w - 1)) && bool_decide (ds_block_hash e = ih_hash x) =
  (k =? periods)%nat.
Proof.
  intros Hne (_ & y & Hy & -> & ->) Hk0 Hk Hx. destruct (Nat.eqb_spec k periods) as [->|Hkp].
  - rewrite Z.eqb_refl. apply bool_decide_eq_true. congruence.
  - rewrite (proj2 (Z.eqb_neq _ _)); [done|]. destruct k; nia.
Qed.

(** An entry that answers for the last complete period. *)
Definition answers (k : nat) (e : DeploymentState) : Prop :=
  entry_at d w threshold hs k e /\ (k = O -> (1 < w)%nat) /\ (k <= periods)%nat /\
  (is_final (ds_state e) = true \/ k = periods).

Lemma answers_state k e : answers k e -> ds_state e = state_after periods.
Proof. intros (He & _ & Hk & Hend). by apply (final_or_last k). Qed.

Lemma answers_fresh k e cache :
  answers k e -> fresh d w threshold hs (<[name d := e]> cache).
Proof. intros (He & Hk0 & Hk & Hend). exists e, k. by rewrite lookup_insert_eq. Qed.

(** From the state of the period before. *)
Lemma advance_entry {E} k :
  (k + 1 = periods)%nat -> is_final (state_after k) = false ->
  exists e, answers periods e /\
    @threshold_last h d (Z.of_nat w) threshold E (mkIterator (Z.of_nat (periods * w - 1)) (state_after k)) =
      Ok (Some e).
Proof.
  intros Hk Hf. destruct (@threshold_last_ref E k) as (acc & Hacc & Hl); [lia|].
  replace periods with (S k) by lia. rewrite Hl.
  destruct Hacc as [[_ [Hend|Hend]]|(k' & e & -> & Hk' & He & Hend)]; [lia|congruence|].
  exists e. split; [|done]. assert (k' = S k) as -> by lia. replace periods with (S k) by lia.
  split_and!; [done|lia|lia|right; lia].
Qed.

(** From nothing. *)
Lemma scratch_entry {E} x :
  hs <> [] -> hs !! (periods * w - 1)%nat = Some x ->
  exists last k, answers k (default (mkState (Z.of_nat (periods * w - 1)) (ih_hash x) ThresholdDefined) last) /\
    @threshold_last h d (Z.of_nat w) threshold E (mkIterator (Z.of_nat w - 1) ThresholdDefined) = Ok last.
Proof.
  intros Hne Hx. destruct (@threshold_last_ref E 0) as (acc & Hacc & Hl); [lia|].
  replace (Z.of_nat w - 1) with (Z.of_nat (1 * w - 1)) by lia. cbn [ref_state] in Hl. rewrite Hl.
  destruct Hacc as [[-> [Hend|Hend]]|(k' & e & -> & Hk' & He & Hend)]; [|done|].
  - exists None, 0%nat. split; [|done]. unfold answers, entry_at. cbn [default ds_state ds_block_number ds_block_hash].
    rewrite <- Hend in *. split_and!; [done|by exists x| |lia|by right].
    intros _. pose proof (Nat.div_str_pos (length hs) w).
    assert (0 < length hs)%nat by (destruct hs; [done|simpl; lia]). lia.
  - exists (Some e), k'. split; [|done]. cbn [default from_option id]. unfold answers.
    split_and!; [done|lia|lia|]. rewrite (proj1 He). tauto.
Qed.

Lemma threshold_state_ref {E} cache :
  hs <> [] -> activation d = None -> coherent d w threshold hs cache ->
  exists cache', @threshold_state h E cache d (zlen hs) (Z.of_nat w) threshold =
      Ok (state_after periods, cache') /\
    fresh d w threshold hs cache' /\ forall n, n <> name d -> cache' !! n = cache !! n.
Proof.
  intros Hne Hact Hco. destruct (last_lookup Hne) as [x Hx].
  unfold threshold_state. rewrite Hact, (first_of_the_period_ref Hne), ok_bind.
  rewrite (provides_number h hs Hp), Hx. unfold coherent in Hco.
  destruct (cache !! name d) as [e|] eqn:Hc.
  - destruct Hco as (k & He & Hk0 & Hk & Hnear). rewrite (entry_matches k e x Hne He Hk0 Hk Hx).
    destruct (decide (is_final (ds_state e) = true \/ k = periods)) as [Hend|Hend].
    + exists cache. rewrite (final_or_last _ e He Hk Hend). split_and!; [|by exists e, k|done].
      destruct (k =? periods)%nat eqn:Hkp; [done|]. apply Nat.eqb_neq in Hkp.
      destruct Hend as [Hf|]; [|done]. rewrite <- (final_or_last _ e He Hk); [by rewrite Hf|by left].
    + rewrite (proj2 (Nat.eqb_neq k periods)) by tauto.
      destruct (is_final (ds_state e)) eqn:Hf; [tauto|]. rewrite (proj1 He) in Hf |- *.
      destruct (@advance_entry E k) as (e' & Ha & Hl); [destruct Hnear; [done|lia]|done|].
      rewrite Hl, ok_bind. cbn [expect]. rewrite ok_bind, (answers_state _ _ Ha). eexists.
      split_and!; [done|by eapply answers_fresh|]. intros n Hn. by rewrite lookup_insert_ne.
  - rewrite ucheck_Ok by (unfold uint; change (2 ^ 32) with 4294967296 in *; lia). rewrite ok_bind.
    destruct (@scratch_entry E x Hne Hx) as (last & k & Ha & Hl). rewrite Hl, ok_bind.
    rewrite (answers_state _ _ Ha). eexists. split_and!; [done|by eapply answers_fresh|].
    intros n Hn. by rewrite lookup_insert_ne.
Qed.

End chain.

(** ** Growth of the chain *)

Section growth.
Context (d : Deployment) (w : nat) (threshold : Z) (Hw : (0 < w)%nat).

Lemma below_app hs tl i : (i <= length hs)%nat -> below (hs ++ tl) i = below hs i.
Proof. intros Hi. unfold below. by rewrite take_app_le. Qed.

Lemma ref_state_app hs tl k :
  (k <= length hs / w)%nat -> ref_state d w threshold (hs ++ tl) k = ref_state d w threshold hs k.
Proof.
  induction k as [|k IH]; intros Hk; [done|]. cbn [ref_state]. rewrite IH by lia.
  pose proof (Nat.Div0.mul_div_le (length hs) w).
  unfold ref_next, ref_median, ref_count. by rewrite !below_app by nia.
Qed.

Lemma entry_at_app hs tl k e :
  (k <= length hs / w)%nat -> entry_at d w threshold hs k e -> entry_at d w threshold (hs ++ tl) k e.
Proof.
  intros Hk (Hs & x & Hx & Hn). split; [by rewrite ref_state_app|].
  exists x. split; [by apply lookup_app_l_Some|done].
Qed.

(** One more block ends at most one more period. *)
Lemma fresh_coherent hs x cache :
  fresh d w threshold hs cache -> coherent d w threshold (hs ++ [x]) cache.
Proof.
  intros (e & k & Hc & He & Hk0 & Hk & Hend). unfold coherent. rewrite Hc. exists k.
  rewrite length_app. cbn [length].
  assert (length hs / w <= (length hs + 1) / w <= length hs / w + 1)%nat as [Hlo Hhi].
  { split; [apply Nat.Div0.div_le_mono; lia|].
    rewrite <- Nat.div_add by lia. apply Nat.Div0.div_le_mono. lia. }
  split_and!; [by apply entry_at_app|done|lia|]. destruct Hend as [Hf| ->]; [by left|right; lia].
Qed.

End growth.

(** A deployment is active only after a period of enough signalling blocks that ended
    before the timeout. *)
Lemma locked_in_before d w threshold hs k :
  ref_state d w threshold hs k = LockedIn \/ ref_state d w threshold hs k = Active ->
  exists j, (1 < j <= k)%nat /\ threshold <= ref_count d w hs (j * w - 1) /\
    ref_median hs (j * w - 1) < timeout d /\
    (ref_state d w threshold hs k = Active -> (j < k)%nat).
Proof.
  induction k as [|k IH]; cbn [ref_state]; [by intros []|].
  destruct (ref_state d w threshold hs k) eqn:Hk; cbn [ref_next].
  - repeat destruct (_ <=? _); by intros [].
  - destruct (Z.leb_spec (timeout d) (ref_median hs (S k * w - 1))); [by intros []|].
    destruct (Z.leb_spec threshold (ref_count d w hs (S k * w - 1))); [|by intros []].
    intros _. exists (S k). split_and!; [|lia|done|done|done]. destruct k; [done|lia].
  - intros _. destruct IH as (j & Hj & Hc & Hm & _); [by left|]. exists j. split_and!; [lia..|done|done|lia].
  - intros _. destruct IH as (j & Hj & Hc & Hm & Hlt); [by right|]. exists j. split_and!; [lia..|done|done|lia].
  - by intros [].
Qed.

(** * Properties *)

(** C10: The cached computation refines the reference, for a deployment without a fixed
    height of activation: for the block after the chain [hs], an up-to-date cache gives the state of the state machine run over the whole chain,
    and leaves a cache that is up to date for the next block, whatever it is. *)
Theorem threshold_state_refines {E} h hs d w threshold cache :
  provides h hs -> hs <> [] -> activation d = None -> 0 <= bit d < 32 -> (0 < w)%nat ->
  zlen hs + 2 * Z.of_nat w < 2 ^ 32 -> coherent d w threshold hs cache ->
  exists cache', @threshold_state h E cache d (zlen hs) (Z.of_nat w) threshold =
      Ok (ref_state d w threshold hs (length hs / w), cache') /\
    (forall x, coherent d w threshold (hs ++ [x]) cache') /\
    (forall n, n <> name d -> cache' !! n = cache !! n).
Proof.
  intros Hp Hne Hact Hbit Hw Hbound Hco.
  destruct (@threshold_state_ref h hs Hp d w threshold Hbit Hw Hbound E cache Hne Hact Hco)
    as (cache' & Hr & Hf & Hother).
  exists cache'. split_and!; [done| |done]. intros x. by apply fresh_coherent.
Qed.

(** A deployment becomes active only if, at least one period earlier, a period ended
    before the timeout with the threshold of signalling blocks among its [w] blocks;
    and an active or failed deployment stays so. *)
Theorem active_after_threshold d w threshold hs k :
  (ref_state d w threshold hs k = Active ->
   exists j, (1 < j < k)%nat /\ threshold <= ref_count d w hs (j * w - 1) /\
     ref_median hs (j * w - 1) < timeout d) /\
  (is_final (ref_state d w threshold hs k) = true ->
   forall k', (k <= k')%nat -> ref_state d w threshold hs k' = ref_state d w threshold hs k).
Proof.
  split.
  - intros Ha. destruct (locked_in_before d w threshold hs k (or_intror Ha)) as (j & Hj & Hc & Hm & Hlt).
    exists j. split_and!; [lia|specialize (Hlt Ha); lia|done|done].
  - intros Hf k' Hk. by apply ref_state_final.
Qed.

(** ** A reorganization *)

Section reorganization.

(** A chain as a store, by height and by hash. *)
Definition list_provider (hs : list IndexedBlockHeader) : BlockHeaderProvider :=
  fun r => match r with
           | Number n => hs !! Z.to_nat n
           | Hash x => List.find (fun y => bool_decide (ih_hash y = x)) hs
           end.

(** A signalling header with the given hash and parent. *)
Definition signalling (hash parent : Z) : IndexedBlockHeader :=
  mkIndexedHeader (le_bytes 32 hash) (mkHeader 0x20000001 (le_bytes 32 parent) zero_hash (1000 + hash) 0 0).

Definition branch_a : list IndexedBlockHeader :=
  [signalling 1 0; signalling 2 1; signalling 3 2; signalling 4 3].
Definition branch_b : list IndexedBlockHeader :=
  [signalling 1 0; signalling 2 1; signalling 13 2; signalling 14 13].

Definition example_deployment : Deployment := mkDeployment "example" 0 0 u32_max None.

End reorganization.

(** After the state was computed on one branch, a competing branch of the same height
    continues from that branch's state instead of the state of the previous period:
    with two periods of two signalling blocks the deployment is locked in on either
    branch, but reported active on the second. *)
Theorem threshold_state_reorganization {E} :
  ('(state_a, cache) ← @threshold_state (list_provider branch_a) E ∅ example_deployment 4 2 2;
   '(state_b, _) ← @threshold_state (list_provider branch_b) E cache example_deployment 4 2 2;
   Ok (state_a, state_b)) = Ok (LockedIn, Active) /\
  ref_state example_deployment 2 2 branch_a 2 = LockedIn /\
  ref_state example_deployment 2 2 branch_b 2 = LockedIn.
Proof. split_and!; vm_compute; reflexivity. Qed.

Lemma provides_branch_a : provides (list_provider branch_a) branch_a.
Proof.
  split.
  - intros i. cbn [block_header_of list_provider]. unfold block_header_of, list_provider. by rewrite Nat2Z.id.
  - intros [|[|[|[|i]]]] x [= <-]; vm_compute; reflexivity.
  - intros [|[|[|[|i]]]] x y [= <-] [= <-]; vm_compute; reflexivity.
  - intros x [= <-]. vm_compute. reflexivity.
Qed.

Lemma threshold_state_refines_witness :
  exists cache, @threshold_state (list_provider branch_a) unit ∅ example_deployment 4 2 2 = Ok (LockedIn, cache).
Proof.
  destruct (@threshold_state_refines unit (list_provider branch_a) branch_a example_deployment 2 2 ∅)
    as (cache & Hr & _).
  - exact provides_branch_a.
  - discriminate.
  - reflexivity.
  - split; [discriminate|reflexivity].
  - lia.
  - reflexivity.
  - exact I.
  - exists cache. exact Hr.
Defined.

Lemma active_after_threshold_witness :
  let long := branch_a ++ [signalling 5 4; signalling 6 5] in
  ref_state example_deployment 2 2 long 3 = Active /\
  exists j, (1 < j < 3)%nat /\ 2 <= ref_count example_deployment 2 long (j * 2 - 1).
Proof.
  split; [vm_compute; reflexivity|].
  destruct (proj1 (active_after_threshold example_deployment 2 2 (branch_a ++ [signalling 5 4; signalling 6 5]) 3))
    as (j & Hj & Hc & _); [vm_compute; reflexivity|].
  exists j. split; [exact Hj|exact Hc].
Defined.

End Deployments.
