(* ===== verification/Verify.v ===== *)
(** Verification that needs no stored chain (src/verification/src): the errors of
    error.rs, the signature-operation counts of sigops.rs, and the checks of
    verify_block.rs, verify_header.rs, verify_transaction.rs and verify_chain.rs. *)
From Stdlib Require Import ZArith Lia Strings.Byte.
From stdpp Require Import base decidable numbers countable gmap strings list.
From S2P Require Import Prelude Opcode Script Crypto Serialization Chain ChainHash U256 Compact Network Work Storage.

Local Open Scope Z_scope.

(** * Errors *)

Module TransactionError.
Inductive TransactionError :=
| Empty
| NullNonCoinbase
| CoinbaseSignatureLength (n : Z)
| MaxSize
| MinSize
| MaxSigops
| MemoryPoolCoinbase
| Input (index : Z)
| Maturity
| Signature (index : Z) (e : Error.Error)
| UnknownReference (hash : bytes)
| Overspend
| SignatureMallformed (msg : string)
| Sigops (n : Z)
| SigopsP2SH (n : Z)
| MisplacedCoinbase
| UnspentTransactionWithTheSameHash
| UsingSpentOutput (hash : bytes) (index : Z)
| ReturnReplayProtection
| PrematureWitness.
End TransactionError.

Module VerificationError.
Inductive Error :=
| Duplicate
| DuplicatedTransactions
| Empty
| Pow
| FuturisticTimestamp
| Timestamp
| Coinbase
| Transaction (index : Z) (e : TransactionError.TransactionError)
| Difficulty (expected actual : Z)
| MerkleRoot
| CoinbaseOverspend (expected_max actual : Z)
| CoinbaseScript
| MaximumSigops
| MaximumSigopsCost
| CoinbaseSignatureLength (n : Z)
| Size (size : Z)
| Weight
| NonFinalBlock
| OldVersionBlock
| TransactionFeeAndRewardOverflow
| TransactionFeesOverflow
| ReferencedInputsSumOverflow
| WitnessInvalidNonceSize
| WitnessMerkleCommitmentMismatch
| UnexpectedWitness
| NonCanonicalTransactionOrdering
| Database (e : Storage.StorageError).
End VerificationError.

Module Verify.
Import Chain ChainHash Compact Network Work Storage.

Abbreviation TxError := TransactionError.TransactionError.
Abbreviation Error := VerificationError.Error.

(** * Iterators *)

(** [iter.map(f).sum::<usize>()]. *)
Fixpoint sum_map {E A} (f : A -> outcome E Z) (l : list A) (acc : Z) : outcome E Z :=
  match l with
  | [] => Ok acc
  | x :: rest => n ← f x; acc ← ucheck 64 (acc + n); sum_map f rest acc
  end.

(** [iter.position(f)]. *)
Fixpoint position {A} (f : A -> bool) (l : list A) : option nat :=
  match l with
  | [] => None
  | x :: rest => if f x then Some O else S <$> position f rest
  end.

(** * Signature operations (sigops.rs) *)

(** The loop over the inputs; the two counters start at zero. *)
Fixpoint input_sigops_loop {E} (ins : list TransactionInput) (store : TransactionOutputProvider)
    (bip16_active checkdatasig_active : bool) (input_sigops bip16_sigops : Z) : outcome E (Z * Z) :=
  match ins with
  | [] => Ok (input_sigops, bip16_sigops)
  | input :: rest =>
      n ← Script.sigops_count (script_sig input) checkdatasig_active false;
      input_sigops ← ucheck 64 (input_sigops + n);
      bip16_sigops ←
        (if bip16_active then
           match transaction_output store (previous_output input) usize_max with
           | Some o =>
               m ← Script.pay_to_script_hash_sigops (script_sig input) checkdatasig_active (script_pubkey o);
               ucheck 64 (bip16_sigops + m)
           | None => Ok bip16_sigops
           end
         else Ok bip16_sigops);
      input_sigops_loop rest store bip16_active checkdatasig_active input_sigops bip16_sigops
  end.

Definition transaction_sigops {E} (tx : Transaction) (store : TransactionOutputProvider)
    (bip16_active checkdatasig_active : bool) : outcome E Z :=
  output_sigops ← sum_map (fun o => Script.sigops_count (script_pubkey o) checkdatasig_active false)
                    (outputs tx) 0;
  if is_coinbase tx then Ok output_sigops else
  '(input_sigops, bip16_sigops) ← input_sigops_loop (inputs tx) store bip16_active checkdatasig_active 0 0;
  n ← ucheck 64 (input_sigops + output_sigops);
  ucheck 64 (n + bip16_sigops).

Definition witness_program_sigops {E} (witness_version : Z) (witness_program : bytes)
    (script_witness : list bytes) : outcome E Z :=
  if (witness_version =? 0) && (zlen witness_program =? 20) then Ok 1
  else if (witness_version =? 0) && (zlen witness_program =? 32) then
    match last script_witness with
    | Some subscript => Script.sigops_count subscript false true
    | None => Ok 0
    end
  else Ok 0.

Definition witness_sigops {E} (script_sig script_pubkey : bytes) (script_witness : list bytes)
    : outcome E Z :=
  match Script.parse_witness_program script_pubkey with
  | Some (witness_version, witness_program) =>
      witness_program_sigops witness_version witness_program script_witness
  | None =>
      push_only ← (if Script.is_pay_to_script_hash script_pubkey then Script.is_push_only script_sig
                   else Ok false);
      if push_only : bool then
        lst ← Script.iter_last_loop (S (length script_sig)) script_sig 0 None;
        match lst ≫= Script.data with
        | Some data =>
            match Script.parse_witness_program data with
            | Some (witness_version, witness_program) =>
                witness_program_sigops witness_version witness_program script_witness
            | None => Ok 0
            end
        | None => Ok 0
        end
      else Ok 0
  end.

Definition transaction_sigops_cost {E} (tx : Transaction) (store : TransactionOutputProvider) (sigops : Z)
    : outcome E Z :=
  sigops_cost ← ucheck 64 (sigops * witness_scale_factor);
  witness_sigops_cost ←
    sum_map (fun input =>
      match transaction_output store (previous_output input) usize_max with
      | Some output => witness_sigops (script_sig input) (script_pubkey output) (script_witness input)
      | None => Ok 0
      end) (inputs tx) 0;
  ucheck 64 (sigops_cost + witness_sigops_cost).

(** * Transactions (verify_transaction.rs) *)

Definition TransactionEmpty_check (tx : IndexedTransaction) : outcome TxError unit :=
  fail_if (is_empty (itx_raw tx)) TransactionError.Empty.

Definition TransactionNullNonCoinbase_check (tx : IndexedTransaction) : outcome TxError unit :=
  fail_if (negb (is_coinbase (itx_raw tx)) && is_null (itx_raw tx)) TransactionError.NullNonCoinbase.

(** The range [MIN_COINBASE_SIZE..MAX_COINBASE_SIZE]; its end is allowed. *)
Definition TransactionOversizedCoinbase_check (tx : IndexedTransaction) : outcome TxError unit :=
  if is_coinbase (itx_raw tx) then
    i ← index (inputs (itx_raw tx)) 0;
    let script_len := zlen (script_sig i) in
    fail_if ((script_len <? MIN_COINBASE_SIZE) || (MAX_COINBASE_SIZE <? script_len))
      (TransactionError.CoinbaseSignatureLength script_len)
  else Ok tt.

Definition TransactionVerifier_check (tx : IndexedTransaction) : outcome TxError unit :=
  _ ← TransactionEmpty_check tx;
  _ ← TransactionNullNonCoinbase_check tx;
  _ ← TransactionOversizedCoinbase_check tx;
  Ok tt.

Definition TransactionMemoryPoolCoinbase_check (tx : IndexedTransaction) : outcome TxError unit :=
  fail_if (is_coinbase (itx_raw tx)) TransactionError.MemoryPoolCoinbase.

Definition TransactionSize_check (tx : IndexedTransaction) : outcome TxError unit :=
  fail_if (max_transaction_size <? Ser.serialized_size transaction_codec (itx_raw tx)) TransactionError.MaxSize.

Definition TransactionSigops_check (tx : IndexedTransaction) (max_sigops : Z) : outcome TxError unit :=
  sigops ← transaction_sigops (itx_raw tx) NoopStore false false;
  fail_if (max_sigops <? sigops) TransactionError.MaxSigops.

Definition TransactionPrematureWitness_check (tx : IndexedTransaction) (segwit_active : bool)
    : outcome TxError unit :=
  fail_if (negb segwit_active && has_witness (itx_raw tx)) TransactionError.PrematureWitness.

Definition MemoryPoolTransactionVerifier_check (tx : IndexedTransaction) (segwit_active : bool)
    : outcome TxError unit :=
  _ ← TransactionEmpty_check tx;
  _ ← TransactionNullNonCoinbase_check tx;
  _ ← TransactionMemoryPoolCoinbase_check tx;
  _ ← TransactionSize_check tx;
  _ ← TransactionPrematureWitness_check tx segwit_active;
  _ ← TransactionSigops_check tx absolute_maximum_block_sigops;
  Ok tt.

(** * Blocks (verify_block.rs) *)

Section block.
Context `{Crypto}.

Definition BlockEmpty_check (block : IndexedBlock) : outcome Error unit :=
  fail_if (bool_decide (ib_transactions block = [])) VerificationError.Empty.

Definition BlockSerializedSize_check (block : IndexedBlock) (max_size : Z) : outcome Error unit :=
  let size := block_size block in
  fail_if (max_size <? size) (VerificationError.Size size).

Definition BlockCoinbase_check (block : IndexedBlock) : outcome Error unit :=
  match ib_transactions block with
  | tx :: _ => if is_coinbase (itx_raw tx) then Ok tt else Err VerificationError.Coinbase
  | [] => Err VerificationError.Coinbase
  end.

Definition BlockExtraCoinbases_check (block : IndexedBlock) : outcome Error unit :=
  match position (fun tx => is_coinbase (itx_raw tx)) (drop 1 (ib_transactions block)) with
  | Some i => Err (VerificationError.Transaction (Z.of_nat (i + 1)) TransactionError.MisplacedCoinbase)
  | None => Ok tt
  end.

Definition BlockTransactionsUniqueness_check (block : IndexedBlock) : outcome Error unit :=
  let hashes : gset bytes := list_to_set (map itx_hash (ib_transactions block)) in
  if (size hashes =? length (ib_transactions block))%nat then Ok tt
  else Err VerificationError.DuplicatedTransactions.

Definition BlockSigops_check (block : IndexedBlock) (max_sigops : Z) : outcome Error unit :=
  sigops ← sum_map (fun tx => transaction_sigops (itx_raw tx) NoopStore false false) (ib_transactions block) 0;
  fail_if (max_sigops <? sigops) VerificationError.MaximumSigops.

Definition BlockMerkleRoot_check (block : IndexedBlock) : outcome Error unit :=
  root ← block_merkle_root block;
  fail_if (negb (bool_decide (root = merkle_root_hash (ih_raw (ib_header block))))) VerificationError.MerkleRoot.

Definition BlockVerifier_check (block : IndexedBlock) : outcome Error unit :=
  _ ← BlockEmpty_check block;
  _ ← BlockCoinbase_check block;
  _ ← BlockSerializedSize_check block absolute_maximum_block_size;
  _ ← BlockExtraCoinbases_check block;
  _ ← BlockTransactionsUniqueness_check block;
  _ ← BlockSigops_check block absolute_maximum_block_sigops;
  _ ← BlockMerkleRoot_check block;
  Ok tt.

End block.

(** * Headers (verify_header.rs) *)

Section header.
Context `{U256}.

Definition HeaderProofOfWork_check (header : IndexedBlockHeader) (net : Network) : outcome Error unit :=
  max ← max_bits net;
  max_work_bits ← from_u256 max;
  if is_valid_proof_of_work max_work_bits (bits (ih_raw header)) (ih_hash header) then Ok tt
  else Err VerificationError.Pow.

Definition HeaderTimestamp_check (header : IndexedBlockHeader) (current_time max_future : Z)
    : outcome Error unit :=
  limit ← ucheck 32 (current_time + max_future);
  fail_if (limit <? time (ih_raw header)) VerificationError.FuturisticTimestamp.

Definition HeaderVerifier_check (header : IndexedBlockHeader) (net : Network) (current_time : Z)
    : outcome Error unit :=
  _ ← HeaderProofOfWork_check header net;
  _ ← HeaderTimestamp_check header current_time BLOCK_MAX_FUTURE;
  Ok tt.

End header.

(** * The parallel check of the transactions *)

(** How rayon cuts the transactions into pieces that threads work on. *)
Class Rayon := par_split : forall A, list A -> list (list A).
Class RayonLaws (R : Rayon) := par_concat A (l : list A) : concat (par_split A l) = l.

(** [fold]: after an error the rest of the piece is skipped. *)
Fixpoint fold_checks {A} (check : A -> outcome TxError unit) (piece : list (nat * A)) : outcome Error unit :=
  match piece with
  | [] => Ok tt
  | (i, tx) :: rest =>
      _ ← map_err (VerificationError.Transaction (Z.of_nat i)) (check tx);
      fold_checks check rest
  end.

(** [acc.and(check)]; a panic in any piece is carried over once all pieces are done. *)
Definition and_result (acc check : outcome Error unit) : outcome Error unit :=
  match acc, check with
  | Diverge, _ | _, Diverge => Diverge
  | Panic, _ | _, Panic => Panic
  | Err e, _ => Err e
  | Ok _, r => r
  end.

Definition check_transactions `{Rayon} {A} (check : A -> outcome TxError unit) (transactions : list A)
    : outcome Error unit :=
  foldr and_result (Ok tt) (map (fold_checks check) (par_split _ (imap pair transactions))).

Definition ChainVerifier_check `{Crypto} `{U256} `{Rayon} (block : IndexedBlock) (net : Network)
    (current_time : Z) : outcome Error unit :=
  _ ← BlockVerifier_check block;
  _ ← HeaderVerifier_check (ib_header block) net current_time;
  _ ← check_transactions TransactionVerifier_check (ib_transactions block);
  Ok tt.

(** * Lemmas *)

Lemma fail_if_Ok_tt {E} b (e : E) : fail_if b e = Ok tt <-> b = false.
Proof. by destruct b. Qed.

Lemma bind_unit_Ok {E} (m k : outcome E unit) : (_ ← m; k) = Ok tt <-> m = Ok tt /\ k = Ok tt.
Proof. destruct m as [[]| | |]; cbn; split; intros; destruct_and?; done. Qed.

Lemma position_None {A} (f : A -> bool) l : position f l = None <-> Forall (fun x => f x = false) l.
Proof.
  induction l as [|x l IH]; cbn; [by split|]. rewrite Forall_cons. destruct (f x); [by split; [|intros []]|].
  destruct (position f l); cbn; [|tauto]. split; [done|]. intros [_ H%IH]. done.
Qed.

Lemma position_Some {A} (f : A -> bool) l i :
  position f l = Some i -> exists x, l !! i = Some x /\ f x = true /\ Forall (fun y => f y = false) (take i l).
Proof.
  revert i. induction l as [|x l IH]; intros i; cbn; [done|]. destruct (f x) eqn:Hx.
  - intros [= <-]. by exists x.
  - destruct (position f l) as [j|]; cbn; [|done]. intros [= <-].
    destruct (IH j eq_refl) as (y & Hy & Hf & Hall). exists y. split_and!; [done..|]. by constructor.
Qed.

(** ** The parallel fold *)

Section parallel.
Context {A : Type} (check : A -> outcome TxError unit).

Lemma fold_checks_app l l' :
  fold_checks check (l ++ l') = (_ ← fold_checks check l; fold_checks check l').
Proof.
  induction l as [|[i x] l IH]; [done|]. cbn [fold_checks app].
  destruct (check x) as [[]| | |]; cbn [map_err mbind outcome_bind]; [exact IH|done..].
Qed.

Lemma fold_checks_Ok l : fold_checks check l = Ok tt <-> Forall (fun p => check p.2 = Ok tt) l.
Proof.
  induction l as [|[i x] l IH]; cbn [fold_checks]; [by split|]. rewrite bind_unit_Ok, IH, Forall_cons. cbn.
  destruct (check x) as [[]| | |]; cbn; split; intros; destruct_and?; done.
Qed.

Lemma fold_checks_returns l :
  Forall (fun p => returns (check p.2)) l -> returns (fold_checks check l).
Proof.
  induction 1 as [|[i x] l Hx _ IH]; [done|]. cbn [fold_checks snd] in *.
  destruct (check x) as [[]| | |]; cbn; done.
Qed.

Lemma and_result_Ok a b : and_result a b = Ok tt <-> a = Ok tt /\ b = Ok tt.
Proof. destruct a as [[]| | |], b as [[]| | |]; cbn; split; intros; destruct_and?; done. Qed.

Lemma and_result_returns a b : returns a -> returns b -> and_result a b = (_ ← a; b).
Proof. by destruct a as [[]| | |], b as [[]| | |]. Qed.

Lemma fold_pieces_Ok pieces :
  foldr and_result (Ok tt) (map (fold_checks check) pieces) = Ok tt <-> fold_checks check (concat pieces) = Ok tt.
Proof.
  induction pieces as [|p ps IH]; [done|]. cbn [map foldr concat].
  by rewrite and_result_Ok, IH, fold_checks_app, bind_unit_Ok.
Qed.

Lemma fold_pieces pieces :
  Forall (fun p => returns (check p.2)) (concat pieces) ->
  foldr and_result (Ok tt) (map (fold_checks check) pieces) = fold_checks check (concat pieces).
Proof.
  induction pieces as [|p ps IH]; [done|]. cbn [map foldr concat]. rewrite Forall_app. intros [Hp Hps].
  rewrite fold_checks_app, IH, and_result_returns by auto using fold_checks_returns. done.
Qed.

End parallel.

Lemma imap_pair_snd {A} (l : list A) : (imap pair l).*2 = l.
Proof. apply list_eq. intros i. rewrite list_lookup_fmap, list_lookup_imap. by destruct (l !! i). Qed.

Lemma Forall_imap_snd {A} (P : A -> Prop) (l : list A) :
  Forall (fun p : nat * A => P p.2) (imap pair l) <-> Forall P l.
Proof. rewrite <- (imap_pair_snd l) at 2. by rewrite Forall_fmap. Qed.

Lemma check_transactions_Ok `{RayonLaws} {A} (check : A -> outcome TxError unit) l :
  check_transactions check l = Ok tt <-> Forall (fun x => check x = Ok tt) l.
Proof.
  unfold check_transactions. rewrite fold_pieces_Ok, par_concat, fold_checks_Ok.
  apply (Forall_imap_snd (fun x => check x = Ok tt)).
Qed.

(** ** Blocks *)

Lemma size_list_to_set_le (l : list bytes) : (size (list_to_set l : gset bytes) <= length l)%nat.
Proof.
  induction l as [|x l IH]; cbn; [by rewrite size_empty|]. rewrite size_union_alt, size_singleton.
  assert (size (list_to_set l ∖ {[x]} : gset bytes) <= size (list_to_set l : gset bytes))%nat; [|lia].
  apply subseteq_size. set_solver.
Qed.

Lemma uniqueness_NoDup (l : list bytes) :
  size (list_to_set l : gset bytes) = length l <-> NoDup l.
Proof.
  split; [|apply size_list_to_set].
  induction l as [|x l IH]; cbn [list_to_set length]; [constructor|]. intros Hs.
  pose proof (size_list_to_set_le l) as Hle. destruct (decide (x ∈ l)) as [Hx|Hx].
  - assert ({[x]} ∪ list_to_set l = (list_to_set l : gset bytes)) as E by set_solver.
    rewrite E in Hs. lia.
  - constructor; [done|]. apply IH. rewrite size_union in Hs by set_solver.
    rewrite size_singleton in Hs. lia.
Qed.

(** ** Bounds on signature operations *)

Definition sumZ {A} (g : A -> Z) (l : list A) : Z := foldr Z.add 0 (map g l).

Lemma sumZ_nonneg {A} (g : A -> Z) l : (forall x, 0 <= g x) -> 0 <= sumZ g l.
Proof. intros Hg. induction l as [|x l IH]; cbn; [done|]. specialize (Hg x). unfold sumZ in IH. lia. Qed.

Lemma sum_map_bound {E A} (f : A -> outcome E Z) (g : A -> Z) l acc :
  (forall x, 0 <= g x) -> Forall (fun x => exists n, f x = Ok n /\ 0 <= n <= g x) l ->
  0 <= acc -> acc + sumZ g l < 2 ^ 64 ->
  exists n, sum_map f l acc = Ok n /\ acc <= n <= acc + sumZ g l.
Proof.
  intros Hg Hf. revert acc. induction Hf as [|x l (n & Hn & Hb) _ IH]; intros acc Ha Hs.
  - exists acc. cbn. split; [done|lia].
  - unfold sumZ in *. cbn [map foldr] in *. cbn [sum_map]. rewrite Hn, ok_bind.
    pose proof (sumZ_nonneg g l Hg) as Hpos. unfold sumZ in Hpos.
    rewrite ucheck_Ok, ok_bind by (unfold uint; lia).
    destruct (IH (acc + n)) as (m & Hm & Hr); [lia..|]. exists m. split; [done|lia].
Qed.

Lemma sigops_count_bound {E} script cds :
  zlen script < 2 ^ 59 -> exists n, @Script.sigops_count E script cds false = Ok n /\ 0 <= n <= 20 * zlen script.
Proof.
  intros Hl. unfold Script.sigops_count.
  destruct (@Script.sigops_loop_bounds E cds false script (S (length script)) 0 OP_0 0) as (m & Hm & Hb); [lia..|].
  exists m. split; [done|lia].
Qed.

(** The bytes of a transaction's own scripts. *)
Definition input_bytes (i : TransactionInput) : Z := zlen (script_sig i).
Definition output_bytes (o : TransactionOutput) : Z := zlen (script_pubkey o).
Definition script_bytes (tx : Transaction) : Z :=
  sumZ input_bytes (inputs tx) + sumZ output_bytes (outputs tx).

Lemma sumZ_elem {A} (g : A -> Z) l x : (forall y, 0 <= g y) -> x ∈ l -> g x <= sumZ g l.
Proof.
  intros Hg. induction 1 as [x l|x y l _ IH]; unfold sumZ in *; cbn.
  - pose proof (sumZ_nonneg g l Hg) as Hp. unfold sumZ in Hp. lia.
  - specialize (Hg y). lia.
Qed.

Lemma sumZ_scale {A} (g : A -> Z) k l : sumZ (fun x => k * g x) l = k * sumZ g l.
Proof. unfold sumZ. induction l as [|x l IH]; cbn; [lia|]. rewrite IH. lia. Qed.

Lemma script_bytes_nonneg tx : 0 <= script_bytes tx.
Proof. unfold script_bytes. pose proof (sumZ_nonneg input_bytes (inputs tx) ltac:(unfold input_bytes; lia)).
  pose proof (sumZ_nonneg output_bytes (outputs tx) ltac:(unfold output_bytes; lia)). lia. Qed.

(** Without previous outputs the input loop is a sum. *)
Lemma input_sigops_loop_bound {E} ins store cds acc :
  0 <= acc -> sumZ input_bytes ins < 2 ^ 59 -> acc + 20 * sumZ input_bytes ins < 2 ^ 64 ->
  exists n, @input_sigops_loop E ins store false cds acc 0 = Ok (n, 0) /\
    acc <= n <= acc + 20 * sumZ input_bytes ins.
Proof.
  revert acc. induction ins as [|i ins IH]; intros acc Ha Hl Hs; cbn [input_sigops_loop].
  - exists acc. cbn. split; [done|lia].
  - unfold sumZ in *. cbn [map foldr] in *.
    pose proof (sumZ_nonneg input_bytes ins ltac:(unfold input_bytes; lia)) as Hp. unfold sumZ in Hp.
    unfold input_bytes in Hl, Hs at 1. fold input_bytes in *.
    destruct (@sigops_count_bound E (script_sig i) cds) as (n & Hn & Hb); [lia|].
    rewrite Hn, ok_bind, ucheck_Ok, ok_bind by (unfold uint; lia). rewrite ok_bind.
    destruct (IH (acc + n)) as (m & Hm & Hr); [lia..|]. exists m. split; [done|]. unfold input_bytes at 1. lia.
Qed.

Lemma output_sigops_bound {E} tx cds :
  script_bytes tx < 2 ^ 59 ->
  exists n, sum_map (fun o => @Script.sigops_count E (script_pubkey o) cds false) (outputs tx) 0 = Ok n /\
    0 <= n <= 20 * sumZ output_bytes (outputs tx).
Proof.
  intros Hl. unfold script_bytes in *.
  pose proof (sumZ_nonneg input_bytes (inputs tx) ltac:(unfold input_bytes; lia)) as Hi.
  destruct (@sum_map_bound E _ (fun o => Script.sigops_count (script_pubkey o) cds false)
    (fun o => 20 * output_bytes o) (outputs tx) 0) as (n & Hn & Hb).
  - intros o. unfold output_bytes. lia.
  - apply Forall_forall. intros o Hin. apply sigops_count_bound.
    pose proof (sumZ_elem output_bytes (outputs tx) o ltac:(unfold output_bytes; lia) Hin) as He.
    unfold output_bytes in He at 1. lia.
  - done.
  - rewrite sumZ_scale. lia.
  - rewrite sumZ_scale in Hb. exists n. split; [done|lia].
Qed.

Lemma transaction_sigops_bound {E} tx cds :
  script_bytes tx < 2 ^ 59 ->
  exists n, @transaction_sigops E tx NoopStore false cds = Ok n /\ 0 <= n <= 20 * script_bytes tx.
Proof.
  intros Hl. destruct (@output_sigops_bound E tx cds Hl) as (n & Hn & Hb). unfold script_bytes in *.
  pose proof (sumZ_nonneg output_bytes (outputs tx) ltac:(unfold output_bytes; lia)) as Ho.
  unfold transaction_sigops. rewrite Hn, ok_bind.
  pose proof (sumZ_nonneg input_bytes (inputs tx) ltac:(unfold input_bytes; lia)) as Hi.
  destruct (is_coinbase tx); [exists n; split; [done|lia]|].
  destruct (@input_sigops_loop_bound E (inputs tx) NoopStore cds 0) as (m & Hm & Hmb); [lia..|].
  rewrite Hm, ok_bind, ucheck_Ok, ok_bind, ucheck_Ok by (unfold uint; lia).
  exists (m + n + 0). split; [done|lia].
Qed.

Lemma returns_then {E} (m k : outcome E unit) : returns m -> returns k -> returns (_ ← m; k).
Proof. destruct m as [[]| | |]; done. Qed.

Lemma merkle_root_returns `{Crypto} {E} hashes : hashes <> [] -> exists r, @merkle_root _ E hashes = Ok r.
Proof.
  intros Hne. by apply merkle_root_fuel_total.
Qed.

Lemma block_verifier_returns `{Crypto} block :
  sumZ (fun tx => script_bytes (itx_raw tx)) (ib_transactions block) < 2 ^ 59 ->
  returns (BlockVerifier_check block).
Proof.
  intros Hs. unfold BlockVerifier_check, BlockEmpty_check, BlockCoinbase_check, BlockExtraCoinbases_check,
    BlockTransactionsUniqueness_check, BlockSigops_check, BlockMerkleRoot_check, block_merkle_root.
  destruct (ib_transactions block) as [|cb rest] eqn:Htx; [done|].
  repeat apply returns_then; try apply returns_fail_if.
  - by destruct (is_coinbase _).
  - by destruct (position _ _).
  - by destruct (_ =? _)%nat.
  - pose proof (fun x : IndexedTransaction => script_bytes_nonneg (itx_raw x)) as Hpos.
    destruct (@sum_map_bound Error _ (fun tx => transaction_sigops (itx_raw tx) NoopStore false false)
      (fun tx => 20 * script_bytes (itx_raw tx)) (cb :: rest) 0) as (n & -> & _).
    + intros x. specialize (Hpos x). lia.
    + apply Forall_forall. intros x Hx. apply transaction_sigops_bound.
      pose proof (sumZ_elem (fun tx => script_bytes (itx_raw tx)) _ x Hpos Hx) as He. cbn beta in He. lia.
    + done.
    + rewrite sumZ_scale. lia.
    + apply returns_fail_if.
  - destruct (@merkle_root_returns _ Error (map itx_hash (cb :: rest))) as (r & ->); [done|]. apply returns_fail_if.
  - done.
Qed.

Lemma header_verifier_returns `{U256Laws} header net current_time :
  0 <= current_time -> current_time + BLOCK_MAX_FUTURE < 2 ^ 32 ->
  returns (HeaderVerifier_check header net current_time).
Proof.
  intros H0 Ht. unfold HeaderVerifier_check, HeaderProofOfWork_check, HeaderTimestamp_check.
  assert (exists m, @max_bits _ Error net = Ok m) as (m & ->).
  { destruct net; cbn [max_bits]; try (by eexists).
    unfold max_value. destruct (@from_u256_form _ _ Error u256_max_value) as (? & ? & -> & _). by eexists. }
  rewrite ok_bind. destruct (@from_u256_form _ _ Error m) as (? & ? & -> & _). rewrite ok_bind.
  rewrite ucheck_Ok by (unfold uint, BLOCK_MAX_FUTURE in *; lia).
  apply returns_then; [by destruct (is_valid_proof_of_work _ _ _)|]. rewrite ok_bind.
  apply returns_then; [apply returns_fail_if|done].
Qed.

Lemma transaction_verifier_returns tx : returns (TransactionVerifier_check tx).
Proof.
  unfold TransactionVerifier_check, TransactionOversizedCoinbase_check.
  repeat apply returns_then; try apply returns_fail_if; try done.
  destruct (is_coinbase (itx_raw tx)) eqn:Hc; [|done]. unfold is_coinbase in Hc.
  destruct (inputs (itx_raw tx)) as [|i l]; [done|]. cbn. apply returns_fail_if.
Qed.

Definition no_coinbase (tx : IndexedTransaction) : Prop := is_coinbase (itx_raw tx) = false.

Lemma block_verifier_iff `{Crypto} block :
  BlockVerifier_check block = Ok tt <->
  exists coinbase rest sigops,
    ib_transactions block = coinbase :: rest /\
    is_coinbase (itx_raw coinbase) = true /\ Forall no_coinbase rest /\
    NoDup (map itx_hash (ib_transactions block)) /\
    block_size block <= absolute_maximum_block_size /\
    sum_map (fun tx => @transaction_sigops Error (itx_raw tx) NoopStore false false)
      (ib_transactions block) 0 = Ok sigops /\ sigops <= absolute_maximum_block_sigops /\
    @block_merkle_root _ Error block = Ok (merkle_root_hash (ih_raw (ib_header block))).
Proof.
  unfold BlockVerifier_check. rewrite !bind_unit_Ok.
  unfold BlockEmpty_check, BlockCoinbase_check, BlockSerializedSize_check, BlockExtraCoinbases_check,
    BlockTransactionsUniqueness_check, BlockSigops_check, BlockMerkleRoot_check.
  rewrite !fail_if_Ok_tt, bool_decide_eq_false, Z.ltb_ge.
  destruct (ib_transactions block) as [|cb rest] eqn:Htx.
  { split; [by intros [H1 _]|]. by intros (? & ? & ? & ? & _). }
  cbn [drop]. rewrite drop_0. split.
  - intros (_ & Hcb & Hsize & Hextra & Hdup & Hsig & Hroot & _).
    destruct (is_coinbase (itx_raw cb)) eqn:Hc; [|done].
    destruct (position _ rest) eqn:Hp; [done|]. apply position_None in Hp.
    destruct (size _ =? _)%nat eqn:Hd; [|done]. apply Nat.eqb_eq in Hd.
    apply bind_Ok in Hsig as (n & Hn & Hsig). apply fail_if_Ok_tt, Z.ltb_ge in Hsig.
    apply bind_Ok in Hroot as (r & Hr & Hroot). apply fail_if_Ok_tt in Hroot.
    apply negb_false_iff, bool_decide_eq_true in Hroot. subst r.
    exists cb, rest, n. split_and!; try done. apply uniqueness_NoDup. by rewrite Hd, length_map.
  - intros (cb' & rest' & n & [= <- <-] & Hc & Hp & Hd & Hsize & Hn & Hsig & Hroot).
    rewrite Hc, (proj2 (position_None _ rest) Hp), Hn, Hroot. cbn [mbind outcome_bind].
    apply uniqueness_NoDup in Hd. rewrite length_map in Hd. rewrite Hd, Nat.eqb_refl.
    rewrite (proj2 (Z.ltb_ge _ _) Hsig), bool_decide_true by done. done.
Qed.

(** * Properties *)

(** However the transactions are cut into pieces, the parallel check succeeds exactly
    when every check does; and when no check panics, it reports what the sequential
    loop reports: the error of the first transaction that fails. *)
Theorem check_transactions_sequential `{RayonLaws} {A} (check : A -> outcome TxError unit) l :
  (check_transactions check l = Ok tt <-> Forall (fun x => check x = Ok tt) l) /\
  (Forall (fun x => returns (check x)) l -> check_transactions check l = fold_checks check (imap pair l)).
Proof.
  split; [apply check_transactions_Ok|]. intros Hr. unfold check_transactions.
  rewrite fold_pieces, par_concat; [done|]. rewrite par_concat.
  by apply (Forall_imap_snd (fun x => returns (check x))).
Qed.

(** What a block that passes pre-verification is: a coinbase followed by transactions
    that are none, with pairwise different hashes, whose merkle root the header
    commits to, within the absolute limits of size and signature operations. *)
Theorem block_verifier_spec `{Crypto} block :
  BlockVerifier_check block = Ok tt <->
  exists coinbase rest sigops,
    ib_transactions block = coinbase :: rest /\
    is_coinbase (itx_raw coinbase) = true /\ Forall no_coinbase rest /\
    NoDup (map itx_hash (ib_transactions block)) /\
    block_size block <= absolute_maximum_block_size /\
    sum_map (fun tx => @transaction_sigops Error (itx_raw tx) NoopStore false false)
      (ib_transactions block) 0 = Ok sigops /\ sigops <= absolute_maximum_block_sigops /\
    @block_merkle_root _ Error block = Ok (merkle_root_hash (ih_raw (ib_header block))).
Proof. apply block_verifier_iff. Qed.

(** C33: Pre-verification comes back with a verdict on every block: it neither panics nor
    loops, as long as the clock is two hours away from the end of [u32]. *)
Theorem chain_verifier_returns `{Crypto} `{U256Laws} `{RayonLaws} block net current_time :
  sumZ (fun tx => script_bytes (itx_raw tx)) (ib_transactions block) < 2 ^ 59 ->
  0 <= current_time -> current_time + BLOCK_MAX_FUTURE < 2 ^ 32 ->
  returns (ChainVerifier_check block net current_time).
Proof.
  intros Hs Hc Ht. unfold ChainVerifier_check.
  apply returns_then; [|apply returns_then; [|apply returns_then; [|done]]].
  - by apply block_verifier_returns.
  - by apply header_verifier_returns.
  - assert (Forall (fun p : nat * IndexedTransaction => returns (TransactionVerifier_check p.2))
      (imap pair (ib_transactions block))) as Hall.
    { apply Forall_forall. intros. apply transaction_verifier_returns. }
    unfold check_transactions. rewrite fold_pieces, par_concat by (by rewrite par_concat).
    by apply fold_checks_returns.
Qed.

End Verify.

(** One thread takes everything. *)
Module ExampleRayon.
Import Verify.
#[export] Instance one_piece : Rayon := fun A l => [l].
#[export] Instance one_piece_laws : RayonLaws one_piece.
Proof. intros A l. cbn. apply app_nil_r. Qed.
End ExampleRayon.

(** * Witnesses *)

Section witnesses.
Import Chain ChainHash Network Verify ExampleRayon ExampleCrypto ExampleU256.

Definition example_coinbase_block : IndexedBlock :=
  let tx := indexed_from_raw (mkTx 1 [coinbase_input [x51; x51]] [mkOutput 5 [xac]] 0) in
  mkIndexedBlock (mkIndexedHeader (le_bytes 32 2) (mkHeader 1 zero_hash (itx_hash tx) 2000 0 0)) [tx].

Lemma check_transactions_sequential_witness :
  check_transactions TransactionVerifier_check (ib_transactions example_coinbase_block) = Ok tt.
Proof. apply check_transactions_sequential. repeat constructor. Defined.

Lemma chain_verifier_returns_witness : returns (ChainVerifier_check example_coinbase_block Unitest 3000).
Proof. apply chain_verifier_returns; vm_compute; congruence. Defined.

End witnesses.
