(* ===== verification/Accept.v ===== *)
(** Verification against the stored chain (src/verification/src): accept_header.rs,
    accept_block.rs, accept_transaction.rs and accept_chain.rs.  The flags of
    deployments are computed when the checks are built and thread the deployment cache;
    the checks themselves are run afterwards. *)
From Stdlib Require Import ZArith Lia Strings.Byte Strings.String.
From stdpp Require Import base decidable numbers countable gmap strings list.
From S2P Require Import Prelude Opcode Num Script Builder Crypto Keys Sighash SigEncoding Interpreter Serialization Chain ChainHash Sign.
From S2P Require Import U256 Compact Network Work Storage Deployments Verify.

Local Open Scope Z_scope.

Module Accept.
Import Chain ChainHash Network Work Storage Deployments Verify.

Inductive VerificationLevel := Full | Header | NoVerification.

#[global] Instance VerificationLevel_eq_dec : EqDecision VerificationLevel.
Proof. solve_decision. Defined.

(** [overflowing_add] and [overflowing_sub] on [u64]. *)
Definition overflowing (z : Z) : Z * bool := (wrap 64 z, negb (is_uint 64 z)).

(** The order of hashes: their bytes, the first one first. *)
Fixpoint hash_ltb (a b : bytes) : bool :=
  match a, b with
  | _, [] => false
  | [], _ :: _ => true
  | x :: a', y :: b' => (u8 x <? u8 y) || ((u8 x =? u8 y) && hash_ltb a' b')
  end.

Definition starts_with (s prefix : bytes) : bool := bool_decide (firstn (length prefix) s = prefix).

(** * Headers (accept_header.rs) *)

Definition HeaderVersion_check (header : IndexedBlockHeader) (height : Z) (consensus : ConsensusParams)
    : outcome Error unit :=
  let version := hd_version (ih_raw header) in
  fail_if (((version <? 2) && (bip34_height consensus <=? height)) ||
           ((version <? 3) && (bip66_height consensus <=? height)) ||
           ((version <? 4) && (bip65_height consensus <=? height))) VerificationError.OldVersionBlock.

Section header.
Context `{U256} `{BlockHeaderProvider}.

Definition HeaderWork_check (header : IndexedBlockHeader) (height : Z) (consensus : ConsensusParams)
    : outcome Error unit :=
  work ← work_required (previous_header_hash (ih_raw header)) (time (ih_raw header)) height consensus;
  if work =? bits (ih_raw header) then Ok tt
  else Err (VerificationError.Difficulty work (bits (ih_raw header))).

(** The median is computed only when the rule is active. *)
Definition HeaderMedianTimestamp_check (header : IndexedBlockHeader) (csv_active : bool)
    : outcome Error unit :=
  if csv_active then
    median ← median_timestamp (ih_raw header);
    fail_if (time (ih_raw header) <=? median) VerificationError.Timestamp
  else Ok tt.

Definition HeaderAcceptor_check (header : IndexedBlockHeader) (height : Z) (consensus : ConsensusParams)
    (csv_active : bool) : outcome Error unit :=
  _ ← HeaderVersion_check header height consensus;
  _ ← HeaderWork_check header height consensus;
  _ ← HeaderMedianTimestamp_check header csv_active;
  Ok tt.

End header.

(** * Blocks (accept_block.rs) *)

Section block.
Context (block : IndexedBlock) (consensus : ConsensusParams) (height median_time_past : Z).

Definition BlockFinality_check `{BlockHeaderProvider} (csv_active : bool) : outcome Error unit :=
  let header := ih_raw (ib_header block) in
  time_cutoff ← (if csv_active then median_timestamp header else Ok (time header));
  if forallb (fun tx => is_final_in_block (itx_raw tx) height time_cutoff) (ib_transactions block)
  then Ok tt else Err VerificationError.NonFinalBlock.

Definition BlockSerializedSize_check (segwit_active : bool) : outcome Error unit :=
  let size := block_size block in
  if (size <? min_block_size (fork consensus) height) ||
     (max_block_size (fork consensus) height median_time_past <? size)
  then Err (VerificationError.Size size)
  else if segwit_active then
    let size_with_witness := block_size_with_witness block in
    scaled ← ucheck 64 (size * (witness_scale_factor - 1));
    weight ← ucheck 64 (scaled + size_with_witness);
    max ← max_block_weight (fork consensus) height;
    fail_if (max <? weight) VerificationError.Weight
  else Ok tt.

Definition checkdatasig_active (time : Z) : bool :=
  match fork consensus with
  | BitcoinCash f => magnetic_anomaly_time f <=? time
  | BitcoinCore => false
  end.

(** [fold((0, 0), ..)] over the transactions. *)
Fixpoint block_sigops_loop {E} (store : TransactionOutputProvider) (bip16_active checkdatasig : bool)
    (txs : list IndexedTransaction) (acc : Z * Z) : outcome E (Z * Z) :=
  match txs with
  | [] => Ok acc
  | tx :: rest =>
      tx_sigops ← transaction_sigops (itx_raw tx) store bip16_active checkdatasig;
      tx_sigops_cost ← transaction_sigops_cost (itx_raw tx) store tx_sigops;
      sigops ← ucheck 64 (acc.1 + tx_sigops);
      sigops_cost ← ucheck 64 (acc.2 + tx_sigops_cost);
      block_sigops_loop store bip16_active checkdatasig rest (sigops, sigops_cost)
  end.

Definition BlockSigops_check (store : TransactionOutputProvider) : outcome Error unit :=
  let bip16_active := bip16_time consensus <=? time (ih_raw (ib_header block)) in
  let store := DuplexTransactionOutputProvider store (block_provider block) in
  '(sigops, sigops_cost) ← block_sigops_loop store bip16_active (checkdatasig_active median_time_past)
                             (ib_transactions block) (0, 0);
  let size := block_size block in
  max ← max_block_sigops (fork consensus) height size;
  if max <? sigops then Err VerificationError.MaximumSigops else
  max_cost ← max_block_sigops_cost (fork consensus) height size;
  fail_if (max_cost <? sigops_cost) VerificationError.MaximumSigopsCost.

(** ** The coinbase claim *)

Fixpoint incoming_loop (store : TransactionOutputProvider) (prevout_tx_idx : Z)
    (ins : list TransactionInput) (incoming : Z) : outcome Error Z :=
  match ins with
  | [] => Ok incoming
  | input :: rest =>
      let prevout := transaction_output store (previous_output input) prevout_tx_idx in
      let '(sum, overflow) := overflowing (incoming + default 0 (value <$> prevout)) in
      if overflow then Err VerificationError.ReferencedInputsSumOverflow
      else incoming_loop store prevout_tx_idx rest sum
  end.

(** [tx_idx] is the position of the first of [txs]. *)
Fixpoint fees_loop (store : TransactionOutputProvider) (ordering : TransactionOrdering)
    (tx_idx : Z) (txs : list IndexedTransaction) (fees : Z) : outcome Error Z :=
  match txs with
  | [] => Ok fees
  | tx :: rest =>
      incoming ← incoming_loop store (transaction_index_for_output_check ordering tx_idx)
                   (inputs (itx_raw tx)) 0;
      let spends := total_spends (itx_raw tx) in
      let '(difference, overflow) := overflowing (incoming - spends) in
      if overflow then Err (VerificationError.Transaction tx_idx TransactionError.Overspend) else
      let '(sum, overflow) := overflowing (fees + difference) in
      if overflow then Err VerificationError.TransactionFeesOverflow else
      fees_loop store ordering (tx_idx + 1) rest sum
  end.

Definition BlockCoinbaseClaim_check (store : TransactionOutputProvider) : outcome Error unit :=
  let ordering := transaction_ordering (fork consensus) median_time_past in
  let store := DuplexTransactionOutputProvider store (block_provider block) in
  fees ← fees_loop store ordering 1 (drop 1 (ib_transactions block)) 0;
  coinbase ← index (ib_transactions block) 0;
  let claim := total_spends (itx_raw coinbase) in
  let '(reward, overflow) := overflowing (fees + block_reward_satoshi height) in
  if overflow then Err VerificationError.TransactionFeeAndRewardOverflow else
  fail_if (reward <? claim) (VerificationError.CoinbaseOverspend reward claim).

Definition BlockCoinbaseScript_check : outcome Error unit :=
  if negb (bip34_height consensus <=? height) then Ok tt else
  prefix ← Builder.push_num Builder.default height;
  let prefix := Builder.into_script prefix in
  let matches :=
    match head (ib_transactions block) ≫= (fun tx => head (inputs (itx_raw tx))) with
    | Some input => starts_with (script_sig input) prefix
    | None => false
    end in
  if matches then Ok tt else Err VerificationError.CoinbaseScript.

(** ** The witness commitment *)

(** The commitment of the last output that has one. *)
Definition witness_commitment (coinbase : Transaction) : option TransactionOutput :=
  List.find (fun o => Script.is_witness_commitment_script (script_pubkey o)) (rev (outputs coinbase)).

(** The inner check: the nonce of the coinbase and the commitment. *)
Definition check_commitment `{Crypto} (coinbase : Transaction) (commitment : TransactionOutput)
    : outcome Error unit :=
  witness_merkle_root ← block_witness_merkle_root block;
  let witness_len := default 0 ((fun i => zlen (script_witness i)) <$> head (inputs coinbase)) in
  nonce_ok ← (if negb (witness_len =? 1) then Ok false
              else i ← index (inputs coinbase) 0; nonce ← index (script_witness i) 0; Ok (zlen nonce =? 32));
  if negb nonce_ok then Err VerificationError.WitnessInvalidNonceSize else
  i ← index (inputs coinbase) 0;
  nonce ← index (script_witness i) 0;
  let hash_witness := dhash256 (witness_merkle_root ++ nonce) in
  committed ← checked_slice (script_pubkey commitment) 6 (length (script_pubkey commitment));
  committed ← checked_slice committed 0 32;
  fail_if (negb (bool_decide (hash_witness = committed))) VerificationError.WitnessMerkleCommitmentMismatch.

Definition BlockWitness_check `{Crypto} (segwit_active : bool) : outcome Error unit :=
  if negb segwit_active then Ok tt else
  has_commitment ←
    match ib_transactions block with
    | coinbase :: _ =>
        match witness_commitment (itx_raw coinbase) with
        | Some commitment => _ ← check_commitment (itx_raw coinbase) commitment; Ok true
        | None => Ok false
        end
    | [] => Ok false
    end;
  fail_if (negb has_commitment && existsb (fun tx => has_witness (itx_raw tx)) (ib_transactions block))
    VerificationError.UnexpectedWitness.

(** [windows(2)]. *)
Fixpoint windows2 {A} (l : list A) : list (A * A) :=
  match l with
  | a :: (b :: _) as rest => (a, b) :: windows2 rest
  | _ => []
  end.

Definition BlockTransactionOrdering_check : outcome Error unit :=
  match transaction_ordering (fork consensus) median_time_past with
  | Topological => Ok tt
  | Canonical =>
      if forallb (fun w => hash_ltb (itx_hash w.1) (itx_hash w.2)) (drop 1 (windows2 (ib_transactions block)))
      then Ok tt else Err VerificationError.NonCanonicalTransactionOrdering
  end.

End block.

(** The deployment flags the parts of a block acceptor are built with. *)
Record BlockAcceptor := mkBlockAcceptor {
  finality_csv_active : bool;
  size_segwit_active : bool;
  witness_segwit_active : bool;
}.

Definition BlockAcceptor_new `{BlockHeaderProvider} {E} (cache : DeploymentStateCache) (height : Z)
    (consensus : ConsensusParams) : outcome E (BlockAcceptor * DeploymentStateCache) :=
  '(csv1, cache) ← csv cache height consensus;
  '(segwit1, cache) ← segwit cache height consensus;
  '(segwit2, cache) ← segwit cache height consensus;
  Ok (mkBlockAcceptor csv1 segwit1 segwit2, cache).

Definition BlockAcceptor_check `{Crypto} `{BlockHeaderProvider} (self : BlockAcceptor)
    (store : TransactionOutputProvider) (consensus : ConsensusParams) (block : IndexedBlock)
    (height median_time_past : Z) : outcome Error unit :=
  _ ← BlockFinality_check block height (finality_csv_active self);
  _ ← BlockSigops_check block consensus height median_time_past store;
  _ ← BlockSerializedSize_check block consensus height median_time_past (size_segwit_active self);
  _ ← BlockCoinbaseClaim_check block consensus height median_time_past store;
  _ ← BlockCoinbaseScript_check block consensus height;
  _ ← BlockWitness_check block (witness_segwit_active self);
  _ ← BlockTransactionOrdering_check block consensus median_time_past;
  Ok tt.

(** * Transactions (accept_transaction.rs) *)

Definition usize_index (i : nat) : Z := Z.of_nat i.

Section transaction.
Context (transaction : IndexedTransaction).

Definition TransactionBip30_check `{BitVec} `{!TransactionMetaProvider} (consensus : ConsensusParams)
    (block_hash : bytes) (height : Z) : outcome TxError unit :=
  let exception := is_bip30_exception consensus block_hash height in
  match transaction_meta (itx_hash transaction) with
  | Some meta => fail_if (negb (is_fully_spent meta) && negb exception)
                   TransactionError.UnspentTransactionWithTheSameHash
  | None => Ok tt
  end.

Definition TransactionMissingInputs_check (store : TransactionOutputProvider) (transaction_index : Z)
    : outcome TxError unit :=
  let missing input :=
    negb (outpoint_is_null (previous_output input)) &&
    bool_decide (transaction_output store (previous_output input) transaction_index = None) in
  match position missing (inputs (itx_raw transaction)) with
  | Some index => Err (TransactionError.Input (usize_index index))
  | None => Ok tt
  end.

(** [any]: the first immature spend ends the search. *)
Fixpoint immature_spend `{BitVec} `{!TransactionMetaProvider} {E} (height : Z) (ins : list TransactionInput)
    : outcome E bool :=
  match ins with
  | [] => Ok false
  | input :: rest =>
      immature ←
        match transaction_meta (op_hash (previous_output input)) with
        | Some meta =>
            coinbase ← meta_is_coinbase meta;
            if coinbase : bool then
              limit ← ucheck 32 (meta_height meta + COINBASE_MATURITY); Ok (height <? limit)
            else Ok false
        | None => Ok false
        end;
      if immature : bool then Ok true else immature_spend height rest
  end.

Definition TransactionMaturity_check `{BitVec} `{!TransactionMetaProvider} (height : Z) : outcome TxError unit :=
  immature ← immature_spend height (inputs (itx_raw transaction));
  fail_if immature TransactionError.Maturity.

Definition TransactionOverspent_check (store : TransactionOutputProvider) : outcome TxError unit :=
  if is_coinbase (itx_raw transaction) then Ok tt else
  available ← sum_map (fun input =>
                Ok (default 0 (value <$> transaction_output store (previous_output input) usize_max)))
                (inputs (itx_raw transaction)) 0;
  let spends := total_spends (itx_raw transaction) in
  fail_if (available <? spends) TransactionError.Overspend.

Definition TransactionSigops_check (store : TransactionOutputProvider) (consensus : ConsensusParams)
    (max_sigops time : Z) : outcome TxError unit :=
  let bip16_active := bip16_time consensus <=? time in
  sigops ← transaction_sigops (itx_raw transaction) store bip16_active (checkdatasig_active consensus time);
  fail_if (max_sigops <? sigops) TransactionError.MaxSigops.

Fixpoint double_spend_loop (store : TransactionOutputProvider) (ins : list TransactionInput)
    : outcome TxError unit :=
  match ins with
  | [] => Ok tt
  | input :: rest =>
      if is_spent store (previous_output input) then
        Err (TransactionError.UsingSpentOutput (op_hash (previous_output input)) (op_index (previous_output input)))
      else double_spend_loop store rest
  end.

Definition TransactionDoubleSpend_check (store : TransactionOutputProvider) : outcome TxError unit :=
  if is_coinbase (itx_raw transaction) then Ok tt
  else double_spend_loop store (inputs (itx_raw transaction)).

(** The bytes of the text of the protected output. *)
Definition ascii_bytes (s : string) : bytes := list_byte_of_string s.

Definition BITCOIN_CASH_RETURN_REPLAY_PROTECTION_SCRIPT {E} : outcome E bytes :=
  b ← Builder.return_bytes Builder.default (ascii_bytes "Bitcoin: A Peer-to-Peer Electronic Cash System");
  Ok (Builder.into_bytes b).

Definition TransactionReturnReplayProtection_check (consensus : ConsensusParams) (height : Z)
    : outcome TxError unit :=
  match fork consensus with
  | BitcoinCash f =>
      if (bch_height f <=? height) && (height <=? 530000) then
        script ← BITCOIN_CASH_RETURN_REPLAY_PROTECTION_SCRIPT;
        fail_if (existsb (fun out => bool_decide (script_pubkey out = script)) (outputs (itx_raw transaction)))
          TransactionError.ReturnReplayProtection
      else Ok tt
  | BitcoinCore => Ok tt
  end.

Definition TransactionPrematureWitness_check (segwit_active : bool) : outcome TxError unit :=
  fail_if (negb segwit_active && has_witness (itx_raw transaction)) TransactionError.PrematureWitness.

Definition TransactionSize_check (consensus : ConsensusParams) (median_time_past : Z) : outcome TxError unit :=
  let min_size := min_transaction_size (fork consensus) median_time_past in
  fail_if (negb (min_size =? 0) && (Ser.serialized_size transaction_codec (itx_raw transaction) <? min_size))
    TransactionError.MinSize.

(** ** Scripts *)

(** The flags and the signature version an evaluation is built with. *)
Record TransactionEval := mkEval {
  verification_level : VerificationLevel;
  eval_flags : VerificationFlags;
  signature_version : SignatureVersion;
}.

Definition TransactionEval_new (params : ConsensusParams) (level : VerificationLevel)
    (height time median_timestamp : Z) (csv_active segwit_active : bool) : TransactionEval :=
  let bch f := match fork params with BitcoinCash b => f b | BitcoinCore => false end in
  let verify_strictenc := bch (fun b => bch_height b <=? height) in
  let monolith := bch (fun b => monolith_time b <=? median_timestamp) in
  let magnetic_anomaly := bch (fun b => magnetic_anomaly_time b <=? median_timestamp) in
  {| verification_level := level;
     eval_flags := {|
       none := false;
       verify_p2sh := bip16_time params <=? time;
       verify_strictenc := verify_strictenc;
       verify_dersig := bip66_height params <=? height;
       verify_low_s := false;
       verify_nulldummy := segwit_active;
       verify_sigpushonly := magnetic_anomaly;
       verify_minimaldata := false;
       verify_discourage_upgradable_nops := false;
       verify_cleanstack := magnetic_anomaly;
       verify_locktime := bip65_height params <=? height;
       verify_checksequence := csv_active;
       verify_witness := segwit_active;
       verify_discourage_upgradable_witness_program := false;
       verify_concat := monolith;
       verify_split := monolith;
       verify_and := monolith;
       verify_or := monolith;
       verify_xor := monolith;
       verify_div := monolith;
       verify_mod := monolith;
       verify_bin2num := monolith;
       verify_num2bin := monolith;
       verify_checkdatasig := magnetic_anomaly |};
     signature_version := if verify_strictenc then ForkId else Base |}.

Section eval.
Context `{Crypto} `{Secp256k1}.

(** [index] is the position of the first of [ins]. *)
Fixpoint eval_loop (self : TransactionEval) (store : TransactionOutputProvider)
    (signer : Sign.TransactionInputSigner) (index : nat) (ins : list TransactionInput)
    : outcome TxError unit :=
  match ins with
  | [] => Ok tt
  | input :: rest =>
      output ← ok_or (transaction_output store (previous_output input) usize_max)
                 (TransactionError.UnknownReference (op_hash (previous_output input)));
      let checker := Sign.TransactionSignatureChecker signer index (value output) in
      _ ← map_err (TransactionError.Signature (usize_index index))
            (@Interpreter.verify_script _ checker (script_sig input) (script_pubkey output)
               (script_witness input) (eval_flags self) (signature_version self));
      eval_loop self store signer (S index) rest
  end.

Definition TransactionEval_check (self : TransactionEval) (store : TransactionOutputProvider)
    : outcome TxError unit :=
  if bool_decide (verification_level self = Header) || bool_decide (verification_level self = NoVerification)
  then Ok tt
  else if is_coinbase (itx_raw transaction) then Ok tt
  else eval_loop self store (Sign.signer_of (itx_raw transaction)) 0 (inputs (itx_raw transaction)).

End eval.

End transaction.

(** ** The acceptors *)

Record TransactionAcceptor := mkAcceptor {
  ta_transaction : IndexedTransaction;
  ta_index : nat;
  ta_segwit_active : bool;
  ta_eval : TransactionEval;
}.

Section acceptors.
Context `{Crypto} `{Secp256k1} `{BitVec} `{BlockHeaderProvider}.
Context (consensus : ConsensusParams) (level : VerificationLevel).

Definition TransactionAcceptor_new {E} (cache : DeploymentStateCache) (tx : IndexedTransaction)
    (tx_index : nat) (height time median_time_past : Z)
    : outcome E (TransactionAcceptor * DeploymentStateCache) :=
  '(segwit1, cache) ← segwit cache height consensus;
  '(csv1, cache) ← csv cache height consensus;
  '(segwit2, cache) ← segwit cache height consensus;
  Ok (mkAcceptor tx tx_index segwit1
        (TransactionEval_new consensus level height time median_time_past csv1 segwit2), cache).

Fixpoint TransactionAcceptors_new {E} (cache : DeploymentStateCache) (txs : list IndexedTransaction)
    (tx_index : nat) (height time median_time_past : Z)
    : outcome E (list TransactionAcceptor * DeploymentStateCache) :=
  match txs with
  | [] => Ok ([], cache)
  | tx :: rest =>
      '(a, cache) ← TransactionAcceptor_new cache tx tx_index height time median_time_past;
      '(l, cache) ← TransactionAcceptors_new cache rest (S tx_index) height time median_time_past;
      Ok (a :: l, cache)
  end.

Definition TransactionAcceptor_check `{!TransactionMetaProvider} (output_store : TransactionOutputProvider)
    (block_hash : bytes) (height median_time_past : Z) (self : TransactionAcceptor) : outcome TxError unit :=
  let tx := ta_transaction self in
  let tx_ordering := transaction_ordering (fork consensus) median_time_past in
  let missing_input_tx_index := transaction_index_for_output_check tx_ordering (usize_index (ta_index self)) in
  _ ← TransactionSize_check tx consensus median_time_past;
  _ ← TransactionPrematureWitness_check tx (ta_segwit_active self);
  _ ← TransactionBip30_check tx consensus block_hash height;
  _ ← TransactionMissingInputs_check tx output_store missing_input_tx_index;
  _ ← TransactionMaturity_check tx height;
  _ ← TransactionOverspent_check tx output_store;
  _ ← TransactionDoubleSpend_check tx output_store;
  _ ← TransactionReturnReplayProtection_check tx consensus height;
  _ ← TransactionEval_check tx (ta_eval self) output_store;
  Ok tt.

(** The memory pool acceptor, built and checked. *)
Definition MemoryPoolTransactionAcceptor_new {E} (cache : DeploymentStateCache) (height time median_time_past : Z)
    : outcome E (Z * TransactionEval * DeploymentStateCache) :=
  max_block_sigops ← max_block_sigops (fork consensus) height (max_block_size (fork consensus) height median_time_past);
  '(csv1, cache) ← csv cache height consensus;
  '(segwit1, cache) ← segwit cache height consensus;
  Ok (max_block_sigops, TransactionEval_new consensus Full height time median_time_past csv1 segwit1, cache).

Definition MemoryPoolTransactionAcceptor_check `{!TransactionMetaProvider}
    (output_store : TransactionOutputProvider) (tx : IndexedTransaction) (height time median_time_past : Z)
    (max_block_sigops : Z) (eval : TransactionEval) : outcome TxError unit :=
  _ ← TransactionSize_check tx consensus median_time_past;
  _ ← TransactionMissingInputs_check tx output_store 0;
  _ ← TransactionMaturity_check tx height;
  _ ← TransactionOverspent_check tx output_store;
  _ ← TransactionSigops_check tx output_store consensus max_block_sigops time;
  _ ← TransactionDoubleSpend_check tx output_store;
  _ ← TransactionReturnReplayProtection_check tx consensus height;
  _ ← TransactionEval_check tx eval output_store;
  Ok tt.

End acceptors.

(** * The chain acceptor (accept_chain.rs) *)

Record ChainAcceptor := mkChainAcceptor {
  ca_block : BlockAcceptor;
  ca_header_csv_active : bool;
  ca_transactions : list TransactionAcceptor;
}.

Section chain.
Context `{Crypto} `{Secp256k1} `{U256} `{BitVec} `{BlockHeaderProvider} `{Rayon}.
Context (consensus : ConsensusParams) (level : VerificationLevel).

Definition ChainAcceptor_new {E} (cache : DeploymentStateCache) (block : IndexedBlock)
    (height median_time_past : Z) : outcome E (ChainAcceptor * DeploymentStateCache) :=
  '(b, cache) ← BlockAcceptor_new cache height consensus;
  '(csv1, cache) ← csv cache height consensus;
  '(txs, cache) ← TransactionAcceptors_new consensus level cache (ib_transactions block) 0 height
                    (time (ih_raw (ib_header block))) median_time_past;
  Ok (mkChainAcceptor b csv1 txs, cache).

Definition ChainAcceptor_check `{!TransactionMetaProvider} (self : ChainAcceptor)
    (store : TransactionOutputProvider) (block : IndexedBlock) (height median_time_past : Z)
    : outcome Error unit :=
  let output_store := DuplexTransactionOutputProvider store (block_provider block) in
  _ ← BlockAcceptor_check (ca_block self) store consensus block height median_time_past;
  _ ← HeaderAcceptor_check (ib_header block) height consensus (ca_header_csv_active self);
  _ ← check_transactions (TransactionAcceptor_check consensus output_store (ih_hash (ib_header block))
                            height median_time_past) (ca_transactions self);
  Ok tt.

End chain.

End Accept.
