(* ===== verification/AcceptSpec.v ===== *)
(** What the checks against the stored chain guarantee: value is conserved, no output is
    spent twice, inputs exist, scripts are satisfied, coinbases of different heights
    differ, transactions are ordered, and witnesses are committed to. *)
From Stdlib Require Import ZArith Lia Strings.Byte.
From stdpp Require Import base decidable numbers countable gmap strings list sorting.
From S2P Require Import Prelude Opcode Num Script Builder Crypto Keys Sighash SigEncoding Interpreter Serialization Chain ChainHash Sign.
From S2P Require Import U256 Compact Network Work Storage Deployments Verify Accept.

Local Open Scope Z_scope.

Module AcceptSpec.
Import Chain ChainHash Network Work Storage Deployments Verify Accept.

(** * Value *)

(** What the inputs of a transaction refer to, and what its outputs carry. *)
Definition referenced (store : TransactionOutputProvider) (idx : Z) (tx : Transaction) : Z :=
  sumZ (fun i => default 0 (value <$> transaction_output store (previous_output i) idx)) (inputs tx).

Definition carried (tx : Transaction) : Z := sumZ value (outputs tx).

(** Over the transactions from position [idx] on. *)
Fixpoint referenced_total (store : TransactionOutputProvider) (ordering : TransactionOrdering) (idx : Z)
    (txs : list IndexedTransaction) : Z :=
  match txs with
  | [] => 0
  | tx :: rest =>
      referenced store (transaction_index_for_output_check ordering idx) (itx_raw tx) +
      referenced_total store ordering (idx + 1) rest
  end.

Lemma overflowing_spec z r : overflowing z = (r, false) -> r = z /\ uint 64 z.
Proof.
  unfold overflowing. intros [= <- Hb]. apply negb_false_iff, is_uint_spec in Hb.
  split; [by apply wrap_uint|done].
Qed.

Lemma incoming_loop_Ok store idx ins acc r :
  uint 64 acc -> incoming_loop store idx ins acc = Ok r ->
  r = acc + sumZ (fun i => default 0 (value <$> transaction_output store (previous_output i) idx)) ins /\
  uint 64 r.
Proof.
  unfold sumZ. revert acc. induction ins as [|i ins IH]; intros acc Ha; cbn [incoming_loop map foldr].
  - intros [= <-]. split; [lia|done].
  - destruct (overflowing _) as [sum [|]] eqn:Ho; [done|]. apply overflowing_spec in Ho as [-> Hu].
    intros Hr. destruct (IH _ Hu Hr) as [-> Hb]. split; [lia|done].
Qed.

Lemma fees_loop_Ok store ordering idx txs fees r :
  uint 64 fees -> fees_loop store ordering idx txs fees = Ok r ->
  r = fees + referenced_total store ordering idx txs - sumZ (fun tx => total_spends (itx_raw tx)) txs /\
  uint 64 r /\ 0 <= referenced_total store ordering idx txs /\
  Forall (fun tx => total_spends (itx_raw tx) <= referenced_total store ordering idx txs) txs.
Proof.
  unfold sumZ. revert idx fees. induction txs as [|tx txs IH]; intros idx fees Hf; cbn [fees_loop map foldr referenced_total].
  - intros [= <-]. split_and!; [lia|done|done|constructor].
  - intros Hr. apply bind_Ok in Hr as (inc & Hinc & Hr).
    apply incoming_loop_Ok in Hinc as [Hinc Hu]; [|unfold uint; lia]. rewrite Z.add_0_l in Hinc.
    fold (referenced store (transaction_index_for_output_check ordering idx) (itx_raw tx)) in Hinc.
    destruct (overflowing (inc - _)) as [d [|]] eqn:Ho; [done|]. apply overflowing_spec in Ho as [-> Hd].
    destruct (overflowing (fees + _)) as [f [|]] eqn:Ho; [done|]. apply overflowing_spec in Ho as [-> Hs].
    destruct (IH _ _ Hs Hr) as (Hr' & Hru & Hpos & Hall). unfold uint in *.
    split_and!; [lia..|]. constructor; [lia|]. eapply Forall_impl; [exact Hall|]. cbn. lia.
Qed.

(** The values of outputs are [u64]. *)
Definition u64_outputs (tx : IndexedTransaction) : Prop :=
  Forall (fun o => uint 64 (value o)) (outputs (itx_raw tx)).

Lemma total_spends_carried tx :
  u64_outputs tx -> 0 <= total_spends (itx_raw tx) /\
  (total_spends (itx_raw tx) < u64_max -> total_spends (itx_raw tx) = carried (itx_raw tx)).
Proof.
  intros Ho. rewrite total_spends_spec by done. fold (sumZ value (outputs (itx_raw tx))).
  assert (0 <= sumZ value (outputs (itx_raw tx))) as Hp.
  { unfold sumZ. induction Ho as [|o l [Hv _] _ IH]; cbn; lia. }
  unfold carried. split; lia.
Qed.

Lemma reward_nonneg height : 0 <= block_reward_satoshi height.
Proof.
  unfold block_reward_satoshi. induction (Z.to_nat (height / 210000)) as [|n IH]; [done|].
  rewrite Nat.iter_succ. apply Z.div_pos; [exact IH|lia].
Qed.

(** The claim check, opened. *)
Lemma coinbase_claim_Ok block consensus height mtp store :
  Forall u64_outputs (ib_transactions block) ->
  BlockCoinbaseClaim_check block consensus height mtp store = Ok tt ->
  exists cb rest, ib_transactions block = cb :: rest /\
    let total := referenced_total (DuplexTransactionOutputProvider store (block_provider block))
                   (transaction_ordering (fork consensus) mtp) 1 rest in
    sumZ (fun tx => total_spends (itx_raw tx)) (cb :: rest) <= total + block_reward_satoshi height /\
    Forall (fun tx => total_spends (itx_raw tx) <= total + block_reward_satoshi height) (cb :: rest).
Proof.
  intros Hw H. unfold BlockCoinbaseClaim_check in H. apply bind_Ok in H as (fees & Hf & H).
  apply fees_loop_Ok in Hf as (-> & Hu & Hpos & Hall); [|unfold uint; lia].
  apply bind_Ok in H as (cb & Hcb & H). destruct (ib_transactions block) as [|cb' rest]; [done|].
  injection Hcb as <-. cbn [drop] in *. rewrite drop_0 in *.
  destruct (overflowing _) as [reward [|]] eqn:Ho; [done|]. apply overflowing_spec in Ho as [-> Hr].
  apply fail_if_Ok_tt, Z.ltb_ge in H. exists cb', rest. split; [done|]. cbn zeta.
  unfold sumZ in *. cbn [map foldr]. apply Forall_cons in Hw as [Hcb Hw].
  assert (0 <= foldr Z.add 0 (map (fun tx => total_spends (itx_raw tx)) rest)) as Hs.
  { clear -Hw. induction Hw as [|tx l Ht _ IH]; cbn; [done|]. pose proof (proj1 (total_spends_carried tx Ht)). lia. }
  pose proof (reward_nonneg height). split; [lia|]. constructor; [lia|].
  eapply Forall_impl; [exact Hall|]. cbn. lia.
Qed.

Lemma sum_carried (limit : Z) txs :
  Forall u64_outputs txs -> Forall (fun tx => total_spends (itx_raw tx) <= limit) txs -> limit < u64_max ->
  sumZ (fun tx => total_spends (itx_raw tx)) txs = sumZ (fun tx => carried (itx_raw tx)) txs.
Proof.
  intros Hw Hl Hm. unfold sumZ. induction Hw as [|tx l Ht _ IH]; cbn; [done|].
  apply Forall_cons in Hl as [Hle Hl]. rewrite IH by done. f_equal.
  apply (proj2 (total_spends_carried tx Ht)). lia.
Qed.

(** * Inputs *)

Lemma double_spend_loop_Ok store ins :
  double_spend_loop store ins = Ok tt <-> Forall (fun i => is_spent store (previous_output i) = false) ins.
Proof.
  induction ins as [|i ins IH]; cbn [double_spend_loop]; [by split|]. rewrite Forall_cons, <- IH.
  destruct (is_spent _ _); [|tauto]. split; [done|]. by intros [].
Qed.

Lemma double_spend_check_Ok tx store :
  no_coinbase tx -> TransactionDoubleSpend_check tx store = Ok tt ->
  Forall (fun o => is_spent store o = false) (prevouts [tx]).
Proof.
  unfold no_coinbase, TransactionDoubleSpend_check, prevouts. intros -> H.
  apply double_spend_loop_Ok in H. cbn. rewrite app_nil_r. by apply Forall_map.
Qed.

Lemma prevouts_app l l' : prevouts (l ++ l') = prevouts l ++ prevouts l'.
Proof. unfold prevouts. by rewrite flat_map_app, map_app. Qed.

Lemma prevouts_cons tx l : prevouts (tx :: l) = prevouts [tx] ++ prevouts l.
Proof. apply (prevouts_app [tx]). Qed.

(** Outputs no transaction of the block spends twice. *)
Lemma unspent_NoDup cb rest :
  Forall (fun o => block_is_spent (cb :: rest) o = false) (prevouts rest) -> NoDup (prevouts rest).
Proof.
  intros Hall. apply NoDup_alt. intros i j o Hi Hj.
  assert (block_is_spent (cb :: rest) o = false) as Hf.
  { rewrite Forall_forall in Hall. apply Hall. by eapply list_elem_of_lookup_2. }
  destruct (Nat.lt_total i j) as [Hlt|[->|Hlt]]; [|done|]; exfalso;
    apply not_true_iff_false in Hf; apply Hf, block_is_spent_spec; rewrite prevouts_cons.
  - exists (length (prevouts [cb]) + i)%nat, (length (prevouts [cb]) + j)%nat.
    split_and!; [lia|by rewrite lookup_app_r, Nat.add_comm, Nat.add_sub by lia..].
  - exists (length (prevouts [cb]) + j)%nat, (length (prevouts [cb]) + i)%nat.
    split_and!; [lia|by rewrite lookup_app_r, Nat.add_comm, Nat.add_sub by lia..].
Qed.

Lemma missing_inputs_Ok tx store idx :
  TransactionMissingInputs_check tx store idx = Ok tt <->
  Forall (fun i => outpoint_is_null (previous_output i) = true \/
                   transaction_output store (previous_output i) idx <> None) (inputs (itx_raw tx)).
Proof.
  unfold TransactionMissingInputs_check. destruct (position _ _) eqn:Hp.
  - split; [done|]. apply position_Some in Hp as (i & Hi & Hb & _). intros Hall. exfalso.
    apply andb_true_iff in Hb as [Hn Hm]. apply negb_true_iff in Hn. apply bool_decide_eq_true in Hm.
    rewrite Forall_lookup in Hall. destruct (Hall _ _ Hi) as [|]; congruence.
  - split; [|done]. intros _. apply position_None in Hp. eapply Forall_impl; [exact Hp|].
    cbn. intros i Hb. destruct (outpoint_is_null _); [by left|right]. by apply bool_decide_eq_false in Hb.
Qed.

(** An output found in a block before position [idx]. *)
Lemma block_output_before block o idx out :
  transaction_output (block_provider block) o idx = Some out ->
  exists j tx, ib_transactions block !! j = Some tx /\ Z.of_nat j < idx /\
    itx_hash tx = op_hash o /\ outputs (itx_raw tx) !! Z.to_nat (op_index o) = Some out.
Proof.
  cbn [transaction_output block_provider]. unfold block_transaction_output.
  destruct (List.find _ _) as [tx|] eqn:Hf; [|done]. intros Ho. apply find_some in Hf as [Hin Hb].
  apply list_elem_of_In, list_elem_of_lookup in Hin as [j Hj]. apply lookup_take_Some in Hj as [Hj Hlt].
  exists j, tx. apply bool_decide_eq_true in Hb. split_and!; [done|lia|done|done].
Qed.

(** * Scripts *)

Section scripts.
Context `{Crypto} `{Secp256k1}.

(** The script of input [k] is satisfied by the output it refers to. *)
Definition input_verified (self : TransactionEval) (store : TransactionOutputProvider)
    (tx : Transaction) (k : nat) (i : TransactionInput) : Prop :=
  exists out, transaction_output store (previous_output i) usize_max = Some out /\
    @Interpreter.verify_script _ (Sign.TransactionSignatureChecker (Sign.signer_of tx) k (value out))
      (script_sig i) (script_pubkey out) (script_witness i) (eval_flags self) (signature_version self) = Ok tt.

Lemma eval_loop_Ok self store tx k ins :
  eval_loop self store (Sign.signer_of tx) k ins = Ok tt <->
  forall j i, ins !! j = Some i -> input_verified self store tx (k + j) i.
Proof.
  revert k. induction ins as [|i ins IH]; intros k; cbn [eval_loop]; [by split|]. split.
  - intros Hl. apply bind_Ok in Hl as (out & Hout & Hl). apply bind_unit_Ok in Hl as [Hv Hl].
    destruct (transaction_output _ _ _) as [out'|] eqn:Ho; [|done]. injection Hout as <-.
    intros [|j] i'; cbn; [intros [= <-]; exists out'; rewrite Nat.add_0_r; split; [done|]|].
    + by destruct (Interpreter.verify_script _ _ _ _ _) as [[]| | |].
    + rewrite Nat.add_succ_r. apply (IH (S k)), Hl.
  - intros Hall. destruct (Hall 0%nat i eq_refl) as (out & Ho & Hv). rewrite Nat.add_0_r in Hv.
    rewrite Ho. cbn [ok_or]. rewrite ok_bind, Hv. cbn [map_err]. rewrite ok_bind. apply IH.
    intros j i' Hj. specialize (Hall (S j) i' Hj). by rewrite Nat.add_succ_r in Hall.
Qed.

Lemma eval_check_Ok tx self store :
  verification_level self = Full -> no_coinbase tx ->
  TransactionEval_check tx self store = Ok tt <->
  forall k i, inputs (itx_raw tx) !! k = Some i -> input_verified self store (itx_raw tx) k i.
Proof.
  unfold TransactionEval_check, no_coinbase. intros -> ->. cbn. apply eval_loop_Ok.
Qed.

End scripts.

(** * The coinbase script *)

Lemma push_num_decodes {E} h :
  uint 32 h ->
  exists prefix o d, @Builder.push_num E Builder.default h = Ok prefix /\ Num.num_value d = h /\
    forall rest, Script.get_instruction (prefix ++ rest) 0 =
      Ok {| Script.opcode := o; Script.step := length prefix; Script.data := Some d |}.
Proof.
  intros Hh. unfold uint in Hh.
  destruct (@Num.to_bytes_minimal E h) as (d & Hd & Hm & Hv); [unfold sint; lia..|].
  assert (zlen d <= 5) as Hl.
  { apply (Num.minimal_length_le d 5 Hm); [lia|]. rewrite Hv. change (256 ^ 5) with 1099511627776. lia. }
  destruct (@Builder.push_data_spec E Builder.default d) as (enc & o & Hp & _ & _ & Hi); [lia|].
  exists enc, o, d. split_and!; [|done|exact Hi]. unfold Builder.push_num. by rewrite Hd, ok_bind, Hp.
Qed.

Lemma starts_with_true s p : starts_with s p = true -> exists rest, s = p ++ rest.
Proof.
  unfold starts_with. intros H%bool_decide_eq_true. exists (drop (length p) s).
  rewrite <- H at 1. by rewrite take_drop.
Qed.

Definition coinbase_input_of (block : IndexedBlock) : option TransactionInput :=
  head (ib_transactions block) ≫= (fun tx => head (inputs (itx_raw tx))).

(** The coinbase's script starts with a push of the height. *)
Lemma coinbase_script_Ok block consensus height :
  uint 32 height -> bip34_height consensus <= height ->
  BlockCoinbaseScript_check block consensus height = Ok tt ->
  exists i ins d, coinbase_input_of block = Some i /\ Num.num_value d = height /\
    Script.get_instruction (script_sig i) 0 = Ok ins /\ Script.data ins = Some d.
Proof.
  intros Hh Hb. unfold BlockCoinbaseScript_check. rewrite (proj2 (Z.leb_le _ _) Hb). cbn [negb].
  destruct (@push_num_decodes Error height Hh) as (prefix & o & d & Hp & Hv & Hi). rewrite Hp, ok_bind.
  fold (coinbase_input_of block). destruct (coinbase_input_of block) as [i|]; [|done].
  destruct (starts_with _ _) eqn:Hs; [|done]. apply starts_with_true in Hs as [rest Hs].
  intros _. eexists i, _, d. rewrite Hs, Hi. done.
Qed.

(** * The order of transactions *)

Definition hash_lt (a b : bytes) : Prop := hash_ltb a b = true.

Lemma hash_ltb_irrefl a : hash_ltb a a = false.
Proof. induction a as [|x a IH]; [done|]. cbn. by rewrite Z.ltb_irrefl, Z.eqb_refl, IH. Qed.

#[global] Instance hash_lt_trans : Transitive hash_lt.
Proof.
  unfold hash_lt. intros a. induction a as [|x a IH]; intros [|y b] [|z c]; cbn; try done.
  rewrite !orb_true_iff, !andb_true_iff, !Z.ltb_lt, !Z.eqb_eq.
  intros [Hxy|[Hxy Hab]] [Hyz|[Hyz Hbc]]; [left; lia..|]. right. split; [lia|by eapply IH].
Qed.

Lemma windows2_drop {A} (l : list A) : drop 1 (windows2 l) = windows2 (drop 1 l).
Proof. destruct l as [|a [|b l]]; cbn; by rewrite ?drop_0. Qed.

Lemma windows2_Sorted {A} (R : A -> A -> bool) (l : list A) :
  forallb (fun w => R w.1 w.2) (windows2 l) = true <-> Sorted (fun a b => R a b = true) l.
Proof.
  induction l as [|a [|b l] IH]; [by split; [constructor|]|by split; [repeat constructor|]|].
  change (windows2 (a :: b :: l)) with ((a, b) :: windows2 (b :: l)). cbn [forallb fst snd].
  rewrite andb_true_iff, IH. split.
  - intros [Hab Hs]. constructor; [done|]. by constructor.
  - intros Hs. inversion Hs as [|? ? Hs' Hd]; subst. inversion Hd; subst. done.
Qed.

Lemma Sorted_fmap_hash (l : list IndexedTransaction) :
  Sorted (fun a b => hash_ltb (itx_hash a) (itx_hash b) = true) l <-> Sorted hash_lt (map itx_hash l).
Proof.
  induction l as [|a [|b l] IH]; cbn [map]; [by split; constructor|by split; repeat constructor|].
  cbn [map] in IH. split; intros Hs; inversion Hs as [|? ? Hs' Hd]; subst; inversion Hd; subst;
    constructor; try (by apply IH); by constructor.
Qed.

Lemma StronglySorted_NoDup (l : list bytes) : StronglySorted hash_lt l -> NoDup l.
Proof.
  induction 1 as [|a l Hs IH Hall]; constructor; [|done]. intros Hin.
  rewrite Forall_forall in Hall. specialize (Hall a Hin). unfold hash_lt in Hall.
  by rewrite hash_ltb_irrefl in Hall.
Qed.

(** * The witness commitment *)

Section commitment.
Context `{Crypto}.

(** The nonce of a commitment. *)
Definition coinbase_nonce (coinbase : Transaction) : bytes :=
  default [] (head (inputs coinbase) ≫= fun i => head (script_witness i)).

Lemma check_commitment_Ok block coinbase commitment :
  check_commitment block coinbase commitment = Ok tt ->
  exists root nonce, @block_witness_merkle_root _ Error block = Ok root /\ length nonce = 32%nat /\
    nonce = coinbase_nonce coinbase /\ firstn 32 (drop 6 (script_pubkey commitment)) = dhash256 (root ++ nonce).
Proof.
  unfold check_commitment. intros H0. apply bind_Ok in H0 as (root & Hroot & H0).
  apply bind_Ok in H0 as (nonce_ok & Hn & H0). destruct nonce_ok; [|done]. cbn [negb] in H0.
  apply bind_Ok in H0 as (i & Hi & H0). apply bind_Ok in H0 as (nonce & Hnonce & H0).
  destruct (negb _); [done|]. rewrite Hi, ok_bind, Hnonce, ok_bind in Hn. injection Hn as Hn.
  apply bind_Ok in H0 as (c & Hc & H0). apply bind_Ok in H0 as (c' & Hc' & H0).
  apply fail_if_Ok_tt, negb_false_iff, bool_decide_eq_true in H0.
  exists root, nonce. split_and!; [done|apply Z.eqb_eq in Hn; lia| |].
  { unfold coinbase_nonce. destruct (inputs coinbase); [done|]. injection Hi as ->. cbn.
    destruct (script_witness i); [done|]. by injection Hnonce as ->. }
  rewrite H0. clear H0 Hi Hnonce.
  unfold checked_slice in Hc, Hc'. destruct (_ && _); [|done]. injection Hc as <-.
  destruct (_ && _); [|done]. injection Hc' as <-. unfold slice. rewrite drop_0, Nat.sub_0_r.
  by rewrite (take_ge (drop 6 (script_pubkey commitment)) (length (script_pubkey commitment) - 6))
    by (rewrite length_drop; lia).
Qed.

(** The leaves the commitment is made of. *)
Definition witness_leaves (txs : list IndexedTransaction) : list bytes :=
  match txs with
  | [] => []
  | _ :: rest => zero_hash :: map (fun tx => witness_hash (itx_raw tx)) rest
  end.

Lemma block_witness_Ok block cb rest commitment :
  ib_transactions block = cb :: rest -> witness_commitment (itx_raw cb) = Some commitment ->
  BlockWitness_check block true = Ok tt -> check_commitment block (itx_raw cb) commitment = Ok tt.
Proof.
  intros Hb Hc. unfold BlockWitness_check. rewrite Hb, Hc. cbn [negb]. intros H0.
  apply bind_Ok in H0 as (b & H0 & _). apply bind_Ok in H0 as ([] & H0 & _). done.
Qed.

End commitment.

Lemma witness_leaves_32 `{CryptoLaws} txs : Forall (fun h : bytes => length h = 32%nat) (witness_leaves txs).
Proof.
  destruct txs as [|tx rest]; [constructor|]. constructor; [done|].
  apply Forall_map, Forall_true. intros. apply length_dhash256.
Qed.

Lemma no_double_spend block store cb rest :
  ib_transactions block = cb :: rest -> Forall no_coinbase rest ->
  Forall (fun tx => TransactionDoubleSpend_check tx
            (DuplexTransactionOutputProvider store (block_provider block)) = Ok tt) rest ->
  NoDup (prevouts rest) /\ Forall (fun o => is_spent store o = false) (prevouts rest).
Proof.
  intros Htx Hn Hall.
  assert (Forall (fun o => is_spent (DuplexTransactionOutputProvider store (block_provider block)) o = false)
    (prevouts rest)) as Hs.
  { clear Htx. induction Hn as [|tx l Ht _ IH]; [constructor|]. apply Forall_cons in Hall as [H1 H2].
    rewrite prevouts_cons, Forall_app. split; [by apply double_spend_check_Ok|by apply IH]. }
  cbn [is_spent DuplexTransactionOutputProvider block_provider] in Hs. rewrite Htx in Hs. split.
  - apply (unspent_NoDup cb). eapply Forall_impl; [exact Hs|]. cbn. intros o Ho. by apply orb_false_iff in Ho as [].
  - eapply Forall_impl; [exact Hs|]. cbn. intros o Ho. by apply orb_false_iff in Ho as [].
Qed.

(** * Signature operations of a pay-to-script-hash spend *)

(** The pushes without data: their last instruction has none to count. *)
Lemma p2sh_sigops_panic {E} o cds prev_out :
  opcode_leb OP_1NEGATE o = true -> opcode_leb o OP_16 = true ->
  Script.is_pay_to_script_hash prev_out = true ->
  @Script.pay_to_script_hash_sigops E [opcode_byte o] cds prev_out = Panic.
Proof.
  intros H1 H2 Hp. unfold Script.pay_to_script_hash_sigops. rewrite Hp.
  destruct o; try discriminate H1; try discriminate H2; reflexivity.
Qed.

Lemma transaction_sigops_panic {E} tx store cds i rest o out :
  inputs tx = i :: rest -> is_coinbase tx = false -> script_bytes tx < 2 ^ 59 ->
  script_sig i = [opcode_byte o] -> opcode_leb OP_1NEGATE o = true -> opcode_leb o OP_16 = true ->
  transaction_output store (previous_output i) usize_max = Some out ->
  Script.is_pay_to_script_hash (script_pubkey out) = true ->
  @transaction_sigops E tx store true cds = Panic.
Proof.
  intros Hi Hc Hl Hs H1 H2 Ho Hp. unfold transaction_sigops.
  destruct (@output_sigops_bound E tx cds Hl) as (n & -> & _). rewrite ok_bind, Hc, Hi.
  cbn [input_sigops_loop]. rewrite Hs.
  destruct (@sigops_count_bound E [opcode_byte o] cds) as (m & -> & Hm); [cbn; lia|].
  cbn [length] in Hm. rewrite ok_bind, ucheck_Ok, ok_bind by (unfold uint; lia).
  by rewrite Ho, (p2sh_sigops_panic o cds _ H1 H2 Hp).
Qed.

(** * Properties *)

(** C6: Value is conserved: in a block whose coinbase claim is accepted, all outputs
    together carry at most what all inputs refer to plus the reward of the height. *)
Theorem accepted_value_conserved block consensus height median_time_past store :
  BlockCoinbaseClaim_check block consensus height median_time_past store = Ok tt ->
  Forall u64_outputs (ib_transactions block) ->
  let total := referenced_total (DuplexTransactionOutputProvider store (block_provider block))
                 (transaction_ordering (fork consensus) median_time_past) 1 (drop 1 (ib_transactions block)) in
  total + block_reward_satoshi height < u64_max ->
  sumZ (fun tx => carried (itx_raw tx)) (ib_transactions block) <= total + block_reward_satoshi height.
Proof.
  intros Hok Hw total Hb. destruct (coinbase_claim_Ok _ _ _ _ _ Hw Hok) as (cb & rest & Htx & Hsum & Hall).
  subst total. rewrite Htx in *. cbn [drop] in *. rewrite drop_0 in *. cbn zeta in *.
  by rewrite <- (sum_carried _ _ Hw Hall Hb).
Qed.

(** C7: In a block after pre-verification, when every transaction passes the double-spend
    check, no two inputs refer to the same output, and none refers to an output that
    the chain has spent. *)
Theorem accepted_no_double_spend block store cb rest :
  ib_transactions block = cb :: rest -> Forall no_coinbase rest ->
  Forall (fun tx => TransactionDoubleSpend_check tx
            (DuplexTransactionOutputProvider store (block_provider block)) = Ok tt) rest ->
  NoDup (prevouts rest) /\ Forall (fun o => is_spent store o = false) (prevouts rest).
Proof. apply no_double_spend. Qed.

(** Once BIP34 is active, coinbases of blocks at different heights have different input
    scripts; so their hashes differ, or their two encodings collide. *)
Theorem coinbase_heights_distinct `{Crypto} consensus block block' height height' cb cb' :
  uint 32 height -> uint 32 height' ->
  bip34_height consensus <= height -> bip34_height consensus <= height' ->
  BlockCoinbaseScript_check block consensus height = Ok tt ->
  BlockCoinbaseScript_check block' consensus height' = Ok tt ->
  head (ib_transactions block) = Some cb -> head (ib_transactions block') = Some cb' ->
  wf_tx (itx_raw cb) -> wf_tx (itx_raw cb') ->
  transaction_hash (itx_raw cb) = transaction_hash (itx_raw cb') ->
  height = height' \/
  collides [Ser.to_bytes transaction_codec (itx_raw cb); Ser.to_bytes transaction_codec (itx_raw cb')].
Proof.
  intros Hh Hh' Hb Hb' Hok Hok' Hcb Hcb' Hw Hw' Heq.
  destruct (coinbase_script_Ok _ _ _ Hh Hb Hok) as (i & ins & d & Hi & Hv & Hins & Hd).
  destruct (coinbase_script_Ok _ _ _ Hh' Hb' Hok') as (i' & ins' & d' & Hi' & Hv' & Hins' & Hd').
  unfold coinbase_input_of in Hi, Hi'. rewrite Hcb in Hi. rewrite Hcb' in Hi'. cbn in Hi, Hi'.
  destruct (decide (Ser.to_bytes transaction_codec (itx_raw cb) = Ser.to_bytes transaction_codec (itx_raw cb')))
    as [He|Hne]; [|right; eexists _, _; split_and!; [by left|right; by left|exact Hne|exact Heq]].
  left. apply (Ser.to_bytes_inj transaction_codec (fun _ tx => wf_tx tx) kept 0) in He; [|done..].
  change (strip_witness (itx_raw cb) = strip_witness (itx_raw cb')) in He. injection He as _ He _ _.
  destruct (inputs (itx_raw cb)) as [|j l]; [done|]. injection Hi as ->.
  destruct (inputs (itx_raw cb')) as [|j' l']; [done|]. injection Hi' as ->.
  injection He as _ He _ _. congruence.
Qed.

(** Under canonical ordering a block passes exactly when the hashes after the coinbase
    are strictly increasing; they are then pairwise different. *)
Theorem canonical_order block consensus median_time_past :
  transaction_ordering (fork consensus) median_time_past = Canonical ->
  (BlockTransactionOrdering_check block consensus median_time_past = Ok tt <->
   StronglySorted hash_lt (map itx_hash (drop 1 (ib_transactions block)))) /\
  (BlockTransactionOrdering_check block consensus median_time_past = Ok tt ->
   NoDup (map itx_hash (drop 1 (ib_transactions block)))).
Proof.
  intros Ho. assert (BlockTransactionOrdering_check block consensus median_time_past = Ok tt <->
    StronglySorted hash_lt (map itx_hash (drop 1 (ib_transactions block)))) as Hiff.
  { unfold BlockTransactionOrdering_check. rewrite Ho, windows2_drop. split.
    - destruct (forallb _ _) eqn:Hf; [|done]. intros _.
      apply (windows2_Sorted (fun a b => hash_ltb (itx_hash a) (itx_hash b))), Sorted_fmap_hash in Hf.
      apply Sorted_StronglySorted; [apply hash_lt_trans|done].
    - intros Hs%StronglySorted_Sorted%Sorted_fmap_hash.
      apply (windows2_Sorted (fun a b => hash_ltb (itx_hash a) (itx_hash b))) in Hs. by rewrite Hs. }
  split; [done|]. intros Hok%Hiff. by apply StronglySorted_NoDup.
Qed.

(** The strings that the commitment check of a block hashes: the nodes of the witness
    tree, and its root with the nonce. *)
Definition commitment_strings `{Crypto} (block : IndexedBlock) : list bytes :=
  match @block_witness_merkle_root _ Error block, ib_transactions block with
  | Ok root, cb :: _ =>
      (root ++ coinbase_nonce (itx_raw cb)) :: merkle_nodes (witness_leaves (ib_transactions block))
  | _, _ => []
  end.

(** The witness commitment binds the witnesses: two accepted blocks with as many
    transactions and the same coinbase outputs, one of them a commitment, have the same
    witness hashes, or two of the strings that their checks hash collide. *)
Theorem witness_commitment_binding `{CryptoLaws} block block' cb cb' rest rest' :
  ib_transactions block = cb :: rest -> ib_transactions block' = cb' :: rest' ->
  length rest = length rest' -> outputs (itx_raw cb) = outputs (itx_raw cb') ->
  witness_commitment (itx_raw cb) <> None ->
  BlockWitness_check block true = Ok tt -> BlockWitness_check block' true = Ok tt ->
  map (fun tx => witness_hash (itx_raw tx)) rest = map (fun tx => witness_hash (itx_raw tx)) rest' \/
  collides (commitment_strings block ++ commitment_strings block').
Proof.
  intros Hb Hb' Hl Ho Hc Hok Hok'. destruct (witness_commitment (itx_raw cb)) as [c|] eqn:Hw; [|done].
  assert (witness_commitment (itx_raw cb') = Some c) as Hw'.
  { rewrite <- Hw. unfold witness_commitment. by rewrite Ho. }
  apply (block_witness_Ok _ _ _ _ Hb Hw), check_commitment_Ok in Hok as (root & nonce & Hr & Hn & Hnonce & He).
  apply (block_witness_Ok _ _ _ _ Hb' Hw'), check_commitment_Ok in Hok' as (root' & nonce' & Hr' & Hn' & Hnonce' & He').
  unfold commitment_strings. rewrite Hr, Hr', Hb, Hb', <- Hnonce, <- Hnonce', <- Hb, <- Hb'.
  rewrite He in He'. destruct (decide (root ++ nonce = root' ++ nonce')) as [Heq|Hne];
    [|right; exists (root ++ nonce), (root' ++ nonce'); split_and!; [set_solver..|done|done]].
  apply app_inj_2 in Heq as [-> _]; [|lia]. rewrite <- Hr' in Hr.
  unfold block_witness_merkle_root in Hr. fold (witness_leaves (ib_transactions block)) in Hr.
  fold (witness_leaves (ib_transactions block')) in Hr.
  destruct (merkle_root_inj (witness_leaves (ib_transactions block)) (witness_leaves (ib_transactions block'))
    ltac:(rewrite Hb, Hb'; cbn; rewrite !length_map; lia) ltac:(by rewrite Hb) (witness_leaves_32 _)
    (witness_leaves_32 _) Hr) as [Hleaves|Hc']; [left|right].
  - rewrite Hb, Hb' in Hleaves. by injection Hleaves.
  - eapply collides_mono; [|exact Hc']. set_solver.
Qed.

(** A transaction whose first input spends a pay-to-script-hash output with the single
    opcode OP_1NEGATE, OP_RESERVED or OP_1 to OP_16 makes the acceptance of the memory
    pool panic at the signature-operation check, before any script is evaluated. *)
Theorem mempool_p2sh_panics `{Crypto} `{Secp256k1} `{BitVec} `{!TransactionMetaProvider}
    consensus store tx height time mtp max_sigops eval i rest o out :
  inputs (itx_raw tx) = i :: rest -> is_coinbase (itx_raw tx) = false -> script_bytes (itx_raw tx) < 2 ^ 59 ->
  script_sig i = [opcode_byte o] -> opcode_leb OP_1NEGATE o = true -> opcode_leb o OP_16 = true ->
  transaction_output store (previous_output i) usize_max = Some out ->
  Script.is_pay_to_script_hash (script_pubkey out) = true -> bip16_time consensus <= time ->
  TransactionSize_check tx consensus mtp = Ok tt -> TransactionMissingInputs_check tx store 0 = Ok tt ->
  TransactionMaturity_check tx height = Ok tt -> TransactionOverspent_check tx store = Ok tt ->
  MemoryPoolTransactionAcceptor_check consensus store tx height time mtp max_sigops eval = Panic.
Proof.
  intros Hi Hc Hl Hs Hlo Hhi Ho Hp Hb Hsize Hmiss Hmat Hover. unfold MemoryPoolTransactionAcceptor_check.
  rewrite Hsize, ok_bind, Hmiss, ok_bind, Hmat, ok_bind, Hover, ok_bind.
  unfold Accept.TransactionSigops_check. rewrite (proj2 (Z.leb_le _ _) Hb).
  by rewrite (transaction_sigops_panic _ store _ i rest o out).
Qed.

(** The first transaction of a block provides its outputs to the others, in either order. *)
Lemma block_provides_first block cb rest o out ordering j :
  ib_transactions block = cb :: rest -> op_hash o = itx_hash cb ->
  outputs (itx_raw cb) !! Z.to_nat (op_index o) = Some out ->
  transaction_output (block_provider block) o (transaction_index_for_output_check ordering (Z.of_nat (S j))) = Some out.
Proof.
  intros Hb Hh Ho. cbn [block_provider transaction_output]. rewrite Hb. cbn [length].
  set (n := Z.to_nat _). assert (0 < n)%nat as Hn.
  { unfold n, transaction_index_for_output_check, usize_max. destruct ordering; lia. }
  destruct n as [|n]; [lia|]. unfold block_transaction_output. cbn [firstn List.find].
  rewrite bool_decide_true by done. done.
Qed.

(** The coinbase of a block can be spent in the same block, whatever the height: it has no
    metadata yet, so the maturity rule does not see it, and the block itself provides its
    outputs. *)
Theorem same_block_coinbase_spent `{BitVec} `{!TransactionMetaProvider} block store cb rest j tx i out ordering height :
  ib_transactions block = cb :: rest -> rest !! j = Some tx -> inputs (itx_raw tx) = [i] ->
  op_hash (previous_output i) = itx_hash cb ->
  outputs (itx_raw cb) !! Z.to_nat (op_index (previous_output i)) = Some out ->
  transaction_meta (itx_hash cb) = None ->
  TransactionMaturity_check tx height = Ok tt /\
  TransactionMissingInputs_check tx (DuplexTransactionOutputProvider store (block_provider block))
    (transaction_index_for_output_check ordering (Z.of_nat (S j))) = Ok tt.
Proof.
  intros Hb Hj Hi Hh Ho Hm. split.
  - unfold TransactionMaturity_check. rewrite Hi. cbn [immature_spend]. by rewrite Hh, Hm.
  - apply missing_inputs_Ok. rewrite Hi. apply Forall_singleton. right.
    cbn [DuplexTransactionOutputProvider transaction_output].
    destruct (transaction_output store _ _); [done|]. by rewrite (block_provides_first block cb rest _ out).
Qed.

(** * Witnesses *)

Section witnesses.
Import ExampleCrypto Keys.ExampleKeys ExampleBits.

Definition core : ConsensusParams := params_new Unitest BitcoinCore.
Definition cash : ConsensusParams := params_new Unitest (BitcoinCash (bch_params_new Unitest)).
Definition example_coinbase (script : bytes) (value : Z) : IndexedTransaction :=
  indexed_from_raw (mkTx 1 [coinbase_input script] [mkOutput value [x51]] 0).
Definition utxo (n : Z) : OutPoint := mkOutPoint (replicate 32 x07) n.
Definition spending (n value : Z) (script : bytes) : IndexedTransaction :=
  indexed_from_raw (mkTx 1 [mkInput (utxo n) script 4294967295 []] [mkOutput value [x51]] 0).
Definition block_of (txs : list IndexedTransaction) : IndexedBlock :=
  mkIndexedBlock (mkIndexedHeader (le_bytes 32 2) (mkHeader 1 zero_hash zero_hash 2000 0 0)) txs.
(** Every output of one transaction is worth ten and locked by a script hash. *)
Definition p2sh_store : TransactionOutputProvider :=
  mkProvider (fun o _ => if decide (op_hash o = replicate 32 x07)
                         then Some (mkOutput 10 ([xa9; x14] ++ replicate 20 x00 ++ [x87])) else None)
    (fun _ => false).
Definition no_metas : TransactionMetaProvider := fun _ => None.

Lemma accepted_value_conserved_witness :
  let block := block_of [example_coinbase [x51; x51] 5000000003; spending 0 7 []] in
  BlockCoinbaseClaim_check block core 1 0 p2sh_store = Ok tt /\
  sumZ (fun tx => carried (itx_raw tx)) (ib_transactions block) <= 10 + block_reward_satoshi 1.
Proof.
  split; [vm_compute; reflexivity|].
  apply (accepted_value_conserved (block_of [example_coinbase [x51; x51] 5000000003; spending 0 7 []]) core 1 0 p2sh_store).
  - vm_compute. reflexivity.
  - repeat constructor; vm_compute; intuition discriminate.
  - vm_compute. reflexivity.
Defined.

Lemma accepted_no_double_spend_witness :
  let rest := [spending 0 7 []; spending 1 7 []] in
  NoDup (prevouts rest) /\ Forall (fun o => is_spent p2sh_store o = false) (prevouts rest).
Proof.
  apply (accepted_no_double_spend (block_of [example_coinbase [x51; x51] 5; spending 0 7 []; spending 1 7 []])
    p2sh_store (example_coinbase [x51; x51] 5)).
  - reflexivity.
  - repeat constructor.
  - repeat constructor.
Defined.

Lemma coinbase_heights_distinct_witness :
  let cb := itx_raw (example_coinbase [x04; x00; xe1; xf5; x05; x00] 5) in
  100000000 = 100000000 \/ collides [Ser.to_bytes transaction_codec cb; Ser.to_bytes transaction_codec cb].
Proof.
  apply (coinbase_heights_distinct core (block_of [example_coinbase [x04; x00; xe1; xf5; x05; x00] 5])
    (block_of [example_coinbase [x04; x00; xe1; xf5; x05; x00] 5]) 100000000 100000000
    (example_coinbase [x04; x00; xe1; xf5; x05; x00] 5) (example_coinbase [x04; x00; xe1; xf5; x05; x00] 5));
    try (vm_compute; intuition congruence); try reflexivity.
  all: split; cbn; unfold sint, uint, Ser.isize_max; repeat constructor; cbn; unfold Ser.isize_max; (done || lia).
Defined.

Definition ordered_block : IndexedBlock :=
  block_of [example_coinbase [x51; x51] 5; mkIndexedTx (replicate 32 x01) (itx_raw (spending 0 7 []));
            mkIndexedTx (replicate 32 x02) (itx_raw (spending 1 7 []))].

Lemma canonical_order_witness :
  BlockTransactionOrdering_check ordered_block cash 1542300000 = Ok tt /\
  NoDup (map itx_hash (drop 1 (ib_transactions ordered_block))).
Proof.
  split; [vm_compute; reflexivity|]. apply (canonical_order ordered_block cash 1542300000).
  - reflexivity.
  - vm_compute. reflexivity.
Defined.

(** A coinbase with a commitment to no other witnesses: the root is the zero hash. *)
Definition committed : IndexedTransaction :=
  indexed_from_raw (mkTx 1 [mkInput null_outpoint [x51; x51] 4294967295 [replicate 32 x01]]
    [mkOutput 0 ([x6a; x24; xaa; x21; xa9; xed] ++ dhash256 (zero_hash ++ replicate 32 x01))] 0).

Lemma witness_commitment_binding_witness :
  map (fun tx => witness_hash (itx_raw tx)) [] = map (fun tx => witness_hash (itx_raw tx)) [] \/
  collides (commitment_strings (block_of [committed]) ++ commitment_strings (block_of [committed])).
Proof.
  apply (witness_commitment_binding (block_of [committed]) (block_of [committed]) committed committed [] []);
    try reflexivity; vm_compute; (reflexivity || discriminate).
Defined.

Lemma mempool_p2sh_panics_witness :
  @MemoryPoolTransactionAcceptor_check _ _ _ core no_metas p2sh_store (spending 0 7 [x51]) 1 1333238400 0 20000
    (TransactionEval_new core Full 1 1333238400 0 true false) = Panic.
Proof.
  apply (@mempool_p2sh_panics _ _ _ no_metas core p2sh_store (spending 0 7 [x51]) 1 1333238400 0 20000
    (TransactionEval_new core Full 1 1333238400 0 true false)
    (mkInput (utxo 0) [x51] 4294967295 []) [] OP_1 (mkOutput 10 ([xa9; x14] ++ replicate 20 x00 ++ [x87])));
    try reflexivity; vm_compute; intuition congruence.
Defined.

(** The second transaction spends the coinbase of its block. *)
Definition spending_coinbase : IndexedTransaction :=
  indexed_from_raw (mkTx 1 [mkInput (mkOutPoint (itx_hash (example_coinbase [x51; x51] 5)) 0) [] 4294967295 []]
    [mkOutput 5 [x51]] 0).

Lemma same_block_coinbase_spent_witness :
  @TransactionMaturity_check spending_coinbase _ no_metas 1 = Ok tt.
Proof.
  apply (@same_block_coinbase_spent _ no_metas
    (block_of [example_coinbase [x51; x51] 5; spending_coinbase]) NoopStore
    (example_coinbase [x51; x51] 5) [spending_coinbase] 0 spending_coinbase
    (mkInput (mkOutPoint (itx_hash (example_coinbase [x51; x51] 5)) 0) [] 4294967295 []) (mkOutput 5 [x51])
    Topological 1); reflexivity.
Defined.

End witnesses.

End AcceptSpec.
