(* ===== verification/ChainVerifier.v ===== *)
(** The chain verifier (src/verification/src/chain_verifier.rs): which checks run for a
    block by its origin, for a header, and for a transaction of the memory pool. *)
From Stdlib Require Import ZArith Lia Strings.Byte.
From stdpp Require Import base decidable numbers countable gmap strings list.
From S2P Require Import Prelude Opcode Crypto Keys Serialization Chain ChainHash.
From S2P Require Import U256 Compact Network Work Storage Deployments Verify Accept AcceptSpec.

Local Open Scope Z_scope.

Module ChainVerifier.
Import Chain ChainHash Network Work Storage Deployments Verify Accept AcceptSpec.

(** The traits [Store] and [CanonStore] (store.rs, block_chain.rs of src/storage), as far
    as verification reads them. *)
Record Store `{BitVec} := mkStore {
  best_block : BestBlock;
  store_block_hash : Z -> option bytes;
  as_block_header_provider : BlockHeaderProvider;
  as_transaction_output_provider : TransactionOutputProvider;
  as_transaction_meta_provider : TransactionMetaProvider;
}.

Record CanonStore `{BitVec} := mkCanonStore {
  as_store : Store;
  block_origin : IndexedBlockHeader -> outcome StorageError BlockOrigin;
  fork_store : SideChainOrigin -> outcome StorageError Store;
}.

(** * Results with the deployment cache *)

(** The cache is behind a lock in the verifier and outlives errors. *)
Definition cached_result (E A : Type) : Type := DeploymentStateCache -> outcome E A * DeploymentStateCache.

#[global] Instance cached_bind E : MBind (cached_result E) := fun A B f m cache =>
  match m cache with
  | (Ok a, cache') => f a cache'
  | (Err e, cache') => (Err e, cache')
  | (Panic, cache') => (Panic, cache')
  | (Diverge, cache') => (Diverge, cache')
  end.

(** A computation that does not touch the cache, and one that threads it. *)
Definition pure_result {E A} (m : outcome E A) : cached_result E A := fun cache => (m, cache).
Definition with_cache {E A} (m : DeploymentStateCache -> outcome E (A * DeploymentStateCache))
    : cached_result E A := fun cache =>
  match m cache with
  | Ok (a, cache') => (Ok a, cache')
  | Err e => (Err e, cache)
  | Panic => (Panic, cache)
  | Diverge => (Diverge, cache)
  end.

Section verifier.
Context `{Crypto} `{Secp256k1} `{U256} `{BitVec} `{Rayon}.

(** [assert_eq!(Some(best_block.hash), block_hash(best_block.number))]. *)
Definition best_block_consistent {E} (store : CanonStore) : outcome E unit :=
  let s := as_store store in
  rust_assert (bool_decide (store_block_hash s (bb_number (best_block s)) = Some (bb_hash (best_block s)))).

(** The arms of [verify_block]: the acceptor of a store, built and checked.  The
    transaction outputs go through a [CachedTransactionOutputProvider], which answers
    as the store does ([cached_provider_refines]). *)
Definition accept_in (s : Store) (consensus : ConsensusParams) (level : VerificationLevel)
    (block : IndexedBlock) (block_number median_time_past : Z) : cached_result Error unit :=
  let headers := as_block_header_provider s in
  acceptor ← with_cache (fun cache =>
    @ChainAcceptor_new headers consensus level Error cache block block_number median_time_past);
  pure_result (@ChainAcceptor_check _ _ _ _ headers _ consensus (as_transaction_meta_provider s) acceptor
                 (as_transaction_output_provider s) block block_number median_time_past).

(** The match on the origin. *)
Definition verify_origin (store : CanonStore) (consensus : ConsensusParams) (level : VerificationLevel)
    (block : IndexedBlock) (median_time_past : Z) (origin : BlockOrigin) : cached_result Error unit :=
  match origin with
  | KnownBlock => pure_result Panic
  | CanonChain block_number => accept_in (as_store store) consensus level block block_number median_time_past
  | SideChain o | SideChainBecomingCanonChain o =>
      s ← pure_result (map_err VerificationError.Database (fork_store store o));
      accept_in s consensus level block (so_block_number o) median_time_past
  end.

Definition verify_block (store : CanonStore) (consensus : ConsensusParams)
    (level : VerificationLevel) (current_time : Z) (block : IndexedBlock) : cached_result Error unit :=
  if bool_decide (level = NoVerification) then pure_result (Ok tt) else
  _ ← pure_result (ChainVerifier_check block (network consensus) current_time);
  _ ← pure_result (best_block_consistent store);
  origin ← pure_result (map_err VerificationError.Database (block_origin store (ib_header block)));
  median_time_past ← pure_result (@median_timestamp_inclusive (as_block_header_provider (as_store store)) _
                                    (previous_header_hash (ih_raw (ib_header block))));
  _ ← verify_origin store consensus level block median_time_past origin;
  pure_result (best_block_consistent store).

Definition verify_block_header (consensus : ConsensusParams) (current_time : Z) (hash : bytes)
    (header : BlockHeader) : outcome Error unit :=
  HeaderVerifier_check (mkIndexedHeader hash header) (network consensus) current_time.

Definition verify_mempool_transaction (store : Store) (consensus : ConsensusParams)
    (headers : BlockHeaderProvider) (prevouts : TransactionOutputProvider)
    (height time : Z) (tx : IndexedTransaction) : cached_result TxError unit :=
  segwit_active ← with_cache (fun cache => @segwit headers _ cache height consensus);
  _ ← pure_result (MemoryPoolTransactionVerifier_check tx segwit_active);
  let output_store := DuplexTransactionOutputProvider prevouts NoopStore in
  previous_block_number ← pure_result (expect (if is_uint 32 (height - 1) then Some (height - 1) else None));
  previous_block_header ← pure_result (expect (@block_header_of headers (Number previous_block_number)));
  median_time_past ← pure_result (@median_timestamp_inclusive headers _ (ih_hash previous_block_header));
  '(max_block_sigops, eval) ← with_cache (fun cache =>
    @MemoryPoolTransactionAcceptor_new headers consensus _ cache height time median_time_past);
  pure_result (@MemoryPoolTransactionAcceptor_check _ _ _ consensus (as_transaction_meta_provider store)
    output_store tx height time median_time_past max_block_sigops eval).

(** [Verify::verify]. *)
Definition verify (store : CanonStore) (consensus : ConsensusParams)
    (level : VerificationLevel) (current_time : Z) (block : IndexedBlock) : cached_result Error unit :=
  verify_block store consensus level current_time block.

End verifier.

(** * Lemmas *)

Lemma cached_bind_Ok {E A B} (m : cached_result E A) (f : A -> cached_result E B) cache b cache' :
  (m ≫= f) cache = (Ok b, cache') <-> exists a c, m cache = (Ok a, c) /\ f a c = (Ok b, cache').
Proof.
  unfold mbind, cached_bind. split.
  - destruct (m cache) as [[a|e| |] c]; intros; simplify_eq; eauto.
  - by intros (a & c & -> & Hf).
Qed.

Lemma pure_result_Ok {E A} (m : outcome E A) cache a cache' :
  pure_result m cache = (Ok a, cache') <-> m = Ok a /\ cache' = cache.
Proof. unfold pure_result. split; [intros; by simplify_eq|by intros [-> ->]]. Qed.

Lemma with_cache_Ok {E A} (m : DeploymentStateCache -> outcome E (A * DeploymentStateCache)) cache a cache' :
  with_cache m cache = (Ok a, cache') <-> m cache = Ok (a, cache').
Proof.
  unfold with_cache. destruct (m cache) as [[a' c]|e| |]; split; intros; by simplify_eq.
Qed.

(** The acceptors of a block's transactions, one for each, in order. *)
Lemma TransactionAcceptors_new_Ok `{BlockHeaderProvider} {E} consensus level cache txs idx height t mtp l cache' :
  @TransactionAcceptors_new _ consensus level E cache txs idx height t mtp = Ok (l, cache') ->
  map ta_transaction l = txs /\
  forall j a, l !! j = Some a -> ta_index a = (idx + j)%nat /\
    exists csv_active segwit_active,
      ta_eval a = TransactionEval_new consensus level height t mtp csv_active segwit_active.
Proof.
  revert cache idx l cache'. induction txs as [|tx txs IH]; intros cache idx l cache'; cbn [TransactionAcceptors_new].
  - intros [= <- <-]. split; [done|]. by intros [|j] a.
  - intros Hr. apply bind_Ok in Hr as ([a c1] & Ha & Hr). apply bind_Ok in Hr as ([l' c2] & Hl & Hr).
    injection Hr as <- <-. destruct (IH _ _ _ _ Hl) as [Hm Hall].
    unfold TransactionAcceptor_new in Ha. apply bind_Ok in Ha as ([s1 c3] & _ & Ha).
    apply bind_Ok in Ha as ([s2 c4] & _ & Ha). apply bind_Ok in Ha as ([s3 c5] & _ & Ha). injection Ha as <- <-.
    split; [cbn; by rewrite Hm|]. intros [|j] a.
    + intros [= <-]. cbn. split; [lia|eauto].
    + intros Hj. destruct (Hall j a Hj) as [-> He]. split; [lia|done].
Qed.

(** What a transaction acceptor that succeeds has checked. *)
Lemma TransactionAcceptor_check_Ok `{Crypto} `{Secp256k1} `{BitVec} `{!TransactionMetaProvider}
    consensus store hash height mtp a :
  TransactionAcceptor_check consensus store hash height mtp a = Ok tt ->
  let tx := ta_transaction a in
  TransactionMissingInputs_check tx store (transaction_index_for_output_check
    (transaction_ordering (fork consensus) mtp) (usize_index (ta_index a))) = Ok tt /\
  TransactionMaturity_check tx height = Ok tt /\
  TransactionDoubleSpend_check tx store = Ok tt /\
  TransactionEval_check tx (ta_eval a) store = Ok tt.
Proof. unfold TransactionAcceptor_check. rewrite !bind_unit_Ok. cbn zeta. tauto. Qed.

(** * What an accepted block is *)

(** The store and the height a block of the given origin is checked against. *)
Definition selected `{BitVec} (store : CanonStore) (origin : BlockOrigin) (s : Store) (height : Z) : Prop :=
  match origin with
  | KnownBlock => False
  | CanonChain n => s = as_store store /\ height = n
  | SideChain o | SideChainBecomingCanonChain o => fork_store store o = Ok s /\ height = so_block_number o
  end.

Section valid.
Context `{Crypto} `{Secp256k1} `{U256} `{BitVec}.
Context (s : Store) (consensus : ConsensusParams) (block : IndexedBlock) (height median_time_past : Z).

Abbreviation ordering := (transaction_ordering (fork consensus) median_time_past).
Abbreviation outputs_of := (DuplexTransactionOutputProvider (as_transaction_output_provider s) (block_provider block)).

(** Every input of the transaction at position [j] refers to an output of the chain or
    of the block, before the transaction unless the order is canonical, and its script
    is satisfied. *)
Record valid_inputs (j : nat) (tx : IndexedTransaction) : Prop := {
  vi_known : Forall (fun i => outpoint_is_null (previous_output i) = true \/
      transaction_output outputs_of (previous_output i)
        (transaction_index_for_output_check ordering (Z.of_nat j)) <> None) (inputs (itx_raw tx));
  vi_mature : @TransactionMaturity_check tx _ (as_transaction_meta_provider s) height = Ok tt;
  vi_scripts : exists csv_active segwit_active, forall k i, inputs (itx_raw tx) !! k = Some i ->
      input_verified (TransactionEval_new consensus Full height (time (ih_raw (ib_header block)))
        median_time_past csv_active segwit_active) outputs_of (itx_raw tx) k i;
}.

Record valid_block : Prop := {
  vb_pow : exists max, (m ← @max_bits _ Error (network consensus); Compact.from_u256 m) = Ok max /\
      is_valid_proof_of_work max (bits (ih_raw (ib_header block))) (ih_hash (ib_header block)) = true;
  vb_bits : @work_required _ (as_block_header_provider s) Error (previous_header_hash (ih_raw (ib_header block)))
      (time (ih_raw (ib_header block))) height consensus = Ok (bits (ih_raw (ib_header block)));
  vb_merkle_root : @block_merkle_root _ Error block = Ok (merkle_root_hash (ih_raw (ib_header block)));
  vb_claim : BlockCoinbaseClaim_check block consensus height median_time_past
      (as_transaction_output_provider s) = Ok tt;
  vb_transactions : exists cb rest, ib_transactions block = cb :: rest /\
      is_coinbase (itx_raw cb) = true /\ Forall no_coinbase rest /\
      NoDup (map itx_hash (cb :: rest)) /\ NoDup (prevouts rest) /\
      Forall (fun o => is_spent (as_transaction_output_provider s) o = false) (prevouts rest) /\
      forall j tx, rest !! j = Some tx -> valid_inputs (S j) tx;
}.

End valid.

Lemma header_verifier_pow `{U256} header net now :
  HeaderVerifier_check header net now = Ok tt ->
  exists max, (m ← @max_bits _ Error net; Compact.from_u256 m) = Ok max /\
    is_valid_proof_of_work max (bits (ih_raw header)) (ih_hash header) = true.
Proof.
  unfold HeaderVerifier_check, HeaderProofOfWork_check. rewrite bind_unit_Ok. intros [Hp _].
  apply bind_Ok in Hp as (m & Hm & Hp). apply bind_Ok in Hp as (max & Hmax & Hp).
  exists max. rewrite Hm, ok_bind. split; [done|]. by destruct (is_valid_proof_of_work _ _ _).
Qed.

Lemma header_acceptor_bits `{U256} `{BlockHeaderProvider} header height consensus csv_active :
  HeaderAcceptor_check header height consensus csv_active = Ok tt ->
  @work_required _ _ Error (previous_header_hash (ih_raw header)) (time (ih_raw header)) height consensus =
    Ok (bits (ih_raw header)).
Proof.
  unfold HeaderAcceptor_check, HeaderWork_check. rewrite !bind_unit_Ok. intros (_ & Hw & _).
  apply bind_Ok in Hw as (work & -> & Hw). destruct (Z.eqb_spec work (bits (ih_raw header))); [by subst|done].
Qed.

Section sound.
Context `{Crypto} `{Secp256k1} `{U256} `{BitVec} `{RayonLaws}.

(** The steps of [verify_block] that succeed. *)
Lemma verify_block_steps store consensus now block cache cache' :
  verify_block store consensus Full now block cache = (Ok tt, cache') ->
  exists origin mtp s height,
    ChainVerifier_check block (network consensus) now = Ok tt /\
    block_origin store (ib_header block) = Ok origin /\ selected store origin s height /\
    exists acceptor c,
      @ChainAcceptor_new (as_block_header_provider s) consensus Full Error cache block height mtp = Ok (acceptor, c) /\
      @ChainAcceptor_check _ _ _ _ (as_block_header_provider s) _ consensus (as_transaction_meta_provider s)
        acceptor (as_transaction_output_provider s) block height mtp = Ok tt.
Proof.
  unfold verify_block. cbn [bool_decide]. rewrite bool_decide_false by done. intros Hv.
  apply cached_bind_Ok in Hv as (? & c1 & Hpre & Hv). apply pure_result_Ok in Hpre as [Hpre ->].
  apply cached_bind_Ok in Hv as (? & c2 & Hb & Hv). apply pure_result_Ok in Hb as [_ ->].
  apply cached_bind_Ok in Hv as (origin & c3 & Ho & Hv). apply pure_result_Ok in Ho as [Ho ->].
  apply cached_bind_Ok in Hv as (mtp & c4 & Hm & Hv). apply pure_result_Ok in Hm as [_ ->].
  apply cached_bind_Ok in Hv as (? & c5 & Hv & _).
  destruct (block_origin store (ib_header block)) as [origin'| | |]; try done. injection Ho as ->.
  assert (exists s height, selected store origin s height /\
    accept_in s consensus Full block height mtp cache = (Ok (), c5)) as (s & height & Hs & Ha).
  { destruct x1. destruct origin as [|n|o|o]; cbn [verify_origin selected] in *; [done|by eexists _, _|..];
      apply cached_bind_Ok in Hv as (s & c6 & Hf & Hv); apply pure_result_Ok in Hf as [Hf ->];
      exists s, (so_block_number o); (split; [|done]); destruct (fork_store store o); by simplify_eq/=. }
  destruct x. unfold accept_in in Ha. apply cached_bind_Ok in Ha as (acceptor & c6 & Hn & Ha).
  apply with_cache_Ok in Hn. apply pure_result_Ok in Ha as [Ha ->].
  exists origin, mtp, s, height. split_and!; [done..|]. by exists acceptor, c6.
Qed.

Lemma checked_transactions s consensus cache block height mtp acceptor c cb rest :
  ib_transactions block = cb :: rest -> Forall no_coinbase rest ->
  @ChainAcceptor_new (as_block_header_provider s) consensus Full Error cache block height mtp = Ok (acceptor, c) ->
  check_transactions (@TransactionAcceptor_check _ _ _ consensus (as_transaction_meta_provider s)
    (DuplexTransactionOutputProvider (as_transaction_output_provider s) (block_provider block))
    (ih_hash (ib_header block)) height mtp) (ca_transactions acceptor) = Ok tt ->
  NoDup (prevouts rest) /\
  Forall (fun o => is_spent (as_transaction_output_provider s) o = false) (prevouts rest) /\
  forall j tx, rest !! j = Some tx -> valid_inputs s consensus block height mtp (S j) tx.
Proof.
  intros Htx Hnc Hn Hat. apply check_transactions_Ok in Hat.
  unfold ChainAcceptor_new in Hn. apply bind_Ok in Hn as ([b c1] & _ & Hn).
  apply bind_Ok in Hn as ([csv1 c2] & _ & Hn). apply bind_Ok in Hn as ([l c3] & Hl & Hn). injection Hn as <- _.
  cbn [ca_transactions] in Hat. apply TransactionAcceptors_new_Ok in Hl as [Hm Hall]. rewrite Htx in Hm.
  destruct l as [|a l]; [done|]. injection Hm as Ha Hm. apply Forall_cons in Hat as [_ Hat].
  assert (forall j tx, rest !! j = Some tx -> exists a, l !! j = Some a /\ ta_transaction a = tx) as Hlook.
  { intros j tx Hj. rewrite <- Hm in Hj. by apply list_lookup_fmap_Some in Hj as (a' & -> & Hj); eauto. }
  assert (Forall (fun tx => TransactionDoubleSpend_check tx (DuplexTransactionOutputProvider
    (as_transaction_output_provider s) (block_provider block)) = Ok tt) rest) as Hds.
  { rewrite <- Hm. apply Forall_map. eapply Forall_impl; [exact Hat|]. cbn.
    intros x Hx%TransactionAcceptor_check_Ok. tauto. }
  destruct (no_double_spend block _ cb rest Htx Hnc Hds) as [Hdup Hunspent].
  split_and!; [done..|]. intros j tx Hj. destruct (Hlook j tx Hj) as (a' & Ha' & <-).
  rewrite Forall_lookup in Hat. pose proof (Hat j a' Ha') as Hok.
  apply TransactionAcceptor_check_Ok in Hok as (Hmiss & Hmat & _ & Heval).
  destruct (Hall (S j) a' Ha') as (Hidx & csv_active & segwit_active & He).
  rewrite Hidx in Hmiss. split; [by apply missing_inputs_Ok in Hmiss|done|].
  exists csv_active, segwit_active. rewrite He in Heval. rewrite Forall_lookup in Hnc.
  apply eval_check_Ok; [done|by apply (Hnc j)|done].
Qed.

(** A block that the verifier and the acceptor of a store accept is valid there. *)
Lemma accepted_valid s consensus now block height mtp cache acceptor c :
  ChainVerifier_check block (network consensus) now = Ok tt ->
  @ChainAcceptor_new (as_block_header_provider s) consensus Full Error cache block height mtp = Ok (acceptor, c) ->
  @ChainAcceptor_check _ _ _ _ (as_block_header_provider s) _ consensus (as_transaction_meta_provider s)
    acceptor (as_transaction_output_provider s) block height mtp = Ok tt ->
  valid_block s consensus block height mtp.
Proof.
  intros Hpre Hn Ha. unfold ChainVerifier_check in Hpre. rewrite !bind_unit_Ok in Hpre. destruct Hpre as (Hb & Hh & _ & _).
  unfold ChainAcceptor_check in Ha. rewrite !bind_unit_Ok in Ha. destruct Ha as (Hab & Hah & Hat & _).
  split.
  - by apply header_verifier_pow in Hh.
  - by apply header_acceptor_bits in Hah.
  - apply block_verifier_iff in Hb as (cb & rest & n & _ & _ & _ & _ & _ & _ & _ & Hr). done.
  - unfold BlockAcceptor_check in Hab. rewrite !bind_unit_Ok in Hab. tauto.
  - apply block_verifier_iff in Hb as (cb & rest & n & Htx & Hcb & Hnc & Hd & _).
    destruct (checked_transactions _ _ _ _ _ _ _ _ _ _ Htx Hnc Hn Hat) as (Hdup & Hunspent & Hin).
    exists cb, rest. rewrite Htx in Hd. done.
Qed.


End sound.

End ChainVerifier.

(** * Witnesses *)

(** A chain of one block on the unit test network, and its second block: a coinbase
    that claims the reward. *)
Module ChainVerifierExamples.
Import Chain ChainHash Network Work Storage Deployments Verify Accept AcceptSpec ChainVerifier.
Import ExampleCrypto Keys.ExampleKeys ExampleU256 ExampleBits ExampleRayon.

Definition consensus : ConsensusParams := params_new Unitest BitcoinCore.
Definition easy_bits : Z := 553713663.
Definition genesis : IndexedBlockHeader :=
  mkIndexedHeader (le_bytes 32 1) (mkHeader 1 zero_hash zero_hash 1000 easy_bits 0).
Definition coinbase : Transaction := mkTx 1 [coinbase_input [x51; x51]] [mkOutput 5000000000 [x51]] 0.
Definition second_block : IndexedBlock :=
  mkIndexedBlock (mkIndexedHeader (le_bytes 32 2) (mkHeader 1 (le_bytes 32 1) (transaction_hash coinbase) 2000 easy_bits 0))
    [indexed_from_raw coinbase].

Definition example_store : Store := {|
  best_block := mkBest 0 (le_bytes 32 1);
  store_block_hash := fun n => if n =? 0 then Some (le_bytes 32 1) else None;
  as_block_header_provider := list_provider [genesis];
  as_transaction_output_provider := NoopStore;
  as_transaction_meta_provider := fun _ => None;
|}.
Definition example_canon_store : CanonStore := {|
  as_store := example_store;
  block_origin := fun _ => Ok (CanonChain 1);
  fork_store := fun _ => Err CannotCanonize;
|}.

Lemma pair_fst {A B} (p : A * B) a : p.1 = a -> p = (a, p.2).
Proof. intros <-. apply surjective_pairing. Qed.


End ChainVerifierExamples.
