(* ===== verification/Kv.v ===== *)
(** The key-value layer of the database (src/db/src/kv): keys, values and batches of
    operations (transaction.rs), the database in memory (memorydb.rs), overlays
    (overlaydb.rs) and the cache of headers (cachedb.rs).  RocksDB and the LRU cache are
    packages. *)
From Stdlib Require Import ZArith Lia Strings.Byte.
From stdpp Require Import base decidable numbers countable gmap strings list.
From S2P Require Import Prelude Crypto Serialization Chain ChainHash Storage.

Local Open Scope Z_scope.

(** * Keys, values and operations *)

Module Key.
Inductive Key :=
| Meta (key : string)
| BlockHash (number : Z)
| BlockHeader (hash : bytes)
| BlockTransactions (hash : bytes)
| Transaction (hash : bytes)
| TransactionMeta (hash : bytes)
| BlockNumber (hash : bytes)
| Configuration (key : string).

#[global] Instance Key_eq_dec : EqDecision Key.
Proof. solve_decision. Defined.

#[global] Instance Transaction_inj : Inj (=) (=) Transaction.
Proof. by intros ?? [=]. Qed.
End Key.

Module Value.
Inductive Value `{BitVec} :=
| Meta (value : bytes)
| BlockHash (hash : bytes)
| BlockHeader (header : Chain.BlockHeader)
| BlockTransactions (hashes : list bytes)
| Transaction (tx : Chain.Transaction)
| TransactionMeta (meta : Storage.TransactionMeta)
| BlockNumber (number : Z)
| Configuration (value : bytes).

Section values.
Context `{BitVec}.

Definition as_meta (self : Value) : option bytes := match self with Meta b => Some b | _ => None end.
Definition as_block_hash (self : Value) : option bytes := match self with BlockHash h => Some h | _ => None end.
Definition as_block_header (self : Value) : option Chain.BlockHeader :=
  match self with BlockHeader h => Some h | _ => None end.
Definition as_block_transactions (self : Value) : option (list bytes) :=
  match self with BlockTransactions l => Some l | _ => None end.
Definition as_transaction (self : Value) : option Chain.Transaction :=
  match self with Transaction t => Some t | _ => None end.
Definition as_transaction_meta (self : Value) : option Storage.TransactionMeta :=
  match self with TransactionMeta m => Some m | _ => None end.
Definition as_block_number (self : Value) : option Z := match self with BlockNumber n => Some n | _ => None end.
Definition as_configuration (self : Value) : option bytes :=
  match self with Configuration b => Some b | _ => None end.

End values.
End Value.

Module KeyValue.
Inductive KeyValue `{BitVec} :=
| Meta (key : string) (value : bytes)
| BlockHash (number : Z) (hash : bytes)
| BlockHeader (hash : bytes) (header : Chain.BlockHeader)
| BlockTransactions (hash : bytes) (hashes : list bytes)
| Transaction (hash : bytes) (tx : Chain.Transaction)
| TransactionMeta (hash : bytes) (meta : Storage.TransactionMeta)
| BlockNumber (hash : bytes) (number : Z)
| Configuration (key : string) (value : bytes).

(** The key and the value of an insertion. *)
Definition key_of `{BitVec} (kv : KeyValue) : Key.Key :=
  match kv with
  | Meta k _ => Key.Meta k
  | BlockHash k _ => Key.BlockHash k
  | BlockHeader k _ => Key.BlockHeader k
  | BlockTransactions k _ => Key.BlockTransactions k
  | Transaction k _ => Key.Transaction k
  | TransactionMeta k _ => Key.TransactionMeta k
  | BlockNumber k _ => Key.BlockNumber k
  | Configuration k _ => Key.Configuration k
  end.

Definition value_of `{BitVec} (kv : KeyValue) : Value.Value :=
  match kv with
  | Meta _ v => Value.Meta v
  | BlockHash _ v => Value.BlockHash v
  | BlockHeader _ v => Value.BlockHeader v
  | BlockTransactions _ v => Value.BlockTransactions v
  | Transaction _ v => Value.Transaction v
  | TransactionMeta _ v => Value.TransactionMeta v
  | BlockNumber _ v => Value.BlockNumber v
  | Configuration _ v => Value.Configuration v
  end.
End KeyValue.

Module KeyState.
Inductive KeyState (V : Type) := Insert (v : V) | Delete | Unknown.
Arguments Insert {V}.
Arguments Delete {V}.
Arguments Unknown {V}.

Definition map {V U} (f : V -> U) (self : KeyState V) : KeyState U :=
  match self with Insert v => Insert (f v) | Delete => Delete | Unknown => Unknown end.

Definition into_option {V} (self : KeyState V) : option V :=
  match self with Insert v => Some v | Delete | Unknown => None end.
End KeyState.

Module Kv.
Import Storage KeyState.

Inductive Operation `{BitVec} :=
| OpInsert (kv : KeyValue.KeyValue)
| OpDelete (key : Key.Key).

Definition into_operation `{BitVec} {K V} (self : KeyState V) (key : K)
    (insert : K -> V -> KeyValue.KeyValue) (delete : K -> Key.Key) : option Operation :=
  match self with
  | Insert v => Some (OpInsert (insert key v))
  | Delete => Some (OpDelete (delete key))
  | Unknown => None
  end.

(** [kv::Transaction]. *)
Definition Batch `{BitVec} : Type := list Operation.
Definition batch_insert `{BitVec} (self : Batch) (kv : KeyValue.KeyValue) : Batch := self ++ [OpInsert kv].
Definition batch_delete `{BitVec} (self : Batch) (key : Key.Key) : Batch := self ++ [OpDelete key].

(** The trait [KeyValueDatabase]. *)
Class KeyValueDatabase `{BitVec} (T : Type) := {
  kv_write : T -> Batch -> outcome string T;
  kv_get : T -> Key.Key -> outcome string (KeyState Value.Value);
}.

(** * The database in memory *)

Section memory.
Context `{BitVec}.

Record MemoryDatabase := mkMemory {
  m_meta : gmap string (KeyState bytes);
  m_block_hash : gmap Z (KeyState bytes);
  m_block_header : gmap bytes (KeyState Chain.BlockHeader);
  m_block_transactions : gmap bytes (KeyState (list bytes));
  m_transaction : gmap bytes (KeyState Chain.Transaction);
  m_transaction_meta : gmap bytes (KeyState TransactionMeta);
  m_block_number : gmap bytes (KeyState Z);
  m_configuration : gmap string (KeyState bytes);
}.

Definition memory_default : MemoryDatabase := mkMemory ∅ ∅ ∅ ∅ ∅ ∅ ∅ ∅.

(** One operation of [write]. *)
Definition memory_apply (db : MemoryDatabase) (op : Operation) : MemoryDatabase :=
  let '(mkMemory me bh hd bt tx tm bn cf) := db in
  match op with
  | OpInsert (KeyValue.Meta k v) => mkMemory (<[k := Insert v]> me) bh hd bt tx tm bn cf
  | OpInsert (KeyValue.BlockHash k v) => mkMemory me (<[k := Insert v]> bh) hd bt tx tm bn cf
  | OpInsert (KeyValue.BlockHeader k v) => mkMemory me bh (<[k := Insert v]> hd) bt tx tm bn cf
  | OpInsert (KeyValue.BlockTransactions k v) => mkMemory me bh hd (<[k := Insert v]> bt) tx tm bn cf
  | OpInsert (KeyValue.Transaction k v) => mkMemory me bh hd bt (<[k := Insert v]> tx) tm bn cf
  | OpInsert (KeyValue.TransactionMeta k v) => mkMemory me bh hd bt tx (<[k := Insert v]> tm) bn cf
  | OpInsert (KeyValue.BlockNumber k v) => mkMemory me bh hd bt tx tm (<[k := Insert v]> bn) cf
  | OpInsert (KeyValue.Configuration k v) => mkMemory me bh hd bt tx tm bn (<[k := Insert v]> cf)
  | OpDelete (Key.Meta k) => mkMemory (<[k := Delete]> me) bh hd bt tx tm bn cf
  | OpDelete (Key.BlockHash k) => mkMemory me (<[k := Delete]> bh) hd bt tx tm bn cf
  | OpDelete (Key.BlockHeader k) => mkMemory me bh (<[k := Delete]> hd) bt tx tm bn cf
  | OpDelete (Key.BlockTransactions k) => mkMemory me bh hd (<[k := Delete]> bt) tx tm bn cf
  | OpDelete (Key.Transaction k) => mkMemory me bh hd bt (<[k := Delete]> tx) tm bn cf
  | OpDelete (Key.TransactionMeta k) => mkMemory me bh hd bt tx (<[k := Delete]> tm) bn cf
  | OpDelete (Key.BlockNumber k) => mkMemory me bh hd bt tx tm (<[k := Delete]> bn) cf
  | OpDelete (Key.Configuration k) => mkMemory me bh hd bt tx tm bn (<[k := Delete]> cf)
  end.

Definition memory_write (db : MemoryDatabase) (tx : Batch) : outcome string MemoryDatabase :=
  Ok (fold_left memory_apply tx db).

Definition memory_state (db : MemoryDatabase) (key : Key.Key) : KeyState Value.Value :=
  match key with
  | Key.Meta k => map Value.Meta (default Unknown (m_meta db !! k))
  | Key.BlockHash k => map Value.BlockHash (default Unknown (m_block_hash db !! k))
  | Key.BlockHeader k => map Value.BlockHeader (default Unknown (m_block_header db !! k))
  | Key.BlockTransactions k => map Value.BlockTransactions (default Unknown (m_block_transactions db !! k))
  | Key.Transaction k => map Value.Transaction (default Unknown (m_transaction db !! k))
  | Key.TransactionMeta k => map Value.TransactionMeta (default Unknown (m_transaction_meta db !! k))
  | Key.BlockNumber k => map Value.BlockNumber (default Unknown (m_block_number db !! k))
  | Key.Configuration k => map Value.Configuration (default Unknown (m_configuration db !! k))
  end.

Definition memory_get (db : MemoryDatabase) (key : Key.Key) : outcome string (KeyState Value.Value) :=
  Ok (memory_state db key).

#[global] Instance memory_database : KeyValueDatabase MemoryDatabase :=
  {| kv_write := memory_write; kv_get := memory_get |}.

(** The operations of one map, in the order its iterator has. *)
Definition drain {K V} `{Countable K} (m : gmap K (KeyState V)) (insert : K -> V -> KeyValue.KeyValue)
    (delete : K -> Key.Key) : Batch :=
  omap (fun p => into_operation p.2 p.1 insert delete) (map_to_list m).

(** [drain_transaction] also empties the database. *)
Definition drain_transaction (db : MemoryDatabase) : Batch * MemoryDatabase :=
  (drain (m_meta db) KeyValue.Meta Key.Meta ++
   drain (m_block_hash db) KeyValue.BlockHash Key.BlockHash ++
   drain (m_block_header db) KeyValue.BlockHeader Key.BlockHeader ++
   drain (m_block_transactions db) KeyValue.BlockTransactions Key.BlockTransactions ++
   drain (m_transaction db) KeyValue.Transaction Key.Transaction ++
   drain (m_transaction_meta db) KeyValue.TransactionMeta Key.TransactionMeta ++
   drain (m_block_number db) KeyValue.BlockNumber Key.BlockNumber ++
   drain (m_configuration db) KeyValue.Configuration Key.Configuration, memory_default).

(** * Overlays *)

Section overlay.
Context {T : Type} `{!KeyValueDatabase T}.

Record OverlayDatabase := mkOverlay { o_db : T; o_overlay : MemoryDatabase }.

Definition overlay_new (db : T) : OverlayDatabase := mkOverlay db memory_default.

Definition overlay_flush (self : OverlayDatabase) : outcome string OverlayDatabase :=
  let '(tx, overlay) := drain_transaction (o_overlay self) in
  db ← kv_write (o_db self) tx;
  Ok (mkOverlay db overlay).

Definition overlay_write (self : OverlayDatabase) (tx : Batch) : outcome string OverlayDatabase :=
  overlay ← kv_write (o_overlay self) tx;
  Ok (mkOverlay (o_db self) overlay).

Definition overlay_get (self : OverlayDatabase) (key : Key.Key) : outcome string (KeyState Value.Value) :=
  state ← kv_get (o_overlay self) key;
  match state with
  | Unknown => kv_get (o_db self) key
  | exists_ => Ok exists_
  end.

#[global] Instance overlay_database : KeyValueDatabase OverlayDatabase :=
  {| kv_write := overlay_write; kv_get := overlay_get |}.

(** The overlay that writes itself to the database after [max_operations] writes. *)
Record AutoFlushingOverlayDatabase := mkAuto {
  a_db : T;
  a_overlay : MemoryDatabase;
  a_operations : Z;
  a_max_operations : Z;
}.

Definition auto_new (db : T) (max_operations : Z) : AutoFlushingOverlayDatabase :=
  mkAuto db memory_default 0 max_operations.

Definition auto_flush (self : AutoFlushingOverlayDatabase) : outcome string AutoFlushingOverlayDatabase :=
  let '(tx, overlay) := drain_transaction (a_overlay self) in
  db ← kv_write (a_db self) tx;
  Ok (mkAuto db overlay (a_operations self) (a_max_operations self)).

Definition auto_write (self : AutoFlushingOverlayDatabase) (tx : Batch)
    : outcome string AutoFlushingOverlayDatabase :=
  operations ← ucheck 64 (a_operations self + 1);
  overlay ← kv_write (a_overlay self) tx;
  let self := mkAuto (a_db self) overlay operations (a_max_operations self) in
  if operations =? a_max_operations self then
    self ← auto_flush self;
    Ok (mkAuto (a_db self) (a_overlay self) 0 (a_max_operations self))
  else Ok self.

Definition auto_get (self : AutoFlushingOverlayDatabase) (key : Key.Key)
    : outcome string (KeyState Value.Value) :=
  state ← kv_get (a_overlay self) key;
  match state with
  | Unknown => kv_get (a_db self) key
  | exists_ => Ok exists_
  end.

#[global] Instance auto_database : KeyValueDatabase AutoFlushingOverlayDatabase :=
  {| kv_write := auto_write; kv_get := auto_get |}.

End overlay.
End memory.
Arguments OverlayDatabase {_} T.
Arguments AutoFlushingOverlayDatabase {_} T.

(** * The cache of headers *)

(** The lru_cache package: [insert] may evict entries, [get_mut] only reorders them. *)
Class LruCache (K V : Type) := {
  lru_cache : Type;
  lru_new : Z -> lru_cache;
  lru_insert : lru_cache -> K -> V -> lru_cache;
  lru_get_mut : lru_cache -> K -> option V * lru_cache;
}.
Arguments lru_cache K V {_}.

Class LruCacheLaws {K V} (L : LruCache K V) := {
  lru_get_new n k : (lru_get_mut (lru_new n) k).1 = None;
  lru_get_insert c k v k' x :
    (lru_get_mut (lru_insert c k v) k').1 = Some x ->
    k' = k /\ x = v \/ k' <> k /\ (lru_get_mut c k').1 = Some x;
  lru_get_get c k k' : (lru_get_mut (lru_get_mut c k).2 k').1 = (lru_get_mut c k').1;
}.

Section cache.
Context `{BitVec} {T : Type} `{!KeyValueDatabase T} `{!LruCache bytes (KeyState Chain.BlockHeader)}.

Record CacheDatabase := mkCache { c_db : T; c_header : lru_cache bytes (KeyState Chain.BlockHeader) }.

Definition cache_new (db : T) : CacheDatabase := mkCache db (lru_new 2116).

Definition cache_note (header : lru_cache bytes (KeyState Chain.BlockHeader)) (op : Operation)
    : lru_cache bytes (KeyState Chain.BlockHeader) :=
  match op with
  | OpInsert (KeyValue.BlockHeader hash h) => lru_insert header hash (Insert h)
  | OpDelete (Key.BlockHeader hash) => lru_insert header hash Delete
  | _ => header
  end.

Definition cache_write (self : CacheDatabase) (tx : Batch) : outcome string CacheDatabase :=
  let header := fold_left cache_note tx (c_header self) in
  db ← kv_write (c_db self) tx;
  Ok (mkCache db header).

(** A hit moves the entry to the front: reading changes the cache. *)
Definition cache_get (self : CacheDatabase) (key : Key.Key)
    : outcome string (KeyState Value.Value * CacheDatabase) :=
  let miss cache :=
    state ← kv_get (c_db self) key;
    Ok (state, mkCache (c_db self) cache) in
  match key with
  | Key.BlockHeader hash =>
      match lru_get_mut (c_header self) hash with
      | (Some state, header) => Ok (map Value.BlockHeader state, mkCache (c_db self) header)
      | (None, header) => miss header
      end
  | _ => miss (c_header self)
  end.

End cache.
Arguments CacheDatabase T {_}.

(** * What a database promises *)

Section laws.
Context `{BitVec}.

(** The value and the key of an operation have the same kind. *)
Definition kind_ok (k : Key.Key) (v : Value.Value) : bool :=
  match k, v with
  | Key.Meta _, Value.Meta _ | Key.BlockHash _, Value.BlockHash _
  | Key.BlockHeader _, Value.BlockHeader _ | Key.BlockTransactions _, Value.BlockTransactions _
  | Key.Transaction _, Value.Transaction _ | Key.TransactionMeta _, Value.TransactionMeta _
  | Key.BlockNumber _, Value.BlockNumber _ | Key.Configuration _, Value.Configuration _ => true
  | _, _ => false
  end.

(** Contents of a database: the value every key has. *)
Definition contents : Type := Key.Key -> option Value.Value.

Definition op_key (op : Operation) : Key.Key :=
  match op with OpInsert kv => KeyValue.key_of kv | OpDelete k => k end.
Definition op_value (op : Operation) : option Value.Value :=
  match op with OpInsert kv => Some (KeyValue.value_of kv) | OpDelete _ => None end.

Definition apply_op (c : contents) (op : Operation) : contents :=
  fun k => if decide (k = op_key op) then op_value op else c k.

Definition apply_batch (c : contents) (tx : Batch) : contents := fold_left apply_op tx c.

(** What the database answers, an error counting as nothing. *)
Definition view {T} `{!KeyValueDatabase T} (db : T) : contents :=
  fun k => match kv_get db k with Ok s => into_option s | _ => None end.

End laws.

(** A database in a good state answers every read with a value of the kind of the key, and
    every write succeeds and applies its operations in order: what is read is what was
    written.  The database in memory and the overlays over it are such databases; the one
    on disk keeps less of some values (DiskDb.v). *)
Class KeyValueDatabaseLaws `{BitVec} (T : Type) `{!KeyValueDatabase T} := {
  kv_ok : T -> Prop;
  kv_get_total db k : kv_ok db -> exists s, kv_get db k = Ok s;
  kv_typed db k v : kv_ok db -> view db k = Some v -> kind_ok k v = true;
  kv_write_spec db tx :
    kv_ok db -> exists db', kv_write db tx = Ok db' /\ kv_ok db' /\
      forall k, view db' k = apply_batch (view db) tx k;
}.

Section batches.
Context `{BitVec}.

Lemma apply_batch_app c tx1 tx2 : apply_batch c (tx1 ++ tx2) = apply_batch (apply_batch c tx1) tx2.
Proof. apply fold_left_app. Qed.

Lemma apply_batch_snoc c tx op k :
  apply_batch c (tx ++ [op]) k = if decide (k = op_key op) then op_value op else apply_batch c tx k.
Proof. by rewrite apply_batch_app. Qed.

Lemma apply_batch_proper c1 c2 tx k :
  (forall k, c1 k = c2 k) -> apply_batch c1 tx k = apply_batch c2 tx k.
Proof.
  intros Hc. induction tx as [|op tx IH] using rev_ind; [done|].
  rewrite !apply_batch_snoc. by destruct (decide _).
Qed.

(** A key no operation mentions keeps its value. *)
Lemma apply_batch_other c tx k :
  Forall (fun op => op_key op <> k) tx -> apply_batch c tx k = c k.
Proof.
  intros Hall. induction tx as [|op tx IH] using rev_ind; [done|].
  apply Forall_app in Hall as [Hall Hop]. rewrite Forall_singleton in Hop.
  rewrite apply_batch_snoc, decide_False by (intros ->; by apply Hop). auto.
Qed.

(** The last operation on a key decides. *)
Lemma apply_batch_last c tx1 op tx2 :
  Forall (fun op' => op_key op' <> op_key op) tx2 ->
  apply_batch c (tx1 ++ op :: tx2) (op_key op) = op_value op.
Proof.
  intros Hall. rewrite cons_middle, app_assoc, apply_batch_app, apply_batch_other by done.
  rewrite apply_batch_snoc. by rewrite decide_True.
Qed.

Lemma op_kind op v : op_value op = Some v -> kind_ok (op_key op) v = true.
Proof. destruct op as [[]|]; simpl; by intros [= <-]. Qed.

End batches.

(** * The database in memory *)

Section memory_laws.
Context `{BitVec}.

(** What an operation leaves at its key. *)
Definition op_state (op : Operation) : KeyState Value.Value :=
  match op with OpInsert kv => Insert (KeyValue.value_of kv) | OpDelete _ => Delete end.

Lemma default_insert {K V} `{Countable K} (m : gmap K (KeyState V)) k k' s :
  default Unknown (<[k := s]> m !! k') = if decide (k' = k) then s else default Unknown (m !! k').
Proof. destruct (decide (k' = k)) as [->|Hne]; [by rewrite lookup_insert_eq|by rewrite lookup_insert_ne]. Qed.

Lemma memory_apply_state db op k :
  memory_state (memory_apply db op) k = if decide (k = op_key op) then op_state op else memory_state db k.
Proof.
  destruct db. destruct op as [[]|[]], k; cbn; rewrite ?default_insert;
    repeat case_decide; simplify_eq; done.
Qed.

Lemma op_state_option op : into_option (op_state op) = op_value op.
Proof. by destruct op. Qed.

Lemma memory_view db tx k : view (fold_left memory_apply tx db) k = apply_batch (view db) tx k.
Proof.
  induction tx as [|op tx IH] using rev_ind; [done|].
  rewrite apply_batch_snoc, fold_left_app. cbn. rewrite memory_apply_state.
  case_decide; [apply op_state_option|apply IH].
Qed.

Lemma memory_kind db k v : view db k = Some v -> kind_ok k v = true.
Proof.
  unfold view. cbn. destruct k; cbn [memory_state];
    match goal with |- context [default Unknown ?m] => destruct (default Unknown m) end; by intros [= <-].
Qed.

#[global] Instance memory_laws : KeyValueDatabaseLaws MemoryDatabase.
Proof.
  refine {| kv_ok := fun _ => True |}.
  - intros db k _. by eexists.
  - intros db k v _. apply memory_kind.
  - intros db tx _. eexists. split_and!; [done..|]. apply memory_view.
Defined.

(** ** Draining *)

(** What a state says of a key whose value below is [v]. *)
Definition over (s : KeyState Value.Value) (v : option Value.Value) : option Value.Value :=
  match s with Insert x => Some x | Delete => None | Unknown => v end.

Section drain.
Context {K V : Type} `{Countable K} (insert : K -> V -> KeyValue.KeyValue) (delete : K -> Key.Key)
  (inject : V -> Value.Value).
Hypothesis insert_key : forall k v, KeyValue.key_of (insert k v) = delete k.
Hypothesis insert_value : forall k v, KeyValue.value_of (insert k v) = inject v.
Hypothesis delete_inj : forall k k', delete k = delete k' -> k = k'.

Lemma into_operation_key s k op : into_operation s k insert delete = Some op -> op_key op = delete k.
Proof. destruct s; simpl; intros [= <-]; [apply insert_key|done]. Qed.

Lemma drain_other (m : gmap K (KeyState V)) c key :
  (forall k, key <> delete k) -> apply_batch c (drain m insert delete) key = c key.
Proof.
  intros Hk. apply apply_batch_other, Forall_forall. intros op Hop.
  apply list_elem_of_omap in Hop as ([k s] & _ & Hs). apply into_operation_key in Hs.
  rewrite Hs. intros <-. by apply (Hk k).
Qed.

Lemma drain_list (l : list (K * KeyState V)) c k :
  NoDup l.*1 ->
  apply_batch c (omap (fun p => into_operation p.2 p.1 insert delete) l) (delete k) =
  over (map inject (default Unknown (list_to_map (M := gmap K (KeyState V)) l !! k))) (c (delete k)).
Proof.
  revert c. induction l as [|[k' s] l IH]; intros c Hnd; [done|].
  apply NoDup_cons in Hnd as [Hk' Hnd]. cbn [omap list_omap list_to_map fst snd foldr uncurry].
  rewrite default_insert. case_decide as Hk.
  - subst k'. assert (list_to_map (M := gmap K (KeyState V)) l !! k = None) as Hl
      by by apply not_elem_of_list_to_map_1.
    destruct s as [v| |]; simpl; rewrite IH, Hl by done; simpl;
      [| |done]; unfold apply_op; simpl; rewrite ?insert_key, ?insert_value, decide_True; done.
  - destruct s as [v| |]; simpl; rewrite IH by done; [| |done]; f_equal; unfold apply_op;
      cbn [op_key]; rewrite ?insert_key; (rewrite decide_False; [done|]);
      intros Hd%delete_inj; congruence.
Qed.

Lemma drain_view (m : gmap K (KeyState V)) c k :
  apply_batch c (drain m insert delete) (delete k) =
  over (map inject (default Unknown (m !! k))) (c (delete k)).
Proof.
  unfold drain. rewrite drain_list by apply NoDup_fst_map_to_list. by rewrite list_to_map_to_list.
Qed.

End drain.

(** Writing the drained operations lays the contents over the database below. *)
Lemma drain_transaction_view db c k :
  apply_batch c (drain_transaction db).1 k = over (memory_state db k) (c k).
Proof.
  unfold drain_transaction. cbn [fst]. rewrite !apply_batch_app.
  destruct k; cbn [memory_state];
    repeat (erewrite drain_other; [|by intros|by intros]);
    (erewrite drain_view; [|by intros|intros; simpl; reflexivity|by intros ?? [=]]); f_equal;
    repeat (erewrite drain_other; [|by intros|by intros]); done.
Qed.

Lemma memory_default_state k : memory_state memory_default k = Unknown.
Proof. by destruct k. Qed.

End memory_laws.

(** * Overlays *)

Section overlay_laws.
Context `{BitVec} {T : Type} `{!KeyValueDatabase T} `{!KeyValueDatabaseLaws T}.

Lemma layered_view (db : T) overlay k :
  match kv_get overlay k with
  | Ok Unknown => match kv_get db k with Ok s => into_option s | _ => None end
  | Ok s => into_option s
  | _ => None
  end = over (memory_state overlay k) (view db k).
Proof. cbn. by destruct (memory_state overlay k). Qed.

Lemma overlay_view (o : OverlayDatabase T) k :
  view o k = over (memory_state (o_overlay o) k) (view (o_db o) k).
Proof. rewrite <- layered_view. unfold view. cbn. by destruct (memory_state _ _). Qed.

Lemma auto_view (o : AutoFlushingOverlayDatabase T) k :
  view o k = over (memory_state (a_overlay o) k) (view (a_db o) k).
Proof. rewrite <- layered_view. unfold view. cbn. by destruct (memory_state _ _). Qed.

Lemma over_write m tx c k :
  over (memory_state (fold_left memory_apply tx m) k) (c k) =
  apply_batch (fun k => over (memory_state m k) (c k)) tx k.
Proof.
  induction tx as [|op tx IH] using rev_ind; [done|].
  rewrite apply_batch_snoc, fold_left_app. cbn [fold_left]. rewrite memory_apply_state.
  case_decide; [by destruct op|apply IH].
Qed.

Lemma over_kind m k c v :
  (forall v, c k = Some v -> kind_ok k v = true) -> over (memory_state m k) (c k) = Some v -> kind_ok k v = true.
Proof.
  intros Hc. pose proof (memory_kind m k v) as Hm. unfold view in Hm. cbn in Hm.
  destruct (memory_state m k); auto.
Qed.

#[global] Instance overlay_laws : KeyValueDatabaseLaws (OverlayDatabase T).
Proof.
  refine {| kv_ok := fun o => kv_ok (o_db o) |}.
  - intros o k Ho. cbn. destruct (memory_state (o_overlay o) k); eauto. by apply kv_get_total.
  - intros o k v Ho. rewrite overlay_view. apply over_kind. intros v'. by apply kv_typed.
  - intros o tx Ho. eexists. split_and!; [done..|]. intros k. rewrite overlay_view. cbn.
    rewrite over_write. apply apply_batch_proper. intros k'. by rewrite overlay_view.
Defined.

(** [flush] leaves in the database what the overlay showed, and an empty overlay. *)
Lemma overlay_flush_spec (o : OverlayDatabase T) :
  kv_ok o -> exists o', overlay_flush o = Ok o' /\ kv_ok (o_db o') /\
    (forall k, view (o_db o') k = view o k) /\ (forall k, view o' k = view o k).
Proof.
  intros Ho. unfold overlay_flush. destruct (drain_transaction (o_overlay o)) as [tx m] eqn:Hd.
  destruct (kv_write_spec (o_db o) tx Ho) as (db & -> & Hok & Hv).
  assert (forall k, view db k = view o k) as Hview.
  { intros k. rewrite Hv, overlay_view, <- drain_transaction_view. by rewrite Hd. }
  eexists. split_and!; [done..|]. intros k. rewrite overlay_view. cbn [o_overlay o_db].
  replace m with memory_default by (by injection Hd). rewrite memory_default_state. apply Hview.
Qed.

(** The counter stays below its maximum. *)
Definition auto_ok (o : AutoFlushingOverlayDatabase T) : Prop :=
  kv_ok (a_db o) /\ 0 <= a_operations o < a_max_operations o /\ uint 64 (a_max_operations o).

Lemma auto_write_spec o tx :
  auto_ok o -> exists o', auto_write o tx = Ok o' /\ auto_ok o' /\
    forall k, view o' k = apply_batch (view o) tx k.
Proof.
  intros (Hdb & Hops & Hmax). unfold auto_write.
  rewrite (ucheck_Ok 64) by (unfold uint in *; lia). rewrite ok_bind.
  change (kv_write (a_overlay o) tx) with (Ok (E := string) (fold_left memory_apply tx (a_overlay o))).
  rewrite ok_bind. cbn [a_operations a_max_operations].
  assert (forall k, over (memory_state (fold_left memory_apply tx (a_overlay o)) k) (view (a_db o) k) =
                    apply_batch (view o) tx k) as Hwritten.
  { intros k. rewrite over_write. apply apply_batch_proper. intros k'. by rewrite auto_view. }
  destruct (Z.eqb_spec (a_operations o + 1) (a_max_operations o)) as [Heq|Hne].
  - unfold auto_flush. cbn [a_overlay].
    destruct (drain_transaction (fold_left memory_apply tx (a_overlay o))) as [ops m] eqn:Hd.
    destruct (kv_write_spec (a_db o) ops Hdb) as (db & Hw & Hok & Hv). cbn [a_db]. rewrite Hw. cbn.
    eexists. split_and!; [done|unfold auto_ok; cbn [a_db a_operations a_max_operations]; split_and!; (done || lia)|]. intros k. rewrite auto_view. cbn.
    replace m with memory_default by (by injection Hd).
    rewrite memory_default_state. cbn [over]. rewrite Hv, <- Hwritten, <- drain_transaction_view. by rewrite Hd.
  - eexists. split_and!; [done|unfold auto_ok; cbn [a_db a_operations a_max_operations]; split_and!; (done || lia)|]. intros k. rewrite auto_view. apply Hwritten.
Qed.

#[global] Instance auto_laws : KeyValueDatabaseLaws (AutoFlushingOverlayDatabase T).
Proof.
  refine {| kv_ok := auto_ok |}.
  - intros o k (Ho & _). cbn. destruct (memory_state (a_overlay o) k); eauto. by apply kv_get_total.
  - intros o k v (Ho & _). rewrite auto_view. apply over_kind. intros v'. by apply kv_typed.
  - apply auto_write_spec.
Defined.

End overlay_laws.

(** * Databases that store an encoding *)

Section stored.
Context `{BitVec} (norm : Value.Value -> Value.Value).

(** The contents after operations, where [norm] is what is kept of a value. *)
Definition stored_op (c : contents) (op : Operation) : contents :=
  fun k => if decide (k = op_key op) then norm <$> op_value op else c k.
Definition stored_batch (c : contents) (tx : Batch) : contents := fold_left stored_op tx c.

(** What a layer says of a key, once it has been written to the value below. *)
Definition over_stored (s : KeyState Value.Value) (v : option Value.Value) : option Value.Value :=
  match s with Insert x => Some (norm x) | Delete => None | Unknown => v end.

(** The last word of a batch on a key. *)
Definition noted (tx : Batch) (k : Key.Key) (s : KeyState Value.Value) : KeyState Value.Value :=
  fold_left (fun s op => if decide (k = op_key op) then op_state op else s) tx s.

Lemma stored_noted tx k s v c : c k = over_stored s v -> stored_batch c tx k = over_stored (noted tx k s) v.
Proof.
  revert c s. induction tx as [|op tx IH]; intros c s Hc; [done|]. apply IH. unfold stored_op.
  case_decide; [by destruct op|done].
Qed.

Lemma applied_noted tx k s v c : c k = over s v -> apply_batch c tx k = over (noted tx k s) v.
Proof.
  revert c s. induction tx as [|op tx IH]; intros c s Hc; [done|]. apply IH. unfold apply_op.
  case_decide; [by destruct op|done].
Qed.

Lemma memory_noted tx m k : memory_state (fold_left memory_apply tx m) k = noted tx k (memory_state m k).
Proof.
  revert m. induction tx as [|op tx IH]; intros m; [done|]. cbn [fold_left]. rewrite IH, memory_apply_state. done.
Qed.

Lemma over_inj s s' : (forall v, over s v = over s' v) -> s = s'.
Proof.
  intros Ho. pose proof (Ho None) as H0. pose proof (Ho (Some (Value.BlockNumber 0))) as H1.
  destruct s, s'; cbn in *; congruence.
Qed.

Lemma drain_noted m k : noted (drain_transaction m).1 k Unknown = memory_state m k.
Proof.
  apply over_inj. intros v. rewrite <- (drain_transaction_view m (fun _ => v) k). symmetry. by apply applied_noted.
Qed.

Lemma drain_elem {K V} `{Countable K} (m : gmap K (KeyState V)) insert delete op :
  op ∈ drain m insert delete -> exists k s, m !! k = Some s /\ into_operation s k insert delete = Some op.
Proof. intros ([k s] & Hs & Ho)%list_elem_of_omap. apply elem_of_map_to_list in Hs. by exists k, s. Qed.

Lemma drained_state m op : op ∈ (drain_transaction m).1 -> memory_state m (op_key op) = op_state op.
Proof.
  unfold drain_transaction. cbn [fst]. rewrite !elem_of_app. intros Ho.
  destruct_or! Ho; apply drain_elem in Ho as (k & s & Hs & Ho); destruct s; try discriminate Ho;
    injection Ho as <-; cbn; by rewrite Hs.
Qed.

End stored.

(** A database may keep less of a value than it is given, and hold only some keys and
    values: what it answers is then the value as [st_norm] leaves it.  A database with
    [KeyValueDatabaseLaws] keeps everything, whatever the key and the value. *)
Class KeyValueStoreLaws `{BitVec} (T : Type) `{!KeyValueDatabase T} := {
  st_norm : Value.Value -> Value.Value;
  st_key : Key.Key -> Prop;
  st_value : Value.Value -> Prop;
  st_ok : T -> Prop;
  st_get_total db k : st_ok db -> st_key k -> exists s, kv_get db k = Ok s;
  st_write_spec db tx :
    st_ok db -> Forall (fun op => st_key (op_key op) /\ forall v, op_value op = Some v -> st_value v) tx ->
    exists db', kv_write db tx = Ok db' /\ st_ok db' /\
      forall k, st_key k -> view db' k = stored_batch st_norm (view db) tx k;
}.

(** * The cache over the overlay *)

(** ** Sessions of reads and writes *)

Inductive Access `{BitVec} :=
| Write (tx : Batch)
| Get (key : Key.Key).

(** What a session answers: the values its reads find. *)
Fixpoint session `{BitVec} {T : Type} `{!KeyValueDatabase T} (db : T) (accesses : list Access)
    : outcome string (list (option Value.Value)) :=
  match accesses with
  | [] => Ok []
  | Write tx :: rest => db ← kv_write db tx; session db rest
  | Get key :: rest =>
      state ← kv_get db key;
      answers ← session db rest;
      Ok (into_option state :: answers)
  end.

Section cache_laws.
Context `{BitVec} {T : Type} `{!KeyValueDatabase T} `{!KeyValueStoreLaws T}
  `{!LruCache bytes (KeyState Chain.BlockHeader)} `{!LruCacheLaws (_ : LruCache bytes (KeyState Chain.BlockHeader))}.
Abbreviation stack := (CacheDatabase (AutoFlushingOverlayDatabase T)).

Fixpoint cached_session (db : stack) (accesses : list Access) : outcome string (list (option Value.Value)) :=
  match accesses with
  | [] => Ok []
  | Write tx :: rest => db ← cache_write db tx; cached_session db rest
  | Get key :: rest =>
      '(state, db) ← cache_get db key;
      answers ← cached_session db rest;
      Ok (into_option state :: answers)
  end.

(** What the database can hold. *)
Definition storable (op : Operation) : Prop := st_key (op_key op) /\ forall v, op_value op = Some v -> st_value v.
Definition access_ok (a : Access) : Prop :=
  match a with Write tx => Forall storable tx | Get key => st_key key end.
Definition overlay_storable (m : MemoryDatabase) : Prop :=
  forall k, memory_state m k <> Unknown -> st_key k /\ forall v, memory_state m k = Insert v -> st_value v.

Lemma overlay_storable_write tx m : Forall storable tx -> overlay_storable m -> overlay_storable (fold_left memory_apply tx m).
Proof.
  intros Htx Hm k. rewrite memory_noted. revert Hm. generalize m. clear m. intros m Hm. specialize (Hm k). revert Hm.
  generalize (memory_state m k) as s. induction Htx as [|op tx [Hk Hv] _ IH]; intros s Hs; [done|]. apply IH. case_decide as He; [|done].
  intros _. subst k. split; [done|]. intros v Ho. apply Hv. destruct op; cbn in *; congruence.
Qed.

Lemma drained_storable m : overlay_storable m -> Forall storable (drain_transaction m).1.
Proof.
  intros Hm. apply Forall_forall. intros op Ho%drained_state. destruct (Hm (op_key op)) as [Hk Hv].
  { rewrite Ho. by destruct op. }
  split; [done|]. intros v Hop. apply Hv. rewrite Ho. destruct op; cbn in *; congruence.
Qed.

(** The overlay over a database, and the database [d] to which everything is written at
    once: [d] is what the other one becomes when the overlay is written to it. *)
Record over_same (o : AutoFlushingOverlayDatabase T) (d : T) : Prop := {
  os_below : st_ok (a_db o);
  os_bare : st_ok d;
  os_count : 0 <= a_operations o < a_max_operations o /\ uint 64 (a_max_operations o);
  os_storable : overlay_storable (a_overlay o);
  os_view k : st_key k -> view d k = over_stored st_norm (memory_state (a_overlay o) k) (view (a_db o) k);
}.

Lemma over_same_write o d tx : over_same o d -> Forall storable tx ->
  exists o' d', auto_write o tx = Ok o' /\ kv_write d tx = Ok d' /\ over_same o' d' /\
    forall k, st_key k -> view d' k = stored_batch st_norm (view d) tx k.
Proof.
  intros [Hdb Hd [Hops Hmax] Hst Hv] Htx. destruct (st_write_spec d tx Hd Htx) as (d' & Hw & Hd' & Hv').
  unfold auto_write. rewrite (ucheck_Ok 64) by (unfold uint in *; lia). rewrite ok_bind.
  change (kv_write (a_overlay o) tx) with (Ok (E := string) (fold_left memory_apply tx (a_overlay o))).
  rewrite ok_bind. cbn [a_operations a_max_operations]. pose proof (overlay_storable_write tx _ Htx Hst) as Hst'.
  set (m := fold_left memory_apply tx (a_overlay o)) in *.
  assert (forall k, st_key k -> view d' k = over_stored st_norm (memory_state m k) (view (a_db o) k)) as Hm.
  { intros k Hk. rewrite Hv' by done. unfold m. rewrite memory_noted. apply stored_noted. by apply Hv. }
  destruct (Z.eqb_spec (a_operations o + 1) (a_max_operations o)) as [Heq|Hne].
  - unfold auto_flush. cbn [a_overlay]. pose proof (drained_storable m Hst') as Hdrain. pose proof (drain_noted m) as Hnoted.
    destruct (drain_transaction m) as [ops e] eqn:Hops'. cbn [fst] in *.
    destruct (st_write_spec (a_db o) ops Hdb Hdrain) as (db & Hw2 & Hok & Hv2). cbn [a_db]. rewrite Hw2. cbn.
    eexists _, d'. split_and!; [done|done| |done]. replace e with memory_default by (by injection Hops').
    split; cbn [a_db a_overlay a_operations a_max_operations]; [done|done|split; [lia|done]|intros k; by rewrite memory_default_state|].
    intros k Hk. rewrite Hm, Hv2, memory_default_state by done. cbn [over_stored]. symmetry. rewrite <- Hnoted. by apply stored_noted.
  - eexists _, d'. split_and!; [done|done| |done].
    split; cbn [a_db a_overlay a_operations a_max_operations]; [done|done|split; [lia|done]|done|done].
Qed.

(** What the cache holds for a header is what was written. *)
Definition agrees (header : lru_cache bytes (KeyState Chain.BlockHeader)) (c : contents) : Prop :=
  forall hash s, (lru_get_mut header hash).1 = Some s -> st_key (Key.BlockHeader hash) ->
    c (Key.BlockHeader hash) = st_norm <$> into_option (map Value.BlockHeader s).

Lemma cache_note_agrees header c op : agrees header c -> agrees (cache_note header op) (stored_op st_norm c op).
Proof.
  intros Hag hash s. unfold stored_op.
  destruct op as [[]|[]]; cbn [cache_note op_key KeyValue.key_of]; try (rewrite decide_False by done; apply Hag);
    (intros [[-> ->]|[Hne Hs]]%lru_get_insert; [by rewrite decide_True|]);
    (rewrite decide_False by congruence; by apply Hag).
Qed.

Lemma cache_notes_agree tx header c : agrees header c -> agrees (fold_left cache_note tx header) (stored_batch st_norm c tx).
Proof.
  revert header c. induction tx as [|op tx IH]; intros header c Hag; [done|]. apply IH, cache_note_agrees, Hag.
Qed.

(** The answer [a'] of the stack where the bare database answers [a]: the same, or the value
    of which [a] is what the database keeps. *)
Definition answer_as (a' a : option Value.Value) : Prop := a = a' \/ a = st_norm <$> a'.

Record stack_same (db : stack) (d : T) : Prop := {
  ss_over : over_same (c_db db) d;
  ss_cache : agrees (c_header db) (view d);
}.

Lemma over_same_get o d key : over_same o d -> st_key key ->
  exists s s', auto_get o key = Ok s /\ kv_get d key = Ok s' /\ answer_as (into_option s) (into_option s').
Proof.
  intros [Hdb Hd _ _ Hv] Hk. destruct (st_get_total d key Hd Hk) as [s' Hs'], (st_get_total (a_db o) key Hdb Hk) as [s Hs].
  specialize (Hv key Hk). unfold view in Hv. rewrite Hs, Hs' in Hv. unfold auto_get, answer_as. cbn.
  destruct (memory_state (a_overlay o) key) as [v| |]; cbn; [exists (Insert v), s'|exists Delete, s'|rewrite Hs; exists s, s']; rewrite Hv; cbn; auto.
Qed.

Lemma stack_get db d key : stack_same db d -> st_key key ->
  exists s s' db', cache_get db key = Ok (s, db') /\ kv_get d key = Ok s' /\ answer_as (into_option s) (into_option s') /\ stack_same db' d.
Proof.
  intros [Ho Hag] Hk. destruct (over_same_get (c_db db) d key Ho Hk) as (s & s' & Hs & Hs' & Ha).
  destruct key as [| |hash| | | | |];
    try (exists s, s', (mkCache (c_db db) (c_header db)); cbn -[auto_get]; rewrite Hs; split_and!; [done|done|done|by split]).
  cbn [cache_get]. pose proof (Hag hash) as Hhit. pose proof (lru_get_get (c_header db) hash) as Hget.
  destruct (lru_get_mut (c_header db) hash) as [[t|] header]; cbn [fst snd] in *.
  - exists (map Value.BlockHeader t), s', (mkCache (c_db db) header). split_and!; [done|done| |].
    + right. rewrite <- (Hhit t eq_refl Hk). unfold view. by rewrite Hs'.
    + split; [done|]. intros h x. cbn [c_header]. rewrite Hget. apply Hag.
  - exists s, s', (mkCache (c_db db) header). change (kv_get (c_db db) (Key.BlockHeader hash)) with (auto_get (c_db db) (Key.BlockHeader hash)).
    rewrite Hs. split_and!; [done|done|done|]. split; [done|]. intros h x. cbn [c_header]. rewrite Hget. apply Hag.
Qed.

Lemma stack_session db d accesses : stack_same db d -> Forall access_ok accesses ->
  exists answers answers', cached_session db accesses = Ok answers' /\ session d accesses = Ok answers /\
    Forall2 answer_as answers' answers.
Proof.
  intros Hs Hacc. revert db d Hs. induction Hacc as [|[tx|key] rest Ha _ IH]; intros db d Hs; cbn [cached_session session].
  - by exists [], [].
  - destruct Hs as [Ho Hag]. destruct (over_same_write (c_db db) d tx Ho Ha) as (o' & d' & Hw & Hw' & Ho' & Hv).
    unfold cache_write. change (kv_write (c_db db) tx) with (auto_write (c_db db) tx). rewrite Hw, Hw', !ok_bind.
    apply IH. split; [done|]. intros hash s Hhit Hk. cbn [c_header] in Hhit. rewrite Hv by done. by eapply cache_notes_agree.
  - destruct (stack_get db d key Hs Ha) as (s & s' & db' & -> & -> & Has & Hs'). rewrite !ok_bind.
    destruct (IH db' d Hs') as (as1 & as2 & -> & -> & Hall). rewrite !ok_bind. eexists _, _. split_and!; [done|done|by constructor].
Qed.

(** A session over the contents of a database that keeps [st_norm] of what it is given. *)
Fixpoint stored_session (c : contents) (accesses : list Access) : list (option Value.Value) :=
  match accesses with
  | [] => []
  | Write tx :: rest => stored_session (stored_batch st_norm c tx) rest
  | Get key :: rest => c key :: stored_session c rest
  end.

Lemma stored_session_spec d c accesses : st_ok d -> (forall k, st_key k -> view d k = c k) -> Forall access_ok accesses ->
  session d accesses = Ok (stored_session c accesses).
Proof.
  intros Hd Hc Hacc. revert d c Hd Hc. induction Hacc as [|[tx|key] rest Ha _ IH]; intros d c Hd Hc; cbn [session stored_session]; [done|..].
  - destruct (st_write_spec d tx Hd Ha) as (d' & -> & Hd' & Hv). rewrite ok_bind. apply IH; [done|]. intros k Hk.
    rewrite (Hv k Hk), (stored_noted st_norm tx k Unknown (c k)); [symmetry; by apply stored_noted|by apply Hc].
  - destruct (st_get_total d key Hd Ha) as [s Hs]. pose proof (Hc key Ha) as Hk. unfold view in Hk. rewrite Hs in *.
    rewrite ok_bind, (IH d c Hd Hc), ok_bind, Hk. done.
Qed.

Lemma stack_new (db : T) : st_ok db -> stack_same (cache_new (auto_new db 50)) db.
Proof.
  intros Hdb. split.
  - split; cbn; [done|done|by repeat split|intros k; by rewrite memory_default_state|]. intros k _. by rewrite memory_default_state.
  - intros hash s. cbn [cache_new c_header]. by rewrite lru_get_new.
Qed.

End cache_laws.

(** Writing batches one after the other. *)
Fixpoint write_all `{BitVec} {T : Type} `{!KeyValueDatabase T} (db : T) (txs : list Batch) : outcome string T :=
  match txs with
  | [] => Ok db
  | tx :: txs => db ← kv_write db tx; write_all db txs
  end.

Lemma write_all_spec `{BitVec} {T : Type} `{!KeyValueDatabase T} `{!KeyValueDatabaseLaws T} (db : T) txs :
  kv_ok db -> exists db', write_all db txs = Ok db' /\ kv_ok db' /\
    forall k, view db' k = apply_batch (view db) (concat txs) k.
Proof.
  revert db. induction txs as [|tx txs IH]; intros db Hdb; [by exists db|]. cbn [write_all concat].
  destruct (kv_write_spec db tx Hdb) as (db1 & -> & Hok1 & Hv1).
  destruct (IH db1 Hok1) as (db' & Hw & Hok' & Hv'). cbn. exists db'. split_and!; [done..|].
  intros k. rewrite Hv', apply_batch_app. by apply apply_batch_proper.
Qed.

Lemma overlay_write_all_db `{BitVec} {T : Type} `{!KeyValueDatabase T} (o o' : OverlayDatabase T) txs :
  write_all o txs = Ok o' -> o_db o' = o_db o.
Proof.
  revert o. induction txs as [|tx txs IH]; intros o; [by intros [= ->]|]. cbn [write_all].
  intros (o1 & Hw & Hrest)%bind_Ok. rewrite (IH o1 Hrest). by injection Hw as <-.
Qed.

(** * Theorems *)

(** Whatever batches are written to an overlay, the database below does not change,
    reads see the batches applied in order, and flushing makes the database answer every
    read as the overlay did: writing through an overlay and flushing it is writing the
    batches to the database itself. *)
Theorem overlay_flush_refines `{BitVec} {T : Type} `{!KeyValueDatabase T} `{!KeyValueDatabaseLaws T}
    (db : T) (txs : list Batch) :
  kv_ok db ->
  exists o o' db', write_all (overlay_new db) txs = Ok o /\ o_db o = db /\
    overlay_flush o = Ok o' /\ write_all db txs = Ok db' /\
    forall k, view o k = apply_batch (view db) (concat txs) k /\ view (o_db o') k = view o k /\
      view (o_db o') k = view db' k /\ view o' k = view o k.
Proof.
  intros Hdb. assert (kv_ok (overlay_new db)) as Ho by done.
  destruct (write_all_spec (overlay_new db) txs Ho) as (o & Hw & Hok & Hv).
  destruct (overlay_flush_spec o Hok) as (o' & Hf & _ & Hflushed & Hafter).
  destruct (write_all_spec db txs Hdb) as (db' & Hw' & _ & Hv').
  assert (forall k, view o k = apply_batch (view db) (concat txs) k) as Hview.
  { intros k. rewrite Hv. apply apply_batch_proper. intros k'. rewrite overlay_view. cbn.
    by rewrite memory_default_state. }
  exists o, o', db'. split_and!; [done|apply (overlay_write_all_db _ _ _ Hw)|done..|].
  intros k. by rewrite Hafter, Hflushed, Hv', Hview.
Qed.

End Kv.

(** * A cache *)

Module ExampleCache.

(** Entries, the most recent first, cut at the capacity. *)
Section cache.
Context {K V : Type} `{EqDecision K}.

Definition entries : Type := Z * list (K * V).

Definition find (k : K) (l : list (K * V)) : option V := snd <$> List.find (fun p => bool_decide (p.1 = k)) l.
Definition forget (k : K) (l : list (K * V)) : list (K * V) := List.filter (fun p => negb (bool_decide (p.1 = k))) l.

#[local] Instance lru : Kv.LruCache K V := {|
  Kv.lru_cache := entries;
  Kv.lru_new := fun n => (n, []);
  Kv.lru_insert := fun c k v => (c.1, take (Z.to_nat c.1) ((k, v) :: forget k c.2));
  Kv.lru_get_mut := fun c k =>
    match find k c.2 with
    | Some v => (Some v, (c.1, (k, v) :: forget k c.2))
    | None => (None, c)
    end;
|}.

Lemma find_cons k k' v l : find k' ((k, v) :: l) = if decide (k = k') then Some v else find k' l.
Proof. unfold find. simpl. case_bool_decide; by case_decide. Qed.

Lemma find_forget k k' l : k' <> k -> find k' (forget k l) = find k' l.
Proof.
  intros Hne. induction l as [|[a v] l IH]; [done|]. cbn [forget List.filter fst].
  rewrite find_cons. case_bool_decide as Ha; cbn [negb]; [rewrite decide_False by congruence; apply IH|].
  rewrite find_cons. by case_decide.
Qed.

Lemma find_take n k l x : find k (take n l) = Some x -> find k l = Some x.
Proof.
  revert n. induction l as [|[a v] l IH]; intros [|n]; cbn [take]; try done.
  rewrite !find_cons. case_decide; [done|]. apply IH.
Qed.

Lemma lru_laws : Kv.LruCacheLaws lru.
Proof.
  split; cbn [Kv.lru_get_mut Kv.lru_insert Kv.lru_new lru fst snd].
  - done.
  - intros [n l] k v k' x. cbn [fst snd].
    destruct (find k' (take (Z.to_nat n) ((k, v) :: forget k l))) as [y|] eqn:Hf; [|done].
    intros [= ->]. apply find_take in Hf. rewrite find_cons in Hf. case_decide as Hk.
    + left. by injection Hf as ->.
    + right. split; [congruence|]. rewrite find_forget in Hf by congruence. by rewrite Hf.
  - intros [n l] k k'. cbn [fst snd]. destruct (find k l) as [v|] eqn:Hf; cbn [fst snd]; [|done].
    rewrite find_cons. case_decide as Hk; [subst; by rewrite Hf|].
    rewrite find_forget by congruence. by destruct (find k' l).
Qed.

End cache.

#[global] Existing Instance lru.
#[global] Existing Instance lru_laws.

End ExampleCache.

(** * Witnesses *)

Section witnesses.
Import Kv ExampleBits ExampleCache.

Definition example_batch : Batch := [OpInsert (KeyValue.Meta "k" [x01]); OpDelete (Key.BlockHash 7)].

Lemma overlay_flush_refines_witness :
  exists o o' db', write_all (overlay_new memory_default) [example_batch] = Ok o /\ overlay_flush o = Ok o' /\
    write_all memory_default [example_batch] = Ok db' /\
    view (o_db o') (Key.Meta "k") = Some (Value.Meta [x01]).
Proof.
  destruct (overlay_flush_refines (T := MemoryDatabase) memory_default [example_batch]) as
    (o & o' & db' & Hw & _ & Hf & Hw' & Hv); [exact I|].
  exists o, o', db'. split; [exact Hw|]. split; [exact Hf|]. split; [exact Hw'|].
  destruct (Hv (Key.Meta "k")) as (Ho & Hd & _). rewrite Hd, Ho. vm_compute. reflexivity.
Defined.

End witnesses.
