(* ===== verification/DiskDb.v ===== *)
(** The database on disk (src/db/src/kv/diskdb.rs): how operations become bytes in the
    columns of RocksDB (transaction.rs), how values are read back, and what the stack of
    the node over it answers: the cache of headers over the overlay over the disk.
    RocksDB is a package. *)
From Stdlib Require Import ZArith Lia Strings.Byte.
From stdpp Require Import base decidable numbers countable gmap strings list.
From S2P Require Import Prelude Crypto Serialization Codec Chain ChainHash Storage Kv.

Local Open Scope Z_scope.

(** * RocksDB *)

(** A column of an operation is [None] for the default column family. *)
Class RocksDb := {
  DB : Type;
  Column : Type;
  WriteBatch : Type;
  WriteOptions : Type;
  ReadOptions : Type;
  wb_new : WriteBatch;
  wb_put : WriteBatch -> bytes -> bytes -> outcome string WriteBatch;
  wb_put_cf : WriteBatch -> Column -> bytes -> bytes -> outcome string WriteBatch;
  wb_delete : WriteBatch -> bytes -> outcome string WriteBatch;
  wb_delete_cf : WriteBatch -> Column -> bytes -> outcome string WriteBatch;
  write_opt : DB -> WriteBatch -> WriteOptions -> outcome string DB;
  get_opt : DB -> bytes -> ReadOptions -> outcome string (option bytes);
  get_cf_opt : DB -> Column -> bytes -> ReadOptions -> outcome string (option bytes);
}.

(** What one operation of a batch makes of a column family. *)
Definition batch_effect {C : Type} `{EqDecision C} (c : C) (k : bytes) (v : option bytes)
    (op : C * bytes * option bytes) : option bytes :=
  if decide (op.1 = (c, k)) then op.2 else v.

(** An open database that works: a batch collects operations on the column families, a
    write applies those of the batch in order, and reads find what was written last. *)
Class RocksDbLaws (R : RocksDb) `{!EqDecision Column} := {
  healthy : DB -> list Column -> Prop;
  wb_ops : WriteBatch -> list (Column * bytes * option bytes);
  wb_ops_new : wb_ops wb_new = [];
  wb_put_cf_spec b c k v :
    exists b', wb_put_cf b c k v = Ok b' /\ wb_ops b' = wb_ops b ++ [(c, k, Some v)];
  wb_delete_cf_spec b c k :
    exists b', wb_delete_cf b c k = Ok b' /\ wb_ops b' = wb_ops b ++ [(c, k, None)];
  healthy_columns db cfs : healthy db cfs -> NoDup cfs;
  get_cf_total db cfs c k opts : healthy db cfs -> c ∈ cfs -> exists v, get_cf_opt db c k opts = Ok v;
  write_opt_spec db cfs b wopts :
    healthy db cfs -> Forall (fun op => op.1.1 ∈ cfs) (wb_ops b) ->
    exists db', write_opt db b wopts = Ok db' /\ healthy db' cfs /\
      forall c k ropts v, c ∈ cfs -> get_cf_opt db c k ropts = Ok v ->
        get_cf_opt db' c k ropts = Ok (fold_left (batch_effect c k) (wb_ops b) v);
}.

Module DiskDb.
Import Ser Chain ChainHash Storage KeyState Kv.

(** * Raw keys and values *)

Definition COL_COUNT : Z := 10.
Definition COL_META : Z := 0.
Definition COL_BLOCK_HASHES : Z := 1.
Definition COL_BLOCK_HEADERS : Z := 2.
Definition COL_BLOCK_TRANSACTIONS : Z := 3.
Definition COL_TRANSACTIONS : Z := 4.
Definition COL_TRANSACTIONS_META : Z := 5.
Definition COL_BLOCK_NUMBERS : Z := 6.
Definition COL_CONFIGURATION : Z := 7.

Inductive Location := LDB | LColumn (col : Z).

Record RawKeyValue := mkRawKeyValue { rkv_location : Location; rkv_key : bytes; rkv_value : bytes }.
Record RawKey := mkRawKey { rk_location : Location; rk_key : bytes }.

Inductive RawOperation := RawInsert (kv : RawKeyValue) | RawDelete (key : RawKey).

(** [serialize] of a [&str]: its length and its bytes. *)
Definition str_bytes (s : string) : bytes := to_bytes bytes_codec (String.list_byte_of_string s).
Definition h256_codec : Codec bytes := hash_codec 32.

Section raw.
Context `{BitVec}.

Definition raw_key_value (i : KeyValue.KeyValue) : RawKeyValue :=
  let '(location, key, value) :=
    match i with
    | KeyValue.Meta key value => (COL_META, str_bytes key, to_bytes bytes_codec value)
    | KeyValue.BlockHash key value => (COL_BLOCK_HASHES, to_bytes u32_codec key, to_bytes h256_codec value)
    | KeyValue.BlockHeader key value => (COL_BLOCK_HEADERS, to_bytes h256_codec key, to_bytes header_codec value)
    | KeyValue.BlockTransactions key value =>
        (COL_BLOCK_TRANSACTIONS, to_bytes h256_codec key, to_bytes (list_codec h256_codec) value)
    | KeyValue.Transaction key value => (COL_TRANSACTIONS, to_bytes h256_codec key, to_bytes transaction_codec value)
    | KeyValue.TransactionMeta key value =>
        (COL_TRANSACTIONS_META, to_bytes h256_codec key, to_bytes transaction_meta_codec value)
    | KeyValue.BlockNumber key value => (COL_BLOCK_NUMBERS, to_bytes h256_codec key, to_bytes u32_codec value)
    | KeyValue.Configuration key value => (COL_CONFIGURATION, str_bytes key, to_bytes bytes_codec value)
    end in
  mkRawKeyValue (LColumn location) key value.

Definition raw_key (d : Key.Key) : RawKey :=
  let '(location, key) :=
    match d with
    | Key.Meta key => (COL_META, str_bytes key)
    | Key.BlockHash key => (COL_BLOCK_HASHES, to_bytes u32_codec key)
    | Key.BlockHeader key => (COL_BLOCK_HEADERS, to_bytes h256_codec key)
    | Key.BlockTransactions key => (COL_BLOCK_TRANSACTIONS, to_bytes h256_codec key)
    | Key.Transaction key => (COL_TRANSACTIONS, to_bytes h256_codec key)
    | Key.TransactionMeta key => (COL_TRANSACTIONS_META, to_bytes h256_codec key)
    | Key.BlockNumber key => (COL_BLOCK_NUMBERS, to_bytes h256_codec key)
    | Key.Configuration key => (COL_CONFIGURATION, str_bytes key)
    end in
  mkRawKey (LColumn location) key.

Definition raw_operation (o : Operation) : RawOperation :=
  match o with
  | OpInsert insert => RawInsert (raw_key_value insert)
  | OpDelete delete => RawDelete (raw_key delete)
  end.

Definition raw_transaction (tx : Batch) : list RawOperation := List.map raw_operation tx.

(** [RawTransaction::insert_raw] and [delete_raw]. *)
Definition insert_raw (self : list RawOperation) (location : Location) (key value : bytes) : list RawOperation :=
  self ++ [RawInsert (mkRawKeyValue location key value)].
Definition delete_raw (self : list RawOperation) (location : Location) (key : bytes) : list RawOperation :=
  self ++ [RawDelete (mkRawKey location key)].

(** The [Debug] name of an error. *)
Definition debug_error (e : ReaderError) : string :=
  match e with
  | MalformedData => "MalformedData"
  | UnexpectedEnd => "UnexpectedEnd"
  | UnreadData => "UnreadData"
  end.

Definition for_key (key : Key.Key) (bs : bytes) : outcome string Value.Value :=
  map_err debug_error
    match key with
    | Key.Meta _ => Value.Meta <$> from_bytes bytes_codec bs
    | Key.BlockHash _ => Value.BlockHash <$> from_bytes h256_codec bs
    | Key.BlockHeader _ => Value.BlockHeader <$> from_bytes header_codec bs
    | Key.BlockTransactions _ => Value.BlockTransactions <$> from_bytes (list_codec h256_codec) bs
    | Key.Transaction _ => Value.Transaction <$> from_bytes transaction_codec bs
    | Key.TransactionMeta _ => Value.TransactionMeta <$> from_bytes transaction_meta_codec bs
    | Key.BlockNumber _ => Value.BlockNumber <$> from_bytes u32_codec bs
    | Key.Configuration _ => Value.Configuration <$> from_bytes bytes_codec bs
    end.

End raw.

(** * The database *)

Section disk.
Context `{RocksDb} `{BitVec}.

Record Database := mkDatabase {
  dk_db : DB;
  cfs : list Column;
  write_opts : WriteOptions;
  read_opts : ReadOptions;
}.

(** [cfs[col as usize]]. *)
Definition column (self : Database) (col : Z) : outcome string Column := index (cfs self) (Z.to_nat col).

Definition batch_op (self : Database) (batch : WriteBatch) (op : RawOperation) : outcome string WriteBatch :=
  match op with
  | RawInsert (mkRawKeyValue LDB key value) => wb_put batch key value
  | RawInsert (mkRawKeyValue (LColumn col) key value) => cf ← column self col; wb_put_cf batch cf key value
  | RawDelete (mkRawKey LDB key) => wb_delete batch key
  | RawDelete (mkRawKey (LColumn col) key) => cf ← column self col; wb_delete_cf batch cf key
  end.

Fixpoint batch_all (self : Database) (batch : WriteBatch) (operations : list RawOperation) : outcome string WriteBatch :=
  match operations with
  | [] => Ok batch
  | op :: rest => batch ← batch_op self batch op; batch_all self batch rest
  end.

Definition raw_write (self : Database) (tx : list RawOperation) : outcome string Database :=
  batch ← batch_all self wb_new tx;
  db ← write_opt (dk_db self) batch (write_opts self);
  Ok (mkDatabase db (cfs self) (write_opts self) (read_opts self)).

Definition raw_get (self : Database) (key : RawKey) : outcome string (option bytes) :=
  match rk_location key with
  | LDB => get_opt (dk_db self) (rk_key key) (read_opts self)
  | LColumn col => cf ← column self col; get_cf_opt (dk_db self) cf (rk_key key) (read_opts self)
  end.

(** [impl KeyValueDatabase for Database]. *)
#[global] Instance disk_kv : KeyValueDatabase Database := {
  kv_write self tx := raw_write self (raw_transaction tx);
  kv_get self key :=
    value ← raw_get self (raw_key key);
    match value with
    | Some value => v ← for_key key value; Ok (Insert v)
    | None => Ok Unknown
    end;
}.

End disk.

(** * What the disk keeps *)

Section kept.
Context `{BitVec}.

(** A transaction is written without its witness data, and the spent bits are completed
    to whole bytes; the other values are read back as they were written. *)
Definition disk_norm (v : Value.Value) : Value.Value :=
  match v with
  | Value.Transaction tx => Value.Transaction (strip_witness tx)
  | Value.TransactionMeta meta => Value.TransactionMeta (reloaded meta)
  | v => v
  end.

(** The keys and the values with their fields in the ranges of their types. *)
Definition disk_key (k : Key.Key) : Prop :=
  match k with
  | Key.Meta key | Key.Configuration key => zlen (String.list_byte_of_string key) <= isize_max
  | Key.BlockHash number => uint 32 number
  | Key.BlockHeader hash | Key.BlockTransactions hash | Key.Transaction hash | Key.TransactionMeta hash
  | Key.BlockNumber hash => length hash = 32%nat
  end.

Definition disk_value (v : Value.Value) : Prop :=
  match v with
  | Value.Meta value | Value.Configuration value => zlen value <= isize_max
  | Value.BlockHash hash => length hash = 32%nat
  | Value.BlockHeader header => wf_header header
  | Value.BlockTransactions hashes =>
      Forall (fun h => length h = 32%nat) hashes /\ uint 64 (zlen hashes) /\ zlen hashes * 32 <= isize_max
  | Value.Transaction tx => wf_tx tx
  | Value.TransactionMeta meta => uint 32 (block_height meta) /\ zlen (bv_to_bytes (meta_bits meta)) <= isize_max
  | Value.BlockNumber number => uint 32 number
  end.

Lemma str_bytes_inj s s' :
  zlen (String.list_byte_of_string s) <= isize_max -> zlen (String.list_byte_of_string s') <= isize_max ->
  str_bytes s = str_bytes s' -> s = s'.
Proof.
  intros Hs Hs' He. rewrite <- (String.string_of_list_byte_of_string s), <- (String.string_of_list_byte_of_string s').
  f_equal. exact (@to_bytes_inj _ _ _ _ bytes_codec_laws 0 _ _ Hs Hs' He).
Qed.

Lemma raw_key_inj k k' : disk_key k -> disk_key k' -> raw_key k = raw_key k' -> k = k'.
Proof.
  intros Hk Hk' He. pose proof (f_equal rk_location He) as Hl. apply (f_equal rk_key) in He.
  destruct k, k'; try discriminate Hl; cbn [raw_key rk_key] in He; f_equal; first
    [by apply str_bytes_inj
    |exact (@to_bytes_inj _ _ _ _ (hash_codec_laws 31) 0 _ _ Hk Hk' He)
    |exact (@to_bytes_inj _ _ _ _ (uint_codec_laws 3) 0 _ _ Hk Hk' He)].
Qed.

Lemma raw_key_column k : exists n, rk_location (raw_key k) = LColumn (Z.of_nat n) /\ (n < 10)%nat.
Proof.
  destruct k; [exists 0%nat|exists 1%nat|exists 2%nat|exists 3%nat|exists 4%nat|exists 5%nat|exists 6%nat|exists 7%nat];
    (split; [reflexivity|lia]).
Qed.

Lemma raw_key_value_key kv :
  rkv_location (raw_key_value kv) = rk_location (raw_key (KeyValue.key_of kv)) /\
  rkv_key (raw_key_value kv) = rk_key (raw_key (KeyValue.key_of kv)).
Proof. by destruct kv. Qed.

(** Reading back. *)
Lemma for_key_value kv : disk_value (KeyValue.value_of kv) ->
  for_key (KeyValue.key_of kv) (rkv_value (raw_key_value kv)) = Ok (disk_norm (KeyValue.value_of kv)).
Proof.
  destruct kv; intros Hv; unfold for_key; cbn [KeyValue.key_of KeyValue.value_of raw_key_value rkv_value disk_norm];
    match goal with |- context [to_bytes ?c ?x] => change (to_bytes c x) with (to_bytes_with_flags c 0 x) end; first
    [erewrite (@from_bytes_to_bytes _ _ _ _ bytes_codec_laws 0) by exact Hv
    |erewrite (@from_bytes_to_bytes _ _ _ _ (hash_codec_laws 31) 0) by exact Hv
    |erewrite (@from_bytes_to_bytes _ _ _ _ header_laws 0) by exact Hv
    |erewrite (@from_bytes_to_bytes _ (list_codec h256_codec) _ _ _ 0) by exact Hv
    |erewrite (@from_bytes_to_bytes _ _ _ _ transaction_laws 0) by exact Hv
    |erewrite (@from_bytes_to_bytes _ _ _ _ transaction_meta_laws 0) by exact Hv
    |erewrite (@from_bytes_to_bytes _ _ _ _ (uint_codec_laws 3) 0) by exact Hv]; try done.
  cbn. by rewrite map_same.
Qed.

End kept.

(** * The laws of a store *)

Section laws.
Context `{RocksDb} `{!EqDecision Column} `{!RocksDbLaws (_ : RocksDb)} `{BitVec}.

(** The column family and the bytes of a key. *)
Definition place (d : Database) (k : Key.Key) : option (Column * bytes) :=
  match rk_location (raw_key k) with
  | LColumn col => (fun cf => (cf, rk_key (raw_key k))) <$> cfs d !! Z.to_nat col
  | LDB => None
  end.

(** The bytes an operation leaves. *)
Definition raw_of (op : Operation) : option bytes :=
  match op with OpInsert kv => Some (rkv_value (raw_key_value kv)) | OpDelete _ => None end.

(** An open database with its columns, all of whose values can be read. *)
Record disk_ok (d : Database) : Prop := {
  dk_healthy : healthy (dk_db d) (cfs d);
  dk_columns : zlen (cfs d) = COL_COUNT;
  dk_readable k raw : disk_key k -> raw_get d (raw_key k) = Ok (Some raw) -> exists v, for_key k raw = Ok v;
}.

Lemma place_column d k : zlen (cfs d) = COL_COUNT ->
  exists n cf, rk_location (raw_key k) = LColumn (Z.of_nat n) /\ cfs d !! n = Some cf /\
    place d k = Some (cf, rk_key (raw_key k)) /\ column d (Z.of_nat n) = Ok cf.
Proof.
  intros Hlen. destruct (raw_key_column k) as (n & Hl & Hn). unfold COL_COUNT in Hlen.
  destruct (lookup_lt_is_Some_2 (cfs d) n) as [cf Hcf]; [lia|]. exists n, cf. unfold place, column, index.
  by rewrite Hl, Nat2Z.id, Hcf.
Qed.

Lemma place_inj d k k' p : disk_ok d -> disk_key k -> disk_key k' -> place d k = Some p -> place d k' = Some p -> k = k'.
Proof.
  intros [Hh Hlen _] Hk Hk'. destruct (place_column d k Hlen) as (n & cf & Hl & Hn & -> & _), (place_column d k' Hlen) as (n' & cf' & Hl' & Hn' & -> & _).
  intros [= <-] [= <- Hb]. apply raw_key_inj; [done..|]. pose proof (NoDup_lookup _ _ _ _ (healthy_columns _ _ Hh) Hn Hn') as <-.
  destruct (raw_key k), (raw_key k'). cbn in *. congruence.
Qed.

Lemma raw_get_place d k : zlen (cfs d) = COL_COUNT ->
  exists p, place d k = Some p /\ p.1 ∈ cfs d /\ raw_get d (raw_key k) = get_cf_opt (dk_db d) p.1 p.2 (read_opts d).
Proof.
  intros Hlen. destruct (place_column d k Hlen) as (n & cf & Hl & Hn & -> & Hc). eexists. split; [done|]. split.
  - by eapply list_elem_of_lookup_2.
  - unfold raw_get. by rewrite Hl, Hc.
Qed.

(** ** Batches *)

Definition placed (d : Database) (tx : Batch) : list (Column * bytes * option bytes) :=
  omap (fun op => (fun p => (p, raw_of op)) <$> place d (op_key op)) tx.

Lemma batch_op_spec d b op : zlen (cfs d) = COL_COUNT ->
  exists b', batch_op d b (raw_operation op) = Ok b' /\ wb_ops b' = wb_ops b ++ placed d [op].
Proof.
  intros Hlen. destruct (place_column d (op_key op) Hlen) as (n & cf & Hl & _ & Hp & Hc). unfold placed. cbn [omap list_omap].
  rewrite Hp. destruct op as [kv|k]; cbn [op_key raw_operation raw_of fmap option_fmap option_map] in *.
  - destruct (raw_key_value_key kv) as [Hl' Hk]. rewrite <- Hl' in Hl. destruct (raw_key_value kv) as [l key value]. cbn in Hl, Hk |- *.
    subst l key. cbn [batch_op]. rewrite Hc, ok_bind. apply wb_put_cf_spec.
  - destruct (raw_key k) as [l key]. cbn in Hl |- *. subst l. cbn [batch_op]. rewrite Hc, ok_bind. apply wb_delete_cf_spec.
Qed.

Lemma batch_all_spec d b tx : zlen (cfs d) = COL_COUNT ->
  exists b', batch_all d b (raw_transaction tx) = Ok b' /\ wb_ops b' = wb_ops b ++ placed d tx.
Proof.
  intros Hlen. revert b. induction tx as [|op tx IH]; intros b; cbn [raw_transaction List.map batch_all].
  - exists b. by rewrite app_nil_r.
  - destruct (batch_op_spec d b op Hlen) as (b1 & -> & H1). rewrite ok_bind. destruct (IH b1) as (b2 & Hb2 & H2).
    exists b2. split; [exact Hb2|]. rewrite H2, H1, <- app_assoc. f_equal. unfold placed. cbn. by destruct (place d (op_key op)).
Qed.

(** What a batch makes of the bytes of a key. *)
Definition raw_batch (k : Key.Key) (tx : Batch) (v : option bytes) : option bytes :=
  fold_left (fun v op => if decide (k = op_key op) then raw_of op else v) tx v.

Lemma placed_effect d k p tx v :
  disk_ok d -> disk_key k -> Forall (fun op => disk_key (op_key op)) tx -> place d k = Some p ->
  fold_left (batch_effect p.1 p.2) (placed d tx) v = raw_batch k tx v.
Proof.
  intros Hd Hk Htx Hp. revert v. induction Htx as [|op tx Hop _ IH]; intros v; [done|]. unfold placed, raw_batch in *. cbn [omap list_omap fold_left].
  destruct (place_column d (op_key op) (dk_columns d Hd)) as (_ & cf & _ & _ & Ho & _). rewrite Ho. cbn [fmap option_fmap option_map fold_left].
  rewrite IH. f_equal. unfold batch_effect. cbn [fst snd]. destruct (decide (k = op_key op)) as [->|Hne].
  - rewrite decide_True; [done|]. rewrite Ho in Hp. by injection Hp as <-.
  - rewrite decide_False; [done|]. intros He. apply Hne. eapply place_inj; [done..|]. rewrite Ho, He. by destruct p.
Qed.

Lemma placed_columns d tx : zlen (cfs d) = COL_COUNT -> Forall (fun op => op.1.1 ∈ cfs d) (placed d tx).
Proof.
  intros Hlen. apply Forall_forall. intros r (op & _ & Hr)%list_elem_of_omap.
  destruct (place_column d (op_key op) Hlen) as (n & cf & _ & Hn & Hp & _). rewrite Hp in Hr. injection Hr as <-.
  by eapply list_elem_of_lookup_2.
Qed.

(** ** Reads and writes *)

Definition decode (k : Key.Key) (v : option bytes) : option Value.Value :=
  raw ← v; match for_key k raw with Ok x => Some x | _ => None end.
Definition readable (k : Key.Key) (v : option bytes) : Prop := forall raw, v = Some raw -> exists x, for_key k raw = Ok x.

Lemma disk_view d k v : raw_get d (raw_key k) = Ok v -> view d k = decode k v.
Proof. intros Hv. unfold view. cbn [kv_get disk_kv]. rewrite Hv, ok_bind. destruct v as [raw|]; [|done]. cbn. by destruct (for_key k raw). Qed.

Lemma raw_batch_decode tx k v c : (forall op, op ∈ tx -> forall x, op_value op = Some x -> disk_value x) ->
  c k = decode k v -> readable k v ->
  stored_batch disk_norm c tx k = decode k (raw_batch k tx v) /\ readable k (raw_batch k tx v).
Proof.
  revert v c. induction tx as [|op tx IH]; intros v c Hst Hc Hr; [done|]. apply IH; [by intros o Ho; apply Hst; right|..].
  - unfold stored_op. case_decide as He; [|done]. subst k. destruct op as [kv|key]; [|done]. cbn.
    rewrite for_key_value; [done|]. by apply (Hst (OpInsert kv)); [left|].
  - case_decide as He; [|done]. subst k. intros raw Hraw. destruct op as [kv|key]; [|done]. injection Hraw as <-.
    eexists. apply for_key_value. by apply (Hst (OpInsert kv)); [left|].
Qed.

Lemma raw_write_spec d tx : disk_ok d -> Forall (fun op => disk_key (op_key op)) tx ->
  exists d', raw_write d (raw_transaction tx) = Ok d' /\ healthy (dk_db d') (cfs d') /\ cfs d' = cfs d /\
    forall k v, disk_key k -> raw_get d (raw_key k) = Ok v -> raw_get d' (raw_key k) = Ok (raw_batch k tx v).
Proof.
  intros Hd Htx. pose proof (dk_columns d Hd) as Hlen. destruct (batch_all_spec d wb_new tx Hlen) as (b & Hb & Hops).
  rewrite wb_ops_new in Hops. cbn [app] in Hops. unfold raw_write. rewrite Hb, ok_bind.
  destruct (write_opt_spec (dk_db d) (cfs d) b (write_opts d) (dk_healthy d Hd)) as (db & -> & Hh & Hget).
  { rewrite Hops. by apply placed_columns. }
  rewrite ok_bind. eexists. split_and!; [done|done|done|]. intros k v Hk.
  destruct (raw_get_place d k Hlen) as (p & Hp & Hin & ->). intros Hv.
  destruct (raw_get_place (mkDatabase db (cfs d) (write_opts d) (read_opts d)) k Hlen) as (p' & Hp' & _ & ->).
  change (place _ k) with (place d k) in Hp'. rewrite Hp in Hp'. injection Hp' as <-. cbn [dk_db read_opts].
  rewrite (Hget _ _ _ _ Hin Hv), Hops. f_equal. by apply placed_effect.
Qed.

Lemma raw_get_total d k : disk_ok d -> exists v, raw_get d (raw_key k) = Ok v.
Proof.
  intros Hd. destruct (raw_get_place d k (dk_columns d Hd)) as (p & _ & Hin & ->). eapply get_cf_total; [apply Hd|done].
Qed.

Lemma disk_write_spec d tx : disk_ok d ->
  Forall (fun op => disk_key (op_key op) /\ forall v, op_value op = Some v -> disk_value v) tx ->
  exists d', kv_write d tx = Ok d' /\ disk_ok d' /\ forall k, disk_key k -> view d' k = stored_batch disk_norm (view d) tx k.
Proof.
  intros Hd Htx. destruct (raw_write_spec d tx Hd) as (d' & Hw & Hh & Hcfs & Hget); [eapply Forall_impl; [done|by intros op []]|].
  rewrite Forall_forall in Htx. assert (forall k, disk_key k -> exists v, raw_get d' (raw_key k) = Ok (raw_batch k tx v) /\
    stored_batch disk_norm (view d) tx k = decode k (raw_batch k tx v) /\ readable k (raw_batch k tx v)) as Hall.
  { intros k Hk. destruct (raw_get_total d k Hd) as [v Hv]. exists v. split; [by apply Hget|].
    apply raw_batch_decode; [intros op Hop; by apply Htx|by apply disk_view|]. intros raw ->. by eapply dk_readable. }
  exists d'. split_and!; [done| |].
  - split; [done|by rewrite Hcfs; apply Hd|]. intros k raw Hk Hraw. destruct (Hall k Hk) as (v & Hv & _ & Hr).
    apply Hr. rewrite Hv in Hraw. by injection Hraw.
  - intros k Hk. destruct (Hall k Hk) as (v & Hv & -> & _). by apply disk_view.
Qed.

Lemma disk_get_total d k : disk_ok d -> disk_key k -> exists s, kv_get d k = Ok s.
Proof.
  intros Hd Hk. destruct (raw_get_total d k Hd) as [v Hv]. cbn [kv_get disk_kv]. rewrite Hv, ok_bind.
  destruct v as [raw|]; [|by eexists]. destruct (dk_readable d Hd k raw Hk Hv) as [x ->]. by eexists.
Qed.

#[global] Instance disk_laws : KeyValueStoreLaws Database := {
  st_norm := disk_norm;
  st_key := disk_key;
  st_value := disk_value;
  st_ok := disk_ok;
  st_get_total := disk_get_total;
  st_write_spec := disk_write_spec;
}.

(** * The stack of the node *)

Section stack.
Context `{!LruCache bytes (KeyState Chain.BlockHeader)} `{!LruCacheLaws (_ : LruCache bytes (KeyState Chain.BlockHeader))}.

(** C32: The stack the node opens, a cache of headers over an overlay that is written to the
    disk after every 50 transactions, answers any session of reads and writes of keys and
    values in the ranges of their types, over a database on disk that works.  Written to
    directly, that database answers what was written last, without the witness data of
    transactions and with the spent bits completed to whole bytes.  The stack answers the
    same, or, while the overlay or the cache still hold it, the value as it was written. *)
Theorem cache_stack_transparent db accesses :
  disk_ok db -> Forall (access_ok (T := Database)) accesses ->
  exists answers,
    cached_session (cache_new (auto_new db 50)) accesses = Ok answers /\
    session db accesses = Ok (stored_session (T := Database) (view db) accesses) /\
    Forall2 (fun a' a => a = a' \/ a = disk_norm <$> a') answers (stored_session (T := Database) (view db) accesses).
Proof.
  intros Hdb Hacc. pose proof (stored_session_spec db (view db) accesses Hdb (fun _ _ => eq_refl) Hacc) as Hs.
  assert (stack_same (T := Database) (cache_new (auto_new db 50)) db) as Hnew by (apply stack_new; exact Hdb).
  destruct (stack_session (T := Database) _ db accesses Hnew Hacc) as (as1 & as2 & Hc & Hs' & Hall).
  exists as2. split_and!; [done|done|]. rewrite Hs in Hs'. by injection Hs' as <-.
Qed.

End stack.
End laws.
End DiskDb.

(** * An example database and a session *)

Module ExampleRocks.

Abbreviation rows := (gmap (option nat * bytes) bytes).

Definition apply_row (m : rows) (op : option nat * bytes * option bytes) : rows :=
  match op.2 with Some v => <[op.1 := v]> m | None => delete op.1 m end.

#[global] Instance rocks : RocksDb := {
  DB := rows;
  Column := nat;
  WriteBatch := list (option nat * bytes * option bytes);
  WriteOptions := unit;
  ReadOptions := unit;
  wb_new := [];
  wb_put b k v := Ok (b ++ [(None, k, Some v)]);
  wb_put_cf b c k v := Ok (b ++ [(Some c, k, Some v)]);
  wb_delete b k := Ok (b ++ [(None, k, None)]);
  wb_delete_cf b c k := Ok (b ++ [(Some c, k, None)]);
  write_opt db b _ := Ok (fold_left apply_row b db);
  get_opt db k _ := Ok (db !! (None, k));
  get_cf_opt db c k _ := Ok (db !! (Some c, k));
}.

#[global] Instance column_eq_dec : EqDecision (Column (RocksDb := rocks)) := Nat.eq_dec.

(** The operations of a batch on column families. *)
Definition column_ops (b : list (option nat * bytes * option bytes)) : list (nat * bytes * option bytes) :=
  omap (fun op => match op.1.1 with Some c => Some (c, op.1.2, op.2) | None => None end) b.

Lemma apply_rows (b : list (option nat * bytes * option bytes)) (db : rows) (c : nat) (k : bytes) :
  fold_left apply_row b db !! (Some c, k) = fold_left (batch_effect c k) (column_ops b) (db !! (Some c, k)).
Proof.
  revert db. induction b as [|[[c' k'] v] b IH]; intros db; [done|]. cbn [fold_left]. rewrite IH.
  unfold column_ops, apply_row. cbn [omap list_omap fst snd]. destruct c' as [c'|]; cbn [fold_left]; f_equal.
  - unfold batch_effect. cbn [fst snd]. destruct (decide ((c', k') = (c, k))) as [[= -> ->]|Hne].
    + destruct v; cbn iota; [by rewrite lookup_insert_eq|by rewrite lookup_delete_eq].
    + destruct v; cbn iota; [rewrite lookup_insert_ne by congruence|rewrite lookup_delete_ne by congruence]; done.
  - destruct v; cbn iota; [by rewrite lookup_insert_ne by done|by rewrite lookup_delete_ne by done].
Qed.

#[global] Instance rocks_laws : RocksDbLaws rocks.
Proof.
  refine {| healthy := fun _ cfs => cfs = seq 0 10; wb_ops := column_ops |}.
  - done.
  - intros b c k v. eexists. split; [done|]. unfold column_ops. by rewrite omap_app.
  - intros b c k. eexists. split; [done|]. unfold column_ops. by rewrite omap_app.
  - intros db cfs ->. apply NoDup_seq.
  - intros db cfs c k opts _ _. by eexists.
  - intros db cfs b wopts -> _. eexists. split_and!; [done|done|]. intros c k ropts v _ [= <-]. cbn. f_equal. apply apply_rows.
Defined.

End ExampleRocks.

Section witnesses.
Import Ser Chain Storage KeyState Kv DiskDb ExampleBits ExampleCache ExampleRocks.

Definition empty_disk : Database := mkDatabase (∅ : rows) (seq 0 10) tt tt.

Definition witness_tx : Transaction :=
  mkTx 1 [mkInput (mkOutPoint zero_hash 0) [x51] 5 [[x01; x02]]] [mkOutput 7 []] 0.
Definition tx_key : bytes := replicate 32 x07.

Lemma witness_tx_wf : wf_tx witness_tx.
Proof. split; cbn; repeat constructor; cbn; unfold isize_max, uint, sint; try lia; done. Qed.

Lemma example_storable : Forall (storable (T := Database))
  [OpInsert (KeyValue.Transaction tx_key witness_tx); OpInsert (KeyValue.Meta "k" [x01])].
Proof.
  apply Forall_cons; split; [by split; [|intros v [= <-]; apply witness_tx_wf]|].
  apply Forall_cons; split; [by split; [|intros v [= <-]]|by apply Forall_nil].
Qed.

Lemma cache_stack_transparent_witness :
  let accesses := [Write [OpInsert (KeyValue.Transaction tx_key witness_tx); OpInsert (KeyValue.Meta "k" [x01])];
                   Get (Key.Transaction tx_key); Get (Key.Meta "k"); Get (Key.BlockHeader tx_key)] in
  exists answers,
    cached_session (cache_new (auto_new empty_disk 50)) accesses = Ok answers /\
    answers = [Some (Value.Transaction witness_tx); Some (Value.Meta [x01]); None] /\
    session empty_disk accesses =
      Ok [Some (Value.Transaction (strip_witness witness_tx)); Some (Value.Meta [x01]); None].
Proof.
  intros accesses. destruct (cache_stack_transparent empty_disk accesses) as (answers & Hc & Hs & _).
  - split; [done|done|]. intros k raw _ Hraw. exfalso. by destruct k; vm_compute in Hraw.
  - apply Forall_cons; split; [exact example_storable|]. by repeat (apply Forall_cons; split).
  - exists answers. split; [exact Hc|]. split; [|rewrite Hs; vm_compute; reflexivity].
    assert (cached_session (cache_new (auto_new empty_disk 50)) accesses =
      Ok [Some (Value.Transaction witness_tx); Some (Value.Meta [x01]); None]) as He by (vm_compute; reflexivity).
    rewrite He in Hc. clear He. congruence.
Defined.

End witnesses.
