(* ===== verification/Db.v ===== *)
(** The block chain database (src/db/src/block_chain_db.rs) over any key-value database:
    inserting blocks, making them canonical and undoing it, forks, the origin of a block,
    and the providers that verification and synchronization read. *)
From Stdlib Require Import ZArith Lia Strings.Byte.
From stdpp Require Import base decidable numbers countable gmap strings list.
From S2P Require Import Prelude Crypto Serialization Codec Chain ChainHash Network Storage Kv.

Local Open Scope Z_scope.

Module Db.
Import Ser Chain ChainHash Network Storage Kv.

Definition KEY_BEST_BLOCK_NUMBER : string := "best_block_number".
Definition KEY_BEST_BLOCK_HASH : string := "best_block_hash".

Definition MAX_FORK_ROUTE_PRESET : Z := 2048.

Record BlockChainDatabase (T : Type) := mkDb { best_block : BestBlock; db : T }.
Arguments mkDb {T}.
Arguments best_block {T}.
Arguments db {T}.

(** [BestBlock::default()]. *)
Definition best_block_default : BestBlock := mkBest 0 zero_hash.

Definition is_zero (h : bytes) : bool := bool_decide (h = zero_hash).

Section database.
Context `{BitVec} {T : Type} `{!KeyValueDatabase T}.

(** * Reading *)

Definition get {E} (self : BlockChainDatabase T) (key : Key.Key) : outcome E (option Value.Value) :=
  match_result (kv_get (db self) key) (fun s => Ok (KeyState.into_option s)) (fun _ => Panic).

Definition block_hash {E} (self : BlockChainDatabase T) (number : Z) : outcome E (option bytes) :=
  v ← get self (Key.BlockHash number);
  Ok (v ≫= Value.as_block_hash).

Definition block_number {E} (self : BlockChainDatabase T) (hash : bytes) : outcome E (option Z) :=
  v ← get self (Key.BlockNumber hash);
  Ok (v ≫= Value.as_block_number).

Definition resolve_hash {E} (self : BlockChainDatabase T) (block_ref : BlockRef) : outcome E (option bytes) :=
  match block_ref with
  | Number n => block_hash self n
  | Hash h => Ok (Some h)
  end.

(** [resolve_hash(block_ref).and_then(f)]. *)
Definition resolved {E A} (self : BlockChainDatabase T) (block_ref : BlockRef)
    (f : bytes -> outcome E (option A)) : outcome E (option A) :=
  hash ← resolve_hash self block_ref;
  match hash with Some h => f h | None => Ok None end.

Definition block_header {E} (self : BlockChainDatabase T) (block_ref : BlockRef)
    : outcome E (option IndexedBlockHeader) :=
  resolved self block_ref (fun block_hash =>
    v ← get self (Key.BlockHeader block_hash);
    Ok (mkIndexedHeader block_hash <$> (v ≫= Value.as_block_header))).

Definition block_header_bytes {E} (self : BlockChainDatabase T) (block_ref : BlockRef)
    : outcome E (option bytes) :=
  header ← block_header self block_ref;
  Ok (option_map (fun h => to_bytes header_codec (ih_raw h)) header).

Definition contains_block {E} (self : BlockChainDatabase T) (block_ref : BlockRef) : outcome E bool :=
  v ← resolved self block_ref (fun hash => get self (Key.BlockHeader hash));
  Ok (bool_decide (is_Some v)).

Definition block_transaction_hashes {E} (self : BlockChainDatabase T) (block_ref : BlockRef)
    : outcome E (list bytes) :=
  v ← resolved self block_ref (fun hash => get self (Key.BlockTransactions hash));
  Ok (default [] (v ≫= Value.as_block_transactions)).

Definition transaction {E} (self : BlockChainDatabase T) (hash : bytes) : outcome E (option IndexedTransaction) :=
  v ← get self (Key.Transaction hash);
  Ok (mkIndexedTx hash <$> (v ≫= Value.as_transaction)).

Definition transaction_bytes {E} (self : BlockChainDatabase T) (hash : bytes) : outcome E (option bytes) :=
  tx ← transaction self hash;
  Ok (option_map (fun t => to_bytes transaction_codec (itx_raw t)) tx).

(** The hashes whose transaction is missing are skipped. *)
Fixpoint collect_transactions {E} (self : BlockChainDatabase T) (hashes : list bytes)
    : outcome E (list IndexedTransaction) :=
  match hashes with
  | [] => Ok []
  | hash :: hashes =>
      tx ← transaction self hash;
      rest ← collect_transactions self hashes;
      Ok (match tx with Some t => t :: rest | None => rest end)
  end.

Definition block_transactions {E} (self : BlockChainDatabase T) (block_ref : BlockRef)
    : outcome E (list IndexedTransaction) :=
  hashes ← block_transaction_hashes self block_ref;
  collect_transactions self hashes.

Definition block {E} (self : BlockChainDatabase T) (block_ref : BlockRef) : outcome E (option IndexedBlock) :=
  resolved self block_ref (fun block_hash =>
    header ← block_header self (Hash block_hash);
    match header with
    | Some header =>
        transactions ← block_transactions self (Hash block_hash);
        Ok (Some (mkIndexedBlock header transactions))
    | None => Ok None
    end).

Definition transaction_meta {E} (self : BlockChainDatabase T) (hash : bytes) : outcome E (option TransactionMeta) :=
  v ← get self (Key.TransactionMeta hash);
  Ok (v ≫= Value.as_transaction_meta).

(** Outputs of canonical transactions only; the index of the spending transaction is
    ignored. *)
Definition transaction_output {E} (self : BlockChainDatabase T) (prevout : OutPoint) (_transaction_index : Z)
    : outcome E (option TransactionOutput) :=
  meta ← transaction_meta self (op_hash prevout);
  match meta with
  | None => Ok None
  | Some _ =>
      tx ← transaction self (op_hash prevout);
      Ok (tx ≫= fun t => outputs (itx_raw t) !! Z.to_nat (op_index prevout))
  end.

Definition is_spent {E} (self : BlockChainDatabase T) (prevout : OutPoint) : outcome E bool :=
  meta ← transaction_meta self (op_hash prevout);
  Ok (default false (meta ≫= fun m => meta_is_spent m (Z.to_nat (op_index prevout)))).

Definition best_header {E} (self : BlockChainDatabase T) : outcome E IndexedBlockHeader :=
  header ← block_header self (Hash (bb_hash (best_block self)));
  expect header.

(** * Opening *)

Definition deserialized {E A} (c : Codec A) (b : bytes) : outcome E A :=
  match_result (from_bytes c b) Ok (fun _ => Panic).

Definition read_best_block {E} (db : T) : outcome E (option BestBlock) :=
  let meta key := match_result (kv_get db (Key.Meta key))
    (fun s => Ok (KeyState.into_option s ≫= Value.as_meta)) (fun _ => Panic) in
  best_number ← meta KEY_BEST_BLOCK_NUMBER;
  best_hash ← meta KEY_BEST_BLOCK_HASH;
  match best_number, best_hash with
  | None, None => Ok None
  | Some number, Some hash =>
      number ← deserialized u32_codec number;
      hash ← deserialized (hash_codec 32) hash;
      Ok (Some (mkBest number hash))
  | _, _ => Panic
  end.

Definition open {E} (db : T) : outcome E (BlockChainDatabase T) :=
  best ← read_best_block db;
  Ok (mkDb (default best_block_default best) db).

(** * Writing *)

Definition write (self : BlockChainDatabase T) (update : Batch) : outcome StorageError T :=
  map_err DatabaseError (kv_write (db self) update).

Definition insert (self : BlockChainDatabase T) (block : IndexedBlock)
    : outcome StorageError (BlockChainDatabase T) :=
  let hash := ih_hash (ib_header block) in
  known ← contains_block self (Hash hash);
  if (known : bool) then Ok self else
  let parent_hash := previous_header_hash (ih_raw (ib_header block)) in
  known_parent ← contains_block self (Hash parent_hash);
  if negb known_parent && negb (is_zero parent_hash) then Err UnknownParent else
  let update := batch_insert [] (KeyValue.BlockHeader hash (ih_raw (ib_header block))) in
  let tx_hashes := map itx_hash (ib_transactions block) in
  let update := batch_insert update (KeyValue.BlockTransactions hash tx_hashes) in
  let update := fold_left (fun update tx => batch_insert update (KeyValue.Transaction (itx_hash tx) (itx_raw tx)))
                  (ib_transactions block) update in
  db ← write self update;
  Ok (mkDb (best_block self) db).

(** The entry of [modified_meta] for an input, loaded from the database when it is
    vacant, with [denote] applied to the output. *)
Definition touch_meta (self : BlockChainDatabase T)
    (denote : TransactionMeta -> nat -> outcome StorageError TransactionMeta) (missing : StorageError)
    (modified_meta : gmap bytes TransactionMeta) (input : TransactionInput)
    : outcome StorageError (gmap bytes TransactionMeta) :=
  let prevout := previous_output input in
  meta ← match modified_meta !! op_hash prevout with
         | Some meta => Ok meta
         | None => meta ← transaction_meta self (op_hash prevout); ok_or meta missing
         end;
  meta ← denote meta (Z.to_nat (op_index prevout));
  Ok (<[op_hash prevout := meta]> modified_meta).

Fixpoint touch_inputs (self : BlockChainDatabase T)
    (denote : TransactionMeta -> nat -> outcome StorageError TransactionMeta) (missing : StorageError)
    (modified_meta : gmap bytes TransactionMeta) (inputs : list TransactionInput)
    : outcome StorageError (gmap bytes TransactionMeta) :=
  match inputs with
  | [] => Ok modified_meta
  | input :: inputs =>
      modified_meta ← touch_meta self denote missing modified_meta input;
      touch_inputs self denote missing modified_meta inputs
  end.

(** The transactions of [canonize] after the first. *)
Fixpoint canonize_transactions (self : BlockChainDatabase T) (number : Z)
    (modified_meta : gmap bytes TransactionMeta) (transactions : list IndexedTransaction)
    : outcome StorageError (gmap bytes TransactionMeta) :=
  match transactions with
  | [] => Ok modified_meta
  | tx :: transactions =>
      let modified_meta := <[itx_hash tx := meta_new number (length (outputs (itx_raw tx)))]> modified_meta in
      modified_meta ← touch_inputs self denote_used CannotCanonize modified_meta (inputs (itx_raw tx));
      canonize_transactions self number modified_meta transactions
  end.

(** The metadata [canonize] writes. *)
Definition canonize_meta (self : BlockChainDatabase T) (number : Z) (transactions : list IndexedTransaction)
    : outcome StorageError (gmap bytes TransactionMeta) :=
  modified_meta ← match transactions with
                  | tx :: _ =>
                      meta ← meta_new_coinbase number (length (outputs (itx_raw tx)));
                      Ok {[itx_hash tx := meta]}
                  | [] => Ok ∅
                  end;
  canonize_transactions self number modified_meta (drop 1 transactions).

Definition insert_metas (update : Batch) (modified_meta : gmap bytes TransactionMeta) : Batch :=
  fold_left (fun update '(hash, meta) => batch_insert update (KeyValue.TransactionMeta hash meta))
    (map_to_list modified_meta) update.

Definition canonize (self : BlockChainDatabase T) (hash : bytes) : outcome StorageError (BlockChainDatabase T) :=
  block ← block self (Hash hash);
  block ← ok_or block CannotCanonize;
  let previous := previous_header_hash (ih_raw (ib_header block)) in
  _ ← fail_if (negb (bool_decide (bb_hash (best_block self) = previous))) CannotCanonize;
  number ← if is_zero previous
           then (_ ← rust_assert (bb_number (best_block self) =? 0); Ok 0)
           else ucheck 32 (bb_number (best_block self) + 1);
  let new_best_block := mkBest number hash in
  let update := batch_insert [] (KeyValue.BlockHash number hash) in
  let update := batch_insert update (KeyValue.BlockNumber hash number) in
  let update := batch_insert update (KeyValue.Meta KEY_BEST_BLOCK_HASH (to_bytes (hash_codec 32) hash)) in
  let update := batch_insert update (KeyValue.Meta KEY_BEST_BLOCK_NUMBER (to_bytes u32_codec number)) in
  modified_meta ← canonize_meta self number (ib_transactions block);
  let update := insert_metas update modified_meta in
  db ← write self update;
  Ok (mkDb new_best_block db).

(** The transactions of [decanonize] after the first. *)
Fixpoint decanonize_transactions (self : BlockChainDatabase T) (modified_meta : gmap bytes TransactionMeta)
    (transactions : list IndexedTransaction) : outcome StorageError (gmap bytes TransactionMeta) :=
  match transactions with
  | [] => Ok modified_meta
  | tx :: transactions =>
      modified_meta ← touch_inputs self denote_unused CannotDecanonize modified_meta (inputs (itx_raw tx));
      decanonize_transactions self modified_meta transactions
  end.

Definition decanonize (self : BlockChainDatabase T) : outcome StorageError (bytes * BlockChainDatabase T) :=
  block ← block self (Hash (bb_hash (best_block self)));
  block ← ok_or block CannotDecanonize;
  let block_number := bb_number (best_block self) in
  let block_hash := bb_hash (best_block self) in
  let previous := previous_header_hash (ih_raw (ib_header block)) in
  number ← if 0 <? block_number then Ok (block_number - 1)
           else (_ ← rust_assert (is_zero previous); Ok 0);
  let new_best_block := mkBest number previous in
  let update := batch_delete [] (Key.BlockHash block_number) in
  let update := batch_delete update (Key.BlockNumber block_hash) in
  let update := batch_insert update (KeyValue.Meta KEY_BEST_BLOCK_HASH (to_bytes (hash_codec 32) previous)) in
  let update := batch_insert update (KeyValue.Meta KEY_BEST_BLOCK_NUMBER (to_bytes u32_codec number)) in
  modified_meta ← decanonize_transactions self ∅ (drop 1 (ib_transactions block));
  let update := insert_metas update modified_meta in
  let update := fold_left (fun update tx => batch_delete update (Key.TransactionMeta (itx_hash tx)))
                  (ib_transactions block) update in
  db ← write self update;
  Ok (block_hash, mkDb new_best_block db).

Definition rollback_best (self : BlockChainDatabase T) : outcome StorageError (bytes * BlockChainDatabase T) :=
  let best_block_hash := bb_hash (best_block self) in
  tx_to_decanonize ← block_transaction_hashes self (Hash best_block_hash);
  '(decanonized_hash, self) ← decanonize self;
  _ ← rust_assert (bool_decide (best_block_hash = decanonized_hash));
  let update := batch_delete [] (Key.BlockHeader decanonized_hash) in
  let update := batch_delete update (Key.BlockTransactions decanonized_hash) in
  let update := fold_left (fun update tx_hash => batch_delete update (Key.Transaction tx_hash))
                  tx_to_decanonize update in
  db ← write self update;
  Ok (bb_hash (best_block self), mkDb (best_block self) db).

(** * The origin of a block *)

(** [(number + 1..best + 1).filter_map(block_hash)]. *)
Fixpoint hashes_between {E} (self : BlockChainDatabase T) (count : nat) (number : Z) : outcome E (list bytes) :=
  match count with
  | O => Ok []
  | S count =>
      h ← block_hash self number;
      rest ← hashes_between self count (number + 1);
      Ok (match h with Some h => h :: rest | None => rest end)
  end.

Fixpoint origin_loop (self : BlockChainDatabase T) (fuel : nat) (fork_len : Z) (sidechain_route : list bytes)
    (next_hash : bytes) : outcome StorageError BlockOrigin :=
  match fuel with
  | O => Err AncientFork
  | S fuel =>
      known ← block_number self next_hash;
      match known with
      | Some number =>
          n ← ucheck 32 (number + fork_len);
          block_number ← ucheck 32 (n + 1);
          from ← ucheck 32 (number + 1);
          to ← ucheck 32 (bb_number (best_block self) + 1);
          decanonized ← hashes_between self (Z.to_nat (to - from)) from;
          let origin := mkOrigin number (rev sidechain_route) decanonized block_number in
          Ok (if bb_number (best_block self) <? block_number
              then SideChainBecomingCanonChain origin else SideChain origin)
      | None =>
          header ← block_header self (Hash next_hash);
          header ← expect header;
          origin_loop self fuel (fork_len + 1) (sidechain_route ++ [next_hash])
            (previous_header_hash (ih_raw header))
      end
  end.

Definition block_origin (self : BlockChainDatabase T) (header : IndexedBlockHeader)
    : outcome StorageError BlockOrigin :=
  best_hash ← block_hash self (bb_number (best_block self));
  _ ← rust_assert (bool_decide (Some (bb_hash (best_block self)) = best_hash));
  known ← contains_block self (Hash (ih_hash header));
  if (known : bool) then Ok KnownBlock else
  let previous := previous_header_hash (ih_raw header) in
  if bool_decide (bb_hash (best_block self) = previous) then
    n ← ucheck 32 (bb_number (best_block self) + 1);
    Ok (CanonChain n)
  else
  known_parent ← contains_block self (Hash previous);
  _ ← fail_if (negb known_parent) UnknownParent;
  origin_loop self (Z.to_nat MAX_FORK_ROUTE_PRESET) 0 [] previous.

End database.

(** * Forks *)

Section forks.
Context `{BitVec} {T : Type} `{!KeyValueDatabase T}.

(** [ForkChainDatabase]: a database over an overlay of the forked one. *)
Definition ForkChainDatabase : Type := BlockChainDatabase (OverlayDatabase T).

Fixpoint decanonize_route {U} `{!KeyValueDatabase U} (self : BlockChainDatabase U) (route : list bytes)
    : outcome StorageError (BlockChainDatabase U) :=
  match route with
  | [] => Ok self
  | hash :: route =>
      '(decanonized_hash, self) ← decanonize self;
      _ ← rust_assert (bool_decide (hash = decanonized_hash));
      decanonize_route self route
  end.

Fixpoint canonize_route {U} `{!KeyValueDatabase U} (self : BlockChainDatabase U) (route : list bytes)
    : outcome StorageError (BlockChainDatabase U) :=
  match route with
  | [] => Ok self
  | hash :: route => self ← canonize self hash; canonize_route self route
  end.

Definition fork (self : BlockChainDatabase T) (side_chain : SideChainOrigin)
    : outcome StorageError ForkChainDatabase :=
  overlay ← open (overlay_new (db self));
  overlay ← decanonize_route overlay (rev (decanonized_route side_chain));
  canonize_route overlay (canonized_route side_chain).

(** The overlay of the fork refers to the database of [self]. *)
Definition switch_to_fork (self : BlockChainDatabase T) (fork : ForkChainDatabase)
    : outcome StorageError (BlockChainDatabase T) :=
  flushed ← map_err DatabaseError (overlay_flush (mkOverlay (db self) (o_overlay (db fork))));
  Ok (mkDb (best_block fork) (o_db flushed)).

End forks.
Arguments ForkChainDatabase {_} T.

(** [init_test_chain]: every [unwrap] of an error is a panic. *)
Fixpoint extend_chain `{BitVec} {E} (store : BlockChainDatabase MemoryDatabase) (blocks : list IndexedBlock)
    : outcome E (BlockChainDatabase MemoryDatabase) :=
  match blocks with
  | [] => Ok store
  | block :: blocks =>
      store ← match_result (insert store block) Ok (fun _ => Panic);
      store ← match_result (canonize store (ih_hash (ib_header block))) Ok (fun _ => Panic);
      extend_chain store blocks
  end.

Definition init_test_chain `{BitVec} {E} (blocks : list IndexedBlock) : outcome E (BlockChainDatabase MemoryDatabase) :=
  store ← open memory_default;
  extend_chain store blocks.

End Db.
