(* ===== verification/DbSpec.v ===== *)
(** The canonical chain of the block chain database: what every operation does to it, the
    origin of a block, and forks. *)
From Stdlib Require Import ZArith Lia Strings.Byte.
From stdpp Require Import base decidable numbers countable gmap strings list.
From S2P Require Import Prelude Crypto Serialization Codec Chain ChainHash Network Storage Kv Db.

Local Open Scope Z_scope.

Module DbSpec.
Import Ser Chain ChainHash Network Storage Kv Db.

(** * Contents *)

Section contents.
Context `{BitVec}.

(** What contents say of a block, a header, a transaction. *)
Definition hash_at (c : contents) (n : Z) : option bytes := c (Key.BlockHash n) ≫= Value.as_block_hash.
Definition number_of (c : contents) (h : bytes) : option Z := c (Key.BlockNumber h) ≫= Value.as_block_number.
Definition header_of (c : contents) (h : bytes) : option BlockHeader :=
  c (Key.BlockHeader h) ≫= Value.as_block_header.
Definition hashes_of (c : contents) (h : bytes) : list bytes :=
  default [] (c (Key.BlockTransactions h) ≫= Value.as_block_transactions).
Definition transaction_of (c : contents) (h : bytes) : option Transaction :=
  c (Key.Transaction h) ≫= Value.as_transaction.
Definition meta_of (c : contents) (h : bytes) : option TransactionMeta :=
  c (Key.TransactionMeta h) ≫= Value.as_transaction_meta.

Definition transactions_of (c : contents) (h : bytes) : list IndexedTransaction :=
  omap (fun h => mkIndexedTx h <$> transaction_of c h) (hashes_of c h).

Definition block_of (c : contents) (h : bytes) : option IndexedBlock :=
  match header_of c h with
  | Some header => Some (mkIndexedBlock (mkIndexedHeader h header) (transactions_of c h))
  | None => None
  end.

Lemma insert_metas_drain u m :
  insert_metas u m = u ++ drain (KeyState.Insert <$> m) KeyValue.TransactionMeta Key.TransactionMeta.
Proof.
  unfold insert_metas, drain. rewrite map_to_list_fmap. generalize (map_to_list m) as l.
  intros l. revert u. induction l as [|[h x] l IH]; intros u; [by rewrite app_nil_r|].
  cbn [fold_left]. rewrite IH. unfold batch_insert. by rewrite <- app_assoc.
Qed.

Lemma insert_metas_meta c u m h :
  apply_batch c (insert_metas u m) (Key.TransactionMeta h) =
  match m !! h with
  | Some meta => Some (Value.TransactionMeta meta)
  | None => apply_batch c u (Key.TransactionMeta h)
  end.
Proof.
  rewrite insert_metas_drain, apply_batch_app.
  rewrite (drain_view _ _ Value.TransactionMeta) by (done || by intros ?? [=]).
  rewrite lookup_fmap. by destruct (m !! h).
Qed.

Lemma insert_metas_other c u m k :
  (forall h, k <> Key.TransactionMeta h) -> apply_batch c (insert_metas u m) k = apply_batch c u k.
Proof.
  intros Hk. by rewrite insert_metas_drain, apply_batch_app, drain_other.
Qed.

(** Deleting, or inserting, one entry for every element of a list. *)
Lemma fold_ops {A} (f : A -> Operation) l (u : Batch) :
  fold_left (fun (u : Batch) x => u ++ [f x]) l u = u ++ map f l.
Proof.
  revert u. induction l as [|x l IH]; intros u; [by rewrite app_nil_r|].
  cbn [fold_left map]. rewrite IH. by rewrite <- app_assoc.
Qed.

Lemma map_ops_other {A} (f : A -> Operation) l c k :
  (forall x, x ∈ l -> op_key (f x) <> k) -> apply_batch c (map f l) k = c k.
Proof.
  intros Hk. apply apply_batch_other, Forall_forall. intros op (x & -> & Hx)%list_elem_of_fmap. auto.
Qed.

Lemma map_ops_lookup {A} (f : A -> Operation) l c x :
  NoDup (map (fun x => op_key (f x)) l) -> x ∈ l -> apply_batch c (map f l) (op_key (f x)) = op_value (f x).
Proof.
  intros Hnd (l1 & l2 & ->)%list_elem_of_split. rewrite !map_app in *. cbn [map] in *.
  apply apply_batch_last. apply NoDup_app in Hnd as (_ & _ & [Hx _]%NoDup_cons).
  apply Forall_map, Forall_forall. intros y Hy Heq. apply Hx. rewrite <- Heq.
  by apply (list_elem_of_fmap_2 (fun x => op_key (f x))).
Qed.

Lemma map_ops_delete {A} (f : A -> Key.Key) l c x :
  x ∈ l -> apply_batch c (map (fun x => OpDelete (f x)) l) (f x) = None.
Proof.
  induction l as [|y l IH] using rev_ind; [by intros ?%elem_of_nil|].
  intros Hx. rewrite map_app. cbn [map]. rewrite apply_batch_snoc. case_decide as Hd; [done|].
  apply elem_of_app in Hx as [Hx|Hx%list_elem_of_singleton]; [auto|by subst].
Qed.

End contents.

(** * Reads *)

Section reads.
Context `{BitVec} {T : Type} `{!KeyValueDatabase T} `{!KeyValueDatabaseLaws T}.
Implicit Types self : BlockChainDatabase T.

Abbreviation seen self := (view (db self)).

Lemma get_view {E} self k : kv_ok (db self) -> @get _ _ _ E self k = Ok (seen self k).
Proof. intros Hok. unfold get, view. by destruct (kv_get_total (db self) k Hok) as [s ->]. Qed.

Section ok.
Context {E : Type} (self : BlockChainDatabase T) (Hok : kv_ok (db self)).

Lemma block_hash_view n : @block_hash _ _ _ E self n = Ok (hash_at (seen self) n).
Proof. unfold block_hash. by rewrite get_view. Qed.

Lemma block_number_view h : @block_number _ _ _ E self h = Ok (number_of (seen self) h).
Proof. unfold block_number. by rewrite get_view. Qed.

Lemma block_header_view h :
  @block_header _ _ _ E self (Hash h) = Ok (mkIndexedHeader h <$> header_of (seen self) h).
Proof. unfold block_header, resolved. cbn. by rewrite get_view. Qed.

Lemma block_header_number_view n :
  @block_header _ _ _ E self (Number n) =
  Ok (h ← hash_at (seen self) n; mkIndexedHeader h <$> header_of (seen self) h).
Proof.
  unfold block_header, resolved. cbn. rewrite block_hash_view. cbn.
  destruct (hash_at (seen self) n); [by rewrite get_view|done].
Qed.

Lemma header_known h : seen self (Key.BlockHeader h) <> None <-> header_of (seen self) h <> None.
Proof.
  unfold header_of. destruct (seen self (Key.BlockHeader h)) as [v|] eqn:Hv; [|done].
  pose proof (kv_typed _ _ _ Hok Hv) as Hk. by destruct v.
Qed.

Lemma contains_block_view h :
  @contains_block _ _ _ E self (Hash h) = Ok (bool_decide (is_Some (header_of (seen self) h))).
Proof.
  unfold contains_block, resolved. cbn. rewrite get_view by done. cbn. f_equal.
  apply bool_decide_ext. rewrite <- !not_eq_None_Some. apply header_known.
Qed.

Lemma block_transaction_hashes_view h :
  @block_transaction_hashes _ _ _ E self (Hash h) = Ok (hashes_of (seen self) h).
Proof. unfold block_transaction_hashes, resolved. cbn. by rewrite get_view. Qed.

Lemma transaction_view h :
  @transaction _ _ _ E self h = Ok (mkIndexedTx h <$> transaction_of (seen self) h).
Proof. unfold transaction. by rewrite get_view. Qed.

Lemma collect_transactions_view l :
  @collect_transactions _ _ _ E self l =
  Ok (omap (fun h => mkIndexedTx h <$> transaction_of (seen self) h) l).
Proof.
  induction l as [|h l IH]; [done|]. cbn [collect_transactions]. rewrite transaction_view. cbn. rewrite IH. cbn.
  by destruct (transaction_of (seen self) h).
Qed.

Lemma block_view h : @block _ _ _ E self (Hash h) = Ok (block_of (seen self) h).
Proof.
  unfold block, resolved, resolve_hash. rewrite ok_bind, block_header_view, ok_bind. unfold block_of.
  destruct (header_of (seen self) h); [|done]. cbn [fmap option_fmap option_map]. unfold block_transactions.
  rewrite block_transaction_hashes_view, ok_bind. by rewrite collect_transactions_view.
Qed.

Lemma transaction_meta_view h : @transaction_meta _ _ _ E self h = Ok (meta_of (seen self) h).
Proof. unfold transaction_meta. by rewrite get_view. Qed.

End ok.

Lemma write_view self u :
  kv_ok (db self) -> exists db', write self u = Ok db' /\ kv_ok db' /\
    forall k, view db' k = apply_batch (seen self) u k.
Proof.
  intros Hok. unfold write. destruct (kv_write_spec (db self) u Hok) as (db' & -> & H'). by exists db'.
Qed.

Lemma write_Ok self u db' :
  kv_ok (db self) -> write self u = Ok db' ->
  kv_ok db' /\ forall k, view db' k = apply_batch (seen self) u k.
Proof. intros Hok Hw. destruct (write_view self u Hok) as (db'' & Hw' & Hr). rewrite Hw in Hw'. by injection Hw' as <-. Qed.

End reads.
Abbreviation seen self := (view (db self)).

Create Rewrite HintDb dbview.
#[export] Hint Rewrite @block_hash_view @block_number_view @block_header_view @contains_block_view
  @block_transaction_hashes_view @transaction_view @block_view @transaction_meta_view using assumption : dbview.

(** * What the operations write *)

Section updates.
Context `{BitVec} {T : Type} `{!KeyValueDatabase T} `{!KeyValueDatabaseLaws T}.
Implicit Types self : BlockChainDatabase T.

Definition canonize_update (number : Z) (h : bytes) : Batch :=
  [OpInsert (KeyValue.BlockHash number h); OpInsert (KeyValue.BlockNumber h number);
   OpInsert (KeyValue.Meta KEY_BEST_BLOCK_HASH (to_bytes (hash_codec 32) h));
   OpInsert (KeyValue.Meta KEY_BEST_BLOCK_NUMBER (to_bytes u32_codec number))].

Definition decanonize_update (number : Z) (h : bytes) (number' : Z) (h' : bytes) : Batch :=
  [OpDelete (Key.BlockHash number); OpDelete (Key.BlockNumber h);
   OpInsert (KeyValue.Meta KEY_BEST_BLOCK_HASH (to_bytes (hash_codec 32) h'));
   OpInsert (KeyValue.Meta KEY_BEST_BLOCK_NUMBER (to_bytes u32_codec number'))].

(** The number of the block after the best one. *)
Definition next_number (best : BestBlock) (previous : bytes) (number : Z) : Prop :=
  if is_zero previous then bb_number best = 0 /\ number = 0
  else number = bb_number best + 1 /\ uint 32 number.

Lemma ucheck_inv {E} w z r : @ucheck E w z = Ok r -> r = z /\ uint w z.
Proof. unfold ucheck. destruct (is_uint w z) eqn:Hu; [|done]. intros [= ->]. by apply is_uint_spec in Hu. Qed.

(** What [canonize] has found and written when it succeeds. *)
Record canonized self (h : bytes) self' (header : BlockHeader) (number : Z)
    (metas : gmap bytes TransactionMeta) : Prop := {
  cz_header : header_of (seen self) h = Some header;
  cz_previous : bb_hash (best_block self) = previous_header_hash header;
  cz_number : next_number (best_block self) (previous_header_hash header) number;
  cz_metas : canonize_meta self number (transactions_of (seen self) h) = Ok metas;
  cz_best : best_block self' = mkBest number h;
  cz_ok : kv_ok (db self');
  cz_seen k : seen self' k = apply_batch (seen self) (insert_metas (canonize_update number h) metas) k;
}.

Lemma canonize_Ok self h self' :
  kv_ok (db self) -> canonize self h = Ok self' ->
  exists header number metas, canonized self h self' header number metas.
Proof.
  intros Hok Hc. unfold canonize in Hc. rewrite block_view, ok_bind in Hc by done. unfold block_of in Hc.
  destruct (header_of (seen self) h) as [header|] eqn:Hh; [|done]. cbn [ok_or] in Hc.
  rewrite ok_bind in Hc. cbn [ib_header ib_transactions ih_raw] in Hc.
  apply bind_Ok in Hc as (? & Hf%fail_if_Ok & Hc). apply negb_false_iff, bool_decide_eq_true in Hf.
  apply bind_Ok in Hc as (number & Hn & Hc). apply bind_Ok in Hc as (metas & Hm & Hc).
  apply bind_Ok in Hc as (db' & Hw & Hc). injection Hc as <-. apply write_Ok in Hw as [Hok' Hv]; [|done].
  exists header, number, metas. split; try done.
  unfold next_number. destruct (is_zero (previous_header_hash header)).
  - destruct (Z.eqb_spec (bb_number (best_block self)) 0); [|done]. by injection Hn as <-.
  - by apply ucheck_inv in Hn as [-> Hu].
Qed.

(** What [decanonize] has found and written when it succeeds. *)
Record decanonized self self' (header : BlockHeader) (number : Z)
    (metas : gmap bytes TransactionMeta) : Prop := {
  dz_header : header_of (seen self) (bb_hash (best_block self)) = Some header;
  dz_number : if 0 <? bb_number (best_block self) then number = bb_number (best_block self) - 1
              else previous_header_hash header = zero_hash /\ number = 0;
  dz_metas : decanonize_transactions self ∅ (drop 1 (transactions_of (seen self) (bb_hash (best_block self)))) =
             Ok metas;
  dz_best : best_block self' = mkBest number (previous_header_hash header);
  dz_ok : kv_ok (db self');
  dz_seen k : seen self' k = apply_batch (seen self)
    (insert_metas (decanonize_update (bb_number (best_block self)) (bb_hash (best_block self)) number
       (previous_header_hash header)) metas ++
     map (fun tx => OpDelete (Key.TransactionMeta (itx_hash tx)))
       (transactions_of (seen self) (bb_hash (best_block self)))) k;
}.

Lemma decanonize_Ok self h self' :
  kv_ok (db self) -> decanonize self = Ok (h, self') ->
  h = bb_hash (best_block self) /\
  exists header number metas, decanonized self self' header number metas.
Proof.
  intros Hok Hc. unfold decanonize in Hc. rewrite block_view, ok_bind in Hc by done. unfold block_of in Hc.
  destruct (header_of _ _) as [header|] eqn:Hh; [|done]. cbn [ok_or] in Hc.
  rewrite ok_bind in Hc. cbn [ib_header ib_transactions ih_raw] in Hc.
  apply bind_Ok in Hc as (number & Hn & Hc). apply bind_Ok in Hc as (metas & Hm & Hc).
  set (txs := transactions_of _ _) in *.
  unfold batch_delete, batch_insert in Hc.
  rewrite (fold_ops (fun tx => OpDelete (Key.TransactionMeta (itx_hash tx)))) in Hc.
  apply bind_Ok in Hc as (db' & Hw & Hc). injection Hc as <- <-. split; [done|].
  apply write_Ok in Hw as [Hok' Hv]; [|done].
  exists header, number, metas. split; try done.
  destruct (0 <? _); [by injection Hn as <-|]. unfold is_zero in Hn. case_bool_decide; [|done]. by injection Hn as <-.
Qed.

End updates.

(** * The canonical chain *)

Section chain.
Context `{BitVec} {T : Type} `{!KeyValueDatabase T} `{!KeyValueDatabaseLaws T}.
Implicit Types (self : BlockChainDatabase T) (c : contents) (hs : list bytes).

(** The best block of a chain of hashes. *)
Definition chain_best hs : BestBlock :=
  mkBest (Z.of_nat (pred (length hs))) (default zero_hash (last hs)).

(** The hash of the block before position [i]. *)
Definition parent_at hs (i : nat) : option bytes :=
  match i with O => Some zero_hash | S i => hs !! i end.

(** The stored best block: both entries, or none when nothing was ever canonical. *)
Definition best_stored c hs : Prop :=
  (c (Key.Meta KEY_BEST_BLOCK_NUMBER) = None /\ c (Key.Meta KEY_BEST_BLOCK_HASH) = None /\ hs = []) \/
  (c (Key.Meta KEY_BEST_BLOCK_NUMBER) =
     Some (Value.Meta (to_bytes u32_codec (bb_number (chain_best hs)))) /\
   c (Key.Meta KEY_BEST_BLOCK_HASH) = Some (Value.Meta (to_bytes (hash_codec 32) (bb_hash (chain_best hs))))).

(** The contents describe the chain [hs], from the genesis block up: the hashes by number
    and the numbers by hash are those of the list, and every header names the hash before
    it. *)
Record canonical_contents c hs : Prop := {
  cc_best : best_stored c hs;
  cc_hash_at n : 0 <= n -> hash_at c n = hs !! Z.to_nat n;
  cc_number_of h n : number_of c h = Some n <-> 0 <= n /\ hs !! Z.to_nat n = Some h;
  cc_linked i h : hs !! i = Some h ->
    exists header, header_of c h = Some header /\ parent_at hs i = Some (previous_header_hash header);
  cc_nodup : NoDup hs;
  cc_width h header : header_of c h = Some header -> length h = 32%nat /\ h <> zero_hash;
  cc_count : zlen hs <= 2 ^ 32;
}.

Record canonical self hs : Prop := {
  ca_ok : kv_ok (db self);
  ca_best : best_block self = chain_best hs;
  ca_contents : canonical_contents (seen self) hs;
}.

Lemma parent_at_app hs h i : (i <= length hs)%nat -> parent_at (hs ++ [h]) i = parent_at hs i.
Proof. destruct i as [|i]; [done|]. intros Hi. cbn. by apply lookup_app_l. Qed.

Lemma parent_at_length hs : parent_at hs (length hs) = Some (bb_hash (chain_best hs)).
Proof.
  cbn. destruct hs as [|h hs'] using rev_ind; [done|]. clear.
  rewrite last_snoc, length_app, Nat.add_1_r. cbn. rewrite lookup_app_r, Nat.sub_diag by lia. done.
Qed.

Lemma chain_best_snoc hs h : chain_best (hs ++ [h]) = mkBest (Z.of_nat (length hs)) h.
Proof. unfold chain_best. rewrite last_snoc, length_app. f_equal. cbn. lia. Qed.

Lemma chain_width c hs h : canonical_contents c hs -> h ∈ hs -> length h = 32%nat /\ h <> zero_hash.
Proof.
  intros Hc (i & Hi)%list_elem_of_lookup. destruct (cc_linked c hs Hc i h Hi) as (header & Hh & _).
  by apply (cc_width c hs Hc h header).
Qed.

(** Extending the chain.  The hash cannot be on it already: its header would name two
    parents. *)
Lemma canonical_fresh c hs h header :
  canonical_contents c hs -> header_of c h = Some header ->
  bb_hash (chain_best hs) = previous_header_hash header -> h ∉ hs.
Proof.
  intros Hc Hh Hp Hin. apply list_elem_of_lookup in Hin as [i Hi].
  destruct (cc_linked c hs Hc i h Hi) as (header' & Hh' & Hpar). rewrite Hh in Hh'. injection Hh' as <-.
  rewrite <- Hp, <- parent_at_length in Hpar. pose proof (lookup_lt_Some _ _ _ Hi) as Hlt.
  destruct (length hs) as [|n] eqn:Hn; [lia|]. cbn in Hpar.
  destruct (lookup_lt_is_Some_2 hs n) as [y Hy]; [lia|]. destruct i as [|i]; cbn in Hpar.
  - rewrite Hy in Hpar. injection Hpar as <-.
    by apply list_elem_of_lookup_2, (chain_width c hs _ Hc) in Hy as [_ Hy].
  - rewrite Hy in Hpar. pose proof (NoDup_lookup hs i n y (cc_nodup c hs Hc) Hpar Hy). lia.
Qed.

Lemma lookup_snoc_Some hs h i x :
  (hs ++ [h]) !! i = Some x <-> hs !! i = Some x \/ i = length hs /\ x = h.
Proof.
  rewrite lookup_app_Some. split; [intros [?|[? Hs]]; [by left|right]|intros [?|[-> ->]]; [by left|right]].
  - apply list_lookup_singleton_Some in Hs as [? ->]. split; [lia|done].
  - by rewrite Nat.sub_diag.
Qed.

Lemma canonical_extend c c' hs h header :
  canonical_contents c hs -> zlen hs < 2 ^ 32 ->
  header_of c h = Some header -> bb_hash (chain_best hs) = previous_header_hash header ->
  best_stored c' (hs ++ [h]) ->
  (forall n, hash_at c' n = if decide (n = zlen hs) then Some h else hash_at c n) ->
  (forall x, number_of c' x = if decide (x = h) then Some (zlen hs) else number_of c x) ->
  (forall x, header_of c' x = header_of c x) ->
  canonical_contents c' (hs ++ [h]).
Proof.
  intros Hc Hcount Hh Hp Hb Hat Hnum Hhead. pose proof (canonical_fresh _ _ _ _ Hc Hh Hp) as Hfresh.
  split.
  - done.
  - intros n Hn. rewrite Hat. case_decide as Hd.
    + subst. rewrite Nat2Z.id, lookup_app_r, Nat.sub_diag by lia. done.
    + rewrite (cc_hash_at c hs Hc n Hn). destruct (decide (Z.to_nat n < length hs)%nat) as [Hlt|Hge].
      * by rewrite lookup_app_l.
      * rewrite (lookup_ge_None_2 hs) by lia. rewrite (lookup_ge_None_2 (hs ++ [h])); [done|].
        rewrite length_app. cbn. lia.
  - intros x n. rewrite Hnum, lookup_snoc_Some. case_decide as Hd.
    + subst x. split; [intros [= <-]; split; [lia|right; split; [lia|done]]|]. intros [Hn [Hi|[Hi _]]].
      * by apply list_elem_of_lookup_2 in Hi.
      * f_equal. lia.
    + rewrite (cc_number_of c hs Hc). split; [tauto|]. intros [Hn [Hi|[_ ->]]]; [done|done].
  - intros i x Hi. apply lookup_snoc_Some in Hi as [Hi|[-> ->]]; rewrite Hhead.
    + rewrite parent_at_app by (apply lookup_lt_Some in Hi; lia). by apply (cc_linked c hs Hc).
    + exists header. rewrite parent_at_app, parent_at_length by lia. by rewrite Hp.
  - apply NoDup_app. split_and!; [apply (cc_nodup c hs Hc)| |apply NoDup_singleton].
    intros x Hx ->%list_elem_of_singleton. done.
  - intros x hd. rewrite Hhead. apply (cc_width c hs Hc).
  - rewrite length_app. cbn. lia.
Qed.

Lemma canonical_same c c' hs :
  canonical_contents c hs ->
  (forall k, match k with Key.Meta _ | Key.BlockHash _ | Key.BlockNumber _ => c' k = c k | _ => True end) ->
  (forall h, h ∈ hs -> header_of c' h = header_of c h) ->
  (forall h header, header_of c' h = Some header -> length h = 32%nat /\ h <> zero_hash) ->
  canonical_contents c' hs.
Proof.
  intros Hc Hk Hh Hw. split; try apply Hc; [..|done].
  - unfold best_stored. rewrite !(Hk (Key.Meta _)). apply Hc.
  - intros n Hn. unfold hash_at. rewrite (Hk (Key.BlockHash n)). by apply Hc.
  - intros h n. unfold number_of. rewrite (Hk (Key.BlockNumber h)). by apply Hc.
  - intros i h Hi. rewrite Hh by by eapply list_elem_of_lookup_2. by apply (cc_linked c hs Hc).
Qed.

(** Dropping the last block of the chain. *)
Lemma canonical_shrink c c' hs h :
  canonical_contents c (hs ++ [h]) ->
  best_stored c' hs ->
  (forall n, hash_at c' n = if decide (n = zlen hs) then None else hash_at c n) ->
  (forall x, number_of c' x = if decide (x = h) then None else number_of c x) ->
  (forall x, header_of c' x = header_of c x) ->
  canonical_contents c' hs.
Proof.
  intros Hc Hb Hat Hnum Hhead. pose proof (cc_nodup _ _ Hc) as Hnd.
  assert (h ∉ hs) as Hfresh.
  { apply NoDup_app in Hnd as (_ & Hd & _). intros Hin. apply (Hd h Hin). by apply list_elem_of_singleton. }
  split.
  - done.
  - intros n Hn. rewrite Hat. case_decide as Hd.
    + subst n. by rewrite lookup_ge_None_2 by lia.
    + rewrite (cc_hash_at _ _ Hc n Hn). destruct (decide (Z.to_nat n < length hs)%nat) as [Hlt|Hge].
      * by rewrite lookup_app_l.
      * rewrite (lookup_ge_None_2 hs) by lia. apply lookup_ge_None_2. rewrite length_app. cbn. lia.
  - intros x n. rewrite Hnum. case_decide as Hd.
    + subst x. split; [done|]. intros [_ Hi]. by apply list_elem_of_lookup_2 in Hi.
    + rewrite (cc_number_of _ _ Hc), lookup_snoc_Some. split; [|tauto]. intros [Hn [Hi|[_ ->]]]; done.
  - intros i x Hi. rewrite Hhead. pose proof (lookup_lt_Some _ _ _ Hi) as Hlt.
    rewrite <- (parent_at_app hs h) by lia. apply (cc_linked _ _ Hc), lookup_snoc_Some. by left.
  - by apply NoDup_app in Hnd as [? _].
  - intros x hd. rewrite Hhead. apply (cc_width _ _ Hc).
  - pose proof (cc_count _ _ Hc) as Hcount. rewrite length_app in Hcount. lia.
Qed.

(** The header of the last block names the best block before it. *)
Lemma last_header c hs h :
  canonical_contents c (hs ++ [h]) ->
  exists header, header_of c h = Some header /\ previous_header_hash header = bb_hash (chain_best hs).
Proof.
  intros Hc. destruct (cc_linked _ _ Hc (length hs) h) as (header & Hh & Hp).
  { apply lookup_snoc_Some. by right. }
  rewrite parent_at_app, parent_at_length in Hp by lia. injection Hp as Hp. by exists header.
Qed.

(** ** The operations *)

Lemma best_hash_zero c hs :
  canonical_contents c hs -> bb_hash (chain_best hs) = zero_hash <-> hs = [].
Proof.
  intros Hc. destruct hs as [|h hs'] using rev_ind; [done|]. clear IHhs'. rewrite chain_best_snoc. cbn.
  destruct (chain_width _ _ h Hc) as [_ Hh]; [apply elem_of_app; right; by apply list_elem_of_singleton|].
  split; [tauto|]. by intros [_ ?]%app_eq_nil.
Qed.

Lemma canonize_canonical self hs h self' :
  canonical self hs -> canonize self h = Ok self' -> canonical self' (hs ++ [h]).
Proof.
  intros [Hok Hbest Hc] Hcan.
  destruct (canonize_Ok self h self' Hok Hcan) as (header & number & metas & [Hh Hp Hn Hm Hb Hok' Hseen]).
  rewrite Hbest in Hp, Hn. pose proof (best_hash_zero _ hs Hc) as Hzero.
  assert (number = zlen hs /\ zlen hs < 2 ^ 32) as [-> Hlt].
  { unfold next_number, is_zero in Hn. rewrite <- Hp in Hn. case_bool_decide as Hd.
    - apply Hzero in Hd as ->. destruct Hn as [_ ->]. done.
    - destruct Hn as [-> Hu]. unfold uint in Hu. cbn in *. destruct hs as [|x hs]; [by destruct Hd|].
      cbn [length pred] in *. lia. }
  split; [done|by rewrite chain_best_snoc|].
  apply (canonical_extend (seen self) _ hs h header); try done.
  - right. rewrite !Hseen, !insert_metas_other by done. by rewrite chain_best_snoc.
  - intros n. unfold hash_at. rewrite Hseen, insert_metas_other by done. cbn. unfold apply_op. cbn.
    repeat case_decide; simplify_eq; done.
  - intros x. unfold number_of. rewrite Hseen, insert_metas_other by done. cbn. unfold apply_op. cbn.
    repeat case_decide; simplify_eq; done.
  - intros x. unfold header_of. by rewrite Hseen, insert_metas_other.
Qed.

Lemma decanonize_canonical self hs self' h :
  canonical self hs -> decanonize self = Ok (h, self') ->
  exists hs', hs = hs' ++ [h] /\ canonical self' hs'.
Proof.
  intros [Hok Hbest Hc] Hdec. destruct (decanonize_Ok self h self' Hok Hdec)
    as (-> & header & number & metas & [Hh Hn Hm Hb Hok' Hseen]).
  destruct hs as [|h hs _] using rev_ind.
  { rewrite Hbest in Hh. by apply (cc_width _ _ Hc) in Hh as [_ Hh]. }
  exists hs.
  rewrite Hbest, chain_best_snoc in *. cbn [bb_hash bb_number] in *. split; [done|].
  destruct (last_header _ _ _ Hc) as (header' & Hh' & Hp). rewrite Hh in Hh'. injection Hh' as <-.
  assert (number = bb_number (chain_best hs)) as ->.
  { destruct hs as [|y hs]; cbn [length] in *; [by destruct Hn|].
    rewrite (proj2 (Z.ltb_lt _ _)) in Hn by lia. rewrite Hn. cbn. lia. }
  assert (forall k, (forall t, k <> Key.TransactionMeta t) -> seen self' k =
    apply_batch (seen self) (decanonize_update (zlen hs) h (bb_number (chain_best hs)) (bb_hash (chain_best hs))) k)
    as Hkey.
  { intros k Hk. rewrite Hseen, apply_batch_app, map_ops_other, insert_metas_other, Hp; [done..|].
    intros t _. cbn. intros Heq. by apply (Hk (itx_hash t)). }
  split; [done|rewrite Hb, Hp; by destruct (chain_best hs)|].
  apply (canonical_shrink (seen self) _ hs h); try done.
  - right. by rewrite !Hkey.
  - intros n. unfold hash_at. rewrite Hkey by done. cbn. unfold apply_op. cbn.
    repeat case_decide; simplify_eq; done.
  - intros y. unfold number_of. rewrite Hkey by done. cbn. unfold apply_op. cbn.
    repeat case_decide; simplify_eq; done.
  - intros y. unfold header_of. by rewrite Hkey.
Qed.

Definition insert_update (b : IndexedBlock) : Batch :=
  [OpInsert (KeyValue.BlockHeader (ih_hash (ib_header b)) (ih_raw (ib_header b)));
   OpInsert (KeyValue.BlockTransactions (ih_hash (ib_header b)) (map itx_hash (ib_transactions b)))] ++
  map (fun tx => OpInsert (KeyValue.Transaction (itx_hash tx) (itx_raw tx))) (ib_transactions b).

(** [insert] does nothing for a known block, refuses one whose parent is unknown, and
    stores the others. *)
Lemma insert_spec self b :
  kv_ok (db self) ->
  let parent := previous_header_hash (ih_raw (ib_header b)) in
  if decide (is_Some (header_of (seen self) (ih_hash (ib_header b)))) then insert self b = Ok self
  else if decide (header_of (seen self) parent = None /\ parent <> zero_hash)
  then insert self b = Err UnknownParent
  else exists self', insert self b = Ok self' /\ best_block self' = best_block self /\ kv_ok (db self') /\
    forall k, seen self' k = apply_batch (seen self) (insert_update b) k.
Proof.
  intros Hok parent. unfold insert. rewrite !contains_block_view by done. rewrite !ok_bind.
  case_decide as Hk; [by rewrite bool_decide_true|]. rewrite (bool_decide_false _ Hk).
  fold parent. unfold is_zero.
  assert (negb (bool_decide (is_Some (header_of (seen self) parent))) && negb (bool_decide (parent = zero_hash)) =
          bool_decide (header_of (seen self) parent = None /\ parent <> zero_hash)) as ->.
  { pose proof (eq_None_not_Some (header_of (seen self) parent)).
    by repeat case_bool_decide; cbn; try tauto. }
  case_decide as Hp; [by rewrite bool_decide_true|]. rewrite bool_decide_false by done.
  destruct (write_view self (insert_update b) Hok) as (db' & Hw & Hok' & Hv).
  unfold batch_insert. rewrite (fold_ops (fun tx => OpInsert (KeyValue.Transaction (itx_hash tx) (itx_raw tx)))).
  exists (mkDb (best_block self) db'). split_and!; [|done..].
  change (([] ++ _) ++ _) with [OpInsert (KeyValue.BlockHeader (ih_hash (ib_header b)) (ih_raw (ib_header b)));
    OpInsert (KeyValue.BlockTransactions (ih_hash (ib_header b)) (map itx_hash (ib_transactions b)))].
  fold (insert_update b). by rewrite Hw.
Qed.

Lemma insert_update_other c b k :
  (forall h, k <> Key.BlockHeader h /\ k <> Key.BlockTransactions h /\ k <> Key.Transaction h) ->
  apply_batch c (insert_update b) k = c k.
Proof.
  intros Hk. apply apply_batch_other. repeat constructor; cbn;
    [intros <-; by destruct (Hk (ih_hash (ib_header b))) as (? & ? & ?)..|].
  apply Forall_map, Forall_forall. intros tx _ <-. by destruct (Hk (itx_hash tx)) as (? & ? & ?).
Qed.

Lemma insert_update_header c b h :
  header_of (apply_batch c (insert_update b)) h =
  if decide (h = ih_hash (ib_header b)) then Some (ih_raw (ib_header b)) else header_of c h.
Proof.
  unfold header_of, insert_update. rewrite apply_batch_app, map_ops_other by (by intros; cbn).
  cbn. unfold apply_op. cbn. repeat case_decide; simplify_eq; done.
Qed.

Lemma insert_canonical self hs b self' :
  canonical self hs -> length (ih_hash (ib_header b)) = 32%nat -> ih_hash (ib_header b) <> zero_hash ->
  insert self b = Ok self' -> canonical self' hs.
Proof.
  intros Hca Hl Hz Hi. destruct Hca as [Hok Hbest Hc]. pose proof (insert_spec self b Hok) as Hspec. cbn zeta in Hspec.
  case_decide as Hk; [rewrite Hspec in Hi; injection Hi as <-; by split|].
  case_decide; [congruence|]. destruct Hspec as (s & Hs & Hb & Hok' & Hv). rewrite Hs in Hi. injection Hi as <-.
  split; [done|congruence|].
  assert (forall h, header_of (seen s) h = header_of (apply_batch (seen self) (insert_update b)) h) as Hhead.
  { intros h. unfold header_of. by rewrite Hv. }
  apply (canonical_same (seen self)); [done|..].
  - intros []; try done; rewrite Hv; by apply insert_update_other.
  - intros h Hh. rewrite Hhead, insert_update_header. case_decide as Hd; [|done]. subst h. destruct Hk.
    apply list_elem_of_lookup in Hh as [i Hi]. destruct (cc_linked _ _ Hc i _ Hi) as (hd & -> & _). by eexists.
  - intros h hd. rewrite Hhead, insert_update_header. case_decide as Hd; [by subst|]. apply (cc_width _ _ Hc).
Qed.

(** ** Opening *)

Lemma chain_best_width c hs :
  canonical_contents c hs -> uint 32 (bb_number (chain_best hs)) /\ length (bb_hash (chain_best hs)) = 32%nat.
Proof.
  intros Hc. pose proof (cc_count _ _ Hc) as Hcount. split; [unfold uint; cbn in *; lia|].
  destruct hs as [|h hs _] using rev_ind; [done|]. rewrite chain_best_snoc. cbn.
  apply (chain_width _ _ h Hc), elem_of_app. right. by apply list_elem_of_singleton.
Qed.

Lemma deserialized_to_bytes {E A} (cd : Codec A) wf norm `{!CodecLaws cd wf norm} (x : A) :
  wf 0 x -> deserialized (E := E) cd (to_bytes cd x) = Ok (norm 0 x).
Proof. intros Hx. unfold deserialized. change (to_bytes cd x) with (to_bytes_with_flags cd 0 x). by rewrite (from_bytes_to_bytes cd wf norm 0 x Hx). Qed.

Lemma open_canonical {E} (d : T) hs :
  kv_ok d -> canonical_contents (view d) hs -> @open _ _ _ E d = Ok (mkDb (chain_best hs) d).
Proof.
  intros Hok Hc. destruct (chain_best_width _ _ Hc) as [Hn Hl]. unfold open, read_best_block.
  destruct (kv_get_total d (Key.Meta KEY_BEST_BLOCK_NUMBER) Hok) as [s1 Hs1].
  destruct (kv_get_total d (Key.Meta KEY_BEST_BLOCK_HASH) Hok) as [s2 Hs2].
  rewrite Hs1, Hs2. cbn [match_result]. rewrite !ok_bind.
  pose proof (cc_best _ _ Hc) as Hb. unfold best_stored, view in Hb. rewrite Hs1, Hs2 in Hb.
  destruct Hb as [(-> & -> & ->)|(-> & ->)]; [done|]. cbn [mbind option_bind Value.as_meta].
  rewrite (deserialized_to_bytes u32_codec _ _ _ Hn), ok_bind.
  rewrite (deserialized_to_bytes (hash_codec 32) _ _ _ Hl), ok_bind. reflexivity.
Qed.

Lemma rollback_canonical self hs self' x :
  canonical self hs -> rollback_best self = Ok (x, self') ->
  exists hs' h, hs = hs' ++ [h] /\ x = bb_hash (chain_best hs') /\ canonical self' hs' /\
    header_of (seen self') h = None.
Proof.
  intros Hca Hr. pose proof (ca_ok _ _ Hca) as Hok. unfold rollback_best in Hr.
  rewrite block_transaction_hashes_view, ok_bind in Hr by done.
  apply bind_Ok in Hr as ([h self1] & Hd & Hr). apply bind_Ok in Hr as (? & _ & Hr).
  destruct (decanonize_canonical self hs self1 h Hca Hd) as (hs' & -> & [Hok1 Hb1 Hc1]).
  unfold batch_delete in Hr. rewrite (fold_ops (fun t => OpDelete (Key.Transaction t))) in Hr.
  apply bind_Ok in Hr as (db' & Hw & Hr). injection Hr as <- <-. apply write_Ok in Hw as [Hok' Hv]; [|done].
  set (txs := map _ _) in Hv.
  assert (forall k, (forall t, k <> Key.Transaction t) -> view db' k =
    apply_batch (seen self1) [OpDelete (Key.BlockHeader h); OpDelete (Key.BlockTransactions h)] k) as Hkey.
  { intros k Hk. rewrite Hv, apply_batch_app. apply map_ops_other. intros t _ Heq. by apply (Hk t). }
  assert (forall y, header_of (view db') y = if decide (y = h) then None else header_of (seen self1) y) as Hhead.
  { intros y. unfold header_of. rewrite Hkey by done. cbn. unfold apply_op. cbn.
    repeat case_decide; simplify_eq; done. }
  pose proof (cc_nodup _ _ (ca_contents _ _ Hca)) as Hnd. apply NoDup_app in Hnd as (_ & Hnd & _).
  exists hs', h. rewrite Hb1. split_and!; [done..| |cbn; by rewrite Hhead, decide_True].
  split; [done..|]. apply (canonical_same (seen self1)); [done|..].
  - intros []; try done; by rewrite Hkey.
  - intros y Hy. cbn. rewrite Hhead, decide_False; [done|]. intros ->. apply (Hnd h Hy). by apply list_elem_of_singleton.
  - intros y hd. cbn. rewrite Hhead. case_decide; [done|]. apply (cc_width _ _ Hc1).
Qed.

(** ** Routes *)

Lemma decanonize_route_canonical self hs route self' :
  canonical self hs -> decanonize_route self route = Ok self' ->
  exists hs', hs = hs' ++ rev route /\ canonical self' hs'.
Proof.
  revert self hs. induction route as [|h route IH]; intros self hs Hca; cbn [decanonize_route].
  - intros [= <-]. exists hs. by rewrite app_nil_r.
  - intros Hr. apply bind_Ok in Hr as ([x self1] & Hd & Hr). apply bind_Ok in Hr as (? & Ha & Hr).
    destruct (decanonize_canonical _ _ _ _ Hca Hd) as (hs1 & -> & Hca1).
    destruct (IH self1 hs1 Hca1 Hr) as (hs' & -> & Hca'). exists hs'. cbn [rev].
    case_bool_decide; [|done]. subst x. by rewrite app_assoc.
Qed.

Lemma canonize_route_canonical self hs route self' :
  canonical self hs -> canonize_route self route = Ok self' -> canonical self' (hs ++ route).
Proof.
  revert self hs. induction route as [|h route IH]; intros self hs Hca; cbn [canonize_route].
  - intros [= <-]. by rewrite app_nil_r.
  - intros Hr. apply bind_Ok in Hr as (self1 & Hc & Hr).
    rewrite cons_middle, app_assoc. apply (IH self1); [|done]. by apply (canonize_canonical self).
Qed.

End chain.

(** * Forks *)

Section forks.
Context `{BitVec} {T : Type} `{!KeyValueDatabase T} `{!KeyValueDatabaseLaws T}.
Implicit Types (self : BlockChainDatabase T) (f : BlockChainDatabase (OverlayDatabase T)).

(** Nothing but flushing touches the database below an overlay. *)
Lemma overlay_write_db f u d : write f u = Ok d -> o_db d = o_db (db f).
Proof. unfold write. cbn. by intros [= <-]. Qed.

Lemma canonize_route_db f route f' : canonize_route f route = Ok f' -> o_db (db f') = o_db (db f).
Proof.
  revert f. induction route as [|h route IH]; intros f; cbn [canonize_route]; [by intros [= ->]|].
  intros Hr. apply bind_Ok in Hr as (f1 & Hc & Hr). rewrite (IH f1 Hr). unfold canonize in Hc.
  do 6 (apply bind_Ok in Hc as (? & ? & Hc)). injection Hc as <-. cbn [db]. by eapply overlay_write_db.
Qed.

Lemma decanonize_route_db f route f' : decanonize_route f route = Ok f' -> o_db (db f') = o_db (db f).
Proof.
  revert f. induction route as [|h route IH]; intros f; cbn [decanonize_route]; [by intros [= ->]|].
  intros Hr. apply bind_Ok in Hr as ([x f1] & Hc & Hr). apply bind_Ok in Hr as (? & _ & Hr).
  rewrite (IH f1 Hr). unfold decanonize in Hc.
  do 5 (apply bind_Ok in Hc as (? & ? & Hc)). injection Hc as _ <-. cbn [db]. by eapply overlay_write_db.
Qed.

Lemma canonical_view (a b : contents) hs :
  (forall k, b k = a k) -> canonical_contents a hs -> canonical_contents b hs.
Proof.
  intros Hv Hc. apply (canonical_same a); [done|by intros []|..].
  - intros h _. unfold header_of. by rewrite Hv.
  - intros h hd. unfold header_of. rewrite Hv. apply (cc_width _ _ Hc).
Qed.

(** A fork undoes the end of the chain and puts the other route in its place. *)
Lemma fork_canonical self hs o f :
  canonical self hs -> fork self o = Ok f ->
  o_db (db f) = db self /\ exists hs', hs = hs' ++ decanonized_route o /\ canonical f (hs' ++ canonized_route o).
Proof.
  intros [Hok Hb Hc] Hf. unfold fork in Hf.
  assert (canonical_contents (view (overlay_new (db self))) hs) as Hco.
  { apply (canonical_view (view (db self))); [|done]. intros k. rewrite overlay_view. cbn. by rewrite memory_default_state. }
  rewrite (open_canonical (overlay_new (db self)) hs), ok_bind in Hf by done.
  apply bind_Ok in Hf as (f1 & Hd & Hf). split.
  - rewrite (canonize_route_db _ _ _ Hf), (decanonize_route_db _ _ _ Hd). done.
  - apply decanonize_route_canonical with (hs := hs) in Hd as (hs' & -> & Hd); [|by split].
    exists hs'. rewrite rev_involutive. split; [done|]. by eapply canonize_route_canonical.
Qed.

Lemma insert_db f b f' : insert f b = Ok f' -> o_db (db f') = o_db (db f).
Proof.
  unfold insert. intros Hi. apply bind_Ok in Hi as (known & _ & Hi). destruct known; [by injection Hi as <-|].
  apply bind_Ok in Hi as (parent & _ & Hi). destruct (_ && _); [done|].
  apply bind_Ok in Hi as (d & Hw & Hi). injection Hi as <-. cbn [db]. by eapply overlay_write_db.
Qed.

(** Switching to a fork makes its chain the chain of the database. *)
Lemma switch_spec self f hs :
  o_db (db f) = db self -> canonical f hs ->
  exists self', switch_to_fork self f = Ok self' /\ canonical self' hs /\ best_block self' = best_block f /\
    forall k, seen self' k = seen f k.
Proof.
  intros Hdb [Hokf Hbf Hcf]. unfold switch_to_fork. rewrite <- Hdb.
  replace (mkOverlay (o_db (db f)) (o_overlay (db f))) with (db f) by (by destruct (db f)).
  destruct (overlay_flush_spec (db f) Hokf) as (o' & -> & Hok' & Hv & _).
  eexists. split_and!; [done..| |done|done]. split; [done..|]. by apply (canonical_view (seen f)).
Qed.

Lemma switch_canonical self hs o f :
  canonical self hs -> fork self o = Ok f ->
  exists self' hs', switch_to_fork self f = Ok self' /\ hs = hs' ++ decanonized_route o /\
    canonical self' (hs' ++ canonized_route o) /\ best_block self' = best_block f /\
    forall k, seen self' k = seen f k.
Proof.
  intros Hca Hf. destruct (fork_canonical self hs o f Hca Hf) as (Hdb & hs' & Hhs & Hcf).
  destruct (switch_spec self f _ Hdb Hcf) as (self' & ? & ? & ? & ?). by exists self', hs'.
Qed.

End forks.

(** * Stored headers *)

Section headers.
Context `{BitVec} {T : Type} `{!KeyValueDatabase T} `{!KeyValueDatabaseLaws T}.
Implicit Types (self : BlockChainDatabase T) (c : contents).

(** Every stored header has its parent stored, one of them has none, and following
    parents ends. *)
Record rooted c : Prop := {
  rt_closed h hd : header_of c h = Some hd -> previous_header_hash hd <> zero_hash ->
    is_Some (header_of c (previous_header_hash hd));
  rt_root h hd h' hd' : header_of c h = Some hd -> header_of c h' = Some hd' ->
    previous_header_hash hd = zero_hash -> previous_header_hash hd' = zero_hash -> h = h';
  rt_depth : exists depth : bytes -> nat, forall h hd, header_of c h = Some hd ->
    previous_header_hash hd <> zero_hash -> (depth (previous_header_hash hd) < depth h)%nat;
}.

Lemma rooted_same c c' : (forall h, header_of c' h = header_of c h) -> rooted c -> rooted c'.
Proof. intros Hh [Hc Hr Hd]. split; setoid_rewrite Hh; done. Qed.

Lemma rooted_insert c b :
  rooted c -> header_of c (ih_hash (ib_header b)) = None ->
  let parent := previous_header_hash (ih_raw (ib_header b)) in
  (parent <> zero_hash -> is_Some (header_of c parent)) ->
  (parent = zero_hash -> forall h, header_of c h = None) ->
  rooted (apply_batch c (insert_update b)).
Proof.
  intros [Hc Hr [depth Hd]] Hnew parent Hp Hz. pose proof (insert_update_header c b) as Hh.
  assert (forall h hd, header_of c h = Some hd -> previous_header_hash hd <> zero_hash ->
    previous_header_hash hd <> ih_hash (ib_header b)) as Hold.
  { intros h hd Hhd Hne Heq. apply (Hc h hd Hhd) in Hne as [x Hx]. congruence. }
  split.
  - intros h hd. rewrite !Hh. case_decide as Hd1; case_decide as Hd2; intros Heq Hne; try by eexists.
    + injection Heq as <-. by apply Hp.
    + by apply (Hc h).
  - intros h hd h' hd'. rewrite !Hh. case_decide as Hd1; case_decide as Hd2; [congruence|..|by apply Hr].
    + intros [= <-] Heq Hz1 _. by rewrite (Hz Hz1) in Heq.
    + intros Heq [= <-] _ Hz1. by rewrite (Hz Hz1) in Heq.
  - exists (fun h => if decide (h = ih_hash (ib_header b)) then S (depth parent) else depth h).
    intros h hd. rewrite Hh. case_decide as Hd1.
    + intros [= <-] Hne. fold parent in Hne |- *. rewrite decide_False; [lia|]. intros Heq.
      destruct (Hp Hne) as [x Hx]. congruence.
    + intros Heq Hne. rewrite decide_False by by apply (Hold h). by apply Hd.
Qed.

(** The headers after [insert]: the block's own is new, if its hash is. *)
Definition inserted_header (b : IndexedBlock) c (h : bytes) : option BlockHeader :=
  match header_of c h with
  | Some hd => Some hd
  | None => if decide (h = ih_hash (ib_header b)) then Some (ih_raw (ib_header b)) else None
  end.

Lemma insert_headers self b self' :
  kv_ok (db self) -> insert self b = Ok self' ->
  kv_ok (db self') /\ (forall h, header_of (seen self') h = inserted_header b (seen self) h).
Proof.
  intros Hok Hi. pose proof (insert_spec self b Hok) as Hspec. cbn zeta in Hspec. unfold inserted_header. case_decide as Hk.
  - rewrite Hspec in Hi. injection Hi as <-. split; [done|]. intros h. destruct (header_of (seen self) h) eqn:Hh; [done|].
    case_decide; [|done]. subst. destruct Hk. congruence.
  - case_decide; [congruence|]. destruct Hspec as (s & Hs & _ & Hok' & Hv). rewrite Hs in Hi. injection Hi as <-. split; [done|].
    intros h. assert (header_of (seen s) h = header_of (apply_batch (seen self) (insert_update b)) h) as -> by (unfold header_of; by rewrite Hv).
    rewrite insert_update_header. destruct (decide (h = ih_hash (ib_header b))) as [->|].
    + apply eq_None_not_Some in Hk. by rewrite Hk.
    + by destruct (header_of (seen self) h).
Qed.

Lemma insert_rooted self b self' :
  kv_ok (db self) -> rooted (seen self) ->
  (previous_header_hash (ih_raw (ib_header b)) = zero_hash -> forall h, header_of (seen self) h = None) ->
  insert self b = Ok self' -> rooted (seen self').
Proof.
  intros Hok Hroot Hgen Hi. pose proof (insert_spec self b Hok) as Hspec. cbn zeta in Hspec.
  case_decide as Hk; [rewrite Hspec in Hi; by injection Hi as <-|].
  case_decide as Hp; [congruence|]. destruct Hspec as (s & Hs & _ & _ & Hv).
  rewrite Hs in Hi. injection Hi as <-.
  apply (rooted_same (apply_batch (seen self) (insert_update b))); [intros h; unfold header_of; by rewrite Hv|].
  apply rooted_insert; [done|by apply eq_None_not_Some| |done].
  intros Hne. apply not_eq_None_Some. tauto.
Qed.

Lemma canonize_headers self h self' :
  kv_ok (db self) -> canonize self h = Ok self' ->
  kv_ok (db self') /\ forall x, header_of (seen self') x = header_of (seen self) x.
Proof.
  intros Hok (header & number & metas & Hcz)%canonize_Ok; [|done]. split; [apply Hcz|].
  intros x. unfold header_of. by rewrite (cz_seen _ _ _ _ _ _ Hcz), insert_metas_other.
Qed.

Lemma decanonize_headers self h self' :
  kv_ok (db self) -> decanonize self = Ok (h, self') ->
  kv_ok (db self') /\ forall x, header_of (seen self') x = header_of (seen self) x.
Proof.
  intros Hok (-> & header & number & metas & Hdz)%decanonize_Ok; [|done]. split; [apply Hdz|].
  intros x. unfold header_of.
  by rewrite (dz_seen _ _ _ _ _ Hdz), apply_batch_app, map_ops_other, insert_metas_other.
Qed.

Lemma canonize_route_headers self route self' :
  kv_ok (db self) -> canonize_route self route = Ok self' ->
  forall x, header_of (seen self') x = header_of (seen self) x.
Proof.
  revert self. induction route as [|h route IH]; intros self Hok; cbn [canonize_route]; [by intros [= ->]|].
  intros Hr. apply bind_Ok in Hr as (self1 & Hc & Hr). apply canonize_headers in Hc as [Hok1 Hh]; [|done].
  intros x. by rewrite (IH self1 Hok1 Hr), Hh.
Qed.

Lemma decanonize_route_headers self route self' :
  kv_ok (db self) -> decanonize_route self route = Ok self' ->
  kv_ok (db self') /\ forall x, header_of (seen self') x = header_of (seen self) x.
Proof.
  revert self. induction route as [|h route IH]; intros self Hok; cbn [decanonize_route]; [by intros [= ->]|].
  intros Hr. apply bind_Ok in Hr as ([y self1] & Hc & Hr). apply bind_Ok in Hr as (? & _ & Hr).
  apply decanonize_headers in Hc as [Hok1 Hh]; [|done]. destruct (IH self1 Hok1 Hr) as [Hok' Hh'].
  split; [done|]. intros z. by rewrite Hh', Hh.
Qed.

End headers.

Lemma fork_headers `{BitVec} {T : Type} `{!KeyValueDatabase T} `{!KeyValueDatabaseLaws T}
    (self : BlockChainDatabase T) hs o f :
  canonical self hs -> fork self o = Ok f -> forall x, header_of (seen f) x = header_of (seen self) x.
Proof.
  intros [Hok Hb Hc] Hf x. unfold fork in Hf.
  assert (forall k, view (overlay_new (db self)) k = seen self k) as Hv.
  { intros k. rewrite overlay_view. cbn. by rewrite memory_default_state. }
  rewrite (open_canonical (overlay_new (db self)) hs), ok_bind in Hf by (done || by apply (canonical_view (seen self))).
  apply bind_Ok in Hf as (f1 & Hd & Hf). apply decanonize_route_headers in Hd as [Hok1 Hh]; [|done].
  rewrite (canonize_route_headers f1 _ f Hok1 Hf), Hh. unfold header_of. cbn. by rewrite Hv.
Qed.

(** A fork to which a block is added, and made the database. *)
Lemma reorganize_spec `{BitVec} {T : Type} `{!KeyValueDatabase T} `{!KeyValueDatabaseLaws T} (self : BlockChainDatabase T) hs o f b f1 f2 :
  canonical self hs -> length (ih_hash (ib_header b)) = 32%nat -> ih_hash (ib_header b) <> zero_hash ->
  fork self o = Ok f -> insert f b = Ok f1 -> canonize f1 (ih_hash (ib_header b)) = Ok f2 ->
  exists self' hs', switch_to_fork self f2 = Ok self' /\ canonical self' hs' /\
    (forall h, header_of (seen self') h = inserted_header b (seen self) h) /\
    ((previous_header_hash (ih_raw (ib_header b)) = zero_hash -> forall h, header_of (seen self) h = None) ->
     rooted (seen self) -> rooted (seen self')).
Proof.
  intros Hca Hl Hz Hf Hi Hc. destruct (fork_canonical self hs o f Hca Hf) as (Hdb & hs' & _ & Hcf).
  pose proof (fork_headers self hs o f Hca Hf) as Hhf.
  pose proof (insert_canonical f _ b f1 Hcf Hl Hz Hi) as Hcf1. pose proof (canonize_canonical f1 _ _ f2 Hcf1 Hc) as Hcf2.
  destruct (insert_headers f b f1 (ca_ok _ _ Hcf) Hi) as [Hok1 Hh1]. destruct (canonize_headers f1 _ f2 Hok1 Hc) as [Hok2 Hh2].
  assert (o_db (db f2) = db self) as Hdb2.
  { rewrite <- Hdb, <- (insert_db f b f1 Hi). apply (canonize_route_db f1 [ih_hash (ib_header b)]). cbn [canonize_route]. by rewrite Hc. }
  destruct (switch_spec self f2 _ Hdb2 Hcf2) as (self' & Hs & Hca' & _ & Hv).
  assert (forall h, header_of (seen self') h = header_of (seen f2) h) as Hh' by (intros h; unfold header_of; by rewrite Hv).
  eexists self', _. split_and!; [done..| |].
  - intros h. rewrite Hh', Hh2, Hh1. unfold inserted_header. by rewrite Hhf.
  - intros Hgen Hroot. apply (rooted_same (seen f1)); [intros h; by rewrite Hh', Hh2|].
    apply (insert_rooted f b f1 (ca_ok _ _ Hcf)); [by apply (rooted_same (seen self))| |done].
    intros Hp h. rewrite Hhf. by apply Hgen.
Qed.

(** * Reachable databases *)

Section reachable.
Context `{BitVec} {T : Type} `{!KeyValueDatabase T} `{!KeyValueDatabaseLaws T}.
Implicit Types (self : BlockChainDatabase T).

(** The operations of the node on its database.  Hashes are 256 bits wide and no block
    hashes to zero; a block without a parent is inserted first. *)
Inductive db_step : BlockChainDatabase T -> BlockChainDatabase T -> Prop :=
| step_insert self b self' :
    length (ih_hash (ib_header b)) = 32%nat -> ih_hash (ib_header b) <> zero_hash ->
    (previous_header_hash (ih_raw (ib_header b)) = zero_hash -> forall h, header_of (seen self) h = None) ->
    insert self b = Ok self' -> db_step self self'
| step_canonize self h self' : canonize self h = Ok self' -> db_step self self'
| step_decanonize self h self' : decanonize self = Ok (h, self') -> db_step self self'
| step_switch self o f self' :
    fork self o = Ok f -> switch_to_fork self f = Ok self' -> db_step self self'
| step_reorganize self o f b f1 f2 self' :
    length (ih_hash (ib_header b)) = 32%nat -> ih_hash (ib_header b) <> zero_hash ->
    (previous_header_hash (ih_raw (ib_header b)) = zero_hash -> forall h, header_of (seen self) h = None) ->
    fork self o = Ok f -> insert f b = Ok f1 -> canonize f1 (ih_hash (ib_header b)) = Ok f2 ->
    switch_to_fork self f2 = Ok self' -> db_step self self'
| step_reopen self self' : @open _ _ _ StorageError (db self) = Ok self' -> db_step self self'.

(** What holds of every database the node can reach. *)
Definition db_invariant self : Prop := (exists hs, canonical self hs) /\ rooted (seen self).

Lemma db_invariant_step self self' : db_step self self' -> db_invariant self -> db_invariant self'.
Proof.
  intros Hstep [[hs Hca] Hroot]. pose proof (ca_ok _ _ Hca) as Hok.
  destruct Hstep as [self b self' Hl Hz Hgen Hi|self h self' Hc|self h self' Hd|self o f self' Hf Hs|self o f b f1 f2 self' Hl Hz Hgen Hf Hi Hc Hs|self self' Ho].
  - split; [exists hs; by eapply insert_canonical|by eapply insert_rooted].
  - split; [exists (hs ++ [h]); by eapply canonize_canonical|].
    apply (rooted_same (seen self)); [|done]. by eapply canonize_headers.
  - destruct (decanonize_canonical self hs self' h Hca Hd) as (hs' & _ & Hca'). split; [by exists hs'|].
    apply (rooted_same (seen self)); [|done]. by eapply decanonize_headers.
  - destruct (switch_canonical self hs o f Hca Hf) as (s & hs' & Hs' & _ & Hca' & _ & Hv).
    rewrite Hs in Hs'. injection Hs' as <-. split; [by eexists|].
    apply (rooted_same (seen self)); [|done]. intros h. rewrite <- (fork_headers self hs o f Hca Hf).
    unfold header_of. by rewrite Hv.
  - destruct (reorganize_spec self hs o f b f1 f2 Hca Hl Hz Hf Hi Hc) as (s & hs' & Hs' & Hca' & Hh & Hrt).
    rewrite Hs in Hs'. injection Hs' as <-. split; [by eexists|by apply Hrt].
  - rewrite (open_canonical (db self) hs) in Ho by apply Hca. injection Ho as <-.
    split; [|done]. exists hs. split; [apply Hca|done|apply Hca].
Qed.

Lemma empty_canonical (d : T) :
  kv_ok d -> (forall k, view d k = None) -> canonical (mkDb best_block_default d) [].
Proof.
  intros Hok Hnone. split; [done..|]. split.
  - left. by rewrite !Hnone.
  - intros n Hn. unfold hash_at. cbn. by rewrite Hnone.
  - intros h n. unfold number_of. cbn. rewrite Hnone. split; [done|by intros [_ ?]].
  - by intros [|i] h.
  - constructor.
  - intros h hd. unfold header_of. cbn. by rewrite Hnone.
  - cbn. lia.
Qed.

Lemma empty_invariant (d : T) :
  kv_ok d -> (forall k, view d k = None) -> db_invariant (mkDb best_block_default d).
Proof.
  intros Hok Hnone. split; [exists []; by apply empty_canonical|].
  assert (forall h, header_of (view d) h = None) as Hh by (intros h; unfold header_of; by rewrite Hnone).
  split; cbn; intros; [by rewrite Hh in *..|]. exists (fun _ => O). intros h hd. by rewrite Hh.
Qed.

Lemma reachable_invariant self self' : rtc db_step self self' -> db_invariant self -> db_invariant self'.
Proof. induction 1; eauto using db_invariant_step. Qed.

End reachable.

(** * The origin of a block *)

(** Blocks off the chain that lead from position [i] of the chain to a hash. *)
Inductive route `{BitVec} (c : contents) (hs : list bytes) : bytes -> list bytes -> nat -> Prop :=
| route_canon h i : hs !! i = Some h -> route c hs h [] i
| route_side h hd r i :
    h ∉ hs -> header_of c h = Some hd -> route c hs (previous_header_hash hd) r i ->
    route c hs h (r ++ [h]) i.

Lemma route_total `{BitVec} c hs h :
  canonical_contents c hs -> hs <> [] -> rooted c -> is_Some (header_of c h) ->
  exists r i, route c hs h r i.
Proof.
  intros Hc Hne [Hclosed Hroot [depth Hdepth]].
  induction (Nat.lt_wf_0_projected depth h) as [h _ IH]. intros [hd Hh].
  destruct (decide (h ∈ hs)) as [[i Hi]%list_elem_of_lookup|Hout]; [exists [], i; by constructor|].
  assert (previous_header_hash hd <> zero_hash) as Hz.
  { intros Hz. destruct hs as [|g hs]; [done|]. destruct (cc_linked _ _ Hc 0 g eq_refl) as (hd' & Hg & [= Hp]).
    apply Hout. rewrite (Hroot h hd g hd' Hh Hg Hz) by done. by left. }
  destruct (IH (previous_header_hash hd)) as (r & i & Hr); [by apply Hdepth|by apply (Hclosed h)|].
  exists (r ++ [h]), i. by eapply route_side.
Qed.

Lemma route_ancestor `{BitVec} c hs h r i : route c hs h r i -> (i < length hs)%nat.
Proof. induction 1 as [h i Hi|]; [|done]. by apply lookup_lt_Some in Hi. Qed.

(** The chain of the ancestor and the route end in the hash. *)
Lemma route_last `{BitVec} c hs h r i :
  route c hs h r i -> last (take (S i) hs ++ r) = Some h.
Proof.
  induction 1 as [h i Hi|h hd r i _ _ _ _]; [|by rewrite app_assoc, last_snoc].
  rewrite app_nil_r, (take_S_r _ _ _ Hi). apply last_snoc.
Qed.

Section origin.
Context `{BitVec} {T : Type} `{!KeyValueDatabase T} `{!KeyValueDatabaseLaws T}.
Context (self : BlockChainDatabase T) (hs : list bytes).
Context (Hca : canonical self hs).

Lemma number_of_chain h i : hs !! i = Some h -> number_of (seen self) h = Some (Z.of_nat i).
Proof.
  intros Hi. apply (cc_number_of _ _ (ca_contents _ _ Hca)). by rewrite Nat2Z.id; split; [lia|].
Qed.

Lemma number_of_side h : h ∉ hs -> number_of (seen self) h = None.
Proof.
  intros Hout. destruct (number_of (seen self) h) as [n|] eqn:Hn; [|done].
  apply (cc_number_of _ _ (ca_contents _ _ Hca)) in Hn as [_ Hn]. by apply list_elem_of_lookup_2 in Hn.
Qed.

Lemma hashes_between_chain {E} count n :
  (n + count <= length hs)%nat ->
  @hashes_between _ _ _ E self count (Z.of_nat n) = Ok (take count (drop n hs)).
Proof.
  revert n. induction count as [|count IH]; intros n Hle; [done|]. cbn [hashes_between].
  rewrite block_hash_view, ok_bind by apply Hca.
  rewrite (cc_hash_at _ _ (ca_contents _ _ Hca)), Nat2Z.id by lia.
  replace (Z.of_nat n + 1) with (Z.of_nat (S n)) by lia. rewrite IH, ok_bind by lia.
  destruct (lookup_lt_is_Some_2 hs n) as [x Hx]; [lia|]. rewrite Hx. by rewrite (drop_S _ _ _ Hx).
Qed.

(** The origin the loop computes. *)
Definition side_origin (r : list bytes) (i : nat) : BlockOrigin :=
  let number := Z.of_nat i + zlen r + 1 in
  let origin := mkOrigin (Z.of_nat i) r (drop (S i) hs) number in
  if bb_number (best_block self) <? number then SideChainBecomingCanonChain origin else SideChain origin.

Lemma origin_loop_spec h r i fuel fork_len acc :
  route (seen self) hs h r i -> zlen hs + zlen acc + Z.of_nat fuel < 2 ^ 32 -> fork_len = zlen acc ->
  origin_loop self fuel fork_len acc h =
  if (length r <? fuel)%nat then Ok (side_origin (r ++ rev acc) i) else Err AncientFork.
Proof.
  intros Hr. revert fuel fork_len acc. pose proof (ca_ok _ _ Hca) as Hok. pose proof (route_ancestor _ _ _ _ _ Hr) as Hi.
  induction Hr as [h i Hlook|h hd r i Hout Hh _ IH]; intros [|fuel] fork_len acc Hb ->; try done; cbn [origin_loop].
  - rewrite block_number_view, ok_bind by done. rewrite (number_of_chain h i Hlook).
    pose proof (ca_best _ _ Hca) as Hbest.
    rewrite Hbest. cbn [chain_best bb_number].
    repeat first [rewrite ok_bind | rewrite (ucheck_Ok 32) by (unfold uint; lia)].
    replace (Z.to_nat _) with (length hs - S i)%nat by lia.
    replace (Z.of_nat i + 1) with (Z.of_nat (S i)) by lia.
    rewrite hashes_between_chain, ok_bind, take_ge by (rewrite ?length_drop; lia).
    unfold side_origin. rewrite Hbest. cbn [chain_best bb_number app length Nat.ltb Nat.leb].
    by rewrite length_rev.
  - rewrite block_number_view, ok_bind by done. rewrite (number_of_side h Hout).
    rewrite block_header_view, ok_bind by done. rewrite Hh. cbn [fmap option_fmap option_map expect].
    rewrite ok_bind. cbn [ih_raw]. rewrite IH; [|done|rewrite length_app; cbn; lia|rewrite length_app; cbn; lia].
    rewrite length_app, rev_app_distr, <- app_assoc, Nat.add_1_r. done.
Qed.

End origin.

(** * Theorems *)

Section theorems.
Context `{BitVec} {T : Type} `{!KeyValueDatabase T} `{!KeyValueDatabaseLaws T}.
Implicit Types (self : BlockChainDatabase T).

(** C3: Whatever the node inserts, canonizes, undoes, switches to or reopens, starting
    from an empty database, the database holds a chain: the hashes by number and the
    numbers by hash are inverse to each other, every header names the one below it, the
    best block is the last one, the parent of every stored block is stored, and opening
    the database again gives back the same best block. *)
Theorem reachable_database (d : T) self :
  kv_ok d -> (forall k, view d k = None) -> rtc db_step (mkDb best_block_default d) self ->
  exists hs, canonical self hs /\ rooted (seen self) /\ @open _ _ _ StorageError (db self) = Ok self /\
    (hs <> [] -> @block_hash _ _ _ StorageError self (bb_number (best_block self)) =
                   Ok (Some (bb_hash (best_block self)))).
Proof.
  intros Hok Hnone Hreach. destruct (reachable_invariant _ _ Hreach (empty_invariant d Hok Hnone)) as [[hs Hca] Hroot].
  exists hs. destruct Hca as [Hok' Hb Hc]. split_and!; [done..| |].
  - rewrite (open_canonical (db self) hs), <- Hb by done. by destruct self.
  - intros Hne. rewrite block_hash_view by done. f_equal. rewrite Hb.
    destruct hs as [|h hs _] using rev_ind; [done|]. rewrite chain_best_snoc. cbn [bb_number bb_hash].
    rewrite (cc_hash_at _ _ Hc), Nat2Z.id by lia. apply lookup_snoc_Some. by right.
Qed.

(** The transactions a block was stored with. *)
Lemma insert_update_transactions c b :
  NoDup (map itx_hash (ib_transactions b)) ->
  transactions_of (apply_batch c (insert_update b)) (ih_hash (ib_header b)) = ib_transactions b.
Proof.
  intros Hnd. unfold transactions_of.
  assert (hashes_of (apply_batch c (insert_update b)) (ih_hash (ib_header b)) = map itx_hash (ib_transactions b)) as ->.
  { unfold hashes_of, insert_update. rewrite apply_batch_app, map_ops_other by (by intros; cbn).
    cbn. unfold apply_op. cbn. by rewrite decide_True. }
  unfold insert_update. rewrite apply_batch_app. set (c1 := apply_batch c _).
  assert (forall l, (forall tx, tx ∈ l -> tx ∈ ib_transactions b) ->
    omap (fun h => mkIndexedTx h <$> transaction_of (apply_batch c1 (map (fun tx =>
      OpInsert (KeyValue.Transaction (itx_hash tx) (itx_raw tx))) (ib_transactions b))) h) (map itx_hash l) = l) as Hl.
  { induction l as [|tx l IH]; intros Hin; [done|]. cbn [map omap list_omap]. unfold transaction_of at 1.
    change (Key.Transaction (itx_hash tx)) with
      (op_key (OpInsert (KeyValue.Transaction (itx_hash tx) (itx_raw tx)))).
    rewrite (map_ops_lookup (fun tx => OpInsert (KeyValue.Transaction (itx_hash tx) (itx_raw tx)))
      (ib_transactions b) c1 tx); [| |apply Hin; by left].
    - cbn [mbind option_bind op_value KeyValue.value_of Value.as_transaction fmap option_fmap option_map].
      f_equal; [by destruct tx|]. apply IH. intros t Ht. apply Hin. by right.
    - cbn [op_key KeyValue.key_of]. rewrite <- (map_map itx_hash Key.Transaction).
      by apply (NoDup_fmap_2 Key.Transaction). }
  by apply Hl.
Qed.

(** A new block with a stored parent is stored, and reads back as it was; the best
    block does not move. *)
Theorem insert_block self b :
  let parent := previous_header_hash (ih_raw (ib_header b)) in
  kv_ok (db self) -> header_of (seen self) (ih_hash (ib_header b)) = None ->
  is_Some (header_of (seen self) parent) \/ parent = zero_hash -> NoDup (map itx_hash (ib_transactions b)) ->
  exists self', insert self b = Ok self' /\ best_block self' = best_block self /\
    @block _ _ _ StorageError self' (Hash (ih_hash (ib_header b))) = Ok (Some b).
Proof.
  intros parent Hok Hnew Hp Hnd. pose proof (insert_spec self b Hok) as Hspec. cbn zeta in Hspec.
  rewrite decide_False in Hspec by (rewrite Hnew; by intros []).
  rewrite decide_False in Hspec by (rewrite eq_None_not_Some; tauto).
  destruct Hspec as (self' & Hi & Hb & Hok' & Hv). exists self'. split_and!; [done..|].
  rewrite block_view by done. f_equal. unfold block_of.
  assert (forall h, header_of (seen self') h = header_of (apply_batch (seen self) (insert_update b)) h) as ->.
  { intros h. unfold header_of. by rewrite Hv. }
  rewrite insert_update_header, decide_True by done.
  assert (transactions_of (seen self') (ih_hash (ib_header b)) =
    transactions_of (apply_batch (seen self) (insert_update b)) (ih_hash (ib_header b))) as ->.
  { unfold transactions_of, hashes_of. rewrite Hv. apply list_omap_ext, Forall_Forall2_diag, Forall_forall.
    intros t _. unfold transaction_of. by rewrite Hv. }
  rewrite insert_update_transactions by done. destruct b as [[] ?]. done.
Qed.

Lemma block_origin_cases self hs header :
  canonical self hs -> hs <> [] -> rooted (seen self) -> zlen hs + MAX_FORK_ROUTE_PRESET < 2 ^ 32 ->
  let previous := previous_header_hash (ih_raw header) in
  if decide (is_Some (header_of (seen self) (ih_hash header))) then block_origin self header = Ok KnownBlock
  else if decide (previous = bb_hash (best_block self)) then block_origin self header = Ok (CanonChain (zlen hs))
  else if decide (header_of (seen self) previous = None) then block_origin self header = Err UnknownParent
  else exists r i, route (seen self) hs previous r i /\
    block_origin self header =
      if (length r <? Z.to_nat MAX_FORK_ROUTE_PRESET)%nat then Ok (side_origin self hs r i) else Err AncientFork.
Proof.
  intros Hca Hne Hroot Hbound previous. pose proof Hca as [Hok Hb Hc]. unfold block_origin.
  assert (hash_at (seen self) (bb_number (best_block self)) = Some (bb_hash (best_block self))) as Hat.
  { rewrite Hb. destruct hs as [|h hs' _] using rev_ind; [done|]. rewrite chain_best_snoc. cbn [bb_number bb_hash].
    rewrite (cc_hash_at _ _ Hc), Nat2Z.id by lia. apply lookup_snoc_Some. by right. }
  rewrite block_hash_view, ok_bind, Hat by done.
  rewrite (bool_decide_eq_true_2 _ (eq_refl (Some (bb_hash (best_block self))))). cbn [rust_assert]. rewrite ok_bind.
  rewrite !contains_block_view by done. rewrite !ok_bind.
  case_decide as Hk; [by rewrite (bool_decide_eq_true_2 _ Hk)|]. rewrite (bool_decide_eq_false_2 _ Hk). fold previous. case_decide as Hp.
  { rewrite bool_decide_true by done. assert (bb_number (best_block self) + 1 = zlen hs) as ->.
    { rewrite Hb. destruct hs; [done|]. cbn. lia. }
    rewrite (ucheck_Ok 32) by (unfold uint, MAX_FORK_ROUTE_PRESET in *; lia). done. }
  rewrite bool_decide_false by congruence. case_decide as Hunk.
  { rewrite bool_decide_false by (rewrite Hunk; by intros []). done. }
  apply not_eq_None_Some in Hunk. rewrite bool_decide_true by done. cbn [negb fail_if]. rewrite ok_bind.
  destruct (route_total _ _ _ Hc Hne Hroot Hunk) as (r & i & Hr). exists r, i. split; [done|].
  rewrite (origin_loop_spec self hs Hca previous r i); [by rewrite app_nil_r|done| |done].
  unfold MAX_FORK_ROUTE_PRESET in *. cbn [length]. lia.
Qed.

(** C12: The origin of a block.  A stored block is known; a child of the best block extends
    the chain; a block without a stored parent is refused; for any other block there is a
    route of side blocks from the chain to its parent, and the origin is that route with
    the chain's blocks above the ancestor and the number of the block, unless the route
    has 2048 blocks or more. *)
Theorem block_origin_spec self hs header :
  canonical self hs -> hs <> [] -> rooted (seen self) -> zlen hs + MAX_FORK_ROUTE_PRESET < 2 ^ 32 ->
  let previous := previous_header_hash (ih_raw header) in
  if decide (is_Some (header_of (seen self) (ih_hash header))) then block_origin self header = Ok KnownBlock
  else if decide (previous = bb_hash (best_block self)) then block_origin self header = Ok (CanonChain (zlen hs))
  else if decide (header_of (seen self) previous = None) then block_origin self header = Err UnknownParent
  else exists r i, route (seen self) hs previous r i /\
    block_origin self header =
      if (length r <? Z.to_nat MAX_FORK_ROUTE_PRESET)%nat then Ok (side_origin self hs r i) else Err AncientFork.
Proof. apply block_origin_cases. Qed.

(** C13: Forking at the origin of a side block gives the chain that ends in its parent, one
    below the number of the block, without touching the database; switching to the fork
    makes that chain the chain of the database, with the same contents. *)
Theorem fork_of_origin self hs header o f :
  canonical self hs -> hs <> [] -> rooted (seen self) -> zlen hs + MAX_FORK_ROUTE_PRESET < 2 ^ 32 ->
  block_origin self header = Ok (SideChain o) \/ block_origin self header = Ok (SideChainBecomingCanonChain o) ->
  fork self o = Ok f ->
  exists chain self', canonical f chain /\ o_db (db f) = db self /\
    chain = take (S (Z.to_nat (ancestor o))) hs ++ canonized_route o /\
    best_block f = mkBest (so_block_number o - 1) (previous_header_hash (ih_raw header)) /\
    switch_to_fork self f = Ok self' /\ canonical self' chain /\ forall k, seen self' k = seen f k.
Proof.
  intros Hca Hne Hroot Hbound Ho Hf. pose proof (block_origin_cases self hs header Hca Hne Hroot Hbound) as Hspec.
  cbn zeta in Hspec. repeat case_decide; try (destruct Ho; congruence).
  destruct Hspec as (r & i & Hr & Hspec). destruct (length r <? _)%nat; [|destruct Ho; congruence].
  assert (o = mkOrigin (Z.of_nat i) r (drop (S i) hs) (Z.of_nat i + zlen r + 1)) as ->.
  { unfold side_origin in Hspec. destruct (_ <? _), Ho as [Ho|Ho]; rewrite Ho in Hspec; by injection Hspec. }
  destruct (fork_canonical self hs _ f Hca Hf) as (Hdb & hs' & Hhs & Hcf).
  destruct (switch_canonical self hs _ f Hca Hf) as (self' & hs'' & Hs & Hhs' & Hcs & _ & Hv).
  cbn [decanonized_route canonized_route ancestor so_block_number] in *.
  assert (forall l, hs = l ++ drop (S i) hs -> l = take (S i) hs) as Htake.
  { intros l Hl. apply (app_inv_tail (drop (S i) hs)). by rewrite <- Hl, take_drop. }
  rewrite (Htake hs' Hhs) in Hcf. rewrite (Htake hs'' Hhs') in Hcs.
  exists (take (S i) hs ++ r), self'. rewrite Nat2Z.id. split_and!; [done..| |done|done|done].
  rewrite (ca_best _ _ Hcf). unfold chain_best. rewrite (route_last _ _ _ _ _ Hr). cbn. f_equal.
  rewrite length_app, length_take. pose proof (route_ancestor _ _ _ _ _ Hr). lia.
Qed.

End theorems.

End DbSpec.
