(* ===== verification/DbUtxo.v ===== *)
(** Transaction metadata in the block chain database: what canonizing a block does to the
    spent outputs, and that decanonizing it undoes exactly that. *)
From Stdlib Require Import ZArith Lia Strings.Byte.
From stdpp Require Import base decidable numbers countable gmap strings list.
From S2P Require Import Prelude Crypto Serialization Codec Chain ChainHash Network Storage Kv Db DbSpec.

Local Open Scope Z_scope.

Module DbUtxo.
Import Ser Chain ChainHash Network Storage Kv Db DbSpec.

(** * Metadata as it is observed *)

Section observed.
Context `{BitVec}.

(** The height and the bits. *)
Definition observed : Type := Z * list bool.
Definition observe (m : TransactionMeta) : observed := (block_height m, bv_iter (meta_bits m)).

(** What every hash is known to have. *)
Definition ledger : Type := bytes -> option observed.

Definition bit_of (p : OutPoint) : nat := (Z.to_nat (op_index p) + 1)%nat.

(** Setting the bit of an output. *)
Definition mark (b : bool) (l : ledger) (p : OutPoint) : ledger := fun h =>
  if decide (h = op_hash p) then (fun o => (o.1, <[bit_of p := b]> o.2)) <$> l h else l h.

Definition marks (b : bool) (ps : list OutPoint) (l : ledger) : ledger := fold_left (mark b) ps l.

(** The ledger has the output. *)
Definition has_output (l : ledger) (p : OutPoint) : Prop :=
  exists o, l (op_hash p) = Some o /\ (bit_of p < length o.2)%nat.

Lemma marks_snoc b ps p l : marks b (ps ++ [p]) l = mark b (marks b ps l) p.
Proof. apply fold_left_app. Qed.

Lemma marks_app b ps qs l : marks b (ps ++ qs) l = marks b qs (marks b ps l).
Proof. apply fold_left_app. Qed.

Lemma mark_ext b p l l' h : l h = l' h -> mark b l p h = mark b l' p h.
Proof. intros Hl. unfold mark. by rewrite Hl. Qed.

Lemma marks_ext b ps l l' h : l h = l' h -> marks b ps l h = marks b ps l' h.
Proof.
  intros Hl. induction ps as [|p ps IH] using rev_ind; [done|]. rewrite !marks_snoc. by apply mark_ext.
Qed.

(** A hash no output belongs to is not touched. *)
Lemma marks_other b ps l h : Forall (fun p => op_hash p <> h) ps -> marks b ps l h = l h.
Proof.
  induction ps as [|p ps IH] using rev_ind; [done|]. intros [Hps Hp]%Forall_app. rewrite Forall_singleton in Hp.
  rewrite marks_snoc. unfold mark. rewrite decide_False by congruence. auto.
Qed.

(** The bits after marking. *)
Lemma marks_Some b ps l h z bits :
  l h = Some (z, bits) ->
  exists bits', marks b ps l h = Some (z, bits') /\ length bits' = length bits /\
    forall k, bits' !! k = if decide (Exists (fun p => op_hash p = h /\ bit_of p = k) ps)
                           then (if decide (k < length bits)%nat then Some b else None) else bits !! k.
Proof.
  intros Hl. induction ps as [|p ps IH] using rev_ind.
  { exists bits. split_and!; [done..|]. intros k. by rewrite decide_False by (by intros ?%Exists_nil). }
  destruct IH as (bits' & Hm & Hlen & Hbits). rewrite marks_snoc. unfold mark. rewrite Hm.
  case_decide as Hp.
  - exists (<[bit_of p := b]> bits'). cbn. rewrite length_insert. split_and!; [done..|].
    intros k. destruct (decide (k = bit_of p)) as [->|Hk].
    + rewrite decide_True by (apply Exists_app; right; constructor; by split).
      case_decide; [apply list_lookup_insert_eq; lia|]. apply lookup_ge_None_2. rewrite length_insert. lia.
    + rewrite list_lookup_insert_ne, Hbits by done. apply decide_ext. rewrite Exists_app, Exists_cons, Exists_nil.
      split; [tauto|]. intros [?|[[_ ?]|[]]]; [done|congruence].
  - exists bits'. split_and!; [done..|]. intros k. rewrite Hbits. apply decide_ext.
    rewrite Exists_app, Exists_cons, Exists_nil. split; [tauto|]. intros [?|[[? _]|[]]]; [done|congruence].
Qed.

Lemma marks_None b ps l h : l h = None -> marks b ps l h = None.
Proof.
  intros Hl. induction ps as [|p ps IH] using rev_ind; [done|]. rewrite marks_snoc. unfold mark. rewrite IH.
  by case_decide.
Qed.

Lemma marks_has_output b ps l p : has_output (marks b ps l) p <-> has_output l p.
Proof.
  unfold has_output. destruct (l (op_hash p)) as [[z bits]|] eqn:Hl.
  - destruct (marks_Some b ps l _ z bits Hl) as (bits' & -> & Hlen & _).
    split; intros (o & [= <-] & Ho); eexists; (split; [done|]); cbn in *; lia.
  - rewrite marks_None by done. split; by intros (o & ? & _).
Qed.

(** Spending outputs that were not spent and taking it back changes nothing. *)
Lemma marks_undo ps l h :
  (forall p, p ∈ ps -> op_hash p = h -> exists o, l h = Some o /\ o.2 !! bit_of p = Some false) ->
  marks false ps (marks true ps l) h = l h.
Proof.
  intros Hps. destruct (l h) as [[z bits]|] eqn:Hl; [|by apply marks_None, marks_None].
  destruct (marks_Some true ps l h z bits Hl) as (b1 & Hm1 & Hl1 & Hb1).
  destruct (marks_Some false ps _ h z b1 Hm1) as (b2 & -> & Hl2 & Hb2).
  do 2 f_equal. apply list_eq. intros k. rewrite Hb2, Hb1, Hl1. case_decide as Hex; [|done].
  apply Exists_exists in Hex as (p & Hp & Hh & <-). destruct (Hps p Hp Hh) as (o & [= <-] & Ho). cbn in Ho.
  rewrite decide_True; [done|]. by apply lookup_lt_Some in Ho.
Qed.

End observed.

(** * The loops *)

Section loops.
Context `{BitVecLaws} {T : Type} `{!KeyValueDatabase T} `{!KeyValueDatabaseLaws T}.
Context (self : BlockChainDatabase T) (Hok : kv_ok (db self)).

Definition denote {E} (used : bool) : TransactionMeta -> nat -> outcome E TransactionMeta :=
  if used then denote_used else denote_unused.

Lemma denote_cases {E} used m i :
  if decide ((i + 1 < length (bv_iter (meta_bits m)))%nat)
  then exists m', @denote E used m i = Ok m' /\
    observe m' = (block_height m, <[(i + 1)%nat := used]> (bv_iter (meta_bits m)))
  else @denote E used m i = Panic.
Proof.
  case_decide as Hi.
  - destruct (@set_bit _ _ E m (i + 1) used Hi) as (w & Hset & Hw). exists (mkMeta (block_height m) w).
    unfold denote, denote_used, denote_unused, observe. cbn. rewrite Hw. destruct used; by rewrite Hset.
  - unfold denote, denote_used, denote_unused. destruct used; by rewrite bv_set_outside by lia.
Qed.

(** The metadata as the loops see it: what they modified over what is stored. *)
Definition layer (mm : gmap bytes TransactionMeta) (h : bytes) : option TransactionMeta :=
  match mm !! h with Some m => Some m | None => meta_of (seen self) h end.
Definition layered (mm : gmap bytes TransactionMeta) : ledger := fun h => observe <$> layer mm h.

Lemma layer_insert mm h m h' : layer (<[h := m]> mm) h' = if decide (h' = h) then Some m else layer mm h'.
Proof. unfold layer. case_decide; [subst; by rewrite lookup_insert_eq|by rewrite lookup_insert_ne]. Qed.

Lemma touch_meta_Ok used missing mm input mm' :
  touch_meta self (denote used) missing mm input = Ok mm' ->
  has_output (layered mm) (previous_output input) /\
  (forall h, layered mm' h = mark used (layered mm) (previous_output input) h) /\
  forall h, layer mm h = None -> layer mm' h = None.
Proof.
  unfold touch_meta. set (p := previous_output input). intros Ht. apply bind_Ok in Ht as (m & Hm & Ht).
  assert (layer mm (op_hash p) = Some m) as Hl.
  { unfold layer. destruct (mm !! op_hash p); [by injection Hm as ->|].
    rewrite transaction_meta_view, ok_bind in Hm by done. destruct (meta_of _ _); by simplify_eq/=. }
  apply bind_Ok in Ht as (m' & Hd & Ht). injection Ht as <-.
  pose proof (@denote_cases StorageError used m (Z.to_nat (op_index p))) as Hcases.
  case_decide as Hi; [|congruence]. destruct Hcases as (m'' & Hd' & Hobs). rewrite Hd in Hd'. injection Hd' as <-.
  split_and!.
  - exists (observe m). unfold layered. by rewrite Hl.
  - intros h. unfold layered, mark. rewrite layer_insert. case_decide; [subst|done]. rewrite Hl. cbn. by rewrite Hobs.
  - intros h Hh. rewrite layer_insert, decide_False; [done|]. congruence.
Qed.

Lemma touch_meta_returns used missing mm input :
  has_output (layered mm) (previous_output input) ->
  exists mm', touch_meta self (denote used) missing mm input = Ok mm'.
Proof.
  unfold touch_meta. set (p := previous_output input). intros (o & Ho & Hlt).
  unfold layered in Ho. destruct (layer mm (op_hash p)) as [m|] eqn:Hl; [|done]. injection Ho as <-.
  assert ((match mm !! op_hash p with
           | Some meta => Ok meta
           | None => meta ← transaction_meta self (op_hash p); ok_or meta missing
           end) = Ok m) as ->.
  { unfold layer in Hl. destruct (mm !! op_hash p); [by injection Hl as ->|].
    rewrite transaction_meta_view, ok_bind by done. by rewrite Hl. }
  rewrite ok_bind. pose proof (@denote_cases StorageError used m (Z.to_nat (op_index p))) as Hcases.
  rewrite decide_True in Hcases by done. destruct Hcases as (m' & -> & _). by eexists.
Qed.

Lemma touch_inputs_Ok used missing mm ins mm' :
  touch_inputs self (denote used) missing mm ins = Ok mm' ->
  Forall (has_output (layered mm)) (map previous_output ins) /\
  (forall h, layered mm' h = marks used (map previous_output ins) (layered mm) h) /\
  forall h, layer mm h = None -> layer mm' h = None.
Proof.
  revert mm. induction ins as [|input ins IH]; intros mm; cbn [touch_inputs map]; [by intros [= ->]|].
  intros Ht. apply bind_Ok in Ht as (mm1 & H1 & Ht). apply touch_meta_Ok in H1 as (Ho & Hm & Hn).
  destruct (IH mm1 Ht) as (Hos & Hms & Hns). split_and!.
  - constructor; [done|]. eapply Forall_impl; [exact Hos|]. intros p Hp.
    apply (marks_has_output used [previous_output input]). destruct Hp as (o & Hp & Hl). exists o.
    split; [|done]. rewrite <- Hp. symmetry. apply Hm.
  - intros h. rewrite Hms. cbn [marks fold_left]. apply marks_ext, Hm.
  - intros h Hh. by apply Hns, Hn.
Qed.

Lemma touch_inputs_returns used missing mm ins :
  Forall (has_output (layered mm)) (map previous_output ins) ->
  exists mm', touch_inputs self (denote used) missing mm ins = Ok mm'.
Proof.
  revert mm. induction ins as [|input ins IH]; intros mm; cbn [touch_inputs map]; [by eexists|].
  intros [Ho Hos]%Forall_cons. destruct (touch_meta_returns used missing mm input Ho) as [mm1 H1].
  rewrite H1, ok_bind. apply IH. eapply Forall_impl; [exact Hos|]. intros p Hp.
  apply touch_meta_Ok in H1 as (_ & Hm & _).
  apply (marks_has_output used [previous_output input]) in Hp. destruct Hp as (o & Hp & Hl). exists o.
  split; [|done]. rewrite <- Hp. apply Hm.
Qed.

Lemma decanonize_transactions_returns mm txs :
  Forall (has_output (layered mm)) (prevouts txs) ->
  exists mm', decanonize_transactions self mm txs = Ok mm' /\
    forall h, layered mm' h = marks false (prevouts txs) (layered mm) h.
Proof.
  revert mm. induction txs as [|tx txs IH]; intros mm Hos; cbn [decanonize_transactions]; [by exists mm|].
  unfold prevouts in *. cbn [List.flat_map] in *. rewrite map_app in *. apply Forall_app in Hos as [Ho Hos].
  destruct (touch_inputs_returns false CannotDecanonize mm _ Ho) as [mm1 H1].
  change denote_unused with (@denote StorageError false). rewrite H1, ok_bind.
  apply touch_inputs_Ok in H1 as (_ & Hm & _). destruct (IH mm1) as (mm' & Hr & Hms).
  { eapply Forall_impl; [exact Hos|]. intros p Hp. apply (marks_has_output false (map previous_output (inputs (itx_raw tx)))) in Hp.
    destruct Hp as (o & Hp & Hl). exists o. split; [|done]. rewrite <- Hp. apply Hm. }
  exists mm'. split; [done|]. intros h. rewrite Hms, marks_app. apply marks_ext, Hm.
Qed.

(** ** Canonizing *)

(** The metadata of a transaction none of whose outputs is spent. *)
Definition created (number : Z) (coinbase : bool) (tx : IndexedTransaction) : observed :=
  (number, coinbase :: replicate (length (outputs (itx_raw tx))) false).

Definition find_tx (txs : list IndexedTransaction) (h : bytes) : option IndexedTransaction :=
  List.find (fun tx => bool_decide (itx_hash tx = h)) txs.

(** The ledger with new transactions. *)
Definition with_new (number : Z) (txs : list IndexedTransaction) (l : ledger) : ledger := fun h =>
  match find_tx txs h with Some tx => Some (created number false tx) | None => l h end.

Lemma find_tx_cons tx txs h :
  find_tx (tx :: txs) h = if decide (h = itx_hash tx) then Some tx else find_tx txs h.
Proof. unfold find_tx. cbn. case_bool_decide; case_decide; congruence. Qed.

Lemma find_tx_Some txs h tx : find_tx txs h = Some tx -> tx ∈ txs /\ itx_hash tx = h.
Proof.
  unfold find_tx. intros Hf. apply List.find_some in Hf as [Hin Hb]. apply bool_decide_eq_true in Hb.
  by apply list_elem_of_In in Hin.
Qed.

Lemma find_tx_None txs h : find_tx txs h = None <-> h ∉ map itx_hash txs.
Proof.
  induction txs as [|tx txs IH]; [split; [by intros _ ?%elem_of_nil|done]|].
  rewrite find_tx_cons. cbn [map]. rewrite not_elem_of_cons, <- IH. case_decide; [split; [done|tauto]|tauto].
Qed.

Lemma observe_new number tx : observe (meta_new number (length (outputs (itx_raw tx)))) = created number false tx.
Proof. unfold observe, created. cbn. by rewrite bv_iter_from_elem, Nat.add_1_r. Qed.

(** Outputs that are spent have metadata, so what has none is not touched. *)
Lemma unknown_not_spent l ps h : Forall (has_output l) ps -> l h = None -> Forall (fun p => op_hash p <> h) ps.
Proof.
  intros Hps Hh. eapply Forall_impl; [exact Hps|]. intros p (o & Ho & _) Heq. congruence.
Qed.

Lemma has_output_ext l l' p : l (op_hash p) = l' (op_hash p) -> has_output l p -> has_output l' p.
Proof. intros Hl (o & Ho & Hlt). exists o. by rewrite <- Hl. Qed.

Lemma canonize_transactions_Ok number mm txs mm' :
  canonize_transactions self number mm txs = Ok mm' -> NoDup (map itx_hash txs) ->
  (forall h, h ∈ map itx_hash txs -> layer mm h = None) ->
  Forall (has_output (layered mm')) (prevouts txs) /\
  forall h, layered mm' h = marks true (prevouts txs) (with_new number txs (layered mm)) h.
Proof.
  revert mm. induction txs as [|tx txs IH]; intros mm Hr Hnd Hnew; cbn [canonize_transactions] in Hr.
  { injection Hr as <-. by split; [constructor|]. }
  cbn [map] in Hnd, Hnew. apply NoDup_cons in Hnd as [Htx Hnd].
  set (mm0 := <[itx_hash tx := _]> mm) in Hr. change denote_used with (@denote StorageError true) in Hr.
  apply bind_Ok in Hr as (mm1 & H1 & Hr). apply touch_inputs_Ok in H1 as (Ho & Hm & Hn).
  assert (forall h, h ∈ map itx_hash txs -> layer mm0 h = None) as Hnew0.
  { intros h Hh. unfold mm0. rewrite layer_insert, decide_False; [by apply Hnew; right|]. by intros ->. }
  destruct (IH mm1 Hr Hnd) as [Hos Hms]; [intros h Hh; by apply Hn, Hnew0|].
  assert (forall h, layered mm0 h =
    if decide (h = itx_hash tx) then Some (created number false tx) else layered mm h) as Hl0.
  { intros h. unfold layered, mm0. rewrite layer_insert. case_decide; [cbn; by rewrite observe_new|done]. }
  set (ps := map previous_output (inputs (itx_raw tx))) in *.
  assert (prevouts (tx :: txs) = ps ++ prevouts txs) as -> by (unfold prevouts; cbn; by rewrite map_app).
  assert (forall p, has_output (layered mm1) p -> has_output (layered mm') p) as Hmono.
  { intros p Hp. eapply has_output_ext; [symmetry; apply Hms|]. apply marks_has_output.
    eapply has_output_ext; [|exact Hp]. unfold with_new. destruct (find_tx txs (op_hash p)) as [t|] eqn:Hf; [|done].
    apply find_tx_Some in Hf as [Hin Heq]. destruct Hp as (o & Hp & _). unfold layered in Hp.
    rewrite Hn in Hp; [done|]. rewrite <- Heq. apply Hnew0. by apply list_elem_of_fmap_2. }
  split.
  - apply Forall_app. split; [|done]. eapply Forall_impl; [exact Ho|]. intros p Hp. apply Hmono.
    eapply has_output_ext; [symmetry; apply Hm|]. by apply marks_has_output.
  - intros h. rewrite Hms, marks_app. apply marks_ext. unfold with_new at 1.
    destruct (find_tx txs h) as [t|] eqn:Hf.
    + pose proof (find_tx_Some _ _ _ Hf) as [Hin Heq]. assert (h ∈ map itx_hash txs) as Hh.
      { rewrite <- Heq. by apply list_elem_of_fmap_2. }
      rewrite marks_other; [unfold with_new; rewrite find_tx_cons, decide_False, Hf by (by intros ->); done|].
      apply (unknown_not_spent (layered mm0)); [done|]. unfold layered. by rewrite Hnew0.
    + rewrite Hm. apply marks_ext. unfold with_new. rewrite Hl0, find_tx_cons, Hf. by case_decide.
Qed.

(** A transaction that succeeds spends nothing of the transactions after it. *)
Lemma canonize_transactions_order number mm txs mm' pre child post p :
  canonize_transactions self number mm txs = Ok mm' -> NoDup (map itx_hash txs) ->
  (forall h, h ∈ map itx_hash txs -> layer mm h = None) ->
  txs = pre ++ child :: post -> p ∈ map previous_output (inputs (itx_raw child)) ->
  op_hash p ∉ map itx_hash post.
Proof.
  revert mm pre. induction txs as [|tx txs IH]; intros mm pre Hr Hnd Hnew Heq Hp Hin; [by destruct pre|].
  cbn [map canonize_transactions] in *. apply NoDup_cons in Hnd as [Htx Hnd].
  set (mm0 := <[itx_hash tx := _]> mm) in Hr. change denote_used with (@denote StorageError true) in Hr.
  apply bind_Ok in Hr as (mm1 & H1 & Hr). apply touch_inputs_Ok in H1 as (Ho & _ & Hn).
  assert (forall h, h ∈ map itx_hash txs -> layer mm0 h = None) as Hnew0.
  { intros h Hh. unfold mm0. rewrite layer_insert, decide_False; [by apply Hnew; right|]. by intros ->. }
  destruct pre as [|x pre]; injection Heq as -> ->.
  - rewrite Forall_forall in Ho. destruct (Ho p Hp) as (o & Hl & _). unfold layered in Hl.
    by rewrite Hnew0 in Hl.
  - apply (IH mm1 pre); try done. intros h Hh. by apply Hn, Hnew0.
Qed.

(** Everything [canonize] writes about outputs. *)
Definition base_ledger (number : Z) (txs : list IndexedTransaction) : ledger := fun h =>
  match txs with
  | [] => layered ∅ h
  | cb :: rest =>
      if decide (h = itx_hash cb) then Some (created number true cb) else with_new number rest (layered ∅) h
  end.

Lemma canonize_meta_Ok number txs mm :
  canonize_meta self number txs = Ok mm -> NoDup (map itx_hash txs) ->
  (forall h, h ∈ map itx_hash txs -> meta_of (seen self) h = None) ->
  Forall (has_output (layered mm)) (prevouts (drop 1 txs)) /\
  forall h, layered mm h = marks true (prevouts (drop 1 txs)) (base_ledger number txs) h.
Proof.
  unfold canonize_meta. intros Hr Hnd Hnew. apply bind_Ok in Hr as (mm0 & H0 & Hr).
  destruct txs as [|cb rest]; cbn [drop] in *; [injection H0 as <-; by apply canonize_transactions_Ok in Hr|].
  cbn [map] in Hnd, Hnew. apply NoDup_cons in Hnd as [Hcb Hnd].
  destruct (@meta_new_coinbase_spec _ _ StorageError number (length (outputs (itx_raw cb)))) as (m & Hm & Hh & Hb).
  rewrite Hm, ok_bind in H0. injection H0 as <-.
  assert (forall h, layer {[itx_hash cb := m]} h =
    if decide (h = itx_hash cb) then Some m else meta_of (seen self) h) as Hl.
  { intros h. rewrite <- insert_empty, layer_insert. case_decide; [done|]. unfold layer. by rewrite lookup_empty. }
  rewrite drop_0 in *. apply canonize_transactions_Ok in Hr as [Hos Hms]; [|done|].
  - split; [done|]. intros h. rewrite Hms. apply marks_ext. unfold base_ledger, with_new, layered. rewrite Hl.
    case_decide as Hd.
    + subst h. rewrite (proj2 (find_tx_None _ _)) by done. cbn. unfold observe, created. by rewrite Hh, Hb.
    + unfold layer. by rewrite lookup_empty.
  - intros h Hin. rewrite Hl, decide_False; [by apply Hnew; right|]. by intros ->.
Qed.

End loops.

(** * Theorems *)

Section theorems.
Context `{BitVecLaws} {T : Type} `{!KeyValueDatabase T} `{!KeyValueDatabaseLaws T}.
Implicit Types (self : BlockChainDatabase T).

(** The transactions of a stored block are new: their hashes differ and none of them has
    metadata. *)
Definition fresh_block self (h : bytes) : Prop :=
  let hashes := map itx_hash (transactions_of (seen self) h) in
  NoDup hashes /\ forall t, t ∈ hashes -> meta_of (seen self) t = None.

(** The outputs the block spends. *)
Definition spends self (h : bytes) : list OutPoint := prevouts (drop 1 (transactions_of (seen self) h)).

Lemma canonized_metas self h self' header number metas t :
  canonized self h self' header number metas -> meta_of (seen self') t = layer self metas t.
Proof.
  intros Hcz. unfold meta_of, layer. rewrite (cz_seen _ _ _ _ _ _ Hcz), insert_metas_meta.
  by destruct (metas !! t).
Qed.

Lemma spent_observed m i : meta_is_spent m i = (observe m).2 !! (i + 1)%nat.
Proof. apply bv_get_iter. Qed.

(** An output is spent in a ledger. *)
Definition spent_in (l : ledger) (o : OutPoint) : bool :=
  default false (l (op_hash o) ≫= fun x => x.2 !! bit_of o).

Lemma spent_layered self mm o :
  default false (layer self mm (op_hash o) ≫= fun m => meta_is_spent m (Z.to_nat (op_index o))) =
  spent_in (layered self mm) o.
Proof. unfold spent_in, layered. destruct (layer self mm (op_hash o)); [|done]. cbn. by rewrite spent_observed. Qed.

Lemma same_output o p : 0 <= op_index o -> 0 <= op_index p -> op_hash p = op_hash o /\ bit_of p = bit_of o <-> p = o.
Proof.
  intros Ho Hp. split; [|by intros ->]. destruct o, p. unfold bit_of. cbn in *. intros [-> Hi]. f_equal. lia.
Qed.

Lemma spent_marks ps l o :
  0 <= op_index o -> Forall (fun p => 0 <= op_index p) ps -> Forall (has_output l) ps ->
  spent_in (marks true ps l) o = bool_decide (o ∈ ps) || spent_in l o.
Proof.
  intros Ho Hps Hout. unfold spent_in. rewrite Forall_forall in Hps, Hout.
  destruct (l (op_hash o)) as [[z bits]|] eqn:Hl.
  - destruct (marks_Some true ps l _ z bits Hl) as (bits' & -> & Hlen & Hbits). cbn. rewrite Hbits.
    case_bool_decide as Hin.
    + rewrite decide_True by (apply Exists_exists; by exists o).
      destruct (Hout o Hin) as (x & Hx & Hlt). rewrite Hl in Hx. injection Hx as <-. by rewrite decide_True.
    + rewrite decide_False; [done|]. intros (p & Hp & Hsame)%Exists_exists.
      apply same_output in Hsame; [by subst|done|by apply Hps].
  - rewrite marks_None by done. rewrite bool_decide_false; [done|].
    intros Hin. destruct (Hout o Hin) as (x & Hx & _). congruence.
Qed.

Lemma created_unspent number cb tx i : default false ((created number cb tx).2 !! S i) = false.
Proof.
  change ((created number cb tx).2 !! S i) with (replicate (length (outputs (itx_raw tx))) false !! i).
  destruct (replicate _ false !! i) eqn:Hr; [|done]. by apply lookup_replicate in Hr as [-> _].
Qed.

Lemma spent_base self number txs o :
  spent_in (base_ledger self number txs) o =
  bool_decide (op_hash o ∉ map itx_hash txs) && spent_in (layered self ∅) o.
Proof.
  unfold spent_in, base_ledger, bit_of. rewrite Nat.add_1_r. destruct txs as [|cb rest]; [by rewrite bool_decide_true by apply not_elem_of_nil|].
  cbn [map]. case_decide as Hd.
  - cbn [mbind option_bind]. rewrite created_unspent, bool_decide_false; [done|]. rewrite Hd. intros Hn. apply Hn. by left.
  - unfold with_new. destruct (find_tx rest (op_hash o)) as [t|] eqn:Hf.
    + cbn [mbind option_bind]. rewrite created_unspent, bool_decide_false; [done|]. intros Hn. apply Hn. right.
      apply find_tx_Some in Hf as [Hin <-]. by apply list_elem_of_fmap_2.
    + rewrite bool_decide_true; [done|]. apply find_tx_None in Hf. by apply not_elem_of_cons.
Qed.

(** C11: Canonizing a block makes spent exactly what was spent before and what the block
    spends, coinbase apart: the outputs the block creates and does not spend are unspent,
    and every other output keeps its state.  The block's transactions are distinct and new
    to the database ([fresh_block]), and the key-value database reads back what was
    written. *)
Theorem canonize_spent self h self' o :
  kv_ok (db self) -> fresh_block self h -> canonize self h = Ok self' ->
  0 <= op_index o -> Forall (fun p => 0 <= op_index p) (spends self h) ->
  @is_spent _ _ _ StorageError self' o =
    Ok (bool_decide (o ∈ spends self h) ||
        (bool_decide (op_hash o ∉ map itx_hash (transactions_of (seen self) h)) &&
         match @is_spent _ _ _ StorageError self o with Ok b => b | _ => false end)).
Proof.
  intros Hok [Hnd Hnew] Hc Hidx Hidxs.
  destruct (canonize_Ok self h self' Hok Hc) as (header & number & metas & Hcz).
  destruct (canonize_meta_Ok self Hok _ _ _ (cz_metas _ _ _ _ _ _ Hcz) Hnd Hnew) as [Hos Hms].
  unfold is_spent. rewrite !transaction_meta_view by (done || apply Hcz). rewrite !ok_bind.
  rewrite (canonized_metas _ _ _ _ _ _ _ Hcz), spent_layered. fold (spends self h) in *. f_equal.
  assert (layer self ∅ (op_hash o) = meta_of (seen self) (op_hash o)) as <- by (unfold layer; by rewrite lookup_empty).
  rewrite spent_layered, <- (spent_base _ number), <- spent_marks; [unfold spent_in; by rewrite Hms|done..|].
  eapply Forall_impl; [exact Hos|]. intros p Hp. apply (marks_has_output true (spends self h)).
  eapply has_output_ext; [apply Hms|done].
Qed.

(** Values that answer every question the same way: metadata by its height and bits,
    anything else by itself. *)
Definition same_value (v v' : option Value.Value) : Prop :=
  match v, v' with
  | Some (Value.TransactionMeta m), Some (Value.TransactionMeta m') => observe m = observe m'
  | _, _ => v = v'
  end.

Lemma same_value_refl v : same_value v v.
Proof. by destruct v as [[]|]. Qed.

Lemma decanonized_metas self' number h number' h' metas txs t :
  apply_batch (seen self') (insert_metas (decanonize_update number h number' h') metas ++
     map (fun tx => OpDelete (Key.TransactionMeta (itx_hash tx))) txs) (Key.TransactionMeta t) =
  if decide (t ∈ map itx_hash txs) then None
  else match metas !! t with
       | Some m => Some (Value.TransactionMeta m)
       | None => seen self' (Key.TransactionMeta t)
       end.
Proof.
  rewrite apply_batch_app. case_decide as Hin.
  - apply list_elem_of_fmap in Hin as (tx & -> & Hin).
    by apply (map_ops_delete (fun tx => Key.TransactionMeta (itx_hash tx))).
  - rewrite map_ops_other, insert_metas_meta; [done|]. intros tx Htx [= Heq]. apply Hin.
    rewrite <- Heq. by apply list_elem_of_fmap_2.
Qed.

(** The block after canonizing is the stored one. *)
Lemma decanonized_other self' number h number' h' metas txs k :
  (forall t, k <> Key.TransactionMeta t) ->
  apply_batch (seen self') (insert_metas (decanonize_update number h number' h') metas ++
     map (fun tx => OpDelete (Key.TransactionMeta (itx_hash tx))) txs) k =
  apply_batch (seen self') (decanonize_update number h number' h') k.
Proof.
  intros Hk. rewrite apply_batch_app, map_ops_other, insert_metas_other; [done..|].
  intros tx _ Heq. by apply (Hk (itx_hash tx)).
Qed.

Lemma canonized_block self h self' header number metas :
  canonized self h self' header number metas ->
  header_of (seen self') h = Some header /\ transactions_of (seen self') h = transactions_of (seen self) h.
Proof.
  intros Hcz. pose proof (cz_seen _ _ _ _ _ _ Hcz) as Hv. split.
  - unfold header_of. rewrite Hv, insert_metas_other by done. apply Hcz.
  - unfold transactions_of, hashes_of. rewrite Hv, insert_metas_other by done. cbn.
    apply list_omap_ext. apply Forall_Forall2_diag, Forall_forall. intros t _.
    unfold transaction_of. by rewrite Hv, insert_metas_other.
Qed.

(** Typed contents. *)
Lemma seen_meta self t :
  kv_ok (db self) -> seen self (Key.TransactionMeta t) = Value.TransactionMeta <$> meta_of (seen self) t.
Proof.
  intros Hok. unfold meta_of. destruct (seen self (Key.TransactionMeta t)) as [v|] eqn:Hv; [|done].
  pose proof (kv_typed _ _ _ Hok Hv) as Hk. by destruct v.
Qed.

Lemma seen_hash self n : kv_ok (db self) -> hash_at (seen self) n = None -> seen self (Key.BlockHash n) = None.
Proof.
  intros Hok. unfold hash_at. destruct (seen self (Key.BlockHash n)) as [v|] eqn:Hv; [|done].
  pose proof (kv_typed _ _ _ Hok Hv) as Hk. by destruct v.
Qed.

Lemma seen_number self h : kv_ok (db self) -> number_of (seen self) h = None -> seen self (Key.BlockNumber h) = None.
Proof.
  intros Hok. unfold number_of. destruct (seen self (Key.BlockNumber h)) as [v|] eqn:Hv; [|done].
  pose proof (kv_typed _ _ _ Hok Hv) as Hk. by destruct v.
Qed.

(** [decanonize] succeeds when the spent outputs have metadata. *)
Lemma decanonize_returns self header :
  kv_ok (db self) -> header_of (seen self) (bb_hash (best_block self)) = Some header ->
  0 < bb_number (best_block self) ->
  Forall (has_output (layered self ∅)) (spends self (bb_hash (best_block self))) ->
  exists self' metas, decanonize self = Ok (bb_hash (best_block self), self') /\
    decanonized self self' header (bb_number (best_block self) - 1) metas /\
    forall t, layered self metas t = marks false (spends self (bb_hash (best_block self))) (layered self ∅) t.
Proof.
  intros Hok Hh Hn Hos. set (h := bb_hash (best_block self)) in *.
  destruct (decanonize_transactions_returns self Hok ∅ _ Hos) as (metas & Hm & Hl).
  assert (exists self', decanonize self = Ok (h, self')) as [self' Hd].
  { unfold decanonize. rewrite block_view, ok_bind by done. fold h. unfold block_of. rewrite Hh. cbn [ok_or].
    rewrite ok_bind. cbn [ib_header ib_transactions ih_raw]. rewrite (proj2 (Z.ltb_lt _ _)), ok_bind by done.
    rewrite Hm, ok_bind. set (u := fold_left _ _ _). destruct (write_view self u Hok) as (d & -> & _). by eexists. }
  destruct (decanonize_Ok self h self' Hok Hd) as (_ & header' & number & metas' & Hdz).
  pose proof (dz_header _ _ _ _ _ Hdz) as Hh'. fold h in Hh'. rewrite Hh in Hh'. injection Hh' as <-.
  pose proof (dz_metas _ _ _ _ _ Hdz) as Hm'. fold h in Hm'. rewrite Hm in Hm'. injection Hm' as <-.
  pose proof (dz_number _ _ _ _ _ Hdz) as Hnum. rewrite (proj2 (Z.ltb_lt _ _)) in Hnum by done. subst number.
  by exists self', metas.
Qed.

(** What the block spends from before it was not spent. *)
Definition spends_unspent self (h : bytes) : Prop :=
  Forall (fun p => op_hash p ∈ map itx_hash (transactions_of (seen self) h) \/
    exists m, meta_of (seen self) (op_hash p) = Some m /\
      meta_is_spent m (Z.to_nat (op_index p)) = Some false) (spends self h).

(** Metadata after canonizing and decanonizing. *)
Lemma metas_restored self h number metas self' mm t :
  fresh_block self h -> spends_unspent self h ->
  (forall x, layered self metas x =
     marks true (spends self h) (base_ledger self number (transactions_of (seen self) h)) x) ->
  (forall x, layered self' mm x = marks false (spends self h) (layered self metas) x) ->
  t ∉ map itx_hash (transactions_of (seen self) h) ->
  layered self' mm t = layered self ∅ t.
Proof.
  intros [Hnd Hnew] Hun Hl Hl' Ht. rewrite Hl', (marks_ext _ _ _ _ _ (Hl t)).
  assert (base_ledger self number (transactions_of (seen self) h) t = layered self ∅ t) as Hbase.
  { unfold base_ledger, with_new. destruct (transactions_of (seen self) h) as [|cb rest]; [done|].
    cbn [map] in Ht. apply not_elem_of_cons in Ht as [H1 H2]. rewrite decide_False by done.
    by rewrite (proj2 (find_tx_None _ _)). }
  rewrite marks_undo; [done|]. intros p Hp <-. rewrite Hbase.
  unfold spends_unspent in Hun. rewrite Forall_forall in Hun. destruct (Hun p Hp) as [Hin|(m & Hm & Hs)]; [done|].
  exists (observe m). unfold layered, layer. rewrite lookup_empty, Hm. split; [done|].
  by rewrite spent_observed in Hs.
Qed.

Lemma layer_value self mm t :
  kv_ok (db self) ->
  match mm !! t with Some m => Some (Value.TransactionMeta m) | None => seen self (Key.TransactionMeta t) end =
  Value.TransactionMeta <$> layer self mm t.
Proof. intros Hok. unfold layer. destruct (mm !! t); [done|]. by apply seen_meta. Qed.

Lemma layer_empty self t : layer self ∅ t = meta_of (seen self) t.
Proof. unfold layer. by rewrite lookup_empty. Qed.

Lemma same_meta (m m' : option TransactionMeta) :
  observe <$> m = observe <$> m' -> same_value (Value.TransactionMeta <$> m) (Value.TransactionMeta <$> m').
Proof. destruct m, m'; try done. cbn. intros Heq. by apply (inj Some). Qed.

(** Everything but metadata after canonizing and decanonizing. *)
Lemma entries_restored self hs h self' header number metas k :
  canonical self hs -> hs <> [] -> canonized self h self' header number metas ->
  (forall t, k <> Key.TransactionMeta t) ->
  apply_batch (seen self') (decanonize_update number h (number - 1) (previous_header_hash header)) k = seen self k.
Proof.
  intros [Hok Hb Hc] Hne Hcz Hk. pose proof Hcz as [Hh Hp Hn _ _ _ Hv].
  rewrite Hb in Hp, Hn. unfold next_number, is_zero in Hn. rewrite <- Hp in Hn.
  rewrite bool_decide_false in Hn by by rewrite (best_hash_zero _ hs Hc). destruct Hn as [-> Hu].
  assert (zlen hs = bb_number (chain_best hs) + 1) as Hnum by (destruct hs; [done|cbn; lia]).
  assert (h ∉ hs) as Hfresh by (eapply canonical_fresh; done).
  assert (best_stored (seen self) hs) as [(_ & _ & ->)|[Hbn Hbh]] by apply Hc; [done|].
  unfold decanonize_update. cbn [apply_batch fold_left]. unfold apply_op.
  destruct k as [key|n|x|x|x|x|x|key]; cbn [op_key op_value KeyValue.key_of KeyValue.value_of];
    repeat case_decide; simplify_eq; try (rewrite Hv, insert_metas_other by done; cbn; unfold apply_op; cbn;
      repeat case_decide; simplify_eq; done).
  - rewrite Hbn. do 3 f_equal. lia.
  - by rewrite Hbh, Hp.
  - symmetry. apply seen_hash; [done|]. cbn in Hnum. rewrite <- Hnum, (cc_hash_at _ _ Hc), Nat2Z.id by lia.
    apply lookup_ge_None_2. lia.
  - symmetry. apply seen_number; [done|]. destruct (number_of (seen self) h) as [n|] eqn:Hnof; [|done].
    apply (cc_number_of _ _ Hc) in Hnof as [_ Hi]. by apply list_elem_of_lookup_2 in Hi.
Qed.

(** C5: Undoing the best block gives the database back.  Take a stored block with distinct
    transactions of which the database has no metadata ([fresh_block], which leaves out the
    duplicate transactions that BIP30 allows), and which spends only unspent outputs.  After
    it is made canonical, [decanonize] succeeds, returns its hash, and restores the best
    block and the value of every key; metadata is restored to the same height and the
    same bits.  The key-value database reads back what was written. *)
Theorem decanonize_canonize self hs h self' :
  canonical self hs -> hs <> [] -> fresh_block self h -> spends_unspent self h ->
  canonize self h = Ok self' ->
  exists self'', decanonize self' = Ok (h, self'') /\ best_block self'' = best_block self /\
    canonical self'' hs /\ forall k, same_value (seen self'' k) (seen self k).
Proof.
  intros Hca Hne Hfresh Hun Hc. pose proof (ca_ok _ _ Hca) as Hok.
  pose proof (canonize_canonical self hs h self' Hca Hc) as Hca'.
  destruct (canonize_Ok self h self' Hok Hc) as (header & number & metas & Hcz).
  destruct (canonized_block _ _ _ _ _ _ Hcz) as [Hh' Htx'].
  assert (bb_hash (best_block self') = h) as Hbh by (rewrite (cz_best _ _ _ _ _ _ Hcz); done).
  assert (bb_number (best_block self') = number) as Hbn by (rewrite (cz_best _ _ _ _ _ _ Hcz); done).
  assert (spends self' h = spends self h) as Hsp by (unfold spends; by rewrite Htx').
  destruct (canonize_meta_Ok self Hok _ _ _ (cz_metas _ _ _ _ _ _ Hcz) (proj1 Hfresh) (proj2 Hfresh)) as [Hos Hms].
  fold (spends self h) in *.
  assert (forall t, layered self' ∅ t = layered self metas t) as Hl.
  { intros t. unfold layered. rewrite <- (canonized_metas _ _ _ _ _ _ _ Hcz). unfold layer. by rewrite lookup_empty. }
  destruct (decanonize_returns self' header (ca_ok _ _ Hca')) as (self'' & mm & Hd & Hdz & Hmm).
  { by rewrite Hbh. }
  { rewrite (ca_best _ _ Hca'), chain_best_snoc. cbn. destruct hs; [done|cbn; lia]. }
  { rewrite Hbh, Hsp. eapply Forall_impl; [exact Hos|]. intros p. by apply has_output_ext. }
  rewrite Hbh in Hd. rewrite Hbh, Hsp in Hmm. exists self''. split; [done|].
  destruct (decanonize_canonical _ _ _ _ Hca' Hd) as (hs' & Heq & Hca''). apply app_inj_tail in Heq as [<- _].
  split_and!; [by rewrite (ca_best _ _ Hca''), (ca_best _ _ Hca)|done|]. intros k.
  rewrite (dz_seen _ _ _ _ _ Hdz), Hbh, Hbn, Htx'.
  assert ((exists t, k = Key.TransactionMeta t) \/ forall t, k <> Key.TransactionMeta t) as [[t ->]|Hk]
    by (destruct k; eauto; by right).
  - rewrite decanonized_metas. case_decide as Hin.
    { rewrite (seen_meta self), (proj2 Hfresh t Hin) by done. done. }
    rewrite (layer_value self'), (seen_meta self) by (done || apply Hca'). apply same_meta.
    rewrite <- (layer_empty self). apply (metas_restored self h number metas); [done..| |done].
    intros x. rewrite Hmm. apply marks_ext, Hl.
  - rewrite decanonized_other by done. rewrite (entries_restored self hs h self' header number metas) by done.
    apply same_value_refl.
Qed.

(** Blocks must be in topological order to become canonical: when a transaction spends
    an output of a later transaction of its block, as the canonical order of Bitcoin Cash
    allows, [canonize] does not succeed. *)
Theorem canonize_needs_topological_order self h cb pre child post p :
  kv_ok (db self) -> fresh_block self h ->
  transactions_of (seen self) h = cb :: pre ++ child :: post ->
  p ∈ map previous_output (inputs (itx_raw child)) -> op_hash p ∈ map itx_hash post ->
  forall self', canonize self h <> Ok self'.
Proof.
  intros Hok [Hnd Hnew] Htx Hp Hin self' Hc.
  destruct (canonize_Ok self h self' Hok Hc) as (header & number & metas & [_ _ _ Hm _ _ _]).
  rewrite Htx in *. cbn [map] in *. apply NoDup_cons in Hnd as [Hcb Hnd].
  unfold canonize_meta in Hm. apply bind_Ok in Hm as (mm & H0 & Hm). cbn [drop] in Hm. rewrite drop_0 in Hm.
  apply bind_Ok in H0 as (m & _ & [= <-]).
  eapply canonize_transactions_order in Hm; [by apply Hm|done|done| |done|done].
  intros t Ht. rewrite <- insert_empty, layer_insert, decide_False by (by intros ->).
  unfold layer. rewrite lookup_empty. by apply Hnew; right.
Qed.

End theorems.

End DbUtxo.
