(* ===== verification/DbExamples.v ===== *)
(** Concrete databases: a chain with a side branch, witnesses of the database theorems, and
    behaviours that the theorems leave out. *)
From Stdlib Require Import ZArith Lia Strings.Byte.
From stdpp Require Import base decidable numbers countable gmap strings list.
From S2P Require Import Prelude Crypto Serialization Codec Chain ChainHash Network Storage Kv Db DbSpec DbUtxo.

Local Open Scope Z_scope.

Module DbExamples.
Import Ser Chain ChainHash Network Storage Kv Db DbSpec DbUtxo ExampleBits.

(** * A chain and a side branch *)

Definition hash_of (b : byte) : bytes := replicate 32 b.

Definition header (previous : bytes) : BlockHeader := mkHeader 1 previous zero_hash 0 0 0.

Definition tx (hash : byte) (ins : list TransactionInput) : IndexedTransaction :=
  mkIndexedTx (hash_of hash) (mkTx 1 ins [mkOutput 5 []; mkOutput 7 []] 0).

Definition coinbase (hash : byte) : IndexedTransaction := tx hash [mkInput null_outpoint [] 0 []].
Definition spend (hash previous : byte) : IndexedTransaction :=
  tx hash [mkInput (mkOutPoint (hash_of previous) 0) [] 0 []].

Definition example_block (hash : byte) (previous : bytes) (txs : list IndexedTransaction) : IndexedBlock :=
  mkIndexedBlock (mkIndexedHeader (hash_of hash) (header previous)) txs.

Definition genesis : IndexedBlock := example_block x01 zero_hash [coinbase xa0].
Definition block_1 : IndexedBlock := example_block x02 (hash_of x01) [coinbase xa1; spend xa2 xa0].
Definition side_1 : IndexedBlock := example_block x03 (hash_of x01) [coinbase xa3; spend xa2 xa0].
Definition side_2 : IndexedBlock := example_block x04 (hash_of x03) [coinbase xa4].

Definition unwrap {E A} (d : A) (m : outcome E A) : A := match m with Ok a => a | _ => d end.
Definition is_ok {E A} (m : outcome E A) : bool := match m with Ok _ => true | _ => false end.

Lemma ok_unwrap {E A} (d : A) (m : outcome E A) : is_ok m = true -> m = Ok (unwrap d m).
Proof. by destruct m. Qed.

Abbreviation database := (BlockChainDatabase MemoryDatabase).

Definition empty : database := mkDb best_block_default memory_default.
Definition after_insert (self : database) (b : IndexedBlock) : database := unwrap self (insert self b).
Definition after_canonize (self : database) (h : bytes) : database := unwrap self (canonize self h).

Definition db_1 : database := after_insert empty genesis.
Definition db_2 : database := after_canonize db_1 (hash_of x01).
Definition db_3 : database := after_insert db_2 block_1.
Definition db_4 : database := after_canonize db_3 (hash_of x02).
Definition db_5 : database := after_insert db_4 side_1.
Definition db_6 : database := after_insert db_5 side_2.

Lemma memory_empty k : view memory_default k = None.
Proof. unfold view. cbn. by rewrite memory_default_state. Qed.

Lemma memory_ok (d : MemoryDatabase) : kv_ok d.
Proof. exact I. Qed.

Lemma inserted self b : is_ok (insert self b) = true -> insert self b = Ok (after_insert self b).
Proof. apply ok_unwrap. Qed.

Lemma canonized_in self h : is_ok (canonize self h) = true -> canonize self h = Ok (after_canonize self h).
Proof. apply ok_unwrap. Qed.

Lemma db_4_canonical : canonical db_4 [hash_of x01; hash_of x02].
Proof.
  change [hash_of x01; hash_of x02] with ([hash_of x01] ++ [hash_of x02]).
  apply (canonize_canonical db_3); [|apply canonized_in; vm_compute; reflexivity].
  apply (insert_canonical db_2 _ block_1); [|done|done|apply inserted; vm_compute; reflexivity].
  change [hash_of x01] with ([] ++ [hash_of x01]).
  apply (canonize_canonical db_1); [|apply canonized_in; vm_compute; reflexivity].
  apply (insert_canonical empty _ genesis); [|done|done|apply inserted; vm_compute; reflexivity].
  apply empty_canonical; [done|apply memory_empty].
Qed.

Lemma db_6_canonical : canonical db_6 [hash_of x01; hash_of x02].
Proof.
  apply (insert_canonical db_5 _ side_2); [|done|done|apply inserted; vm_compute; reflexivity].
  apply (insert_canonical db_4 _ side_1); [apply db_4_canonical|done|done|].
  apply inserted. vm_compute. reflexivity.
Qed.

(** Every database above is reached by steps of the node. *)
Lemma db_6_reachable : rtc db_step empty db_6.
Proof.
  apply rtc_l with db_1.
  { apply (step_insert _ genesis); [done|done| |apply inserted; vm_compute; reflexivity].
    intros _ h. unfold header_of. by rewrite memory_empty. }
  apply rtc_l with db_2; [apply (step_canonize _ (hash_of x01)), canonized_in; vm_compute; reflexivity|].
  apply rtc_l with db_3; [apply (step_insert _ block_1); [done..|apply inserted; vm_compute; reflexivity]|].
  apply rtc_l with db_4; [apply (step_canonize _ (hash_of x02)), canonized_in; vm_compute; reflexivity|].
  apply rtc_l with db_5; [apply (step_insert _ side_1); [done..|apply inserted; vm_compute; reflexivity]|].
  apply rtc_l with db_6; [apply (step_insert _ side_2); [done..|apply inserted; vm_compute; reflexivity]|].
  apply rtc_refl.
Qed.

Lemma db_6_rooted : rooted (seen db_6).
Proof.
  apply (reachable_invariant empty db_6 db_6_reachable), empty_invariant; [done|apply memory_empty].
Qed.

(** * Witnesses *)

Lemma reachable_database_witness :
  exists hs, canonical db_6 hs /\ @open _ _ _ StorageError (db db_6) = Ok db_6.
Proof.
  destruct (reachable_database (T := MemoryDatabase) memory_default db_6 (memory_ok _) memory_empty db_6_reachable)
    as (hs & Hca & _ & Ho & _).
  exists hs. split; [exact Hca|exact Ho].
Defined.

(** A block on top of the side branch, which becomes the longer one. *)
Definition next_header : IndexedBlockHeader := mkIndexedHeader (hash_of x05) (header (hash_of x04)).

Lemma block_origin_spec_witness :
  exists r i, route (seen db_6) [hash_of x01; hash_of x02] (hash_of x04) r i /\
    block_origin db_6 next_header = Ok (side_origin db_6 [hash_of x01; hash_of x02] r i).
Proof.
  pose proof (block_origin_spec db_6 [hash_of x01; hash_of x02] next_header db_6_canonical
    ltac:(discriminate) db_6_rooted eq_refl) as Hspec.
  cbn zeta in Hspec. destruct (decide _) as [Hk|_] in Hspec; [exfalso; vm_compute in Hk; destruct Hk as [? Hk]; discriminate Hk|].
  destruct (decide _) as [Hk|_] in Hspec; [exfalso; vm_compute in Hk; discriminate Hk|].
  destruct (decide _) as [Hk|_] in Hspec; [exfalso; vm_compute in Hk; discriminate Hk|].
  destruct Hspec as (r & i & Hr & Ho). exists r, i. split; [exact Hr|].
  destruct (length r <? _)%nat; [exact Ho|]. vm_compute in Ho. discriminate Ho.
Defined.

Definition next_origin : SideChainOrigin := mkOrigin 0 [hash_of x03; hash_of x04] [hash_of x02] 3.
Definition next_fork : ForkChainDatabase MemoryDatabase :=
  unwrap (mkDb best_block_default (overlay_new (db db_6))) (fork db_6 next_origin).

Lemma fork_of_origin_witness :
  block_origin db_6 next_header = Ok (SideChainBecomingCanonChain next_origin) /\
  exists self', switch_to_fork db_6 next_fork = Ok self' /\
    canonical self' [hash_of x01; hash_of x03; hash_of x04].
Proof.
  assert (block_origin db_6 next_header = Ok (SideChainBecomingCanonChain next_origin)) as Ho
    by (vm_compute; reflexivity).
  split; [exact Ho|].
  destruct (fork_of_origin db_6 [hash_of x01; hash_of x02] next_header next_origin next_fork)
    as (chain & self' & _ & _ & Hch & _ & Hs & Hca & _).
  - exact db_6_canonical.
  - discriminate.
  - exact db_6_rooted.
  - reflexivity.
  - by right.
  - apply ok_unwrap. vm_compute. reflexivity.
  - exists self'. split; [exact Hs|]. rewrite Hch in Hca. exact Hca.
Defined.

Lemma db_3_block : transactions_of (seen db_3) (hash_of x02) = ib_transactions block_1.
Proof. vm_compute. reflexivity. Qed.

Lemma db_3_fresh : fresh_block db_3 (hash_of x02).
Proof.
  unfold fresh_block. rewrite db_3_block. split; [apply (bool_decide_unpack _); vm_compute; exact I|].
  apply Forall_forall. repeat constructor; vm_compute; reflexivity.
Qed.

Lemma canonize_spent_witness :
  @is_spent _ _ _ StorageError db_3 (mkOutPoint (hash_of xa0) 0) = Ok false /\
  @is_spent _ _ _ StorageError db_4 (mkOutPoint (hash_of xa0) 0) = Ok true.
Proof.
  split; [vm_compute; reflexivity|].
  rewrite (canonize_spent db_3 (hash_of x02) db_4 (mkOutPoint (hash_of xa0) 0)).
  - vm_compute. reflexivity.
  - apply memory_ok.
  - exact db_3_fresh.
  - apply canonized_in. vm_compute. reflexivity.
  - vm_compute. discriminate.
  - unfold spends. rewrite db_3_block. repeat constructor; vm_compute; discriminate.
Defined.

Lemma decanonize_canonize_witness :
  exists self'', decanonize db_4 = Ok (hash_of x02, self'') /\ best_block self'' = best_block db_3.
Proof.
  destruct (decanonize_canonize db_3 [hash_of x01] (hash_of x02) db_4) as (self'' & Hd & Hb & _).
  - apply (insert_canonical db_2 _ block_1); [|done|done|apply inserted; vm_compute; reflexivity].
    change [hash_of x01] with ([] ++ [hash_of x01]).
    apply (canonize_canonical db_1); [|apply canonized_in; vm_compute; reflexivity].
    apply (insert_canonical empty _ genesis); [|done|done|apply inserted; vm_compute; reflexivity].
    apply empty_canonical; [done|apply memory_empty].
  - discriminate.
  - exact db_3_fresh.
  - unfold spends_unspent, spends. rewrite db_3_block.
    change (prevouts (drop 1 (ib_transactions block_1))) with [mkOutPoint (hash_of xa0) 0].
    apply Forall_singleton. right. eexists. split; vm_compute; reflexivity.
  - apply canonized_in. vm_compute. reflexivity.
  - exists self''. split; [exact Hd|exact Hb].
Defined.

(** A block in the canonical order: the child has the smaller hash. *)
Definition sorted_block : IndexedBlock :=
  example_block x06 (hash_of x02) [coinbase xb0; spend xb1 xb2; spend xb2 xa2].
Definition db_7 : database := after_insert db_4 sorted_block.

Lemma db_7_block : transactions_of (seen db_7) (hash_of x06) = ib_transactions sorted_block.
Proof. vm_compute. reflexivity. Qed.

Lemma db_7_fresh : fresh_block db_7 (hash_of x06).
Proof.
  unfold fresh_block. rewrite db_7_block. split; [apply (bool_decide_unpack _); vm_compute; exact I|].
  apply Forall_forall. repeat constructor; vm_compute; reflexivity.
Qed.

Lemma canonize_needs_topological_order_witness :
  canonize db_7 (hash_of x06) = Err CannotCanonize /\ forall self', canonize db_7 (hash_of x06) <> Ok self'.
Proof.
  split; [vm_compute; reflexivity|].
  apply (canonize_needs_topological_order db_7 (hash_of x06) (coinbase xb0) [] (spend xb1 xb2) [spend xb2 xa2]
    (mkOutPoint (hash_of xb2) 0)).
  - apply memory_ok.
  - exact db_7_fresh.
  - exact db_7_block.
  - by left.
  - by left.
Defined.

Lemma insert_block_witness :
  exists self', insert db_4 side_1 = Ok self' /\
    @block _ _ _ StorageError self' (Hash (hash_of x03)) = Ok (Some side_1).
Proof.
  destruct (insert_block db_4 side_1) as (self' & Hi & _ & Hb).
  - apply memory_ok.
  - vm_compute. reflexivity.
  - left. apply (bool_decide_unpack _). vm_compute. exact I.
  - apply (bool_decide_unpack _). vm_compute. exact I.
  - exists self'. split; [exact Hi|exact Hb].
Defined.

(** * Rolling back *)

Definition after_rollback (self : database) : database :=
  match rollback_best self with Ok (_, self') => self' | _ => self end.

(** The chain below has a second block and a side block next to it. *)
Definition block_2 : IndexedBlock := example_block x08 (hash_of x02) [coinbase xc0].
Definition side_on_1 : IndexedBlock := example_block x09 (hash_of x02) [coinbase xc1].
Definition db_8 : database :=
  after_insert (after_canonize (after_insert db_4 block_2) (hash_of x08)) side_on_1.
Definition db_9 : database := after_rollback (after_rollback db_8).

(** Rolling the chain back below the parent of a stored side block leaves that block
    without a parent, and asking for the origin of a block on top of it panics. *)
Theorem rollback_orphans_side_chain :
  let child := mkIndexedHeader (hash_of x0a) (header (hash_of x09)) in
  best_block db_9 = mkBest 0 (hash_of x01) /\
  block_origin db_8 child = Ok (SideChainBecomingCanonChain (mkOrigin 1 [hash_of x09] [hash_of x08] 3)) /\
  block_origin db_9 child = Panic.
Proof. vm_compute. split_and!; reflexivity. Qed.

Definition db_10 : database := after_rollback db_6.

(** Rolling back deletes transactions that a stored side block contains too.  The side
    block then reads back without them, becomes canonical all the same, and the output
    they spend stays unspent. *)
Theorem rollback_drops_shared_transactions :
  let read self := @block _ _ _ StorageError self (Hash (hash_of x03)) in
  read db_6 = Ok (Some side_1) /\
  read db_10 = Ok (Some (example_block x03 (hash_of x01) [coinbase xa3])) /\
  (self ← canonize db_10 (hash_of x03); is_spent self (mkOutPoint (hash_of xa0) 0)) = Ok false /\
  (self ← canonize (after_insert db_2 side_1) (hash_of x03); is_spent self (mkOutPoint (hash_of xa0) 0)) = Ok true.
Proof. vm_compute. split_and!; reflexivity. Qed.

End DbExamples.
