(* ===== verification/PartialMerkle.v ===== *)
(** Partial merkle trees (src/sync/src/utils/partial_merkle_tree.rs): the proof that
    some transactions belong to a block, as a [merkleblock] message carries it, and
    its parser.  A block that matches is recovered by the parser, and a tree that
    parses to the root of a block names transactions of that block only. *)
From Stdlib Require Import ZArith Lia Strings.Byte Strings.String.
From stdpp Require Import base decidable numbers countable list sets.
From S2P Require Import Prelude Crypto Serialization Codec Chain ChainHash Network Storage.

Local Open Scope Z_scope.

Module PartialMerkle.
Import ChainHash.

(** [a << s] on a [usize]: the bits shifted out are lost, a shift by the width
    panics. *)
Definition usize_shl {E} (a : Z) (s : nat) : outcome E Z :=
  if (s <? 64)%nat then Ok (wrap 64 (Z.shiftl a (Z.of_nat s))) else Panic.
Definition usize_shr {E} (a : Z) (s : nat) : outcome E Z :=
  if (s <? 64)%nat then Ok (Z.shiftr a (Z.of_nat s)) else Panic.

Section tree.
Context `{Crypto} `{BitVec}.

Record PartialMerkleTree := mkTree {
  tx_count : Z;
  tree_hashes : list bytes;
  tree_flags : bitvec;
}.

Record ParsedPartialMerkleTree := mkParsed {
  parsed_root : bytes;
  parsed_hashes : list bytes;
  parsed_flags : bitvec;
}.

Record PartialMerkleTreeBuilder := mkBuilder {
  all_len : Z;
  all_hashes : list bytes;
  all_matches : bitvec;
  hashes : list bytes;
  matches : bitvec;
}.

Definition push_match (self : PartialMerkleTreeBuilder) (flag : bool) : PartialMerkleTreeBuilder :=
  mkBuilder (all_len self) (all_hashes self) (all_matches self) (hashes self) (bv_push (matches self) flag).
Definition push_hash (self : PartialMerkleTreeBuilder) (hash : bytes) : PartialMerkleTreeBuilder :=
  mkBuilder (all_len self) (all_hashes self) (all_matches self) (hashes self ++ [hash]) (matches self).

Definition level_width {E} (self : PartialMerkleTreeBuilder) (height : nat) : outcome E Z :=
  unit_ ← usize_shl 1 height;
  sum ← ucheck 64 (all_len self + unit_);
  sum ← ucheck 64 (sum - 1);
  usize_shr sum height.

(** A level 64 above the leaves panics in [level_width], so 65 rounds are enough. *)
Fixpoint tree_height_from {E} (self : PartialMerkleTreeBuilder) (fuel height : nat) : outcome E nat :=
  match fuel with
  | O => Diverge
  | S fuel' =>
      width ← level_width self height;
      if 1 <? width then tree_height_from self fuel' (height + 1) else Ok height
  end.
Definition tree_height {E} (self : PartialMerkleTreeBuilder) : outcome E nat := tree_height_from self 65 0.

Fixpoint branch_hash {E} (self : PartialMerkleTreeBuilder) (height : nat) (pos : Z) : outcome E bytes :=
  match height with
  | O => index (all_hashes self) (Z.to_nat pos)
  | S height' =>
      child ← usize_shl pos 1;
      left ← branch_hash self height' child;
      sibling ← ucheck 64 (child + 1);
      width ← level_width self height';
      right ← (if sibling <? width then branch_hash self height' sibling else Ok left);
      Ok (merkle_node_hash left right)
  end.

(** [(begin..begin + len).any(|idx| self.all_matches[idx])]. *)
Fixpoint any_match {E} (all_matches : bitvec) (begin len : nat) : outcome E bool :=
  match len with
  | O => Ok false
  | S len' =>
      m ← expect (bv_get all_matches begin);
      if (m : bool) then Ok true else any_match all_matches (S begin) len'
  end.

Fixpoint build_branch {E} (self : PartialMerkleTreeBuilder) (height : nat) (pos : Z)
    : outcome E PartialMerkleTreeBuilder :=
  transactions_begin ← usize_shl pos height;
  next ← ucheck 64 (pos + 1);
  next_begin ← usize_shl next height;
  let transactions_end := Z.min (all_len self) next_begin in
  flag ← any_match (all_matches self) (Z.to_nat transactions_begin)
    (Z.to_nat (transactions_end - transactions_begin));
  let self := push_match self flag in
  match height, flag with
  | S height', true =>
      child ← usize_shl pos 1;
      self ← build_branch self height' child;
      sibling ← ucheck 64 (child + 1);
      width ← level_width self height';
      if sibling <? width then build_branch self height' sibling else Ok self
  | _, _ => hash ← branch_hash self height pos; Ok (push_hash self hash)
  end.

Definition build_tree {E} (self : PartialMerkleTreeBuilder) : outcome E PartialMerkleTreeBuilder :=
  height ← tree_height self; build_branch self height 0.

Definition build {E} (all_hashes : list bytes) (all_matches : bitvec) : outcome E PartialMerkleTree :=
  b ← build_tree (mkBuilder (zlen all_hashes) all_hashes all_matches [] (bv_from_elem 0 false));
  Ok (mkTree (all_len b) (hashes b) (matches b)).

Definition build_partial_merkle_tree {E} (tx_hashes : list bytes) (tx_matches : bitvec)
    : outcome E PartialMerkleTree :=
  build tx_hashes tx_matches.

(** The node hash, the builder and the two counters. *)
Fixpoint parse_branch (self : PartialMerkleTreeBuilder) (height : nat) (pos : Z) (matches_used hashes_used : nat)
    : outcome string (bytes * PartialMerkleTreeBuilder * nat * nat) :=
  _ ← fail_if (length (bv_iter (matches self)) <=? matches_used)%nat "all matches used"%string;
  flag ← expect (bv_get (matches self) matches_used);
  let matches_used := S matches_used in
  match height, flag with
  | S height', true =>
      child ← usize_shl pos 1;
      '(left_hash, self, matches_used, hashes_used) ← parse_branch self height' child matches_used hashes_used;
      sibling ← ucheck 64 (child + 1);
      width ← level_width self height';
      let has_right_child := sibling <? width in
      '(right_hash, self, matches_used, hashes_used) ←
        (if has_right_child then parse_branch self height' sibling matches_used hashes_used
         else Ok (left_hash, self, matches_used, hashes_used));
      if has_right_child && bool_decide (left_hash = right_hash) then Err "met same hash twice"%string
      else Ok (merkle_node_hash left_hash right_hash, self, matches_used, hashes_used)
  | _, _ =>
      _ ← fail_if (length (hashes self) <? hashes_used)%nat "all hashes used"%string;
      hash ← index (hashes self) hashes_used;
      let hashes_used := S hashes_used in
      if (height =? 0)%nat && flag then
        set_ ← expect (bv_set (all_matches self) (Z.to_nat pos) true);
        Ok (hash, mkBuilder (all_len self) (all_hashes self ++ [hash]) set_ (hashes self) (matches self),
            matches_used, hashes_used)
      else Ok (hash, self, matches_used, hashes_used)
  end.

Definition parse_tree (self : PartialMerkleTreeBuilder) : outcome string (bytes * PartialMerkleTreeBuilder) :=
  _ ← fail_if (all_len self =? 0) "no transactions"%string;
  _ ← fail_if (all_len self <? zlen (hashes self)) "too many hashes"%string;
  _ ← fail_if (length (bv_iter (matches self)) <? length (hashes self))%nat "too few matches"%string;
  height ← tree_height self;
  '(merkle_root, self, matches_used, hashes_used) ← parse_branch self height 0 0 0;
  _ ← fail_if (negb (matches_used =? length (bv_iter (matches self)))%nat) "not all matches used"%string;
  _ ← fail_if (negb (hashes_used =? length (hashes self))%nat) "not all hashes used"%string;
  Ok (merkle_root, self).

Definition parse (tree : PartialMerkleTree) : outcome string ParsedPartialMerkleTree :=
  let self := mkBuilder (tx_count tree) [] (bv_from_elem (Z.to_nat (tx_count tree)) false)
                (tree_hashes tree) (tree_flags tree) in
  '(merkle_root, self) ← parse_tree self;
  Ok (mkParsed merkle_root (all_hashes self) (all_matches self)).

Definition parse_partial_merkle_tree (tree : PartialMerkleTree) : outcome string ParsedPartialMerkleTree :=
  parse tree.

End tree.

(** * The strings a parser hashes *)

Section strings.
Context `{Crypto} `{BitVec}.

(** The arguments of [merkle_node_hash] in a call of [parse_branch], in the order in
    which they are hashed. *)
Fixpoint branch_nodes (self : PartialMerkleTreeBuilder) (height : nat) (pos : Z) (matches_used hashes_used : nat)
    : list bytes :=
  match height, bv_get (matches self) matches_used with
  | S height', Some true =>
      let child := 2 * pos in
      branch_nodes self height' child (S matches_used) hashes_used ++
      match parse_branch self height' child (S matches_used) hashes_used, @level_width _ string self height' with
      | Ok (left_hash, self', matches_used', hashes_used'), Ok width =>
          if child + 1 <? width then
            branch_nodes self' height' (child + 1) matches_used' hashes_used' ++
            match parse_branch self' height' (child + 1) matches_used' hashes_used' with
            | Ok (right_hash, _, _, _) => [left_hash ++ right_hash]
            | _ => []
            end
          else [left_hash ++ left_hash]
      | _, _ => []
      end
  | _, _ => []
  end.

Definition parse_nodes (tree : PartialMerkleTree) : list bytes :=
  let self := mkBuilder (tx_count tree) [] (bv_from_elem (Z.to_nat (tx_count tree)) false)
                (tree_hashes tree) (tree_flags tree) in
  match @tree_height _ string self with
  | Ok height => branch_nodes self height 0 0 0
  | _ => []
  end.

End strings.

(** * The levels of the tree *)

Section levels.
Context `{Crypto}.

(** The hashes at a height, the leaves being at height 0. *)
Fixpoint level (height : nat) (l : list bytes) : list bytes :=
  match height with O => l | S height' => next_level (level height' l) end.

(** The leaves below a node. *)
Definition chunk {A} (height pos : nat) (l : list A) : list A := take (2 ^ height) (drop (pos * 2 ^ height) l).

(** The elements whose flag is set. *)
Fixpoint pick {A} (flags : list bool) (l : list A) : list A :=
  match flags, l with
  | f :: flags', a :: l' => if f then a :: pick flags' l' else pick flags' l'
  | _, _ => []
  end.

Lemma lookup_next_level l i :
  next_level l !! i =
  match l !! (2 * i)%nat with
  | Some a => Some (merkle_node_hash a (default a (l !! (2 * i + 1)%nat)))
  | None => None
  end.
Proof.
  revert i. induction l as [l IH] using (induction_ltof1 _ length). intros i.
  destruct l as [|a [|b l]]; [done|by destruct i; cbn; rewrite ?Nat.add_succ_r|].
  destruct i as [|i]; [done|]. replace (2 * S i)%nat with (S (S (2 * i))) by lia.
  replace (S (S (2 * i)) + 1)%nat with (S (S (2 * i + 1))) by lia.
  apply (IH l). unfold ltof. cbn. lia.
Qed.

Lemma level_nodes_lookup l i a :
  l !! (2 * i)%nat = Some a -> a ++ default a (l !! (2 * i + 1)%nat) ∈ level_nodes l.
Proof.
  unfold level_nodes. revert i. induction l as [l IH] using (induction_ltof1 _ length). intros i Hi.
  destruct l as [|x [|y l]]; [by rewrite lookup_nil in Hi|..].
  - destruct i as [|i]; [|by rewrite Nat.mul_succ_r, Nat.add_comm in Hi]. injection Hi as ->. cbn. by left.
  - destruct i as [|i]; [injection Hi as ->; by left|]. right. replace (2 * S i)%nat with (S (S (2 * i))) in Hi |- * by lia.
    replace (S (S (2 * i)) + 1)%nat with (S (S (2 * i + 1))) by lia. apply (IH l); [unfold ltof; cbn; lia|exact Hi].
Qed.

(** The strings hashed below a height are among those hashed for the root. *)
Lemma level_nodes_root l i :
  (forall j, (j <= i)%nat -> (2 <= length (level j l))%nat) -> level_nodes (level i l) ⊆ merkle_nodes l.
Proof.
  intros Hl. assert (forall j, (j <= i)%nat -> merkle_nodes (level j l) ⊆ merkle_nodes l) as Hj.
  { induction j as [|j IH]; intros Hji; [done|]. cbn [level]. etransitivity; [|apply IH; lia].
    rewrite (merkle_nodes_step (level j l)) by (apply Hl; lia). set_solver. }
  etransitivity; [|apply (Hj i (le_n i))]. rewrite (merkle_nodes_step (level i l)) by (apply Hl; lia). set_solver.
Qed.

Lemma length_level h l pos : (pos < length (level h l) <-> pos * 2 ^ h < length l)%nat.
Proof.
  revert pos. induction h as [|h IH]; intros pos; cbn [level Nat.pow]; [by rewrite Nat.mul_1_r|].
  rewrite length_next_level. transitivity (2 * pos < length (level h l))%nat.
  - pose proof (Nat.div2_odd (S (length (level h l)))) as Ho.
    destruct (Nat.odd _); cbn [Nat.b2n] in Ho; lia.
  - rewrite IH. lia.
Qed.

Lemma level_lookup_S h l pos x :
  level (S h) l !! pos = Some x ->
  exists a, level h l !! (2 * pos)%nat = Some a /\
    x = merkle_node_hash a (default a (level h l !! (2 * pos + 1)%nat)).
Proof.
  cbn [level]. rewrite lookup_next_level. destruct (level h l !! (2 * pos)%nat) as [a|]; [|done].
  intros [= <-]. eauto.
Qed.

Lemma chunk_S {A} h pos (l : list A) :
  chunk (S h) pos l = chunk h (2 * pos) l ++ chunk h (2 * pos + 1) l.
Proof.
  unfold chunk. replace (2 ^ S h)%nat with (2 ^ h + 2 ^ h)%nat by (cbn; lia).
  rewrite <- (take_take_drop (drop (pos * (2 ^ h + 2 ^ h)) l) (2 ^ h) (2 ^ h)), drop_drop.
  do 3 f_equal; lia.
Qed.

Lemma chunk_out {A} h pos (l : list A) : (length l <= pos * 2 ^ h)%nat -> chunk h pos l = [].
Proof. intros Hl. unfold chunk. by rewrite drop_ge, take_nil. Qed.

Lemma chunk_top {A} h (l : list A) : (length l <= 2 ^ h)%nat -> chunk h 0 l = l.
Proof. intros Hl. unfold chunk. by rewrite Nat.mul_0_l, drop_0, take_ge. Qed.

Lemma chunk_leaf {A} pos (l : list A) x : l !! pos = Some x -> chunk 0 pos l = [x].
Proof.
  intros Hx. unfold chunk. rewrite Nat.pow_0_r, Nat.mul_1_r. by rewrite (drop_S l x pos Hx).
Qed.

Lemma length_chunk {A B} h pos (l : list A) (k : list B) :
  length l = length k -> length (chunk h pos l) = length (chunk h pos k).
Proof. intros Hl. unfold chunk. by rewrite !length_take, !length_drop, Hl. Qed.

Lemma pick_app {A} f1 f2 (l1 l2 : list A) :
  length f1 = length l1 -> pick (f1 ++ f2) (l1 ++ l2) = pick f1 l1 ++ pick f2 l2.
Proof.
  revert l1. induction f1 as [|f f1 IH]; intros [|a l1] Hl; try done. cbn in *.
  injection Hl as Hl. rewrite IH by done. by destruct f.
Qed.

Lemma pick_false {A} n (l : list A) : pick (replicate n false) l = [].
Proof. revert l. induction n as [|n IH]; intros [|a l]; [done..|apply IH]. Qed.

End levels.

(** * Machine arithmetic of the traversal *)

Section traversal.
Context `{Crypto} `{BitVec}.

(** The builder works on the transactions [l]. *)
Definition over (l : list bytes) (self : PartialMerkleTreeBuilder) : Prop :=
  all_len self = zlen l /\ zlen l <= 2 ^ 62.

Lemma shl_nat {E} a s :
  (s < 64)%nat -> Z.of_nat (a * 2 ^ s) < 2 ^ 64 -> @usize_shl E (Z.of_nat a) s = Ok (Z.of_nat (a * 2 ^ s)).
Proof.
  intros Hs Ha. unfold usize_shl. rewrite (proj2 (Nat.ltb_lt _ _) Hs), Z.shiftl_mul_pow2 by lia.
  rewrite Nat2Z.inj_mul, Nat2Z.inj_pow in *. rewrite wrap_uint; [done|]. split; [nia|done].
Qed.

Lemma shl_child {E} (l : list bytes) h pos :
  zlen l <= 2 ^ 62 -> (pos * 2 ^ S h < length l)%nat ->
  @usize_shl E (Z.of_nat pos) 1 = Ok (Z.of_nat (2 * pos)) /\
  @ucheck E 64 (Z.of_nat (2 * pos) + 1) = Ok (Z.of_nat (2 * pos + 1)).
Proof.
  intros Hl Hpos. assert (Z.of_nat (2 * pos) < 2 ^ 62).
  { pose proof (Nat.pow_nonzero 2 h ltac:(lia)). rewrite Nat.pow_succ_r' in Hpos. nia. }
  split.
  - rewrite shl_nat by (cbn; lia). f_equal. cbn. lia.
  - rewrite ucheck_Ok by (split; lia). f_equal. lia.
Qed.

Lemma level_width_level {E} l self h :
  over l self -> (h <= 62)%nat -> @level_width _ E self h = Ok (zlen (level h l)).
Proof.
  intros [Hlen Hl] Hh. unfold level_width.
  pose proof (@shl_nat E 1 h) as Hs. rewrite Nat.mul_1_l in Hs. change (Z.of_nat 1) with 1 in Hs.
  assert (1 <= Z.of_nat (2 ^ h) <= 2 ^ 62) as Hp.
  { rewrite Nat2Z.inj_pow. split; [|apply Z.pow_le_mono_r; lia].
    pose proof (Z.pow_pos_nonneg (Z.of_nat 2) (Z.of_nat h)). lia. }
  rewrite Hs, ok_bind by lia. rewrite ucheck_Ok, ok_bind by (rewrite Hlen; split; lia).
  rewrite ucheck_Ok, ok_bind by (rewrite Hlen; split; lia).
  unfold usize_shr. rewrite (proj2 (Nat.ltb_lt h 64)), Z.shiftr_div_pow2 by lia. f_equal. symmetry.
  change 2 with (Z.of_nat 2) at 1. rewrite <- Nat2Z.inj_pow, Hlen.
  assert (length l <= length (level h l) * 2 ^ h)%nat as Hhi.
  { apply Nat.nlt_ge. rewrite <- length_level. lia. }
  destruct (length (level h l)) as [|w] eqn:Ew.
  - apply Z.div_unique_pos with (Z.of_nat (2 ^ h) - 1); lia.
  - assert (w * 2 ^ h < length l)%nat as Hlo by (rewrite <- length_level; lia).
    apply Z.div_unique_pos with (zlen l - 1 - Z.of_nat w * Z.of_nat (2 ^ h)); lia.
Qed.

Lemma tree_height_from_spec {E'} l fuel h :
  zlen l <= 2 ^ 62 -> l <> [] -> (h <= 62)%nat -> (62 < h + fuel)%nat ->
  exists height, (forall E self, over l self -> @tree_height_from _ E self fuel h = Ok height) /\
    (height <= 62)%nat /\ length (level height l) = 1%nat /\
    (forall i, (h <= i < height)%nat -> (2 <= length (level i l))%nat) /\
    @merkle_root _ E' (level h l) = merkle_root (level height l).
Proof.
  intros Hl Hne. revert h. induction fuel as [|fuel IH]; intros h Hh Hf; [lia|].
  assert (0 < length (level h l))%nat as Hpos.
  { apply length_level. destruct l; [done|cbn; lia]. }
  destruct (Z.ltb_spec 1 (zlen (level h l))) as [Hw|Hw].
  - destruct (decide (h = 62)%nat) as [->|].
    { exfalso. assert (1 < length (level 62 l))%nat as Hc by lia. apply length_level in Hc.
      apply inj_lt in Hc. rewrite Nat2Z.inj_mul, Nat2Z.inj_pow in Hc.
      change (Z.of_nat 1 * Z.of_nat 2 ^ Z.of_nat 62) with (2 ^ 62) in Hc. lia. }
    destruct (IH (h + 1)%nat) as (height & Heq & Hle & H1 & H2 & Hroot); [lia..|].
    exists height. split_and!; [|done..| |].
    + intros E self Hov. cbn [tree_height_from].
      rewrite (level_width_level l), ok_bind, (proj2 (Z.ltb_lt _ _) Hw) by done. by apply Heq.
    + intros i Hi. destruct (decide (i = h)) as [->|]; [lia|apply H2; lia].
    + rewrite <- Hroot, Nat.add_1_r. cbn [level]. apply merkle_root_step. lia.
  - exists h. split_and!; [|done|lia|lia|done]. intros E self Hov. cbn [tree_height_from].
    by rewrite (level_width_level l), ok_bind, (proj2 (Z.ltb_ge _ _) Hw) by done.
Qed.

Lemma tree_height_spec {E'} l :
  zlen l <= 2 ^ 62 -> l <> [] ->
  exists height root, (forall E self, over l self -> @tree_height _ E self = Ok height) /\ (height <= 62)%nat /\
    level height l !! 0%nat = Some root /\ @merkle_root _ E' l = Ok root /\ (length l <= 2 ^ height)%nat /\
    (forall i, (i < height)%nat -> level_nodes (level i l) ⊆ merkle_nodes l).
Proof.
  intros Hl Hne. destruct (@tree_height_from_spec E' l 65 0 Hl Hne) as (height & He & Hle & H1 & H2 & Hr); [lia..|].
  exists height. change (level 0 l) with l in Hr. destruct (level height l) as [|root [|]] eqn:El; [done| |done].
  exists root. split_and!; try done; [|intros i Hi; apply level_nodes_root; intros; apply H2; lia].
  destruct (decide (1 * 2 ^ height < length l)%nat) as [Hc|]; [|lia].
  apply length_level in Hc. rewrite El in Hc. cbn in Hc. lia.
Qed.

Lemma branch_hash_level {E} l self h pos x :
  over l self -> all_hashes self = l -> (h <= 62)%nat ->
  level h l !! pos = Some x -> @branch_hash _ _ E self h (Z.of_nat pos) = Ok x.
Proof.
  intros Hov Hl. revert pos x. induction h as [|h IH]; intros pos x Hh Hx.
  { change (level 0 l) with l in Hx. cbn. unfold index. by rewrite Nat2Z.id, Hl, Hx. }
  pose proof (proj1 (length_level (S h) l pos) (lookup_lt_Some _ _ _ Hx)) as Hpos.
  destruct (level_lookup_S h l pos x Hx) as (a & Ha & ->).
  destruct (@shl_child E l h pos (proj2 Hov) Hpos) as [Hc Hs].
  cbn [branch_hash]. rewrite Hc, ok_bind, (IH _ a), ok_bind, Hs, ok_bind by (done || lia).
  rewrite (level_width_level l), ok_bind by (done || lia).
  destruct (Z.ltb_spec (Z.of_nat (2 * pos + 1)) (zlen (level h l))) as [Hlt|Hge].
  - destruct (lookup_lt_is_Some_2 (level h l) (2 * pos + 1)) as [b Hb]; [lia|].
    rewrite (IH _ b), ok_bind, Hb by (done || lia). done.
  - rewrite ok_bind, (lookup_ge_None_2 (level h l)) by lia. done.
Qed.

End traversal.

(** * What the builder writes *)

Section emit.
Context `{Crypto} `{BitVecLaws}.

(** The flags and hashes of the branch at a node, none where there is no node. *)
Fixpoint emit (l : list bytes) (ms : list bool) (height pos : nat) : list bool * list bytes :=
  match level height l !! pos with
  | None => ([], [])
  | Some x =>
      let flag := existsb id (chunk height pos ms) in
      match height, flag with
      | S height', true =>
          let below := emit l ms height' (2 * pos) in
          let beside := emit l ms height' (2 * pos + 1) in
          (true :: below.1 ++ beside.1, below.2 ++ beside.2)
      | _, _ => ([flag], [x])
      end
  end.

Lemma any_match_spec {E} v begin len :
  (begin + len <= length (bv_iter v))%nat ->
  @any_match _ E v begin len = Ok (existsb id (take len (drop begin (bv_iter v)))).
Proof.
  revert begin. induction len as [|len IH]; intros begin Hle; [done|].
  cbn [any_match]. rewrite bv_get_iter.
  destruct (lookup_lt_is_Some_2 (bv_iter v) begin) as [b Hb]; [lia|].
  rewrite Hb, (drop_S _ b begin Hb). cbn [expect mbind outcome_bind take existsb].
  destruct b; [done|]. apply IH. lia.
Qed.

(** The builder after a branch: flags and hashes appended, the rest unchanged. *)
Definition extended (self self' : PartialMerkleTreeBuilder) (out : list bool * list bytes) : Prop :=
  all_len self' = all_len self /\ all_hashes self' = all_hashes self /\
  all_matches self' = all_matches self /\ hashes self' = hashes self ++ out.2 /\
  bv_iter (matches self') = bv_iter (matches self) ++ out.1.

Lemma chunk_flag {E} l self h pos :
  over l self -> (h <= 62)%nat -> (pos * 2 ^ h < length l)%nat ->
  length (bv_iter (all_matches self)) = length l ->
  exists b e, @usize_shl E (Z.of_nat pos) h = Ok b /\ @ucheck E 64 (Z.of_nat pos + 1) = Ok (Z.of_nat (pos + 1)) /\
    @usize_shl E (Z.of_nat (pos + 1)) h = Ok e /\
    @any_match _ E (all_matches self) (Z.to_nat b) (Z.to_nat (Z.min (all_len self) e - b)) =
      Ok (existsb id (chunk h pos (bv_iter (all_matches self)))).
Proof.
  intros [Hlen Hl] Hh Hpos Hm.
  assert (1 <= Z.of_nat (2 ^ h) <= 2 ^ 62) as Hp.
  { rewrite Nat2Z.inj_pow. split; [|apply Z.pow_le_mono_r; lia].
    pose proof (Z.pow_pos_nonneg (Z.of_nat 2) (Z.of_nat h)). lia. }
  exists (Z.of_nat (pos * 2 ^ h)), (Z.of_nat ((pos + 1) * 2 ^ h)).
  split_and!; [apply shl_nat; lia| |apply shl_nat; lia|].
  - rewrite ucheck_Ok by (split; nia). f_equal. lia.
  - rewrite Hlen, Nat2Z.id.
    replace (Z.to_nat _) with (Nat.min (2 ^ h) (length l - pos * 2 ^ h)) by lia.
    rewrite any_match_spec by lia. unfold chunk. do 2 f_equal.
    rewrite <- Hm, <- length_drop. rewrite <- (take_take _ (2 ^ h)). by rewrite (take_ge (drop _ _)).
Qed.

Lemma build_branch_emit {E} l self h pos x :
  over l self -> all_hashes self = l -> length (bv_iter (all_matches self)) = length l -> (h <= 62)%nat ->
  level h l !! pos = Some x ->
  exists self', @build_branch _ _ E self h (Z.of_nat pos) = Ok self' /\
    extended self self' (emit l (bv_iter (all_matches self)) h pos).
Proof.
  intros Hov Hl Hm Hh. revert self pos x Hov Hl Hm Hh. induction h as [|h IH]; intros self pos x Hov Hl Hm Hh Hx;
    pose proof (proj1 (length_level _ l pos) (lookup_lt_Some _ _ _ Hx)) as Hpos;
    destruct (@chunk_flag E l self _ pos Hov Hh Hpos Hm) as (b & e & Hb & Hn & He & Hf);
    cbn [build_branch emit]; rewrite Hx, Hb, ok_bind, Hn, ok_bind, He, ok_bind, Hf, ok_bind.
  - eexists. rewrite (branch_hash_level l _ 0 pos x), ok_bind by done. split; [done|].
    repeat split; cbn; by rewrite ?bv_iter_push.
  - destruct (existsb id _) eqn:Hflag.
    2:{ eexists. rewrite (branch_hash_level l _ (S h) pos x), ok_bind by done. split; [done|].
        repeat split; cbn; by rewrite ?bv_iter_push. }
    destruct (@shl_child E l h pos (proj2 Hov) Hpos) as [Hc Hs]. rewrite Hc, ok_bind.
    destruct (level_lookup_S h l pos x Hx) as (a & Ha & _).
    destruct (IH (push_match self true) (2 * pos)%nat a) as (s1 & -> & Hs1); [done..|lia|done|].
    destruct Hs1 as (H1 & H2 & H3 & H4 & H5). rewrite ok_bind, Hs, ok_bind.
    assert (over l s1) as Hov1 by (unfold over in *; by rewrite H1).
    rewrite (level_width_level l), ok_bind by (done || lia).
    cbn [all_len all_hashes all_matches hashes matches push_match] in *. rewrite bv_iter_push in H5.
    destruct (Z.ltb_spec (Z.of_nat (2 * pos + 1)) (zlen (level h l))) as [Hlt|Hge].
    + destruct (lookup_lt_is_Some_2 (level h l) (2 * pos + 1)) as [r Hr]; [lia|].
      destruct (IH s1 (2 * pos + 1)%nat r) as (s2 & -> & Hs2); rewrite ?H2, ?H3; [done..|lia|done|].
      destruct Hs2 as (G1 & G2 & G3 & G4 & G5). exists s2. split; [done|]. rewrite H3 in G4, G5.
      repeat split; cbn [fst snd]; [congruence..| |]; rewrite ?G4, ?H4, ?G5, ?H5, <- !app_assoc; done.
    + exists s1. split; [done|].
      assert (emit l (bv_iter (all_matches self)) h (2 * pos + 1) = ([], [])) as ->.
      { destruct h; cbn [emit]; by rewrite lookup_ge_None_2 by lia. }
      repeat split; cbn [fst snd]; [congruence..| |]; rewrite ?H4, ?H5, ?app_nil_r, <- ?app_assoc; done.
Qed.

End emit.

(** * What the parser reads *)

Section parser.
Context `{CryptoLaws} `{BitVecLaws}.
Abbreviation hashes32 := (Forall (fun h : bytes => length h = 32%nat)).

(** The parser after a branch whose leaves are [below]: [seg] are their flags. *)
Record marked (self self' : PartialMerkleTreeBuilder) (pre : list bool) (k : nat)
    (seg : list bool) (below : list bytes) : Prop := {
  marked_all_len : all_len self' = all_len self;
  marked_source : hashes self' = hashes self /\ matches self' = matches self;
  marked_hashes : all_hashes self' = all_hashes self ++ pick seg below;
  marked_matches : bv_iter (all_matches self') = pre ++ seg ++ replicate (k - length seg) false;
  marked_length : length seg = length below;
}.

Lemma marked_none self pre k (below : list bytes) :
  bv_iter (all_matches self) = pre ++ replicate k false -> (length below <= k)%nat ->
  marked self self pre k (replicate (length below) false) below.
Proof.
  intros Hm Hk. split; [done..| | |by rewrite length_replicate].
  - by rewrite pick_false, app_nil_r.
  - rewrite Hm, length_replicate, <- replicate_add. do 2 f_equal. lia.
Qed.

Lemma marked_one self pre k x :
  bv_iter (all_matches self) = pre ++ replicate k false -> (1 <= k)%nat ->
  exists v, bv_set (all_matches self) (length pre) true = Some v /\
    marked self (mkBuilder (all_len self) (all_hashes self ++ [x]) v (hashes self) (matches self))
      pre k [true] [x].
Proof.
  intros Hm Hk. destruct (bv_set_inside (all_matches self) (length pre) true) as (v & Hv & Hi).
  { rewrite Hm, length_app, length_replicate. lia. }
  exists v. split; [done|]. split; try done. cbn [all_matches]. rewrite Hi, Hm.
  destruct k as [|k]; [lia|]. cbn [replicate]. rewrite insert_app_r_alt, Nat.sub_diag by lia.
  cbn. by rewrite Nat.sub_0_r.
Qed.

Lemma marked_trans self s1 s2 pre k seg1 b1 seg2 b2 :
  marked self s1 pre k seg1 b1 -> marked s1 s2 (pre ++ seg1) (k - length seg1) seg2 b2 ->
  marked self s2 pre k (seg1 ++ seg2) (b1 ++ b2).
Proof.
  intros [A1 [A2 A2'] A3 A4 A5] [B1 [B2 B2'] B3 B4 B5]. split; [congruence|split; congruence| | |].
  - by rewrite B3, A3, pick_app, app_assoc.
  - rewrite B4, length_app, <- !app_assoc. do 4 f_equal. lia.
  - rewrite !length_app. lia.
Qed.

Lemma level_32 h l : hashes32 l -> hashes32 (level h l).
Proof. intros Hl. destruct h; [done|apply next_level_32]. Qed.

Lemma level_distinct inputs h l i j x :
  hashes32 l -> NoDup l -> (forall i, (i < h)%nat -> level_nodes (level i l) ⊆ inputs) -> level h l !! i = Some x -> level h l !! j = Some x -> i = j \/ collides inputs.
Proof.
  intros Hl Hnd Hin. revert i j x Hin. induction h as [|h IH]; intros i j x Hin Hi Hj.
  { left. by eapply NoDup_lookup. }
  destruct (level_lookup_S h l i x Hi) as (a & Ha & ->).
  destruct (level_lookup_S h l j _ Hj) as (b & Hb & Heq).
  pose proof (level_32 h l Hl) as H32.
  apply (node_inj inputs) in Heq as [[<- _]|Hc];
    [|by right|exact (Forall_lookup_1 _ _ _ _ H32 Ha)|exact (Forall_lookup_1 _ _ _ _ H32 Hb)
     |apply (Hin h); [lia|by apply level_nodes_lookup]..].
  destruct (IH (2 * i)%nat (2 * j)%nat a ltac:(intros; apply Hin; lia) Ha Hb) as [He|Hc]; [left; lia|by right].
Qed.

Lemma existsb_id_false l : existsb id l = false -> l = replicate (length l) false.
Proof.
  induction l as [|b l IH]; [done|]. cbn. intros He. apply orb_false_iff in He as [-> He].
  by rewrite <- IH.
Qed.

Lemma length_chunk_le {A} h pos (l : list A) (pre : list bool) k :
  length pre = (pos * 2 ^ h)%nat -> (length pre + k = length l)%nat -> (length (chunk h pos l) <= k)%nat.
Proof. intros Hp Hk. unfold chunk. rewrite length_take, length_drop. lia. Qed.

(** Reading the flag and, where the walk stops, the hash. *)
Lemma read_flag self flag pf sf :
  bv_iter (matches self) = pf ++ flag :: sf ->
  (length (bv_iter (matches self)) <=? length pf)%nat = false /\
  bv_get (matches self) (length pf) = Some flag.
Proof.
  intros Hm. rewrite bv_get_iter, Hm, list_lookup_middle, length_app by done. split; [|done].
  apply Nat.leb_gt. cbn. lia.
Qed.

Lemma read_hash {E} self (hash : bytes) ph sh :
  hashes self = ph ++ hash :: sh ->
  (length (hashes self) <? length ph)%nat = false /\ @index E _ (hashes self) (length ph) = Ok hash.
Proof.
  intros Hh. rewrite Hh, index_middle, length_app by done. split; [|done]. apply Nat.ltb_ge. lia.
Qed.

Lemma length_chunk_full {A} h pos (l : list A) :
  ((pos + 1) * 2 ^ h <= length l)%nat -> length (chunk h pos l) = (2 ^ h)%nat.
Proof. intros Hl. unfold chunk. rewrite length_take, length_drop. lia. Qed.

(** Before and behind the left half of a node's leaves. *)
Lemma halves (l : list bytes) h pos (pre seg : list bool) k :
  length pre = (pos * 2 ^ S h)%nat -> (length pre + k = length l)%nat ->
  length seg = length (chunk h (2 * pos) l) -> (2 * pos + 1 < length (level h l))%nat ->
  length (pre ++ seg) = ((2 * pos + 1) * 2 ^ h)%nat /\
  (length (pre ++ seg) + (k - length seg) = length l)%nat.
Proof.
  intros Hpre Hk Hseg Hlt. apply length_level in Hlt.
  rewrite length_chunk_full in Hseg by lia. rewrite length_app, Hseg, Hpre.
  rewrite Nat.pow_succ_r' in *. lia.
Qed.

(** Parsing only reads the number of transactions, the hashes and the flags. *)
Lemma parse_branch_frame h self pos mu hu x self' mu' hu' :
  parse_branch self h pos mu hu = Ok (x, self', mu', hu') ->
  all_len self' = all_len self /\ hashes self' = hashes self /\ matches self' = matches self.
Proof.
  revert self pos mu hu x self' mu' hu'.
  induction h as [|h IH]; intros self pos mu hu x self' mu' hu' Hp; cbn [parse_branch] in Hp;
    apply bind_Ok in Hp as (? & _ & Hp); apply bind_Ok in Hp as (flag & _ & Hp).
  - apply bind_Ok in Hp as (? & _ & Hp). apply bind_Ok in Hp as (hash & _ & Hp).
    destruct flag; cbn [Nat.eqb andb] in Hp; [|by injection Hp as <- <- <- <-].
    apply bind_Ok in Hp as (v & _ & Hp). by injection Hp as <- <- <- <-.
  - destruct flag.
    + apply bind_Ok in Hp as (c & _ & Hp). apply bind_Ok in Hp as ([[[a s1] m1] h1] & Hl & Hp).
      apply bind_Ok in Hp as (? & _ & Hp). apply bind_Ok in Hp as (w & _ & Hp).
      apply bind_Ok in Hp as ([[[b s2] m2] h2] & Hr & Hp). apply IH in Hl as (L1 & L2 & L3).
      rewrite <- L1, <- L2, <- L3. clear L1 L2 L3. destruct (_ <? w); cbn [andb] in Hp.
      * case_bool_decide; [discriminate Hp|]. injection Hp as <- <- <- <-. by apply IH in Hr.
      * injection Hp as <- <- <- <-. by injection Hr as <- <- <- <-.
    + apply bind_Ok in Hp as (? & _ & Hp). apply bind_Ok in Hp as (hash & _ & Hp).
      by injection Hp as <- <- <- <-.
Qed.

(** A walk that stops at a node takes the node's hash from the tree. *)
Lemma parse_stop l self h pos flag x pf sf ph sh pre k :
  bv_iter (matches self) = pf ++ flag :: sf -> hashes self = ph ++ x :: sh ->
  bv_iter (all_matches self) = pre ++ replicate k false -> length pre = (pos * 2 ^ h)%nat ->
  (length pre + k = length l)%nat -> level h l !! pos = Some x -> (h = 0%nat \/ flag = false) ->
  exists self', parse_branch self h (Z.of_nat pos) (length pf) (length ph) =
      Ok (x, self', S (length pf), S (length ph)) /\
    marked self self' pre k (replicate (length (chunk h pos l)) flag) (chunk h pos l).
Proof.
  intros Hfl Hhs Hm Hpre Hk Hx Hstop. pose proof (length_chunk_le h pos l pre k Hpre Hk) as Hkl.
  destruct (read_flag self _ pf sf Hfl) as [Hf1 Hf2], (@read_hash string self x ph sh Hhs) as [Hh1 Hh2].
  destruct flag.
  - destruct Hstop as [->|?]; [|done]. rewrite (chunk_leaf pos l x Hx) in *.
    destruct (marked_one self pre k x Hm Hkl) as (v & Hv & Hmk). eexists. split; [|exact Hmk].
    cbn [parse_branch]. rewrite Hf1, Hf2, Hh1. cbn [fail_if expect]. rewrite !ok_bind, Hh2, ok_bind.
    rewrite Nat2Z.id. cbn [Nat.eqb andb]. replace pos with (length pre) by (rewrite Hpre; cbn; lia).
    by rewrite Hv.
  - exists self. split; [|by apply marked_none].
    destruct h; cbn [parse_branch]; rewrite Hf1, Hf2, Hh1; cbn [fail_if expect];
      by rewrite !ok_bind, Hh2, ok_bind, andb_false_r.
Qed.

(** A walk that goes on, in terms of the levels of the tree. *)
Lemma parse_go l self h pos pf sf hu :
  over l self -> (S h <= 62)%nat -> (pos * 2 ^ S h < length l)%nat ->
  bv_iter (matches self) = pf ++ true :: sf ->
  parse_branch self (S h) (Z.of_nat pos) (length pf) hu =
  '(a, s1, m1, h1) ← parse_branch self h (Z.of_nat (2 * pos)) (S (length pf)) hu;
  if decide (2 * pos + 1 < length (level h l))%nat then
    '(b, s2, m2, h2) ← parse_branch s1 h (Z.of_nat (2 * pos + 1)) m1 h1;
    if bool_decide (a = b) then Err "met same hash twice"%string else Ok (merkle_node_hash a b, s2, m2, h2)
  else Ok (merkle_node_hash a a, s1, m1, h1).
Proof.
  intros Hov Hh Hpos Hfl. cbn [parse_branch].
  destruct (read_flag self _ pf sf Hfl) as [-> ->]. cbn [fail_if expect]. rewrite !ok_bind.
  destruct (@shl_child string l h pos (proj2 Hov) Hpos) as [-> Hs]. rewrite ok_bind.
  destruct (parse_branch self h _ _ hu) as [[[[a s1] m1] h1]| | |] eqn:He; [|done..]. rewrite !ok_bind, Hs, ok_bind.
  destruct (parse_branch_frame _ _ _ _ _ _ _ _ _ He) as (Hal & _).
  rewrite (level_width_level l), ok_bind by (unfold over in *; rewrite ?Hal; done || lia).
  case_decide as Hd.
  - rewrite (proj2 (Z.ltb_lt _ _)) by lia. destruct (parse_branch s1 h _ _ _) as [[[[b s2] m2] h2]| | |]; done.
  - by rewrite (proj2 (Z.ltb_ge _ _)) by lia.
Qed.

(** What it hashes: the strings of the two branches and their two hashes. *)
Lemma branch_nodes_go inputs l self h pos pf sf hu a s1 m1 h1 :
  over l self -> (S h <= 62)%nat -> bv_iter (matches self) = pf ++ true :: sf ->
  parse_branch self h (Z.of_nat (2 * pos)) (S (length pf)) hu = Ok (a, s1, m1, h1) ->
  branch_nodes self (S h) (Z.of_nat pos) (length pf) hu ⊆ inputs ->
  branch_nodes self h (Z.of_nat (2 * pos)) (S (length pf)) hu ⊆ inputs /\
  if decide (2 * pos + 1 < length (level h l))%nat then
    forall b s2 m2 h2, parse_branch s1 h (Z.of_nat (2 * pos + 1)) m1 h1 = Ok (b, s2, m2, h2) ->
    branch_nodes s1 h (Z.of_nat (2 * pos + 1)) m1 h1 ⊆ inputs /\ a ++ b ∈ inputs
  else a ++ a ∈ inputs.
Proof.
  intros Hov Hh Hfl Hp. cbn [branch_nodes]. destruct (read_flag self _ pf sf Hfl) as [_ ->].
  replace (2 * Z.of_nat pos) with (Z.of_nat (2 * pos)) by lia.
  replace (Z.of_nat (2 * pos) + 1) with (Z.of_nat (2 * pos + 1)) by lia.
  rewrite Hp, (level_width_level l) by (done || lia). case_decide as Hd.
  - rewrite (proj2 (Z.ltb_lt _ _)) by lia. intros Hin. split; [set_solver|]. intros b s2 m2 h2 Hb.
    rewrite Hb in Hin. split; set_solver.
  - rewrite (proj2 (Z.ltb_ge _ _)) by lia. intros Hin. split; set_solver.
Qed.

Lemma no_sibling (l : list bytes) {A} (k : list A) h pos :
  length k = length l -> ~ (2 * pos + 1 < length (level h l))%nat -> chunk (S h) pos k = chunk h (2 * pos) k.
Proof.
  intros Hk Hno. rewrite length_level in Hno. rewrite chunk_S, (chunk_out h (2 * pos + 1)), app_nil_r by lia. done.
Qed.

Lemma emit_none l ms h pos : (length (level h l) <= pos)%nat -> emit l ms h pos = ([], []).
Proof. intros Hge. destruct h; cbn [emit]; by rewrite lookup_ge_None_2 by done. Qed.

Lemma emit_leaf_flag (ms : list bool) h pos (l : list bytes) flag :
  length ms = length l -> existsb id (chunk h pos ms) = flag -> (h = 0%nat \/ flag = false) ->
  chunk h pos ms = replicate (length (chunk h pos l)) flag.
Proof.
  intros Hms Hf [->| ->].
  - rewrite (length_chunk 0 pos l ms) by done. unfold chunk in *. rewrite Nat.pow_0_r in *.
    destruct (drop _ ms) as [|m ?]; [done|]. cbn in *. rewrite orb_false_r in Hf. by rewrite <- Hf.
  - rewrite <- (length_chunk h pos ms l Hms). by apply existsb_id_false.
Qed.

Lemma parse_emit inputs l ms h self pos x pf sf ph sh pre k :
  hashes32 l -> NoDup l -> (forall i, (i < h)%nat -> level_nodes (level i l) ⊆ inputs) -> over l self -> length ms = length l -> (h <= 62)%nat ->
  bv_iter (matches self) = pf ++ (emit l ms h pos).1 ++ sf ->
  hashes self = ph ++ (emit l ms h pos).2 ++ sh ->
  bv_iter (all_matches self) = pre ++ replicate k false -> length pre = (pos * 2 ^ h)%nat ->
  (length pre + k = length l)%nat -> level h l !! pos = Some x ->
  collides inputs \/ exists self',
    parse_branch self h (Z.of_nat pos) (length pf) (length ph) =
      Ok (x, self', (length pf + length (emit l ms h pos).1)%nat, (length ph + length (emit l ms h pos).2)%nat) /\
    marked self self' pre k (chunk h pos ms) (chunk h pos l).
Proof.
  intros H32 Hnd Hin. revert Hin self pos x pf sf ph sh pre k.
  induction h as [|h IH]; intros Hin self pos x pf sf ph sh pre k Hov Hms Hh Hfl Hhs Hm Hpre Hk Hx;
    cbn [emit] in *; rewrite Hx in *.
  { right. rewrite (emit_leaf_flag ms 0 pos l _ Hms eq_refl) by auto. cbn [fst snd length].
    rewrite !Nat.add_1_r. apply (parse_stop l self _ pos _ x pf sf ph sh pre k); auto. }
  destruct (existsb id (chunk (S h) pos ms)) eqn:Hflag; cbn [fst snd app length] in *.
  2:{ right. rewrite (emit_leaf_flag ms _ pos l _ Hms Hflag), !Nat.add_1_r by auto. apply (parse_stop l self _ pos _ x pf sf ph sh pre k); auto. }
  pose proof (proj1 (length_level _ l pos) (lookup_lt_Some _ _ _ Hx)) as Hpos.
  rewrite (parse_go l _ _ _ _ _ _ Hov Hh Hpos Hfl).
  destruct (level_lookup_S h l pos x Hx) as (a & Ha & ->).
  assert (forall i, (i < h)%nat -> level_nodes (level i l) ⊆ inputs) as Hin' by (intros; apply Hin; lia).
  specialize (IH Hin'). rewrite (cons_middle true), <- !app_assoc, (app_assoc pf) in Hfl. rewrite <- !app_assoc in Hhs.
  destruct (IH self (2 * pos)%nat a _ _ _ _ pre k Hov Hms ltac:(lia) Hfl Hhs Hm) as [Hcol|(s1 & He1 & Hm1)];
    [rewrite Hpre; cbn; lia|done|done|by left|].
  rewrite length_app in He1. cbn [length] in He1. rewrite (Nat.add_1_r (length pf)) in He1. rewrite He1, ok_bind. cbn beta iota. case_decide as Hd.
  - destruct (lookup_lt_is_Some_2 (level h l) (2 * pos + 1)) as [b Hb]; [lia|].
    destruct (halves l h pos pre (chunk h (2 * pos) ms) k) as [Hp2 Hk2]; [done..|by apply length_chunk|lia|].
    destruct (marked_source _ _ _ _ _ _ Hm1) as [Hs1 Hs2].
    rewrite (app_assoc (pf ++ [true])), <- Hs2 in Hfl. rewrite app_assoc, <- Hs1 in Hhs.
    assert (over l s1) as Hov1 by (unfold over; by rewrite (marked_all_len _ _ _ _ _ _ Hm1)).
    destruct (IH s1 (2 * pos + 1)%nat b _ _ _ _ (pre ++ chunk h (2 * pos) ms) (k - length (chunk h (2 * pos) ms))%nat
                Hov1 Hms ltac:(lia) Hfl Hhs) as [Hcol|(s2 & He2 & Hm2)];
      [by rewrite (marked_matches _ _ _ _ _ _ Hm1), app_assoc|done|done|done|by left|].
    rewrite !length_app in He2. cbn [length] in He2. rewrite (Nat.add_1_r (length pf)) in He2. rewrite He2, ok_bind. cbn beta iota. case_bool_decide as Hab.
    + subst b. left. destruct (level_distinct inputs h l _ _ a H32 Hnd Hin' Ha Hb) as [?|?]; [lia|done].
    + right. exists s2. rewrite Hb, !length_app, !chunk_S. cbn [default].
      split; [f_equal; f_equal; [f_equal|]; lia|by eapply marked_trans].
  - right. exists s1. rewrite !(no_sibling l), (emit_none _ _ _ (2 * pos + 1)), (lookup_ge_None_2 (level h l)) by (done || lia).
    cbn [fst snd default]. rewrite !app_nil_r. split; [|done]. f_equal. f_equal. f_equal. lia.
Qed.

Lemma split_at {A} (l : list A) i a :
  l !! i = Some a -> exists l1 l2, l = l1 ++ a :: l2 /\ length l1 = i.
Proof.
  intros Ha. exists (take i l), (drop (S i) l). rewrite take_drop_middle by done. split; [done|].
  apply length_take_le. apply lookup_lt_Some in Ha. lia.
Qed.

(** What a parse that succeeds has read. *)
Lemma parse_reads h self pos mu hu x self' mu' hu' :
  parse_branch self h pos mu hu = Ok (x, self', mu', hu') ->
  exists flag pf sf, bv_iter (matches self) = pf ++ flag :: sf /\ length pf = mu /\
    ((h = 0%nat \/ flag = false) -> exists ph sh, hashes self = ph ++ x :: sh /\ length ph = hu).
Proof.
  intros Hp. destruct h; cbn [parse_branch] in Hp;
    apply bind_Ok in Hp as (? & _ & Hp); apply bind_Ok in Hp as (flag & Hf & Hp);
    destruct (bv_get (matches self) mu) as [flag'|] eqn:Hg; try discriminate Hf;
    injection Hf as ->; rewrite bv_get_iter in Hg;
    destruct (split_at _ _ _ Hg) as (pf & sf & Hs & Hl); exists flag, pf, sf; (split; [done|]; split; [done|]);
    intros Hstop; destruct flag; try (destruct Hstop; discriminate);
    apply bind_Ok in Hp as (? & _ & Hp); apply bind_Ok in Hp as (hash & Hi & Hp);
    unfold index in Hi; destruct (hashes self !! hu) as [hash'|] eqn:Hh; try discriminate Hi;
    injection Hi as ->; destruct (split_at _ _ _ Hh) as (ph & sh & Hs2 & Hl2); exists ph, sh.
  - apply bind_Ok in Hp as (v & _ & Hp). by injection Hp as <- _ _ _.
  - by injection Hp as <- _ _ _.
  - by injection Hp as <- _ _ _.
Qed.

Lemma parse_branch_32 h self pos mu hu x self' mu' hu' :
  hashes32 (hashes self) -> parse_branch self h pos mu hu = Ok (x, self', mu', hu') -> length x = 32%nat.
Proof.
  intros H32 Hp. destruct (parse_reads _ _ _ _ _ _ _ _ _ Hp) as (flag & pf & sf & Hf & <- & Hstop).
  assert (h = 0%nat \/ flag = false -> length x = 32%nat) as Hread.
  { intros Hs. destruct (Hstop Hs) as (ph & sh & Hh & _). rewrite Hh in H32.
    apply Forall_app in H32 as [_ H32]. by inversion H32. }
  destruct h as [|h]; [by apply Hread; left|]. destruct flag; [|by apply Hread; right].
  cbn [parse_branch] in Hp. destruct (read_flag self _ pf sf Hf) as [Hm Hg]. rewrite Hm, Hg in Hp.
  cbn [fail_if expect] in Hp. rewrite !ok_bind in Hp.
  apply bind_Ok in Hp as (c & _ & Hp). apply bind_Ok in Hp as ([[[a s1] m1] h1] & _ & Hp).
  apply bind_Ok in Hp as (? & _ & Hp). apply bind_Ok in Hp as (w & _ & Hp).
  apply bind_Ok in Hp as ([[[b s2] m2] h2] & _ & Hp).
  destruct (_ && _); [discriminate Hp|]. injection Hp as <- _ _ _. apply length_dhash256.
Qed.

Lemma parse_branch_sound inputs l h self pos x mu hu self' mu' hu' pre k :
  hashes32 l -> (forall i, (i < h)%nat -> level_nodes (level i l) ⊆ inputs) ->
  branch_nodes self h (Z.of_nat pos) mu hu ⊆ inputs -> hashes32 (hashes self) -> over l self -> (h <= 62)%nat -> level h l !! pos = Some x ->
  bv_iter (all_matches self) = pre ++ replicate k false -> length pre = (pos * 2 ^ h)%nat ->
  (length pre + k = length l)%nat ->
  parse_branch self h (Z.of_nat pos) mu hu = Ok (x, self', mu', hu') ->
  collides inputs \/ exists seg, marked self self' pre k seg (chunk h pos l).
Proof.
  intros H32 Hin. revert Hin self pos x mu hu self' mu' hu' pre k.
  induction h as [|h IH]; intros Hin self pos x mu hu self' mu' hu' pre k Hns Hh32 Hov Hh Hx Hm Hpre Hk Hp;
    destruct (parse_reads _ _ _ _ _ _ _ _ _ Hp) as (flag & pf & sf & Hf & <- & Hstop).
  { destruct Hstop as (ph & sh & Hhs & <-); [by left|]. right.
    destruct (parse_stop l self 0 pos flag x pf sf ph sh pre k) as (s' & Hs & Hmk); auto.
    rewrite Hs in Hp. injection Hp as <- <- <-. by eexists. }
  destruct flag.
  2:{ destruct Hstop as (ph & sh & Hhs & <-); [by right|]. right.
      destruct (parse_stop l self (S h) pos false x pf sf ph sh pre k) as (s' & Hs & Hmk); auto.
      rewrite Hs in Hp. injection Hp as <- <- <-. by eexists. }
  clear Hstop. pose proof (proj1 (length_level _ l pos) (lookup_lt_Some _ _ _ Hx)) as Hpos.
  rewrite (parse_go l _ _ _ _ _ _ Hov Hh Hpos Hf) in Hp.
  destruct (level_lookup_S h l pos x Hx) as (a & Ha & Hxa).
  pose proof (Forall_lookup_1 _ _ _ _ (level_32 h l H32) Ha) as La.
  apply bind_Ok in Hp as ([[[a' s1] m1] h1] & Hp1 & Hp). pose proof (parse_branch_32 _ _ _ _ _ _ _ _ _ Hh32 Hp1) as La'.
  destruct (parse_branch_frame _ _ _ _ _ _ _ _ _ Hp1) as (Hal & Hhs1 & _).
  assert (over l s1) as Hov1 by (unfold over; by rewrite Hal).
  specialize (IH ltac:(intros; apply Hin; lia)). pose proof (level_nodes_lookup _ _ _ Ha) as Hab.
  destruct (branch_nodes_go inputs l self h pos pf sf hu _ _ _ _ Hov Hh Hf Hp1 Hns) as [Hns1 Hns2].
  case_decide as Hd.
  - apply bind_Ok in Hp as ([[[b' s2] m2] h2] & Hp2 & Hp). case_bool_decide; [discriminate Hp|].
    injection Hp as Hx' <- <- <-. destruct (lookup_lt_is_Some_2 (level h l) (2 * pos + 1) Hd) as [b Hb].
    destruct (Hns2 _ _ _ _ Hp2) as [Hns3 Hn]. rewrite Hb in Hab.
    rewrite Hb, <- Hx' in Hxa.
    apply (node_inj inputs) in Hxa as [[-> ->]|Hc]; [|by left|done|done|done|by apply (Hin h); [lia|]].
    destruct (IH self (2 * pos)%nat a _ _ _ _ _ pre k Hns1 Hh32 Hov ltac:(lia) Ha Hm ltac:(rewrite Hpre; cbn; lia) Hk Hp1)
      as [Hc|(seg1 & Hm1)]; [by left|].
    destruct (halves l h pos pre seg1 k) as [Hp2' Hk2]; [done..|by apply Hm1|lia|].
    pose proof (marked_matches _ _ _ _ _ _ Hm1) as Hmm. rewrite app_assoc in Hmm. rewrite <- Hhs1 in Hh32.
    destruct (IH s1 (2 * pos + 1)%nat b _ _ _ _ _ _ _ Hns3 Hh32 Hov1 ltac:(lia) Hb Hmm Hp2' Hk2 Hp2)
      as [Hc|(seg2 & Hm2)]; [by left|].
    right. exists (seg1 ++ seg2). rewrite chunk_S. by eapply marked_trans.
  - injection Hp as Hx' <- <- <-. rewrite (lookup_ge_None_2 (level h l)) in Hxa, Hab by lia. rewrite <- Hx' in Hxa.
    apply (node_inj inputs) in Hxa as [[-> _]|Hc]; [|by left|done|done|done|by apply (Hin h); [lia|]].
    destruct (IH self (2 * pos)%nat a _ _ _ _ _ pre k Hns1 Hh32 Hov ltac:(lia) Ha Hm ltac:(rewrite Hpre; cbn; lia) Hk Hp1)
      as [Hc|(seg1 & Hm1)]; [by left|].
    right. exists seg1. by rewrite (no_sibling l).
Qed.

Lemma length_emit l ms h pos :
  (length (emit l ms h pos).2 <= length (chunk h pos l))%nat /\
  (length (emit l ms h pos).2 <= length (emit l ms h pos).1)%nat.
Proof.
  revert pos. induction h as [|h IH]; intros pos; cbn [emit].
  - change (level 0 l) with l. destruct (l !! pos) as [x|] eqn:Hx; [|cbn; lia].
    rewrite (chunk_leaf pos l x Hx). cbn. lia.
  - destruct (level (S h) l !! pos) as [x|] eqn:Hx; [|cbn; lia]. rewrite (chunk_S h pos l).
    destruct (existsb id _); cbn [fst snd length].
    + rewrite !length_app. pose proof (IH (2 * pos)%nat). pose proof (IH (2 * pos + 1)%nat). lia.
    + pose proof (proj1 (length_level _ l pos) (lookup_lt_Some _ _ _ Hx)) as Hpos.
      rewrite Nat.pow_succ_r' in Hpos. pose proof (Nat.pow_nonzero 2 h ltac:(lia)).
      rewrite length_app. unfold chunk at 1. rewrite length_take, length_drop. lia.
Qed.

(** The builder and the parser on the whole tree. *)
Lemma parse_top (l : list bytes) t :
  tx_count t = zlen l ->
  let self := mkBuilder (tx_count t) [] (bv_from_elem (Z.to_nat (tx_count t)) false) (tree_hashes t) (tree_flags t) in
  all_len self = zlen l /\ bv_iter (all_matches self) = [] ++ replicate (length l) false.
Proof. intros Ht self. split; [done|]. cbn. by rewrite Ht, Nat2Z.id, bv_iter_from_elem. Qed.

Lemma marked_all self self' h seg (l : list bytes) :
  marked self self' [] (length l) seg (chunk h 0 l) -> all_hashes self = [] -> (length l <= 2 ^ h)%nat ->
  bv_iter (all_matches self') = seg /\ all_hashes self' = pick seg l /\ length seg = length l.
Proof.
  intros [_ _ Hh Hm Hlen] Hn Hl. rewrite (chunk_top h l Hl) in *. rewrite Hlen, Nat.sub_diag, app_nil_r in Hm.
  rewrite Hn in Hh. done.
Qed.

End parser.

(** The parser on what the builder writes. *)
Lemma partial_tree_parses `{CryptoLaws} `{BitVecLaws} {E} (l : list bytes) (v : bitvec) :
  l <> [] -> zlen l <= 2 ^ 62 -> Forall (fun h : bytes => length h = 32%nat) l -> NoDup l ->
  length (bv_iter v) = length l ->
  exists t, @build_partial_merkle_tree _ _ E l v = Ok t /\ tx_count t = zlen l /\
    (collides (merkle_nodes l) \/ exists p, parse_partial_merkle_tree t = Ok p /\
       merkle_root l = @Ok E _ (parsed_root p) /\ parsed_hashes p = pick (bv_iter v) l /\
       bv_iter (parsed_flags p) = bv_iter v).
Proof.
  intros Hne Hl H32 Hnd Hv. destruct (@tree_height_spec _ _ E l Hl Hne) as (h & root & Hh & Hle & Hx & Hr & Hw & Hin).
  set (self := mkBuilder (zlen l) l v [] (bv_from_elem 0 false)). assert (over l self) as Hov by done.
  destruct (@build_branch_emit _ _ _ E l self h 0 root Hov eq_refl Hv Hle Hx) as (s' & Hb & E1 & _ & _ & E4 & E5).
  change (Z.of_nat 0) with 0 in Hb. unfold build_partial_merkle_tree, build, build_tree. fold self.
  rewrite Hh, ok_bind, Hb, ok_bind by done. eexists. split; [done|]. split; [exact E1|].
  cbn [self matches hashes all_matches] in E4, E5. rewrite bv_iter_from_elem in E5. cbn [replicate app] in E4, E5.
  unfold parse_partial_merkle_tree, parse, parse_tree.
  set (t := mkTree (all_len s') (hashes s') (matches s')). destruct (parse_top l t E1) as [P1 P2].
  set (self' := mkBuilder (tx_count t) _ _ _ _) in *. assert (over l self') as Hov' by done.
  rewrite <- (app_nil_r (emit _ _ _ _).1) in E5. rewrite <- (app_nil_r (emit _ _ _ _).2) in E4.
  destruct (parse_emit (merkle_nodes l) l (bv_iter v) h self' 0 root [] [] [] [] [] (length l) H32 Hnd Hin Hov' Hv Hle E5 E4 P2 eq_refl eq_refl Hx)
    as [Hc|(s2 & Hp & Hm)]; [by left|right].
  rewrite app_nil_r in E4, E5. pose proof (length_emit l (bv_iter v) h 0) as [G1 G2]. rewrite (chunk_top h l Hw) in G1.
  destruct (marked_source _ _ _ _ _ _ Hm) as [Hs1 Hs2].
  destruct (marked_all _ _ h _ l Hm eq_refl Hw) as (M1 & M2 & _).
  rewrite (chunk_top h (bv_iter v)) in M1, M2 by lia.
  change (hashes self') with (hashes s') in *. change (matches self') with (matches s') in *.
  rewrite P1, E4, E5, (proj2 (Z.eqb_neq _ _)), (proj2 (Z.ltb_ge _ _)), (proj2 (Nat.ltb_ge _ _)) by
    (done || lia || (destruct l; [done|cbn; lia])).
  cbn [fail_if]. rewrite !ok_bind, Hh, ok_bind by done. change (Z.of_nat 0) with 0 in Hp.
  cbn [length Nat.add] in Hp. rewrite Hp, ok_bind. cbn beta iota. rewrite Hs1, Hs2, E4, E5, !Nat.eqb_refl.
  eexists. split; [done|]. done.
Qed.

(** * Theorems *)

(** The partial tree of a block with distinct transactions is built without a
    panic, and the parser recovers from it the block's merkle root, the hashes of
    exactly the matched transactions in block order, and the match flags; unless two
    nodes of the block's own merkle tree collide. *)
Theorem partial_tree_roundtrip `{CryptoLaws} `{BitVecLaws} {E} (l : list bytes) (v : bitvec) :
  l <> [] -> zlen l <= 2 ^ 62 -> Forall (fun h : bytes => length h = 32%nat) l -> NoDup l ->
  length (bv_iter v) = length l ->
  exists t, @build_partial_merkle_tree _ _ E l v = Ok t /\ tx_count t = zlen l /\
    (collides (merkle_nodes l) \/ exists p, parse_partial_merkle_tree t = Ok p /\
       merkle_root l = @Ok E _ (parsed_root p) /\ parsed_hashes p = pick (bv_iter v) l /\
       bv_iter (parsed_flags p) = bv_iter v).
Proof. apply partial_tree_parses. Qed.

(** C39: A tree that parses to the merkle root of a block's transactions, and claims
    their number, proves membership: the parsed hashes are the block's own hashes at
    the flagged positions; unless two different strings, among those that the computation
    of the block's root and the parse of the tree hash, have the same double hash.  The
    hashes of the block and of the tree have 32 bytes each. *)
Theorem partial_tree_sound `{CryptoLaws} `{BitVecLaws} {E} (l : list bytes) t p :
  parse_partial_merkle_tree t = Ok p -> tx_count t = zlen l -> zlen l <= 2 ^ 62 ->
  Forall (fun h : bytes => length h = 32%nat) l -> Forall (fun h : bytes => length h = 32%nat) (tree_hashes t) ->
  merkle_root l = @Ok E _ (parsed_root p) ->
  collides (merkle_nodes l ++ parse_nodes t) \/
  (length (bv_iter (parsed_flags p)) = length l /\ parsed_hashes p = pick (bv_iter (parsed_flags p)) l).
Proof.
  intros Hp Ht Hl H32 Ht32 Hroot. unfold parse_partial_merkle_tree, parse, parse_tree in Hp.
  unfold parse_nodes. destruct (parse_top l t Ht) as [P1 P2]. set (self := mkBuilder (tx_count t) _ _ _ _) in *.
  assert (over l self) as Hov by done.
  apply bind_Ok in Hp as ([r s1] & Hp & Hr). injection Hr as <-.
  apply bind_Ok in Hp as (u1 & Hne & Hp). apply bind_Ok in Hp as (u2 & _ & Hp). apply bind_Ok in Hp as (u3 & _ & Hp).
  apply fail_if_Ok, Z.eqb_neq in Hne. assert (l <> []) as Hnl by (intros ->; by apply Hne).
  destruct (@tree_height_spec _ _ E l Hl Hnl) as (h & root & Hh & Hle & Hx & Hr & Hw & Hin).
  rewrite Hh by done. rewrite Hh, ok_bind in Hp by done. apply bind_Ok in Hp as ([[[r' s2] mu] hu] & Hp & Hend).
  apply bind_Ok in Hend as (u4 & _ & Hend). apply bind_Ok in Hend as (u5 & _ & Hend). injection Hend as -> ->.
  cbn [parsed_root parsed_flags parsed_hashes] in *. rewrite Hr in Hroot. injection Hroot as ->.
  destruct (parse_branch_sound (merkle_nodes l ++ branch_nodes self h 0 0 0) l h self 0 r 0 0 s1 mu hu [] (length l) H32
    ltac:(intros i Hi; specialize (Hin i Hi); set_solver) ltac:(set_solver) Ht32 Hov Hle Hx P2 eq_refl eq_refl Hp)
    as [Hc|(seg & Hm)]; [by left|right].
  destruct (marked_all _ _ h _ l Hm eq_refl Hw) as (-> & M2 & M3). done.
Qed.

End PartialMerkle.

(** * Witnesses *)

Section witnesses.
Import ChainHash PartialMerkle ExampleCrypto ExampleBits.

Definition example_leaves : list bytes := [replicate 32 x01; replicate 32 x02; replicate 32 x03].
Definition example_flags : list bool := [false; true; false].
(** The second of the three transactions matches. *)
Definition example_tree : PartialMerkleTree :=
  mkTree 3 example_leaves [true; true; false; true; false].

Lemma example_leaves_wf :
  example_leaves <> [] /\ zlen example_leaves <= 2 ^ 62 /\
  Forall (fun h : bytes => length h = 32%nat) example_leaves /\ NoDup example_leaves.
Proof.
  split_and!; [done|vm_compute; discriminate|repeat constructor|apply (bool_decide_unpack _); vm_compute; exact I].
Qed.

Lemma partial_tree_roundtrip_witness :
  @build_partial_merkle_tree _ list_bits unit example_leaves example_flags = Ok example_tree /\
  (collides (merkle_nodes example_leaves) \/ exists p, parse_partial_merkle_tree example_tree = Ok p /\ parsed_hashes p = [replicate 32 x02]).
Proof.
  destruct example_leaves_wf as (Hne & Hl & H32 & Hnd).
  assert (@build_partial_merkle_tree _ list_bits unit example_leaves example_flags = Ok example_tree) as Hb
    by (vm_compute; reflexivity).
  destruct (@partial_tree_roundtrip _ _ list_bits _ unit example_leaves example_flags Hne Hl H32 Hnd eq_refl) as (t & Ht & _ & Hp).
  rewrite Hb in Ht. injection Ht as <-. split; [exact Hb|].
  destruct Hp as [Hc|(p & Hp & _ & Hh & _)]; [by left|right]. exists p. split; [exact Hp|exact Hh].
Defined.

(** Two transactions, the second of which matches: one string is hashed, so nothing
    collides and the parsed hash is that of the block. *)
Lemma partial_tree_sound_witness :
  let l := [replicate 32 x01; replicate 32 x02] in
  exists p, parse_partial_merkle_tree (@mkTree list_bits 2 l [true; false; true]) = Ok p /\
    length (parsed_flags p) = 2%nat /\ parsed_hashes p = pick (parsed_flags p) l.
Proof.
  set (l := [replicate 32 x01; replicate 32 x02]). set (t := @mkTree list_bits 2 l [true; false; true]).
  exists (@mkParsed list_bits (replicate 32 x01) [replicate 32 x02] [false; true]).
  assert (parse_partial_merkle_tree t = Ok (@mkParsed list_bits (replicate 32 x01) [replicate 32 x02] [false; true]))
    as Hp by (vm_compute; reflexivity).
  split; [exact Hp|].
  destruct (@partial_tree_sound _ _ list_bits _ unit l t _ Hp eq_refl) as [Hc|Hh];
    [vm_compute; discriminate|repeat constructor|repeat constructor|vm_compute; reflexivity| |exact Hh].
  exfalso. revert Hc. apply (collides_same (replicate 32 x01 ++ replicate 32 x02)). by repeat constructor.
Defined.

(** The parser's bound on the hashes is one too generous: a tree with too few of
    them makes it index past the end. *)
Theorem parse_short_tree_panics :
  parse_partial_merkle_tree (@mkTree list_bits 2 [replicate 32 x01] [true; true; true]) = Panic.
Proof. vm_compute. reflexivity. Qed.

End witnesses.
