(* ===== verification/Message.v ===== *)
(** Peer-to-peer messages (src/message/src): the common structures (common/), the
    payload types (types/), the message header and frame (message/) and the versioned
    serialization of payloads (serialization/), with UTF-8 strings as the serialization
    crate reads them (src/serialization/src/impls.rs). *)
From Stdlib Require Import ZArith Lia Strings.Byte Strings.String.
From stdpp Require Import base decidable numbers list.
From S2P Require Import Prelude Crypto Serialization Codec Chain ChainHash.

Local Open Scope Z_scope.

(** * UTF-8 *)

(** A [String] is the list of its bytes, which are valid UTF-8. *)
Module Utf8.

Definition between (lo hi : Z) (b : byte) : bool := (lo <=? u8 b) && (u8 b <=? hi).

(** The continuation bytes a first byte asks for; [None]: no character starts so. *)
Definition continuation (first : byte) : option (list (byte -> bool)) :=
  let tail := between 128 191 in
  if u8 first <? 128 then Some []
  else if between 194 223 first then Some [tail]
  else if u8 first =? 224 then Some [between 160 191; tail]
  else if u8 first =? 237 then Some [between 128 159; tail]
  else if between 225 239 first then Some [tail; tail]
  else if u8 first =? 240 then Some [between 144 191; tail; tail]
  else if between 241 243 first then Some [tail; tail; tail]
  else if u8 first =? 244 then Some [between 128 143; tail; tail]
  else None.

(** How many of the expected bytes follow. *)
Fixpoint following (expected : list (byte -> bool)) (bs : bytes) : nat :=
  match expected, bs with
  | p :: expected', b :: bs' => if p b then S (following expected' bs') else O
  | _, _ => O
  end.

(** The length of the character or of the broken sequence at the start, and whether
    it is a character. *)
Definition next_char (first : byte) (rest : bytes) : nat * bool :=
  match continuation first with
  | None => (1%nat, false)
  | Some expected =>
      let n := following expected rest in (S n, (n =? length expected)%nat)
  end.

Definition REPLACEMENT : bytes := [xef; xbf; xbd].

(** [String::from_utf8_lossy]: every broken sequence becomes U+FFFD. *)
Fixpoint lossy_loop (fuel : nat) (bs : bytes) : bytes :=
  match fuel, bs with
  | S fuel', first :: rest =>
      let '(n, ok) := next_char first rest in
      (if ok then take n bs else REPLACEMENT) ++ lossy_loop fuel' (drop n bs)
  | _, _ => []
  end.
Definition from_utf8_lossy (bs : bytes) : bytes := lossy_loop (length bs) bs.

Fixpoint valid_loop (fuel : nat) (bs : bytes) : bool :=
  match fuel, bs with
  | S fuel', first :: rest =>
      let '(n, ok) := next_char first rest in ok && valid_loop fuel' (drop n bs)
  | _, _ => true
  end.
Definition valid_utf8 (bs : bytes) : bool := valid_loop (length bs) bs.

End Utf8.

Module Message.
Import Ser Derive Chain Utf8.

Inductive Error := Deserialize | InvalidCommand | InvalidMagic | InvalidChecksum | InvalidVersion.
#[global] Instance Error_eq_dec : EqDecision Error.
Proof. solve_decision. Defined.

(** [From<ReaderError>]. *)
Definition of_reader_error (_ : ReaderError) : Error := Deserialize.

(** * Encodings the messages add *)

Definition string_codec : Codec bytes := {|
  serialize := fun (b : bytes) (s : Stream) => append_slice b (append compact_integer_codec (zlen b) s);
  serialized_size := fun b : bytes => serialized_size compact_integer_codec (zlen b) + zlen b;
  deserialize := fun r : Reader => '(b, r) ← deserialize bytes_codec r; Ok (from_utf8_lossy b, r);
  size_of := 24;
|}.

(** [write_u16::<BigEndian>] and [read_u16::<BigEndian>]. *)
Definition u16_be_codec : Codec Z := {|
  serialize := fun (z : Z) (s : Stream) => append_slice (rev (le_bytes 2 z)) s;
  serialized_size := fun _ => 2;
  deserialize := fun r : Reader => '(bs, r) ← read_slice 2 r; Ok (le_value (rev bs), r);
  size_of := 2;
|}.

(** [append_list] and [read_list_max]. *)
Definition list_max_codec {A} (c : Codec A) (max : Z) : Codec (list A) := {|
  serialize := fun (t : list A) (s : Stream) => append_list c t s;
  serialized_size := fun t : list A => serialized_list_size c t;
  deserialize := read_list_max c max;
  size_of := 24;
|}.

(** * Common structures (common/) *)

(** ** Services (service.rs) *)

Definition bit_at (self : Z) (bit : Z) : bool := negb (Z.land self (Z.shiftl 1 bit) =? 0).
Definition set_bit (self : Z) (bit : Z) (bit_value : bool) : Z :=
  if bit_value then Z.lor self (Z.shiftl 1 bit) else Z.land self (Z.lxor u64_max (Z.shiftl 1 bit)).

Definition network (self : Z) : bool := bit_at self 0.
Definition with_network (self : Z) (v : bool) : Z := set_bit self 0 v.
Definition getutxo (self : Z) : bool := bit_at self 1.
Definition with_getutxo (self : Z) (v : bool) : Z := set_bit self 1 v.
Definition bloom (self : Z) : bool := bit_at self 2.
Definition with_bloom (self : Z) (v : bool) : Z := set_bit self 2 v.
Definition witness (self : Z) : bool := bit_at self 3.
Definition with_witness (self : Z) (v : bool) : Z := set_bit self 3 v.
Definition xthin (self : Z) : bool := bit_at self 4.
Definition with_xthin (self : Z) (v : bool) : Z := set_bit self 4 v.
Definition bitcoin_cash (self : Z) : bool := bit_at self 5.
Definition with_bitcoin_cash (self : Z) (v : bool) : Z := set_bit self 5 v.
Definition includes (self other : Z) : bool := Z.land self other =? other.

Definition services_codec : Codec Z := u64_codec.

(** ** Addresses (ip.rs, port.rs, address.rs) *)

(** [net::IpAddr]: four octets, or eight segments of 16 bits. *)
Inductive IpAddress := V4 (octets : bytes) | V6 (segments : list Z).

Definition ip_codec : Codec IpAddress := {|
  serialize := fun (ip : IpAddress) (s : Stream) =>
    match ip with
    | V4 octets => append_slice octets (append_slice (replicate 12 x00) s)
    | V6 segments => foldl (fun s segment => append u16_be_codec segment s) s segments
    end;
  serialized_size := fun _ => 16;
  deserialize := fun r : Reader =>
    '(bs, r) ← read_slice 12 r;
    if bool_decide (bs = replicate 12 x00) then
      '(octets, r) ← read_slice 4 r; Ok (V4 octets, r)
    else
      let b := reader_new bs in
      '(s0, b) ← deserialize u16_be_codec b;
      '(s1, b) ← deserialize u16_be_codec b;
      '(s2, b) ← deserialize u16_be_codec b;
      '(s3, b) ← deserialize u16_be_codec b;
      '(s4, b) ← deserialize u16_be_codec b;
      '(s5, b) ← deserialize u16_be_codec b;
      '(s6, r) ← deserialize u16_be_codec r;
      '(s7, r) ← deserialize u16_be_codec r;
      Ok (V6 [s0; s1; s2; s3; s4; s5; s6; s7], r);
  size_of := 17;
|}.

Definition port_codec : Codec Z := u16_be_codec.

Record NetAddress := mkNetAddress { services : Z; address : IpAddress; port : Z }.

Definition net_address_codec : Codec NetAddress :=
  struct (fields services_codec (fields ip_codec port_codec))
    (fun a => (services a, (address a, port a))) (fun p => mkNetAddress p.1 p.2.1 p.2.2) 32.

(** ** Inventory (inventory.rs) *)

Inductive InventoryType :=
  | InvError | MessageTx | MessageBlock | MessageFilteredBlock | MessageCompactBlock
  | MessageWitnessTx | MessageWitnessBlock | MessageWitnessFilteredBlock.
#[global] Instance InventoryType_eq_dec : EqDecision InventoryType.
Proof. solve_decision. Defined.

Definition inventory_type_from_u32 (v : Z) : option InventoryType :=
  if v =? 0 then Some InvError
  else if v =? 1 then Some MessageTx
  else if v =? 2 then Some MessageBlock
  else if v =? 3 then Some MessageFilteredBlock
  else if v =? 4 then Some MessageCompactBlock
  else if v =? 1073741825 then Some MessageWitnessTx
  else if v =? 1073741826 then Some MessageWitnessBlock
  else if v =? 1073741827 then Some MessageWitnessFilteredBlock
  else None.

Definition inventory_type_to_u32 (i : InventoryType) : Z :=
  match i with
  | InvError => 0 | MessageTx => 1 | MessageBlock => 2 | MessageFilteredBlock => 3
  | MessageCompactBlock => 4 | MessageWitnessTx => 1073741825 | MessageWitnessBlock => 1073741826
  | MessageWitnessFilteredBlock => 1073741827
  end.

(** A fieldless enum written as an integer; an unknown value is malformed. *)
Definition enum_codec {A} (c : Codec Z) (to : A -> Z) (from : Z -> option A) : Codec A := {|
  serialize := fun (x : A) (s : Stream) => append c (to x) s;
  serialized_size := fun x : A => serialized_size c (to x);
  deserialize := fun r : Reader => '(t, r) ← deserialize c r; x ← ok_or (from t) MalformedData; Ok (x, r);
  size_of := size_of c;
|}.

Definition inventory_type_codec : Codec InventoryType :=
  enum_codec u32_codec inventory_type_to_u32 inventory_type_from_u32.

Record InventoryVector := mkInventory { inv_type : InventoryType; inv_hash : bytes }.

Definition inventory_tx (hash : bytes) : InventoryVector := mkInventory MessageTx hash.
Definition inventory_witness_tx (hash : bytes) : InventoryVector := mkInventory MessageWitnessTx hash.
Definition inventory_block (hash : bytes) : InventoryVector := mkInventory MessageBlock hash.
Definition inventory_witness_block (hash : bytes) : InventoryVector := mkInventory MessageWitnessBlock hash.

Definition inventory_codec : Codec InventoryVector :=
  struct (fields inventory_type_codec (hash_codec 32))
    (fun v => (inv_type v, inv_hash v)) (fun p => mkInventory p.1 p.2) 36.

(** ** Compact blocks (block_header_and_ids.rs, block_transactions.rs,
    block_transactions_request.rs, prefilled_transaction.rs) *)

Record PrefilledTransaction := mkPrefilled { prefilled_index : Z; prefilled_transaction : Transaction }.
Definition prefilled_codec : Codec PrefilledTransaction :=
  struct (fields compact_integer_codec transaction_codec)
    (fun p => (prefilled_index p, prefilled_transaction p)) (fun p => mkPrefilled p.1 p.2) 64.

Record BlockHeaderAndIDs := mkHeaderAndIDs {
  ids_header : BlockHeader;
  ids_nonce : Z;
  short_ids : list bytes;
  prefilled_transactions : list PrefilledTransaction;
}.
Definition header_and_ids_codec : Codec BlockHeaderAndIDs :=
  struct (fields header_codec (fields u64_codec (fields (list_codec (hash_codec 6)) (list_codec prefilled_codec))))
    (fun b => (ids_header b, (ids_nonce b, (short_ids b, prefilled_transactions b))))
    (fun p => mkHeaderAndIDs p.1 p.2.1 p.2.2.1 p.2.2.2) 136.

Record BlockTransactions := mkBlockTransactions { bt_blockhash : bytes; bt_transactions : list Transaction }.
Definition block_transactions_codec : Codec BlockTransactions :=
  struct (fields (hash_codec 32) (list_codec transaction_codec))
    (fun b => (bt_blockhash b, bt_transactions b)) (fun p => mkBlockTransactions p.1 p.2) 56.

Record BlockTransactionsRequest := mkRequest { btr_blockhash : bytes; indexes : list Z }.
Definition block_transactions_request_codec : Codec BlockTransactionsRequest :=
  struct (fields (hash_codec 32) (list_codec compact_integer_codec))
    (fun b => (btr_blockhash b, indexes b)) (fun p => mkRequest p.1 p.2) 56.

(** ** Commands (command.rs) *)

Definition is_ascii (s : bytes) : bool := forallb (fun b => u8 b <? 128) s.

(** [FromStr]: the name in twelve bytes, filled up with zeros. *)
Definition command_from_str (s : bytes) : outcome Error bytes :=
  if negb (is_ascii s) || (12 <? zlen s) then Err InvalidCommand
  else Ok (s ++ replicate (12 - length s) x00).

(** [From<&'static str>]: a panic where parsing fails. *)
Definition command_from {E} (s : bytes) : outcome E bytes :=
  match command_from_str s with Ok c => Ok c | _ => Panic end.

Fixpoint leading_zeros (bs : bytes) : nat :=
  match bs with b :: bs' => if bool_decide (b = x00) then S (leading_zeros bs') else O | [] => O end.
Definition command_len (self : bytes) : nat := (length self - leading_zeros (rev self))%nat.

(** [PartialEq<&str>]. *)
Definition command_eq_str (self other : bytes) : bool :=
  (command_len self =? length other)%nat && bool_decide (take (length other) self = other).

Definition command_codec : Codec bytes := hash_codec 12.

(** * Payloads (message/payload.rs) *)

Record Payload (T : Type) := mkPayload {
  payload_version : Z;
  payload_command : bytes;
  deserialize_payload_from : Z -> Reader -> outcome Error (T * Reader);
  serialize_payload_to : T -> Stream -> Z -> outcome Error Stream;
}.
Arguments payload_version {T}.
Arguments payload_command {T}.
Arguments deserialize_payload_from {T}.
Arguments serialize_payload_to {T}.

Abbreviation name s := (list_byte_of_string s%string).

(** A payload whose fields are read and written in order, whatever the version. *)
Definition plain_payload {T} (version : Z) (command : bytes) (c : Codec T) : Payload T := {|
  payload_version := version;
  payload_command := command;
  deserialize_payload_from := fun _ r => map_err of_reader_error (deserialize c r);
  serialize_payload_to := fun t s _ => Ok (serialize c t s);
|}.

(** A payload without fields. *)
Definition unit_payload (version : Z) (command : bytes) : Payload unit := {|
  payload_version := version;
  payload_command := command;
  deserialize_payload_from := fun _ r => Ok (tt, r);
  serialize_payload_to := fun _ s _ => Ok s;
|}.

(** ** addr (types/addr.rs) *)

Module Addr.

Record AddressEntry := mkEntry { timestamp : Z; entry_address : NetAddress }.
Definition entry_codec : Codec AddressEntry :=
  struct (fields u32_codec net_address_codec)
    (fun e => (timestamp e, entry_address e)) (fun p => mkEntry p.1 p.2) 40.

Inductive Addr := V0 (addresses : list NetAddress) | V31402 (addresses : list AddressEntry).

Definition new (addresses : list AddressEntry) : Addr := V31402 addresses.

Definition v0_codec : Codec (list NetAddress) := list_max_codec net_address_codec 1000.
Definition v31402_codec : Codec (list AddressEntry) := list_max_codec entry_codec 1000.

Definition addr_payload : Payload Addr := {|
  payload_version := 0;
  payload_command := name "addr";
  deserialize_payload_from := fun version r =>
    if version <? 31402 then
      '(a, r) ← map_err of_reader_error (deserialize v0_codec r); Ok (V0 a, r)
    else '(a, r) ← map_err of_reader_error (deserialize v31402_codec r); Ok (V31402 a, r);
  serialize_payload_to := fun self s version =>
    match self with
    | V0 addr => Ok (serialize v0_codec addr s)
    | V31402 addr =>
        if version <? 31402 then Ok (append_list net_address_codec (map entry_address addr) s)
        else Ok (serialize v31402_codec addr s)
    end;
|}.

End Addr.

(** ** version (types/version.rs) *)

Module Version.

Record V0 := mkV0 { v0_version : Z; v0_services : Z; v0_timestamp : Z; receiver : NetAddress }.
Record V106 := mkV106 { from : NetAddress; v106_nonce : Z; v106_user_agent : bytes; start_height : Z }.
Record V70001 := mkV70001 { relay : bool }.

Inductive Version := IsV0 (simple : V0) | IsV106 (simple : V0) (v106 : V106)
  | IsV70001 (simple : V0) (v106 : V106) (v70001 : V70001).

Definition v0_codec : Codec V0 :=
  struct (fields u32_codec (fields services_codec (fields i64_codec net_address_codec)))
    (fun v => (v0_version v, (v0_services v, (v0_timestamp v, receiver v))))
    (fun p => mkV0 p.1 p.2.1 p.2.2.1 p.2.2.2) 56.
Definition v106_codec : Codec V106 :=
  struct (fields net_address_codec (fields u64_codec (fields string_codec i32_codec)))
    (fun v => (from v, (v106_nonce v, (v106_user_agent v, start_height v))))
    (fun p => mkV106 p.1 p.2.1 p.2.2.1 p.2.2.2) 72.
Definition v70001_codec : Codec V70001 := struct bool_codec relay mkV70001 1.

Definition version_payload : Payload Version := {|
  payload_version := 0;
  payload_command := name "version";
  deserialize_payload_from := fun _ r =>
    '(simple, r) ← map_err of_reader_error (deserialize v0_codec r);
    if v0_version simple <? 106 then Ok (IsV0 simple, r)
    else
      '(v106, r) ← map_err of_reader_error (deserialize v106_codec r);
      if v0_version simple <? 70001 then Ok (IsV106 simple v106, r)
      else
        '(v70001, r) ← map_err of_reader_error (deserialize v70001_codec r);
        Ok (IsV70001 simple v106 v70001, r);
  serialize_payload_to := fun self s _ =>
    match self with
    | IsV0 simple => Ok (append v0_codec simple s)
    | IsV106 simple v106 => Ok (append v106_codec v106 (append v0_codec simple s))
    | IsV70001 simple v106 v70001 =>
        Ok (append v70001_codec v70001 (append v106_codec v106 (append v0_codec simple s)))
    end;
|}.

Definition simple (self : Version) : V0 :=
  match self with IsV0 s | IsV106 s _ | IsV70001 s _ _ => s end.
Definition version (self : Version) : Z := v0_version (simple self).
Definition services (self : Version) : Z := v0_services (simple self).
Definition nonce (self : Version) : option Z :=
  match self with IsV0 _ => None | IsV106 _ v | IsV70001 _ v _ => Some (v106_nonce v) end.
Definition relay_transactions (self : Version) : bool :=
  match self with IsV0 _ | IsV106 _ _ => true | IsV70001 _ _ v => relay v end.
Definition user_agent (self : Version) : option bytes :=
  match self with IsV0 _ => None | IsV106 _ v | IsV70001 _ v _ => Some (v106_user_agent v) end.

End Version.

(** ** The other payloads (types/) *)

(** The payload types that wrap one field are that field. *)
Definition block_payload : Payload Block := plain_payload 0 (name "block") block_codec.
Definition tx_payload : Payload Transaction := plain_payload 0 (name "tx") transaction_codec.
Definition blocktxn_payload : Payload BlockTransactions :=
  plain_payload 70014 (name "blocktxn") block_transactions_codec.
Definition compactblock_payload : Payload BlockHeaderAndIDs :=
  plain_payload 70014 (name "cmpctblock") header_and_ids_codec.
Definition getblocktxn_payload : Payload BlockTransactionsRequest :=
  plain_payload 70014 (name "getblocktxn") block_transactions_request_codec.
Definition feefilter_payload : Payload Z := plain_payload 70013 (name "feefilter") u64_codec.
Definition ping_payload : Payload Z := plain_payload 0 (name "ping") u64_codec.
Definition pong_payload : Payload Z := plain_payload 0 (name "pong") u64_codec.
Definition filteradd_payload : Payload bytes := plain_payload 70001 (name "filteradd") bytes_codec.

Definition getdata_payload : Payload (list InventoryVector) :=
  plain_payload 0 (name "getdata") (list_max_codec inventory_codec 50000).
Definition inv_payload : Payload (list InventoryVector) :=
  plain_payload 0 (name "inv") (list_max_codec inventory_codec 50000).
Definition notfound_payload : Payload (list InventoryVector) :=
  plain_payload 0 (name "notfound") (list_max_codec inventory_codec 50000).

Definition filterclear_payload : Payload unit := unit_payload 70001 (name "filterclear").
Definition getaddr_payload : Payload unit := unit_payload 0 (name "getaddr").
Definition mempool_payload : Payload unit := unit_payload 60002 (name "mempool").
Definition sendheaders_payload : Payload unit := unit_payload 70012 (name "sendheaders").
Definition verack_payload : Payload unit := unit_payload 0 (name "verack").

Inductive FilterFlags := FlagsNone | FlagsAll | FlagsPubKeyOnly.
#[global] Instance FilterFlags_eq_dec : EqDecision FilterFlags.
Proof. solve_decision. Defined.

Definition filter_flags_from_u8 (v : Z) : option FilterFlags :=
  if v =? 0 then Some FlagsNone
  else if v =? 1 then Some FlagsAll
  else if v =? 2 then Some FlagsPubKeyOnly
  else None.
Definition filter_flags_to_u8 (i : FilterFlags) : Z :=
  match i with FlagsNone => 0 | FlagsAll => 1 | FlagsPubKeyOnly => 2 end.
Definition filter_flags_codec : Codec FilterFlags := enum_codec u8_codec filter_flags_to_u8 filter_flags_from_u8.

Record FilterLoad := mkFilterLoad { fl_filter : bytes; fl_hash_functions : Z; fl_tweak : Z; fl_flags : FilterFlags }.
Definition filterload_codec : Codec FilterLoad :=
  struct (fields bytes_codec (fields u32_codec (fields u32_codec filter_flags_codec)))
    (fun m => (fl_filter m, (fl_hash_functions m, (fl_tweak m, fl_flags m))))
    (fun p => mkFilterLoad p.1 p.2.1 p.2.2.1 p.2.2.2) 40.
Definition filterload_payload : Payload FilterLoad := plain_payload 70001 (name "filterload") filterload_codec.

(** [getblocks] and [getheaders] differ in the locator's bound. *)
Record Locator := mkLocator { loc_version : Z; block_locator_hashes : list bytes; hash_stop : bytes }.
Definition locator_codec (max : Z) : Codec Locator :=
  struct (fields u32_codec (fields (list_max_codec (hash_codec 32) max) (hash_codec 32)))
    (fun m => (loc_version m, (block_locator_hashes m, hash_stop m)))
    (fun p => mkLocator p.1 p.2.1 p.2.2) 64.
Definition getblocks_payload : Payload Locator := plain_payload 0 (name "getblocks") (locator_codec 500).
Definition getheaders_payload : Payload Locator := plain_payload 0 (name "getheaders") (locator_codec 2000).
Definition with_block_locator_hashes (hashes : list bytes) : Locator := mkLocator 0 hashes zero_hash.

(** A header with its number of transactions, which is zero. *)
Definition header_with_txn_count_codec : Codec BlockHeader := {|
  serialize := fun (h : BlockHeader) (s : Stream) => append compact_integer_codec 0 (append header_codec h s);
  serialized_size := fun h : BlockHeader => serialized_size header_codec h + 1;
  deserialize := fun r : Reader =>
    '(h, r) ← deserialize header_codec r;
    '(txn_count, r) ← deserialize compact_integer_codec r;
    if negb (txn_count =? 0) then Err MalformedData else Ok (h, r);
  size_of := 80;
|}.
Definition headers_payload : Payload (list BlockHeader) :=
  plain_payload 0 (name "headers") (list_codec header_with_txn_count_codec).

Record MerkleBlock := mkMerkleBlock {
  mb_block_header : BlockHeader;
  total_transactions : Z;
  mb_hashes : list bytes;
  mb_flags : bytes;
}.
Definition merkle_block_codec : Codec MerkleBlock :=
  struct (fields header_codec (fields u32_codec (fields (list_codec (hash_codec 32)) bytes_codec)))
    (fun m => (mb_block_header m, (total_transactions m, (mb_hashes m, mb_flags m))))
    (fun p => mkMerkleBlock p.1 p.2.1 p.2.2.1 p.2.2.2) 136.
Definition merkleblock_payload : Payload MerkleBlock := plain_payload 70014 (name "merkleblock") merkle_block_codec.

Inductive RejectCode :=
  Malformed | Invalid | Obsolate | Duplicate | Nonstandard | Dust | InsuficientFee | Checkpoint.
Definition reject_code_to_u8 (c : RejectCode) : Z :=
  match c with
  | Malformed => 1 | Invalid => 16 | Obsolate => 17 | Duplicate => 18
  | Nonstandard => 64 | Dust => 65 | InsuficientFee => 66 | Checkpoint => 67
  end.
Definition reject_code_from_u8 (v : Z) : option RejectCode :=
  if v =? 1 then Some Malformed
  else if v =? 16 then Some Invalid
  else if v =? 17 then Some Obsolate
  else if v =? 18 then Some Duplicate
  else if v =? 64 then Some Nonstandard
  else if v =? 65 then Some Dust
  else if v =? 66 then Some InsuficientFee
  else if v =? 67 then Some Checkpoint
  else None.
Definition reject_code_codec : Codec RejectCode := enum_codec u8_codec reject_code_to_u8 reject_code_from_u8.

Record Reject := mkReject { rj_message : bytes; rj_code : RejectCode; rj_reason : bytes }.
Definition reject_codec : Codec Reject :=
  struct (fields string_codec (fields reject_code_codec string_codec))
    (fun m => (rj_message m, (rj_code m, rj_reason m))) (fun p => mkReject p.1 p.2.1 p.2.2) 56.
Definition reject_payload : Payload Reject := plain_payload 0 (name "reject") reject_codec.

Record SendCompact := mkSendCompact { first : bool; second : Z }.
Definition sendcompact_codec : Codec SendCompact :=
  struct (fields bool_codec u64_codec) (fun m => (first m, second m)) (fun p => mkSendCompact p.1 p.2) 16.
Definition sendcompact_payload : Payload SendCompact := plain_payload 70014 (name "sendcmpct") sendcompact_codec.

(** * Versioned serialization (serialization/) *)

Definition serialize_payload_with_flags {T} (p : Payload T) (t : T) (version serialization_flags : Z)
    : outcome Error bytes :=
  if version <? payload_version p then Err InvalidVersion
  else s ← serialize_payload_to p t (with_flags serialization_flags) version; Ok (out s).

Definition serialize_payload {T} (p : Payload T) (t : T) (version : Z) : outcome Error bytes :=
  serialize_payload_with_flags p t version 0.

Definition deserialize_payload {T} (p : Payload T) (buffer : bytes) (version : Z) : outcome Error T :=
  if version <? payload_version p then Err InvalidVersion
  else
    '(result, r) ← deserialize_payload_from p version (reader_new buffer);
    '(finished, _) ← map_err of_reader_error (is_finished r);
    if negb finished then Err Deserialize else Ok result.

(** * Frames (message/message_header.rs, message/message.rs) *)

Section frames.
Context `{Crypto}.

Record MessageHeader := mkMessageHeader {
  mh_magic : Z;
  mh_command : bytes;
  mh_len : Z;
  mh_checksum : bytes;
}.

Definition for_data (magic : Z) (command data : bytes) : MessageHeader :=
  mkMessageHeader magic command (wrap 32 (zlen data)) (checksum data).

Definition serialize_header (h : MessageHeader) (s : Stream) : Stream :=
  append (hash_codec 4) (mh_checksum h)
    (append u32_codec (mh_len h) (append command_codec (mh_command h) (append u32_codec (mh_magic h) s))).

Definition deserialize_header (data : bytes) (expected : Z) : outcome Error MessageHeader :=
  if negb (length data =? 24)%nat then Err Deserialize
  else
    '(magic, r) ← map_err of_reader_error (deserialize u32_codec (reader_new data));
    if negb (expected =? magic) then Err InvalidMagic
    else
      '(command, r) ← map_err of_reader_error (deserialize command_codec r);
      '(len, r) ← map_err of_reader_error (deserialize u32_codec r);
      '(sum, r) ← map_err of_reader_error (deserialize (hash_codec 4) r);
      Ok (mkMessageHeader magic command len sum).

Definition to_raw_message (magic : Z) (command payload : bytes) : bytes :=
  out (append_slice payload (serialize_header (for_data magic command payload) stream_default)).

Definition message_with_flags {T} (p : Payload T) (magic version : Z) (payload : T) (serialization_flags : Z)
    : outcome Error bytes :=
  serialized ← serialize_payload_with_flags p payload version serialization_flags;
  command ← command_from (payload_command p);
  Ok (to_raw_message magic command serialized).

Definition message_new {T} (p : Payload T) (magic version : Z) (payload : T) : outcome Error bytes :=
  message_with_flags p magic version payload 0.

End frames.

End Message.
