(* ===== verification/MessageSpec.v ===== *)
(** Laws of the peer-to-peer messages (Message.v): strings are valid UTF-8, every
    payload type reads back what it wrote at a protocol version, and refuses what it
    does not know. *)
From Stdlib Require Import ZArith Lia Strings.Byte Strings.String.
From stdpp Require Import base decidable numbers list.
From S2P Require Import Prelude Crypto Serialization Codec Chain ChainHash Message.

Local Open Scope Z_scope.

Module MessageSpec.
Import Ser Derive Chain Utf8 Message.

(** * UTF-8 *)

(** One character, the bytes of it. *)
Definition is_char (c : bytes) : Prop :=
  exists first rest, c = first :: rest /\ next_char first rest = (length c, true).

Lemma following_le expected bs : (following expected bs <= length expected)%nat.
Proof.
  revert bs. induction expected as [|p e IH]; intros [|b bs]; cbn; try lia.
  destruct (p b); [|lia]. specialize (IH bs). lia.
Qed.

Lemma following_app expected bs more :
  following expected bs = length expected -> following expected (bs ++ more) = length expected.
Proof.
  revert bs. induction expected as [|p e IH]; intros [|b bs]; cbn; try done.
  destruct (p b); [|done]. intros [= Hf]. by rewrite IH.
Qed.

Lemma following_take expected bs :
  following expected (take (following expected bs) bs) = following expected bs /\
  length (take (following expected bs) bs) = following expected bs.
Proof.
  revert bs. induction expected as [|p e IH]; intros [|b bs]; cbn; try done.
  destruct (p b) eqn:Hp; cbn; [|done]. rewrite Hp. destruct (IH bs) as [-> ->]. done.
Qed.

Lemma is_char_app first rest more :
  is_char (first :: rest) -> next_char first (rest ++ more) = (length (first :: rest), true).
Proof.
  intros (f & r & [= <- <-] & Hn). unfold next_char in *. destruct (continuation first) as [e|]; [|done].
  injection Hn as Hn Hf. apply Nat.eqb_eq in Hf. rewrite following_app by done.
  rewrite Nat.eqb_refl. cbn. by rewrite <- Hn, Hf.
Qed.

Lemma next_char_take first rest n :
  next_char first rest = (n, true) -> is_char (take n (first :: rest)).
Proof.
  unfold next_char. destruct (continuation first) as [e|] eqn:He; [|done]. intros [= <- Hf].
  exists first, (take (following e rest) rest). split; [done|]. unfold next_char. rewrite He.
  destruct (following_take e rest) as [Hft Hlt]. rewrite Hft, Hf. cbn. by rewrite Hlt.
Qed.

Lemma next_char_pos first rest : (0 < (next_char first rest).1)%nat.
Proof. unfold next_char. destruct (continuation first); cbn; lia. Qed.

Lemma valid_loop_char c fuel bs :
  is_char c -> (length (c ++ bs) <= fuel)%nat -> valid_loop fuel (c ++ bs) = valid_loop (fuel - 1) bs.
Proof.
  intros Hc Hl. pose proof Hc as (first & rest & -> & _). destruct fuel as [|fuel]; [cbn in Hl; lia|].
  cbn [app valid_loop]. rewrite is_char_app by done. cbn [andb].
  change (first :: rest ++ bs) with ((first :: rest) ++ bs).
  rewrite drop_app_length. by rewrite Nat.sub_1_r.
Qed.

(** Enough fuel decides validity. *)
Lemma valid_loop_fuel fuel fuel' bs :
  (length bs <= fuel)%nat -> (length bs <= fuel')%nat -> valid_loop fuel bs = valid_loop fuel' bs.
Proof.
  revert fuel' bs. induction fuel as [|fuel IH]; intros fuel' [|first rest] Hl Hl'.
  - by destruct fuel'.
  - cbn in Hl. lia.
  - by destruct fuel'.
  - destruct fuel' as [|fuel']; [cbn in Hl'; lia|]. cbn [valid_loop].
    pose proof (next_char_pos first rest) as Hn. destruct (next_char first rest) as [n ok]. cbn in Hn.
    f_equal. apply IH; rewrite length_drop; cbn in *; lia.
Qed.

Lemma valid_char_app c bs : is_char c -> valid_utf8 bs = true -> valid_utf8 (c ++ bs) = true.
Proof.
  intros Hc Hb. unfold valid_utf8 in *. rewrite valid_loop_char by done.
  rewrite (valid_loop_fuel _ (length bs)); [done| |done].
  destruct Hc as (f & r & -> & _). rewrite length_app. cbn. lia.
Qed.

Lemma lossy_loop_valid fuel bs : valid_utf8 (lossy_loop fuel bs) = true.
Proof.
  revert bs. induction fuel as [|fuel IH]; intros [|first rest]; try done. cbn [lossy_loop].
  destruct (next_char first rest) as [n ok] eqn:Hn. destruct ok; apply valid_char_app; try apply IH.
  - by apply next_char_take.
  - exists xef, [xbf; xbd]. done.
Qed.

Lemma lossy_loop_id fuel bs : (length bs <= fuel)%nat -> valid_loop fuel bs = true -> lossy_loop fuel bs = bs.
Proof.
  revert bs. induction fuel as [|fuel IH]; intros [|first rest] Hl Hv; try done; [cbn in Hl; lia|].
  cbn [lossy_loop valid_loop] in *. pose proof (next_char_pos first rest) as Hn.
  destruct (next_char first rest) as [n ok]. apply andb_true_iff in Hv as [-> Hv]. cbn in Hn.
  rewrite IH; [apply take_drop| |done]. rewrite length_drop. cbn in *. lia.
Qed.

Lemma from_utf8_lossy_id bs : valid_utf8 bs = true -> from_utf8_lossy bs = bs.
Proof. intros Hv. by apply lossy_loop_id. Qed.

(** A string read from the wire is valid UTF-8 whatever bytes were sent, and
    valid UTF-8 is read unchanged. *)
Theorem string_is_utf8 bs :
  valid_utf8 (from_utf8_lossy bs) = true /\ (valid_utf8 bs = true <-> from_utf8_lossy bs = bs).
Proof.
  split; [apply lossy_loop_valid|]. split; [apply from_utf8_lossy_id|]. intros <-. apply lossy_loop_valid.
Qed.

(** * Encodings *)

#[global] Instance string_laws :
  CodecLaws string_codec (fun _ b => valid_utf8 b = true /\ zlen b <= isize_max) same.
Proof.
  split.
  - intros x s. exact (serialize_append (c := bytes_codec) x s).
  - intros f b r rest [Hv Hb] Hp. cbn [deserialize string_codec].
    destruct (@deserialize_serialize _ bytes_codec _ _ bytes_codec_laws f b r rest Hb Hp) as (r' & -> & Hr).
    exists r'. by rewrite ok_bind, from_utf8_lossy_id.
  - intros r x r' Hd. cbn [deserialize string_codec] in Hd. apply bind_Ok in Hd as ([b r1] & Hd & Hr).
    injection Hr as _ <-. by apply (deserialize_progress (c := bytes_codec)) in Hd.
  - intros r. cbn [deserialize string_codec].
    apply bind_terminates; [apply (deserialize_terminates (c := bytes_codec))|]. by intros [b r1] _.
Qed.

#[global] Instance u16_be_laws : CodecLaws u16_be_codec (fun _ z => uint 16 z) same.
Proof.
  split.
  - done.
  - intros f z r rest Hz Hp. destruct (read_slice_app 2 r _ _ Hp) as (r' & Hr & Hp').
    { change (to_bytes_with_flags _ _ _) with (rev (le_bytes 2 z)). by rewrite length_rev, length_le_bytes. }
    exists r'. cbn [deserialize u16_be_codec]. rewrite Hr, ok_bind.
    change (to_bytes_with_flags _ _ _) with (rev (le_bytes 2 z)).
    by rewrite rev_involutive, le_value_le_bytes_id.
  - intros r x r' Hd. cbn [deserialize u16_be_codec] in Hd.
    apply bind_Ok in Hd as ([bs r1] & Hr & Hd). injection Hd as _ <-. by eapply read_slice_progress; [|exact Hr].
  - intros r. cbn [deserialize u16_be_codec]. pose proof (read_slice_returns 2 r ltac:(lia)) as Hr.
    by destruct (read_slice _ r) as [[]| | |].
Qed.

Definition wf_ip (ip : IpAddress) : Prop :=
  match ip with
  | V4 octets => length octets = 4%nat
  | V6 segments => length segments = 8%nat /\ Forall (uint 16) segments
  end.

(** An address with twelve leading zero bytes is read as the IPv4 address of its last
    four. *)
Definition read_ip (ip : IpAddress) : IpAddress :=
  match ip with
  | V4 octets => V4 octets
  | V6 segments =>
      if bool_decide (take 6 segments = replicate 6 0)
      then V4 (concat (map (fun z => rev (le_bytes 2 z)) (drop 6 segments))) else V6 segments
  end.

Lemma u16_be_zero z : uint 16 z -> rev (le_bytes 2 z) = [x00; x00] -> z = 0.
Proof.
  intros Hz He. apply (f_equal (@rev byte)) in He. rewrite rev_involutive in He.
  rewrite <- (le_value_le_bytes_id 2 z Hz), He. done.
Qed.

Lemma ip_bytes f ip :
  to_bytes_with_flags ip_codec f ip =
  match ip with V4 octets => replicate 12 x00 ++ octets | V6 segments => items_bytes u16_be_codec f segments end.
Proof.
  destruct ip as [o|segs]; [done|]. unfold to_bytes_with_flags, out, append. cbn [serialize ip_codec].
  rewrite (append_items u16_be_codec (fun _ z => uint 16 z) same). done.
Qed.

Lemma items_app {A} (c : Codec A) f t t' : items_bytes c f (t ++ t') = items_bytes c f t ++ items_bytes c f t'.
Proof. unfold items_bytes. by rewrite map_app, concat_app. Qed.

Lemma u16_be_items_zero f t :
  Forall (uint 16) t -> items_bytes u16_be_codec f t = replicate (2 * length t) x00 -> t = replicate (length t) 0.
Proof.
  induction 1 as [|z t Hz Ht IH]; [done|]. cbn [length]. replace (2 * S (length t))%nat with (2 + 2 * length t)%nat by lia.
  rewrite replicate_add. intros He. apply app_inj_1 in He as [Hh Htl]; [|done].
  cbn [replicate]. f_equal; [by apply u16_be_zero|by apply IH].
Qed.

(** Reading consecutive segments. *)
Lemma read_segment f z t r rest :
  uint 16 z -> pending r = items_bytes u16_be_codec f (z :: t) ++ rest ->
  exists r', deserialize u16_be_codec r = Ok (z, r') /\ pending r' = items_bytes u16_be_codec f t ++ rest.
Proof.
  intros Hz Hp. unfold items_bytes in Hp. cbn [map concat] in Hp. rewrite <- app_assoc in Hp.
  exact (@deserialize_serialize _ u16_be_codec _ _ u16_be_laws f z r _ Hz Hp).
Qed.

Lemma read_zero_ip f segs r rest :
  length segs = 8%nat -> take 6 segs = replicate 6 0 ->
  pending r = items_bytes u16_be_codec f (take 6 segs) ++ items_bytes u16_be_codec f (drop 6 segs) ++ rest ->
  exists r', deserialize ip_codec r = Ok (V4 (concat (map (fun z => rev (le_bytes 2 z)) (drop 6 segs))), r') /\
    pending r' = rest.
Proof.
  intros Hl Hz Hp. rewrite Hz in Hp. cbn [deserialize ip_codec].
  destruct (read_slice_app 12 r _ _ Hp) as (r1 & -> & Hp1); [done|]. rewrite ok_bind, bool_decide_eq_true_2 by done.
  destruct segs as [|s0 [|s1 [|s2 [|s3 [|s4 [|s5 [|s6 [|s7 [|]]]]]]]]]; try discriminate Hl. cbn [drop] in *.
  destruct (read_slice_app 4 r1 _ _ Hp1) as (r2 & -> & Hp2); [done|]. by exists r2.
Qed.

Lemma ip_roundtrip f ip r rest :
  wf_ip ip -> pending r = to_bytes_with_flags ip_codec f ip ++ rest ->
  exists r', deserialize ip_codec r = Ok (read_ip ip, r') /\ pending r' = rest.
Proof.
  rewrite ip_bytes. destruct ip as [o|segs]; cbn [wf_ip read_ip deserialize ip_codec].
  - intros Ho Hp. rewrite <- app_assoc in Hp. destruct (read_slice_app 12 r _ _ Hp) as (r1 & -> & Hp1); [done|].
    rewrite ok_bind, bool_decide_eq_true_2 by done.
    destruct (read_slice_app 4 r1 o rest Hp1) as (r2 & -> & Hp2); [lia|]. by exists r2.
  - intros (Hl & Hu) Hp. rewrite <- (take_drop 6 segs), items_app, <- app_assoc in Hp.
    case_bool_decide as Hnz; [by apply (read_zero_ip f)|].
    destruct segs as [|s0 [|s1 [|s2 [|s3 [|s4 [|s5 [|s6 [|s7 [|]]]]]]]]]; try discriminate Hl.
    cbn [take drop] in *. repeat match goal with HF : Forall _ (_ :: _) |- _ => inversion HF as [|? ? ?U HF']; clear HF; subst; rename HF' into Hu end.
    destruct (read_slice_app 12 r _ _ Hp) as (r1 & -> & Hp1); [done|]. rewrite ok_bind.
    rewrite bool_decide_eq_false_2.
    2:{ intros He. apply Hnz. apply (u16_be_items_zero f [s0; s1; s2; s3; s4; s5]); [|exact He].
        repeat (apply Forall_cons; split; [done|]). by apply Forall_nil. }
    destruct (read_segment f s0 [s1; s2; s3; s4; s5] (reader_new (items_bytes u16_be_codec f [s0; s1; s2; s3; s4; s5])) [] U)
      as (b1 & -> & B1); [by rewrite app_nil_r|]. rewrite ok_bind.
    apply read_segment in B1 as (b2 & -> & B2); [|done]. rewrite ok_bind.
    apply read_segment in B2 as (b3 & -> & B3); [|done]. rewrite ok_bind.
    apply read_segment in B3 as (b4 & -> & B4); [|done]. rewrite ok_bind.
    apply read_segment in B4 as (b5 & -> & B5); [|done]. rewrite ok_bind.
    apply read_segment in B5 as (b6 & -> & B6); [|done]. rewrite ok_bind.
    apply read_segment in Hp1 as (r2 & -> & Hp2); [|done]. rewrite ok_bind.
    apply read_segment in Hp2 as (r3 & -> & Hp3); [|done]. rewrite ok_bind. by exists r3.
Qed.

(** Reading part of a slice never brings bytes back. *)
Lemma read_slice_le n r bs r' : 0 <= n -> read_slice n r = Ok (bs, r') -> (length (pending r') <= length (pending r))%nat.
Proof.
  intros Hn Hr. destruct (read_slice_cases n r Hn) as [(bs' & r1 & H1 & Hp & _)|[H1 _]]; [|congruence].
  rewrite H1 in Hr. injection Hr as -> ->. rewrite Hp, length_app. lia.
Qed.

Ltac peel H := let x := fresh "x" in let r := fresh "r" in let Hx := fresh "Hx" in
  apply bind_Ok in H as ([x r] & Hx & H).

#[global] Instance ip_laws : CodecLaws ip_codec (fun _ ip => wf_ip ip) (fun _ => read_ip).
Proof.
  split.
  - intros [o|segs] s; rewrite ip_bytes; cbn [serialize ip_codec].
    + apply append_slice_app.
    + apply (append_items u16_be_codec (fun _ z => uint 16 z) same).
  - apply ip_roundtrip.
  - intros r ip r' Hd. cbn [deserialize ip_codec] in Hd. peel Hd. apply read_slice_progress in Hx; [|lia].
    case_bool_decide.
    + peel Hd. injection Hd as _ <-. apply read_slice_le in Hx0; lia.
    + do 8 peel Hd. injection Hd as _ <-. apply (deserialize_progress (c := u16_be_codec)) in Hx6, Hx7. lia.
  - intros r. cbn [deserialize ip_codec]. pose proof (read_slice_returns 12 r ltac:(lia)) as Hr.
    destruct (read_slice 12 r) as [[bs r1]| | |]; try done. rewrite ok_bind. case_bool_decide.
    + pose proof (read_slice_returns 4 r1 ltac:(lia)) as Hr1. by destruct (read_slice 4 r1) as [[]| | |].
    + repeat (apply bind_terminates; [apply (deserialize_terminates (c := u16_be_codec))|intros [] _]). done.
Qed.

#[global] Instance list_max_laws {A} (c : Codec A) wf norm max `{!CodecLaws c wf norm} :
  CodecLaws (list_max_codec c max)
    (fun flags t => Forall (wf flags) t /\ zlen t <= max /\ uint 64 (zlen t) /\ zlen t * size_of c <= isize_max)
    (fun flags t => map (norm flags) t).
Proof.
  split.
  - exact (serialize_append (c := list_codec c)).
  - intros f t r rest (Ht & Hm & Hu & Hc) Hp. cbn [deserialize list_max_codec]. unfold read_list_max.
    change (to_bytes_with_flags _ f t) with (to_bytes_with_flags (list_codec c) f t) in Hp.
    destruct (@deserialize_serialize _ (list_codec c) _ _ (list_codec_laws c wf norm) f t r rest) as (r' & Hd & Hr); [done..|].
    exists r'. split; [|done]. rewrite <- Hd. cbn [deserialize list_codec]. unfold read_list, read_list_of.
    unfold to_bytes_with_flags, out, append in Hp. cbn [serialize list_codec] in Hp.
    rewrite (append_list_bytes c wf norm), to_bytes_append_slice, <- app_assoc in Hp.
    apply compact_deserialize in Hp as (r1 & -> & _); [|done]. rewrite !ok_bind.
    by rewrite (proj2 (Z.ltb_ge _ _)).
  - intros r t r' Hd. cbn [deserialize list_max_codec] in Hd. unfold read_list_max in Hd.
    peel Hd. destruct (max <? x); [discriminate Hd|]. apply bind_Ok in Hd as (_ & _ & Hd).
    apply compact_progress in Hx. apply (read_items_progress c wf norm) in Hd. lia.
  - intros r. cbn [deserialize list_max_codec]. unfold read_list_max.
    apply bind_terminates; [apply (deserialize_terminates (c := compact_integer_codec))|]. intros [len r1] _.
    destruct (max <? len); [done|]. apply bind_terminates; [apply with_capacity_terminates|]. intros _ _.
    apply (read_items_terminates c wf norm). lia.
Qed.

Lemma enum_laws {A} (c : Codec Z) wf (to : A -> Z) (from : Z -> option A) :
  CodecLaws c wf same -> (forall x, from (to x) = Some x) -> (forall f x, wf f (to x)) ->
  CodecLaws (enum_codec c to from) (fun _ _ => True) same.
Proof.
  intros Hc Hft Hwf. split.
  - intros x s. exact (serialize_append (c := c) (to x) s).
  - intros f x r rest _ Hp. cbn [deserialize enum_codec].
    destruct (deserialize_serialize (c := c) f (to x) r rest (Hwf f x) Hp) as (r' & -> & Hr).
    rewrite ok_bind, Hft. by exists r'.
  - intros r x r' Hd. cbn [deserialize enum_codec] in Hd. peel Hd. apply bind_Ok in Hd as (y & _ & Hd).
    injection Hd as _ <-. by apply (deserialize_progress (c := c)) in Hx.
  - intros r. cbn [deserialize enum_codec]. apply bind_terminates; [apply (deserialize_terminates (c := c))|].
    intros [t r1] _. apply bind_terminates; [by destruct (from t)|done].
Qed.

#[global] Instance inventory_type_laws : CodecLaws inventory_type_codec (fun _ _ => True) same.
Proof. eapply enum_laws; [apply (uint_codec_laws 3)|by intros []|]. intros f []; by apply is_uint_spec. Qed.
#[global] Instance filter_flags_laws : CodecLaws filter_flags_codec (fun _ _ => True) same.
Proof. eapply enum_laws; [apply (uint_codec_laws 0)|by intros []|]. intros f []; by apply is_uint_spec. Qed.
#[global] Instance reject_code_laws : CodecLaws reject_code_codec (fun _ _ => True) same.
Proof. eapply enum_laws; [apply (uint_codec_laws 0)|by intros []|]. intros f []; by apply is_uint_spec. Qed.

#[global] Instance header_with_txn_count_laws :
  CodecLaws header_with_txn_count_codec (fun _ h => wf_header h) same.
Proof.
  assert (forall f h, to_bytes_with_flags header_with_txn_count_codec f h =
    to_bytes_with_flags (fields header_codec compact_integer_codec) f (h, 0)) as Hb by done.
  split.
  - intros h s. rewrite Hb. exact (serialize_append (c := fields header_codec compact_integer_codec) (h, 0) s).
  - intros f h r rest Hh Hp. cbn [deserialize header_with_txn_count_codec].
    rewrite Hb, (fields_bytes _ _ (fun _ h => wf_header h) same (fun _ i => uint 64 i) same), <- app_assoc in Hp.
    destruct (@deserialize_serialize _ _ _ _ header_laws f h r _ Hh Hp) as (r1 & -> & Hp1). rewrite ok_bind.
    destruct (@deserialize_serialize _ _ _ _ compact_integer_laws f 0 r1 rest) as (r2 & -> & Hp2); [by apply is_uint_spec|done|].
    by exists r2.
  - intros r h r' Hd. cbn [deserialize header_with_txn_count_codec] in Hd. do 2 peel Hd.
    destruct (negb _); [discriminate Hd|]. injection Hd as _ <-.
    apply (deserialize_progress (c := header_codec)) in Hx. apply compact_progress in Hx0. lia.
  - intros r. cbn [deserialize header_with_txn_count_codec].
    apply bind_terminates; [apply (deserialize_terminates (c := header_codec))|]. intros [h r1] _.
    apply bind_terminates; [apply (deserialize_terminates (c := compact_integer_codec))|]. intros [n r2] _.
    by destruct (negb _).
Qed.

#[global] Instance bool_laws : CodecLaws bool_codec (fun _ _ => True) same.
Proof.
  assert (forall f b, to_bytes_with_flags bool_codec f b = to_bytes_with_flags u8_codec f (Z.b2z b)) as Hb by (by intros f []).
  split.
  - done.
  - intros f b r rest _ Hp. rewrite Hb in Hp. cbn [deserialize bool_codec].
    destruct (@deserialize_serialize _ _ _ _ (uint_codec_laws 0) f (Z.b2z b) r rest) as (r' & Hd & Hr);
      [by destruct b; apply is_uint_spec|done|].
    unfold u8_codec. rewrite Hd, ok_bind. exists r'. by destruct b.
  - intros r b r' Hd. cbn [deserialize bool_codec] in Hd. peel Hd. apply (deserialize_progress (c := uint_codec 1)) in Hx.
    destruct (x =? 0); [by injection Hd as _ <-|]. destruct (x =? 1); [by injection Hd as _ <-|discriminate Hd].
  - intros r. cbn [deserialize bool_codec]. apply bind_terminates; [apply (deserialize_terminates (c := uint_codec 1))|].
    intros [v r1] _. by destruct (v =? 0), (v =? 1).
Qed.

(** * Structures *)

(** A vector of [size]-byte items. *)
Definition wf_list {A} (wf : A -> Prop) (size : Z) (t : list A) : Prop :=
  Forall wf t /\ uint 64 (zlen t) /\ zlen t * size <= isize_max.

Definition wf_hash (h : bytes) : Prop := length h = 32%nat.
Definition wf_string (b : bytes) : Prop := valid_utf8 b = true /\ zlen b <= isize_max.
Definition wf_net_address (a : NetAddress) : Prop :=
  uint 64 (services a) /\ wf_ip (address a) /\ uint 16 (port a).
Definition wf_entry (e : Addr.AddressEntry) : Prop :=
  uint 32 (Addr.timestamp e) /\ wf_net_address (Addr.entry_address e).
Definition wf_inventory (v : InventoryVector) : Prop := wf_hash (inv_hash v).
Definition wf_prefilled (p : PrefilledTransaction) : Prop :=
  uint 64 (prefilled_index p) /\ wf_tx (prefilled_transaction p).
Definition wf_header_and_ids (b : BlockHeaderAndIDs) : Prop :=
  wf_header (ids_header b) /\ uint 64 (ids_nonce b) /\ wf_list (fun h => length h = 6%nat) 6 (short_ids b) /\
  wf_list wf_prefilled 64 (prefilled_transactions b).
Definition wf_block_transactions (b : BlockTransactions) : Prop :=
  wf_hash (bt_blockhash b) /\ wf_list wf_tx 56 (bt_transactions b).
Definition wf_request (b : BlockTransactionsRequest) : Prop :=
  wf_hash (btr_blockhash b) /\ wf_list (uint 64) 8 (indexes b).
Definition wf_locator (max : Z) (l : Locator) : Prop :=
  uint 32 (loc_version l) /\ wf_list wf_hash 32 (block_locator_hashes l) /\
  zlen (block_locator_hashes l) <= max /\ wf_hash (hash_stop l).
Definition wf_filterload (m : FilterLoad) : Prop :=
  zlen (fl_filter m) <= isize_max /\ uint 32 (fl_hash_functions m) /\ uint 32 (fl_tweak m).
Definition wf_merkle_block (m : MerkleBlock) : Prop :=
  wf_header (mb_block_header m) /\ uint 32 (total_transactions m) /\ wf_list wf_hash 32 (mb_hashes m) /\
  zlen (mb_flags m) <= isize_max.
Definition wf_reject (m : Reject) : Prop := wf_string (rj_message m) /\ wf_string (rj_reason m).
Definition wf_v0 (v : Version.V0) : Prop :=
  uint 32 (Version.v0_version v) /\ uint 64 (Version.v0_services v) /\ sint 64 (Version.v0_timestamp v) /\
  wf_net_address (Version.receiver v).
Definition wf_v106 (v : Version.V106) : Prop :=
  wf_net_address (Version.from v) /\ uint 64 (Version.v106_nonce v) /\ wf_string (Version.v106_user_agent v) /\
  sint 32 (Version.start_height v).

(** What the addresses inside become. *)
Definition read_net_address (a : NetAddress) : NetAddress := mkNetAddress (services a) (read_ip (address a)) (port a).
Definition read_entry (e : Addr.AddressEntry) : Addr.AddressEntry :=
  Addr.mkEntry (Addr.timestamp e) (read_net_address (Addr.entry_address e)).
Definition read_v0 (v : Version.V0) : Version.V0 :=
  Version.mkV0 (Version.v0_version v) (Version.v0_services v) (Version.v0_timestamp v) (read_net_address (Version.receiver v)).
Definition read_v106 (v : Version.V106) : Version.V106 :=
  Version.mkV106 (read_net_address (Version.from v)) (Version.v106_nonce v) (Version.v106_user_agent v)
    (Version.start_height v).

(** Transactions inside lose their witness data in a stream without its flag. *)
Definition kept_prefilled (f : Z) (p : PrefilledTransaction) : PrefilledTransaction :=
  mkPrefilled (prefilled_index p) (kept f (prefilled_transaction p)).
Definition kept_header_and_ids (f : Z) (b : BlockHeaderAndIDs) : BlockHeaderAndIDs :=
  mkHeaderAndIDs (ids_header b) (ids_nonce b) (short_ids b) (map (kept_prefilled f) (prefilled_transactions b)).
Definition kept_block_transactions (f : Z) (b : BlockTransactions) : BlockTransactions :=
  mkBlockTransactions (bt_blockhash b) (map (kept f) (bt_transactions b)).

Ltac struct_codec :=
  eapply codec_laws_impl;
  [apply struct_laws; repeat (apply fields_laws; [apply _|]); apply _
  |intros f x; unfold wf_list, wf_hash, wf_string in *; cbn; tauto
  |intros f [] _; cbn; rewrite ?map_same; try done].

#[global] Instance net_address_laws : CodecLaws net_address_codec (fun _ a => wf_net_address a) (fun _ => read_net_address).
Proof. unfold net_address_codec, services_codec, port_codec, u64_codec, wf_net_address. struct_codec. Qed.
#[global] Instance entry_laws : CodecLaws Addr.entry_codec (fun _ e => wf_entry e) (fun _ => read_entry).
Proof. unfold Addr.entry_codec, u32_codec, wf_entry. struct_codec. Qed.
#[global] Instance inventory_laws : CodecLaws inventory_codec (fun _ v => wf_inventory v) same.
Proof. unfold inventory_codec, wf_inventory. struct_codec. Qed.
#[global] Instance prefilled_laws : CodecLaws prefilled_codec (fun _ p => wf_prefilled p) kept_prefilled.
Proof. unfold prefilled_codec, wf_prefilled. struct_codec. Qed.
#[global] Instance header_and_ids_laws :
  CodecLaws header_and_ids_codec (fun _ b => wf_header_and_ids b) kept_header_and_ids.
Proof. unfold header_and_ids_codec, u64_codec, wf_header_and_ids. struct_codec. Qed.
#[global] Instance block_transactions_laws :
  CodecLaws block_transactions_codec (fun _ b => wf_block_transactions b) kept_block_transactions.
Proof. unfold block_transactions_codec, wf_block_transactions. struct_codec. Qed.
#[global] Instance block_transactions_request_laws :
  CodecLaws block_transactions_request_codec (fun _ b => wf_request b) same.
Proof. unfold block_transactions_request_codec, wf_request. struct_codec. Qed.
#[global] Instance locator_laws max : CodecLaws (locator_codec max) (fun _ l => wf_locator max l) same.
Proof. unfold locator_codec, u32_codec, wf_locator. struct_codec. Qed.
#[global] Instance filterload_laws : CodecLaws filterload_codec (fun _ m => wf_filterload m) same.
Proof. unfold filterload_codec, u32_codec, wf_filterload. struct_codec. Qed.
#[global] Instance merkle_block_laws : CodecLaws merkle_block_codec (fun _ m => wf_merkle_block m) same.
Proof. unfold merkle_block_codec, u32_codec, wf_merkle_block. struct_codec. Qed.
#[global] Instance reject_laws : CodecLaws reject_codec (fun _ m => wf_reject m) same.
Proof. unfold reject_codec, wf_reject. struct_codec. Qed.
#[global] Instance sendcompact_laws : CodecLaws sendcompact_codec (fun _ m => uint 64 (second m)) same.
Proof. unfold sendcompact_codec, u64_codec. struct_codec. Qed.
#[global] Instance v0_laws : CodecLaws Version.v0_codec (fun _ v => wf_v0 v) (fun _ => read_v0).
Proof. unfold Version.v0_codec, services_codec, u32_codec, u64_codec, i64_codec, wf_v0. struct_codec. Qed.
#[global] Instance v106_laws : CodecLaws Version.v106_codec (fun _ v => wf_v106 v) (fun _ => read_v106).
Proof. unfold Version.v106_codec, u64_codec, i32_codec, wf_v106. struct_codec. Qed.
#[global] Instance v70001_laws : CodecLaws Version.v70001_codec (fun _ _ => True) same.
Proof. unfold Version.v70001_codec. struct_codec. Qed.

(** * Payloads *)

(** At version [v] the payload [t] is written as some bytes from which [norm f v t]
    is read back. *)
Class PayloadLaws {T} (p : Payload T) (wf : Z -> Z -> T -> Prop) (norm : Z -> Z -> T -> T) :=
  payload_law f v t :
    wf f v t ->
    exists bs, serialize_payload_to p t (with_flags f) v = Ok (mkStream bs f) /\
      forall r rest, pending r = bs ++ rest ->
        exists r', deserialize_payload_from p v r = Ok (norm f v t, r') /\ pending r' = rest.

Abbreviation sameV := (fun (_ _ : Z) x => x).

Lemma plain_payload_laws {T} version command (c : Codec T) wf norm `{!CodecLaws c wf norm} :
  PayloadLaws (plain_payload version command c) (fun f _ t => wf f t) (fun f _ t => norm f t).
Proof.
  intros f v t Ht. exists (to_bytes_with_flags c f t). split.
  - cbn. f_equal. rewrite serialize_append. done.
  - intros r rest Hp. cbn. destruct (deserialize_serialize f t r rest Ht Hp) as (r' & -> & Hr). by exists r'.
Qed.

#[global] Instance unit_payload_laws version command :
  PayloadLaws (unit_payload version command) (fun _ _ _ => True) sameV.
Proof. intros f v []. exists []. split; [done|]. intros r rest Hp. by exists r. Qed.

(** An [addr] of timestamped entries written for an old peer loses the timestamps. *)
Definition wf_addr (v : Z) (a : Addr.Addr) : Prop :=
  match a with
  | Addr.V0 l => v < 31402 /\ wf_list wf_net_address 32 l /\ zlen l <= 1000
  | Addr.V31402 l => wf_list wf_entry 40 l /\ zlen l <= 1000
  end.
Definition sent_addr (v : Z) (a : Addr.Addr) : Addr.Addr :=
  match a with
  | Addr.V31402 l =>
      if v <? 31402 then Addr.V0 (map read_net_address (map Addr.entry_address l))
      else Addr.V31402 (map read_entry l)
  | Addr.V0 l => Addr.V0 (map read_net_address l)
  end.

Lemma v0_list_read l f r rest :
  wf_list wf_net_address 32 l -> zlen l <= 1000 ->
  pending r = to_bytes_with_flags Addr.v0_codec f l ++ rest ->
  exists r', deserialize Addr.v0_codec r = Ok (map read_net_address l, r') /\ pending r' = rest.
Proof.
  intros (H1 & H2 & H3) Hm Hp.
  destruct (@deserialize_serialize _ _ _ _ (list_max_laws net_address_codec _ _ 1000) f l r rest
    (conj H1 (conj Hm (conj H2 H3))) Hp) as (r' & Hd & Hr).
  exists r'. unfold Addr.v0_codec. by rewrite Hd.
Qed.

#[global] Instance addr_payload_laws :
  PayloadLaws Addr.addr_payload (fun _ v a => wf_addr v a) (fun _ v a => sent_addr v a).
Proof.
  intros f v [l|l]; cbn [wf_addr sent_addr Addr.addr_payload serialize_payload_to deserialize_payload_from].
  - intros (Hv & Hl & Hm). exists (to_bytes_with_flags Addr.v0_codec f l). split.
    { f_equal. exact (@serialize_append _ _ _ _ (list_max_laws net_address_codec _ _ 1000) l (with_flags f)). }
    intros r rest Hp. rewrite (proj2 (Z.ltb_lt _ _) Hv).
    destruct (v0_list_read l f r rest Hl Hm Hp) as (r' & -> & Hr). by exists r'.
  - intros [(H1 & H2 & H3) Hm]. destruct (v <? 31402).
    + exists (to_bytes_with_flags Addr.v0_codec f (map Addr.entry_address l)). split.
      { f_equal. exact (@serialize_append _ _ _ _ (list_max_laws net_address_codec _ _ 1000) _ (with_flags f)). }
      intros r rest Hp. destruct (v0_list_read (map Addr.entry_address l) f r rest) as (r' & -> & Hr);
        [|by rewrite length_map|done|by exists r'].
      unfold wf_list. rewrite length_map, Forall_map. split_and!; [|done|lia].
      eapply Forall_impl; [exact H1|]. by intros e [_ He].
    + exists (to_bytes_with_flags Addr.v31402_codec f l). split.
      { f_equal. exact (@serialize_append _ _ _ _ (list_max_laws Addr.entry_codec _ _ 1000) l (with_flags f)). }
      intros r rest Hp.
      destruct (@deserialize_serialize _ _ _ _ (list_max_laws Addr.entry_codec _ _ 1000) f l r rest
        (conj H1 (conj Hm (conj H2 H3))) Hp) as (r' & Hd & Hr).
      unfold Addr.v31402_codec. rewrite Hd. by exists r'.
Qed.

(** The constructor must be the one the version number announces. *)
Definition wf_version (x : Version.Version) : Prop :=
  match x with
  | Version.IsV0 s => wf_v0 s /\ Version.v0_version s < 106
  | Version.IsV106 s v => wf_v0 s /\ wf_v106 v /\ 106 <= Version.v0_version s < 70001
  | Version.IsV70001 s v _ => wf_v0 s /\ wf_v106 v /\ 70001 <= Version.v0_version s
  end.

Definition read_version (x : Version.Version) : Version.Version :=
  match x with
  | Version.IsV0 s => Version.IsV0 (read_v0 s)
  | Version.IsV106 s v => Version.IsV106 (read_v0 s) (read_v106 v)
  | Version.IsV70001 s v w => Version.IsV70001 (read_v0 s) (read_v106 v) w
  end.

#[global] Instance version_payload_laws :
  PayloadLaws Version.version_payload (fun _ _ x => wf_version x) (fun _ _ => read_version).
Proof.
  intros f v x Hx. unfold Version.version_payload.
  cbn [serialize_payload_to deserialize_payload_from]. unfold append.
  destruct x as [s|s w|s w y]; cbn [wf_version] in Hx.
  - destruct Hx as [Hs Hv]. exists (to_bytes_with_flags Version.v0_codec f s). rewrite serialize_append.
    split; [done|]. intros r rest Hp.
    destruct (@deserialize_serialize _ _ _ _ v0_laws f s r rest Hs Hp) as (r1 & -> & Hr1). cbn [map_err]. rewrite ok_bind.
    cbn [read_v0 Version.v0_version]. rewrite (proj2 (Z.ltb_lt _ _) Hv). by exists r1.
  - destruct Hx as (Hs & Hw & Hv).
    exists (to_bytes_with_flags Version.v0_codec f s ++ to_bytes_with_flags Version.v106_codec f w).
    rewrite (serialize_append (c := Version.v106_codec)), (serialize_append (c := Version.v0_codec)). split; [done|].
    intros r rest Hp. rewrite <- app_assoc in Hp.
    destruct (@deserialize_serialize _ _ _ _ v0_laws f s r _ Hs Hp) as (r1 & -> & Hr1). cbn [map_err]. rewrite ok_bind.
    cbn [read_v0 Version.v0_version]. rewrite (proj2 (Z.ltb_ge _ _)) by lia.
    destruct (@deserialize_serialize _ _ _ _ v106_laws f w r1 _ Hw Hr1) as (r2 & -> & Hr2). cbn [map_err]. rewrite ok_bind.
    rewrite (proj2 (Z.ltb_lt _ _)) by lia. by exists r2.
  - destruct Hx as (Hs & Hw & Hv).
    exists (to_bytes_with_flags Version.v0_codec f s ++ to_bytes_with_flags Version.v106_codec f w ++
            to_bytes_with_flags Version.v70001_codec f y).
    rewrite (serialize_append (c := Version.v70001_codec)), (serialize_append (c := Version.v106_codec)),
      (serialize_append (c := Version.v0_codec)). split; [by rewrite !append_slice_app|].
    intros r rest Hp. rewrite <- !app_assoc in Hp.
    destruct (@deserialize_serialize _ _ _ _ v0_laws f s r _ Hs Hp) as (r1 & -> & Hr1). cbn [map_err]. rewrite ok_bind.
    cbn [read_v0 Version.v0_version]. rewrite (proj2 (Z.ltb_ge _ _)) by lia.
    destruct (@deserialize_serialize _ _ _ _ v106_laws f w r1 _ Hw Hr1) as (r2 & -> & Hr2). cbn [map_err]. rewrite ok_bind.
    rewrite (proj2 (Z.ltb_ge _ _)) by lia.
    destruct (@deserialize_serialize _ _ _ _ v70001_laws f y r2 rest I Hr2) as (r3 & -> & Hr3). by exists r3.
Qed.

Lemma payload_laws_impl {T} (p : Payload T) wf norm (wf' : Z -> Z -> T -> Prop) (norm' : Z -> Z -> T -> T) :
  PayloadLaws p wf norm -> (forall f v t, wf' f v t -> wf f v t) ->
  (forall f v t, wf' f v t -> norm f v t = norm' f v t) -> PayloadLaws p wf' norm'.
Proof.
  intros Hp Hw Hn f v t Ht. destruct (Hp f v t (Hw f v t Ht)) as (bs & Hs & Hd). exists bs. split; [done|].
  by rewrite <- Hn.
Qed.

Definition wf_inventories (l : list InventoryVector) : Prop := wf_list wf_inventory 36 l /\ zlen l <= 50000.

Lemma inventories_laws version command :
  PayloadLaws (plain_payload version command (list_max_codec inventory_codec 50000)) (fun _ _ l => wf_inventories l) sameV.
Proof.
  eapply payload_laws_impl; [eapply plain_payload_laws, list_max_laws, inventory_laws| |].
  - intros f v l [(H1 & H2 & H3) H4]. done.
  - intros f v l _. apply map_same.
Qed.

Lemma headers_payload_laws : PayloadLaws headers_payload (fun _ _ l => wf_list wf_header 80 l) sameV.
Proof.
  eapply payload_laws_impl; [eapply plain_payload_laws, list_codec_laws, header_with_txn_count_laws| |].
  - intros f v l (H1 & H2 & H3). done.
  - intros f v l _. apply map_same.
Qed.

(** ** The message types *)

Record Registered := register {
  reg_type : Type;
  reg_payload : Payload reg_type;
  reg_wf : Z -> Z -> reg_type -> Prop;
  reg_norm : Z -> Z -> reg_type -> reg_type;
  reg_laws : PayloadLaws reg_payload reg_wf reg_norm;
}.

(** Every payload type of types/mod.rs. *)
Definition payloads : list Registered := [
  register _ Addr.addr_payload _ _ addr_payload_laws;
  register _ Version.version_payload _ _ version_payload_laws;
  register _ headers_payload _ _ headers_payload_laws;
  register _ getdata_payload _ _ (inventories_laws 0 (name "getdata"));
  register _ inv_payload _ _ (inventories_laws 0 (name "inv"));
  register _ notfound_payload _ _ (inventories_laws 0 (name "notfound"));
  register _ block_payload _ _ (plain_payload_laws _ _ _ _ _);
  register _ tx_payload _ _ (plain_payload_laws _ _ _ _ _);
  register _ blocktxn_payload _ _ (plain_payload_laws _ _ _ _ _);
  register _ compactblock_payload _ _ (plain_payload_laws _ _ _ _ _);
  register _ getblocktxn_payload _ _ (plain_payload_laws _ _ _ _ _);
  register _ feefilter_payload _ _ (plain_payload_laws 70013 (name "feefilter") (uint_codec 8) _ _);
  register _ ping_payload _ _ (plain_payload_laws 0 (name "ping") (uint_codec 8) _ _);
  register _ pong_payload _ _ (plain_payload_laws 0 (name "pong") (uint_codec 8) _ _);
  register _ filteradd_payload _ _ (plain_payload_laws _ _ _ _ _);
  register _ filterload_payload _ _ (plain_payload_laws _ _ _ _ _);
  register _ getblocks_payload _ _ (plain_payload_laws _ _ _ _ _);
  register _ getheaders_payload _ _ (plain_payload_laws _ _ _ _ _);
  register _ merkleblock_payload _ _ (plain_payload_laws _ _ _ _ _);
  register _ reject_payload _ _ (plain_payload_laws _ _ _ _ _);
  register _ sendcompact_payload _ _ (plain_payload_laws _ _ _ _ _);
  register _ filterclear_payload _ _ (unit_payload_laws _ _);
  register _ getaddr_payload _ _ (unit_payload_laws _ _);
  register _ mempool_payload _ _ (unit_payload_laws _ _);
  register _ sendheaders_payload _ _ (unit_payload_laws _ _);
  register _ verack_payload _ _ (unit_payload_laws _ _)
].

(** The commands tell the types apart, and all of them parse. *)
Lemma payload_commands :
  NoDup (map (fun m => payload_command (reg_payload m)) payloads) /\
  Forall (fun m => exists c, command_from_str (payload_command (reg_payload m)) = Ok c /\ length c = 12%nat /\
            command_eq_str c (payload_command (reg_payload m)) = true) payloads.
Proof.
  split; [apply (bool_decide_unpack _); vm_compute; exact I|].
  repeat (apply Forall_cons; split; [eexists; split; [vm_compute; reflexivity|done]|]). by apply Forall_nil.
Qed.

(** The types that can lose something on the way: addresses their timestamps or their
    family, transactions their witness data. *)
Definition lossy : list bytes :=
  [name "addr"; name "version"; name "block"; name "tx"; name "blocktxn"; name "cmpctblock"].

Lemma lossless_norm m f v t :
  m ∈ payloads -> payload_command (reg_payload m) ∉ lossy -> reg_norm m f v t = t.
Proof.
  intros Hm. revert t. revert m Hm. apply (Forall_forall (fun m => forall t : reg_type m,
    payload_command (reg_payload m) ∉ lossy -> reg_norm m f v t = t)).
  repeat (apply Forall_cons; split; [intros t Hl; first [reflexivity|exfalso; apply Hl; apply (bool_decide_unpack _); vm_compute; exact I]|]).
  by apply Forall_nil.
Qed.

Lemma deserialize_payload_of {T} (p : Payload T) wf norm `{!PayloadLaws p wf norm} f v t rest :
  payload_version p <= v -> wf f v t ->
  exists bs, serialize_payload_with_flags p t v f = Ok bs /\
    deserialize_payload p (bs ++ rest) v = if decide (rest = []) then Ok (norm f v t) else Err Deserialize.
Proof.
  intros Hv Ht. destruct (payload_law f v t Ht) as (bs & Hs & Hd). exists bs.
  unfold serialize_payload_with_flags, deserialize_payload. rewrite (proj2 (Z.ltb_ge _ _) Hv), Hs. split; [done|].
  destruct (Hd (reader_new (bs ++ rest)) rest eq_refl) as (r & -> & Hr). rewrite ok_bind.
  destruct (is_finished_spec r) as (r' & -> & _). cbn [map_err]. rewrite ok_bind, Hr.
  case_decide as Hrest.
  - by rewrite (bool_decide_eq_true_2 _ Hrest).
  - by rewrite (bool_decide_eq_false_2 _ Hrest).
Qed.

Lemma old_version {T} (p : Payload T) t buffer f v :
  v < payload_version p ->
  serialize_payload_with_flags p t v f = Err InvalidVersion /\ deserialize_payload p buffer v = Err InvalidVersion.
Proof.
  intros Hv. unfold serialize_payload_with_flags, deserialize_payload.
  by rewrite (proj2 (Z.ltb_lt _ _) Hv).
Qed.

End MessageSpec.
