(* ===== verification/P2pIo.v ===== *)
(** Reading messages from a connection (src/p2p/src/io: read_header.rs,
    read_payload.rs, read_message.rs, read_any_message.rs).  The byte source is the
    tokio-io package's; the futures are modelled by their results. *)
From Stdlib Require Import ZArith Lia Strings.Byte Strings.String.
From stdpp Require Import base decidable numbers list.
From S2P Require Import Prelude Crypto Serialization Codec Chain ChainHash Message MessageSpec.

Local Open Scope Z_scope.

(** * The tokio-io package *)

(** [io::read_exact]: [None] is the error of a stream that ends too early. *)
Class AsyncRead := {
  source : Type;
  io_read_exact : source -> Z -> option (bytes * source);
}.

(** What is left to be read, and that [io::read_exact] takes it from the front. *)
Class AsyncReadLaws (A : AsyncRead) := {
  contents : source -> bytes;
  read_exact_app s bs rest :
    contents s = bs ++ rest -> exists s', io_read_exact s (zlen bs) = Some (bs, s') /\ contents s' = rest;
  read_exact_short s n : zlen (contents s) < n -> io_read_exact s n = None;
}.

Module P2pIo.
Import Ser Message MessageSpec.

Section io.
Context `{Crypto} `{AsyncRead}.

(** The results of the futures: the source and a [MessageResult], or an I/O error. *)
Definition read_header (a : source) (magic : Z) : option (source * outcome Error MessageHeader) :=
  '(data, read) ← io_read_exact a 24;
  Some (read, deserialize_header data magic).

Definition read_payload {M} (p : Payload M) (a : source) (version len : Z) (sum : bytes)
    : option (source * outcome Error M) :=
  '(data, read) ← io_read_exact a len;
  if negb (bool_decide (checksum data = sum)) then Some (read, Err InvalidChecksum)
  else Some (read, deserialize_payload p data version).

Definition read_message {M} (p : Payload M) (a : source) (magic version : Z) : option (source * outcome Error M) :=
  '(read, header) ← read_header a magic;
  match header with
  | Ok header =>
      if negb (command_eq_str (mh_command header) (payload_command p)) then Some (read, Err InvalidCommand)
      else read_payload p read version (mh_len header) (mh_checksum header)
  | Err err => Some (read, Err err)
  | Panic => Some (read, Panic)
  | Diverge => Some (read, Diverge)
  end.

Definition read_any_message (a : source) (magic : Z) : option (outcome Error (bytes * bytes)) :=
  '(stream, header) ← read_header a magic;
  match header with
  | Ok header =>
      '(data, _) ← io_read_exact stream (mh_len header);
      if negb (bool_decide (checksum data = mh_checksum header)) then Some (Err InvalidChecksum)
      else Some (Ok (mh_command header, data))
  | Err err => Some (Err err)
  | Panic => Some Panic
  | Diverge => Some Diverge
  end.

End io.

(** * Headers *)

Section header.
Context `{CryptoLaws}.

Definition header_bytes (h : MessageHeader) : bytes :=
  le_bytes 4 (mh_magic h) ++ mh_command h ++ le_bytes 4 (mh_len h) ++ mh_checksum h.

Lemma to_raw_message_bytes magic command payload :
  to_raw_message magic command payload = header_bytes (for_data magic command payload) ++ payload.
Proof. unfold to_raw_message, header_bytes, for_data. cbn. by rewrite <- !app_assoc. Qed.

Definition wf_message_header (h : MessageHeader) : Prop :=
  uint 32 (mh_magic h) /\ length (mh_command h) = 12%nat /\ uint 32 (mh_len h) /\ length (mh_checksum h) = 4%nat.

Lemma length_header_bytes h : wf_message_header h -> length (header_bytes h) = 24%nat.
Proof. intros (_ & Hc & _ & Hs). unfold header_bytes. by rewrite !length_app, !length_le_bytes, Hc, Hs. Qed.

Lemma deserialize_header_bytes h expected :
  wf_message_header h ->
  deserialize_header (header_bytes h) expected = if expected =? mh_magic h then Ok h else Err InvalidMagic.
Proof.
  intros Hw. unfold deserialize_header. rewrite (length_header_bytes h Hw). cbn [Nat.eqb negb].
  destruct Hw as (Hm & Hc & Hl & Hs). unfold u32_codec, command_codec.
  destruct (@deserialize_serialize _ _ _ _ (uint_codec_laws 3) 0 (mh_magic h) (reader_new (header_bytes h))
    _ Hm eq_refl) as (r1 & -> & H1). cbn [map_err]. rewrite ok_bind. destruct (expected =? mh_magic h); cbn [negb]; [|done].
  destruct (@deserialize_serialize _ _ _ _ (hash_codec_laws 11) 0 (mh_command h) r1 _ Hc H1) as (r2 & -> & H2).
  cbn [map_err]. rewrite ok_bind.
  destruct (@deserialize_serialize _ _ _ _ (uint_codec_laws 3) 0 (mh_len h) r2 _ Hl H2) as (r3 & -> & H3).
  cbn [map_err]. rewrite ok_bind. rewrite <- (app_nil_r (mh_checksum h)) in H3.
  destruct (@deserialize_serialize _ _ _ _ (hash_codec_laws 3) 0 (mh_checksum h) r3 _ Hs H3) as (r4 & -> & H4).
  by destruct h.
Qed.

Lemma for_data_wf magic command data :
  uint 32 magic -> length command = 12%nat -> wf_message_header (for_data magic command data).
Proof.
  intros Hm Hc. split_and!; [done|done|by apply uint_wrap|]. cbn. apply length_checksum.
Qed.

End header.

(** * Theorems *)

Section frames.
Context `{CryptoLaws} `{AsyncReadLaws}.

(** What the readers do with a frame whose header announces a payload of the right
    length. *)
Lemma read_header_frame (s : source) h magic rest :
  wf_message_header h -> contents s = header_bytes h ++ rest ->
  exists s', read_header s magic = Some (s', if magic =? mh_magic h then Ok h else Err InvalidMagic) /\
    contents s' = rest.
Proof.
  intros Hw Hs. destruct (read_exact_app s (header_bytes h) rest Hs) as (s' & Hr & Hc).
  rewrite (length_header_bytes h Hw) in Hr. exists s'. split; [|done].
  unfold read_header. change (Z.of_nat 24) with 24 in Hr. rewrite Hr. cbn [mbind option_bind].
  by rewrite deserialize_header_bytes.
Qed.

Lemma read_message_frame {M} (p : Payload M) (s : source) h magic version data rest :
  wf_message_header h -> contents s = header_bytes h ++ data ++ rest -> mh_len h = zlen data ->
  exists s', read_message p s magic version = Some (s',
    if negb (magic =? mh_magic h) then Err InvalidMagic
    else if negb (command_eq_str (mh_command h) (payload_command p)) then Err InvalidCommand
    else if decide (checksum data = mh_checksum h) then deserialize_payload p data version
    else Err InvalidChecksum) /\
  (magic = mh_magic h -> command_eq_str (mh_command h) (payload_command p) = true -> contents s' = rest).
Proof.
  intros Hw Hs Hl. destruct (read_header_frame s h magic _ Hw Hs) as (s1 & Hh & Hc1).
  unfold read_message. rewrite Hh. cbn [mbind option_bind]. destruct (Z.eqb_spec magic (mh_magic h)) as [Hm|Hm]; cbn [negb].
  2:{ exists s1. done. }
  destruct (command_eq_str _ _) eqn:He; cbn [negb]; [|by exists s1].
  destruct (read_exact_app s1 data rest Hc1) as (s2 & Hr & Hc2). exists s2. split; [|done].
  unfold read_payload. rewrite Hl, Hr. cbn [mbind option_bind]. case_decide as Hd.
  - by rewrite bool_decide_eq_true_2.
  - by rewrite bool_decide_eq_false_2.
Qed.

(** C38: Every message type round-trips through a frame: what the node sends at a
    protocol version, a node reading the same network at the same version receives as
    [reg_norm] gives it, and what follows the frame stays in the stream.  [reg_norm]
    leaves a message of 20 of the 26 types as it is.  In [addr] and [version] an IPv6
    address whose first twelve bytes are zero becomes the IPv4 address of its last
    four, and the timestamps of an [addr] are lost below version 31402; the
    transactions in [block], [tx], [blocktxn] and [cmpctblock] lose their witness data
    when it is not written.  The message is well-formed ([reg_wf]): numbers and lengths
    in range, strings valid UTF-8, lists within the limits of the readers, transactions
    with an input, the variant of [addr] and [version] the one of its version number. *)
Theorem frame_roundtrip (m : Registered) magic version f (t : reg_type m) (s : source) rest :
  m ∈ payloads -> uint 32 magic -> payload_version (reg_payload m) <= version -> reg_wf m f version t ->
  exists payload, serialize_payload_with_flags (reg_payload m) t version f = Ok payload /\
    (zlen payload < 2 ^ 32 ->
     exists frame, message_with_flags (reg_payload m) magic version t f = Ok frame /\
       (contents s = frame ++ rest ->
        exists s', read_message (reg_payload m) s magic version = Some (s', Ok (reg_norm m f version t)) /\
          contents s' = rest)) /\
    (payload_command (reg_payload m) ∉ lossy -> reg_norm m f version t = t).
Proof.
  intros Hm Hmg Hv Ht. destruct payload_commands as [_ Hc].
  destruct (proj1 (Forall_forall _ _) Hc m Hm) as (c & Hcs & Hcl & Hce).
  destruct (@deserialize_payload_of _ (reg_payload m) _ _ (reg_laws m) f version t [] Hv Ht) as (payload & Hp & Hd).
  rewrite app_nil_r, decide_True in Hd by done. exists payload. split; [done|].
  split; [|intros Hn; by apply lossless_norm]. intros Hl. unfold message_with_flags. rewrite Hp, ok_bind. unfold command_from. rewrite Hcs, ok_bind. eexists. split; [done|].
  rewrite to_raw_message_bytes, <- app_assoc. intros Hs.
  destruct (@read_message_frame _ (reg_payload m) s (for_data magic c payload) magic version payload rest) as (s' & Hr & Hc');
    [by apply for_data_wf|done|apply wrap_uint; split; lia|].
  cbn [for_data mh_magic mh_command mh_checksum] in Hr, Hc'. rewrite Z.eqb_refl, Hce in Hr. cbn [negb] in Hr.
  rewrite decide_True in Hr by done. exists s'. split; [|by apply Hc']. by rewrite Hr, Hd.
Qed.

(** A frame is refused, before its payload is looked at, when it comes from another
    network, has another command, or a payload that does not match its checksum;
    and a payload type the version does not know is neither sent nor read. *)
Theorem frame_refused {M} (p : Payload M) (s : source) h magic version data rest t f :
  wf_message_header h -> contents s = header_bytes h ++ data ++ rest -> mh_len h = zlen data ->
  (magic <> mh_magic h -> exists s', read_message p s magic version = Some (s', Err InvalidMagic)) /\
  (magic = mh_magic h -> command_eq_str (mh_command h) (payload_command p) = false ->
     exists s', read_message p s magic version = Some (s', Err InvalidCommand)) /\
  (magic = mh_magic h -> command_eq_str (mh_command h) (payload_command p) = true ->
     checksum data <> mh_checksum h -> exists s', read_message p s magic version = Some (s', Err InvalidChecksum)) /\
  (version < payload_version p ->
     serialize_payload_with_flags p t version f = Err InvalidVersion /\
     deserialize_payload p data version = Err InvalidVersion).
Proof.
  intros Hw Hs Hl. destruct (read_message_frame p s h magic version data rest Hw Hs Hl) as (s' & Hr & _).
  split_and!.
  - intros Hm. exists s'. rewrite Hr. by rewrite (proj2 (Z.eqb_neq _ _) Hm).
  - intros -> Hc. exists s'. rewrite Hr. by rewrite Z.eqb_refl, Hc.
  - intros -> Hc Hd. exists s'. rewrite Hr. rewrite Z.eqb_refl, Hc. cbn [negb]. by rewrite decide_False.
  - apply old_version.
Qed.

End frames.

End P2pIo.

(** * An instance of the byte source, and examples *)

Module ExampleSource.

#[export] Instance bytes_source : AsyncRead := {|
  source := bytes;
  io_read_exact := fun s n => if n <=? zlen s then Some (take (Z.to_nat n) s, drop (Z.to_nat n) s) else None;
|}.

#[export] Instance bytes_source_laws : AsyncReadLaws bytes_source.
Proof.
  refine {| contents := fun s : source => s : bytes |}.
  - intros s bs rest ->. exists rest. cbn. rewrite (proj2 (Z.leb_le _ _)) by (rewrite length_app; lia).
    by rewrite Nat2Z.id, take_app_length, drop_app_length.
  - intros s n Hn. cbn. by rewrite (proj2 (Z.leb_gt _ _)).
Defined.

End ExampleSource.

Section examples.
Import Ser Message MessageSpec P2pIo ExampleCrypto ExampleSource.

Definition example_entry : Addr.AddressEntry :=
  Addr.mkEntry 7 (mkNetAddress 1 (V4 [x0a; x00; x00; x01]) 8333).

(** Addresses sent to an old peer arrive without their timestamps. *)
Lemma frame_roundtrip_witness :
  exists frame s', message_with_flags Addr.addr_payload 3652501241 209 (Addr.new [example_entry]) 0 = Ok frame /\
    read_message Addr.addr_payload (frame ++ [x01]) 3652501241 209 =
      Some (s', Ok (Addr.V0 [mkNetAddress 1 (V4 [x0a; x00; x00; x01]) 8333])) /\ contents s' = [x01].
Proof.
  assert (exists frame, message_with_flags Addr.addr_payload 3652501241 209 (Addr.new [example_entry]) 0 = Ok frame)
    as [frame Hf] by (eexists; vm_compute; reflexivity).
  set (m := register _ Addr.addr_payload _ _ addr_payload_laws).
  destruct (@frame_roundtrip _ _ bytes_source _ m 3652501241 209 0 (Addr.new [example_entry]) (frame ++ [x01]) [x01]) as (payload & Hp & Hl & _).
  - apply list_elem_of_here.
  - by apply is_uint_spec.
  - vm_compute. discriminate.
  - cbn [reg_wf m wf_addr Addr.new]. split; [|vm_compute; discriminate].
    split; [|split; [by apply is_uint_spec|vm_compute; discriminate]].
    apply Forall_cons; split; [|by apply Forall_nil]. split; [by apply is_uint_spec|].
    split; [by apply is_uint_spec|]. split; [reflexivity|by apply is_uint_spec].
  - assert (payload = [x01; x01; x00; x00; x00; x00; x00; x00; x00] ++ replicate 12 x00 ++ [x0a; x00; x00; x01; x20; x8d]) as ->
      by (change (reg_payload m) with Addr.addr_payload in Hp; vm_compute in Hp; injection Hp as <-; reflexivity).
    destruct Hl as (frame' & Hf' & Hr); [vm_compute; reflexivity|].
    pose proof (eq_trans (eq_sym Hf') Hf) as He. injection He as ->.
    destruct (Hr eq_refl) as (s' & Hs & Hc). exists frame, s'. done.
Defined.

Lemma frame_refused_witness :
  exists s', read_message ping_payload
    (header_bytes (mkMessageHeader 1 (name "ping" ++ replicate 8 x00) 8 (replicate 4 xff)) ++ replicate 8 x01 ++ []) 1 0 =
    Some (s', Err InvalidChecksum).
Proof.
  destruct (@frame_refused _ bytes_source _ _ ping_payload
    (header_bytes (mkMessageHeader 1 (name "ping" ++ replicate 8 x00) 8 (replicate 4 xff)) ++ replicate 8 x01 ++ [])
    (mkMessageHeader 1 (name "ping" ++ replicate 8 x00) 8 (replicate 4 xff)) 1 0 (replicate 8 x01) [] 5 0)
    as (_ & _ & Hc & _); [|reflexivity|reflexivity|].
  - split_and!; [by apply is_uint_spec|reflexivity|by apply is_uint_spec|reflexivity].
  - apply Hc; [reflexivity|vm_compute; reflexivity|vm_compute; discriminate].
Defined.

(** An IPv6 address whose first twelve bytes are zero is read back as an IPv4
    address: the loopback address [::1] becomes 0.0.0.1. *)
Theorem ipv6_loopback_misread :
  from_bytes ip_codec (to_bytes ip_codec (V6 [0; 0; 0; 0; 0; 0; 0; 1])) = Ok (V4 [x00; x00; x00; x01]).
Proof. vm_compute. reflexivity. Qed.

(** A [reject] message that carries the hash of the rejected object is refused. *)
Theorem reject_with_data_refused (t : Reject) v f data :
  0 <= v -> wf_reject t -> data <> [] ->
  exists bs, serialize_payload_with_flags reject_payload t v f = Ok bs /\
    deserialize_payload reject_payload (bs ++ data) v = Err Deserialize.
Proof.
  intros Hv Ht Hd.
  destruct (@deserialize_payload_of _ reject_payload _ _ (plain_payload_laws _ _ _ _ _) f v t data Hv Ht) as (bs & Hb & Hr).
  exists bs. by rewrite Hr, decide_False.
Qed.

(** Nine bytes of a [headers] message panic the reader. *)
Theorem headers_payload_panics v :
  0 <= v -> deserialize_payload headers_payload (compact_bytes (2 ^ 63)) v = Panic.
Proof.
  intros Hv. unfold deserialize_payload. cbn [payload_version headers_payload plain_payload].
  rewrite (proj2 (Z.ltb_ge _ _)) by done. vm_compute. reflexivity.
Qed.

End examples.
