(* ===== verification/LinkedMap.v ===== *)
(** The package linked-hash-map: a map that keeps its entries in the order of
    insertion.  [LinkedHashMap] are its operations, [LinkedHashMapLaws] and
    [LinkedHashMapEditLaws] what they do to the list of entries; [ExampleLinked] is an
    instance. *)
From Stdlib Require Import ZArith Lia.
From stdpp Require Import base decidable list.
From S2P Require Import Prelude.

Local Open Scope Z_scope.

Class LinkedHashMap (K V : Type) := {
  lhm : Type;
  lhm_new : lhm;
  lhm_contains_key : lhm -> K -> bool;
  lhm_insert : lhm -> K -> V -> lhm;
  lhm_len : lhm -> Z;
  lhm_pop_front : lhm -> lhm;
  lhm_get : lhm -> K -> option V;
}.

(** The value of a key in a list of entries. *)
Fixpoint assoc `{EqDecision K} {V} (k : K) (l : list (K * V)) : option V :=
  match l with
  | [] => None
  | (k', v) :: l' => if bool_decide (k' = k) then Some v else assoc k l'
  end.

(** The entries are in the order of insertion. *)
Class LinkedHashMapLaws `{EqDecision K} {V} (L : LinkedHashMap K V) := {
  lhm_entries : lhm -> list (K * V);
  lhm_entries_new : lhm_entries lhm_new = [];
  lhm_nodup m : NoDup (map fst (lhm_entries m));
  lhm_get_spec m k : lhm_get m k = assoc k (lhm_entries m);
  lhm_contains_spec m k : lhm_contains_key m k = bool_decide (is_Some (lhm_get m k));
  lhm_insert_absent m k v : lhm_get m k = None -> lhm_entries (lhm_insert m k v) = lhm_entries m ++ [(k, v)];
  lhm_len_spec m : lhm_len m = zlen (lhm_entries m);
  lhm_pop_front_spec m : lhm_entries (lhm_pop_front m) = tail (lhm_entries m);
}.

(** Further operations: iterating, removing, changing the value of a key in place.  An
    entry that is inserted again becomes the last one. *)
Class LinkedHashMapEdit K V (L : LinkedHashMap K V) := {
  lhm_iter : lhm -> list (K * V);
  lhm_remove : lhm -> K -> lhm;
  lhm_get_mut : lhm -> K -> (V -> V) -> lhm;
  lhm_clear : lhm -> lhm;
}.

Definition without `{EqDecision K} {V} (k : K) (l : list (K * V)) : list (K * V) :=
  List.filter (fun p => negb (bool_decide (p.1 = k))) l.

Class LinkedHashMapEditLaws `{EqDecision K} {V} (L : LinkedHashMap K V) (M : LinkedHashMapEdit K V L) `{!LinkedHashMapLaws L} := {
  lhm_iter_spec m : lhm_iter m = lhm_entries m;
  lhm_insert_spec m k v : lhm_entries (lhm_insert m k v) = without k (lhm_entries m) ++ [(k, v)];
  lhm_remove_spec m k : lhm_entries (lhm_remove m k) = without k (lhm_entries m);
  lhm_get_mut_spec m k f :
    lhm_entries (lhm_get_mut m k f) = map (fun p => if bool_decide (p.1 = k) then (p.1, f p.2) else p) (lhm_entries m);
  lhm_clear_spec m : lhm_entries (lhm_clear m) = [];
}.

Section linked_map.
Context `{EqDecision K} {V} {L : LinkedHashMap K V} `{!LinkedHashMapLaws L} `{!LinkedHashMapEdit K V L} `{!LinkedHashMapEditLaws L _}.

Lemma assoc_app k (l l' : list (K * V)) : assoc k (l ++ l') = match assoc k l with Some v => Some v | None => assoc k l' end.
Proof. induction l as [|[k' v] l IH]; [done|]. cbn. by case_bool_decide. Qed.

Lemma assoc_without k k' (l : list (K * V)) : assoc k (without k' l) = if bool_decide (k' = k) then None else assoc k l.
Proof.
  induction l as [|[x v] l IH]; [by case_bool_decide|]. destruct (decide (x = k')) as [->|Hx].
  - assert (without k' ((k', v) :: l) = without k' l) as -> by (unfold without; cbn; by rewrite bool_decide_true).
    rewrite IH. cbn. by case_bool_decide.
  - assert (without k' ((x, v) :: l) = (x, v) :: without k' l) as -> by (unfold without; cbn; by rewrite bool_decide_false).
    cbn. rewrite IH. repeat case_bool_decide; congruence.
Qed.

Lemma lhm_get_insert m k v k' : lhm_get (lhm_insert m k v) k' = if bool_decide (k = k') then Some v else lhm_get m k'.
Proof.
  rewrite !lhm_get_spec, lhm_insert_spec, assoc_app, assoc_without. cbn. case_bool_decide; [done|].
  by destruct (assoc _ _).
Qed.

Lemma lhm_get_remove m k k' : lhm_get (lhm_remove m k) k' = if bool_decide (k = k') then None else lhm_get m k'.
Proof. by rewrite !lhm_get_spec, lhm_remove_spec, assoc_without. Qed.

Lemma lhm_get_get_mut m k f k' :
  lhm_get (lhm_get_mut m k f) k' = if bool_decide (k = k') then f <$> lhm_get m k' else lhm_get m k'.
Proof.
  rewrite !lhm_get_spec, lhm_get_mut_spec. induction (lhm_entries m) as [|[x v] l IH]; [by case_bool_decide|].
  cbn. destruct (decide (x = k)) as [->|Hx].
  - rewrite bool_decide_true by done. cbn. case_bool_decide; [done|exact IH].
  - rewrite bool_decide_false by done. cbn. destruct (bool_decide (x = k')) eqn:Hk; [|exact IH].
    apply bool_decide_eq_true in Hk as ->. by rewrite bool_decide_false.
Qed.

Lemma lhm_get_new k : lhm_get lhm_new k = None.
Proof. by rewrite lhm_get_spec, lhm_entries_new. Qed.

Lemma lhm_get_clear m k : lhm_get (lhm_clear m) k = None.
Proof. by rewrite lhm_get_spec, lhm_clear_spec. Qed.

Lemma assoc_nodup k v (l : list (K * V)) : NoDup (map fst l) -> assoc k l = Some v <-> (k, v) ∈ l.
Proof.
  induction l as [|[k' w] l IH]; cbn; [by split; [done|intros ?%elem_of_nil]|].
  intros [Hni Hnd]%NoDup_cons. rewrite elem_of_cons. case_bool_decide as Hk; [subst k'|].
  - split; [intros [= ->]; by left|]. intros [[= ->]|Hin]; [done|]. exfalso. apply Hni.
    apply list_elem_of_fmap. by exists (k, v).
  - rewrite IH by done. split; [by right|]. intros [[= ? ?]|?]; [congruence|done].
Qed.

Lemma lhm_iter_get m k v : (k, v) ∈ lhm_iter m <-> lhm_get m k = Some v.
Proof. by rewrite lhm_iter_spec, lhm_get_spec, (assoc_nodup _ _ _ (lhm_nodup m)). Qed.

Lemma assoc_None k (l : list (K * V)) : assoc k l = None <-> k ∉ map fst l.
Proof.
  induction l as [|[k' v] l IH]; cbn; [by split; [intros _; apply not_elem_of_nil|]|].
  rewrite not_elem_of_cons. case_bool_decide as Hk; [split; [done|intros [? _]; congruence]|].
  rewrite IH. split; [intros; split; congruence|by intros [_ ?]].
Qed.

End linked_map.

(** * An instance *)

Module ExampleLinked.

(** An association list without repeated keys. *)
Definition entries (K V : Type) := { l : list (K * V) | NoDup (map fst l) }.

Lemma nodup_snoc `{EqDecision K} {V} (l : list (K * V)) k v : NoDup (map fst l) -> k ∉ map fst l -> NoDup (map fst (l ++ [(k, v)])).
Proof.
  intros Hl Hk. rewrite map_app. apply NoDup_app. split; [done|]. split; [|apply NoDup_singleton].
  intros x Hx Hx'. apply list_elem_of_singleton in Hx' as ->. done.
Qed.

Lemma nodup_tail `{EqDecision K} {V} (l : list (K * V)) : NoDup (map fst l) -> NoDup (map fst (tail l)).
Proof. destruct l; [done|]. cbn. by intros [_ ?]%NoDup_cons. Qed.

Lemma nodup_without `{EqDecision K} {V} k (l : list (K * V)) : NoDup (map fst l) -> NoDup (map fst (without k l)) /\ k ∉ map fst (without k l).
Proof.
  intros Hn. assert (forall x, x ∈ map fst (without k l) -> x ∈ map fst l /\ x <> k) as Hin.
  { intros x. rewrite !list_elem_of_In, !in_map_iff. intros (p & <- & [Hp Hk]%filter_In).
    apply negb_true_iff, bool_decide_eq_false in Hk. split; [by exists p|done]. }
  split; [|intros [_ Hk]%Hin; by apply Hk]. induction l as [|[x v] l IH]; [constructor|]. cbn in Hn. apply NoDup_cons in Hn as [Hx Hn].
  cbn. assert (NoDup (map fst (without k l))) as IH'.
  { apply IH; [done|]. intros y Hy. rewrite !list_elem_of_In, !in_map_iff in *. destruct Hy as (p & <- & [Hp Hk]%filter_In).
    apply negb_true_iff, bool_decide_eq_false in Hk. split; [by exists p|done]. }
  destruct (negb _); [|done]. cbn. apply NoDup_cons. split; [|done]. rewrite list_elem_of_In, in_map_iff.
  intros (p & <- & [Hp _]%filter_In). apply Hx. rewrite list_elem_of_In, in_map_iff. by exists p.
Qed.

Definition entries_remove `{EqDecision K} {V} (m : entries K V) (k : K) : entries K V :=
  exist _ (without k (proj1_sig m)) (proj1 (nodup_without k _ (proj2_sig m))).
Definition entries_insert `{EqDecision K} {V} (m : entries K V) (k : K) (v : V) : entries K V :=
  exist _ (without k (proj1_sig m) ++ [(k, v)])
    (nodup_snoc _ k v (proj1 (nodup_without k _ (proj2_sig m))) (proj2 (nodup_without k _ (proj2_sig m)))).

Lemma get_mut_keys `{EqDecision K} {V} k (f : V -> V) (l : list (K * V)) :
  map fst (map (fun p => if bool_decide (p.1 = k) then (p.1, f p.2) else p) l) = map fst l.
Proof. induction l as [|[x v] l IH]; [done|]. cbn. rewrite IH. by case_bool_decide. Qed.

Definition entries_get_mut `{EqDecision K} {V} (m : entries K V) (k : K) (f : V -> V) : entries K V :=
  exist _ (map (fun p => if bool_decide (p.1 = k) then (p.1, f p.2) else p) (proj1_sig m))
    (eq_ind_r (fun l => NoDup l) (proj2_sig m) (get_mut_keys k f (proj1_sig m))).

#[export] Instance example_linked `{EqDecision K} V : LinkedHashMap K V := {|
  lhm := entries K V;
  lhm_new := exist _ [] (NoDup_nil_2);
  lhm_contains_key := fun m k => bool_decide (is_Some (assoc k (proj1_sig m)));
  lhm_insert := entries_insert;
  lhm_len := fun m => zlen (proj1_sig m);
  lhm_pop_front := fun m => exist _ (tail (proj1_sig m)) (nodup_tail _ (proj2_sig m));
  lhm_get := fun m k => assoc k (proj1_sig m);
|}.

#[export] Instance example_linked_laws `{EqDecision K} V : LinkedHashMapLaws (example_linked (K := K) V).
Proof.
  refine {| lhm_entries := fun m : @lhm K V (example_linked V) => proj1_sig (m : entries K V) |}; try done.
  - intros m. apply (proj2_sig (m : entries K V)).
  - intros m k v. cbn. intros Ha. apply assoc_None in Ha. f_equal. unfold without.
    rewrite List.forallb_filter_id; [done|]. apply List.forallb_forall. intros p Hp.
    apply negb_true_iff, bool_decide_eq_false. intros <-. apply Ha. rewrite list_elem_of_In. by apply in_map.
Defined.

#[export] Instance example_linked_edit `{EqDecision K} V : LinkedHashMapEdit K V (example_linked V) := {|
  lhm_iter := fun m : @lhm K V (example_linked V) => proj1_sig (m : entries K V);
  lhm_remove := entries_remove;
  lhm_get_mut := entries_get_mut;
  lhm_clear := fun _ => @lhm_new K V (example_linked V);
|}.
#[export] Instance example_linked_edit_laws `{EqDecision K} V : LinkedHashMapEditLaws (example_linked (K := K) V) (example_linked_edit V).
Proof. split; done. Defined.

End ExampleLinked.
