(* ===== verification/Filters.v ===== *)
(** What a peer wants to hear about (src/sync/src/utils: known_hash_filter.rs,
    fee_rate_filter.rs, bloom_filter.rs, compact_block_builder.rs,
    connection_filter.rs): the hashes it knows, its fee rate, its bloom filter, and
    the compact and filtered blocks built for it. *)
From Stdlib Require Import ZArith Lia Strings.Byte.
From stdpp Require Import base decidable numbers countable list.
From S2P Require Import Prelude Opcode Num Script Crypto Serialization Codec Chain ChainHash Network Storage Message PartialMerkle LinkedMap.

Local Open Scope Z_scope.

(** * The murmur3 package *)

(** The data and the seed. *)
Class Murmur3 := { murmur3_32 : bytes -> Z -> Z }.

(** * Known hashes (known_hash_filter.rs) *)

Module KnownHash.

Definition MAX_KNOWN_HASHES_LEN : Z := 2048.

Inductive KnownHashType := Transaction | Block | CompactBlock.
#[global] Instance KnownHashType_eq_dec : EqDecision KnownHashType.
Proof. solve_decision. Defined.

Section filter.
Context `{LinkedHashMap bytes KnownHashType}.

Record KnownHashFilter := mkKnown { known_hashes : lhm }.

Definition default_filter : KnownHashFilter := mkKnown lhm_new.

Definition insert (self : KnownHashFilter) (hash : bytes) (hash_type : KnownHashType) : KnownHashFilter :=
  if negb (lhm_contains_key (known_hashes self) hash) then
    let known := lhm_insert (known_hashes self) hash hash_type in
    mkKnown (if MAX_KNOWN_HASHES_LEN <? lhm_len known then lhm_pop_front known else known)
  else self.

Definition contains (self : KnownHashFilter) (hash : bytes) (hash_type : KnownHashType) : bool :=
  match lhm_get (known_hashes self) hash with
  | Some stored_hash_type => bool_decide (stored_hash_type = hash_type)
  | None => false
  end.

Definition filter_block (self : KnownHashFilter) (hash : bytes) : bool :=
  match lhm_get (known_hashes self) hash with
  | Some stored_hash_type =>
      negb (bool_decide (stored_hash_type = Block)) && negb (bool_decide (stored_hash_type = CompactBlock))
  | None => true
  end.

Definition filter_transaction (self : KnownHashFilter) (hash : bytes) : bool :=
  match lhm_get (known_hashes self) hash with
  | Some stored_hash_type => negb (bool_decide (stored_hash_type = Transaction))
  | None => true
  end.

End filter.
End KnownHash.

(** * Fee rates (fee_rate_filter.rs) *)

Module FeeRate.

Record FeeRateFilter := mkFee { fee_rate : Z }.
Definition default_filter : FeeRateFilter := mkFee 0.
Definition set_min_fee_rate (self : FeeRateFilter) (message : Z) : FeeRateFilter := mkFee message.
Definition filter_transaction (self : FeeRateFilter) (tx_fee_rate : option Z) : bool :=
  match tx_fee_rate with Some tx_fee_rate => fee_rate self <=? tx_fee_rate | None => true end.

End FeeRate.

(** * Bloom filters (bloom_filter.rs) *)

Module Bloom.
Import Ser Script Chain ChainHash Message.

Definition SEED_OFFSET : Z := 4221880213.

Section filter.
Context `{Murmur3} `{BitVec}.

Record BloomFilterData := mkData { filter : bitvec; hash_functions_num : Z; tweak : Z }.

Definition data_with_filter_load (message : FilterLoad) : BloomFilterData :=
  mkData (bv_from_bytes (fl_filter message)) (fl_hash_functions message) (fl_tweak message).

(** The bit of one hash function; the remainder by the length of an empty filter
    panics. *)
Definition bit_index {E} (self : BloomFilterData) (data : bytes) (hash_function_idx : Z) : outcome E nat :=
  let murmur_seed := wrap 32 (wrap 32 (hash_function_idx * SEED_OFFSET) + tweak self) in
  let len := zlen (bv_iter (filter self)) in
  if len =? 0 then Panic
  else
    let murmur_hash := murmur3_32 data murmur_seed mod len in
    Ok (Z.to_nat (Z.lor (Z.land murmur_hash (u64_max - 7)) (Z.lxor (Z.land murmur_hash 7) 7))).

(** The hash functions from [idx] on, [n] of them. *)
Fixpoint contains_from {E} (self : BloomFilterData) (data : bytes) (idx : Z) (n : nat) : outcome E bool :=
  match n with
  | O => Ok true
  | S n' =>
      index ← bit_index self data idx;
      bit ← expect (bv_get (filter self) index);
      if negb bit then Ok false else contains_from self data (idx + 1) n'
  end.
Definition contains {E} (self : BloomFilterData) (data : bytes) : outcome E bool :=
  contains_from self data 0 (Z.to_nat (hash_functions_num self)).

Fixpoint insert_from {E} (self : BloomFilterData) (data : bytes) (idx : Z) (n : nat) : outcome E BloomFilterData :=
  match n with
  | O => Ok self
  | S n' =>
      index ← bit_index self data idx;
      bits ← expect (bv_set (filter self) index true);
      insert_from (mkData bits (hash_functions_num self) (tweak self)) data (idx + 1) n'
  end.
Definition insert {E} (self : BloomFilterData) (data : bytes) : outcome E BloomFilterData :=
  insert_from self data 0 (Z.to_nat (hash_functions_num self)).

(** The loop over [script.iter()], which stops at an instruction that does not
    decode. *)
Fixpoint contains_data_loop {E} (fuel : nat) (bloom : BloomFilterData) (script : bytes) (position : nat)
    : outcome E bool :=
  match fuel with
  | O => Diverge
  | S fuel' =>
      if (length script <=? position)%nat then Ok false
      else
        match_result (get_instruction script position)
          (fun instruction =>
             found ← (match data instruction with
                      | Some instruction_data => contains bloom instruction_data
                      | None => Ok false
                      end);
             if (found : bool) then Ok true
             else contains_data_loop fuel' bloom script (position + step instruction))
          (fun _ => Ok false)
  end.
Definition contains_any_instruction_data {E} (bloom : BloomFilterData) (script : bytes) : outcome E bool :=
  contains_data_loop (S (length script)) bloom script 0.

(** The filter data sits behind a lock: operations that only borrow the filter
    change it too. *)
Record BloomFilter := mkBloom { bloom : option BloomFilterData; filter_flags : FilterFlags }.

Definition default_filter : BloomFilter := mkBloom None FlagsNone.

(** A test constructor. *)
Definition with_filter_load (message : FilterLoad) : BloomFilter :=
  mkBloom (Some (data_with_filter_load message)) (fl_flags message).

Definition is_set (self : BloomFilter) : bool := bool_decide (is_Some (bloom self)).

Definition set_bloom_filter (self : BloomFilter) (message : FilterLoad) : BloomFilter :=
  mkBloom (Some (data_with_filter_load message)) (filter_flags self).

Definition update_bloom_filter {E} (self : BloomFilter) (message : bytes) : outcome E BloomFilter :=
  match bloom self with
  | Some b => b ← insert b message; Ok (mkBloom (Some b) (filter_flags self))
  | None => Ok self
  end.

Definition remove_bloom_filter (self : BloomFilter) : BloomFilter := mkBloom None (filter_flags self).

Definition is_update_needed {E} (flags : FilterFlags) (script : bytes) : outcome E bool :=
  match flags with
  | FlagsAll => Ok true
  | FlagsPubKeyOnly => if is_pay_to_public_key script then Ok true else is_multisig_script script
  | FlagsNone => Ok false
  end.

(** The loop over the outputs: the filter and whether one matched. *)
Fixpoint filter_outputs {E} (flags : FilterFlags) (hash : bytes) (b : BloomFilterData)
    (outs : list TransactionOutput) (output_index : Z) (is_match : bool) : outcome E (BloomFilterData * bool) :=
  match outs with
  | [] => Ok (b, is_match)
  | output :: outs' =>
      let script := script_pubkey output in
      update ← is_update_needed flags script;
      found ← contains_any_instruction_data b script;
      if (found : bool) then
        b ← (if (update : bool)
             then insert b (to_bytes outpoint_codec (mkOutPoint hash (wrap 32 output_index)))
             else Ok b);
        filter_outputs flags hash b outs' (output_index + 1) true
      else filter_outputs flags hash b outs' (output_index + 1) is_match
  end.

Fixpoint filter_inputs {E} (b : BloomFilterData) (ins : list TransactionInput) : outcome E bool :=
  match ins with
  | [] => Ok false
  | input :: ins' =>
      spends ← contains b (to_bytes outpoint_codec (previous_output input));
      if (spends : bool) then Ok true
      else
        found ← contains_any_instruction_data b (script_sig input);
        if (found : bool) then Ok true else filter_inputs b ins'
  end.

Definition filter_transaction {E} (self : BloomFilter) (tx : IndexedTransaction) : outcome E (bool * BloomFilter) :=
  match bloom self with
  | None => Ok (true, self)
  | Some b =>
      '(b, is_match) ← filter_outputs (filter_flags self) (itx_hash tx) b (outputs (itx_raw tx)) 0 false;
      let self := mkBloom (Some b) (filter_flags self) in
      if (is_match : bool) then Ok (true, self)
      else
        by_hash ← contains b (itx_hash tx);
        if (by_hash : bool) then Ok (true, self)
        else found ← filter_inputs b (inputs (itx_raw tx)); Ok (found, self)
  end.

End filter.
End Bloom.

(** * Compact blocks (compact_block_builder.rs) *)

Module CompactBlocks.
Import Ser Chain ChainHash Message.

Definition MAX_COMPACT_BLOCK_PREFILLED_SIZE : Z := 10 * 1024.

Section builder.
Context `{Crypto}.

Definition short_transaction_id_keys (nonce : Z) (block_header : BlockHeader) : Z * Z :=
  let hash := sha256 (to_bytes header_codec block_header ++ to_bytes u64_codec nonce) in
  (le_value (slice hash 0 8), le_value (slice hash 8 16)).

Definition short_transaction_id (key0 key1 : Z) (transaction_hash : bytes) : bytes :=
  slice (le_bytes 8 (siphash24 key0 key1 transaction_hash)) 0 6.

(** The loop over the transactions: short identifiers and prefilled transactions. *)
Fixpoint compact_loop (keys : Z * Z) (indexes : list nat) (txs : list IndexedTransaction) (transaction_index : nat)
    (size : Z) (short_ids : list bytes) (prefilled : list PrefilledTransaction)
    : list bytes * list PrefilledTransaction :=
  match txs with
  | [] => (short_ids, prefilled)
  | tx :: txs' =>
      let transaction_size := serialized_size transaction_codec (itx_raw tx) in
      if (size + transaction_size <? MAX_COMPACT_BLOCK_PREFILLED_SIZE) && bool_decide (transaction_index ∈ indexes) then
        compact_loop keys indexes txs' (S transaction_index) (size + transaction_size) short_ids
          (prefilled ++ [mkPrefilled (Z.of_nat transaction_index) (itx_raw tx)])
      else
        compact_loop keys indexes txs' (S transaction_index) size
          (short_ids ++ [short_transaction_id keys.1 keys.2 (itx_hash tx)]) prefilled
  end.

(** [nonce] is what the random number generator returns; the indexes are distinct,
    as in a set. *)
Definition build_compact_block {E} (nonce : Z) (block : IndexedBlock) (prefilled_transactions_indexes : list nat)
    : outcome E BlockHeaderAndIDs :=
  _ ← ucheck 64 (zlen (ib_transactions block) - zlen prefilled_transactions_indexes);
  let header := ih_raw (ib_header block) in
  let keys := short_transaction_id_keys nonce header in
  let '(short_ids, prefilled) := compact_loop keys prefilled_transactions_indexes (ib_transactions block) 0 0 [] [] in
  Ok (mkHeaderAndIDs header nonce short_ids prefilled).

End builder.
End CompactBlocks.

(** * Connection filters (connection_filter.rs) *)

Module Connection.
Import Ser Chain ChainHash Message PartialMerkle CompactBlocks.

Section filter.
Context `{Crypto} `{Murmur3} `{BitVec} `{LinkedHashMap bytes KnownHash.KnownHashType}.

Record ConnectionFilter := mkConnection {
  known_hash_filter : KnownHash.KnownHashFilter;
  fee_rate_filter : FeeRate.FeeRateFilter;
  bloom_filter : Bloom.BloomFilter;
}.

Definition default_filter : ConnectionFilter :=
  mkConnection KnownHash.default_filter FeeRate.default_filter Bloom.default_filter.

Definition with_bloom_filter (self : ConnectionFilter) (b : Bloom.BloomFilter) : ConnectionFilter :=
  mkConnection (known_hash_filter self) (fee_rate_filter self) b.

Definition hash_known_as (self : ConnectionFilter) (hash : bytes) (hash_type : KnownHash.KnownHashType)
    : ConnectionFilter :=
  mkConnection (KnownHash.insert (known_hash_filter self) hash hash_type) (fee_rate_filter self) (bloom_filter self).

Definition is_hash_known_as (self : ConnectionFilter) (hash : bytes) (hash_type : KnownHash.KnownHashType) : bool :=
  KnownHash.contains (known_hash_filter self) hash hash_type.

Definition filter_block (self : ConnectionFilter) (block_hash : bytes) : bool :=
  KnownHash.filter_block (known_hash_filter self) block_hash.

Definition filter_transaction {E} (self : ConnectionFilter) (transaction : IndexedTransaction)
    (transaction_fee_rate : option Z) : outcome E (bool * ConnectionFilter) :=
  if KnownHash.filter_transaction (known_hash_filter self) (itx_hash transaction) &&
     FeeRate.filter_transaction (fee_rate_filter self) transaction_fee_rate
  then
    '(pass, b) ← Bloom.filter_transaction (bloom_filter self) transaction;
    Ok (pass, with_bloom_filter self b)
  else Ok (false, self).

Definition load (self : ConnectionFilter) (message : FilterLoad) : ConnectionFilter :=
  with_bloom_filter self (Bloom.set_bloom_filter (bloom_filter self) message).
Definition add {E} (self : ConnectionFilter) (message : bytes) : outcome E ConnectionFilter :=
  b ← Bloom.update_bloom_filter (bloom_filter self) message; Ok (with_bloom_filter self b).
Definition clear (self : ConnectionFilter) : ConnectionFilter :=
  with_bloom_filter self (Bloom.remove_bloom_filter (bloom_filter self)).
Definition set_fee_rate (self : ConnectionFilter) (message : Z) : ConnectionFilter :=
  mkConnection (known_hash_filter self) (FeeRate.set_min_fee_rate (fee_rate_filter self) message) (bloom_filter self).

(** The positions of the transactions that pass the test. *)
Definition positions (test : IndexedTransaction -> bool) (txs : list IndexedTransaction) : list nat :=
  map fst (List.filter (fun p => test p.2) (zip (seq 0 (length txs)) txs)).

Definition build_compact_block {E} (nonce : Z) (self : ConnectionFilter) (block : IndexedBlock)
    : outcome E BlockHeaderAndIDs :=
  let unknown_transaction_indexes :=
    positions (fun tx => KnownHash.contains (known_hash_filter self) (itx_hash tx) KnownHash.Transaction)
      (ib_transactions block) in
  CompactBlocks.build_compact_block nonce block unknown_transaction_indexes.

Record MerkleBlockArtefacts := mkArtefacts {
  merkleblock : MerkleBlock;
  matching_transactions : list IndexedTransaction;
}.

(** The first bit of a byte becomes its lowest. *)
Definition reverse_bits (b : byte) : byte :=
  byte_of (Z.lor (Z.shiftr (Z.land (u8 b) 128) 7)
          (Z.lor (Z.shiftr (Z.land (u8 b) 64) 5)
          (Z.lor (Z.shiftr (Z.land (u8 b) 32) 3)
          (Z.lor (Z.shiftr (Z.land (u8 b) 16) 1)
          (Z.lor (Z.shiftl (Z.land (u8 b) 8) 1)
          (Z.lor (Z.shiftl (Z.land (u8 b) 4) 3)
          (Z.lor (Z.shiftl (Z.land (u8 b) 2) 5)
                 (Z.shiftl (Z.land (u8 b) 1) 7)))))))).

(** The fold over the transactions: hashes, flags, matching transactions. *)
Fixpoint match_transactions {E} (b : Bloom.BloomFilter) (txs : list IndexedTransaction)
    (all_hashes : list bytes) (all_flags : bitvec) (matching : list IndexedTransaction)
    : outcome E (Bloom.BloomFilter * list bytes * bitvec * list IndexedTransaction) :=
  match txs with
  | [] => Ok (b, all_hashes, all_flags, matching)
  | t :: txs' =>
      '(flag, b) ← Bloom.filter_transaction b t;
      match_transactions b txs' (all_hashes ++ [itx_hash t]) (bv_push all_flags flag)
        (if (flag : bool) then matching ++ [t] else matching)
  end.

Definition build_merkle_block {E} (self : ConnectionFilter) (block : IndexedBlock)
    : outcome E (option MerkleBlockArtefacts * ConnectionFilter) :=
  if negb (Bloom.is_set (bloom_filter self)) then Ok (None, self)
  else
    '(b, all_hashes, all_flags, matching) ←
      match_transactions (bloom_filter self) (ib_transactions block) [] (bv_from_elem 0 false) [];
    tree ← build_partial_merkle_tree all_hashes all_flags;
    let message := mkMerkleBlock (ih_raw (ib_header block)) (wrap 32 (zlen (ib_transactions block)))
                     (tree_hashes tree) (map reverse_bits (bv_to_bytes (tree_flags tree))) in
    Ok (Some (mkArtefacts message matching), with_bloom_filter self b).

End filter.
End Connection.
