(* ===== verification/FiltersSpec.v ===== *)
(** Properties of the connection filters (Filters.v): which hashes a peer is taken to
    know, that a bloom filter has no false negatives, how its flags and an empty
    filter are treated, and what filtered and compact blocks contain. *)
From Stdlib Require Import ZArith Lia Strings.Byte.
From stdpp Require Import base decidable numbers countable list relations.
From S2P Require Import Prelude Opcode Num Script Crypto Serialization Codec Chain ChainHash Network Storage Message PartialMerkle LinkedMap Filters.

Local Open Scope Z_scope.

Module FiltersSpec.
Import Ser Chain ChainHash Message.

(** * Known hashes *)

Section known.
Context `{L : LinkedHashMap bytes KnownHash.KnownHashType} `{!LinkedHashMapLaws L}.
Import KnownHash.

Lemma assoc_snoc {V} k v (l : list (bytes * V)) : k ∉ map fst l -> assoc k (l ++ [(k, v)]) = Some v.
Proof.
  induction l as [|[k' w] l IH]; cbn; [by rewrite bool_decide_eq_true_2|].
  rewrite not_elem_of_cons. intros [Hk Hl]. rewrite bool_decide_eq_false_2 by congruence. auto.
Qed.

Lemma insert_entries self hash t :
  lhm_entries (known_hashes (insert self hash t)) =
  let es := lhm_entries (known_hashes self) in
  if decide (hash ∈ map fst es) then es
  else if MAX_KNOWN_HASHES_LEN <? zlen es + 1 then tail (es ++ [(hash, t)]) else es ++ [(hash, t)].
Proof.
  unfold insert. rewrite lhm_contains_spec, lhm_get_spec. cbn zeta.
  destruct (assoc hash (lhm_entries (known_hashes self))) as [v|] eqn:Ha.
  - rewrite bool_decide_eq_true_2 by done. cbn [negb]. rewrite decide_True; [done|].
    destruct (decide (hash ∈ map fst (lhm_entries (known_hashes self)))) as [|Hn]; [done|].
    apply assoc_None in Hn. congruence.
  - rewrite bool_decide_eq_false_2 by (intros [? ?]; congruence). cbn [negb known_hashes].
    rewrite decide_False by (by apply assoc_None).
    rewrite lhm_len_spec, lhm_insert_absent by (by rewrite lhm_get_spec).
    rewrite length_app. cbn [length]. rewrite Nat2Z.inj_add. change (Z.of_nat 1) with 1.
    destruct (_ <? _); [rewrite lhm_pop_front_spec|]; by rewrite lhm_insert_absent by (by rewrite lhm_get_spec).
Qed.

(** The last [n] elements. *)
Definition latest {A} (n : nat) (l : list A) : list A := drop (length l - n) l.

Definition inserts (self : KnownHashFilter) (l : list (bytes * KnownHashType)) : KnownHashFilter :=
  foldl (fun self p => insert self p.1 p.2) self l.

Lemma drop_elem {A} (x : A) n l : x ∈ drop n l -> x ∈ l.
Proof. intros Hx. rewrite <- (take_drop n l). apply elem_of_app. by right. Qed.

Lemma inserts_entries l :
  NoDup (map fst l) -> lhm_entries (known_hashes (inserts default_filter l)) = latest 2048 l.
Proof.
  unfold inserts. induction l as [|[h t] l IH] using rev_ind; [intros _; apply lhm_entries_new|].
  rewrite map_app, foldl_app. intros Hnd. apply NoDup_app in Hnd as (Hnd & Hni & _).
  specialize (IH Hnd). cbn [foldl fst snd]. rewrite insert_entries, IH. cbn zeta. unfold latest in *.
  rewrite decide_False.
  2:{ intros Hin. apply (Hni h); [|by apply list_elem_of_here]. apply list_elem_of_fmap in Hin as (p & -> & Hp).
      apply list_elem_of_fmap. exists p. split; [done|]. by apply drop_elem in Hp. }
  rewrite length_app, length_drop. cbn [length]. destruct (Z.ltb_spec MAX_KNOWN_HASHES_LEN
    (Z.of_nat (length l - (length l - 2048)) + 1)) as [Hlt|Hge]; unfold MAX_KNOWN_HASHES_LEN in *.
  - replace (length l + 1 - 2048)%nat with (length l - 2048 + 1)%nat by lia.
    rewrite drop_app_le, <- drop_drop by lia. destruct (drop (length l - 2048) l) as [|x r] eqn:Hd; [|done].
    apply (f_equal length) in Hd. rewrite length_drop in Hd. cbn in Hd. lia.
  - replace (length l - 2048)%nat with 0%nat by lia. by replace (length l + 1 - 2048)%nat with 0%nat by lia.
Qed.

(** Of the distinct hashes a peer has shown, exactly the last 2048 are remembered,
    with the kind they were first shown as; a block is withheld when its hash is
    remembered as a block, a transaction when it is remembered as a transaction. *)
Theorem known_hashes_window l hash t :
  NoDup (map fst l) ->
  let filter := inserts default_filter l in
  (contains filter hash t = true <-> (hash, t) ∈ latest 2048 l) /\
  (filter_transaction filter hash = false <-> (hash, Transaction) ∈ latest 2048 l) /\
  (filter_block filter hash = false <-> (hash, Block) ∈ latest 2048 l \/ (hash, CompactBlock) ∈ latest 2048 l).
Proof.
  intros Hnd filter. pose proof (inserts_entries l Hnd) as He. pose proof (lhm_nodup (known_hashes filter)) as Hn.
  unfold contains, filter_transaction, filter_block. fold filter in He. rewrite lhm_get_spec.
  rewrite He in *. clear He. generalize dependent (latest 2048 l). intros w Hn. rewrite <- !assoc_nodup by exact Hn.
  destruct (assoc hash w) as [[]|]; split_and!;
    repeat case_bool_decide; cbn; split; intros; (congruence || tauto || (destruct_or?; congruence) || auto).
Qed.

End known.

(** * Bloom filters *)

Section bloom.
Context `{Murmur3} `{BitVecLaws}.
Import Bloom.

Abbreviation bits b := (bv_iter (filter b)).

(** A filter made of one or more whole bytes. *)
Definition wf_bloom (b : BloomFilterData) : Prop :=
  (0 < length (bits b))%nat /\ (length (bits b) mod 8 = 0)%nat /\ zlen (bits b) < 2 ^ 64.

(** The bit of byte [h / 8] that counts [h mod 8] from the top. *)
Lemma bit_of_byte h :
  0 <= h < 2 ^ 64 ->
  Z.lor (Z.land h (u64_max - 7)) (Z.lxor (Z.land h 7) 7) = 8 * (h / 8) + (7 - h mod 8).
Proof.
  intros Hh. assert (Z.land h 7 = h mod 8) as -> by (change 7 with (Z.ones 3); by rewrite Z.land_ones).
  assert (Z.land h (u64_max - 7) = Z.shiftl (h / 8) 3) as ->.
  { change (u64_max - 7) with (Z.shiftl (Z.ones 61) 3). apply Z.bits_inj'. intros n Hn.
    rewrite Z.land_spec, !Z.shiftl_spec by done. change (h / 8) with (h / 2 ^ 3).
    destruct (Z.lt_ge_cases n 3) as [Hlt|Hge].
    - rewrite !(Z.testbit_neg_r _ (n - 3)) by lia. apply andb_false_r.
    - rewrite Z.div_pow2_bits by lia. replace (n - 3 + 3) with n by lia.
      destruct (Z.lt_ge_cases n 64).
      + rewrite Z.ones_spec_low by lia. apply andb_true_r.
      + rewrite <- (Z.mod_small h (2 ^ 64)), Z.mod_pow2_bits_high by lia. done. }
  assert (forall r, 0 <= r < 8 -> Z.lxor r 7 = 7 - r) as Hx.
  { intros r Hr. assert (r = 0 \/ r = 1 \/ r = 2 \/ r = 3 \/ r = 4 \/ r = 5 \/ r = 6 \/ r = 7) as Hc by lia.
    destruct_or! Hc; by subst r. }
  pose proof (Z.mod_pos_bound h 8 ltac:(lia)). rewrite Hx by done.
  rewrite Z.lor_comm, lor_shiftl_add by lia. lia.
Qed.

Lemma bit_index_Ok {E} b data k :
  wf_bloom b -> exists i, @bit_index _ _ E b data k = Ok i /\ (i < length (bits b))%nat.
Proof.
  intros (Hpos & H8 & Hlt). unfold bit_index. rewrite (proj2 (Z.eqb_neq _ _)) by lia. eexists. split; [done|].
  set (seed := wrap 32 _). pose proof (Z.mod_pos_bound (murmur3_32 data seed) (zlen (bits b)) ltac:(lia)) as Hm.
  rewrite bit_of_byte by lia. set (h := _ mod _) in *.
  pose proof (Nat.div_mod_eq (length (bits b)) 8) as Hd. rewrite H8 in Hd.
  pose proof (Z.div_mod h 8 ltac:(lia)). pose proof (Z.mod_pos_bound h 8 ltac:(lia)). lia.
Qed.

(** The bits of the hash functions from [k] on, [n] of them. *)
Fixpoint indices (b : BloomFilterData) (data : bytes) (k : Z) (n : nat) : list nat :=
  match n with
  | O => []
  | S n' => (match @bit_index _ _ unit b data k with Ok i => i | _ => O end) :: indices b data (k + 1) n'
  end.

Lemma bit_index_any {E} b data k : wf_bloom b -> @bit_index _ _ E b data k =
  Ok (match @bit_index _ _ unit b data k with Ok i => i | _ => O end).
Proof. intros Hb. unfold bit_index. by destruct (_ =? 0) eqn:?; [bool_prop; destruct Hb; lia|]. Qed.

(** The bits only depend on the size, the tweak and the data. *)
Lemma indices_same b b' data k n :
  length (bits b) = length (bits b') -> tweak b = tweak b' -> indices b data k n = indices b' data k n.
Proof.
  intros Hl Ht. revert k. induction n as [|n IH]; intros k; [done|]. cbn [indices]. rewrite IH.
  unfold bit_index. by rewrite Hl, Ht.
Qed.

Lemma indices_bound b data k n : wf_bloom b -> Forall (fun i => (i < length (bits b))%nat) (indices b data k n).
Proof.
  intros Hb. revert k. induction n as [|n IH]; intros k; [by apply Forall_nil|]. cbn [indices].
  apply Forall_cons. split; [|apply IH]. by destruct (@bit_index_Ok unit b data k Hb) as (i & -> & Hi).
Qed.

Definition is_on (l : list bool) (i : nat) : bool := bool_decide (l !! i = Some true).

Lemma contains_from_spec {E} b data k n :
  wf_bloom b -> @contains_from _ _ E b data k n = Ok (forallb (is_on (bits b)) (indices b data k n)).
Proof.
  intros Hb. revert k. induction n as [|n IH]; intros k; [done|]. cbn [contains_from indices forallb].
  rewrite (bit_index_any b data k Hb), ok_bind. destruct (@bit_index_Ok unit b data k Hb) as (i & -> & Hi).
  rewrite bv_get_iter. destruct (lookup_lt_is_Some_2 (bits b) i Hi) as [x Hx]. rewrite Hx. cbn [expect].
  rewrite ok_bind, IH. unfold is_on at 2. rewrite Hx. destruct x; cbn [negb]; [by rewrite bool_decide_eq_true_2|].
  by rewrite bool_decide_eq_false_2.
Qed.

(** [b'] has every bit of [b] and the same parameters. *)
Definition grown (b b' : BloomFilterData) : Prop :=
  length (bits b') = length (bits b) /\ tweak b' = tweak b /\ hash_functions_num b' = hash_functions_num b /\
  forall i, is_on (bits b) i = true -> is_on (bits b') i = true.

#[global] Instance grown_preorder : PreOrder grown.
Proof.
  split; [by intros b; repeat split|]. intros b1 b2 b3 (A1 & A2 & A3 & A4) (B1 & B2 & B3 & B4).
  repeat split; [congruence..|auto].
Qed.

Lemma grown_wf b b' : grown b b' -> wf_bloom b -> wf_bloom b'.
Proof. intros (Hl & _) (H1 & H2 & H3). unfold wf_bloom. by rewrite Hl. Qed.

Lemma insert_from_spec {E} b data k n :
  wf_bloom b -> exists b', @insert_from _ _ E b data k n = Ok b' /\ grown b b' /\
    Forall (fun i => is_on (bits b') i = true) (indices b data k n).
Proof.
  revert b k. induction n as [|n IH]; intros b k Hb; [by exists b; repeat split; [|apply Forall_nil]|].
  cbn [insert_from indices]. rewrite (bit_index_any b data k Hb), ok_bind.
  destruct (@bit_index_Ok unit b data k Hb) as (i & -> & Hi).
  destruct (bv_set_inside (filter b) i true Hi) as (v & -> & Hv). cbn [expect]. rewrite ok_bind.
  set (b1 := mkData v _ _). assert (grown b b1) as Hg.
  { repeat split; cbn; rewrite Hv; [apply length_insert|]. intros j. unfold is_on. rewrite !bool_decide_eq_true.
    intros Hj. destruct (decide (i = j)) as [->|Hne]; [by apply list_lookup_insert_eq|by rewrite list_lookup_insert_ne]. }
  destruct (IH b1 (k + 1) (grown_wf _ _ Hg Hb)) as (b2 & -> & Hg2 & Hall). exists b2. split; [done|].
  split; [by etrans|]. apply Forall_cons. split.
  - apply Hg2. unfold is_on. apply bool_decide_eq_true. cbn. rewrite Hv. by apply list_lookup_insert_eq.
  - destruct Hg as (Hl & Ht & _). by rewrite (indices_same b b1).
Qed.

Lemma contains_grown {E} b b' data :
  wf_bloom b -> grown b b' -> @contains _ _ E b data = Ok true -> @contains _ _ E b' data = Ok true.
Proof.
  unfold contains. intros Hb Hg Hc. pose proof (grown_wf _ _ Hg Hb) as Hb'. destruct Hg as (Hl & Ht & Hn & Hm).
  rewrite contains_from_spec in * by done. rewrite Hn, (indices_same b' b) by done. injection Hc as Hc. f_equal.
  apply forallb_forall. intros i Hi. apply Hm. by eapply forallb_forall in Hc.
Qed.

Lemma insert_contains {E} b data :
  wf_bloom b -> exists b', @insert _ _ E b data = Ok b' /\ grown b b' /\ @contains _ _ E b' data = Ok true.
Proof.
  intros Hb. unfold insert. destruct (@insert_from_spec E b data 0 (Z.to_nat (hash_functions_num b)) Hb) as (b' & Hi & Hg & Hall).
  exists b'. split; [done|]. split; [done|]. pose proof (grown_wf _ _ Hg Hb) as Hb'. destruct Hg as (Hl & Ht & Hn & Hm).
  unfold contains. rewrite contains_from_spec, Hn, (indices_same b' b) by done. f_equal. apply forallb_forall.
  intros i Hi'. by apply (proj1 (List.Forall_forall _ _) Hall).
Qed.

(** Any number of insertions. *)
Fixpoint insert_all {E} (b : BloomFilterData) (l : list bytes) : outcome E BloomFilterData :=
  match l with [] => Ok b | d :: l' => b ← insert b d; insert_all b l' end.

Lemma insert_all_grown {E} b l : wf_bloom b -> exists b', @insert_all E b l = Ok b' /\ grown b b'.
Proof.
  revert b. induction l as [|d l IH]; intros b Hb; [by exists b|]. cbn [insert_all].
  destruct (@insert_contains E b d Hb) as (b1 & -> & Hg & _). rewrite ok_bind.
  destruct (IH b1 (grown_wf _ _ Hg Hb)) as (b2 & Hi & Hg2). exists b2. split; [done|by etrans].
Qed.

(** ** Transactions *)

Lemma contains_total {E} b data : wf_bloom b -> exists r, @contains _ _ E b data = Ok r.
Proof. intros Hb. unfold contains. rewrite contains_from_spec by done. eauto. Qed.

(** The scripts' loop comes to an end, and a filter that grows keeps its matches. *)
Lemma contains_data_loop_grown {E} b b' script fuel position :
  wf_bloom b -> grown b b' -> (length script - position < fuel)%nat ->
  exists r r', @contains_data_loop _ _ E fuel b script position = Ok r /\
    contains_data_loop fuel b' script position = @Ok E _ r' /\ (r = true -> r' = true).
Proof.
  intros Hb Hg. revert position. induction fuel as [|fuel IH]; intros position Hf; [lia|]. cbn [contains_data_loop].
  destruct (Nat.leb_spec (length script) position) as [Hle|Hlt]; [by exists false, false|].
  destruct (Script.get_instruction_cases script position Hlt) as [(i & Hi & Hs & _)|(e & Hi)]; rewrite Hi; cbn [match_result];
    [|by exists false, false].
  destruct (IH (position + Script.step i)%nat) as (r & r' & Hr & Hr' & Himp); [lia|].
  destruct (Script.data i) as [d|]; [|rewrite !ok_bind, Hr, Hr'; by exists r, r'].
  destruct (@contains_total E b d Hb) as [x Hx], (@contains_total E b' d (grown_wf _ _ Hg Hb)) as [x' Hx'].
  rewrite Hx, Hx', !ok_bind. destruct x.
  - rewrite (contains_grown b b' d Hb Hg Hx) in Hx'. injection Hx' as <-. by exists true, true.
  - rewrite Hr, Hr'. destruct x'; [by exists r, true|by exists r, r'].
Qed.

Lemma contains_any_grown {E} b b' script :
  wf_bloom b -> grown b b' ->
  exists r r', @contains_any_instruction_data _ _ E b script = Ok r /\
    contains_any_instruction_data b' script = @Ok E _ r' /\ (r = true -> r' = true).
Proof. intros Hb Hg. apply contains_data_loop_grown; [done..|lia]. Qed.

Lemma contains_any_total {E} b script : wf_bloom b -> exists r, @contains_any_instruction_data _ _ E b script = Ok r.
Proof. intros Hb. destruct (@contains_any_grown E b b script Hb) as (r & _ & Hr & _); [done|eauto]. Qed.

(** Without update flags the filter stays as it is. *)
Lemma filter_outputs_none {E} hash b outs k m b' m' :
  @filter_outputs _ _ E FlagsNone hash b outs k m = Ok (b', m') -> b' = b.
Proof.
  revert k m. induction outs as [|o outs IH]; intros k m; cbn [filter_outputs is_update_needed].
  { by intros [= -> _]. }
  rewrite ok_bind. intros Hf. apply bind_Ok in Hf as (found & _ & Hf). destruct found; [rewrite ok_bind in Hf|]; by apply IH in Hf.
Qed.

Lemma filter_transaction_none {E} self tx r self' :
  filter_flags self = FlagsNone -> @filter_transaction _ _ E self tx = Ok (r, self') -> self' = self.
Proof.
  intros Hn. unfold filter_transaction. destruct self as [[b|] flags]; cbn in *; [|by intros [= _ <-]]. subst flags.
  intros Hf. apply bind_Ok in Hf as ([b' m] & Ho & Hf). apply filter_outputs_none in Ho as ->.
  destruct m; [by injection Hf as _ <-|]. apply bind_Ok in Hf as (h & _ & Hf). destruct h; [by injection Hf as _ <-|].
  apply bind_Ok in Hf as (i & _ & Hf). by injection Hf as _ <-.
Qed.

(** With the flag for all outputs, the outpoint of every matching output goes in. *)
Definition outpoint_data (hash : bytes) (k : Z) : bytes := to_bytes outpoint_codec (mkOutPoint hash (wrap 32 k)).

Lemma filter_outputs_all {E} hash outs b k m :
  wf_bloom b -> exists b' m', @filter_outputs _ _ E FlagsAll hash b outs k m = Ok (b', m') /\ grown b b' /\
    (m = true -> m' = true) /\
    forall i o, outs !! i = Some o -> @contains_any_instruction_data _ _ E b (script_pubkey o) = Ok true ->
      m' = true /\ @contains _ _ E b' (outpoint_data hash (k + Z.of_nat i)) = Ok true.
Proof.
  revert b k m. induction outs as [|o outs IH]; intros b k m Hb; [by exists b, m|].
  cbn [filter_outputs is_update_needed]. rewrite ok_bind. destruct (@contains_any_total E b (script_pubkey o) Hb) as [f Hf].
  rewrite Hf, ok_bind.
  assert (exists b1, (if f then insert b (outpoint_data hash k) else Ok b) = @Ok E _ b1 /\ grown b b1 /\
    (f = true -> @contains _ _ E b1 (outpoint_data hash k) = Ok true)) as (b1 & Hb1 & Hg1 & Hc1).
  { destruct f; [|by exists b]. destruct (@insert_contains E b (outpoint_data hash k) Hb) as (b1 & ? & ? & ?). by exists b1. }
  destruct (IH b1 (k + 1) (if f then true else m) (grown_wf _ _ Hg1 Hb)) as (b2 & m2 & H2 & Hg2 & Hm2 & Hall).
  exists b2, m2. split; [destruct f; [fold (outpoint_data hash k); rewrite Hb1, ok_bind|injection Hb1 as ->]; exact H2|].
  split; [by etrans|]. split; [intros ->; apply Hm2; by destruct f|]. intros [|i] o' Ho Hc.
  - injection Ho as <-. rewrite Hf in Hc. injection Hc as ->. split; [by apply Hm2|].
    rewrite Z.add_0_r. apply (contains_grown b1); [by eapply grown_wf|done|by apply Hc1].
  - cbn in Ho. destruct (@contains_any_grown E b b1 (script_pubkey o') Hb Hg1) as (r & r' & Hr & Hr' & Himp).
    rewrite Hr in Hc. injection Hc as ->. rewrite Himp in Hr' by done.
    replace (k + Z.of_nat (S i)) with (k + 1 + Z.of_nat i) by lia. by apply (Hall i o').
Qed.

Lemma filter_inputs_spends {E} b ins i :
  wf_bloom b -> i ∈ ins -> @contains _ _ E b (to_bytes outpoint_codec (previous_output i)) = Ok true ->
  @filter_inputs _ _ E b ins = Ok true.
Proof.
  intros Hb Hi Hc. induction ins as [|i' ins IH]; [by apply elem_of_nil in Hi|]. cbn [filter_inputs].
  destruct (@contains_total E b (to_bytes outpoint_codec (previous_output i')) Hb) as [s Hs]. rewrite Hs, ok_bind.
  destruct s; [done|]. destruct (@contains_any_total E b (script_sig i') Hb) as [f ->]. rewrite ok_bind.
  destruct f; [done|]. apply elem_of_cons in Hi as [<-|Hi]; [congruence|by apply IH].
Qed.

Lemma filter_transaction_spends {E} b tx i :
  wf_bloom b -> i ∈ inputs (itx_raw tx) ->
  @contains _ _ E b (to_bytes outpoint_codec (previous_output i)) = Ok true ->
  exists self', @filter_transaction _ _ E (mkBloom (Some b) FlagsAll) tx = Ok (true, self').
Proof.
  intros Hb Hi Hc. unfold filter_transaction. cbn [bloom filter_flags].
  destruct (@filter_outputs_all E (itx_hash tx) (outputs (itx_raw tx)) b 0 false Hb) as (b' & m' & -> & Hg & _ & _).
  rewrite ok_bind. destruct m'; [by eexists|].
  pose proof (grown_wf _ _ Hg Hb) as Hb'. destruct (@contains_total E b' (itx_hash tx) Hb') as [h ->]. rewrite ok_bind.
  destruct h; [by eexists|]. rewrite (filter_inputs_spends b' _ i), ok_bind; [by eexists|done..|].
  by apply (contains_grown b).
Qed.

(** ** An empty filter *)

Lemma contains_empty {E} b data :
  bits b = [] -> 0 < hash_functions_num b -> @contains _ _ E b data = Panic.
Proof.
  intros Hb Hn. unfold contains. destruct (Z.to_nat (hash_functions_num b)) as [|n] eqn:He; [lia|].
  cbn [contains_from]. unfold bit_index. by rewrite Hb.
Qed.

Lemma contains_data_loop_empty {E} b script fuel position :
  bits b = [] -> 0 < hash_functions_num b -> (length script - position < fuel)%nat ->
  @contains_data_loop _ _ E fuel b script position = Ok false \/ @contains_data_loop _ _ E fuel b script position = Panic.
Proof.
  intros Hb Hn. revert position. induction fuel as [|fuel IH]; intros position Hf; [lia|]. cbn [contains_data_loop].
  destruct (Nat.leb_spec (length script) position) as [Hle|Hlt]; [by left|].
  destruct (Script.get_instruction_cases script position Hlt) as [(i & Hi & Hs & _)|(e & Hi)]; rewrite Hi; cbn [match_result];
    [|by left].
  destruct (Script.data i) as [d|]; [rewrite contains_empty by done; by right|]. rewrite ok_bind. apply IH. lia.
Qed.

Lemma filter_outputs_empty {E} hash outs b k :
  bits b = [] -> 0 < hash_functions_num b ->
  @filter_outputs _ _ E FlagsNone hash b outs k false = Ok (b, false) \/
  @filter_outputs _ _ E FlagsNone hash b outs k false = Panic.
Proof.
  intros Hb Hn. revert k. induction outs as [|o outs IH]; intros k; [by left|].
  cbn [filter_outputs is_update_needed]. rewrite ok_bind. unfold contains_any_instruction_data.
  destruct (@contains_data_loop_empty E b (script_pubkey o) (S (length (script_pubkey o))) 0 Hb Hn) as [-> | ->];
    [lia|rewrite ok_bind; apply IH|by right].
Qed.

Lemma length_byte_bits bs : length (List.flat_map byte_bits bs) = (8 * length bs)%nat.
Proof. induction bs as [|b bs IH]; [done|]. cbn [List.flat_map]. rewrite length_app, IH. cbn. lia. Qed.

Lemma filter_load_wf m :
  fl_filter m <> [] -> zlen (fl_filter m) < 2 ^ 61 -> wf_bloom (data_with_filter_load m).
Proof.
  intros Hne Hl. unfold wf_bloom. cbn [filter data_with_filter_load]. rewrite bv_iter_from_bytes, length_byte_bits.
  assert (0 < length (fl_filter m))%nat by (destruct (fl_filter m); [done|cbn; lia]).
  split_and!; [lia| |lia]. rewrite Nat.mul_comm. apply Nat.Div0.mod_mul.
Qed.

End bloom.

(** * Compact blocks *)

Section compact.
Context `{Crypto}.
Import CompactBlocks.

Lemma compact_loop_spec keys indexes txs k size ids pre :
  let '(ids', pre') := compact_loop keys indexes txs k size ids pre in
  exists new_ids new_pre, ids' = ids ++ new_ids /\ pre' = pre ++ new_pre /\
    (length new_ids + length new_pre = length txs)%nat /\
    Forall (fun p => exists i tx, prefilled_index p = Z.of_nat (k + i) /\ (k + i)%nat ∈ indexes /\
              txs !! i = Some tx /\ prefilled_transaction p = itx_raw tx) new_pre.
Proof.
  revert k size ids pre. induction txs as [|tx txs IH]; intros k size ids pre; cbn [compact_loop].
  { exists [], []. rewrite !app_nil_r. by split_and!. }
  destruct (_ && _) eqn:Hc.
  - apply andb_true_iff in Hc as [_ Hin]. apply bool_decide_eq_true in Hin.
    specialize (IH (S k) (size + serialized_size transaction_codec (itx_raw tx)) ids
      (pre ++ [mkPrefilled (Z.of_nat k) (itx_raw tx)])).
    destruct (compact_loop _ _ _ _ _ _ _) as [ids' pre']. destruct IH as (ni & np & -> & -> & Hl & Hall).
    exists ni, (mkPrefilled (Z.of_nat k) (itx_raw tx) :: np). rewrite <- app_assoc. split_and!; [done|done|cbn; lia|].
    apply Forall_cons. split; [by exists 0%nat, tx; rewrite Nat.add_0_r|].
    eapply Forall_impl; [exact Hall|]. intros p (i & t & Hi & Hk & Ht & Hp). exists (S i), t.
    by replace (k + S i)%nat with (S k + i)%nat by lia.
  - specialize (IH (S k) size (ids ++ [short_transaction_id keys.1 keys.2 (itx_hash tx)]) pre).
    destruct (compact_loop _ _ _ _ _ _ _) as [ids' pre']. destruct IH as (ni & np & -> & -> & Hl & Hall).
    eexists (_ :: ni), np. rewrite <- app_assoc. split_and!; [done|done|cbn; lia|].
    eapply Forall_impl; [exact Hall|]. intros p (i & t & Hi & Hk & Ht & Hp). exists (S i), t.
    by replace (k + S i)%nat with (S k + i)%nat by lia.
Qed.

End compact.

Lemma elem_of_positions test txs k :
  k ∈ Connection.positions test txs <-> exists tx, txs !! k = Some tx /\ test tx = true.
Proof.
  unfold Connection.positions. rewrite list_elem_of_fmap. split.
  - intros ([i tx] & -> & Hin). apply list_elem_of_In, filter_In in Hin as [Hin Ht]. cbn in *. exists tx. split; [|done].
    apply list_elem_of_In, list_elem_of_lookup in Hin as [j Hj]. apply lookup_zip_Some in Hj as [Hs Htx].
    apply lookup_seq in Hs as [-> _]. done.
  - intros (tx & Htx & Ht). exists (k, tx). split; [done|]. apply list_elem_of_In, filter_In. split; [|done].
    apply list_elem_of_In, list_elem_of_lookup. exists k. apply lookup_zip_Some. split; [|done].
    apply lookup_seq. split; [done|]. by apply lookup_lt_Some in Htx.
Qed.

Lemma length_positions test txs : (length (Connection.positions test txs) <= length txs)%nat.
Proof.
  unfold Connection.positions. rewrite length_map. etrans; [apply filter_length_le|].
  rewrite length_zip_with, length_seq. lia.
Qed.

(** * Filtered blocks *)

Section merkle.
Context `{CryptoLaws} `{Murmur3} `{BitVecLaws} `{LinkedHashMap bytes KnownHash.KnownHashType}.
Import Connection PartialMerkle.

Lemma match_transactions_spec {E} b txs hs v ms b' hs' v' ms' :
  @match_transactions _ _ E b txs hs v ms = Ok (b', hs', v', ms') ->
  exists flags, length flags = length txs /\ hs' = hs ++ map itx_hash txs /\
    bv_iter v' = bv_iter v ++ flags /\ ms' = ms ++ pick flags txs.
Proof.
  revert b hs v ms. induction txs as [|t txs IH]; intros b hs v ms; cbn [match_transactions].
  { intros [= <- <- <- <-]. exists []. by rewrite !app_nil_r. }
  intros Hm. apply bind_Ok in Hm as ([flag b1] & _ & Hm). apply IH in Hm as (flags & Hl & -> & Hv & ->).
  exists (flag :: flags). rewrite Hv, bv_iter_push, <- !app_assoc. cbn [map pick length].
  split_and!; [lia|done|done|]. destruct flag; [by rewrite <- app_assoc|done].
Qed.

Lemma map_pick {X Y} (f : X -> Y) flags l : map f (pick flags l) = pick flags (map f l).
Proof. revert l. induction flags as [|[] flags IH]; intros [|a l]; cbn; f_equal; auto. Qed.

(** The bits of a message's flag field, the lowest of a byte first. *)
Definition low_bits (b : byte) : list bool := map (fun k => Z.testbit (u8 b) k) [0; 1; 2; 3; 4; 5; 6; 7].
Definition flag_bits (flags : bytes) : list bool := List.flat_map low_bits flags.

Lemma flag_bits_reversed flags : flag_bits (map reverse_bits flags) = List.flat_map byte_bits flags.
Proof.
  unfold flag_bits. induction flags as [|b flags IH]; [done|]. cbn [map List.flat_map]. rewrite IH. f_equal.
  destruct b; vm_compute; reflexivity.
Qed.

End merkle.

(** * Theorems *)

(** A bloom filter has no false negatives: once data has been inserted in a filter a
    peer loaded, it is found whatever was inserted before and is inserted after. *)
Theorem bloom_no_false_negatives `{Murmur3} `{BitVecLaws} {E} m data before after :
  fl_filter m <> [] -> zlen (fl_filter m) < 2 ^ 61 ->
  exists b, @insert_all _ _ E (Bloom.data_with_filter_load m) (before ++ data :: after) = Ok b /\
    @Bloom.contains _ _ E b data = Ok true.
Proof.
  intros Hne Hl. pose proof (filter_load_wf m Hne Hl) as Hwf. generalize dependent (Bloom.data_with_filter_load m).
  induction before as [|d before IH]; intros b Hwf; cbn [app insert_all].
  - destruct (@insert_contains _ _ _ E b data Hwf) as (b1 & -> & Hg & Hc). rewrite ok_bind.
    pose proof (grown_wf _ _ Hg Hwf) as Hwf1. destruct (@insert_all_grown _ _ _ E b1 after Hwf1) as (b2 & Hi & Hg2).
    exists b2. split; [done|by apply (contains_grown b1)].
  - destruct (@insert_contains _ _ _ E b d Hwf) as (b1 & -> & Hg & _). rewrite ok_bind.
    apply IH. by apply (grown_wf b).
Qed.

(** A filter that follows all outputs matches every transaction that spends an output
    it has matched. *)
Theorem bloom_follows_outputs `{Murmur3} `{BitVecLaws} {E} m tx k o tx' i :
  fl_filter m <> [] -> zlen (fl_filter m) < 2 ^ 61 -> fl_flags m = FlagsAll ->
  outputs (itx_raw tx) !! k = Some o ->
  @Bloom.contains_any_instruction_data _ _ E (Bloom.data_with_filter_load m) (script_pubkey o) = Ok true ->
  i ∈ inputs (itx_raw tx') -> previous_output i = mkOutPoint (itx_hash tx) (Z.of_nat k) -> Z.of_nat k < 2 ^ 32 ->
  exists self self', @Bloom.filter_transaction _ _ E (Bloom.with_filter_load m) tx = Ok (true, self) /\
    @Bloom.filter_transaction _ _ E self tx' = Ok (true, self').
Proof.
  intros Hne Hl Hf Ho Hc Hi Hp Hk. pose proof (filter_load_wf m Hne Hl) as Hwf.
  unfold Bloom.with_filter_load, Bloom.filter_transaction at 1. rewrite Hf. cbn [Bloom.bloom Bloom.filter_flags].
  destruct (@filter_outputs_all _ _ _ E (itx_hash tx) (outputs (itx_raw tx)) _ 0 false Hwf) as (b' & m' & -> & Hg & _ & Hall).
  destruct (Hall k o Ho Hc) as [-> Hin]. rewrite ok_bind. eexists.
  destruct (@filter_transaction_spends _ _ _ E b' tx' i (grown_wf _ _ Hg Hwf) Hi) as (self' & Hs).
  - rewrite Hp. unfold outpoint_data in Hin. rewrite Z.add_0_l, wrap_uint in Hin by (split; lia). done.
  - exists self'. by split.
Qed.

(** What a connection does with its bloom filter. *)
Inductive bloom_step `{Murmur3} `{BitVec} : Bloom.BloomFilter -> Bloom.BloomFilter -> Prop :=
  | step_load self m : bloom_step self (Bloom.set_bloom_filter self m)
  | step_add self data self' : @Bloom.update_bloom_filter _ _ unit self data = Ok self' -> bloom_step self self'
  | step_clear self : bloom_step self (Bloom.remove_bloom_filter self)
  | step_transaction self tx r self' :
      @Bloom.filter_transaction _ _ unit self tx = Ok (r, self') -> bloom_step self self'.

Lemma update_flags `{Murmur3} `{BitVec} self data self' :
  @Bloom.update_bloom_filter _ _ unit self data = Ok self' -> Bloom.filter_flags self' = Bloom.filter_flags self.
Proof.
  unfold Bloom.update_bloom_filter. destruct (Bloom.bloom self); [|by intros [= <-]].
  intros Hu. apply bind_Ok in Hu as (b1 & _ & Hu). by injection Hu as <-.
Qed.

(** The update flags of a loaded filter are lost: on a connection, whatever filters
    the peer loads, matching a transaction never inserts anything. *)
Theorem bloom_flags_ignored `{Murmur3} `{BitVec} self :
  rtc bloom_step Bloom.default_filter self ->
  Bloom.filter_flags self = FlagsNone /\
  forall tx r self', @Bloom.filter_transaction _ _ unit self tx = Ok (r, self') -> self' = self.
Proof.
  intros Hr. assert (Bloom.filter_flags self = FlagsNone) as Hn.
  { assert (Bloom.filter_flags Bloom.default_filter = FlagsNone) as Hd by done. revert Hd.
    induction Hr as [|x y z Hs _ IH]; [done|]. intros Hx. apply IH. destruct Hs as [| | |s tx r s' Hf]; [done| |done|].
    - by erewrite update_flags.
    - apply filter_transaction_none in Hf as ->; done. }
  split; [done|]. intros tx r self' Hf. by apply filter_transaction_none in Hf.
Qed.

(** Loading an empty filter makes the next transaction announced to the peer, any
    transaction, panic the node. *)
Theorem empty_filter_panics `{Murmur3} `{BitVecLaws} `{L : LinkedHashMap bytes KnownHash.KnownHashType} `{!LinkedHashMapLaws L} {E} m tx fee :
  fl_filter m = [] -> 0 < fl_hash_functions m -> 0 <= default 0 fee ->
  @Connection.filter_transaction _ _ _ E (Connection.load Connection.default_filter m) tx fee = Panic.
Proof.
  intros Hf Hn Hfee. unfold Connection.filter_transaction.
  assert (KnownHash.filter_transaction (Connection.known_hash_filter (Connection.load Connection.default_filter m)) (itx_hash tx) = true) as ->.
  { unfold KnownHash.filter_transaction. cbn. by rewrite lhm_get_spec, lhm_entries_new. }
  assert (FeeRate.filter_transaction (Connection.fee_rate_filter (Connection.load Connection.default_filter m)) fee = true) as ->.
  { unfold FeeRate.filter_transaction. cbn. destruct fee; [by apply Z.leb_le|done]. }
  cbn [andb]. unfold Bloom.filter_transaction. cbn [Connection.load Connection.bloom_filter Connection.with_bloom_filter
    Bloom.set_bloom_filter Bloom.bloom Bloom.filter_flags Connection.default_filter Bloom.default_filter].
  assert (bv_iter (Bloom.filter (Bloom.data_with_filter_load m)) = []) as Hb.
  { cbn. rewrite bv_iter_from_bytes. by rewrite Hf. }
  destruct (filter_outputs_empty (E := E) (itx_hash tx) (outputs (itx_raw tx)) (Bloom.data_with_filter_load m) 0 Hb Hn) as [-> | ->];
    [|done]. rewrite ok_bind. cbn iota beta. by rewrite contains_empty.
Qed.

(** C40: A filtered block proves its transactions: from the message a client recovers the
    block's merkle root and the hashes of exactly the transactions sent along, in
    block order; unless two nodes of the block's own merkle tree are different strings
    with the same double hash.  The block's transactions have distinct hashes of 32
    bytes, fewer than 2^32. *)
Theorem merkle_block_proves `{CryptoLaws} `{Murmur3} `{BitVecLaws} `{LinkedHashMap bytes KnownHash.KnownHashType} {E}
    self block a self' :
  NoDup (map itx_hash (ib_transactions block)) ->
  Forall (fun tx => length (itx_hash tx) = 32%nat) (ib_transactions block) ->
  ib_transactions block <> [] -> zlen (ib_transactions block) < 2 ^ 32 ->
  @Connection.build_merkle_block _ _ _ _ E self block = Ok (Some a, self') ->
  let m := Connection.merkleblock a in
  collides (merkle_nodes (map itx_hash (ib_transactions block))) \/ exists v p,
    flag_bits (mb_flags m) = bv_iter v ++ replicate (bv_padding (length (bv_iter v))) false /\
    PartialMerkle.parse_partial_merkle_tree (PartialMerkle.mkTree (total_transactions m) (mb_hashes m) v) = Ok p /\
    block_merkle_root block = @Ok E _ (PartialMerkle.parsed_root p) /\
    PartialMerkle.parsed_hashes p = map itx_hash (Connection.matching_transactions a).
Proof.
  intros Hnd H32 Hne Hl. unfold Connection.build_merkle_block. destruct (negb _); [done|].
  intros Hb. apply bind_Ok in Hb as ([[[b hs] v] ms] & Hm & Hb). apply bind_Ok in Hb as (t & Ht & Hb).
  injection Hb as <- <-. cbn [Connection.merkleblock Connection.matching_transactions mb_flags mb_hashes total_transactions].
  apply match_transactions_spec in Hm as (flags & Hlen & -> & Hv & ->).
  rewrite bv_iter_from_elem in Hv. cbn [replicate app] in *.
  destruct (@PartialMerkle.partial_tree_parses _ _ _ _ E (map itx_hash (ib_transactions block)) v) as (t' & Ht' & Hc & Hp).
  - by intros ?%fmap_nil_inv.
  - rewrite length_map. lia.
  - by apply Forall_map.
  - done.
  - by rewrite Hv, Hlen, length_map.
  - rewrite Ht in Ht'. injection Ht' as <-. destruct Hp as [Hcol|(p & Hp & Hr & Hh & Hf)]; [by left|right].
    exists (PartialMerkle.tree_flags t), p. rewrite flag_bits_reversed, <- bv_iter_from_bytes, bv_bytes_roundtrip.
    rewrite wrap_uint by (split; lia). rewrite length_map in Hc. rewrite <- Hc.
    split; [done|]. split; [by destruct t|]. split; [exact Hr|]. by rewrite Hh, Hv, map_pick.
Qed.

(** A compact block lists every transaction once, by its short identifier or in full;
    but the ones given in full are those the peer is known to have. *)
Theorem compact_block_prefills_known `{Crypto} `{Murmur3} `{BitVec} `{LinkedHashMap bytes KnownHash.KnownHashType} {E}
    nonce self block :
  zlen (ib_transactions block) < 2 ^ 64 ->
  exists c, Connection.build_compact_block (E := E) nonce self block = Ok c /\
    (length (short_ids c) + length (prefilled_transactions c) = length (ib_transactions block))%nat /\
    Forall (fun p => exists i tx, prefilled_index p = Z.of_nat i /\ ib_transactions block !! i = Some tx /\
      prefilled_transaction p = itx_raw tx /\
      Connection.is_hash_known_as self (itx_hash tx) KnownHash.Transaction = true) (prefilled_transactions c).
Proof.
  intros Hl. unfold Connection.build_compact_block, CompactBlocks.build_compact_block.
  set (idx := Connection.positions _ _). pose proof (length_positions
    (fun tx => KnownHash.contains (Connection.known_hash_filter self) (itx_hash tx) KnownHash.Transaction)
    (ib_transactions block)) as Hle. fold idx in Hle.
  rewrite ucheck_Ok, ok_bind by (split; lia).
  pose proof (compact_loop_spec (CompactBlocks.short_transaction_id_keys nonce (ih_raw (ib_header block))) idx
    (ib_transactions block) 0 0 [] []) as Hs.
  destruct (CompactBlocks.compact_loop _ _ _ _ _ _ _) as [ids pre]. destruct Hs as (ni & np & -> & -> & Hlen & Hall).
  eexists. split; [done|]. split; [exact Hlen|]. eapply Forall_impl; [exact Hall|].
  intros p (i & tx & Hi & Hin & Htx & Hp). exists i, tx. split_and!; [done..|].
  apply elem_of_positions in Hin as (tx' & Htx' & Hk). rewrite Nat.add_0_l in Htx'. rewrite Htx in Htx'. by injection Htx' as <-.
Qed.

End FiltersSpec.

(** * Instances of the packages, and witnesses *)

Module ExampleFilters.

#[export] Instance example_murmur : Murmur3 := {| murmur3_32 := fun data seed => le_value (take 4 data) |}.

End ExampleFilters.

Section witnesses.
Import Ser Chain ChainHash Message FiltersSpec ExampleLinked ExampleFilters ExampleCrypto ExampleBits.

Lemma known_hashes_window_witness :
  KnownHash.contains (inserts KnownHash.default_filter [(replicate 32 x01, KnownHash.Block)])
    (replicate 32 x01) KnownHash.Block = true.
Proof.
  apply (known_hashes_window [(replicate 32 x01, KnownHash.Block)] (replicate 32 x01) KnownHash.Block);
    [apply NoDup_singleton|apply list_elem_of_here].
Defined.

(** One byte, one bit set; one hash function. *)
Definition example_load (flags : FilterFlags) : FilterLoad := mkFilterLoad [x01] 1 0 flags.

Lemma bloom_no_false_negatives_witness :
  exists b, @insert_all _ list_bits unit (Bloom.data_with_filter_load (example_load FlagsNone)) ([[x05]] ++ [x02] :: [[x06]]) = Ok b /\
    @Bloom.contains _ list_bits unit b [x02] = Ok true.
Proof.
  apply (@bloom_no_false_negatives _ list_bits _ unit (example_load FlagsNone) [x02] [[x05]] [[x06]]);
    [discriminate|vm_compute; reflexivity].
Defined.

(** A transaction whose output pushes matching data, and one that spends the output. *)
Definition example_paying : IndexedTransaction :=
  mkIndexedTx (replicate 32 x01) (mkTx 1 [coinbase_input [x01; x02]] [mkOutput 5 [x02; x00; x01]] 0).
Definition example_spending : IndexedTransaction :=
  mkIndexedTx (replicate 32 x03) (mkTx 1 [mkInput (mkOutPoint (replicate 32 x01) 0) [] 0 []] [mkOutput 5 []] 0).

Lemma bloom_follows_outputs_witness :
  exists self self', @Bloom.filter_transaction _ list_bits unit (Bloom.with_filter_load (example_load FlagsAll)) example_paying = Ok (true, self) /\
    @Bloom.filter_transaction _ list_bits unit self example_spending = Ok (true, self').
Proof.
  apply (@bloom_follows_outputs _ list_bits _ unit (example_load FlagsAll) example_paying 0 (mkOutput 5 [x02; x00; x01])
    example_spending (mkInput (mkOutPoint (replicate 32 x01) 0) [] 0 []));
    [discriminate|vm_compute; reflexivity|reflexivity|reflexivity|vm_compute; reflexivity|apply list_elem_of_here
    |reflexivity|vm_compute; reflexivity].
Defined.

(** The same filter, loaded by a peer with the flag for all outputs: nothing follows. *)
Lemma bloom_flags_ignored_witness :
  let self := Bloom.set_bloom_filter Bloom.default_filter (example_load FlagsAll) in
  Bloom.filter_flags self = FlagsNone /\
  @Bloom.filter_transaction _ list_bits unit self example_paying = Ok (true, self) /\
  @Bloom.filter_transaction _ list_bits unit self example_spending = Ok (false, self).
Proof.
  intros self.
  assert (@Bloom.filter_transaction _ list_bits unit self example_paying = Ok (true, self)) as H1
    by vm_cast_no_check (eq_refl (@Ok unit _ (true, self))).
  assert (@Bloom.filter_transaction _ list_bits unit self example_spending = Ok (false, self)) as H2
    by vm_cast_no_check (eq_refl (@Ok unit _ (false, self))).
  destruct (@bloom_flags_ignored _ list_bits self) as [Hflags _]; [apply rtc_once, step_load|].
  split; [exact Hflags|split; [exact H1|exact H2]].
Defined.

Lemma empty_filter_panics_witness :
  @Connection.filter_transaction _ list_bits _ unit
    (Connection.load Connection.default_filter (mkFilterLoad [] 1 0 FlagsNone)) example_paying None = Panic.
Proof. apply empty_filter_panics; [reflexivity|reflexivity|reflexivity]. Defined.

Definition example_block : IndexedBlock :=
  mkIndexedBlock (mkIndexedHeader zero_hash (mkHeader 1 zero_hash zero_hash 0 0 0)) [example_paying; example_spending].

Definition example_artefacts : Connection.MerkleBlockArtefacts :=
  Connection.mkArtefacts
    (mkMerkleBlock (mkHeader 1 zero_hash zero_hash 0 0 0) 2 [replicate 32 x01; replicate 32 x03] [x03]) [example_paying].

Lemma merkle_block_proves_witness :
  let self := Connection.load Connection.default_filter (example_load FlagsNone) in
  @Connection.build_merkle_block _ _ list_bits _ unit self example_block = Ok (Some example_artefacts, self) /\
  exists v p,
    PartialMerkle.parse_partial_merkle_tree (PartialMerkle.mkTree 2 [replicate 32 x01; replicate 32 x03] v) = Ok p /\
    PartialMerkle.parsed_hashes p = [replicate 32 x01].
Proof.
  intros self.
  assert (@Connection.build_merkle_block _ _ list_bits _ unit self example_block = Ok (Some example_artefacts, self)) as Hb
    by vm_cast_no_check (eq_refl (@Ok unit _ (Some example_artefacts, self))).
  split; [exact Hb|].
  destruct (@merkle_block_proves _ _ _ list_bits _ _ unit self example_block example_artefacts self)
    as [Hc|(v & p & _ & Hp & _ & Hh)].
  - apply (bool_decide_unpack _). vm_compute. exact I.
  - repeat constructor.
  - discriminate.
  - vm_compute. reflexivity.
  - exact Hb.
  - exfalso. revert Hc. apply (collides_same (replicate 32 x01 ++ replicate 32 x03)). by repeat constructor.
  - exists v, p. split; [exact Hp|exact Hh].
Defined.

End witnesses.
