(* ===== verification/Peers.v ===== *)
(** Connected peers (src/sync/src/synchronization_peers.rs) and the guards of their
    messages (src/sync/src/inbound_connection.rs).  A connection is a handle; closing
    it is an effect recorded in the state. *)
From Stdlib Require Import ZArith Lia Strings.Byte.
From stdpp Require Import base decidable numbers countable gmap list.
From S2P Require Import Prelude Crypto Serialization Codec Chain ChainHash Network Storage Message LinkedMap Filters FiltersSpec.

Local Open Scope Z_scope.

Module Peers.
Import Chain ChainHash Message.

Inductive BlockAnnouncementType := SendInventory | SendHeaders | SendCompactBlock | DoNotAnnounce.
Inductive TransactionAnnouncementType := TxSendInventory | TxDoNotAnnounce.

Section peers.
Context `{Crypto} `{Murmur3} `{BitVec} `{LinkedHashMap bytes KnownHash.KnownHashType}.
Context {connection : Type}.

Record Peer := mkPeer {
  peer_connection : connection;
  peer_services : Z;
  peer_filter : Connection.ConnectionFilter;
  block_announcement_type : BlockAnnouncementType;
  transaction_announcement_type : TransactionAnnouncementType;
}.

Definition peer_new (services : Z) (c : connection) : Peer :=
  mkPeer c services Connection.default_filter SendInventory TxSendInventory.

Definition with_filter (p : Peer) (f : Connection.ConnectionFilter) : Peer :=
  mkPeer (peer_connection p) (peer_services p) f (block_announcement_type p) (transaction_announcement_type p).

(** The peers by their index, and the connections that were closed, the last first. *)
Record PeersImpl := mkPeers { peers : gmap Z Peer; closed : list connection }.

(** ** Peers *)

(** The peers to disconnect are collected first; the order of a hash map is
    arbitrary. *)
Definition require_peer_services (self : PeersImpl) (required : Z) : PeersImpl :=
  let selected := List.filter (fun p => includes (peer_services p.2) required) (map_to_list (peers self)) in
  foldl (fun self p => mkPeers (delete p.1 (peers self)) (peer_connection p.2 :: closed self)) self selected.

Definition peer_connection_of (self : PeersImpl) (peer_index : Z) : option connection :=
  peer_connection <$> peers self !! peer_index.

(** ** Container *)

Definition enumerate (self : PeersImpl) : list Z := map fst (map_to_list (peers self)).

Definition insert {E} (self : PeersImpl) (peer_index services : Z) (c : connection) : outcome E PeersImpl :=
  let self' := mkPeers (<[peer_index := peer_new services c]> (peers self)) (closed self) in
  _ ← rust_assert (bool_decide (peers self !! peer_index = None));
  Ok self'.

Definition remove (self : PeersImpl) (peer_index : Z) : PeersImpl :=
  mkPeers (delete peer_index (peers self)) (closed self).

(** Both [misbehaving] and [dos]: they differ in what is logged. *)
Definition disconnect (self : PeersImpl) (peer_index : Z) : PeersImpl :=
  match peers self !! peer_index with
  | Some p => mkPeers (delete peer_index (peers self)) (peer_connection p :: closed self)
  | None => self
  end.

(** ** Filters *)

Definition update_filter (self : PeersImpl) (peer_index : Z)
    (f : Connection.ConnectionFilter -> Connection.ConnectionFilter) : PeersImpl :=
  match peers self !! peer_index with
  | Some p => mkPeers (<[peer_index := with_filter p (f (peer_filter p))]> (peers self)) (closed self)
  | None => self
  end.

Definition set_bloom_filter (self : PeersImpl) (peer_index : Z) (m : FilterLoad) : PeersImpl :=
  update_filter self peer_index (fun f => Connection.load f m).

Definition update_bloom_filter {E} (self : PeersImpl) (peer_index : Z) (data : bytes) : outcome E PeersImpl :=
  match peers self !! peer_index with
  | Some p =>
      f ← Connection.add (peer_filter p) data;
      Ok (mkPeers (<[peer_index := with_filter p f]> (peers self)) (closed self))
  | None => Ok self
  end.

Definition clear_bloom_filter (self : PeersImpl) (peer_index : Z) : PeersImpl :=
  update_filter self peer_index Connection.clear.

Definition set_fee_filter (self : PeersImpl) (peer_index fee_rate : Z) : PeersImpl :=
  update_filter self peer_index (fun f => Connection.set_fee_rate f fee_rate).

Definition filter_block (self : PeersImpl) (peer_index : Z) (block : IndexedBlock) : BlockAnnouncementType :=
  match peers self !! peer_index with
  | Some p =>
      if Connection.filter_block (peer_filter p) (ih_hash (ib_header block)) then block_announcement_type p
      else DoNotAnnounce
  | None => DoNotAnnounce
  end.

(** The bloom filter of the peer may change. *)
Definition filter_transaction {E} (self : PeersImpl) (peer_index : Z) (tx : IndexedTransaction) (fee_rate : option Z)
    : outcome E (TransactionAnnouncementType * PeersImpl) :=
  match peers self !! peer_index with
  | Some p =>
      '(pass, f) ← Connection.filter_transaction (peer_filter p) tx fee_rate;
      let self' := mkPeers (<[peer_index := with_filter p f]> (peers self)) (closed self) in
      Ok (if (pass : bool) then transaction_announcement_type p else TxDoNotAnnounce, self')
  | None => Ok (TxDoNotAnnounce, self)
  end.

Definition hash_known_as (self : PeersImpl) (peer_index : Z) (hash : bytes) (t : KnownHash.KnownHashType) : PeersImpl :=
  update_filter self peer_index (fun f => Connection.hash_known_as f hash t).

Definition is_hash_known_as (self : PeersImpl) (peer_index : Z) (hash : bytes) (t : KnownHash.KnownHashType) : bool :=
  match peers self !! peer_index with
  | Some p => Connection.is_hash_known_as (peer_filter p) hash t
  | None => false
  end.

Definition build_compact_block {E} (nonce : Z) (self : PeersImpl) (peer_index : Z) (block : IndexedBlock)
    : outcome E (option BlockHeaderAndIDs) :=
  match peers self !! peer_index with
  | Some p => c ← Connection.build_compact_block nonce (peer_filter p) block; Ok (Some c)
  | None => Ok None
  end.

Definition build_merkle_block {E} (self : PeersImpl) (peer_index : Z) (block : IndexedBlock)
    : outcome E (option Connection.MerkleBlockArtefacts * PeersImpl) :=
  match peers self !! peer_index with
  | Some p =>
      '(a, f) ← Connection.build_merkle_block (peer_filter p) block;
      Ok (a, mkPeers (<[peer_index := with_filter p f]> (peers self)) (closed self))
  | None => Ok (None, self)
  end.

(** ** Options *)

Definition is_segwit_enabled (self : PeersImpl) (peer_index : Z) : bool :=
  match peers self !! peer_index with Some p => witness (peer_services p) | None => false end.

Definition set_block_announcement_type (self : PeersImpl) (peer_index : Z) (t : BlockAnnouncementType) : PeersImpl :=
  match peers self !! peer_index with
  | Some p =>
      mkPeers (<[peer_index := mkPeer (peer_connection p) (peer_services p) (peer_filter p) t
                                 (transaction_announcement_type p)]> (peers self)) (closed self)
  | None => self
  end.

Definition set_transaction_announcement_type (self : PeersImpl) (peer_index : Z) (t : TransactionAnnouncementType)
    : PeersImpl :=
  match peers self !! peer_index with
  | Some p =>
      mkPeers (<[peer_index := mkPeer (peer_connection p) (peer_services p) (peer_filter p)
                                 (block_announcement_type p) t]> (peers self)) (closed self)
  | None => self
  end.

(** * Guards of inbound messages (inbound_connection.rs) *)

(** What a message leads to: nothing, the peer is cut off as a denial of service, or
    the node handles it. *)
Inductive Guarded := Ignored | CutOff | Handled.

Definition on_inventory (inventory : list InventoryVector) : Guarded :=
  match inventory with [] => Ignored | _ => if 50000 <? zlen inventory then CutOff else Handled end.
Definition on_getdata (inventory : list InventoryVector) : Guarded :=
  match inventory with [] => Ignored | _ => if 50000 <? zlen inventory then CutOff else Handled end.
Definition on_headers (headers : list BlockHeader) : Guarded :=
  match headers with [] => Ignored | _ => if 2000 <? zlen headers then CutOff else Handled end.
Definition on_filterload (m : FilterLoad) : Guarded :=
  if 36000 <? zlen (fl_filter m) then CutOff
  else if 50 <? fl_hash_functions m then CutOff
  else Handled.
Definition on_filteradd (data : bytes) : Guarded := if 520 <? zlen data then CutOff else Handled.

(** The handler of [filterload], with the node's (local_node.rs). *)
Definition handle_filterload (self : PeersImpl) (peer_index : Z) (m : FilterLoad) : PeersImpl :=
  match on_filterload m with
  | CutOff => disconnect self peer_index
  | Handled => set_bloom_filter self peer_index m
  | Ignored => self
  end.

(** * Theorems *)

Lemma disconnect_all_peers (l : list (Z * Peer)) self :
  peers (foldl (fun self p => mkPeers (delete p.1 (peers self)) (peer_connection p.2 :: closed self)) self l) =
    foldr delete (peers self) (map fst (rev l)) /\
  closed (foldl (fun self p => mkPeers (delete p.1 (peers self)) (peer_connection p.2 :: closed self)) self l) =
    rev (map (fun p => peer_connection p.2) l) ++ closed self.
Proof.
  revert self. induction l as [|p l IH]; intros self; [done|]. cbn [foldl].
  destruct (IH (mkPeers (delete p.1 (peers self)) (peer_connection p.2 :: closed self))) as [-> ->].
  cbn. rewrite map_app, foldr_app, <- app_assoc. done.
Qed.

Lemma foldr_delete_lookup (ks : list Z) (m : gmap Z Peer) i :
  foldr delete m ks !! i = if decide (i ∈ ks) then None else m !! i.
Proof.
  induction ks as [|k ks IH]; cbn [foldr]; [by rewrite decide_False by set_solver|].
  destruct (decide (k = i)) as [-> |Hne].
  - rewrite lookup_delete_eq, decide_True by set_solver. done.
  - rewrite lookup_delete_ne, IH by done. by repeat case_decide; set_solver.
Qed.

(** Requiring services of the peers keeps a peer if and only if it does NOT offer them
    all, and closes the connection of each peer that does. *)
Theorem require_services_keeps_lacking self required i :
  let self' := require_peer_services self required in
  (peers self' !! i =
    p ← peers self !! i; if includes (peer_services p) required then None else Some p) /\
  (forall p, peers self !! i = Some p -> includes (peer_services p) required = true ->
    peer_connection p ∈ closed self').
Proof.
  set (selected := List.filter (fun p => includes (peer_services p.2) required) (map_to_list (peers self))).
  assert (forall p, (i, p) ∈ selected <-> peers self !! i = Some p /\ includes (peer_services p) required = true) as Hsel.
  { intros p. unfold selected. rewrite list_elem_of_In, filter_In, <- list_elem_of_In, elem_of_map_to_list. done. }
  cbn zeta. unfold require_peer_services. fold selected.
  destruct (disconnect_all_peers selected self) as [-> ->]. split.
  - rewrite foldr_delete_lookup. case_decide as Hin.
    + rewrite list_elem_of_In, in_map_iff in Hin. destruct Hin as ([j p] & Hj & Hp). cbn in Hj. subst j.
      rewrite <- in_rev, <- list_elem_of_In, Hsel in Hp. destruct Hp as [-> Hs]. cbn. by rewrite Hs.
    + destruct (peers self !! i) as [p|] eqn:Hp; [|done]. cbn.
      destruct (includes (peer_services p) required) eqn:Hs; [|done]. exfalso. apply Hin.
      rewrite list_elem_of_In, in_map_iff. exists (i, p). split; [done|].
      rewrite <- in_rev, <- list_elem_of_In. by apply Hsel.
  - intros p Hp Hs. apply elem_of_app. left. rewrite list_elem_of_In, <- in_rev, in_map_iff.
    exists (i, p). split; [done|]. rewrite <- list_elem_of_In. by apply Hsel.
Qed.

End peers.

(** A peer that has just connected sends an empty filter: the message passes the
    limits, the peer stays connected, and the next transaction to be announced to it
    panics. *)
Theorem empty_filterload_panics `{Murmur3} `{BitVecLaws} `{L : LinkedHashMap bytes KnownHash.KnownHashType} `{!LinkedHashMapLaws L}
    {connection E} self i services (c : connection) self1 m tx fee :
  insert (E := E) self i services c = Ok self1 ->
  fl_filter m = [] -> 0 < fl_hash_functions m <= 50 -> 0 <= default 0 fee ->
  peer_connection_of (handle_filterload self1 i m) i = Some c /\
  filter_transaction (E := E) (handle_filterload self1 i m) i tx fee = Panic.
Proof.
  intros Hi Hf Hn Hfee. unfold insert, rust_assert in Hi.
  destruct (bool_decide _); cbn in Hi; [|discriminate]. injection Hi as <-.
  unfold handle_filterload, on_filterload. rewrite Hf. cbn [length Z.of_nat Z.ltb Z.compare].
  rewrite (proj2 (Z.ltb_ge 50 _)) by lia. change (36000 <? Z.of_nat 0) with false. cbn iota.
  unfold set_bloom_filter, update_filter, peer_connection_of, filter_transaction. cbn [peers].
  rewrite lookup_insert_eq. cbn [peers]. rewrite lookup_insert_eq. split; [done|].
  cbn [with_filter peer_filter peer_new]. by rewrite FiltersSpec.empty_filter_panics by (done || lia).
Qed.

End Peers.

(** * Examples *)

Section examples.
Import Chain ChainHash Message.
Import FiltersSpec ExampleLinked ExampleFilters ExampleCrypto ExampleBits.

Definition example_peers : Peers.PeersImpl :=
  Peers.mkPeers (list_to_map [(1, Peers.peer_new 9 10); (2, Peers.peer_new 1 20)]) [].

(** Node-network and witness bits are required: the peer that has both is cut off, the
    one without the witness bit stays. *)
Example services_required_inverted :
  Peers.enumerate (Peers.require_peer_services example_peers 8) = [2] /\
  Peers.closed (Peers.require_peer_services example_peers 8) = [10].
Proof. split; vm_compute; reflexivity. Qed.

Lemma empty_filterload_panics_witness :
  let self := Peers.handle_filterload (Peers.mkPeers (<[1 := Peers.peer_new 0 10]> ∅) []) 1 (mkFilterLoad [] 1 0 FlagsNone) in
  Peers.peer_connection_of self 1 = Some 10 /\
  Peers.filter_transaction (E := unit) self 1 example_paying None = Panic.
Proof.
  apply (Peers.empty_filterload_panics (E := unit) (Peers.mkPeers ∅ []) 1 0 10);
    [reflexivity|reflexivity|vm_compute; split; congruence|reflexivity].
Defined.

End examples.
