(* ===== verification/HashQueue.v ===== *)
(** Queues of hashes (src/sync/src/utils/hash_queue.rs) and the chain of headers ahead
    of the stored blocks (src/sync/src/utils/best_headers_chain.rs). *)
From Stdlib Require Import ZArith Lia Strings.Byte.
From stdpp Require Import base decidable numbers countable gmap list relations.
From S2P Require Import Prelude Crypto Serialization Codec Chain ChainHash.

Local Open Scope Z_scope.

Module HashQueue.

Inductive HashPosition := Missing | Front | Inside (position : Z).

(** A vector of hashes and the set of its elements. *)
Record HashQueue := mkQueue { queue : list bytes; set : gset bytes }.

Definition new : HashQueue := mkQueue [] ∅.
Definition clear (self : HashQueue) : HashQueue := mkQueue [] ∅.
Definition len (self : HashQueue) : Z := wrap 32 (zlen (queue self)).
Definition front (self : HashQueue) : option bytes := head (queue self).
Definition back (self : HashQueue) : option bytes := last (queue self).

(** The positions of the hash, of which the first is taken. *)
Fixpoint positions_from (hash : bytes) (pos : Z) (l : list bytes) : list Z :=
  match l with
  | [] => []
  | h :: l => if bool_decide (hash = h) then wrap 32 pos :: positions_from hash (pos + 1) l
              else positions_from hash (pos + 1) l
  end.
Definition position (self : HashQueue) (hash : bytes) : option Z := head (positions_from hash 0 (queue self)).

Definition at_ (self : HashQueue) (position : Z) : option bytes := queue self !! Z.to_nat position.

Definition pre_back {E} (self : HashQueue) : outcome E (option bytes) :=
  let queue_len := length (queue self) in
  if Nat.leb queue_len 1 then Ok None
  else h ← index (queue self) (queue_len - 2); Ok (Some h).

Definition contains (self : HashQueue) (hash : bytes) : bool := bool_decide (hash ∈ set self).

Definition front_n (self : HashQueue) (n : Z) : list bytes := take (Z.to_nat n) (queue self).

Definition pop_front (self : HashQueue) : option bytes * HashQueue :=
  match queue self with
  | hash :: q => (Some hash, mkQueue q (set self ∖ {[hash]}))
  | [] => (None, self)
  end.

Fixpoint pop_front_loop (n : nat) (result : list bytes) (self : HashQueue) : list bytes * HashQueue :=
  match n with
  | O => (result, self)
  | S n =>
      match pop_front self with
      | (Some hash, self) => pop_front_loop n (result ++ [hash]) self
      | (None, self) => (result, self)
      end
  end.
Definition pop_front_n (self : HashQueue) (n : Z) : list bytes * HashQueue := pop_front_loop (Z.to_nat n) [] self.

Definition pop_back (self : HashQueue) : option bytes * HashQueue :=
  match last (queue self) with
  | Some hash => (Some hash, mkQueue (removelast (queue self)) (set self ∖ {[hash]}))
  | None => (None, self)
  end.

Definition push_back {E} (self : HashQueue) (hash : bytes) : outcome E HashQueue :=
  if bool_decide (hash ∈ set self) then Panic
  else Ok (mkQueue (queue self ++ [hash]) ({[hash]} ∪ set self)).

Fixpoint push_back_n {E} (self : HashQueue) (hashes : list bytes) : outcome E HashQueue :=
  match hashes with
  | [] => Ok self
  | hash :: hashes => self ← push_back self hash; push_back_n self hashes
  end.

(** The search for the hash: its position and the queue without it. *)
Fixpoint remove_from {E} (hash : bytes) (i : Z) (l : list bytes) : outcome E (Z * list bytes) :=
  match l with
  | [] => Panic
  | h :: l' =>
      if bool_decide (h = hash) then Ok (i, l')
      else '(p, l') ← remove_from hash (i + 1) l'; Ok (p, h :: l')
  end.

Definition remove {E} (self : HashQueue) (hash : bytes) : outcome E (HashPosition * HashQueue) :=
  if negb (bool_decide (hash ∈ set self)) then Ok (Missing, self) else
  let set := set self ∖ {[hash]} in
  first ← expect (head (queue self));
  if bool_decide (first = hash) then Ok (Front, mkQueue (tail (queue self)) set)
  else '(i, q) ← remove_from hash 0 (queue self); Ok (Inside (wrap 32 i), mkQueue q set).

Definition remove_all (self : HashQueue) : list bytes * HashQueue := (queue self, mkQueue [] ∅).

(** The [Index] implementation. *)
Definition index_queue {E} (self : HashQueue) (i : Z) : outcome E bytes := index (queue self) (Z.to_nat i).

(** ** Chains of queues *)

Definition HashQueueChain := list HashQueue.

Definition with_number_of_queues {E} (n : nat) : outcome E HashQueueChain :=
  _ ← rust_assert (negb (Nat.eqb n 0)); Ok (replicate n new).

Definition chain_len {E} (self : HashQueueChain) : outcome E Z :=
  foldl (fun total q => total ← total; ucheck 32 (total + len q)) (Ok 0) self.

Definition len_of {E} (self : HashQueueChain) (queue_index : nat) : outcome E Z :=
  q ← index self queue_index; Ok (len q).

Fixpoint chain_at {E} (self : HashQueueChain) (i : Z) : outcome E (option bytes) :=
  match self with
  | [] => Ok None
  | q :: self =>
      let queue_len := len q in
      if i <? queue_len then Ok (at_ q i)
      else i ← ucheck 32 (i - queue_len); chain_at self i
  end.

Definition front_at {E} (self : HashQueueChain) (queue_index : nat) : outcome E (option bytes) :=
  q ← index self queue_index; Ok (front q).
Definition back_at {E} (self : HashQueueChain) (queue_index : nat) : outcome E (option bytes) :=
  q ← index self queue_index; Ok (back q).
Definition pre_back_at {E} (self : HashQueueChain) (queue_index : nat) : outcome E (option bytes) :=
  q ← index self queue_index; pre_back q.

(** The loop goes down from the last queue. *)
Fixpoint chain_back_from {E} (self : HashQueueChain) (queue_index : nat) : outcome E (option bytes) :=
  q ← index self queue_index;
  match back q with
  | Some h => Ok (Some h)
  | None =>
      match queue_index with
      | O => Panic
      | S queue_index => if Nat.eqb queue_index 0 then Ok None else chain_back_from self queue_index
      end
  end.
Definition chain_back {E} (self : HashQueueChain) : outcome E (option bytes) :=
  match length self with
  | O => Panic
  | S last => chain_back_from self last
  end.

Fixpoint contains_from (i : nat) (hash : bytes) (self : HashQueueChain) : option nat :=
  match self with
  | [] => None
  | q :: self => if contains q hash then Some i else contains_from (S i) hash self
  end.
Definition contains_in (self : HashQueueChain) (hash : bytes) : option nat := contains_from 0 hash self.

Definition front_n_at {E} (self : HashQueueChain) (queue_index : nat) (n : Z) : outcome E (list bytes) :=
  q ← index self queue_index; Ok (front_n q n).
Definition pop_front_n_at {E} (self : HashQueueChain) (queue_index : nat) (n : Z)
    : outcome E (list bytes * HashQueueChain) :=
  q ← index self queue_index;
  let '(hashes, q) := pop_front_n q n in Ok (hashes, <[queue_index := q]> self).
Definition push_back_at {E} (self : HashQueueChain) (queue_index : nat) (hash : bytes) : outcome E HashQueueChain :=
  q ← index self queue_index; q ← push_back q hash; Ok (<[queue_index := q]> self).
Definition push_back_n_at {E} (self : HashQueueChain) (queue_index : nat) (hashes : list bytes)
    : outcome E HashQueueChain :=
  q ← index self queue_index; q ← push_back_n q hashes; Ok (<[queue_index := q]> self).
Definition remove_at {E} (self : HashQueueChain) (queue_index : nat) (hash : bytes)
    : outcome E (HashPosition * HashQueueChain) :=
  q ← index self queue_index; '(p, q) ← remove q hash; Ok (p, <[queue_index := q]> self).
Definition remove_all_at {E} (self : HashQueueChain) (queue_index : nat) : outcome E (list bytes * HashQueueChain) :=
  q ← index self queue_index;
  let '(hashes, q) := remove_all q in Ok (hashes, <[queue_index := q]> self).

Fixpoint index_chain {E} (self : HashQueueChain) (i : Z) : outcome E bytes :=
  match self with
  | [] => Panic
  | q :: self =>
      let queue_len := len q in
      if i <? queue_len then index_queue q i
      else i ← ucheck 32 (i - queue_len); index_chain self i
  end.

(** ** Invariant and refinement to lists *)

(** The set is that of the elements, and no hash is queued twice. *)
Record wf (self : HashQueue) : Prop := {
  wf_set : set self = list_to_set (queue self);
  wf_nodup : NoDup (queue self);
}.

Lemma wf_new : wf new.
Proof. split; [done|constructor]. Qed.

Lemma contains_spec self hash : wf self -> contains self hash = bool_decide (hash ∈ queue self).
Proof. intros [Hs _]. unfold contains. rewrite Hs. apply bool_decide_ext. by rewrite elem_of_list_to_set. Qed.

Lemma list_to_set_remove (h : bytes) (l : list bytes) :
  NoDup (h :: l) -> list_to_set (C := gset bytes) (h :: l) ∖ {[h]} = list_to_set l.
Proof. intros [Hn _]%NoDup_cons. set_solver. Qed.

Lemma list_to_set_perm (l l' : list bytes) : l ≡ₚ l' -> list_to_set (C := gset bytes) l = list_to_set l'.
Proof. intros Hp. apply leibniz_equiv. by apply list_to_set_perm. Qed.

Lemma wf_remove_middle self l1 h l2 :
  wf self -> queue self = l1 ++ h :: l2 -> wf (mkQueue (l1 ++ l2) (set self ∖ {[h]})).
Proof.
  intros [Hs Hn] Hq. rewrite Hq in *. rewrite <- Permutation_middle in Hn. split; cbn.
  - rewrite Hs, (list_to_set_perm (l1 ++ h :: l2) (h :: l1 ++ l2)) by (by rewrite Permutation_middle).
    by apply list_to_set_remove.
  - by apply NoDup_cons in Hn as [_ ?].
Qed.

Lemma pop_front_spec self :
  wf self -> let '(r, self') := pop_front self in
  r = head (queue self) /\ queue self' = tail (queue self) /\ wf self'.
Proof.
  intros Hwf. unfold pop_front. destruct (queue self) as [|h q] eqn:Hq; [by rewrite Hq|].
  split_and!; [done|done|]. by apply (wf_remove_middle self [] h q).
Qed.

Lemma pop_front_n_spec self n :
  wf self -> let '(r, self') := pop_front_n self n in
  r = take (Z.to_nat n) (queue self) /\ queue self' = drop (Z.to_nat n) (queue self) /\ wf self'.
Proof.
  unfold pop_front_n. change (take ?n ?l) with ([] ++ take n l). generalize (@nil bytes) as acc.
  generalize (Z.to_nat n) as k. intros k. revert self.
  induction k as [|k IH]; intros self acc Hwf; cbn [pop_front_loop].
  { rewrite take_0, drop_0, app_nil_r. done. }
  pose proof (pop_front_spec self Hwf) as Hp. destruct (pop_front self) as [[h|] self'].
  - destruct Hp as (Hh & Hq & Hwf'). specialize (IH self' (acc ++ [h]) Hwf').
    destruct (queue self) as [|h' q]; [done|]. injection Hh as ->. cbn in Hq. subst q.
    destruct (pop_front_loop k (acc ++ [h']) self') as [r s]. by rewrite <- app_assoc in IH.
  - destruct Hp as (Hh & Hq & Hwf'). destruct (queue self) as [|h' q]; [|done].
    rewrite Hq, take_nil, drop_nil, app_nil_r. done.
Qed.

Lemma pop_back_spec self :
  wf self -> let '(r, self') := pop_back self in
  r = last (queue self) /\ queue self' = removelast (queue self) /\ wf self'.
Proof.
  intros Hwf. unfold pop_back. destruct (last (queue self)) as [h|] eqn:Hl.
  - apply last_Some in Hl as [q Hq]. rewrite Hq, removelast_last. split_and!; [done|done|].
    pose proof (wf_remove_middle self q h [] Hwf Hq) as Hw. by rewrite app_nil_r in Hw.
  - apply last_None in Hl. by rewrite Hl.
Qed.

Lemma push_back_spec {E} self hash :
  wf self ->
  (hash ∈ queue self -> @push_back E self hash = Panic) /\
  (hash ∉ queue self -> exists self', @push_back E self hash = Ok self' /\
     queue self' = queue self ++ [hash] /\ wf self').
Proof.
  intros [Hs Hn]. unfold push_back. rewrite Hs. split; intros Hin.
  - by rewrite bool_decide_eq_true_2 by (by apply elem_of_list_to_set).
  - rewrite bool_decide_eq_false_2 by (by rewrite elem_of_list_to_set). eexists. split; [done|]. split; [done|].
    split; cbn; [set_solver|]. apply NoDup_app. split; [done|]. split; [set_solver|apply NoDup_singleton].
Qed.

Lemma push_back_n_spec {E} hashes self :
  wf self -> NoDup (queue self ++ hashes) ->
  exists self', @push_back_n E self hashes = Ok self' /\ queue self' = queue self ++ hashes /\ wf self'.
Proof.
  revert self. induction hashes as [|h hashes IH]; intros self Hwf Hn; cbn [push_back_n].
  { exists self. by rewrite app_nil_r. }
  destruct (push_back_spec (E := E) self h Hwf) as [_ Hp]. destruct Hp as (s1 & -> & Hq & Hwf1).
  { apply NoDup_app in Hn as (_ & Hn & _). intros Hin. by apply (Hn h Hin), list_elem_of_here. }
  rewrite ok_bind. destruct (IH s1 Hwf1) as (s2 & -> & Hq2 & Hwf2).
  { by rewrite Hq, <- app_assoc. }
  exists s2. by rewrite Hq2, Hq, <- app_assoc.
Qed.

Lemma remove_from_spec {E} hash i l1 l2 :
  hash ∉ l1 -> @remove_from E hash i (l1 ++ hash :: l2) = Ok (i + zlen l1, l1 ++ l2).
Proof.
  revert i. induction l1 as [|h l1 IH]; intros i Hn; cbn [app remove_from].
  { rewrite bool_decide_eq_true_2 by done. do 2 f_equal. cbn. lia. }
  rewrite bool_decide_eq_false_2 by set_solver. rewrite IH by set_solver. rewrite ok_bind. cbn [length].
  do 2 f_equal. lia.
Qed.

(** Where a hash is removed: nowhere, at the front, or at its position. *)
Lemma remove_spec {E} self hash :
  wf self -> zlen (queue self) < 2 ^ 32 ->
  ((hash ∉ queue self) /\ @remove E self hash = Ok (Missing, self)) \/
  (exists l1 l2 p self', queue self = l1 ++ hash :: l2 /\ (hash ∉ l1) /\ @remove E self hash = Ok (p, self') /\
     p = (if bool_decide (l1 = []) then Front else Inside (zlen l1)) /\
     queue self' = l1 ++ l2 /\ wf self').
Proof.
  intros Hwf Hlen. unfold remove. rewrite (wf_set self Hwf).
  destruct (decide (hash ∈ queue self)) as [Hin|Hn]; [right|left].
  2: { split; [done|]. by rewrite bool_decide_eq_false_2 by (by rewrite elem_of_list_to_set). }
  apply list_elem_of_split_l in Hin as (l1 & l2 & Hq & Hn1). exists l1, l2.
  pose proof (wf_remove_middle self l1 hash l2 Hwf Hq) as Hw. rewrite (wf_set self Hwf) in Hw.
  rewrite bool_decide_eq_true_2 by (apply elem_of_list_to_set; rewrite Hq; set_solver). cbn [negb].
  rewrite Hq in *. destruct l1 as [|h l1].
  - do 2 eexists. cbn [app head expect tail]. rewrite ok_bind, bool_decide_eq_true_2 by done. by split_and!.
  - do 2 eexists. cbn [app head expect]. rewrite ok_bind, bool_decide_eq_false_2 by set_solver.
    change (h :: l1 ++ hash :: l2) with ((h :: l1) ++ hash :: l2).
    rewrite remove_from_spec by done. rewrite ok_bind. split_and!; try done.
    rewrite bool_decide_eq_false_2 by done. f_equal. rewrite Z.add_0_l, wrap_uint; [done|].
    rewrite length_app in Hlen. cbn [length] in *. unfold uint. lia.
Qed.

Lemma position_from_spec hash pos l :
  pos + zlen l <= 2 ^ 32 -> 0 <= pos ->
  ((hash ∉ l) /\ positions_from hash pos l = []) \/
  (exists l1 l2, l = l1 ++ hash :: l2 /\ (hash ∉ l1) /\ head (positions_from hash pos l) = Some (pos + zlen l1)).
Proof.
  revert pos. induction l as [|h l IH]; intros pos Hlen Hpos; cbn [positions_from]; [left; set_solver|].
  cbn [length] in Hlen. case_bool_decide as Heq.
  - right. subst h. exists [], l. split; [done|]. split; [set_solver|]. cbn. f_equal. rewrite wrap_uint; [lia|unfold uint; lia].
  - destruct (IH (pos + 1)) as [[Hn ->]|(l1 & l2 & -> & Hn & ->)]; [lia|lia|left; set_solver|right].
    exists (h :: l1), l2. split; [done|]. split; [set_solver|]. f_equal. cbn [length]. lia.
Qed.

Lemma position_spec self hash :
  zlen (queue self) <= 2 ^ 32 ->
  ((hash ∉ queue self) /\ position self hash = None) \/
  (exists l1 l2, queue self = l1 ++ hash :: l2 /\ (hash ∉ l1) /\ position self hash = Some (zlen l1)).
Proof.
  intros Hl. unfold position. destruct (position_from_spec hash 0 (queue self)) as [[Hn ->]|(l1 & l2 & Hq & Hn & Hp)];
    [lia|lia|by left|right]. exists l1, l2. by rewrite Hp.
Qed.

(** The back of the whole chain is that of the queues after the first: the first
    queue is never looked at. *)
Theorem chain_back_spec {E} (first : HashQueue) (rest : HashQueueChain) :
  rest <> [] -> @chain_back E (first :: rest) = Ok (last (concat (map queue rest))).
Proof.
  intros Hne. unfold chain_back. cbn [length]. destruct rest as [|q0 rest0]; [done|]. clear Hne.
  assert (forall n rest, (n < length rest)%nat -> concat (map queue (drop (S n) rest)) = [] ->
    @chain_back_from E (first :: rest) (S n) = Ok (last (concat (map queue rest)))) as Hgen.
  { intros n rest Hn. destruct (lookup_lt_is_Some_2 rest _ Hn) as [q Hq]. revert q Hq.
    assert (forall n q, rest !! n = Some q -> @chain_back_from E (first :: rest) (S n) =
      match back q with
      | Some h => Ok (Some h)
      | None => if Nat.eqb n 0 then Ok None else chain_back_from (first :: rest) n
      end) as Hstep.
    { intros n' q' Hq'. cbn [chain_back_from]. unfold index at 1. by rewrite (Hq' : (first :: rest) !! S n' = Some q'). }
    assert (forall n q, rest !! n = Some q -> concat (map queue (drop (S n) rest)) = [] ->
      concat (map queue rest) = concat (map queue (take n rest)) ++ queue q) as Hcat.
    { intros n' q' Hq' Hd'. rewrite <- (take_drop_middle rest _ q' Hq') at 1. rewrite map_app, concat_app. cbn [map concat].
      by rewrite Hd', app_nil_r. }
    induction n as [|n IH]; intros q Hq Hd; rewrite (Hstep _ q Hq), (Hcat _ q Hq Hd), last_app; unfold back;
      destruct (last (queue q)) as [h|] eqn:Hl; try done.
    cbn [Nat.eqb]. apply last_None in Hl.
    destruct (lookup_lt_is_Some_2 rest n) as [q' Hq']; [lia|]. rewrite (IH ltac:(lia) q' Hq').
    - by rewrite (Hcat _ q Hq Hd), Hl, app_nil_r.
    - rewrite (drop_S rest q) by done. cbn [map concat]. by rewrite Hl, Hd. }
  cbn [length]. rewrite Hgen; [done|cbn; lia|]. cbn [drop length]. by rewrite drop_all.
Qed.

End HashQueue.

(** * The chain of headers ahead of the stored blocks (best_headers_chain.rs) *)

Module BestHeaders.
Import Chain ChainHash HashQueue.

Record BestHeadersChain := mkHeaders {
  storage_best_hash : bytes;
  headers : gmap bytes IndexedBlockHeader;
  best : HashQueue;
}.

Definition new (hash : bytes) : BestHeadersChain := mkHeaders hash ∅ HashQueue.new.

(** The lengths of the best chain and of all headers. *)
Definition information (self : BestHeadersChain) : Z * Z := (len (best self), wrap 32 (Z.of_nat (size (headers self)))).

Definition header_at (self : BestHeadersChain) (height : Z) : option IndexedBlockHeader :=
  hash ← at_ (best self) height; headers self !! hash.

Definition by_hash (self : BestHeadersChain) (hash : bytes) : option IndexedBlockHeader := headers self !! hash.

Definition height (self : BestHeadersChain) (hash : bytes) : option Z := position (best self) hash.

Definition children {E} (self : BestHeadersChain) (hash : bytes) : outcome E (list bytes) :=
  match position (best self) hash with
  | Some pos =>
      next ← ucheck 32 (pos + 1);
      Ok (match at_ (best self) next with Some child => [child] | None => [] end)
  | None => Ok []
  end.

Definition best_block_hash (self : BestHeadersChain) : bytes :=
  default (storage_best_hash self) (back (best self)).

(** A header that does not extend the best chain is dropped. *)
Definition insert {E} (self : BestHeadersChain) (header : IndexedBlockHeader) : outcome E BestHeadersChain :=
  if bool_decide (best_block_hash self = previous_header_hash (ih_raw header)) then
    let hs := <[ih_hash header := header]> (headers self) in
    b ← push_back (best self) (ih_hash header);
    Ok (mkHeaders (storage_best_hash self) hs b)
  else Ok self.

Fixpoint insert_n {E} (self : BestHeadersChain) (hs : list IndexedBlockHeader) : outcome E BestHeadersChain :=
  match hs with
  | [] => Ok self
  | h :: hs => self ← insert self h; insert_n self hs
  end.

Definition clear (self : BestHeadersChain) : BestHeadersChain :=
  mkHeaders (storage_best_hash self) ∅ (HashQueue.clear (best self)).

(** Each round removes a header, so the length is fuel enough. *)
Fixpoint clear_after_loop {E} (fuel : nat) (self : BestHeadersChain) (position : Z) : outcome E BestHeadersChain :=
  if position <? len (best self) then
    match fuel with
    | O => Diverge
    | S fuel =>
        let '(hash, b) := pop_back (best self) in
        hash ← expect hash;
        clear_after_loop fuel (mkHeaders (storage_best_hash self) (delete hash (headers self)) b) position
    end
  else Ok self.
Definition clear_after {E} (self : BestHeadersChain) (position : Z) : outcome E BestHeadersChain :=
  if position =? 0 then Ok (clear self) else clear_after_loop (length (queue (best self))) self position.

Definition remove {E} (self : BestHeadersChain) (hash : bytes) : outcome E BestHeadersChain :=
  match headers self !! hash with
  | None => Ok self
  | Some _ =>
      '(p, b) ← HashQueue.remove (best self) hash;
      let self := mkHeaders (storage_best_hash self) (delete hash (headers self)) b in
      match p with
      | Front => Ok (clear self)
      | Inside position => clear_after self position
      | Missing => Ok self
      end
  end.

Fixpoint remove_n {E} (self : BestHeadersChain) (hashes : list bytes) : outcome E BestHeadersChain :=
  match hashes with
  | [] => Ok self
  | hash :: hashes => self ← remove self hash; remove_n self hashes
  end.

Definition block_inserted_to_storage (self : BestHeadersChain) (hash storage_best : bytes) : BestHeadersChain :=
  if bool_decide (front (best self) = Some hash) then
    mkHeaders storage_best (delete hash (headers self)) (pop_front (best self)).2
  else mkHeaders storage_best (headers self) (best self).

(** ** Refinement to a list of linked headers *)

(** Every header names the hash of the one before it. *)
Fixpoint linked (hs : list IndexedBlockHeader) : Prop :=
  match hs with
  | a :: (b :: _) as tl => previous_header_hash (ih_raw b) = ih_hash a /\ linked tl
  | _ => True
  end.

(** The structure represents a list of headers: the queue holds their hashes in order,
    the map the headers under their hashes. *)
Record rep (self : BestHeadersChain) (hs : list IndexedBlockHeader) : Prop := {
  rep_wf : wf (best self);
  rep_queue : queue (best self) = map ih_hash hs;
  rep_headers : headers self = list_to_map (map (fun h => (ih_hash h, h)) hs);
}.

Lemma linked_app hs1 hs2 : linked (hs1 ++ hs2) -> linked hs1 /\ linked hs2.
Proof.
  induction hs1 as [|a hs1 IH]; [done|]. destruct hs1 as [|b hs1]; cbn [app].
  - intros Hl. split; [done|]. destruct hs2; [done|]. by destruct Hl.
  - intros [Hab Hl]. destruct (IH Hl). done.
Qed.

Lemma linked_snoc hs h :
  linked hs -> (forall l, last hs = Some l -> previous_header_hash (ih_raw h) = ih_hash l) -> linked (hs ++ [h]).
Proof.
  induction hs as [|a hs IH]; intros Hl Hh; [done|]. destruct hs as [|b hs]; cbn [app].
  - split; [by apply Hh|done].
  - destruct Hl. split; [done|]. by apply IH.
Qed.

Lemma rep_new hash : rep (new hash) [].
Proof. split; [apply wf_new|done|done]. Qed.

Lemma rep_clear self : rep (clear self) [].
Proof. split; [apply wf_new|done|done]. Qed.

Lemma rep_nodup self hs : rep self hs -> NoDup (map ih_hash hs).
Proof. intros [Hw Hq _]. rewrite <- Hq. apply Hw. Qed.

Lemma headers_fst hs : map fst (map (fun h => (ih_hash h, h)) hs) = map ih_hash hs.
Proof. rewrite map_map. done. Qed.

Lemma rep_lookup self hs hash h : rep self hs -> headers self !! hash = Some h <-> h ∈ hs /\ ih_hash h = hash.
Proof.
  intros Hr. pose proof (rep_nodup _ _ Hr). rewrite (rep_headers _ _ Hr).
  rewrite <- elem_of_list_to_map by (by rewrite headers_fst). rewrite list_elem_of_In, in_map_iff. split.
  - intros (x & [= <- <-] & Hin). split; [by apply list_elem_of_In|done].
  - intros [Hin <-]. exists h. split; [done|by apply list_elem_of_In].
Qed.

Lemma rep_lookup_None self hs hash : rep self hs -> headers self !! hash = None <-> hash ∉ map ih_hash hs.
Proof. intros Hr. rewrite (rep_headers _ _ Hr), <- not_elem_of_list_to_map. by rewrite headers_fst. Qed.

Lemma rep_best_block_hash self hs :
  rep self hs -> best_block_hash self = default (storage_best_hash self) (ih_hash <$> last hs).
Proof. intros Hr. unfold best_block_hash, back. rewrite (rep_queue _ _ Hr), <- fmap_last. done. Qed.

Lemma delete_headers (h : IndexedBlockHeader) hs1 hs2 :
  NoDup (map ih_hash (hs1 ++ h :: hs2)) ->
  delete (ih_hash h) (list_to_map (map (fun h => (ih_hash h, h)) (hs1 ++ h :: hs2)) : gmap bytes IndexedBlockHeader) =
  list_to_map (map (fun h => (ih_hash h, h)) (hs1 ++ hs2)).
Proof.
  intros Hn. rewrite (list_to_map_proper _ ((ih_hash h, h) :: map (fun h => (ih_hash h, h)) (hs1 ++ hs2))).
  - rewrite list_to_map_cons, delete_insert_id; [done|]. apply not_elem_of_list_to_map. rewrite headers_fst.
    rewrite map_app in *. cbn [map] in Hn. rewrite <- Permutation_middle in Hn. by apply NoDup_cons in Hn as [? _].
  - by rewrite headers_fst.
  - rewrite !map_app. cbn [map]. by rewrite <- Permutation_middle.
Qed.

Lemma header_insert_spec {E} self hs h :
  rep self hs ->
  (best_block_hash self <> previous_header_hash (ih_raw h) -> @insert E self h = Ok self) /\
  (best_block_hash self = previous_header_hash (ih_raw h) -> ih_hash h ∈ map ih_hash hs -> @insert E self h = Panic) /\
  (best_block_hash self = previous_header_hash (ih_raw h) -> ih_hash h ∉ map ih_hash hs ->
     exists self', @insert E self h = Ok self' /\ rep self' (hs ++ [h]) /\ (linked hs -> linked (hs ++ [h])) /\
       storage_best_hash self' = storage_best_hash self).
Proof.
  intros Hr. unfold insert. destruct (push_back_spec (E := E) (best self) (ih_hash h) (rep_wf _ _ Hr)) as [Hp1 Hp2].
  rewrite (rep_queue _ _ Hr) in Hp1, Hp2. split_and!.
  - intros Hne. by rewrite bool_decide_eq_false_2.
  - intros Heq Hin. rewrite bool_decide_eq_true_2 by done. by rewrite Hp1.
  - intros Heq Hn. rewrite bool_decide_eq_true_2 by done. destruct (Hp2 Hn) as (b & -> & Hq & Hw). rewrite ok_bind.
    eexists. split; [done|]. split; [|split; [|done]]; [split; cbn|].
    + done.
    + by rewrite Hq, map_app.
    + rewrite (rep_headers _ _ Hr), map_app. cbn [map]. rewrite (list_to_map_proper (map _ hs ++ _) ((ih_hash h, h) :: map (fun h => (ih_hash h, h)) hs)).
      * done.
      * rewrite map_app, headers_fst. cbn. apply NoDup_app. split; [by eapply rep_nodup|]. split; [set_solver|apply NoDup_singleton].
      * by rewrite Permutation_app_comm.
    + intros Hl0. apply linked_snoc; [done|]. intros l Hl. rewrite <- Heq, (rep_best_block_hash _ _ Hr), Hl. done.
Qed.

Lemma clear_after_loop_spec {E} fuel self hs p :
  rep self hs -> zlen hs < 2 ^ 32 -> 0 <= p -> (length hs <= fuel)%nat ->
  exists self', @clear_after_loop E fuel self p = Ok self' /\ rep self' (take (Z.to_nat p) hs) /\
    storage_best_hash self' = storage_best_hash self.
Proof.
  revert self hs. induction fuel as [|fuel IH]; intros self hs Hr Hl Hp Hf; cbn [clear_after_loop];
    unfold len; rewrite (rep_queue _ _ Hr), length_map, wrap_uint by (unfold uint; lia).
  { destruct hs; cbn in Hf; [|lia]. rewrite (proj2 (Z.ltb_ge p _)) by (cbn; lia). rewrite take_nil. by eexists. }
  destruct (Z.ltb_spec p (zlen hs)) as [Hlt|Hge].
  2: { exists self. rewrite take_ge by lia. done. }
  pose proof (pop_back_spec (best self) (rep_wf _ _ Hr)) as Hpop. destruct (pop_back (best self)) as [r b].
  destruct Hpop as (-> & Hq & Hw). rewrite (rep_queue _ _ Hr) in *.
  destruct hs as [|h hs _] using rev_ind; [cbn in *; lia|]. rewrite map_app in *. cbn [map] in *. rewrite last_snoc. cbn [expect]. rewrite ok_bind.
  rewrite length_app in *. cbn [length] in *.
  destruct (IH (mkHeaders (storage_best_hash self) (delete (ih_hash h) (headers self)) b) hs) as (s' & Hs & Hr' & Hb); [|lia|lia|lia|].
  - split; cbn.
    + done.
    + by rewrite Hq, removelast_last.
    + rewrite (rep_headers _ _ Hr), delete_headers, app_nil_r; [done|]. by eapply rep_nodup.
  - exists s'. rewrite Hs, take_app_le by lia. done.
Qed.

(** Removing a header removes the headers after it too. *)
Lemma remove_rep {E} self hs hash :
  rep self hs -> zlen hs < 2 ^ 32 ->
  ((hash ∉ map ih_hash hs) /\ @remove E self hash = Ok self) \/
  (exists hs1 h hs2 self', hs = hs1 ++ h :: hs2 /\ ih_hash h = hash /\ @remove E self hash = Ok self' /\ rep self' hs1 /\
     storage_best_hash self' = storage_best_hash self).
Proof.
  intros Hr Hl. unfold remove. destruct (headers self !! hash) as [h|] eqn:Hh.
  2: { left. split; [|done]. by apply (rep_lookup_None self hs hash Hr). }
  right. apply (rep_lookup self hs hash h Hr) in Hh as [Hin <-].
  apply list_elem_of_split in Hin as (hs1 & hs2 & ->). exists hs1, h, hs2.
  pose proof (rep_nodup _ _ Hr) as Hn.
  destruct (remove_spec (E := E) (best self) (ih_hash h) (rep_wf _ _ Hr)) as [[Hnot _]|(l1 & l2 & p & b & Hq & Hn1 & -> & Hp & Hqb & Hw)].
  { rewrite (rep_queue _ _ Hr), length_map. done. }
  { exfalso. apply Hnot. rewrite (rep_queue _ _ Hr), map_app. set_solver. }
  rewrite ok_bind. rewrite (rep_queue _ _ Hr), map_app in Hq. cbn [map] in Hq.
  assert (l1 = map ih_hash hs1 /\ l2 = map ih_hash hs2) as [-> ->].
  { rewrite map_app in Hn. cbn [map] in Hn. revert Hq Hn Hn1. generalize (map ih_hash hs1) as m1. clear.
    induction l1 as [|x l1 IH]; intros [|y m1] Hq Hn Hn1; cbn in Hq.
    - by injection Hq as ->.
    - injection Hq as -> Hq. exfalso. cbn in Hn. apply NoDup_cons in Hn as [Hn _]. set_solver.
    - injection Hq as <- Hq. set_solver.
    - injection Hq as -> Hq. cbn in Hn. apply NoDup_cons in Hn as [_ Hn].
      destruct (IH m1 Hq Hn) as [-> ->]; [set_solver|done]. }
  assert (rep (mkHeaders (storage_best_hash self) (delete (ih_hash h) (headers self)) b) (hs1 ++ hs2)) as Hr1.
  { split; cbn; [done|by rewrite Hqb, map_app|]. by rewrite (rep_headers _ _ Hr), delete_headers. }
  subst p. destruct hs1 as [|h1 hs1].
  - eexists. split; [done|]. split; [done|]. split; [done|]. split; [apply rep_clear|done].
  - rewrite bool_decide_eq_false_2 by done. unfold clear_after. rewrite length_map.
    rewrite (proj2 (Z.eqb_neq _ _)) by (cbn; lia).
    edestruct (clear_after_loop_spec (E := E)) as (s' & -> & Hr' & Hb); [exact Hr1| | | |].
    4: { exists s'. rewrite Nat2Z.id, take_app_length in Hr'. done. }
    + rewrite !length_app in *. cbn [length] in *. lia.
    + lia.
    + cbn [best]. by rewrite Hqb, <- map_app, length_map.
Qed.

Lemma insert_n_rep {E} hs' self hs self' :
  rep self hs -> linked hs -> @insert_n E self hs' = Ok self' ->
  exists more, rep self' (hs ++ more) /\ linked (hs ++ more) /\ zlen more <= zlen hs'.
Proof.
  revert self hs. induction hs' as [|h hs' IH]; intros self hs Hr Hl Hi; cbn [insert_n] in Hi.
  { injection Hi as <-. exists []. by rewrite app_nil_r. }
  apply bind_Ok in Hi as (s1 & H1 & Hi). destruct (header_insert_spec (E := E) self hs h Hr) as (Hi1 & Hi2 & Hi3).
  destruct (decide (best_block_hash self = previous_header_hash (ih_raw h))) as [Heq|Hne].
  - destruct (decide (ih_hash h ∈ map ih_hash hs)) as [Hin|Hn]; [rewrite Hi2 in H1 by done; discriminate|].
    destruct (Hi3 Heq Hn) as (s & Hs & Hrs & Hls & _). rewrite H1 in Hs. injection Hs as ->.
    destruct (IH _ _ Hrs (Hls Hl) Hi) as (more & Hm & Hlm & Hsz). exists (h :: more). cbn [length].
    rewrite <- app_assoc in Hm, Hlm. split; [done|]. split; [done|lia].
  - rewrite Hi1 in H1 by done. injection H1 as <-. destruct (IH _ _ Hr Hl Hi) as (more & ? & ? & ?).
    exists more. cbn [length]. split; [done|]. split; [done|lia].
Qed.

Lemma remove_n_rep {E} hashes self hs :
  rep self hs -> zlen hs < 2 ^ 32 ->
  exists self' k, @remove_n E self hashes = Ok self' /\ rep self' (take k hs) /\
    (forall h, h ∈ take k hs -> ih_hash h ∉ hashes) /\ storage_best_hash self' = storage_best_hash self.
Proof.
  revert self hs. induction hashes as [|hash hashes IH]; intros self hs Hr Hlen; cbn [remove_n].
  { exists self, (length hs). rewrite take_ge by done. split_and!; [done|done|set_solver|done]. }
  pose proof (rep_nodup _ _ Hr) as Hn.
  destruct (remove_rep (E := E) self hs hash Hr Hlen) as [[Hnot ->]|(hs1 & x & hs2 & s1 & -> & <- & -> & Hr1 & Hb)]; rewrite ok_bind.
  - destruct (IH self hs Hr Hlen) as (s2 & k & -> & Hr2 & Hk & Hb). exists s2, k. split_and!; [done|done| |done].
    intros h Hh [<- |?]%elem_of_cons; [|by apply (Hk h)]. apply Hnot.
    apply list_elem_of_In, in_map, list_elem_of_In. apply list_elem_of_lookup in Hh as [i Hi].
    apply lookup_take_Some in Hi as [Hi _]. by apply list_elem_of_lookup_2 in Hi.
  - rewrite length_app in Hlen. destruct (IH s1 hs1 Hr1) as (s2 & k & -> & Hr2 & Hk & Hb2); [lia|].
    exists s2, (k `min` length hs1)%nat. rewrite <- take_take, take_app_length. split_and!; [done|done| |congruence].
    intros h Hh [Heq|?]%elem_of_cons; [|by apply (Hk h)]. rewrite map_app in Hn. apply NoDup_app in Hn as (_ & Hn & _).
    apply (Hn (ih_hash h)); [|rewrite Heq; apply list_elem_of_here].
    apply list_elem_of_In, in_map, list_elem_of_In. apply list_elem_of_lookup in Hh as [i Hi].
    apply lookup_take_Some in Hi as [Hi _]. by apply list_elem_of_lookup_2 in Hi.
Qed.

Lemma block_inserted_rep self hs hash storage_best :
  rep self hs -> linked hs ->
  let self' := block_inserted_to_storage self hash storage_best in
  storage_best_hash self' = storage_best /\
  exists hs', rep self' hs' /\ linked hs' /\ hs' = (if bool_decide (ih_hash <$> head hs = Some hash) then tail hs else hs).
Proof.
  intros Hr Hl. unfold block_inserted_to_storage, front. rewrite (rep_queue _ _ Hr).
  destruct hs as [|h hs]; cbn [map head fmap option_fmap option_map].
  { rewrite !bool_decide_eq_false_2 by done. split; [done|]. exists []. split; [|done]. by destruct Hr. }
  case_bool_decide as Hh; cbn zeta.
  - injection Hh as <-. split; [done|]. exists hs. split; [|split; [|done]].
    + pose proof (pop_front_spec (best self) (rep_wf _ _ Hr)) as Hp. destruct (pop_front (best self)) as [r b].
      destruct Hp as (_ & Hq & Hw). rewrite (rep_queue _ _ Hr) in Hq. split; cbn; [done|done|].
      rewrite (rep_headers _ _ Hr). apply (delete_headers h [] hs). by apply (rep_nodup _ _ Hr).
    + by apply (linked_app [h] hs) in Hl as [_ ?].
  - split; [done|]. exists (h :: hs). split; [|done]. by destruct Hr.
Qed.

(** What the operations do to the structure; the number of headers is a [u32]. *)
Inductive headers_step : BestHeadersChain -> BestHeadersChain -> Prop :=
| step_insert_n self hs self' :
    zlen (queue (best self)) + zlen hs < 2 ^ 32 -> @insert_n unit self hs = Ok self' -> headers_step self self'
| step_remove_n self hashes self' : @remove_n unit self hashes = Ok self' -> headers_step self self'
| step_stored self hash storage_best : headers_step self (block_inserted_to_storage self hash storage_best)
| step_clear self : headers_step self (clear self).

Lemma reachable_rep hash self :
  rtc headers_step (new hash) self -> exists hs, rep self hs /\ linked hs /\ zlen hs < 2 ^ 32.
Proof.
  intros Hs. remember (new hash) as s0. assert (exists hs, rep s0 hs /\ linked hs /\ zlen hs < 2 ^ 32) as H0.
  { exists []. subst. split; [apply rep_new|done]. }
  clear Heqs0. induction Hs as [s|s1 s2 s3 H1 _ IH]; [done|]. apply IH. destruct H0 as (hs & Hr & Hl & Hlen). destruct H1.
  - destruct (insert_n_rep hs0 _ hs _ Hr Hl H0) as (more & ? & ? & ?). exists (hs ++ more). split_and!; [done|done|].
    rewrite (rep_queue _ _ Hr), length_map in H. rewrite length_app. lia.
  - destruct (remove_n_rep (E := unit) hashes _ hs Hr Hlen) as (s & k & Hs & Hrs & _). rewrite H in Hs. injection Hs as <-.
    exists (take k hs). split; [done|]. split; [|rewrite length_take; lia].
    rewrite <- (take_drop k hs) in Hl. by apply linked_app in Hl as [? _].
  - destruct (block_inserted_rep _ hs hash0 storage_best Hr Hl) as (_ & hs' & ? & ? & ->).
    eexists. split; [done|]. split; [done|]. case_bool_decide; [|done]. destruct hs; cbn in *; lia.
  - exists []. split; [apply rep_clear|done].
Qed.

Lemma header_at_rep self hs i : rep self hs -> header_at self i = hs !! Z.to_nat i.
Proof.
  intros Hr. unfold header_at, at_. rewrite (rep_queue _ _ Hr), list_lookup_fmap.
  destruct (hs !! Z.to_nat i) as [h|] eqn:Hh; cbn; [|done].
  apply (rep_lookup self hs _ h Hr). split; [by apply list_elem_of_lookup_2 in Hh|done].
Qed.

Lemma position_rep self hs i h :
  rep self hs -> zlen hs < 2 ^ 32 -> hs !! i = Some h -> position (best self) (ih_hash h) = Some (Z.of_nat i).
Proof.
  intros Hr Hlen Hi. pose proof (rep_nodup _ _ Hr) as Hn.
  destruct (position_spec (best self) (ih_hash h)) as [[Hnot _]|(l1 & l2 & Hq & _ & Hp)].
  - rewrite (rep_queue _ _ Hr), length_map. lia.
  - exfalso. apply Hnot. rewrite (rep_queue _ _ Hr). apply list_elem_of_lookup_2 with i. by rewrite list_lookup_fmap, Hi.
  - rewrite Hp. f_equal. rewrite (rep_queue _ _ Hr) in Hq. rewrite Hq in Hn.
    f_equal. apply (NoDup_lookup _ _ _ (ih_hash h) Hn).
    + by rewrite lookup_app_r, Nat.sub_diag by lia.
    + by rewrite <- Hq, list_lookup_fmap, Hi.
Qed.

Lemma height_rep self hs :
  rep self hs -> zlen hs < 2 ^ 32 ->
  forall h i, height self h = Some i <-> 0 <= i /\ (ih_hash <$> hs !! Z.to_nat i) = Some h.
Proof.
  intros Hr Hlen h i. unfold height. split.
  - intros Hp. destruct (position_spec (best self) h) as [[_ Hp']|(l1 & l2 & Hq & _ & Hp')]; [rewrite (rep_queue _ _ Hr), length_map; lia|congruence|].
    rewrite Hp in Hp'. injection Hp' as ->. split; [lia|]. rewrite <- list_lookup_fmap. change (ih_hash <$> hs) with (map ih_hash hs).
    rewrite <- (rep_queue _ _ Hr), Hq, Nat2Z.id.
    by rewrite lookup_app_r, Nat.sub_diag by lia.
  - intros [Hi Hh]. destruct (hs !! Z.to_nat i) as [x|] eqn:Hx; [|done]. injection Hh as <-.
    rewrite (position_rep self hs _ x Hr Hlen Hx). f_equal. lia.
Qed.

Lemma children_rep {E} self hs :
  rep self hs -> zlen hs < 2 ^ 32 -> forall h i, hs !! i = Some h ->
  @children E self (ih_hash h) = Ok (match hs !! S i with Some c => [ih_hash c] | None => [] end).
Proof.
  intros Hr Hlen h i Hi. unfold children. rewrite (position_rep self hs i h Hr Hlen Hi).
  pose proof (lookup_lt_Some _ _ _ Hi). destruct (decide (Z.of_nat i + 1 < 2 ^ 32)) as [Hs|Hs].
  - rewrite ucheck_Ok by (unfold uint; lia). rewrite ok_bind. unfold at_.
    rewrite (rep_queue _ _ Hr), list_lookup_fmap. replace (Z.to_nat (Z.of_nat i + 1)) with (S i) by lia. by destruct (hs !! S i).
  - lia.
Qed.

(** Whatever the order of insertions, removals and stored blocks, the structure is a
    list of linked headers without repetitions: positions, heights, children and the
    best hash are those of the list, and removing hashes always succeeds and leaves a
    prefix without them and their descendants. *)
Theorem headers_chain_refines hash self :
  rtc headers_step (new hash) self ->
  exists hs, linked hs /\ NoDup (map ih_hash hs) /\
    (forall i, 0 <= i < 2 ^ 32 -> header_at self i = hs !! Z.to_nat i) /\
    (forall h i, height self h = Some i <-> 0 <= i /\ (ih_hash <$> hs !! Z.to_nat i) = Some h) /\
    best_block_hash self = default (storage_best_hash self) (ih_hash <$> last hs) /\
    (forall h i, hs !! i = Some h -> @children unit self (ih_hash h) = Ok (match hs !! S i with Some c => [ih_hash c] | None => [] end)) /\
    (forall hashes, exists self' k, @remove_n unit self hashes = Ok self' /\
       (forall i, 0 <= i < 2 ^ 32 -> header_at self' i = take k hs !! Z.to_nat i) /\
       (forall h, h ∈ take k hs -> ih_hash h ∉ hashes)).
Proof.
  intros Hreach. destruct (reachable_rep hash self Hreach) as (hs & Hr & Hl & Hlen). exists hs. split; [done|].
  split; [by eapply rep_nodup|]. split; [intros i _; by apply header_at_rep|]. split; [by apply height_rep|].
  split; [by apply rep_best_block_hash|]. split; [by apply children_rep|].
  intros hashes. destruct (remove_n_rep (E := unit) hashes self hs Hr Hlen) as (s' & k & Hs & Hr' & Hk & _).
  exists s', k. split; [done|]. split; [intros i _; by apply header_at_rep|done].
Qed.

End BestHeaders.

(** * Examples *)

Section examples.
Import Chain ChainHash HashQueue BestHeaders.

(** Three queues of which only the first holds a hash: the chain has no back. *)
Example chain_back_ignores_first :
  @chain_back unit [mkQueue [zero_hash] {[zero_hash]}; HashQueue.new; HashQueue.new] = Ok None.
Proof. vm_compute. reflexivity. Qed.

Lemma chain_back_spec_witness :
  @chain_back unit [HashQueue.new; mkQueue [zero_hash] {[zero_hash]}; HashQueue.new] = Ok (Some zero_hash).
Proof. apply (chain_back_spec HashQueue.new [mkQueue [zero_hash] {[zero_hash]}; HashQueue.new]). discriminate. Defined.

Definition example_headers : list IndexedBlockHeader :=
  [mkIndexedHeader (replicate 32 x01) (mkHeader 1 zero_hash zero_hash 0 0 0);
   mkIndexedHeader (replicate 32 x02) (mkHeader 1 (replicate 32 x01) zero_hash 0 0 0);
   mkIndexedHeader (replicate 32 x03) (mkHeader 1 (replicate 32 x02) zero_hash 0 0 0)].

Definition example_chain : BestHeadersChain :=
  match @insert_n unit (BestHeaders.new zero_hash) example_headers with Ok self => self | _ => BestHeaders.new zero_hash end.

Lemma headers_chain_refines_witness :
  exists hs, linked hs /\ header_at example_chain 2 = hs !! 2%nat /\ (ih_hash <$> hs !! 2%nat) = Some (replicate 32 x03).
Proof.
  destruct (headers_chain_refines zero_hash example_chain) as (hs & Hl & _ & Hat & _).
  - apply rtc_once, (step_insert_n _ example_headers); [vm_compute; reflexivity|].
    vm_cast_no_check (eq_refl (@Ok unit _ example_chain)).
  - exists hs. split; [exact Hl|]. assert (0 <= 2 < 2 ^ 32) as H2 by (split; [discriminate|reflexivity]). specialize (Hat 2 H2).
    change (Z.to_nat 2) with 2%nat in Hat. split; [exact Hat|]. rewrite <- Hat.
    vm_cast_no_check (eq_refl (Some (replicate 32 x03))).
Defined.

End examples.
