(* ===== verification/MemoryPool.v ===== *)
(** The memory pool (src/miner/src/memory_pool.rs) and its fee calculator
    (src/miner/src/fee.rs).

    Hash maps and sets are finite maps and sets.  The order in which a hash set is
    iterated is arbitrary: it is the class [HashOrder], and theorems hold for every
    order.  A [BTreeSet] is a list up to order, of which the least element is taken;
    it compares elements with the [Ord] of their type, whose arithmetic can overflow. *)
From Stdlib Require Import ZArith Lia Strings.Byte.
From stdpp Require Import base decidable numbers countable gmap list.
From S2P Require Import Prelude Crypto Serialization Codec Chain ChainHash Network Storage.

Local Open Scope Z_scope.

(** The order a [HashSet] is iterated in; most are sets of hashes. *)
Class HashOrderOf (A : Type) `{Countable A} := {
  hash_iter : gset A -> list A;
  hash_iter_perm s : hash_iter s ≡ₚ elements s;
}.
Abbreviation HashOrder := (HashOrderOf bytes).

(** * Standard library *)

(** The order of hashes: their bytes, the first one first. *)
Fixpoint hash_cmp (a b : bytes) : comparison :=
  match a, b with
  | [], [] => Eq
  | [], _ :: _ => Lt
  | _ :: _, [] => Gt
  | x :: a, y :: b => match u8 x ?= u8 y with Eq => hash_cmp a b | c => c end
  end.

Section btree.
Context {E A : Type} (cmp : A -> A -> outcome E comparison).

(** [BTreeSet::insert]: an element equal to the new one stays; [BTreeSet::remove]
    reports if there was one; the first element of the iterator. *)
Fixpoint btree_insert (x : A) (l : list A) : outcome E (list A) :=
  match l with
  | [] => Ok [x]
  | y :: l' =>
      c ← cmp x y;
      match c with
      | Eq => Ok (y :: l')
      | _ => l'' ← btree_insert x l'; Ok (y :: l'')
      end
  end.

Fixpoint btree_remove (x : A) (l : list A) : outcome E (bool * list A) :=
  match l with
  | [] => Ok (false, [])
  | y :: l' =>
      c ← cmp x y;
      match c with
      | Eq => Ok (true, l')
      | _ => '(removed, l'') ← btree_remove x l'; Ok (removed, y :: l'')
      end
  end.

Fixpoint btree_first (l : list A) : outcome E (option A) :=
  match l with
  | [] => Ok None
  | y :: l' =>
      first ← btree_first l';
      match first with
      | None => Ok (Some y)
      | Some z => c ← cmp y z; Ok (Some (match c with Gt => z | _ => y end))
      end
  end.

(** [slice::sort_by], for short slices insertion from the right. *)
Fixpoint sort_insert (x : A) (l : list A) : outcome E (list A) :=
  match l with
  | [] => Ok [x]
  | y :: l' =>
      c ← cmp y x;
      match c with
      | Lt => l'' ← sort_insert x l'; Ok (y :: l'')
      | _ => Ok (x :: y :: l')
      end
  end.
Fixpoint sort_by (l : list A) : outcome E (list A) :=
  match l with
  | [] => Ok []
  | x :: l => l ← sort_by l; sort_insert x l
  end.

End btree.

Module MemoryPool.
Import Ser Chain ChainHash Network Storage.

Inductive OrderingStrategy := ByTimestamp | ByTransactionScore | ByPackageScore.

Record Entry := mkEntry {
  transaction : Transaction;
  ancestors : gset bytes;
  hash : bytes;
  entry_size : Z;
  storage_index : Z;
  miner_fee : Z;
  miner_virtual_fee : Z;
  package_size : Z;
  package_miner_fee : Z;
  package_miner_virtual_fee : Z;
}.

Record ByTimestampOrderedEntry := mkByTimestamp { ts_hash : bytes; ts_storage_index : Z }.
Record ByTransactionScoreOrderedEntry := mkByScore { ts_score_hash : bytes; ts_size : Z; ts_fee : Z; ts_virtual_fee : Z }.
Record ByPackageScoreOrderedEntry := mkByPackage { ps_hash : bytes; ps_size : Z; ps_fee : Z; ps_virtual_fee : Z }.

Definition by_timestamp (e : Entry) : ByTimestampOrderedEntry := mkByTimestamp (hash e) (storage_index e).
Definition by_score (e : Entry) : ByTransactionScoreOrderedEntry :=
  mkByScore (hash e) (entry_size e) (miner_fee e) (miner_virtual_fee e).
Definition by_package (e : Entry) : ByPackageScoreOrderedEntry :=
  mkByPackage (hash e) (package_size e) (package_miner_fee e) (package_miner_virtual_fee e).

Definition timestamp_cmp {E} (a b : ByTimestampOrderedEntry) : outcome E comparison :=
  Ok (match ts_storage_index a ?= ts_storage_index b with Eq => hash_cmp (ts_hash a) (ts_hash b) | c => c end).

(** Both scores: the greater fee per size comes first.  Fees and sizes are cast to
    [i64] and multiplied across. *)
Definition score_cmp {E} (fee virtual_fee size : Z) (h : bytes) (fee' virtual_fee' size' : Z) (h' : bytes)
    : outcome E comparison :=
  score ← scheck 64 (swrap 64 fee + virtual_fee);
  left ← scheck 64 (score * swrap 64 size');
  score' ← scheck 64 (swrap 64 fee' + virtual_fee');
  right ← scheck 64 (score' * swrap 64 size);
  Ok (match right ?= left with Eq => hash_cmp h h' | c => c end).

Definition transaction_score_cmp {E} (a b : ByTransactionScoreOrderedEntry) : outcome E comparison :=
  score_cmp (ts_fee a) (ts_virtual_fee a) (ts_size a) (ts_score_hash a)
            (ts_fee b) (ts_virtual_fee b) (ts_size b) (ts_score_hash b).
Definition package_score_cmp {E} (a b : ByPackageScoreOrderedEntry) : outcome E comparison :=
  score_cmp (ps_fee a) (ps_virtual_fee a) (ps_size a) (ps_hash a) (ps_fee b) (ps_virtual_fee b) (ps_size b) (ps_hash b).

Record OrderedReferenceStorage := mkOrdered {
  by_storage_index : list ByTimestampOrderedEntry;
  by_transaction_score : list ByTransactionScoreOrderedEntry;
  by_package_score : list ByPackageScoreOrderedEntry;
}.

Record ReferenceStorage := mkReferences {
  by_input : gmap bytes (gset bytes);
  pending : gset bytes;
  ordered : OrderedReferenceStorage;
}.

(** [Storage] of the source. *)
Record PoolStorage := mkStorage {
  counter : Z;
  transactions_size_in_bytes : Z;
  by_hash : gmap bytes Entry;
  by_previous_output : gmap OutPoint bytes;
  references : ReferenceStorage;
}.

Record Pool := mkPool { storage : PoolStorage; accept_zero_fee : bool }.

Record Information := mkInformation { transactions_count : Z; transactions_size : Z }.

Inductive DoubleSpendCheckResult :=
| NoDoubleSpend
| DoubleSpend (spending hash : bytes) (index : Z)
| NonFinalDoubleSpend (double_spends dependent_spends : gset OutPoint).

Definition new_ordered : OrderedReferenceStorage := mkOrdered [] [] [].
Definition storage_new : PoolStorage := mkStorage 0 0 ∅ ∅ (mkReferences ∅ ∅ new_ordered).

(** * Orderings *)

Definition insert_to_orderings {E} (self : OrderedReferenceStorage) (entry : Entry) : outcome E OrderedReferenceStorage :=
  a ← btree_insert timestamp_cmp (by_timestamp entry) (by_storage_index self);
  b ← btree_insert transaction_score_cmp (by_score entry) (by_transaction_score self);
  c ← btree_insert package_score_cmp (by_package entry) (by_package_score self);
  Ok (mkOrdered a b c).

Definition remove_from_orderings {E} (self : OrderedReferenceStorage) (entry : Entry) : outcome E OrderedReferenceStorage :=
  '(_, a) ← btree_remove timestamp_cmp (by_timestamp entry) (by_storage_index self);
  '(_, b) ← btree_remove transaction_score_cmp (by_score entry) (by_transaction_score self);
  '(_, c) ← btree_remove package_score_cmp (by_package entry) (by_package_score self);
  Ok (mkOrdered a b c).

Definition read_top {E} (self : OrderedReferenceStorage) (strategy : OrderingStrategy) : outcome E (option bytes) :=
  match strategy with
  | ByTimestamp => e ← btree_first timestamp_cmp (by_storage_index self); Ok (option_map ts_hash e)
  | ByTransactionScore => e ← btree_first transaction_score_cmp (by_transaction_score self); Ok (option_map ts_score_hash e)
  | ByPackageScore => e ← btree_first package_score_cmp (by_package_score self); Ok (option_map ps_hash e)
  end.

(** * References *)

(** [removed] are the entries that an iterator has already passed. *)
Definition has_in_pool_ancestors (removed : option (gset bytes)) (by_hash : gmap bytes Entry) (tx : Transaction) : bool :=
  existsb (fun input =>
    let h := op_hash (previous_output input) in
    bool_decide (is_Some (by_hash !! h)) &&
    negb (match removed with Some r => bool_decide (h ∈ r) | None => false end)) (inputs tx).

Section pool.
Context `{HashOrder}.
Context {E : Type}.

Fixpoint promote (removed : option (gset bytes)) (by_hash : gmap bytes Entry) (self : ReferenceStorage)
    (descendants : list Entry) : outcome E ReferenceStorage :=
  match descendants with
  | [] => Ok self
  | descendant :: descendants =>
      self ← (if negb (has_in_pool_ancestors removed by_hash (transaction descendant)) then
          let pending := pending self ∖ {[hash descendant]} in
          match by_hash !! hash descendant with
          | Some descendant_entry =>
              ordered ← insert_to_orderings (ordered self) descendant_entry;
              Ok (mkReferences (by_input self) pending ordered)
          | None => Ok (mkReferences (by_input self) pending (ordered self))
          end
        else Ok self);
      promote removed by_hash self descendants
  end.

Definition references_remove (self : ReferenceStorage) (removed : option (gset bytes)) (by_hash : gmap bytes Entry)
    (entry : Entry) : outcome E ReferenceStorage :=
  self ← (match by_input self !! hash entry with
          | Some descendants => promote removed by_hash self (omap (fun h => by_hash !! h) (hash_iter descendants))
          | None => Ok self
          end);
  let by_input := delete (hash entry) (by_input self) in
  let pending := pending self ∖ {[hash entry]} in
  ordered ← remove_from_orderings (ordered self) entry;
  Ok (mkReferences by_input pending ordered).

(** * Storage *)

Definition with_references (self : PoolStorage) (r : ReferenceStorage) : PoolStorage :=
  mkStorage (counter self) (transactions_size_in_bytes self) (by_hash self) (by_previous_output self) r.

Definition add_by_input (h : bytes) (by_input : gmap bytes (gset bytes)) (input : TransactionInput)
    : gmap bytes (gset bytes) :=
  let parent := op_hash (previous_output input) in
  <[parent := {[h]} ∪ default ∅ (by_input !! parent)]> by_input.

(** Replace the key of an entry in the package order, when it is there. *)
Definition rekey_package (old new : Entry) (l : list ByPackageScoreOrderedEntry)
    : outcome E (list ByPackageScoreOrderedEntry) :=
  '(removed, l) ← btree_remove package_score_cmp (by_package old) l;
  if (removed : bool) then btree_insert package_score_cmp (by_package new) l else Ok l.

Fixpoint update_ancestors (entry : Entry) (hashes : list bytes) (by_hash : gmap bytes Entry)
    (by_package_score : list ByPackageScoreOrderedEntry)
    : outcome E (gmap bytes Entry * list ByPackageScoreOrderedEntry) :=
  match hashes with
  | [] => Ok (by_hash, by_package_score)
  | ancestor_hash :: hashes =>
      match by_hash !! ancestor_hash with
      | Some a =>
          size ← ucheck 64 (package_size a + entry_size entry);
          fee ← ucheck 64 (package_miner_fee a + package_miner_fee entry);
          virtual_fee ← scheck 64 (package_miner_virtual_fee a + package_miner_virtual_fee entry);
          let a' := mkEntry (transaction a) (ancestors a) (hash a) (entry_size a) (storage_index a) (miner_fee a)
                      (miner_virtual_fee a) size fee virtual_fee in
          by_package_score ← rekey_package a a' by_package_score;
          update_ancestors entry hashes (<[ancestor_hash := a']> by_hash) by_package_score
      | None => update_ancestors entry hashes by_hash by_package_score
      end
  end.

Fixpoint spend_inputs (h : bytes) (ins : list TransactionInput) (m : gmap OutPoint bytes) : outcome E (gmap OutPoint bytes) :=
  match ins with
  | [] => Ok m
  | input :: ins =>
      _ ← rust_assert (bool_decide (m !! previous_output input = None));
      spend_inputs h ins (<[previous_output input := h]> m)
  end.

Definition storage_insert (self : PoolStorage) (entry : Entry) : outcome E PoolStorage :=
  let tx := transaction entry in
  size ← ucheck 64 (transactions_size_in_bytes self + entry_size entry);
  let r := references self in
  let inputs_of := foldl (add_by_input (hash entry)) (by_input r) (inputs tx) in
  '(by_hash, packages) ← update_ancestors entry (hash_iter (ancestors entry)) (by_hash self)
                           (by_package_score (ordered r));
  let o := mkOrdered (by_storage_index (ordered r)) (by_transaction_score (ordered r)) packages in
  r ← (if has_in_pool_ancestors None by_hash tx
       then Ok (mkReferences inputs_of ({[hash entry]} ∪ pending r) o)
       else o ← insert_to_orderings o entry; Ok (mkReferences inputs_of (pending r) o));
  spent ← spend_inputs (hash entry) (inputs tx) (by_previous_output self);
  Ok (mkStorage (counter self) size (<[hash entry := entry]> by_hash) spent r).

Definition is_output_spent (self : PoolStorage) (prevout : OutPoint) : bool :=
  bool_decide (is_Some (by_previous_output self !! prevout)).

Fixpoint add_virtual_fee (change : Z) (hashes : list bytes) (by_hash : gmap bytes Entry)
    (by_package_score : list ByPackageScoreOrderedEntry)
    : outcome E (gmap bytes Entry * list ByPackageScoreOrderedEntry) :=
  match hashes with
  | [] => Ok (by_hash, by_package_score)
  | ancestor_hash :: hashes =>
      match by_hash !! ancestor_hash with
      | Some a =>
          virtual_fee ← scheck 64 (package_miner_virtual_fee a + change);
          let a' := mkEntry (transaction a) (ancestors a) (hash a) (entry_size a) (storage_index a) (miner_fee a)
                      (miner_virtual_fee a) (package_size a) (package_miner_fee a) virtual_fee in
          by_package_score ← rekey_package a a' by_package_score;
          add_virtual_fee change hashes (<[ancestor_hash := a']> by_hash) by_package_score
      | None => add_virtual_fee change hashes by_hash by_package_score
      end
  end.

Definition storage_set_virtual_fee (self : PoolStorage) (h : bytes) (virtual_fee : Z) : outcome E PoolStorage :=
  match by_hash self !! h with
  | None => Ok self
  | Some e =>
      let r := references self in
      '(in_package, packages) ← btree_remove package_score_cmp (by_package e) (by_package_score (ordered r));
      '(in_score, scores) ← btree_remove transaction_score_cmp (by_score e) (by_transaction_score (ordered r));
      change ← scheck 64 (virtual_fee - miner_virtual_fee e);
      let e' := mkEntry (transaction e) (ancestors e) (hash e) (entry_size e) (storage_index e) (miner_fee e)
                  virtual_fee (package_size e) (package_miner_fee e) (package_miner_virtual_fee e) in
      scores ← (if (in_score : bool) then btree_insert transaction_score_cmp (by_score e') scores else Ok scores);
      packages ← (if (in_package : bool) then btree_insert package_score_cmp (by_package e') packages else Ok packages);
      let by_hash := <[h := e']> (by_hash self) in
      '(by_hash, packages) ←
        (if negb (change =? 0) then add_virtual_fee change (hash_iter (ancestors e)) by_hash packages
         else Ok (by_hash, packages));
      let o := mkOrdered (by_storage_index (ordered r)) scores packages in
      Ok (mkStorage (counter self) (transactions_size_in_bytes self) by_hash (by_previous_output self)
            (mkReferences (by_input r) (pending r) o))
  end.

Fixpoint unspend_inputs (h : bytes) (ins : list TransactionInput) (m : gmap OutPoint bytes)
    : outcome E (gmap OutPoint bytes) :=
  match ins with
  | [] => Ok m
  | input :: ins =>
      spent_in_tx ← expect (m !! previous_output input);
      _ ← rust_assert (bool_decide (spent_in_tx = h));
      unspend_inputs h ins (delete (previous_output input) m)
  end.

Definition storage_remove_by_hash (self : PoolStorage) (h : bytes) : outcome E (option Entry * PoolStorage) :=
  match by_hash self !! h with
  | None => Ok (None, self)
  | Some entry =>
      let by_hash := delete h (by_hash self) in
      size ← ucheck 64 (transactions_size_in_bytes self - entry_size entry);
      spent ← unspend_inputs h (inputs (transaction entry)) (by_previous_output self);
      r ← references_remove (references self) None by_hash entry;
      Ok (Some entry, mkStorage (counter self) size by_hash spent r)
  end.

(** The loop over the outputs that depend on a spent one; entries are not removed, so
    an output that is reached on several paths is visited once for each of them. *)
Fixpoint dependents_loop (fuel : nat) (self : PoolStorage) (queue : list OutPoint) (dependent_spends : gset OutPoint)
    : outcome E (gset OutPoint) :=
  match queue with
  | [] => Ok dependent_spends
  | dependent_prevout :: queue =>
      match fuel with
      | O => Diverge
      | S fuel =>
          match by_previous_output self !! dependent_prevout with
          | Some dependent_entry_hash =>
              dependent_entry ← expect (by_hash self !! dependent_entry_hash);
              let dependent_outputs := map (fun idx => mkOutPoint dependent_entry_hash (wrap 32 (Z.of_nat idx)))
                                         (seq 0 (length (outputs (transaction dependent_entry)))) in
              dependents_loop fuel self (queue ++ dependent_outputs) (list_to_set dependent_outputs ∪ dependent_spends)
          | None => dependents_loop fuel self queue dependent_spends
          end
      end
  end.

Fixpoint double_spend_loop (fuel : nat) (self : PoolStorage) (ins : list TransactionInput)
    (double_spends dependent_spends : gset OutPoint) : outcome E DoubleSpendCheckResult :=
  match ins with
  | [] =>
      Ok (if bool_decide (double_spends = ∅) then NoDoubleSpend
          else NonFinalDoubleSpend double_spends dependent_spends)
  | input :: ins =>
      let prevout := previous_output input in
      match by_previous_output self !! prevout with
      | Some entry_hash =>
          entry ← expect (by_hash self !! entry_hash);
          if is_final (transaction entry) then Ok (DoubleSpend entry_hash (op_hash prevout) (op_index prevout)) else
          dependent_spends ← dependents_loop fuel self [prevout] dependent_spends;
          double_spend_loop fuel self ins ({[prevout]} ∪ double_spends) dependent_spends
      | None => double_spend_loop fuel self ins double_spends dependent_spends
      end
  end.

Definition storage_check_double_spend (fuel : nat) (self : PoolStorage) (tx : Transaction)
    : outcome E DoubleSpendCheckResult := double_spend_loop fuel self (inputs tx) ∅ ∅.

(** Each round takes an output off the queue; a removed entry puts its outputs there. *)
Fixpoint remove_by_prevout_loop (fuel : nat) (self : PoolStorage) (queue : list OutPoint)
    (removed : list IndexedTransaction) : outcome E (list IndexedTransaction * PoolStorage) :=
  match queue with
  | [] => Ok (removed, self)
  | prevout :: queue =>
      match fuel with
      | O => Diverge
      | S fuel =>
          match by_previous_output self !! prevout with
          | Some entry_hash =>
              '(entry, self) ← storage_remove_by_hash self entry_hash;
              entry ← expect entry;
              let outs := map (fun idx => mkOutPoint entry_hash (wrap 32 (Z.of_nat idx)))
                            (seq 0 (length (outputs (transaction entry)))) in
              remove_by_prevout_loop fuel self (queue ++ outs)
                (removed ++ [mkIndexedTx (hash entry) (transaction entry)])
          | None => remove_by_prevout_loop fuel self queue removed
          end
      end
  end.

(** The number of outputs of all entries. *)
Definition outputs_count (self : PoolStorage) : nat :=
  foldr (fun p n => length (outputs (transaction p.2)) + n)%nat 0%nat (map_to_list (by_hash self)).

Definition storage_remove_by_prevout (self : PoolStorage) (prevout : OutPoint)
    : outcome E (list IndexedTransaction * PoolStorage) :=
  remove_by_prevout_loop (S (outputs_count self)) self [prevout] [].

(** The descendants of an entry, from a stack of hashes. *)
Fixpoint descendants_loop (fuel : nat) (by_input : gmap bytes (gset bytes)) (descendants : list bytes)
    (all_descendants : gset bytes) : outcome E (gset bytes) :=
  match descendants with
  | [] => Ok all_descendants
  | descendant :: descendants =>
      match fuel with
      | O => Diverge
      | S fuel =>
          if bool_decide (descendant ∈ all_descendants) then descendants_loop fuel by_input descendants all_descendants
          else
            let grand_descendants := match by_input !! descendant with Some g => hash_iter g | None => [] end in
            descendants_loop fuel by_input (rev grand_descendants ++ descendants) ({[descendant]} ∪ all_descendants)
      end
  end.

Definition references_count (by_input : gmap bytes (gset bytes)) : nat :=
  foldr (fun p n => size p.2 + n)%nat 0%nat (map_to_list by_input).

Definition topological_cmp (by_hash : gmap bytes Entry) (left right : bytes) : outcome E comparison :=
  left ← expect (by_hash !! left);
  right ← expect (by_hash !! right);
  Ok (if bool_decide (hash right ∈ ancestors left) then Gt
      else if bool_decide (hash left ∈ ancestors right) then Lt
      else Eq).

Fixpoint remove_hashes (self : PoolStorage) (hashes : list bytes) : outcome E (list IndexedTransaction * PoolStorage) :=
  match hashes with
  | [] => Ok ([], self)
  | h :: hashes =>
      '(entry, self) ← storage_remove_by_hash self h;
      '(txs, self) ← remove_hashes self hashes;
      Ok (match entry with Some e => mkIndexedTx (hash e) (transaction e) :: txs | None => txs end, self)
  end.

Definition remove_by_parent_hash (self : PoolStorage) (h : bytes)
    : outcome E (option (list IndexedTransaction) * PoolStorage) :=
  let inputs_of := by_input (references self) in
  match inputs_of !! h with
  | Some d =>
      let descendants := hash_iter d in
      all_descendants ← descendants_loop (S (length descendants + references_count inputs_of)) inputs_of (rev descendants) ∅;
      sorted ← sort_by (topological_cmp (by_hash self)) (hash_iter all_descendants);
      '(txs, self) ← remove_hashes self sorted;
      Ok (Some txs, self)
  | None => Ok (None, self)
  end.

Definition storage_remove_with_strategy (self : PoolStorage) (strategy : OrderingStrategy)
    : outcome E (option IndexedTransaction * PoolStorage) :=
  top_hash ← read_top (ordered (references self)) strategy;
  match top_hash with
  | Some h =>
      '(entry, self) ← storage_remove_by_hash self h;
      entry ← expect entry;
      Ok (Some (mkIndexedTx (hash entry) (transaction entry)), self)
  | None => Ok (None, self)
  end.

Fixpoint storage_remove_n_with_strategy (self : PoolStorage) (n : nat) (strategy : OrderingStrategy)
    : outcome E (list IndexedTransaction * PoolStorage) :=
  match n with
  | O => Ok ([], self)
  | S n =>
      '(tx, self) ← storage_remove_with_strategy self strategy;
      match tx with
      | Some tx => '(txs, self) ← storage_remove_n_with_strategy self n strategy; Ok (tx :: txs, self)
      | None => Ok ([], self)
      end
  end.

(** * The pool *)

Definition new : Pool := mkPool storage_new false.

(** [accept_zero_fee_transactions]: a pool that takes transactions of any fee. *)
Definition accept_zero_fee_transactions (self : Pool) : Pool := mkPool (storage self) true.

Definition get (self : Pool) (h : bytes) : option Transaction := transaction <$> by_hash (storage self) !! h.
Definition contains (self : Pool) (h : bytes) : bool := bool_decide (is_Some (by_hash (storage self) !! h)).

Definition get_ancestors (self : Pool) (t : Transaction) : gset bytes :=
  foldl (fun all input =>
    match by_hash (storage self) !! op_hash (previous_output input) with
    | Some e => ancestors e ∪ ({[hash e]} ∪ all)
    | None => all
    end) ∅ (inputs t).

Definition with_storage (self : Pool) (s : PoolStorage) : Pool := mkPool s (accept_zero_fee self).

Definition get_storage_index (self : Pool) : outcome E (Z * Pool) :=
  let s := storage self in
  c ← ucheck 64 (counter s + 1);
  Ok (c, with_storage self (mkStorage c (transactions_size_in_bytes s) (by_hash s) (by_previous_output s) (references s))).

(** The trait [MemoryPoolFeeCalculator] is a function of the pool and a transaction. *)
Definition make_entry (fc : Pool -> Transaction -> outcome E Z) (self : Pool) (t : IndexedTransaction)
    : outcome E (option Entry * Pool) :=
  let ancestors := get_ancestors self (itx_raw t) in
  let size := serialized_size transaction_codec (itx_raw t) in
  '(storage_index, self) ← get_storage_index self;
  miner_fee ← fc self (itx_raw t);
  if negb (accept_zero_fee self) && (miner_fee =? 0) then Ok (None, self) else
  Ok (Some (mkEntry (itx_raw t) ancestors (itx_hash t) size storage_index miner_fee 0 size miner_fee 0), self).

Fixpoint reinsert (fc : Pool -> Transaction -> outcome E Z) (self : Pool) (txs : list IndexedTransaction) : outcome E Pool :=
  match txs with
  | [] => Ok self
  | t :: txs =>
      '(entry, self) ← make_entry fc self t;
      self ← (match entry with
              | Some e => s ← storage_insert (storage self) e; Ok (with_storage self s)
              | None => Ok self
              end);
      reinsert fc self txs
  end.

Definition insert_verified (fc : Pool -> Transaction -> outcome E Z) (self : Pool) (t : IndexedTransaction)
    : outcome E Pool :=
  '(entry, self) ← make_entry fc self t;
  match entry with
  | Some entry =>
      '(descendants, s) ← remove_by_parent_hash (storage self) (hash entry);
      s ← storage_insert s entry;
      let self := with_storage self s in
      match descendants with
      | Some descendants => reinsert fc self descendants
      | None => Ok self
      end
  | None => Ok self
  end.

Definition remove_by_hash (self : Pool) (h : bytes) : outcome E (option IndexedTransaction * Pool) :=
  '(entry, s) ← storage_remove_by_hash (storage self) h;
  Ok (option_map (fun e => mkIndexedTx (hash e) (transaction e)) entry, with_storage self s).

Definition check_double_spend (fuel : nat) (self : Pool) (tx : Transaction) : outcome E DoubleSpendCheckResult :=
  storage_check_double_spend fuel (storage self) tx.

Definition remove_by_prevout (self : Pool) (prevout : OutPoint) : outcome E (list IndexedTransaction * Pool) :=
  '(txs, s) ← storage_remove_by_prevout (storage self) prevout; Ok (txs, with_storage self s).

Definition read_by_hash (self : Pool) (h : bytes) : option Transaction := get self h.

Definition read_with_strategy (self : Pool) (strategy : OrderingStrategy) : outcome E (option bytes) :=
  read_top (ordered (references (storage self))) strategy.

Definition remove_with_strategy (self : Pool) (strategy : OrderingStrategy) : outcome E (option IndexedTransaction * Pool) :=
  '(tx, s) ← storage_remove_with_strategy (storage self) strategy; Ok (tx, with_storage self s).

Definition remove_n_with_strategy (self : Pool) (n : nat) (strategy : OrderingStrategy)
    : outcome E (list IndexedTransaction * Pool) :=
  '(txs, s) ← storage_remove_n_with_strategy (storage self) n strategy; Ok (txs, with_storage self s).

Definition set_virtual_fee (self : Pool) (h : bytes) (virtual_fee : Z) : outcome E Pool :=
  s ← storage_set_virtual_fee (storage self) h virtual_fee; Ok (with_storage self s).

Definition information (self : Pool) : Information :=
  mkInformation (Z.of_nat (size (by_hash (storage self)))) (transactions_size_in_bytes (storage self)).

Definition get_transactions_ids (self : Pool) : list bytes := hash_iter (dom (by_hash (storage self))).

(** * Iterators *)

Record MemoryPoolIterator := mkIterator {
  iter_pool : Pool;
  iter_references : ReferenceStorage;
  iter_removed : gset bytes;
  iter_strategy : OrderingStrategy;
}.

Definition iter (self : Pool) (strategy : OrderingStrategy) : MemoryPoolIterator :=
  mkIterator self (references (storage self)) ∅ strategy.

Definition iter_next (self : MemoryPoolIterator) : outcome E (option Entry * MemoryPoolIterator) :=
  top_hash ← read_top (ordered (iter_references self)) (iter_strategy self);
  match top_hash with
  | Some h =>
      entry ← expect (by_hash (storage (iter_pool self)) !! h);
      let removed := {[h]} ∪ iter_removed self in
      r ← references_remove (iter_references self) (Some removed) (by_hash (storage (iter_pool self))) entry;
      Ok (Some entry, mkIterator (iter_pool self) r removed (iter_strategy self))
  | None => Ok (None, self)
  end.

Fixpoint iter_take (n : nat) (self : MemoryPoolIterator) : outcome E (list Entry) :=
  match n with
  | O => Ok []
  | S n =>
      '(e, self) ← iter_next self;
      match e with
      | Some e => es ← iter_take n self; Ok (e :: es)
      | None => Ok []
      end
  end.

Definition read_n_with_strategy (self : Pool) (n : nat) (strategy : OrderingStrategy) : outcome E (list bytes) :=
  es ← iter_take n (iter self strategy); Ok (map hash es).

End pool.

(** * The pool as a provider, and fees (fee.rs) *)

Definition pool_transaction_bytes (self : Pool) (h : bytes) : option bytes :=
  to_bytes transaction_codec <$> get self h.
Definition pool_transaction (self : Pool) (h : bytes) : option IndexedTransaction := mkIndexedTx h <$> get self h.

Definition pool_provider (self : Pool) : TransactionOutputProvider := {|
  transaction_output := fun prevout _ => tx ← get self (op_hash prevout); outputs tx !! Z.to_nat (op_index prevout);
  is_spent := is_output_spent (storage self);
|}.

Fixpoint sum_values {E} (acc : Z) (values : list Z) : outcome E Z :=
  match values with
  | [] => Ok acc
  | v :: values => acc ← ucheck 64 (acc + v); sum_values acc values
  end.

Definition transaction_fee {E} (store : TransactionOutputProvider) (tx : Transaction) : outcome E Z :=
  input_value ← sum_values 0 (map (fun input =>
    match transaction_output store (previous_output input) usize_max with Some o => value o | None => 0 end) (inputs tx));
  output_value ← sum_values 0 (map value (outputs tx));
  Ok (Z.max 0 (input_value - output_value)).

Definition transaction_fee_rate {E} (store : TransactionOutputProvider) (tx : Transaction) : outcome E Z :=
  fee ← transaction_fee store tx;
  let size := serialized_size transaction_codec tx in
  _ ← rust_assert (negb (size =? 0));
  Ok (fee / size).

(** [FeeCalculator] over the outputs of the database. *)
Definition fee_calculator {E} (db : TransactionOutputProvider) (memory_pool : Pool) (tx : Transaction) : outcome E Z :=
  transaction_fee (DuplexTransactionOutputProvider db (pool_provider memory_pool)) tx.

End MemoryPool.
