(* ===== verification/MemoryPoolInv.v ===== *)
(** The tables of the memory pool and the invariant that ties them together; what
    removing an entry and updating the packages of its ancestors do to them. *)
From Stdlib Require Import ZArith Lia Strings.Byte.
From stdpp Require Import base decidable numbers countable gmap list relations.
From S2P Require Import Prelude Crypto Serialization Codec Chain ChainHash Network Storage MemoryPool.

Local Open Scope Z_scope.

Module MemoryPoolInv.
Import Chain ChainHash Storage MemoryPool.

(** * Comparisons *)

Lemma hash_cmp_eq a b : hash_cmp a b = Eq <-> a = b.
Proof.
  revert b. induction a as [|x a IH]; intros [|y b]; cbn; try done.
  destruct (Z.compare_spec (u8 x) (u8 y)) as [Hxy|Hxy|Hxy].
  - rewrite IH. split; [|congruence]. intros ->. f_equal. rewrite <- (byte_of_u8 x), <- (byte_of_u8 y). by f_equal.
  - split; [done|]. intros [= -> _]. lia.
  - split; [done|]. intros [= -> _]. lia.
Qed.

(** Scores whose cross products fit in 64 bits. *)
Definition small_score (fee virtual_fee size : Z) : Prop :=
  0 <= fee < 2 ^ 62 /\ Z.abs (fee + virtual_fee) < 2 ^ 32 /\ 0 < size < 2 ^ 31.

Lemma score_cmp_total {E} f v s h f' v' s' h' :
  small_score f v s -> small_score f' v' s' ->
  @score_cmp E f v s h f' v' s' h' =
    Ok (match (f' + v') * s ?= (f + v) * s' with Eq => hash_cmp h h' | c => c end).
Proof.
  intros (Hf & Hv & Hs) (Hf' & Hv' & Hs'). unfold score_cmp.
  rewrite !(swrap_sint 64) by (unfold sint; lia).
  rewrite (scheck_Ok 64 (f + v)), ok_bind by (unfold sint; lia).
  rewrite (scheck_Ok 64 (f' + v')) by (unfold sint; lia).
  assert (forall a b, Z.abs a < 2 ^ 32 -> 0 < b < 2 ^ 31 -> sint 64 (a * b)) as Hprod.
  { intros a b Ha Hb. unfold sint. assert (Z.abs (a * b) < 2 ^ 63); [rewrite Z.abs_mul; nia|lia]. }
  rewrite scheck_Ok, !ok_bind by (by apply Hprod). rewrite scheck_Ok, ok_bind by (by apply Hprod). done.
Qed.

(** * Sets ordered by a comparison *)

(** Comparisons of the elements of interest do not fail, and equal elements have the
    same key. *)
Record ordering {E A} (cmp : A -> A -> outcome E comparison) (key : A -> bytes) (P : A -> Prop) : Prop := {
  ordering_total a b : P a -> P b -> exists c, cmp a b = Ok c /\ (c = Eq -> key a = key b);
  ordering_refl a : P a -> cmp a a = Ok Eq;
}.

Section btree.
Context {E A : Type} (cmp : A -> A -> outcome E comparison) (key : A -> bytes) (P : A -> Prop).
Hypothesis Hcmp : ordering cmp key P.

Lemma btree_insert_new x l :
  P x -> Forall P l -> key x ∉ map key l -> exists l', btree_insert cmp x l = Ok l' /\ l' ≡ₚ x :: l.
Proof.
  intros Hx Hl. induction Hl as [|y l Hy Hl IH]; intros Hn; cbn [btree_insert]; [by eexists|].
  cbn in Hn. apply not_elem_of_cons in Hn as [Hne Hn].
  destruct (ordering_total _ _ _ Hcmp x y Hx Hy) as (c & -> & Hc). rewrite ok_bind.
  destruct (IH Hn) as (l' & -> & Hp). rewrite ok_bind.
  destruct c; [by destruct Hne; apply Hc|..]; (eexists; split; [done|]; rewrite Hp; apply Permutation_swap).
Qed.

Lemma btree_insert_old x l :
  Forall P l -> NoDup (map key l) -> x ∈ l -> btree_insert cmp x l = Ok l.
Proof.
  intros Hl. induction Hl as [|y l Hy Hl IH]; intros Hn Hin; [by apply not_elem_of_nil in Hin|]. cbn [btree_insert].
  cbn in Hn. apply NoDup_cons in Hn as [Hny Hn]. apply elem_of_cons in Hin as [->|Hin].
  - by rewrite (ordering_refl _ _ _ Hcmp y Hy).
  - pose proof (proj1 (Forall_forall _ _) Hl x Hin) as Hx.
    destruct (ordering_total _ _ _ Hcmp x y Hx Hy) as (c & -> & Hc). rewrite ok_bind, IH by done. rewrite ok_bind.
    destruct c; try done.
Qed.

Lemma btree_remove_in x l :
  Forall P l -> NoDup (map key l) -> x ∈ l -> exists l', btree_remove cmp x l = Ok (true, l') /\ l ≡ₚ x :: l'.
Proof.
  intros Hl. induction Hl as [|y l Hy Hl IH]; intros Hn Hin; [by apply not_elem_of_nil in Hin|]. cbn [btree_remove].
  cbn in Hn. apply NoDup_cons in Hn as [Hny Hn]. destruct (decide (key x = key y)) as [Heq|Hne].
  - apply elem_of_cons in Hin as [->|Hin].
    + rewrite (ordering_refl _ _ _ Hcmp y Hy). by eexists.
    + exfalso. apply Hny. rewrite <- Heq. apply list_elem_of_In, in_map. by apply list_elem_of_In.
  - apply elem_of_cons in Hin as [->|Hin]; [done|]. pose proof (proj1 (Forall_forall _ _) Hl x Hin) as Hx.
    destruct (ordering_total _ _ _ Hcmp x y Hx Hy) as (c & -> & Hc). rewrite ok_bind.
    destruct (IH Hn Hin) as (l' & -> & Hp). rewrite ok_bind.
    destruct c; [by destruct Hne; apply Hc|..]; (eexists; split; [done|]; rewrite Hp; apply Permutation_swap).
Qed.

Lemma btree_remove_out x l : P x -> Forall P l -> key x ∉ map key l -> btree_remove cmp x l = Ok (false, l).
Proof.
  intros Hx Hl. induction Hl as [|y l Hy Hl IH]; intros Hn; cbn [btree_remove]; [done|].
  cbn in Hn. apply not_elem_of_cons in Hn as [Hne Hn].
  destruct (ordering_total _ _ _ Hcmp x y Hx Hy) as (c & -> & Hc). rewrite ok_bind, IH, ok_bind by done.
  destruct c; [by destruct Hne; apply Hc|done..].
Qed.

Lemma btree_first_in l :
  Forall P l -> exists o, btree_first cmp l = Ok o /\ match o with Some y => y ∈ l | None => l = [] end.
Proof.
  intros Hl. induction Hl as [|y l Hy Hl IH]; cbn [btree_first]; [by eexists|].
  destruct IH as (o & -> & Ho). rewrite ok_bind. destruct o as [z|]; [|eexists; split; [done|]; apply list_elem_of_here].
  pose proof (proj1 (Forall_forall _ _) Hl z Ho) as Hz.
  destruct (ordering_total _ _ _ Hcmp y z Hy Hz) as (c & -> & _). rewrite ok_bind. eexists. split; [done|].
  destruct c; [apply list_elem_of_here|apply list_elem_of_here|by apply list_elem_of_further].
Qed.
End btree.

(** * The orderings hold the keys of a list of entries *)

Definition small (e : Entry) : Prop :=
  small_score (miner_fee e) (miner_virtual_fee e) (entry_size e) /\
  small_score (package_miner_fee e) (package_miner_virtual_fee e) (package_size e).

Lemma timestamp_ordering {E} : @ordering E _ timestamp_cmp ts_hash (fun _ => True).
Proof.
  split.
  - intros a b _ _. unfold timestamp_cmp. eexists. split; [done|].
    destruct (_ ?= _); [|done..]. by rewrite hash_cmp_eq.
  - intros a _. unfold timestamp_cmp. by rewrite Z.compare_refl, (proj2 (hash_cmp_eq _ _)).
Qed.

Lemma transaction_score_ordering {E} :
  @ordering E _ transaction_score_cmp ts_score_hash (fun a => small_score (ts_fee a) (ts_virtual_fee a) (ts_size a)).
Proof.
  split.
  - intros a b Ha Hb. unfold transaction_score_cmp. rewrite score_cmp_total by done. eexists. split; [done|].
    destruct (_ ?= _); [|done..]. by rewrite hash_cmp_eq.
  - intros a Ha. unfold transaction_score_cmp. rewrite score_cmp_total by done.
    by rewrite Z.compare_refl, (proj2 (hash_cmp_eq _ _)).
Qed.

Lemma package_score_ordering {E} :
  @ordering E _ package_score_cmp ps_hash (fun a => small_score (ps_fee a) (ps_virtual_fee a) (ps_size a)).
Proof.
  split.
  - intros a b Ha Hb. unfold package_score_cmp. rewrite score_cmp_total by done. eexists. split; [done|].
    destruct (_ ?= _); [|done..]. by rewrite hash_cmp_eq.
  - intros a Ha. unfold package_score_cmp. rewrite score_cmp_total by done.
    by rewrite Z.compare_refl, (proj2 (hash_cmp_eq _ _)).
Qed.

Record keys_of (R : list Entry) (o : OrderedReferenceStorage) : Prop := {
  keys_timestamp : by_storage_index o ≡ₚ map by_timestamp R;
  keys_score : by_transaction_score o ≡ₚ map by_score R;
  keys_package : by_package_score o ≡ₚ map by_package R;
}.

(** One ordered set, with what its keys are made from. *)
Section keys.
Context {E A : Type} (cmp : A -> A -> outcome E comparison) (key : A -> bytes) (P : A -> Prop) (f : Entry -> A).
Hypothesis Hcmp : ordering cmp key P.
Hypothesis Hkey : forall e, key (f e) = hash e.
Hypothesis Hsmall : forall e, small e -> P (f e).

Lemma keys_map R : map key (map f R) = map hash R.
Proof. rewrite map_map. by apply map_ext. Qed.

Lemma keys_P (l : list A) R : l ≡ₚ map f R -> Forall small R -> Forall P l.
Proof. intros Hl HR. rewrite Hl. apply Forall_map. eapply Forall_impl; [done|]. by apply Hsmall. Qed.

Lemma keys_insert_new l R e :
  l ≡ₚ map f R -> small e -> Forall small R -> hash e ∉ map hash R ->
  exists l', btree_insert cmp (f e) l = Ok l' /\ l' ≡ₚ map f (e :: R).
Proof.
  intros Hl He HR Hn. destruct (btree_insert_new cmp key P Hcmp (f e) l) as (l' & Hi & Hp).
  - by apply Hsmall.
  - by eapply keys_P.
  - by rewrite Hl, keys_map, Hkey.
  - exists l'. split; [done|]. by rewrite Hp, Hl.
Qed.

Lemma keys_insert_old l R e :
  l ≡ₚ map f R -> Forall small R -> NoDup (map hash R) -> e ∈ R -> btree_insert cmp (f e) l = Ok l.
Proof.
  intros Hl HR Hn Hin. apply (btree_insert_old cmp key P Hcmp).
  - by eapply keys_P.
  - by rewrite Hl, keys_map.
  - rewrite Hl. apply list_elem_of_In, in_map. by apply list_elem_of_In.
Qed.

Lemma keys_remove_in l R R' e :
  l ≡ₚ map f R -> Forall small R -> NoDup (map hash R) -> R ≡ₚ e :: R' ->
  exists l', btree_remove cmp (f e) l = Ok (true, l') /\ l' ≡ₚ map f R'.
Proof.
  intros Hl HR Hn HRe. destruct (btree_remove_in cmp key P Hcmp (f e) l) as (l' & Hr & Hp).
  - by eapply keys_P.
  - by rewrite Hl, keys_map.
  - rewrite Hl, HRe. apply list_elem_of_here.
  - exists l'. split; [done|]. rewrite Hl, HRe in Hp. cbn in Hp. by apply Permutation_cons_inv in Hp.
Qed.

Lemma keys_remove_out l R e :
  l ≡ₚ map f R -> small e -> Forall small R -> hash e ∉ map hash R -> btree_remove cmp (f e) l = Ok (false, l).
Proof.
  intros Hl He HR Hn. apply (btree_remove_out cmp key P Hcmp).
  - by apply Hsmall.
  - by eapply keys_P.
  - by rewrite Hl, keys_map, Hkey.
Qed.

Lemma keys_first l R :
  l ≡ₚ map f R -> Forall small R ->
  (R = [] /\ btree_first cmp l = Ok None) \/
  (exists e, e ∈ R /\ btree_first cmp l = Ok (Some (f e))).
Proof.
  intros Hl HR. destruct (btree_first_in cmp key P Hcmp l) as (o & Ho & Hin); [by eapply keys_P|].
  destruct o as [y|].
  - right. rewrite Hl, list_elem_of_In, in_map_iff in Hin. destruct Hin as (e & <- & He).
    exists e. split; [by apply list_elem_of_In|done].
  - left. subst l. split; [|done]. symmetry in Hl. apply Permutation_nil_r in Hl. by destruct R.
Qed.
End keys.

Lemma small_by_score e : small e -> small_score (ts_fee (by_score e)) (ts_virtual_fee (by_score e)) (ts_size (by_score e)).
Proof. by intros [? _]. Qed.
Lemma small_by_package e : small e -> small_score (ps_fee (by_package e)) (ps_virtual_fee (by_package e)) (ps_size (by_package e)).
Proof. by intros [_ ?]. Qed.

Lemma orderings_insert_new {E} R o e :
  keys_of R o -> small e -> Forall small R -> hash e ∉ map hash R ->
  exists o', @insert_to_orderings E o e = Ok o' /\ keys_of (e :: R) o'.
Proof.
  intros [Ht Hs Hp] He HR Hn. unfold insert_to_orderings.
  destruct (keys_insert_new (E := E) _ _ _ by_timestamp timestamp_ordering (fun _ => eq_refl) (fun _ _ => I) _ R e Ht He HR Hn) as (a & -> & Ha).
  rewrite ok_bind.
  destruct (keys_insert_new (E := E) _ _ _ by_score transaction_score_ordering (fun _ => eq_refl) small_by_score _ R e Hs He HR Hn) as (b & -> & Hb). rewrite ok_bind.
  destruct (keys_insert_new (E := E) _ _ _ by_package package_score_ordering (fun _ => eq_refl) small_by_package _ R e Hp He HR Hn) as (c & -> & Hc). rewrite ok_bind.
  eexists. split; [done|]. by split.
Qed.

Lemma orderings_insert_old {E} R o e :
  keys_of R o -> Forall small R -> NoDup (map hash R) -> e ∈ R -> @insert_to_orderings E o e = Ok o.
Proof.
  intros [Ht Hs Hp] HR Hn Hin. unfold insert_to_orderings.
  rewrite (keys_insert_old _ _ _ by_timestamp timestamp_ordering (fun _ => eq_refl) (fun _ _ => I) _ R) by done. rewrite ok_bind.
  rewrite (keys_insert_old _ _ _ by_score transaction_score_ordering (fun _ => eq_refl) small_by_score _ R) by done. rewrite ok_bind.
  rewrite (keys_insert_old _ _ _ by_package package_score_ordering (fun _ => eq_refl) small_by_package _ R) by done. rewrite ok_bind.
  by destruct o.
Qed.

Lemma orderings_remove_in {E} R R' o e :
  keys_of R o -> Forall small R -> NoDup (map hash R) -> R ≡ₚ e :: R' ->
  exists o', @remove_from_orderings E o e = Ok o' /\ keys_of R' o'.
Proof.
  intros [Ht Hs Hp] HR Hn HRe. unfold remove_from_orderings.
  destruct (keys_remove_in (E := E) _ _ _ by_timestamp timestamp_ordering (fun _ => eq_refl) (fun _ _ => I) _ R R' e Ht HR Hn HRe) as (a & -> & Ha).
  rewrite ok_bind.
  destruct (keys_remove_in (E := E) _ _ _ by_score transaction_score_ordering (fun _ => eq_refl) small_by_score _ R R' e Hs HR Hn HRe) as (b & -> & Hb). rewrite ok_bind.
  destruct (keys_remove_in (E := E) _ _ _ by_package package_score_ordering (fun _ => eq_refl) small_by_package _ R R' e Hp HR Hn HRe) as (c & -> & Hc). rewrite ok_bind.
  eexists. split; [done|]. by split.
Qed.

Lemma orderings_remove_out {E} R o e :
  keys_of R o -> small e -> Forall small R -> hash e ∉ map hash R -> @remove_from_orderings E o e = Ok o.
Proof.
  intros [Ht Hs Hp] He HR Hn. unfold remove_from_orderings.
  rewrite (keys_remove_out _ _ _ by_timestamp timestamp_ordering (fun _ => eq_refl) (fun _ _ => I) _ R) by done. rewrite ok_bind.
  rewrite (keys_remove_out _ _ _ by_score transaction_score_ordering (fun _ => eq_refl) small_by_score _ R) by done. rewrite ok_bind.
  rewrite (keys_remove_out _ _ _ by_package package_score_ordering (fun _ => eq_refl) small_by_package _ R) by done. rewrite ok_bind.
  by destruct o.
Qed.

(** In both cases at once: the entry of the hash, if any, is the given one. *)
Lemma orderings_insert {E} R o e :
  keys_of R o -> NoDup (map hash R) -> Forall small R -> small e -> (forall x, x ∈ R -> hash x = hash e -> x = e) ->
  exists o' R', @insert_to_orderings E o e = Ok o' /\ keys_of R' o' /\ NoDup (map hash R') /\
    (forall x, x ∈ R' <-> x ∈ R \/ x = e).
Proof.
  intros Hk Hn HR He Huniq. destruct (decide (hash e ∈ map hash R)) as [Hin|Hnin].
  - rewrite list_elem_of_In, in_map_iff in Hin. destruct Hin as (x & Hx & Hxin). apply list_elem_of_In in Hxin.
    assert (e ∈ R) as HeR by (by rewrite <- (Huniq x Hxin Hx)).
    exists o, R. rewrite (orderings_insert_old R) by done. split_and!; try done. intros y. split; [by left|by intros [?| ->]].
  - destruct (orderings_insert_new (E := E) R o e) as (o' & Ho & Hko); try done.
    exists o', (e :: R). split_and!; [done|done|by apply NoDup_cons|]. intros y. rewrite elem_of_cons. tauto.
Qed.

Lemma orderings_remove {E} R o e :
  keys_of R o -> NoDup (map hash R) -> Forall small R -> small e -> (forall x, x ∈ R -> hash x = hash e -> x = e) ->
  exists o' R', @remove_from_orderings E o e = Ok o' /\ keys_of R' o' /\ NoDup (map hash R') /\
    (forall x, x ∈ R' <-> x ∈ R /\ hash x <> hash e).
Proof.
  intros Hk Hn HR He Huniq. assert (forall l x, x ∈ l -> hash x ∈ map hash l) as Hmap.
  { intros l x Hx. apply list_elem_of_In, in_map. by apply list_elem_of_In. }
  destruct (decide (hash e ∈ map hash R)) as [Hin|Hnin].
  - rewrite list_elem_of_In, in_map_iff in Hin. destruct Hin as (x & Hx & Hxin). apply list_elem_of_In in Hxin.
    assert (e ∈ R) as HeR by (by rewrite <- (Huniq x Hxin Hx)).
    apply elem_of_Permutation in HeR as [R2 HR2]. destruct (orderings_remove_in (E := E) R R2 o e) as (o' & Ho & Hko); try done.
    rewrite HR2 in Hn. cbn in Hn. apply NoDup_cons in Hn as [Hne Hn2].
    exists o', R2. split_and!; [done|done|done|]. intros y. rewrite HR2, elem_of_cons. split.
    + intros Hy. split; [by right|]. intros Heq. apply Hne. rewrite <- Heq. by apply Hmap.
    + intros [[->|Hy] ?]; done.
  - exists o, R. rewrite (orderings_remove_out R) by done. split_and!; try done. intros y. split; [|by intros [? _]].
    intros Hy. split; [done|]. intros Heq. apply Hnin. rewrite <- Heq. by apply Hmap.
Qed.

Lemma read_top_spec {E} R o strategy :
  keys_of R o -> Forall small R ->
  (R = [] /\ @read_top E o strategy = Ok None) \/
  (exists e, e ∈ R /\ @read_top E o strategy = Ok (Some (hash e))).
Proof.
  intros [Ht Hs Hp] HR. destruct strategy; cbn [read_top].
  - destruct (keys_first (E := E) _ _ _ by_timestamp timestamp_ordering (fun _ _ => I) _ R Ht HR) as [[-> ->]|(e & He & ->)]; [by left|right].
    by exists e.
  - destruct (keys_first (E := E) _ _ _ by_score transaction_score_ordering small_by_score _ R Hs HR) as [[-> ->]|(e & He & ->)]; [by left|right]. by exists e.
  - destruct (keys_first (E := E) _ _ _ by_package package_score_ordering small_by_package _ R Hp HR) as [[-> ->]|(e & He & ->)]; [by left|right]. by exists e.
Qed.

(** * Invariant *)

Definition prevouts (e : Entry) : list OutPoint := map previous_output (inputs (transaction e)).
Definition parents (tx : Transaction) : list bytes := map (fun i => op_hash (previous_output i)) (inputs tx).

(** The entry is in the pool and none of its parents is. *)
Definition ready (pool : gmap bytes Entry) (e : Entry) : Prop :=
  pool !! hash e = Some e /\ forall p, p ∈ parents (transaction e) -> pool !! p = None.

(** The orderings hold exactly the ready entries, and the others are pending. *)
Definition ordered_ready (pool : gmap bytes Entry) (pending : gset bytes) (o : OrderedReferenceStorage) : Prop :=
  exists R, keys_of R o /\ NoDup (map hash R) /\ (forall e, e ∈ R <-> ready pool e) /\
    (forall h, h ∈ pending <-> exists e, pool !! h = Some e /\ exists p, p ∈ parents (transaction e) /\ is_Some (pool !! p)).

(** [inputs_of] is what a transaction hash stands for: the transactions it spends. *)
Section inv.
Context (inputs_of : bytes -> list bytes).

Definition total_size (pool : gmap bytes Entry) : Z := foldr Z.add 0 (map (fun p => entry_size p.2) (map_to_list pool)).

(** The entries themselves: stored under their hashes, with hashes that determine
    their inputs, scores in range, and ancestors that entered the pool before them. *)
Record wf_entries (pool : gmap bytes Entry) (count : Z) : Prop := {
  pool_hash h e : pool !! h = Some e -> hash e = h;
  pool_inputs h e : pool !! h = Some e -> parents (transaction e) = inputs_of h;
  pool_nodup h e : pool !! h = Some e -> NoDup (prevouts e);
  pool_small h e : pool !! h = Some e -> small e;
  pool_index h e p e' :
    pool !! h = Some e -> p ∈ parents (transaction e) -> pool !! p = Some e' -> storage_index e' < storage_index e;
  pool_count h e : pool !! h = Some e -> storage_index e <= count;
}.

(** Outputs are recorded as spent exactly when an entry spends them: no two entries
    spend the same output. *)
Definition spent_table (pool : gmap bytes Entry) (spent : gmap OutPoint bytes) : Prop :=
  forall o h, spent !! o = Some h <-> exists e, pool !! h = Some e /\ o ∈ prevouts e.

(** Children of entries are known; what is recorded are inputs of the hash. *)
Definition children_table (pool : gmap bytes Entry) (children : gmap bytes (gset bytes)) : Prop :=
  (forall h e p, pool !! h = Some e -> p ∈ parents (transaction e) -> is_Some (pool !! p) -> h ∈ default ∅ (children !! p)) /\
  (forall p h, h ∈ default ∅ (children !! p) -> p ∈ inputs_of h).

Record inv (s : PoolStorage) : Prop := {
  inv_entries : wf_entries (by_hash s) (counter s);
  inv_spent : spent_table (by_hash s) (by_previous_output s);
  inv_children : children_table (by_hash s) (by_input (references s));
  inv_ordered : ordered_ready (by_hash s) (pending (references s)) (ordered (references s));
  inv_size : transactions_size_in_bytes s = total_size (by_hash s);
  inv_size_range : uint 64 (transactions_size_in_bytes s);
  inv_counter : uint 64 (counter s);
}.

End inv.

Lemma has_in_pool_ancestors_spec removed pool tx :
  has_in_pool_ancestors removed pool tx = true <->
  exists p, p ∈ parents tx /\ is_Some (pool !! p) /\ match removed with Some r => p ∉ r | None => True end.
Proof.
  unfold has_in_pool_ancestors, parents. rewrite existsb_exists. split.
  - intros (i & Hi & Hb). apply andb_true_iff in Hb as [Hp Hr]. apply bool_decide_eq_true in Hp.
    exists (op_hash (previous_output i)). split; [apply list_elem_of_In; by apply (in_map (fun i => op_hash (previous_output i)))|].
    split; [done|]. destruct removed; [|done]. by apply negb_true_iff, bool_decide_eq_false in Hr.
  - intros (p & Hp & Hs & Hr). rewrite list_elem_of_In, in_map_iff in Hp. destruct Hp as (i & <- & Hi).
    exists i. split; [done|]. apply andb_true_iff. split; [by apply bool_decide_eq_true|].
    destruct removed; [|done]. by apply negb_true_iff, bool_decide_eq_false.
Qed.

Lemma not_has_in_pool_ancestors pool tx :
  has_in_pool_ancestors None pool tx = false <-> forall p, p ∈ parents tx -> pool !! p = None.
Proof.
  rewrite <- not_true_iff_false, has_in_pool_ancestors_spec. split.
  - intros Hn p Hp. destruct (pool !! p) eqn:Hl; [|done]. exfalso. apply Hn. exists p. by rewrite Hl.
  - intros Hn (p & Hp & Hs & _). rewrite (Hn p Hp) in Hs. by destruct Hs.
Qed.

Section references.
Context `{HashOrder} {E : Type} (inputs_of : bytes -> list bytes).

Lemma promote_spec pool ds self R :
  (forall h e, pool !! h = Some e -> small e) ->
  Forall (fun d => pool !! hash d = Some d) ds ->
  keys_of R (ordered self) -> NoDup (map hash R) -> (forall e, e ∈ R -> pool !! hash e = Some e \/ small e /\ pool !! hash e = None) ->
  exists self' R', promote (E := E) None pool self ds = Ok self' /\ by_input self' = by_input self /\
    keys_of R' (ordered self') /\ NoDup (map hash R') /\
    (forall e, e ∈ R' <-> e ∈ R \/ e ∈ ds /\ has_in_pool_ancestors None pool (transaction e) = false) /\
    (forall h, h ∈ pending self' <->
       h ∈ pending self /\ ~ exists d, d ∈ ds /\ hash d = h /\ has_in_pool_ancestors None pool (transaction d) = false).
Proof.
  intros Hsm Hds. revert self R. induction Hds as [|d ds Hd Hds IH]; intros self R Hk Hn HR; cbn [promote].
  { exists self, R. split_and!; try done; [set_solver|]. intros h. split; [|by intros [? _]].
    intros Hh. split; [done|]. intros (x & Hx & _). by apply not_elem_of_nil in Hx. }
  destruct (has_in_pool_ancestors None pool (transaction d)) eqn:Ha; cbn [negb].
  { rewrite ok_bind. destruct (IH self R Hk Hn HR) as (s' & R' & Hp & Hb & Hk' & Hn' & HR' & Hpe).
    exists s', R'. split_and!; try done.
    - intros e. rewrite HR', elem_of_cons. naive_solver congruence.
    - intros h. rewrite Hpe. setoid_rewrite elem_of_cons. naive_solver congruence. }
  rewrite Hd.
  assert (Forall small R) as HsmR.
  { apply Forall_forall. intros e He. destruct (HR e He) as [?|[? _]]; [by eapply Hsm|done]. }
  destruct (orderings_insert (E := E) R (ordered self) d) as (o & R1 & -> & Hk1 & Hn1 & HR1); [done..|by eapply Hsm| |].
  { intros x Hxin Hx. destruct (HR x Hxin) as [Hlx|[_ Hlx]]; rewrite Hx, Hd in Hlx; [|done]. by injection Hlx as ->. }
  rewrite !ok_bind.
  destruct (IH (mkReferences (by_input self) (pending self ∖ {[hash d]}) o) R1 Hk1 Hn1) as (s' & R' & Hp & Hb & Hk' & Hn' & HR' & Hpe).
  { intros e [He| ->]%HR1; [by apply HR|by left]. }
  exists s', R'. split_and!; try done.
  - intros e. rewrite HR', HR1, elem_of_cons. naive_solver.
  - intros h. rewrite Hpe. cbn. rewrite elem_of_difference, elem_of_singleton. setoid_rewrite elem_of_cons. naive_solver.
Qed.

Lemma references_remove_spec pool c r e :
  wf_entries inputs_of pool c ->
  children_table inputs_of pool (by_input r) -> ordered_ready pool (pending r) (ordered r) ->
  pool !! hash e = Some e ->
  exists r', references_remove (E := E) r None (delete (hash e) pool) e = Ok r' /\
    by_input r' = delete (hash e) (by_input r) /\
    ordered_ready (delete (hash e) pool) (pending r') (ordered r').
Proof.
  intros Hw [Hch Hso] (R & Hk & Hn & HR & Hpe) He. set (pool' := delete (hash e) pool).
  assert (forall h x, pool' !! h = Some x -> pool !! h = Some x /\ h <> hash e) as Hsub.
  { intros h x Hx. apply lookup_delete_Some in Hx as [? ?]. done. }
  set (ds := match by_input r !! hash e with Some d => omap (fun h => pool' !! h) (hash_iter d) | None => [] end).
  assert (forall d, d ∈ ds <-> pool' !! hash d = Some d /\ hash d ∈ default ∅ (by_input r !! hash e)) as Hds.
  { intros d. unfold ds. destruct (by_input r !! hash e) as [dset|]; cbn; [|set_solver].
    rewrite list_elem_of_omap. setoid_rewrite hash_iter_perm. setoid_rewrite elem_of_elements. split.
    - intros (h & Hh & Hl). destruct (Hsub _ _ Hl) as [Hp _]. apply (pool_hash _ _ _ Hw) in Hp. by subst h.
    - intros [Hl Hh]. eauto. }
  destruct (promote_spec pool' ds r R) as (r1 & R1 & Hp1 & Hb1 & Hk1 & Hn1 & HR1 & Hpe1).
  { intros h x Hx. destruct (Hsub _ _ Hx) as [Hp _]. by eapply (pool_small _ _ _ Hw). }
  { apply Forall_forall. intros d Hd. by apply Hds in Hd as [? _]. }
  { done. } { done. }
  { intros x Hx. apply HR in Hx as [Hx _]. destruct (decide (hash x = hash e)) as [Heq|Hne].
    - right. split; [by eapply (pool_small _ _ _ Hw)|]. rewrite Heq. apply lookup_delete_eq.
    - left. unfold pool'. by rewrite lookup_delete_ne. }
  unfold references_remove.
  assert ((match by_input r !! hash e with
           | Some descendants => promote None pool' r (omap (fun h => pool' !! h) (hash_iter descendants))
           | None => Ok r end) = Ok (E := E) r1) as ->.
  { unfold ds in Hp1. destruct (by_input r !! hash e); [done|]. by cbn in Hp1. }
  rewrite ok_bind, Hb1.
  assert (forall x, x ∈ R1 <-> x ∈ R \/ pool' !! hash x = Some x /\ hash x ∈ default ∅ (by_input r !! hash e) /\
    forall p, p ∈ parents (transaction x) -> pool' !! p = None) as HR1'.
  { intros x. rewrite HR1, Hds, not_has_in_pool_ancestors. naive_solver. }
  assert (forall x, x ∈ R1 -> pool !! hash x = Some x) as HR1p.
  { intros x [Hx|(Hx & _)]%HR1'; [by apply HR in Hx as [? _]|by apply Hsub in Hx as [? _]]. }
  destruct (orderings_remove (E := E) R1 (ordered r1) e) as (o & R2 & -> & Hk2 & Hn2 & HR2); [done|done| | | |].
  { apply Forall_forall. intros x Hx. by eapply (pool_small _ _ _ Hw), HR1p. }
  { by eapply (pool_small _ _ _ Hw). }
  { intros x Hx Heq. apply HR1p in Hx. rewrite Heq, He in Hx. by injection Hx as ->. }
  rewrite ok_bind. eexists. split; [done|]. split; [done|]. exists R2. split_and!; [done|done| |].
  - intros x. rewrite HR2, HR1', HR. unfold ready. split.
    + intros [[[Hx Hp]|(Hx & _ & Hp)] Hne]; [|done]. unfold pool'. rewrite lookup_delete_ne by done. split; [done|].
      intros p Hpp. rewrite lookup_delete_None. right. by apply Hp.
    + intros [Hx Hp]. destruct (Hsub _ _ Hx) as [Hx0 Hne]. split; [|done].
      destruct (decide (Exists (fun p => is_Some (pool !! p)) (parents (transaction x)))) as [Hex|Hnex].
      * right. split; [done|]. split; [|done]. apply Exists_exists in Hex as (p & Hpp & Hps).
        assert (p = hash e) as ->.
        { destruct (decide (p = hash e)) as [|Hpne]; [done|]. exfalso. specialize (Hp p Hpp). unfold pool' in Hp.
          rewrite lookup_delete_ne in Hp by done. rewrite Hp in Hps. by destruct Hps. }
        eapply Hch; [exact Hx0|exact Hpp|exact Hps].
      * left. split; [done|]. intros p Hpp. destruct (pool !! p) eqn:Hpl; [|done]. exfalso. apply Hnex.
        apply Exists_exists. exists p. by rewrite Hpl.
  - intros h. cbn [pending]. rewrite elem_of_difference, elem_of_singleton, Hpe1, Hpe. setoid_rewrite not_has_in_pool_ancestors. split.
    + intros [[(x & Hx & p & Hpp & Hps) Hnot] Hne]. exists x. unfold pool' at 1. rewrite lookup_delete_ne by done. split; [done|].
      destruct (decide (Exists (fun p => is_Some (pool' !! p)) (parents (transaction x)))) as [Hex|Hnex].
      { apply Exists_exists in Hex as (q & ? & ?). by exists q. }
      exfalso. assert (forall q, q ∈ parents (transaction x) -> pool' !! q = None) as Hnone.
      { intros q Hq. destruct (pool' !! q) eqn:Hql; [|done]. exfalso. apply Hnex. apply Exists_exists. exists q. by rewrite Hql. }
      assert (p = hash e) as ->.
      { destruct (decide (p = hash e)) as [|Hpne]; [done|]. exfalso. specialize (Hnone p Hpp). unfold pool' in Hnone.
        rewrite lookup_delete_ne in Hnone by done. rewrite Hnone in Hps. by destruct Hps. }
      pose proof (pool_hash _ _ _ Hw _ _ Hx) as Hhx. apply Hnot. exists x. split; [|by split]. apply Hds. rewrite Hhx.
      unfold pool'. rewrite lookup_delete_ne by done. split; [done|]. eapply Hch; [exact Hx|exact Hpp|exact Hps].
    + intros (x & Hx & p & Hpp & [y Hy]). destruct (Hsub _ _ Hx) as [Hx0 Hne]. destruct (Hsub _ _ Hy) as [Hy0 _].
      split; [|done]. split; [by exists x; eauto|]. intros (d & Hd & Hdh & Hdn). apply Hds in Hd as [Hd _].
      rewrite Hdh, Hx in Hd. injection Hd as <-. rewrite (Hdn p Hpp) in Hy. done.
Qed.

(** ** Removing an entry *)

Lemma unspend_inputs_spec h ins m :
  NoDup (map previous_output ins) -> (forall o, o ∈ map previous_output ins -> m !! o = Some h) ->
  exists m', unspend_inputs (E := E) h ins m = Ok m' /\
    forall o, m' !! o = if decide (o ∈ map previous_output ins) then None else m !! o.
Proof.
  revert m. induction ins as [|i ins IH]; intros m Hn Hm; cbn [unspend_inputs].
  { exists m. split; [done|]. intros o. by rewrite decide_False by set_solver. }
  cbn [map] in Hn. apply NoDup_cons in Hn as [Hni Hn]. rewrite (Hm (previous_output i)) by (cbn; set_solver). cbn [expect].
  rewrite ok_bind. unfold rust_assert. rewrite bool_decide_eq_true_2 by done. rewrite ok_bind.
  destruct (IH (delete (previous_output i) m)) as (m' & -> & Hm'); [done| |].
  { intros o Ho. rewrite lookup_delete_ne by set_solver. apply Hm. cbn. set_solver. }
  exists m'. split; [done|]. intros o. rewrite Hm'. cbn [map].
  destruct (decide (o = previous_output i)) as [->|Hne].
  - rewrite lookup_delete_eq. rewrite (decide_True _ _ (P := _ ∈ _ :: _)) by set_solver. by case_decide.
  - rewrite lookup_delete_ne by done. repeat case_decide; set_solver.
Qed.

Lemma sum_perm (l l' : list Z) : l ≡ₚ l' -> foldr Z.add 0 l = foldr Z.add 0 l'.
Proof. induction 1; cbn; lia. Qed.

Lemma total_size_delete (pool : gmap bytes Entry) h e :
  pool !! h = Some e -> total_size pool = entry_size e + total_size (delete h pool).
Proof.
  intros Hl. unfold total_size. rewrite (sum_perm (map _ (map_to_list pool)) (map (fun p => entry_size p.2) ((h, e) :: map_to_list (delete h pool)))).
  - done.
  - apply Permutation_map. symmetry. by apply map_to_list_delete.
Qed.

Lemma total_size_nonneg (pool : gmap bytes Entry) : (forall h e, pool !! h = Some e -> small e) -> 0 <= total_size pool.
Proof.
  intros Hsm. unfold total_size. assert (Forall (fun p => 0 <= entry_size p.2) (map_to_list pool)) as Hall.
  { apply Forall_forall. intros [h e] Hin. apply elem_of_map_to_list, Hsm in Hin as [(_ & _ & ?) _]. cbn. lia. }
  induction Hall; cbn in *; lia.
Qed.

Lemma wf_entries_delete pool c h : wf_entries inputs_of pool c -> wf_entries inputs_of (delete h pool) c.
Proof.
  intros [H1 H2 H3 H4 H5 H6]. assert (forall k x, delete h pool !! k = Some x -> pool !! k = Some x) as Hsub.
  { intros k x [_ Hx]%lookup_delete_Some. done. }
  split; intros; eauto.
Qed.

Lemma remove_by_hash_spec s h e :
  inv inputs_of s -> by_hash s !! h = Some e ->
  exists s', storage_remove_by_hash (E := E) s h = Ok (Some e, s') /\ inv inputs_of s' /\
    by_hash s' = delete h (by_hash s) /\ counter s' = counter s.
Proof.
  intros [Hw Hsp Hch Ho Hsz Hsr Hcr] He. unfold storage_remove_by_hash. rewrite He.
  pose proof (pool_hash _ _ _ Hw _ _ He) as Hh. subst h.
  pose proof (wf_entries_delete _ _ (hash e) Hw) as Hw'.
  pose proof (total_size_delete _ _ _ He) as Htot. pose proof (total_size_nonneg _ (pool_small _ _ _ Hw')) as Hnn.
  assert (0 < entry_size e) as Hpos by (apply (pool_small _ _ _ Hw) in He as [(_ & _ & ?) _]; lia).
  unfold uint in Hsr. rewrite ucheck_Ok, ok_bind by (unfold uint; lia).
  destruct (unspend_inputs_spec (hash e) (inputs (transaction e)) (by_previous_output s)) as (m' & -> & Hm').
  { by eapply (pool_nodup _ _ _ Hw). }
  { intros o Hin. apply Hsp. by exists e. }
  rewrite ok_bind. destruct (references_remove_spec (by_hash s) (counter s) (references s) e) as (r' & -> & Hb & Ho'); [done..|].
  rewrite ok_bind. eexists. split; [done|]. split; [|done]. split; cbn; [done| | |done| | |done].
  - intros o h. rewrite Hm'. case_decide as Hin.
    + split; [done|]. intros (x & [Hne Hx]%lookup_delete_Some & Hox). exfalso.
      assert (by_previous_output s !! o = Some (hash e)) as H1 by (apply Hsp; by exists e).
      assert (by_previous_output s !! o = Some h) as H2 by (apply Hsp; by exists x). congruence.
    + rewrite (Hsp o h). split; intros (x & Hx & Hox); exists x; (split; [|done]).
      * rewrite lookup_delete_ne; [done|]. intros <-. rewrite He in Hx. by injection Hx as <-.
      * by apply lookup_delete_Some in Hx as [_ ?].
  - rewrite Hb. destruct Hch as [Hch1 Hch2]. split.
    + intros h x p [Hne Hx]%lookup_delete_Some Hp [y [Hpe Hy]%lookup_delete_Some]. rewrite lookup_delete_ne by done.
      eapply Hch1; [exact Hx|exact Hp|by exists y].
    + intros p h Hin. apply Hch2. destruct (decide (p = hash e)) as [->|Hne].
      * rewrite lookup_delete_eq in Hin. cbn in Hin. set_solver.
      * by rewrite lookup_delete_ne in Hin.
  - lia.
  - unfold uint. lia.
Qed.

(** ** Handing out transactions in order *)

Lemma ready_exists pool c : wf_entries inputs_of pool c -> pool <> ∅ -> exists e, ready pool e.
Proof.
  intros Hw Hne. apply map_choose in Hne as (h0 & e0 & H0).
  remember (Z.to_nat (storage_index e0 - foldr Z.min 0 (map (fun p => storage_index p.2) (map_to_list pool)))) as n eqn:Hn.
  assert (forall h e, pool !! h = Some e -> foldr Z.min 0 (map (fun p => storage_index p.2) (map_to_list pool)) <= storage_index e) as Hmin.
  { intros h e He. apply elem_of_map_to_list in He. revert He. generalize (map_to_list pool) as l. clear. induction l as [|p l IH]; intros Hin.
    - by apply not_elem_of_nil in Hin.
    - cbn. apply elem_of_cons in Hin as [<-|Hin]; cbn; [lia|]. specialize (IH Hin). lia. }
  revert h0 e0 H0 Hn. induction n as [n IH] using lt_wf_ind. intros h0 e0 H0 ->.
  destruct (decide (Exists (fun p => is_Some (pool !! p)) (parents (transaction e0)))) as [Hex|Hnex].
  - apply Exists_exists in Hex as (p & Hp & [e1 H1]). pose proof (pool_index _ _ _ Hw _ _ _ _ H0 Hp H1) as Hlt.
    eapply IH; [|exact H1|reflexivity]. pose proof (Hmin _ _ H1). pose proof (Hmin _ _ H0). lia.
  - exists e0. pose proof (pool_hash _ _ _ Hw _ _ H0) as Hh. split; [by rewrite Hh|]. intros p Hp.
    destruct (pool !! p) eqn:Hl; [|done]. exfalso. apply Hnex, Exists_exists. exists p. by rewrite Hl.
Qed.

Lemma remove_with_strategy_spec s strategy :
  inv inputs_of s ->
  (by_hash s = ∅ /\ storage_remove_with_strategy (E := E) s strategy = Ok (None, s)) \/
  (exists e s', ready (by_hash s) e /\
     storage_remove_with_strategy (E := E) s strategy = Ok (Some (mkIndexedTx (hash e) (transaction e)), s') /\
     inv inputs_of s' /\ by_hash s' = delete (hash e) (by_hash s)).
Proof.
  intros Hi. pose proof (inv_entries _ _ Hi) as Hw. destruct (inv_ordered _ _ Hi) as (R & Hk & Hn & HR & _).
  unfold storage_remove_with_strategy.
  destruct (read_top_spec (E := E) R (ordered (references s)) strategy Hk) as [[-> ->]|(e & He & ->)].
  - apply Forall_forall. intros x Hx. apply HR in Hx as [Hx _]. by eapply (pool_small _ _ _ Hw).
  - left. split; [|done]. destruct (decide (by_hash s = ∅)) as [|Hne]; [done|].
    destruct (ready_exists _ _ Hw Hne) as [e He%HR]. by apply not_elem_of_nil in He.
  - right. apply HR in He. destruct (remove_by_hash_spec s (hash e) e Hi (proj1 He)) as (s' & Hr & Hi' & Hb & _).
    exists e, s'. rewrite !ok_bind, Hr. done.
Qed.

(** Every in-pool parent of a transaction comes before it. *)
Definition parents_first (pool : gmap bytes Entry) (txs : list IndexedTransaction) : Prop :=
  forall l1 t l2, txs = l1 ++ t :: l2 ->
    forall p, p ∈ parents (itx_raw t) -> is_Some (pool !! p) -> p ∈ map itx_hash l1.

(** The transactions of the list are entries of the pool, each once. *)
Definition entries_of (pool : gmap bytes Entry) (txs : list IndexedTransaction) : Prop :=
  NoDup (map itx_hash txs) /\
  forall t, t ∈ txs -> exists e, pool !! itx_hash t = Some e /\ itx_raw t = transaction e.

Lemma parents_first_cons pool e txs :
  ready pool e -> parents_first (delete (hash e) pool) txs ->
  parents_first pool (mkIndexedTx (hash e) (transaction e) :: txs).
Proof.
  intros [He Hr] Hf l1 t l2 Heq p Hp Hs. destruct l1 as [|x l1]; cbn in Heq; injection Heq as <- Heq.
  - cbn in Hp. rewrite (Hr p Hp) in Hs. by destruct Hs.
  - cbn. destruct (decide (p = hash e)) as [->|Hne]; [apply list_elem_of_here|]. apply list_elem_of_further.
    eapply Hf; [exact Heq|exact Hp|by rewrite lookup_delete_ne].
Qed.

Lemma entries_of_cons pool e txs :
  pool !! hash e = Some e -> entries_of (delete (hash e) pool) txs ->
  entries_of pool (mkIndexedTx (hash e) (transaction e) :: txs).
Proof.
  intros He [Hn Hin]. split.
  - cbn. apply NoDup_cons. split; [|done]. rewrite list_elem_of_In, in_map_iff. intros (t & Ht & Htin).
    apply list_elem_of_In in Htin. destruct (Hin t Htin) as (x & Hx & _). rewrite Ht, lookup_delete_eq in Hx. done.
  - intros t [->|Ht]%elem_of_cons; [by exists e|]. destruct (Hin t Ht) as (x & Hx & Hr).
    apply lookup_delete_Some in Hx as [_ Hx]. by exists x.
Qed.

Lemma remove_n_spec n s strategy :
  inv inputs_of s ->
  exists txs s', storage_remove_n_with_strategy (E := E) s n strategy = Ok (txs, s') /\ inv inputs_of s' /\
    length txs = (n `min` size (by_hash s))%nat /\ entries_of (by_hash s) txs /\ parents_first (by_hash s) txs /\
    (forall h, by_hash s' !! h = if decide (h ∈ map itx_hash txs) then None else by_hash s !! h).
Proof.
  revert s. induction n as [|n IH]; intros s Hi; cbn [storage_remove_n_with_strategy].
  { exists [], s. split_and!; try done; [split; [constructor|set_solver]|by intros [|]]. }
  destruct (remove_with_strategy_spec s strategy Hi) as [[Hb ->]|(e & s1 & He & -> & Hi1 & Hb1)]; rewrite ok_bind.
  { exists [], s. rewrite Hb. split_and!; try done; [split; [constructor|set_solver]|by intros [|]]. }
  destruct (IH s1 Hi1) as (txs & s2 & -> & Hi2 & Hl & Hof & Hpf & Hb2). rewrite ok_bind.
  exists (mkIndexedTx (hash e) (transaction e) :: txs), s2. rewrite Hb1 in *. split; [done|]. split; [done|]. split; [|split; [|split]].
  - cbn [length]. rewrite Hl, map_size_delete, (proj1 He).
    assert (size (by_hash s) <> 0%nat) by (apply map_size_non_empty_iff; intros Hemp; destruct He as [He _]; by rewrite Hemp in He). lia.
  - apply entries_of_cons; [apply He|done].
  - by apply parents_first_cons.
  - intros h. rewrite Hb2. cbn [map itx_hash]. destruct (decide (h = hash e)) as [->|Hne].
    + rewrite lookup_delete_eq. rewrite (decide_True _ _ (P := _ ∈ _ :: _)) by set_solver. by case_decide.
    + rewrite lookup_delete_ne by done. repeat case_decide; set_solver.
Qed.

(** ** Inserting an entry *)

(** An ancestor with the package of a new entry added. *)
Definition bump (entry a : Entry) : Entry :=
  mkEntry (transaction a) (ancestors a) (hash a) (entry_size a) (storage_index a) (miner_fee a) (miner_virtual_fee a)
    (package_size a + entry_size entry) (package_miner_fee a + package_miner_fee entry)
    (package_miner_virtual_fee a + package_miner_virtual_fee entry).

Definition replace_entry (a' x : Entry) : Entry := if decide (hash x = hash a') then a' else x.

Lemma replace_entry_map a a' R :
  hash a' = hash a -> NoDup (map hash R) -> a ∈ R -> exists R', R ≡ₚ a :: R' /\ map (replace_entry a') R ≡ₚ a' :: R'.
Proof.
  intros Hh Hn Hin. apply elem_of_Permutation in Hin as [R' HR]. exists R'. split; [done|].
  rewrite HR in Hn |- *. cbn in *. apply NoDup_cons in Hn as [Hn _]. unfold replace_entry at 1.
  rewrite decide_True by done. f_equiv. rewrite <- (map_id R') at 2. apply Permutation_refl', map_ext_in.
  intros x Hx. unfold replace_entry. rewrite decide_False; [done|]. intros Heq. apply Hn.
  rewrite <- Hh, <- Heq. by apply list_elem_of_In, in_map.
Qed.

(** A key that is taken out and put back with another score. *)
Lemma keys_rekey {A} (cmp : A -> A -> outcome E comparison) key P f R l a a' :
  ordering cmp key P -> (forall e, key (f e) = hash e) -> (forall e, small e -> P (f e)) ->
  l ≡ₚ map f R -> NoDup (map hash R) -> Forall small R -> small a -> small a' -> hash a' = hash a ->
  (forall x, x ∈ R -> hash x = hash a -> x = a) ->
  exists b l1 l2, btree_remove cmp (f a) l = Ok (b, l1) /\
    (if (b : bool) then btree_insert cmp (f a') l1 else Ok l1) = Ok l2 /\ l2 ≡ₚ map f (map (replace_entry a') R).
Proof.
  intros Hcmp Hkey Hsm Hl Hn HR Ha Ha' Hh Huniq. destruct (decide (hash a ∈ map hash R)) as [Hin|Hnin].
  - rewrite list_elem_of_In, in_map_iff in Hin. destruct Hin as (x & Hx & Hxin%list_elem_of_In).
    rewrite (Huniq x Hxin Hx) in Hxin. destruct (replace_entry_map a a' R Hh Hn Hxin) as (R' & HR' & Hmap).
    destruct (keys_remove_in _ _ _ f Hcmp Hkey Hsm l R R' a) as (l1 & Hl1 & Hp1); [done..|].
    destruct (keys_insert_new _ _ _ f Hcmp Hkey Hsm l1 R' a') as (l2 & Hl2 & Hp2); [done|done| | |].
    + rewrite HR' in HR. by apply Forall_cons in HR as [_ ?].
    + rewrite HR' in Hn. cbn in Hn. rewrite Hh. by apply NoDup_cons in Hn as [? _].
    + exists true, l1, l2. split_and!; [done|done|]. by rewrite Hp2, Hmap.
  - exists false, l, l. split_and!; [by apply (keys_remove_out _ _ _ f Hcmp Hkey Hsm l R a)|done|].
    rewrite Hl. apply Permutation_refl'. f_equal.
    rewrite <- (map_id R) at 1. apply map_ext_in. intros x Hx. unfold replace_entry. rewrite decide_False; [done|].
    intros Heq. apply Hnin. rewrite <- Hh, <- Heq. by apply list_elem_of_In, in_map.
Qed.

Lemma rekey_package_spec R l a a' :
  l ≡ₚ map by_package R -> NoDup (map hash R) -> Forall small R -> small a -> small a' -> hash a' = hash a ->
  (forall x, x ∈ R -> hash x = hash a -> x = a) ->
  exists l', rekey_package (E := E) a a' l = Ok l' /\ l' ≡ₚ map by_package (map (replace_entry a') R).
Proof.
  intros Hl Hn HR Ha Ha' Hh Huniq. unfold rekey_package.
  destruct (keys_rekey _ _ _ by_package R l a a' package_score_ordering (fun _ => eq_refl) small_by_package)
    as (b & l1 & l2 & -> & H2 & H3); [done..|]. rewrite ok_bind. by exists l2.
Qed.

Definition bump_in (entry : Entry) (hs : list bytes) (x : Entry) : Entry :=
  if decide (hash x ∈ hs) then bump entry x else x.

Lemma bump_in_ne entry h hs x : hash x <> h -> bump_in entry (h :: hs) x = bump_in entry hs x.
Proof.
  intros Hne. unfold bump_in. destruct (decide (hash x ∈ hs)) as [Hin|Hn].
  - by rewrite decide_True by (by apply list_elem_of_further).
  - rewrite decide_False; [done|]. by intros [?|?]%elem_of_cons.
Qed.

Lemma bump_in_eq entry h hs x :
  hash x = h -> h ∉ hs -> bump_in entry (h :: hs) x = bump entry x /\ bump_in entry hs (bump entry x) = bump entry x.
Proof.
  intros <- Hn. unfold bump_in. cbn [bump hash]. rewrite decide_True by apply list_elem_of_here.
  by rewrite decide_False.
Qed.

Lemma bump_in_hash entry hs R : map hash (map (bump_in entry hs) R) = map hash R.
Proof. rewrite map_map. apply map_ext. intros x. unfold bump_in. by case_decide. Qed.

Lemma bump_checks entry a :
  small (bump entry a) ->
  @ucheck E 64 (package_size a + entry_size entry) = Ok (package_size a + entry_size entry) /\
  @ucheck E 64 (package_miner_fee a + package_miner_fee entry) = Ok (package_miner_fee a + package_miner_fee entry) /\
  @scheck E 64 (package_miner_virtual_fee a + package_miner_virtual_fee entry) =
    Ok (package_miner_virtual_fee a + package_miner_virtual_fee entry).
Proof.
  intros [_ (Hf & Hv & Hs)]. cbn in *. rewrite !ucheck_Ok, scheck_Ok by (unfold sint, uint; lia). done.
Qed.

Lemma update_ancestors_spec entry hs pool l R :
  NoDup hs -> l ≡ₚ map by_package R -> NoDup (map hash R) ->
  (forall x, x ∈ R -> pool !! hash x = Some x) -> (forall h x, pool !! h = Some x -> hash x = h /\ small x) ->
  (forall h a, h ∈ hs -> pool !! h = Some a -> small (bump entry a)) ->
  exists pool' l', update_ancestors (E := E) entry hs pool l = Ok (pool', l') /\
    (forall h, pool' !! h = bump_in entry hs <$> pool !! h) /\
    l' ≡ₚ map by_package (map (bump_in entry hs) R).
Proof.
  intros Hnd. revert pool l R. induction hs as [|h hs IH]; intros pool l R Hl Hn HR Hp Hb; cbn [update_ancestors].
  { assert (forall x, bump_in entry [] x = x) as Hid by (intros x; unfold bump_in; by rewrite decide_False by set_solver).
    exists pool, l. split; [done|]. split.
    - intros h. destruct (pool !! h); cbn; [by rewrite Hid|done].
    - rewrite Hl. apply Permutation_refl'. f_equal. rewrite <- (map_id R) at 1. apply map_ext. intros x. by rewrite Hid. }
  apply NoDup_cons in Hnd as [Hnh Hnd]. destruct (pool !! h) as [a|] eqn:Ha.
  - destruct (Hp _ _ Ha) as [Hha Hsa]. assert (small (bump entry a)) as Hsb by (eapply Hb; [apply list_elem_of_here|exact Ha]).
    destruct (bump_checks entry a Hsb) as (-> & -> & ->). rewrite !ok_bind. fold (bump entry a).
    destruct (rekey_package_spec R l a (bump entry a)) as (l1 & -> & Hl1); [done|done| |done|done|done| |].
    { apply Forall_forall. intros x Hx. by apply HR, Hp in Hx as [_ ?]. }
    { intros x Hx Heq. apply HR in Hx. rewrite Heq, Hha, Ha in Hx. by injection Hx as ->. }
    rewrite ok_bind.
    destruct (IH Hnd (<[h := bump entry a]> pool) l1 (map (replace_entry (bump entry a)) R)) as (pool' & l' & -> & Hp' & Hl').
    { done. }
    { rewrite map_map. erewrite map_ext; [exact Hn|]. intros x. unfold replace_entry. case_decide; [by rewrite H0|done]. }
    { intros x Hx. rewrite list_elem_of_In, in_map_iff in Hx. destruct Hx as (y & <- & Hy%list_elem_of_In%HR).
      unfold replace_entry. case_decide as Hya; cbn in *; [by rewrite Hha, lookup_insert_eq|].
      rewrite lookup_insert_ne; [done|]. congruence. }
    { intros k x. rewrite lookup_insert_Some. intros [[<- <-]|[_ Hx]]; [done|by apply Hp]. }
    { intros k x Hk. rewrite lookup_insert_ne by (intros ->; done). intros Hx. eapply Hb; [by apply list_elem_of_further|exact Hx]. }
    assert (forall x, pool !! hash x = Some x -> bump_in entry hs (replace_entry (bump entry a) x) = bump_in entry (h :: hs) x) as Hcomp.
    { intros x Hx. unfold replace_entry. case_decide as Hxa; cbn in Hxa.
      - rewrite Hxa, Hha, Ha in Hx. injection Hx as <-. by destruct (bump_in_eq entry h hs a Hha Hnh) as [-> ->].
      - rewrite Hha in Hxa. by rewrite bump_in_ne. }
    exists pool', l'. split; [done|]. split.
    + intros k. rewrite Hp'. destruct (decide (k = h)) as [->|Hne].
      * rewrite lookup_insert_eq, Ha. cbn. f_equal. by destruct (bump_in_eq entry h hs a Hha Hnh) as [-> ->].
      * rewrite lookup_insert_ne by done. destruct (pool !! k) as [x|] eqn:Hx; [|done]. cbn. f_equal.
        destruct (Hp _ _ Hx) as [Hhx _]. rewrite bump_in_ne; [done|congruence].
    + rewrite Hl'. apply Permutation_refl'. f_equal. rewrite map_map. apply map_ext_in. intros x Hx%list_elem_of_In. by apply Hcomp, HR.
  - destruct (IH Hnd pool l R) as (pool' & l' & -> & Hp' & Hl'); [done..| |].
    { intros k x Hk. apply Hb. by apply list_elem_of_further. }
    exists pool', l'. split; [done|]. split.
    + intros k. rewrite Hp'. destruct (pool !! k) as [x|] eqn:Hx; [|done]. cbn. f_equal. rewrite bump_in_ne; [done|].
      destruct (Hp _ _ Hx) as [-> _]. congruence.
    + rewrite Hl'. apply Permutation_refl'. f_equal. apply map_ext_in. intros x Hx%list_elem_of_In%HR. rewrite bump_in_ne; [done|congruence].
Qed.

(** ** Scores *)

(** Entries may get other scores: the tables do not depend on them. *)
Lemma inv_rescore s (g : Entry -> Entry) R o :
  inv inputs_of s ->
  (forall x, hash (g x) = hash x /\ transaction (g x) = transaction x /\ storage_index (g x) = storage_index x /\ entry_size (g x) = entry_size x) ->
  (forall h x, by_hash s !! h = Some x -> small (g x)) ->
  NoDup (map hash R) -> (forall e, e ∈ R <-> ready (by_hash s) e) ->
  (forall h, h ∈ pending (references s) <->
     exists e, by_hash s !! h = Some e /\ exists p, p ∈ parents (transaction e) /\ is_Some (by_hash s !! p)) ->
  keys_of (map g R) o ->
  inv inputs_of (mkStorage (counter s) (transactions_size_in_bytes s) (g <$> by_hash s) (by_previous_output s)
    (mkReferences (by_input (references s)) (pending (references s)) o)).
Proof.
  intros [[H1 H2 H3 H4 H5 H6] Hsp [Hch1 Hch2] _ Hsz Hr Hc] Hg Hsm Hn HR HP Hk.
  assert (forall h x, (g <$> by_hash s) !! h = Some x -> exists y, x = g y /\ by_hash s !! h = Some y) as Hl.
  { intros h x. rewrite lookup_fmap_Some. intros (y & <- & Hy). by exists y. }
  assert (forall h, is_Some ((g <$> by_hash s) !! h) <-> is_Some (by_hash s !! h)) as Hs by (intros h; by rewrite lookup_fmap, fmap_is_Some).
  assert (forall x, parents (transaction (g x)) = parents (transaction x) /\ prevouts (g x) = prevouts x) as Hp.
  { intros x. unfold prevouts. by destruct (Hg x) as (_ & -> & _). }
  split; cbn [by_hash counter by_previous_output references by_input pending ordered transactions_size_in_bytes]; [split|..].
  - intros h x (y & -> & Hy)%Hl. destruct (Hg y) as (-> & _). by eapply H1.
  - intros h x (y & -> & Hy)%Hl. rewrite (proj1 (Hp y)). by eapply H2.
  - intros h x (y & -> & Hy)%Hl. rewrite (proj2 (Hp y)). by eapply H3.
  - intros h x (y & -> & Hy)%Hl. by eapply Hsm.
  - intros h x p x' (y & -> & Hy)%Hl Hpp (z & -> & Hz)%Hl. rewrite (proj1 (Hp y)) in Hpp.
    destruct (Hg y) as (_ & _ & -> & _), (Hg z) as (_ & _ & -> & _). by eapply H5.
  - intros h x (y & -> & Hy)%Hl. destruct (Hg y) as (_ & _ & -> & _). by eapply H6.
  - intros o' h. rewrite (Hsp o' h). split.
    + intros (e & He & Ho). exists (g e). by rewrite lookup_fmap, He, (proj2 (Hp e)).
    + intros (e & (y & -> & Hy)%Hl & Ho). exists y. by rewrite <- (proj2 (Hp y)).
  - split; [|done]. intros h x p (y & -> & Hy)%Hl Hpp Hps%Hs. rewrite (proj1 (Hp y)) in Hpp. by eapply Hch1.
  - exists (map g R). split_and!; [done|by rewrite map_map, (map_ext _ hash) by (intros x; apply Hg)| |].
    + intros e. rewrite list_elem_of_In, in_map_iff. split.
      * intros (x & <- & [Hx Hpx]%list_elem_of_In%HR). split.
        -- by rewrite (proj1 (Hg x)), lookup_fmap, Hx.
        -- intros p. rewrite (proj1 (Hp x)). intros Hpp%Hpx. by rewrite lookup_fmap, Hpp.
      * intros [(y & -> & Hy)%Hl Hpe]. exists y. split; [done|]. apply list_elem_of_In, HR. rewrite (proj1 (Hg y)) in Hy.
        split; [done|]. intros p. rewrite <- (proj1 (Hp y)). intros Hpp%Hpe. by rewrite lookup_fmap, fmap_None in Hpp.
    + intros h. rewrite HP. split.
      * intros (e & He & p & Hpp & Hps). exists (g e). rewrite lookup_fmap, He, (proj1 (Hp e)). split; [done|]. exists p. by rewrite Hs.
      * intros (e & (y & -> & Hy)%Hl & p & Hpp & Hps%Hs). exists y. rewrite <- (proj1 (Hp y)). split; [done|]. by exists p.
  - rewrite Hsz. unfold total_size. apply sum_perm. rewrite map_to_list_fmap. change (prod_map id g <$> map_to_list (by_hash s)) with (map (prod_map id g) (map_to_list (by_hash s))). rewrite map_map.
    apply Permutation_refl', map_ext. intros [h x]. cbn. symmetry. apply Hg.
  - done.
  - done.
Qed.

(** What a change of the virtual fee adds to the packages of the ancestors. *)
Definition fee_change (e : Entry) (change : Z) : Entry := mkEntry (transaction e) ∅ (hash e) 0 0 0 0 0 0 change.
Definition with_virtual_fee (e : Entry) (virtual_fee : Z) : Entry :=
  mkEntry (transaction e) (ancestors e) (hash e) (entry_size e) (storage_index e) (miner_fee e)
    virtual_fee (package_size e) (package_miner_fee e) (package_miner_virtual_fee e).

Lemma add_virtual_fee_update e change hs pool l :
  (forall h x, pool !! h = Some x -> uint 64 (package_size x) /\ uint 64 (package_miner_fee x)) ->
  add_virtual_fee (E := E) change hs pool l = update_ancestors (fee_change e change) hs pool l.
Proof.
  revert pool l. induction hs as [|h hs IH]; intros pool l Hu; [done|]. cbn [add_virtual_fee update_ancestors].
  destruct (pool !! h) as [a|] eqn:Ha; [|by apply IH]. destruct (Hu h a Ha) as [H1 H2].
  cbn [entry_size package_miner_fee package_miner_virtual_fee fee_change]. rewrite !Z.add_0_r, !ucheck_Ok, !ok_bind by done.
  destruct (scheck 64 _) as [v| | |]; try done. rewrite !ok_bind. destruct (rekey_package a _ l) as [l'| | |]; try done. rewrite !ok_bind.
  apply IH. intros k x. rewrite lookup_insert_Some. intros [[_ <-]|[_ Hx]]; [done|by eapply Hu].
Qed.

(** The scores stay in range when the virtual fee is set. *)
Record fee_in_range (s : PoolStorage) (e : Entry) (virtual_fee : Z) : Prop := {
  range_self : small (with_virtual_fee e virtual_fee);
  range_ancestors h a :
    h ∈ ancestors e -> <[hash e := with_virtual_fee e virtual_fee]> (by_hash s) !! h = Some a ->
    small (bump (fee_change e (virtual_fee - miner_virtual_fee e)) a);
}.

Definition revalue (e : Entry) (virtual_fee : Z) (x : Entry) : Entry :=
  if decide (hash x = hash e) then with_virtual_fee x virtual_fee else x.

Lemma revalue_lookup (pool : gmap bytes Entry) e v :
  (forall h x, pool !! h = Some x -> hash x = h) -> pool !! hash e = Some e ->
  <[hash e := with_virtual_fee e v]> pool = revalue e v <$> pool.
Proof.
  intros Hh Hp. apply map_eq. intros k. rewrite lookup_fmap. unfold revalue. destruct (decide (k = hash e)) as [->|Hne].
  - rewrite lookup_insert_eq, Hp. cbn. by rewrite decide_True.
  - rewrite lookup_insert_ne by done. destruct (pool !! k) as [x|] eqn:Hx; [|done]. cbn.
    rewrite decide_False; [done|]. rewrite (Hh k x Hx). congruence.
Qed.

Lemma revalue_list e v R : (forall x, x ∈ R -> hash x = hash e -> x = e) ->
  map (replace_entry (with_virtual_fee e v)) R = map (revalue e v) R.
Proof.
  intros Hu. apply map_ext_in. intros x Hx%list_elem_of_In. unfold replace_entry, revalue. cbn [hash with_virtual_fee].
  case_decide as Hd; [|done]. by rewrite (Hu x Hx Hd).
Qed.

Lemma revalue_fields e v x :
  hash (revalue e v x) = hash x /\ transaction (revalue e v x) = transaction x /\
  storage_index (revalue e v x) = storage_index x /\ entry_size (revalue e v x) = entry_size x.
Proof. unfold revalue. by case_decide. Qed.

Lemma virtual_fee_rescores (pool : gmap bytes Entry) e v R l :
  let change := v - miner_virtual_fee e in
  (forall h x, pool !! h = Some x -> hash x = h /\ small x) -> pool !! hash e = Some e -> small (with_virtual_fee e v) ->
  (forall h a, h ∈ ancestors e -> (revalue e v <$> pool) !! h = Some a -> small (bump (fee_change e change) a)) ->
  (forall x, x ∈ R -> pool !! hash x = Some x) -> NoDup (map hash R) -> l ≡ₚ map by_package (map (revalue e v) R) ->
  exists g l', (if negb (change =? 0) then add_virtual_fee change (hash_iter (ancestors e)) (revalue e v <$> pool) l
                else Ok (revalue e v <$> pool, l)) = Ok (E := E) (g <$> pool, l') /\
    l' ≡ₚ map by_package (map g R) /\ (forall x, by_score (g x) = by_score (revalue e v x)) /\
    (forall x, hash (g x) = hash x /\ transaction (g x) = transaction x /\ storage_index (g x) = storage_index x /\ entry_size (g x) = entry_size x) /\
    (forall k x, pool !! k = Some x -> small (g x)).
Proof.
  intros change Hw He Hse Hsa HR Hn Hl.
  assert (forall k x, (revalue e v <$> pool) !! k = Some x -> hash x = k /\ small x) as Hw1.
  { intros k x. rewrite lookup_fmap_Some. intros (y & <- & Hy). destruct (Hw k y Hy) as [Hh Hs]. rewrite (proj1 (revalue_fields e v y)).
    split; [done|]. unfold revalue. case_decide as Hd; [|done]. rewrite Hd in Hh. subst k. rewrite He in Hy. by injection Hy as <-. }
  assert (forall k x, pool !! k = Some x -> small (revalue e v x)) as Hsm.
  { intros k x Hx. apply (Hw1 k). by rewrite lookup_fmap, Hx. }
  destruct (Z.eqb_spec change 0) as [_|_]; cbn [negb].
  { exists (revalue e v), l. split_and!; try done. apply revalue_fields. }
  rewrite (add_virtual_fee_update e) by (intros k x [_ [_ (? & ? & ?)]]%Hw1; unfold uint; lia).
  destruct (update_ancestors_spec (fee_change e change) (hash_iter (ancestors e)) (revalue e v <$> pool) l (map (revalue e v) R))
    as (pool' & l' & -> & Hpool & Hl'); try done.
  { rewrite hash_iter_perm. apply NoDup_elements. }
  { by rewrite map_map, (map_ext _ hash) by (intros x; apply revalue_fields). }
  { intros x. rewrite list_elem_of_In, in_map_iff. intros (y & <- & Hy%list_elem_of_In%HR). by rewrite (proj1 (revalue_fields e v y)), lookup_fmap, Hy. }
  { intros k a Hk. apply Hsa. by rewrite hash_iter_perm, elem_of_elements in Hk. }
  set (bumped := bump_in (fee_change e change) (hash_iter (ancestors e))) in *.
  exists (fun x => bumped (revalue e v x)), l'. split_and!.
  - do 2 f_equal. apply map_eq. intros k. rewrite Hpool, !lookup_fmap. by destruct (pool !! k).
  - by rewrite Hl', (map_map (revalue e v) bumped).
  - intros x. unfold bumped, bump_in. by case_decide.
  - intros x. destruct (revalue_fields e v x) as (<- & <- & <- & <-). unfold bumped, bump_in. by case_decide.
  - intros k x Hx. unfold bumped, bump_in. case_decide as Hin; [|by eapply Hsm]. rewrite hash_iter_perm, elem_of_elements in Hin.
    eapply Hsa; [exact Hin|]. destruct (Hw k x Hx) as [Hh _]. by rewrite (proj1 (revalue_fields e v x)), lookup_fmap, Hh, Hx.
Qed.

(** The tables stay in step when a virtual fee is set, and no entry comes or goes. *)
Lemma set_virtual_fee_spec s h e v :
  inv inputs_of s -> by_hash s !! h = Some e -> fee_in_range s e v ->
  exists s', storage_set_virtual_fee (E := E) s h v = Ok s' /\ inv inputs_of s' /\ counter s' = counter s /\
    forall k, transaction <$> by_hash s' !! k = transaction <$> by_hash s !! k.
Proof.
  intros Hi He [Hse Hsa]. destruct (inv_ordered _ _ Hi) as (R & Hk & Hn & HR & HP). pose proof (inv_entries _ _ Hi) as Hw.
  assert (hash e = h) as <- by (by eapply (pool_hash _ _ _ Hw)).
  assert (small e) as Hs0 by (by eapply (pool_small _ _ _ Hw)).
  assert (forall x, x ∈ R -> hash x = hash e -> x = e) as Hu.
  { intros x [Hx _]%HR Heq. rewrite Heq, He in Hx. by injection Hx. }
  assert (Forall small R) as HRs. { apply Forall_forall. intros x [Hx _]%HR. by eapply (pool_small _ _ _ Hw). }
  unfold storage_set_virtual_fee. rewrite He. fold (with_virtual_fee e v).
  destruct (keys_rekey _ _ _ by_package R (by_package_score (ordered (references s))) e (with_virtual_fee e v) package_score_ordering (fun _ => eq_refl) small_by_package)
    as (b1 & l1 & l2 & -> & Hl2 & Hp2); try done; [apply Hk|].
  destruct (keys_rekey _ _ _ by_score R (by_transaction_score (ordered (references s))) e (with_virtual_fee e v) transaction_score_ordering (fun _ => eq_refl) small_by_score)
    as (b2 & m1 & m2 & Hm1 & Hm2 & Hp3); try done; [apply Hk|]. rewrite ok_bind, Hm1, ok_bind.
  rewrite scheck_Ok by (destruct Hse as [(? & ? & _) _], Hs0 as [(? & ? & _) _]; cbn in *; unfold sint; lia).
  rewrite ok_bind, Hm2, ok_bind, Hl2, ok_bind. rewrite revalue_list in Hp2, Hp3 by done.
  rewrite revalue_lookup in Hsa |- * by (done || apply (pool_hash _ _ _ Hw)).
  destruct (virtual_fee_rescores (by_hash s) e v R l2) as (g & l & -> & Hpl & Hgs & Hgf & Hgsm); try done.
  { intros k x Hx. split; [by eapply (pool_hash _ _ _ Hw)|by eapply (pool_small _ _ _ Hw)]. }
  { by intros x [? _]%HR. }
  rewrite ok_bind. eexists. split; [done|]. split; [|split; [done|]].
  - apply (inv_rescore s g R); try done. split; cbn [by_storage_index by_transaction_score by_package_score]; [..|done].
    + rewrite (keys_timestamp _ _ Hk), map_map. apply Permutation_refl', map_ext. intros x. unfold by_timestamp. by destruct (Hgf x) as (-> & _ & -> & _).
    + rewrite Hp3, !map_map. apply Permutation_refl', map_ext. intros x. by rewrite Hgs.
  - intros k. cbn. rewrite lookup_fmap. destruct (by_hash s !! k) as [x|]; [|done]. cbn. f_equal. apply Hgf.
Qed.

End references.

End MemoryPoolInv.
