(* ===== verification/MemoryPoolSpec.v ===== *)
(** The memory pool keeps its tables in step, and hands out ancestors before their
    descendants. *)
From Stdlib Require Import ZArith Lia Strings.Byte.
From stdpp Require Import base decidable numbers countable gmap list relations.
From S2P Require Import Prelude Crypto Serialization Codec Chain ChainHash Network Storage MemoryPool MemoryPoolInv.

Local Open Scope Z_scope.

Module MemoryPoolSpec.
Import Ser Chain ChainHash Storage MemoryPool MemoryPoolInv.

Section insert.
Context `{HashOrder} {E : Type} (inputs_of : bytes -> list bytes).

Lemma spend_inputs_spec h ins m :
  NoDup (map previous_output ins) -> (forall o, o ∈ map previous_output ins -> m !! o = None) ->
  exists m', spend_inputs (E := E) h ins m = Ok m' /\
    forall o, m' !! o = if decide (o ∈ map previous_output ins) then Some h else m !! o.
Proof.
  revert m. induction ins as [|i ins IH]; intros m Hn Hm; cbn [spend_inputs].
  { exists m. split; [done|]. intros o. by rewrite decide_False by apply not_elem_of_nil. }
  cbn [map] in Hn. apply NoDup_cons in Hn as [Hni Hn]. rewrite (Hm (previous_output i)) by apply list_elem_of_here.
  unfold rust_assert. rewrite bool_decide_eq_true_2 by done. rewrite ok_bind.
  destruct (IH (<[previous_output i := h]> m)) as (m' & -> & Hm'); [done| |].
  { intros o Ho. rewrite lookup_insert_ne by (intros <-; done). apply Hm. by apply list_elem_of_further. }
  exists m'. split; [done|]. intros o. rewrite Hm'. cbn [map].
  destruct (decide (o = previous_output i)) as [->|Hne].
  - rewrite lookup_insert_eq. rewrite (decide_True _ _ (P := _ ∈ _ :: _)) by apply list_elem_of_here. by case_decide.
  - rewrite lookup_insert_ne by done. destruct (decide (o ∈ map previous_output ins)) as [Hin|Hnin].
    + by rewrite decide_True by (by apply list_elem_of_further).
    + rewrite decide_False; [done|]. by intros [?|?]%elem_of_cons.
Qed.

Lemma add_by_input_spec h ins m p :
  default ∅ (foldl (add_by_input h) m ins !! p) =
  (if decide (p ∈ map (fun i => op_hash (previous_output i)) ins) then {[h]} else ∅) ∪ default ∅ (m !! p) :> gset bytes.
Proof.
  revert m. induction ins as [|i ins IH]; intros m; cbn [foldl map].
  { rewrite decide_False by apply not_elem_of_nil. by rewrite (left_id_L ∅ (∪)). }
  rewrite IH. unfold add_by_input. destruct (decide (p = op_hash (previous_output i))) as [->|Hne].
  - rewrite lookup_insert_eq. cbn. rewrite (decide_True _ _ (P := _ ∈ _ :: _)) by apply list_elem_of_here. case_decide; set_solver.
  - rewrite lookup_insert_ne by done. destruct (decide (p ∈ map (fun i => op_hash (previous_output i)) ins)) as [Hin|Hnin].
    + by rewrite decide_True by (by apply list_elem_of_further).
    + rewrite decide_False; [done|]. by intros [?|?]%elem_of_cons.
Qed.

(** What has to hold of a new entry: it is new, no entry spends it or what it spends,
    its hash stands for its inputs, and no score gets out of range. *)
Record fresh_entry (s : PoolStorage) (e : Entry) : Prop := {
  fresh_hash : by_hash s !! hash e = None;
  fresh_children h x : by_hash s !! h = Some x -> hash e ∉ parents (transaction x);
  fresh_self : hash e ∉ parents (transaction e);
  fresh_inputs : parents (transaction e) = inputs_of (hash e);
  fresh_nodup : NoDup (prevouts e);
  fresh_unspent o : o ∈ prevouts e -> by_previous_output s !! o = None;
  fresh_small : small e;
  fresh_ancestors h a : h ∈ ancestors e -> by_hash s !! h = Some a -> small (bump e a);
  fresh_size : transactions_size_in_bytes s + entry_size e < 2 ^ 64;
}.

(** The entries after the insertion. *)
Definition inserted_pool (pool : gmap bytes Entry) (e : Entry) : gmap bytes Entry :=
  <[hash e := e]> (bump_in e (hash_iter (ancestors e)) <$> pool).

Lemma inserted_lookup pool e h x :
  inserted_pool pool e !! h = Some x ->
  (h = hash e /\ x = e) \/ (h <> hash e /\ exists y, pool !! h = Some y /\ x = bump_in e (hash_iter (ancestors e)) y).
Proof.
  unfold inserted_pool. rewrite lookup_insert_Some, lookup_fmap_Some. intros [[<- <-]|[Hne (y & <- & Hy)]]; [by left|right].
  split; [done|]. by exists y.
Qed.

Lemma inserted_is_Some pool e h : is_Some (inserted_pool pool e !! h) <-> h = hash e \/ is_Some (pool !! h).
Proof.
  unfold inserted_pool. destruct (decide (h = hash e)) as [->|Hne].
  - rewrite lookup_insert_eq. split; [by left|by eexists].
  - rewrite lookup_insert_ne, lookup_fmap, fmap_is_Some by done. naive_solver.
Qed.

Lemma bump_in_fields e hs x :
  hash (bump_in e hs x) = hash x /\ transaction (bump_in e hs x) = transaction x /\
  storage_index (bump_in e hs x) = storage_index x /\ entry_size (bump_in e hs x) = entry_size x.
Proof. unfold bump_in. by case_decide. Qed.

Lemma inserted_wf s e c :
  wf_entries inputs_of (by_hash s) c -> fresh_entry s e -> c < storage_index e ->
  wf_entries inputs_of (inserted_pool (by_hash s) e) (storage_index e).
Proof.
  intros Hw Hf Hc. set (hs := hash_iter (ancestors e)).
  assert (forall h y, by_hash s !! h = Some y -> small (bump_in e hs y)) as Hsm.
  { intros h y Hy. unfold bump_in. case_decide as Hin; [|by eapply (pool_small _ _ _ Hw)].
    pose proof (pool_hash _ _ _ Hw _ _ Hy) as Hh. eapply (fresh_ancestors _ _ Hf); [|exact Hy].
    subst hs. rewrite hash_iter_perm, elem_of_elements in Hin. by subst. }
  assert (forall h x, inserted_pool (by_hash s) e !! h = Some x -> x = e /\ h = hash e \/
    exists y, by_hash s !! h = Some y /\ x = bump_in e hs y /\ hash x = hash y /\ transaction x = transaction y /\
      storage_index x = storage_index y) as Hcase.
  { intros h x Hx. apply inserted_lookup in Hx as [[-> ->]|(_ & y & Hy & ->)]; [by left|right]. exists y.
    by destruct (bump_in_fields e hs y) as (? & ? & ? & _). }
  split; unfold prevouts.
  - intros h x [[-> ->]|(y & Hy & _ & -> & _)]%Hcase; [done|by eapply (pool_hash _ _ _ Hw)].
  - intros h x [[-> ->]|(y & Hy & _ & _ & -> & _)]%Hcase; [apply Hf|by eapply (pool_inputs _ _ _ Hw)].
  - intros h x [[-> ->]|(y & Hy & _ & _ & -> & _)]%Hcase; [apply Hf|by eapply (pool_nodup _ _ _ Hw)].
  - intros h x [[-> ->]|(y & Hy & -> & _)]%Hcase; [apply Hf|by eapply Hsm].
  - intros h x p x' Hx Hp Hx'. apply Hcase in Hx' as [[-> ->]|(z & Hz & _ & _ & _ & ->)];
      apply Hcase in Hx as [[-> ->]|(y & Hy & _ & _ & Ht & ->)].
    + by destruct (fresh_self _ _ Hf).
    + rewrite Ht in Hp. by destruct (fresh_children _ _ Hf _ _ Hy).
    + pose proof (pool_count _ _ _ Hw _ _ Hz). lia.
    + rewrite Ht in Hp. by eapply (pool_index _ _ _ Hw).
  - intros h x [[-> ->]|(y & Hy & _ & _ & _ & ->)]%Hcase; [lia|]. pose proof (pool_count _ _ _ Hw _ _ Hy). lia.
Qed.

Lemma inserted_spent s e m :
  spent_table (by_hash s) (by_previous_output s) -> fresh_entry s e ->
  (forall o, m !! o = if decide (o ∈ prevouts e) then Some (hash e) else by_previous_output s !! o) ->
  spent_table (inserted_pool (by_hash s) e) m.
Proof.
  intros Hsp Hf Hm o h. rewrite Hm. case_decide as Hin.
  - split.
    + intros [= <-]. exists e. split; [apply lookup_insert_eq|done].
    + intros (x & [[-> _]|(_ & y & Hy & ->)]%inserted_lookup & Hx); [done|]. exfalso. unfold prevouts in Hx.
      destruct (bump_in_fields e (hash_iter (ancestors e)) y) as (_ & Ht & _). rewrite Ht in Hx.
      assert (by_previous_output s !! o = Some h) as Hs by (apply Hsp; by exists y).
      rewrite (fresh_unspent _ _ Hf o Hin) in Hs. done.
  - rewrite (Hsp o h). split.
    + intros (y & Hy & Ho). exists (bump_in e (hash_iter (ancestors e)) y). split.
      * unfold inserted_pool. rewrite lookup_insert_ne, lookup_fmap, Hy; [done|]. intros <-.
        by rewrite (fresh_hash _ _ Hf) in Hy.
      * unfold prevouts. by destruct (bump_in_fields e (hash_iter (ancestors e)) y) as (_ & -> & _).
    + intros (x & [[_ ->]|(_ & y & Hy & ->)]%inserted_lookup & Hx); [done|]. exists y. split; [done|].
      unfold prevouts in *. by destruct (bump_in_fields e (hash_iter (ancestors e)) y) as (_ & Ht & _); rewrite Ht in Hx.
Qed.

Lemma inserted_children s e :
  children_table inputs_of (by_hash s) (by_input (references s)) -> fresh_entry s e ->
  children_table inputs_of (inserted_pool (by_hash s) e)
    (foldl (add_by_input (hash e)) (by_input (references s)) (inputs (transaction e))).
Proof.
  intros [Hch Hso] Hf. split.
  - intros h x p Hx Hp Hs. rewrite add_by_input_spec. apply inserted_lookup in Hx as [[-> ->]|(_ & y & Hy & ->)].
    + rewrite decide_True by done. set_solver.
    + destruct (bump_in_fields e (hash_iter (ancestors e)) y) as (_ & Ht & _). rewrite Ht in Hp.
      apply inserted_is_Some in Hs as [->|Hs]; [by destruct (fresh_children _ _ Hf _ _ Hy)|].
      apply elem_of_union_r. by eapply Hch.
  - intros p h. rewrite add_by_input_spec, elem_of_union. intros [Hin|Hin]; [|by apply Hso].
    case_decide as Hp; [|set_solver]. apply elem_of_singleton in Hin as ->. by rewrite <- (fresh_inputs _ _ Hf).
Qed.

Lemma inserted_size s e c :
  wf_entries inputs_of (by_hash s) c -> fresh_entry s e ->
  total_size (inserted_pool (by_hash s) e) = total_size (by_hash s) + entry_size e.
Proof.
  intros Hw Hf. unfold inserted_pool.
  set (pool := bump_in e (hash_iter (ancestors e)) <$> by_hash s).
  assert (pool !! hash e = None) as Hn by (unfold pool; by rewrite lookup_fmap, (fresh_hash _ _ Hf)).
  rewrite (total_size_delete _ (hash e) e) by apply lookup_insert_eq.
  rewrite delete_insert_id by done. rewrite Z.add_comm. f_equal. unfold total_size, pool.
  rewrite map_to_list_fmap, map_map. f_equal. apply map_ext. intros [h x]. cbn. by apply bump_in_fields.
Qed.

Lemma bump_in_keys e hs R o packages :
  keys_of R o -> packages ≡ₚ map by_package (map (bump_in e hs) R) ->
  keys_of (map (bump_in e hs) R) (mkOrdered (by_storage_index o) (by_transaction_score o) packages).
Proof.
  intros [Ht Hs Hp] Hpk. split; cbn; [|..|done].
  - rewrite Ht, map_map. apply Permutation_refl', map_ext. intros x. unfold bump_in. by case_decide.
  - rewrite Hs, map_map. apply Permutation_refl', map_ext. intros x. unfold bump_in. by case_decide.
Qed.

Lemma inserted_none s e p :
  inserted_pool (by_hash s) e !! p = None <-> p <> hash e /\ by_hash s !! p = None.
Proof.
  rewrite !eq_None_not_Some, inserted_is_Some. tauto.
Qed.

(** Other entries are ready after the insertion when they were before. *)
Lemma inserted_ready s e c R :
  wf_entries inputs_of (by_hash s) c -> fresh_entry s e -> (forall x, x ∈ R <-> ready (by_hash s) x) ->
  forall x, x ∈ map (bump_in e (hash_iter (ancestors e))) R <-> ready (inserted_pool (by_hash s) e) x /\ hash x <> hash e.
Proof.
  intros Hw Hf HR x. set (hs := hash_iter (ancestors e)). rewrite list_elem_of_In, in_map_iff. split.
  - intros (y & <- & Hy%list_elem_of_In%HR). destruct Hy as [Hy Hp]. destruct (bump_in_fields e hs y) as (Hh & Ht & _).
    assert (hash y <> hash e) as Hne by (intros Heq; rewrite Heq, (fresh_hash _ _ Hf) in Hy; done).
    unfold ready. rewrite Hh, Ht. split; [|done]. split.
    + unfold inserted_pool. rewrite lookup_insert_ne, lookup_fmap, Hy by done. done.
    + intros p Hpp. apply inserted_none. split; [|by apply Hp]. intros ->. by apply (fresh_children _ _ Hf _ _ Hy).
  - intros [[Hx Hp] Hne]. apply inserted_lookup in Hx as [[? _]|(_ & y & Hy & Hxy)]; [done|]. exists y. split; [done|].
    apply list_elem_of_In, HR. destruct (bump_in_fields e hs y) as (Hh & Ht & _). fold hs in Hxy. rewrite <- Hxy in Hh, Ht.
    rewrite Hh in Hy. split; [done|]. intros p Hpp. rewrite <- Ht in Hpp. by apply Hp, inserted_none in Hpp as [_ ?].
Qed.

Lemma inserted_pending (s : PoolStorage) (e : Entry) (c : Z) (P : gset bytes) :
  wf_entries inputs_of (by_hash s) c -> fresh_entry s e ->
  (forall h : bytes, h ∈ P <-> exists x, by_hash s !! h = Some x /\ exists p, p ∈ parents (transaction x) /\ is_Some (by_hash s !! p)) ->
  forall h : bytes, (h <> hash e /\ h ∈ P) <->
    h <> hash e /\ exists x, inserted_pool (by_hash s) e !! h = Some x /\
      exists p, p ∈ parents (transaction x) /\ is_Some (inserted_pool (by_hash s) e !! p).
Proof.
  intros Hw Hf HP h. rewrite HP. split; intros [Hne (x & Hx & p & Hp & Hs)]; (split; [done|]).
  - exists (bump_in e (hash_iter (ancestors e)) x). destruct (bump_in_fields e (hash_iter (ancestors e)) x) as (_ & -> & _).
    split; [unfold inserted_pool; by rewrite lookup_insert_ne, lookup_fmap, Hx|]. exists p. split; [done|].
    apply inserted_is_Some. by right.
  - apply inserted_lookup in Hx as [[? _]|(_ & y & Hy & ->)]; [done|]. exists y. split; [done|].
    destruct (bump_in_fields e (hash_iter (ancestors e)) y) as (_ & Ht & _). rewrite Ht in Hp. exists p. split; [done|].
    apply inserted_is_Some in Hs as [->|Hs]; [by destruct (fresh_children _ _ Hf _ _ Hy)|done].
Qed.

Lemma inserted_ancestors s e :
  fresh_entry s e ->
  has_in_pool_ancestors None (bump_in e (hash_iter (ancestors e)) <$> by_hash s) (transaction e) = true <->
  exists p, p ∈ parents (transaction e) /\ is_Some (inserted_pool (by_hash s) e !! p).
Proof.
  intros Hf. rewrite has_in_pool_ancestors_spec. setoid_rewrite inserted_is_Some. setoid_rewrite lookup_fmap.
  setoid_rewrite fmap_is_Some. split.
  - intros (p & Hp & Hs & _). exists p. tauto.
  - intros (p & Hp & [->|Hs]); [by destruct (fresh_self _ _ Hf)|]. by exists p.
Qed.

Lemma inserted_uniq pool e x : ready (inserted_pool pool e) x -> hash x = hash e -> x = e.
Proof.
  intros [Hx _] Heq. rewrite Heq in Hx. unfold inserted_pool in Hx. rewrite lookup_insert_eq in Hx. by injection Hx as <-.
Qed.

(** The references of the new state, in both cases. *)
Definition insert_references (r : ReferenceStorage) (packages : list ByPackageScoreOrderedEntry) (pool : gmap bytes Entry)
    (e : Entry) : outcome E ReferenceStorage :=
  let o := mkOrdered (by_storage_index (ordered r)) (by_transaction_score (ordered r)) packages in
  let inputs_of := foldl (add_by_input (hash e)) (by_input r) (inputs (transaction e)) in
  if has_in_pool_ancestors None pool (transaction e)
  then Ok (mkReferences inputs_of ({[hash e]} ∪ pending r) o)
  else o ← insert_to_orderings o e; Ok (mkReferences inputs_of (pending r) o).

Lemma inserted_ordered s e c R packages :
  let hs := hash_iter (ancestors e) in
  let pool' := inserted_pool (by_hash s) e in
  wf_entries inputs_of (by_hash s) c -> c < storage_index e -> fresh_entry s e ->
  keys_of R (ordered (references s)) -> NoDup (map hash R) -> (forall x, x ∈ R <-> ready (by_hash s) x) ->
  (forall h, h ∈ pending (references s) <->
     exists x, by_hash s !! h = Some x /\ exists p, p ∈ parents (transaction x) /\ is_Some (by_hash s !! p)) ->
  packages ≡ₚ map by_package (map (bump_in e hs) R) ->
  exists r, insert_references (references s) packages (bump_in e hs <$> by_hash s) e = Ok r /\
    by_input r = foldl (add_by_input (hash e)) (by_input (references s)) (inputs (transaction e)) /\
    ordered_ready pool' (pending r) (ordered r).
Proof.
  intros hs pool' Hw Hc Hf Hk Hn HR HP Hpk. unfold insert_references.
  pose proof (bump_in_keys e hs R (ordered (references s)) packages Hk Hpk) as Hk'.
  pose proof (inserted_ready s e c R Hw Hf HR) as HR'. pose proof (inserted_pending s e c _ Hw Hf HP) as HP'.
  pose proof (inserted_ancestors s e Hf) as Hanc. fold hs pool' in Hanc, HR', HP'.
  assert (hash e ∉ map hash (map (bump_in e hs) R)) as Hnew.
  { rewrite list_elem_of_In, in_map_iff. intros (x & Heq & Hx%list_elem_of_In%HR'). by destruct Hx. }
  destruct (has_in_pool_ancestors None _ (transaction e)) eqn:Ha.
  - eexists. split; [done|]. split; [done|]. cbn.
    exists (map (bump_in e hs) R). split; [done|]. split; [by rewrite bump_in_hash|]. split.
    + intros x. rewrite HR'. split; [by intros [? _]|]. intros Hx. split; [done|]. intros Heq.
      pose proof (inserted_uniq _ _ x Hx Heq) as ->. destruct Hx as [_ Hx]. destruct (proj1 Hanc eq_refl) as (p & Hp & [y Hy]).
      rewrite (Hx p Hp) in Hy. done.
    + intros h. specialize (HP' h). rewrite elem_of_union, elem_of_singleton. destruct (decide (h = hash e)) as [->|Hne]; [|tauto].
      split; [|by left]. intros _. exists e. split; [apply lookup_insert_eq|]. by apply Hanc.
  - assert (forall p, p ∈ parents (transaction e) -> pool' !! p = None) as Hnone.
    { intros p Hp. destruct (pool' !! p) as [y|] eqn:Hy; [|done]. exfalso.
      assert (false = true) as ?; [|done]. apply Hanc. exists p. by rewrite Hy. }
    destruct (orderings_insert_new (E := E) (map (bump_in e hs) R)
      (mkOrdered (by_storage_index (ordered (references s))) (by_transaction_score (ordered (references s))) packages) e)
      as (o & -> & Hko); [done|apply Hf| |done|].
    { pose proof (inserted_wf s e c Hw Hf Hc) as Hw'. apply Forall_forall. intros x Hx. apply HR' in Hx as [[Hx _] _]. by eapply (pool_small _ _ _ Hw'). }
    rewrite ok_bind. eexists. split; [done|]. split; [done|]. cbn.
    exists (e :: map (bump_in e hs) R). split; [done|]. split; [cbn [map]; apply NoDup_cons; by rewrite bump_in_hash in *|]. split.
    + intros x. rewrite elem_of_cons, HR'. split.
      * intros [->|[? _]]; [|done]. split; [apply lookup_insert_eq|done].
      * intros Hx. destruct (decide (hash x = hash e)) as [Heq|Hne]; [left; by eapply inserted_uniq|by right].
    + intros h. specialize (HP' h). destruct (decide (h = hash e)) as [->|Hne]; [|tauto]. split.
      * intros Hh. apply HP in Hh as (x & Hx & _). by rewrite (fresh_hash _ _ Hf) in Hx.
      * intros (x & Hx & p & Hp & [y Hy]). unfold pool', inserted_pool in Hx. rewrite lookup_insert_eq in Hx. injection Hx as <-.
        rewrite (Hnone p Hp) in Hy. done.
Qed.

(** A fresh entry can be inserted, and the tables stay in step. *)
Lemma storage_insert_spec s e c :
  wf_entries inputs_of (by_hash s) c -> c < storage_index e -> counter s = storage_index e -> uint 64 (counter s) ->
  spent_table (by_hash s) (by_previous_output s) -> children_table inputs_of (by_hash s) (by_input (references s)) ->
  ordered_ready (by_hash s) (pending (references s)) (ordered (references s)) ->
  transactions_size_in_bytes s = total_size (by_hash s) -> fresh_entry s e ->
  exists s', storage_insert (E := E) s e = Ok s' /\ inv inputs_of s' /\ by_hash s' = inserted_pool (by_hash s) e /\
    counter s' = counter s.
Proof.
  intros Hw Hc Hcnt Hcr Hsp Hch (R & Hk & Hn & HR & HP) Hsz Hf. unfold storage_insert.
  pose proof (total_size_nonneg _ (pool_small _ _ _ Hw)) as Hnn. pose proof (fresh_size _ _ Hf) as Hfs.
  assert (0 < entry_size e) as Hpos by (destruct (fresh_small _ _ Hf) as [(_ & _ & ?) _]; lia).
  rewrite ucheck_Ok, ok_bind by (unfold uint; lia).
  destruct (update_ancestors_spec (E := E) e (hash_iter (ancestors e)) (by_hash s) (by_package_score (ordered (references s))) R)
    as (pool' & packages & -> & Hpool & Hpk).
  { rewrite hash_iter_perm. apply NoDup_elements. }
  { apply Hk. } { done. } { intros x Hx. by apply HR in Hx as [? _]. }
  { intros h x Hx. split; [by eapply (pool_hash _ _ _ Hw)|by eapply (pool_small _ _ _ Hw)]. }
  { intros h a Hh. apply (fresh_ancestors _ _ Hf). by rewrite hash_iter_perm, elem_of_elements in Hh. }
  rewrite ok_bind. assert (pool' = (bump_in e (hash_iter (ancestors e)) <$> by_hash s)) as ->.
  { apply map_eq. intros h. by rewrite Hpool, lookup_fmap. }
  destruct (inserted_ordered s e c R packages Hw Hc Hf Hk Hn HR HP Hpk) as (r & Hr & Hb & Ho).
  unfold insert_references in Hr. rewrite Hr, ok_bind.
  destruct (spend_inputs_spec (hash e) (inputs (transaction e)) (by_previous_output s)) as (m & -> & Hml); [apply Hf..|].
  rewrite ok_bind. eexists. split; [done|]. split; [|done]. pose proof (inserted_size s e c Hw Hf). split; cbn.
  - rewrite Hcnt. by eapply inserted_wf.
  - by apply inserted_spent.
  - rewrite Hb. by apply inserted_children.
  - done.
  - unfold inserted_pool in *. lia.
  - unfold uint. lia.
  - done.
Qed.

End insert.

(** ** Removing what spends an output *)

Section prevout.
Context `{HashOrder} {E : Type} (inputs_of : bytes -> list bytes).

Definition outpoints (t : IndexedTransaction) : list OutPoint :=
  map (fun idx => mkOutPoint (itx_hash t) (wrap 32 (Z.of_nat idx))) (seq 0 (length (outputs (itx_raw t)))).

Lemma outputs_count_delete (s s' : PoolStorage) h e :
  by_hash s !! h = Some e -> by_hash s' = delete h (by_hash s) ->
  outputs_count s = (length (outputs (transaction e)) + outputs_count s')%nat.
Proof.
  intros He Hb. unfold outputs_count. rewrite Hb.
  assert (map_to_list (by_hash s) ≡ₚ (h, e) :: map_to_list (delete h (by_hash s))) as Hp
    by (symmetry; by apply map_to_list_delete).
  revert Hp. generalize (map_to_list (by_hash s)), (map_to_list (delete h (by_hash s))). intros l l' Hp.
  change (length (outputs (transaction e)) + _)%nat
    with (foldr (fun p n => length (outputs (transaction p.2)) + n)%nat 0%nat ((h, e) :: l')).
  induction Hp; cbn; lia.
Qed.

(** The entries that spend one of the outputs, or an output of such an entry. *)
Inductive conflicts (pool : gmap bytes Entry) (spent : list OutPoint) : bytes -> Prop :=
| conflicts_direct h e o : pool !! h = Some e -> o ∈ prevouts e -> o ∈ spent -> conflicts pool spent h
| conflicts_further h c h' e o : conflicts pool spent h -> pool !! h = Some c -> pool !! h' = Some e ->
    o ∈ prevouts e -> o ∈ outpoints (mkIndexedTx (hash c) (transaction c)) -> conflicts pool spent h'.

Lemma conflicts_delete pool spent o h e k :
  pool !! h = Some e -> hash e = h -> o ∈ prevouts e ->
  conflicts (delete h pool) (spent ++ outpoints (mkIndexedTx (hash e) (transaction e))) k -> conflicts pool (o :: spent) k.
Proof.
  intros He Hh Ho Hk. assert (conflicts pool (o :: spent) h) as Hc by (eapply conflicts_direct; [done..|apply list_elem_of_here]).
  induction Hk as [k x o' [_ Hx]%lookup_delete_Some Ho' [Hin|Hin]%elem_of_app|k c k' x o' _ IH [_ Hk]%lookup_delete_Some [_ Hx]%lookup_delete_Some Ho' Hin].
  - eapply conflicts_direct; [done..|by right].
  - by eapply conflicts_further.
  - by eapply conflicts_further.
Qed.

Lemma conflicts_more pool spent o k : conflicts pool spent k -> conflicts pool (o :: spent) k.
Proof. induction 1; [eapply conflicts_direct; [done..|by right]|by eapply conflicts_further]. Qed.

Lemma remove_by_prevout_loop_spec fuel s queue removed :
  inv inputs_of s -> (length queue + outputs_count s <= fuel)%nat ->
  exists more s', remove_by_prevout_loop (E := E) fuel s queue removed = Ok (removed ++ more, s') /\ inv inputs_of s' /\
    entries_of (by_hash s) more /\
    (forall h, by_hash s' !! h = if decide (h ∈ map itx_hash more) then None else by_hash s !! h) /\
    (forall o, o ∈ queue \/ (exists t, t ∈ more /\ o ∈ outpoints t) -> by_previous_output s' !! o = None) /\
    (forall t, t ∈ more -> conflicts (by_hash s) queue (itx_hash t)).
Proof.
  revert s queue removed. induction fuel as [|fuel IH]; intros s queue removed Hi Hf; destruct queue as [|o queue]; cbn [remove_by_prevout_loop].
  1,3: exists [], s; rewrite app_nil_r; split_and!; try done;
    [split; [constructor|by intros t ?%not_elem_of_nil]|by intros o [?%not_elem_of_nil|(t & ?%not_elem_of_nil & _)]|by intros t ?%not_elem_of_nil].
  { cbn in Hf. lia. }
  cbn [length] in Hf. destruct (by_previous_output s !! o) as [h|] eqn:Ho.
  - apply (inv_spent _ _ Hi) in Ho as (e & He & Hoe).
    destruct (remove_by_hash_spec (E := E) inputs_of s h e Hi He) as (s1 & -> & Hi1 & Hb1 & _). rewrite ok_bind. cbn [expect].
    rewrite ok_bind. pose proof (pool_hash _ _ _ (inv_entries _ _ Hi) _ _ He) as Hh. subst h.
    cbn zeta. set (t := mkIndexedTx (hash e) (transaction e)).
    change (map _ (seq 0 (length (outputs (transaction e))))) with (outpoints t).
    destruct (IH s1 (queue ++ outpoints t) (removed ++ [t]) Hi1) as (more & s' & -> & Hi' & Hof & Hb' & Hun & Hwhy).
    { rewrite length_app. unfold outpoints. rewrite length_map, length_seq. cbn [t itx_raw].
      rewrite (outputs_count_delete s s1 _ _ He Hb1) in Hf. lia. }
    rewrite <- app_assoc. exists (t :: more), s'. split; [done|]. split; [done|]. rewrite Hb1 in Hof, Hb', Hwhy.
    split; [by apply entries_of_cons|]. split; [|split].
    + intros h. rewrite Hb'. cbn [map t itx_hash]. destruct (decide (h = hash e)) as [->|Hne].
      * rewrite lookup_delete_eq. rewrite (decide_True _ _ (P := _ ∈ _ :: _)) by apply list_elem_of_here. by case_decide.
      * rewrite lookup_delete_ne by done. destruct (decide (h ∈ map itx_hash more)).
        { by rewrite decide_True by (by apply list_elem_of_further). }
        { rewrite decide_False; [done|]. by intros [?|?]%elem_of_cons. }
    + intros o' Hin. destruct (decide (o' = o)) as [->|Hne].
      * destruct (by_previous_output s' !! o) as [h'|] eqn:Ho'; [|done]. exfalso.
        apply (inv_spent _ _ Hi') in Ho' as (e' & He' & Hoe'). rewrite Hb' in He'. case_decide; [done|].
        apply lookup_delete_Some in He' as [Hne He'].
        assert (by_previous_output s !! o = Some (hash e)) as H1 by (apply (inv_spent _ _ Hi); by exists e).
        assert (by_previous_output s !! o = Some h') as H2 by (apply (inv_spent _ _ Hi); by exists e'). congruence.
      * apply Hun. rewrite elem_of_app. destruct Hin as [[->|Hin]%elem_of_cons|(t' & [->|Ht']%elem_of_cons & Hin)]; [done|..].
        { by left; left. } { by left; right. } { right. by exists t'. }
    + intros t' [->|Ht']%elem_of_cons; [eapply conflicts_direct; [exact He|exact Hoe|apply list_elem_of_here]|].
      eapply conflicts_delete; [exact He|done|exact Hoe|]. by apply Hwhy.
  - destruct (IH s queue removed Hi) as (more & s' & -> & Hi' & Hof & Hb' & Hun & Hwhy); [lia|].
    exists more, s'. split_and!; try done; [|intros t Ht; by apply conflicts_more, Hwhy]. intros o' [[->|Hin]%elem_of_cons|Hin]; [|apply Hun; by left|apply Hun; by right].
    destruct (by_previous_output s' !! o) as [h'|] eqn:Ho'; [|done]. exfalso.
    apply (inv_spent _ _ Hi') in Ho' as (e' & He' & Hoe'). rewrite Hb' in He'. case_decide; [done|].
    assert (by_previous_output s !! o = Some h') as H2 by (apply (inv_spent _ _ Hi); by exists e'). congruence.
Qed.

End prevout.

(** * The pool *)

Section pool.
Context `{HashOrder} {E : Type} (inputs_of : bytes -> list bytes).

Definition pool_of (self : Pool) : gmap bytes Entry := by_hash (storage self).

(** The entry that is made for a transaction with the given fee. *)
Definition new_entry (self : Pool) (t : IndexedTransaction) (fee : Z) : Entry :=
  let size := serialized_size transaction_codec (itx_raw t) in
  mkEntry (itx_raw t) (get_ancestors self (itx_raw t)) (itx_hash t) size (counter (storage self) + 1) fee 0 size fee 0.

Definition counted (self : Pool) : Pool :=
  let s := storage self in
  with_storage self (mkStorage (counter s + 1) (transactions_size_in_bytes s) (by_hash s) (by_previous_output s) (references s)).

(** A transaction that the pool knows nothing about: neither itself nor what spends it. *)
Record acceptable (self : Pool) (t : IndexedTransaction) (fee : Z) : Prop := {
  acceptable_entry : fresh_entry inputs_of (storage self) (new_entry self t fee);
  acceptable_children : by_input (references (storage self)) !! itx_hash t = None;
}.

Lemma inv_counted self :
  inv inputs_of (storage self) -> counter (storage self) < 2 ^ 64 - 1 -> inv inputs_of (storage (counted self)).
Proof.
  intros [Hw Hsp Hch Ho Hsz Hr Hc] Hlt. unfold uint in Hc. split; cbn; try done; [|unfold uint; lia].
  destruct Hw as [H1 H2 H3 H4 H5 H6]. split; try done. intros h e He. specialize (H6 h e He). lia.
Qed.

Lemma insert_verified_spec fc self t fee :
  inv inputs_of (storage self) -> counter (storage self) < 2 ^ 64 - 1 -> fc (counted self) (itx_raw t) = Ok fee ->
  (accept_zero_fee self = false -> fee = 0 -> insert_verified (E := E) fc self t = Ok (counted self)) /\
  (accept_zero_fee self = true \/ fee <> 0 -> acceptable self t fee ->
   exists self', insert_verified (E := E) fc self t = Ok self' /\ inv inputs_of (storage self') /\
     pool_of self' = inserted_pool (pool_of self) (new_entry self t fee) /\
     counter (storage self') = counter (storage self) + 1 /\ accept_zero_fee self' = accept_zero_fee self).
Proof.
  intros Hi Hc Hfc. pose proof (inv_counter _ _ Hi) as Hcr. unfold uint in Hcr.
  unfold insert_verified, make_entry, get_storage_index.
  rewrite ucheck_Ok, !ok_bind by (unfold uint; lia). fold (counted self). rewrite Hfc, ok_bind. cbn [accept_zero_fee counted with_storage].
  split.
  - intros -> ->. done.
  - intros Hz [Hf Hch]. assert (negb (accept_zero_fee self) && (fee =? 0) = false) as ->.
    { destruct Hz as [->|Hne]; [done|]. apply Z.eqb_neq in Hne. rewrite Hne. apply andb_false_r. }
    rewrite ok_bind. fold (new_entry self t fee). unfold remove_by_parent_hash.
    cbn [storage counted with_storage references]. change (hash (new_entry self t fee)) with (itx_hash t). rewrite Hch, ok_bind.
    destruct (storage_insert_spec (E := E) inputs_of (storage (counted self)) (new_entry self t fee) (counter (storage self)))
      as (s' & Hs & Hi' & Hb & Hcnt); try apply Hi; [cbn; lia|done|cbn; unfold uint; lia| |].
    + destruct Hf. by split.
    + change (mkStorage (counter (storage self) + 1) _ _ _ _) with (storage (counted self)). rewrite Hs, ok_bind.
      eexists. split; [done|]. cbn. by split_and!.
Qed.

(** ** A parent after its children *)

Lemma wf_entries_subset pool pool' c : wf_entries inputs_of pool c -> pool' ⊆ pool -> wf_entries inputs_of pool' c.
Proof.
  intros [H1 H2 H3 H4 H5 H6] Hs. assert (forall h e, pool' !! h = Some e -> pool !! h = Some e) as Hl.
  { intros h e. by apply map_subseteq_spec. }
  split; intros; eauto.
Qed.

Lemma remove_hashes_spec hs s txs s' :
  inv inputs_of s -> remove_hashes (E := E) s hs = Ok (txs, s') ->
  inv inputs_of s' /\ counter s' = counter s /\ by_hash s' ⊆ by_hash s.
Proof.
  revert s txs. induction hs as [|h hs IH]; intros s txs Hi; cbn [remove_hashes]; [by intros [= <- <-]|].
  intros ([e s1] & Hr & Hrest)%bind_Ok. apply bind_Ok in Hrest as ([txs1 s2] & Hrest & [= _ <-]).
  assert (inv inputs_of s1 /\ counter s1 = counter s /\ by_hash s1 ⊆ by_hash s) as (Hi1 & Hc1 & Hs1).
  { destruct (by_hash s !! h) as [x|] eqn:Hx.
    - destruct (remove_by_hash_spec (E := E) inputs_of s h x Hi Hx) as (s3 & Hs3 & Hi3 & Hb & Hc). rewrite Hr in Hs3. injection Hs3 as _ <-.
      split_and!; [done|done|]. rewrite Hb. apply delete_subseteq.
    - unfold storage_remove_by_hash in Hr. rewrite Hx in Hr. by injection Hr as _ <-. }
  destruct (IH s1 txs1 Hi1 Hrest) as (Hi2 & Hc2 & Hs2). split_and!; [done|congruence|by etrans].
Qed.

Lemma remove_by_parent_hash_spec s h descendants s' :
  inv inputs_of s -> remove_by_parent_hash (E := E) s h = Ok (descendants, s') ->
  inv inputs_of s' /\ counter s' = counter s /\ by_hash s' ⊆ by_hash s.
Proof.
  intros Hi. unfold remove_by_parent_hash. destruct (by_input (references s) !! h) as [d|]; [|by intros [= <- <-]].
  intros (all & _ & Hr)%bind_Ok. apply bind_Ok in Hr as (sorted & _ & Hr). apply bind_Ok in Hr as ([txs s1] & Hr & [= <- <-]).
  by eapply remove_hashes_spec.
Qed.

(** The descendants that were moved out can be put back: each is fresh when its turn
    comes, so that none is put back before one it spends. *)
Inductive reinsertable (fc : Pool -> Transaction -> outcome E Z) : Pool -> list IndexedTransaction -> Prop :=
| reinsertable_nil self : reinsertable fc self []
| reinsertable_cons self t txs fee :
    fc (counted self) (itx_raw t) = Ok fee -> counter (storage self) < 2 ^ 64 - 1 ->
    (accept_zero_fee self = true \/ fee <> 0 -> fresh_entry inputs_of (storage (counted self)) (new_entry self t fee)) ->
    (forall self', reinsert fc self [t] = Ok self' -> reinsertable fc self' txs) -> reinsertable fc self (t :: txs).

Lemma put_spec s e c :
  inv inputs_of s -> wf_entries inputs_of (by_hash s) c -> c < storage_index e -> counter s = storage_index e -> fresh_entry inputs_of s e ->
  exists s', storage_insert (E := E) s e = Ok s' /\ inv inputs_of s'.
Proof.
  intros Hi Hw Hc He Hf. destruct (storage_insert_spec (E := E) inputs_of s e c) as (s' & Hs & Hi' & _); try done; [apply Hi..|]. by exists s'.
Qed.

Lemma reinsert_spec fc self txs :
  inv inputs_of (storage self) -> reinsertable fc self txs ->
  exists self', reinsert fc self txs = Ok self' /\ inv inputs_of (storage self').
Proof.
  intros Hi Hr. induction Hr as [self|self t txs fee Hfc Hcnt Hfresh _ IH]; [by exists self|].
  assert (exists self1, reinsert fc self [t] = Ok self1 /\ inv inputs_of (storage self1)) as (self1 & H1 & Hi1).
  { pose proof (inv_counter _ _ Hi) as Hcr. unfold uint in Hcr. pose proof (inv_counted self Hi Hcnt) as Hi0.
    cbn [reinsert]. unfold make_entry, get_storage_index. rewrite ucheck_Ok, !ok_bind by (unfold uint; lia). fold (counted self).
    rewrite Hfc, ok_bind. cbn [accept_zero_fee counted with_storage].
    destruct (negb (accept_zero_fee self) && (fee =? 0)) eqn:Hz; rewrite ok_bind; [by exists (counted self)|].
    fold (new_entry self t fee). destruct (put_spec (storage (counted self)) (new_entry self t fee) (counter (storage self))) as (s' & Hs & Hi');
      [done|apply Hi|cbn; lia|done| |].
    - apply Hfresh. apply andb_false_iff in Hz as [Hz|Hz]; [left; by destruct (accept_zero_fee self)|right; by apply Z.eqb_neq].
    - change (storage (with_storage self _)) with (storage (counted self)). rewrite Hs, !ok_bind. by eexists. }
  destruct (IH self1 H1 Hi1) as (self2 & H2 & Hi2). exists self2. split; [|done].
  rewrite <- H2. cbn [reinsert] in H1 |- *. apply bind_Ok in H1 as ([e s1] & -> & H1). rewrite ok_bind.
  apply bind_Ok in H1 as (self1' & -> & [= <-]). by rewrite ok_bind.
Qed.

(** What is done to the pool.  A transaction is inserted when nothing in the pool spends
    it; when its children came first, they and their descendants are moved out, and the
    step is taken if the order in which they are put back has parents first
    ([late_parent_breaks_order] shows that this need not be so).  Fees and sizes stay in
    the ranges in which scores can be compared. *)
Inductive pool_step : Pool -> Pool -> Prop :=
| step_insert fc self t fee self' :
    fc (counted self) (itx_raw t) = Ok fee -> counter (storage self) < 2 ^ 64 - 1 ->
    (accept_zero_fee self = true \/ fee <> 0 -> acceptable self t fee) ->
    insert_verified (E := E) fc self t = Ok self' -> pool_step self self'
| step_insert_late fc self t fee descendants s self' :
    fc (counted self) (itx_raw t) = Ok fee -> counter (storage self) < 2 ^ 64 - 1 -> accept_zero_fee self = true \/ fee <> 0 ->
    remove_by_parent_hash (E := E) (storage (counted self)) (itx_hash t) = Ok (Some descendants, s) ->
    fresh_entry inputs_of s (new_entry self t fee) ->
    (forall s', storage_insert (E := E) s (new_entry self t fee) = Ok s' -> reinsertable fc (with_storage self s') descendants) ->
    insert_verified (E := E) fc self t = Ok self' -> pool_step self self'
| step_virtual_fee self h v self' :
    (forall e, pool_of self !! h = Some e -> fee_in_range (storage self) e v) ->
    set_virtual_fee (E := E) self h v = Ok self' -> pool_step self self'
| step_remove self h r self' : remove_by_hash (E := E) self h = Ok (r, self') -> pool_step self self'
| step_prevout self o r self' : remove_by_prevout (E := E) self o = Ok (r, self') -> pool_step self self'
| step_remove_n self n strategy r self' :
    remove_n_with_strategy (E := E) self n strategy = Ok (r, self') -> pool_step self self'.

Lemma inv_new : inv inputs_of storage_new.
Proof.
  split; cbn; [by split; intros|..].
  - intros o h. rewrite lookup_empty. split; [done|]. intros (e & He & _). by rewrite lookup_empty in He.
  - split; [intros h e p He; by rewrite lookup_empty in He|]. intros p h. rewrite lookup_empty. cbn. set_solver.
  - exists []. split; [by split|]. split; [constructor|]. split.
    + intros e. split; [by intros ?%not_elem_of_nil|]. intros [He _]. by rewrite lookup_empty in He.
    + intros h. split; [set_solver|]. intros (e & He & _). by rewrite lookup_empty in He.
  - done.
  - done.
  - done.
Qed.

Lemma insert_late_inv fc self t fee descendants s self' :
  inv inputs_of (storage self) -> fc (counted self) (itx_raw t) = Ok fee -> counter (storage self) < 2 ^ 64 - 1 ->
  accept_zero_fee self = true \/ fee <> 0 ->
  remove_by_parent_hash (E := E) (storage (counted self)) (itx_hash t) = Ok (Some descendants, s) ->
  fresh_entry inputs_of s (new_entry self t fee) ->
  (forall s', storage_insert (E := E) s (new_entry self t fee) = Ok s' -> reinsertable fc (with_storage self s') descendants) ->
  insert_verified (E := E) fc self t = Ok self' -> inv inputs_of (storage self').
Proof.
  intros Hi Hfc Hcnt Hz Hrm Hf Hput. pose proof (inv_counter _ _ Hi) as Hcr. unfold uint in Hcr.
  destruct (remove_by_parent_hash_spec _ _ _ _ (inv_counted self Hi Hcnt) Hrm) as (His & Hcs & Hsub).
  destruct (put_spec s (new_entry self t fee) (counter (storage self))) as (s' & Hs' & Hi'); [done| |cbn; lia|done|done|].
  { eapply wf_entries_subset; [apply (inv_entries _ _ Hi)|exact Hsub]. }
  destruct (reinsert_spec fc (with_storage self s') descendants Hi' (Hput s' Hs')) as (p & Hp & Hip).
  unfold insert_verified, make_entry, get_storage_index. rewrite ucheck_Ok, !ok_bind by (unfold uint; lia). fold (counted self).
  rewrite Hfc, ok_bind. cbn [accept_zero_fee counted with_storage].
  assert (negb (accept_zero_fee self) && (fee =? 0) = false) as ->.
  { destruct Hz as [->|Hne]; [done|]. apply Z.eqb_neq in Hne. rewrite Hne. apply andb_false_r. }
  rewrite ok_bind. fold (new_entry self t fee). change (hash (new_entry self t fee)) with (itx_hash t).
  change (storage (with_storage self _)) with (storage (counted self)). rewrite Hrm, ok_bind, Hs', ok_bind.
  intros Hins. change (reinsert fc (with_storage self s') descendants = Ok self') in Hins. rewrite Hp in Hins. by injection Hins as <-.
Qed.

Lemma set_virtual_fee_inv self h v self' :
  inv inputs_of (storage self) -> (forall e, pool_of self !! h = Some e -> fee_in_range (storage self) e v) ->
  set_virtual_fee (E := E) self h v = Ok self' -> inv inputs_of (storage self').
Proof.
  intros Hi Hfee (s & Hs & [= <-])%bind_Ok. unfold pool_of in Hfee. destruct (by_hash (storage self) !! h) as [e|] eqn:He.
  - destruct (set_virtual_fee_spec (E := E) inputs_of (storage self) h e v Hi He (Hfee e eq_refl)) as (s' & Hs' & Hi' & _).
    rewrite Hs in Hs'. by injection Hs' as ->.
  - unfold storage_set_virtual_fee in Hs. rewrite He in Hs. by injection Hs as <-.
Qed.

Lemma pool_step_inv self self' : pool_step self self' -> inv inputs_of (storage self) -> inv inputs_of (storage self').
Proof.
  intros Hs Hi. destruct Hs as [fc self t fee self' Hfc Hcnt Hacc Hins|fc self t fee ds s self' Hfc Hcnt Hz Hrm Hf Hput Hins
    |self h v self' Hfee Hset|self h r self' Hr|self o r self' Hr|self n st r self' Hr].
  - destruct (insert_verified_spec fc self t fee Hi Hcnt Hfc) as [H0 H1].
    destruct (decide (accept_zero_fee self = false /\ fee = 0)) as [[Hz Hfee]|Hne].
    + rewrite (H0 Hz Hfee) in Hins. injection Hins as <-. by apply inv_counted.
    + assert (accept_zero_fee self = true \/ fee <> 0) as Hz.
      { destruct (accept_zero_fee self); [by left|right]. naive_solver. }
      destruct (H1 Hz (Hacc Hz)) as (s & Hs & Hi' & _). rewrite Hs in Hins. by injection Hins as <-.
  - by eapply insert_late_inv.
  - by eapply set_virtual_fee_inv.
  - unfold remove_by_hash in Hr. apply bind_Ok in Hr as ([e s] & Hr & Heq). injection Heq as _ <-.
    destruct (by_hash (storage self) !! h) as [x|] eqn:Hx.
    + destruct (remove_by_hash_spec (E := E) inputs_of _ h x Hi Hx) as (s' & Hs & Hi' & _). rewrite Hr in Hs. by injection Hs as _ <-.
    + unfold storage_remove_by_hash in Hr. rewrite Hx in Hr. by injection Hr as _ <-.
  - unfold remove_by_prevout, storage_remove_by_prevout in Hr. apply bind_Ok in Hr as ([txs s] & Hr & Heq). injection Heq as _ <-.
    destruct (remove_by_prevout_loop_spec (E := E) inputs_of (S (outputs_count (storage self))) (storage self) [o] [] Hi)
      as (more & s' & Hs & Hi' & _); [cbn; lia|]. rewrite Hr in Hs. by injection Hs as _ <-.
  - unfold remove_n_with_strategy in Hr. apply bind_Ok in Hr as ([txs s] & Hr & Heq). injection Heq as _ <-.
    destruct (remove_n_spec (E := E) inputs_of n (storage self) st Hi) as (txs' & s' & Hs & Hi' & _).
    rewrite Hr in Hs. by injection Hs as _ <-.
Qed.

Definition pool_start (zero_fee : bool) : Pool := mkPool storage_new zero_fee.

Lemma pool_reachable_inv zero_fee self : rtc pool_step (pool_start zero_fee) self -> inv inputs_of (storage self).
Proof.
  intros Hs. remember (pool_start zero_fee) as s0. assert (inv inputs_of (storage s0)) as H0 by (subst; apply inv_new).
  clear Heqs0. induction Hs as [|s1 s2 s3 H1 _ IH]; [done|]. by apply IH, (pool_step_inv s1).
Qed.

(** C23: In every pool reached by removals, virtual fees and such insertions, an output is recorded as spent exactly when an
    entry spends it, so that no two entries spend the same output; the recorded size is
    the sum of the sizes; and removing any entry by its hash succeeds and takes away
    that entry alone. *)
Theorem pool_no_double_spend zero_fee self :
  rtc pool_step (pool_start zero_fee) self ->
  (forall o, is_output_spent (storage self) o = true <-> exists h e, pool_of self !! h = Some e /\ o ∈ prevouts e) /\
  (forall h h' e e' o, pool_of self !! h = Some e -> pool_of self !! h' = Some e' -> o ∈ prevouts e -> o ∈ prevouts e' -> h = h') /\
  transactions_size (information self) = total_size (pool_of self) /\
  (forall h e, pool_of self !! h = Some e -> exists self', remove_by_hash (E := E) self h =
     Ok (Some (mkIndexedTx h (transaction e)), self') /\ pool_of self' = delete h (pool_of self)).
Proof.
  intros Hreach%pool_reachable_inv. pose proof (inv_spent _ _ Hreach) as Hsp. split_and!.
  - intros o. unfold is_output_spent. rewrite bool_decide_eq_true. split.
    + intros [h Hh]. exists h. by apply Hsp.
    + intros (h & e & He & Ho). exists h. apply Hsp. by exists e.
  - intros h h' e e' o He He' Ho Ho'.
    assert (by_previous_output (storage self) !! o = Some h) as H1 by (apply Hsp; by exists e).
    assert (by_previous_output (storage self) !! o = Some h') as H2 by (apply Hsp; by exists e'). congruence.
  - apply Hreach.
  - intros h e He. destruct (remove_by_hash_spec (E := E) inputs_of _ h e Hreach He) as (s' & Hs & _ & Hb & _).
    unfold remove_by_hash. rewrite Hs, ok_bind. pose proof (pool_hash _ _ _ (inv_entries _ _ Hreach) _ _ He) as <-.
    eexists. split; [done|]. exact Hb.
Qed.

Lemma remove_n_pool_spec self n strategy :
  inv inputs_of (storage self) ->
  exists txs self', remove_n_with_strategy (E := E) self n strategy = Ok (txs, self') /\ inv inputs_of (storage self') /\
    length txs = (n `min` size (pool_of self))%nat /\ entries_of (pool_of self) txs /\ parents_first (pool_of self) txs /\
    (forall h, pool_of self' !! h = if decide (h ∈ map itx_hash txs) then None else pool_of self !! h) /\
    ((size (pool_of self) <= n)%nat -> pool_of self' = ∅).
Proof.
  intros Hreach.
  destruct (remove_n_spec (E := E) inputs_of n (storage self) strategy Hreach) as (txs & s' & Hs & Hi' & Hl & Hof & Hpf & Hb).
  exists txs, (with_storage self s'). unfold remove_n_with_strategy. rewrite Hs, ok_bind. split_and!; try done.
  intros Hn. apply map_empty. intros h. unfold pool_of. cbn. rewrite Hb. case_decide as Hin; [done|].
  destruct (by_hash (storage self) !! h) as [e|] eqn:He; [|done]. exfalso. apply Hin.
  assert (list_to_set (C := gset bytes) (map itx_hash txs) = dom (by_hash (storage self))) as Hdom.
  { apply set_subseteq_size_eq.
    - intros k Hk. apply elem_of_list_to_set in Hk. rewrite list_elem_of_In, in_map_iff in Hk.
      destruct Hk as (t & <- & Ht%list_elem_of_In). destruct Hof as [_ Hof]. destruct (Hof t Ht) as (x & Hx & _).
      apply elem_of_dom. by exists x.
    - rewrite size_dom, size_list_to_set, length_map, Hl by apply Hof. unfold pool_of in Hn. lia. }
  rewrite <- (elem_of_list_to_set (C := gset bytes)), Hdom. apply elem_of_dom. by exists e.
Qed.

(** C24: Take a pool that is reached by removals, virtual fees and insertions in which no
    transaction is put in while an entry spends it; descendants that are moved out for a
    late parent must be put back parents first, which their sort does not always give.
    Then taking out transactions succeeds for each strategy and any number: distinct
    entries are handed out, as many as asked for or all there are, each after all its
    parents that were in the pool; the rest stays. *)
Theorem pool_drains_in_order zero_fee self n strategy :
  rtc pool_step (pool_start zero_fee) self ->
  exists txs self', remove_n_with_strategy (E := E) self n strategy = Ok (txs, self') /\
    length txs = (n `min` size (pool_of self))%nat /\ entries_of (pool_of self) txs /\ parents_first (pool_of self) txs /\
    (forall h, pool_of self' !! h = if decide (h ∈ map itx_hash txs) then None else pool_of self !! h) /\
    ((size (pool_of self) <= n)%nat -> pool_of self' = ∅).
Proof.
  intros Hreach%pool_reachable_inv. destruct (remove_n_pool_spec self n strategy Hreach) as (txs & self' & Hr & _ & ?). by exists txs, self'.
Qed.

Lemma remove_by_prevout_spec self prevout :
  inv inputs_of (storage self) ->
  exists txs self', remove_by_prevout (E := E) self prevout = Ok (txs, self') /\ inv inputs_of (storage self') /\
    accept_zero_fee self' = accept_zero_fee self /\ entries_of (pool_of self) txs /\
    (forall h, h ∈ map itx_hash txs <-> conflicts (pool_of self) [prevout] h) /\
    (forall h, pool_of self' !! h = if decide (h ∈ map itx_hash txs) then None else pool_of self !! h) /\
    (forall o, o = prevout \/ (exists t, t ∈ txs /\ o ∈ outpoints t) -> is_output_spent (storage self') o = false).
Proof.
  intros Hi. unfold remove_by_prevout, storage_remove_by_prevout.
  destruct (remove_by_prevout_loop_spec (E := E) inputs_of (S (outputs_count (storage self))) (storage self) [prevout] [] Hi)
    as (more & s' & -> & Hi' & Hof & Hb & Hun & Hwhy); [cbn; lia|]. rewrite ok_bind. cbn [app].
  assert (forall o, o = prevout \/ (exists t, t ∈ more /\ o ∈ outpoints t) -> by_previous_output s' !! o = None) as Hnone.
  { intros o [->|Ho]; apply Hun; [left; apply list_elem_of_here|by right]. }
  exists more, (with_storage self s'). split_and!; try done.
  - intros h. split.
    + rewrite list_elem_of_In, in_map_iff. intros (t & <- & Ht%list_elem_of_In). by apply Hwhy.
    + assert (forall h e o, pool_of self !! h = Some e -> o ∈ prevouts e -> by_previous_output s' !! o = None -> h ∈ map itx_hash more) as Hgone.
      { intros k e o He Ho Hno. destruct (decide (k ∈ map itx_hash more)) as [|Hk]; [done|]. exfalso.
        assert (by_previous_output s' !! o = Some k) as Hs; [|congruence]. apply (inv_spent _ _ Hi'). exists e. rewrite Hb. by rewrite decide_False. }
      induction 1 as [h e o He Ho ->%list_elem_of_singleton|h c h' e o _ IH Hc He Ho Hin].
      * eapply Hgone; [done..|]. apply Hnone. by left.
      * eapply Hgone; [done..|]. apply Hnone. right. rewrite list_elem_of_In, in_map_iff in IH. destruct IH as (t & Hth & Ht%list_elem_of_In).
        exists t. split; [done|]. destruct Hof as [_ Hof]. destruct (Hof t Ht) as (x & Hx & Hr). rewrite Hth in Hx. unfold pool_of in Hc. rewrite Hc in Hx. injection Hx as <-.
        destruct t as [th tr]. cbn in *. subst. by rewrite <- (pool_hash _ _ _ (inv_entries _ _ Hi) _ _ Hc).
  - intros o Ho. unfold is_output_spent. cbn. by rewrite Hnone.
Qed.

(** In every pool the node reaches, removing what spends an output ends.  What is
    removed are exactly the entries that spend the output, or an output of a removed
    entry; none of these outputs is spent in the pool any more, and all other entries
    stay. *)
Theorem remove_by_prevout_closed zero_fee self prevout :
  rtc pool_step (pool_start zero_fee) self ->
  exists txs self', remove_by_prevout (E := E) self prevout = Ok (txs, self') /\ entries_of (pool_of self) txs /\
    (forall h, h ∈ map itx_hash txs <-> conflicts (pool_of self) [prevout] h) /\
    (forall h, pool_of self' !! h = if decide (h ∈ map itx_hash txs) then None else pool_of self !! h) /\
    is_output_spent (storage self') prevout = false /\
    (forall t o, t ∈ txs -> o ∈ outpoints t -> is_output_spent (storage self') o = false).
Proof.
  intros Hreach%pool_reachable_inv.
  destruct (remove_by_prevout_spec self prevout Hreach) as (txs & self' & Hr & _ & _ & Hof & Hc & Hb & Hun).
  exists txs, self'. split_and!; try done; [apply Hun; by left|]. intros t o Ht Ho. apply Hun. right. by exists t.
Qed.

End pool.
End MemoryPoolSpec.

(** * Examples *)

Module ExamplePool.
Import Ser Chain ChainHash Storage MemoryPool MemoryPoolInv MemoryPoolSpec.

#[export] Instance elements_order `{Countable A} : HashOrderOf A := {| hash_iter := fun s => elements s; hash_iter_perm := fun s => reflexivity _ |}.

(** A transaction with the given hash that spends the first outputs of others. *)
Definition example_hash (n : byte) : bytes := replicate 32 n.
Definition example_spender (n : byte) (spent : list (byte * Z)) (outs : nat) : IndexedTransaction :=
  mkIndexedTx (example_hash n)
    (mkTx 1 (map (fun p => mkInput (mkOutPoint (example_hash p.1) p.2) [] 4294967295 []) spent)
       (replicate outs (mkOutput 1000 [])) 0).

Definition example_fee (_ : Pool) (_ : Transaction) : outcome unit Z := Ok 100.

Definition inserted (self : Pool) (t : IndexedTransaction) : Pool :=
  match insert_verified example_fee self t with Ok p => p | _ => self end.

Definition parent : IndexedTransaction := example_spender x01 [(xaa, 0)] 2.
Definition child : IndexedTransaction := example_spender x02 [(x01, 0)] 1.
Definition example_pool1 : Pool := inserted new parent.
Definition example_pool2 : Pool := inserted example_pool1 child.

Definition example_inputs (h : bytes) : list bytes :=
  if bool_decide (h = example_hash x01) then [example_hash xaa]
  else if bool_decide (h = example_hash x02) then [example_hash x01] else [].

#[local] Instance small_dec e : Decision (small e).
Proof. unfold small, small_score. apply _. Defined.

Lemma fresh_compute s e :
  bool_decide (by_hash s !! hash e = None /\ map_Forall (fun _ x => hash e ∉ parents (transaction x)) (by_hash s) /\
    hash e ∉ parents (transaction e) /\ parents (transaction e) = example_inputs (hash e) /\ NoDup (prevouts e) /\
    Forall (fun o => by_previous_output s !! o = None) (prevouts e) /\ small e /\
    map_Forall (fun h a => h ∈ ancestors e -> small (bump e a)) (by_hash s) /\
    transactions_size_in_bytes s + entry_size e < 2 ^ 64) = true ->
  fresh_entry example_inputs s e.
Proof.
  intros Hb. apply bool_decide_eq_true in Hb as (H1 & H2 & H3 & H4 & H5 & H6 & H7 & H8 & H9).
  split; try done; [|by intros h a Hh Ha; apply (H8 h a Ha)]. intros o Ho. by apply (proj1 (Forall_forall _ _) H6).
Qed.

Lemma example_step self t :
  acceptable example_inputs self t 100 -> counter (storage self) < 2 ^ 64 - 1 ->
  (exists p, insert_verified example_fee self t = Ok p) -> pool_step (E := unit) example_inputs self (inserted self t).
Proof.
  intros Ha Hc [p Hp]. eapply (step_insert example_inputs example_fee self t 100); [done|done|done|].
  unfold inserted. by rewrite Hp.
Qed.

Lemma example_pool2_reachable : rtc (pool_step (E := unit) example_inputs) (pool_start false) example_pool2.
Proof.
  eapply rtc_l; [apply (example_step new parent)|apply rtc_once, (example_step example_pool1 child)].
  - split; [apply fresh_compute|]; vm_compute; reflexivity.
  - vm_compute. reflexivity.
  - exists example_pool1. vm_cast_no_check (eq_refl (Ok (E := unit) example_pool1)).
  - split; [apply fresh_compute|]; vm_compute; reflexivity.
  - vm_compute. reflexivity.
  - exists example_pool2. vm_cast_no_check (eq_refl (Ok (E := unit) example_pool2)).
Qed.

(** The child comes first, then its parent, and then a virtual fee for the child. *)
Definition example_child : Pool := inserted new child.
Definition example_family : Pool := inserted example_child parent.
Definition example_valued : Pool :=
  match set_virtual_fee (E := unit) example_family (example_hash x02) 50 with Ok p => p | _ => new end.

(** The tables while the child is moved out, and after its parent has been put in. *)
Definition example_moved : PoolStorage :=
  match remove_by_parent_hash (E := unit) (storage (counted example_child)) (example_hash x01) with Ok (_, s) => s | _ => storage_new end.
Definition example_parent_in : PoolStorage :=
  match storage_insert (E := unit) example_moved (new_entry example_child parent 100) with Ok s => s | _ => storage_new end.

Lemma example_late_step : pool_step (E := unit) example_inputs example_child example_family.
Proof.
  apply (step_insert_late example_inputs example_fee example_child parent 100 [child] example_moved).
  - done.
  - vm_compute. reflexivity.
  - by right.
  - vm_cast_no_check (eq_refl (Ok (E := unit) (Some [child], example_moved))).
  - apply fresh_compute. vm_compute. reflexivity.
  - intros s' Hs'. assert (s' = example_parent_in) as ->.
    { assert (storage_insert (E := unit) example_moved (new_entry example_child parent 100) = Ok example_parent_in) as He
        by vm_cast_no_check (eq_refl (Ok (E := unit) example_parent_in)). congruence. }
    apply (reinsertable_cons _ _ _ _ _ 100); [done|vm_compute; reflexivity| |by constructor].
    intros _. apply fresh_compute. vm_compute. reflexivity.
  - vm_cast_no_check (eq_refl (Ok (E := unit) example_family)).
Qed.

Lemma example_valued_reachable : rtc (pool_step (E := unit) example_inputs) (pool_start false) example_valued.
Proof.
  eapply rtc_l; [apply (example_step new child)|eapply rtc_l; [apply example_late_step|]].
  - split; [apply fresh_compute|]; vm_compute; reflexivity.
  - vm_compute. reflexivity.
  - exists example_child. vm_cast_no_check (eq_refl (Ok (E := unit) example_child)).
  - apply rtc_once, (step_virtual_fee _ _ (example_hash x02) 50); [|vm_cast_no_check (eq_refl (Ok (E := unit) example_valued))].
    assert (forall e, pool_of example_family !! example_hash x02 = Some e ->
      small (with_virtual_fee e 50) /\
      map_Forall (fun h a => h ∈ ancestors e -> small (bump (fee_change e (50 - miner_virtual_fee e)) a))
        (<[hash e := with_virtual_fee e 50]> (by_hash (storage example_family)))) as Hall.
    { assert (match pool_of example_family !! example_hash x02 with
        | Some x => bool_decide (small (with_virtual_fee x 50) /\
            map_Forall (fun h a => h ∈ ancestors x -> small (bump (fee_change x (50 - miner_virtual_fee x)) a))
              (<[hash x := with_virtual_fee x 50]> (by_hash (storage example_family))))
        | None => false end = true) as Hb by (vm_compute; reflexivity).
      intros e He. rewrite He in Hb. by apply bool_decide_eq_true in Hb. }
    intros e [Hs Hm]%Hall. split; [done|]. intros h a Hh Ha. by apply (Hm h a Ha).
Qed.

End ExamplePool.

Section witnesses.
Import Chain ChainHash MemoryPool MemoryPoolInv MemoryPoolSpec ExamplePool.

Lemma pool_drains_in_order_witness :
  exists txs self', remove_n_with_strategy (E := unit) example_valued 5 ByTransactionScore = Ok (txs, self') /\
    length txs = 2%nat /\ pool_of self' = ∅ /\ parents_first (pool_of example_valued) txs.
Proof.
  destruct (pool_drains_in_order (E := unit) example_inputs false example_valued 5 ByTransactionScore) as
    (txs & self' & Hr & Hl & _ & Hp & _ & He).
  - exact example_valued_reachable.
  - assert (size (pool_of example_valued) = 2%nat) as Hs by (vm_compute; reflexivity).
    exists txs, self'. rewrite Hs in Hl, He. split; [exact Hr|]. split; [exact Hl|]. split; [apply He; lia|exact Hp].
Defined.

Lemma pool_no_double_spend_witness :
  is_output_spent (storage example_pool2) (mkOutPoint (example_hash x01) 0) = true /\
  exists h e, pool_of example_pool2 !! h = Some e /\ mkOutPoint (example_hash x01) 0 ∈ prevouts e.
Proof.
  assert (is_output_spent (storage example_pool2) (mkOutPoint (example_hash x01) 0) = true) as Hs by (vm_compute; reflexivity).
  split; [exact Hs|]. apply (pool_no_double_spend (E := unit) example_inputs false example_pool2); [|exact Hs].
  exact example_pool2_reachable.
Defined.

Lemma remove_by_prevout_closed_witness :
  exists txs self', remove_by_prevout (E := unit) example_pool2 (mkOutPoint (example_hash xaa) 0) = Ok (txs, self') /\
    is_output_spent (storage self') (mkOutPoint (example_hash xaa) 0) = false.
Proof.
  destruct (remove_by_prevout_closed (E := unit) example_inputs false example_pool2 (mkOutPoint (example_hash xaa) 0))
    as (txs & self' & Hr & _ & _ & _ & Hs & _); [exact example_pool2_reachable|]. exists txs, self'. split; [exact Hr|exact Hs].
Defined.

(** Two entries spend a transaction that is not in the pool, and are removed.  When
    that transaction is inserted, the children it is still recorded to have are looked
    up and not found. *)
Definition example_orphans : Pool :=
  inserted (inserted new (example_spender x02 [(x01, 0)] 1)) (example_spender x03 [(x01, 1)] 1).
Definition example_emptied : Pool :=
  match remove_n_with_strategy (E := unit) example_orphans 2 ByTimestamp with Ok (_, p) => p | _ => new end.

Theorem insert_after_removed_children_panics :
  remove_n_with_strategy (E := unit) example_orphans 2 ByTimestamp =
    Ok ([example_spender x02 [(x01, 0)] 1; example_spender x03 [(x01, 1)] 1], example_emptied) /\
  get_transactions_ids example_emptied = [] /\ insert_verified example_fee example_emptied parent = Panic.
Proof.
  split; [|split; vm_compute; reflexivity].
  vm_cast_no_check (eq_refl (Ok (E := unit) ([example_spender x02 [(x01, 0)] 1; example_spender x03 [(x01, 1)] 1], example_emptied))).
Qed.

(** Children that are in the pool before their parent [x01] are sorted by ancestry and
    put back after it; but transactions that are not related compare as equal, which is
    no order.  Here [x02], which spends [x03], is put back before it, so that its parent
    is not among its ancestors, and it is handed out before its parent. *)
Definition example_late_parent : Pool :=
  inserted (inserted (inserted (inserted new (example_spender x03 [(x01, 0)] 1)) (example_spender x04 [(x01, 1)] 1))
    (example_spender x02 [(x03, 0)] 1)) (example_spender x01 [(xaa, 0)] 3).
Definition example_drained : Pool :=
  match remove_n_with_strategy (E := unit) example_late_parent 4 ByTimestamp with Ok (_, p) => p | _ => new end.

Theorem late_parent_breaks_order :
  remove_n_with_strategy (E := unit) example_late_parent 4 ByTimestamp =
    Ok ([example_spender x01 [(xaa, 0)] 3; example_spender x02 [(x03, 0)] 1;
         example_spender x04 [(x01, 1)] 1; example_spender x03 [(x01, 0)] 1], example_drained) /\
  contains example_late_parent (example_hash x03) = true.
Proof.
  split; [|vm_compute; reflexivity].
  vm_cast_no_check (eq_refl (Ok (E := unit)
    ([example_spender x01 [(xaa, 0)] 3; example_spender x02 [(x03, 0)] 1;
      example_spender x04 [(x01, 1)] 1; example_spender x03 [(x01, 0)] 1], example_drained))).
Qed.

(** When an entry is removed, the children that are still in the pool are forgotten.  Here
    [x05] spends [x01] and [x02]; [x01] is removed and comes back, as after a
    reorganization.  Now [x05] is not known to be its child: it is never taken from the
    pending entries, and stays in the pool when everything is taken out. *)
Definition example_returned : Pool :=
  let both := inserted (inserted (inserted new (example_spender x01 [(xaa, 0)] 1)) (example_spender x02 [(xbb, 0)] 1))
                (example_spender x05 [(x01, 0); (x02, 0)] 1) in
  match remove_by_hash (E := unit) both (example_hash x01) with
  | Ok (_, p) => inserted p (example_spender x01 [(xaa, 0)] 1)
  | _ => new
  end.

Theorem returned_parent_blocks_child :
  (exists p, remove_n_with_strategy (E := unit) example_returned 10 ByTimestamp =
     Ok ([example_spender x02 [(xbb, 0)] 1; example_spender x01 [(xaa, 0)] 1], p) /\
   get_transactions_ids p = [example_hash x05]) /\
  contains example_returned (example_hash x05) = true.
Proof.
  split; [|vm_compute; reflexivity].
  set (p := match remove_n_with_strategy (E := unit) example_returned 10 ByTimestamp with Ok (_, p) => p | _ => new end).
  exists p. split; [|vm_compute; reflexivity].
  vm_cast_no_check (eq_refl (Ok (E := unit) ([example_spender x02 [(xbb, 0)] 1; example_spender x01 [(xaa, 0)] 1], p))).
Qed.

(** The package of an entry keeps the size and fee of a child that was removed. *)
Definition example_childless : Pool :=
  match remove_by_hash (E := unit) example_pool2 (example_hash x02) with Ok (_, p) => p | _ => new end.

Theorem package_keeps_removed_child :
  map (fun e => (package_miner_fee e, package_size e =? entry_size e)) (map snd (map_to_list (pool_of example_childless))) = [(200, false)] /\
  get_transactions_ids example_childless = [example_hash x01].
Proof. split; vm_compute; reflexivity. Qed.

(** The virtual fee that is set for an entry does not count in its own package. *)
Definition example_prioritized : Pool :=
  match set_virtual_fee (E := unit) example_pool1 (example_hash x01) 50 with Ok p => p | _ => new end.

Theorem virtual_fee_not_in_package :
  map (fun e => (miner_virtual_fee e, package_miner_virtual_fee e)) (map snd (map_to_list (pool_of example_prioritized))) = [(50, 0)].
Proof. vm_compute. reflexivity. Qed.

End witnesses.
