(* ===== verification/BlockAssembler.v ===== *)
(** Block templates (src/miner/src/block_assembler.rs): the policies that decide which
    transactions of the memory pool fit, the iterator over those, and the assembly of a
    template.  The memory pool is that of MemoryPool.v, the store that of
    ChainVerifier.v. *)
From Stdlib Require Import ZArith Lia Strings.Byte.
From stdpp Require Import base decidable numbers countable gmap list.
From S2P Require Import Prelude Crypto Serialization Chain ChainHash U256 Compact Network Work Storage Verify ChainVerifier MemoryPool.

Local Open Scope Z_scope.

Module BlockAssembler.
Import Ser Chain ChainHash Network Work Storage Verify ChainVerifier MemoryPool.

Definition BLOCK_VERSION : Z := 0x20000000.
Definition BLOCK_HEADER_SIZE : Z := 4 + 32 + 32 + 4 + 4 + 4.

Record BlockTemplate := mkTemplate {
  bt_version : Z;
  bt_previous_header_hash : bytes;
  bt_time : Z;
  bt_bits : Z;
  bt_height : Z;
  bt_transactions : list IndexedTransaction;
  coinbase_value : Z;
  size_limit : Z;
  sigop_limit : Z;
}.

(** * Policies *)

Record SizePolicy := mkPolicy {
  current_size : Z;
  max_size : Z;
  size_buffer : Z;
  finish_counter : Z;
  finish_limit : Z;
}.

Inductive NextStep := Append | FinishAndAppend | Ignore | FinishAndIgnore.

Definition next_step_and (self other : NextStep) : NextStep :=
  match self, other with
  | _, FinishAndIgnore | FinishAndIgnore, _ | FinishAndAppend, Ignore | Ignore, FinishAndAppend => FinishAndIgnore
  | Ignore, _ | _, Ignore => Ignore
  | _, FinishAndAppend | FinishAndAppend, _ => FinishAndAppend
  | Append, Append => Append
  end.

Definition policy_new (current_size max_size size_buffer finish_limit : Z) : SizePolicy :=
  mkPolicy current_size max_size size_buffer 0 finish_limit.

Definition decide_step {E} (self : SizePolicy) (size : Z) : outcome E (NextStep * SizePolicy) :=
  buffered ← ucheck 32 (current_size self + size_buffer self);
  let finishing := max_size self <? buffered in
  total ← ucheck 32 (current_size self + size);
  let fits := total <=? max_size self in
  next ← ucheck 32 (finish_counter self + 1);
  let finish := finish_limit self <=? next in
  let self := if finishing then mkPolicy (current_size self) (max_size self) (size_buffer self) next (finish_limit self)
              else self in
  Ok (match fits, finish with
      | true, true => FinishAndAppend
      | true, false => Append
      | false, true => FinishAndIgnore
      | false, false => Ignore
      end, self).

Definition apply {E} (self : SizePolicy) (size : Z) : outcome E SizePolicy :=
  total ← ucheck 32 (current_size self + size);
  Ok (mkPolicy total (max_size self) (size_buffer self) (finish_counter self) (finish_limit self)).

(** * The iterator over transactions that fit *)

Record FittingTransactionsIterator := mkFitting {
  fit_store : TransactionOutputProvider;
  fit_iter : MemoryPoolIterator;
  fit_block_height : Z;
  fit_block_time : Z;
  fit_checkdatasig_active : bool;
  fit_block_size : SizePolicy;
  fit_sigops : SizePolicy;
  previous_entries : list Entry;
  ignored : gset bytes;
  finished : bool;
}.

Definition fitting_new (store : TransactionOutputProvider) (it : MemoryPoolIterator)
    (max_block_size max_block_sigops block_height block_time : Z) (checkdatasig_active : bool) : FittingTransactionsIterator :=
  mkFitting store it block_height block_time checkdatasig_active
    (policy_new (BLOCK_HEADER_SIZE + 4) max_block_size 1000 50) (policy_new 0 max_block_sigops 8 50) [] ∅ false.

(** The iterator as a provider: outputs of the store, then of the entries before.
    [is_spent] is not implemented there; counting signature operations does not ask. *)
Definition fitting_provider (self : FittingTransactionsIterator) : TransactionOutputProvider := {|
  transaction_output := fun prevout transaction_index =>
    match transaction_output (fit_store self) prevout transaction_index with
    | Some o => Some o
    | None =>
        e ← List.find (fun e => bool_decide (hash e = op_hash prevout)) (previous_entries self);
        outputs (transaction e) !! Z.to_nat (op_index prevout)
    end;
  is_spent := fun _ => false;
|}.

Section next.
Context `{HashOrder} {E : Type}.

Definition with_policies (self : FittingTransactionsIterator) (it : MemoryPoolIterator) (block_size sigops : SizePolicy)
    : FittingTransactionsIterator :=
  mkFitting (fit_store self) it (fit_block_height self) (fit_block_time self) (fit_checkdatasig_active self)
    block_size sigops (previous_entries self) (ignored self) (finished self).

(** The arms that append; both policies are given the size of the transaction. *)
Definition append_entry (self : FittingTransactionsIterator) (entry : Entry) (transaction_size : Z) (finish : bool)
    : outcome E FittingTransactionsIterator :=
  block_size ← apply (fit_block_size self) transaction_size;
  sigops ← apply (fit_sigops self) transaction_size;
  Ok (mkFitting (fit_store self) (fit_iter self) (fit_block_height self) (fit_block_time self) (fit_checkdatasig_active self)
        block_size sigops (previous_entries self ++ [entry]) (ignored self) finish).

Definition finish (self : FittingTransactionsIterator) (ignored' : gset bytes) : FittingTransactionsIterator :=
  mkFitting (fit_store self) (fit_iter self) (fit_block_height self) (fit_block_time self) (fit_checkdatasig_active self)
    (fit_block_size self) (fit_sigops self) (previous_entries self) ignored' true.

Fixpoint fitting_next (fuel : nat) (self : FittingTransactionsIterator)
    : outcome E (option Entry * FittingTransactionsIterator) :=
  match fuel with
  | O => Diverge
  | S fuel =>
      if finished self then Ok (None, self) else
      '(next, it) ← iter_next (fit_iter self);
      match next with
      | None => Ok (None, finish (with_policies self it (fit_block_size self) (fit_sigops self)) (ignored self))
      | Some entry =>
          let transaction_size := wrap 32 (entry_size entry) in
          let bip16_active := true in
          sigops_count ← transaction_sigops (transaction entry) (fitting_provider self) bip16_active (fit_checkdatasig_active self);
          let sigops_count := wrap 32 sigops_count in
          '(size_step, block_size) ← decide_step (fit_block_size self) transaction_size;
          '(sigops_step, sigops) ← decide_step (fit_sigops self) sigops_count;
          let self := with_policies self it block_size sigops in
          if negb (is_final_in_block (transaction entry) (fit_block_height self) (fit_block_time self)) then fitting_next fuel self else
          if negb (bool_decide (ignored self = ∅)) &&
             existsb (fun input => bool_decide (op_hash (previous_output input) ∈ ignored self)) (inputs (transaction entry))
          then fitting_next fuel self else
          match next_step_and size_step sigops_step with
          | Append => self ← append_entry self entry transaction_size false; Ok (Some entry, self)
          | FinishAndAppend => self ← append_entry self entry transaction_size true; Ok (Some entry, self)
          | Ignore => fitting_next fuel self
          | FinishAndIgnore => fitting_next fuel (finish self ({[hash entry]} ∪ ignored self))
          end
      end
  end.

(** [for entry in tx_iter]; the transactions and the value of the coinbase so far. *)
Fixpoint collect (fuel : nat) (tx_iter : FittingTransactionsIterator) (coinbase_value : Z) (transactions : list IndexedTransaction)
    : outcome E (Z * list IndexedTransaction) :=
  match fuel with
  | O => Diverge
  | S fuel' =>
      '(next, tx_iter) ← fitting_next fuel tx_iter;
      match next with
      | None => Ok (coinbase_value, transactions)
      | Some entry =>
          coinbase_value ← ucheck 64 (coinbase_value + wrap 64 (miner_fee entry));
          collect fuel' tx_iter coinbase_value (transactions ++ [mkIndexedTx (hash entry) (transaction entry)])
      end
  end.

End next.

(** * Assembly *)

Section assembler.
Context `{HashOrder} `{U256} `{BitVec} {E : Type}.

Record BlockAssembler := mkAssembler { max_block_size : Z; max_block_sigops : Z }.

(** [sort_unstable_by] of the hashes. *)
Definition sort_canonical (transactions : list IndexedTransaction) : outcome E (list IndexedTransaction) :=
  sort_by (fun tx1 tx2 => Ok (hash_cmp (itx_hash tx1) (itx_hash tx2))) transactions.

Definition template_checkdatasig (consensus : ConsensusParams) (median_timestamp : Z) : bool :=
  match fork consensus with
  | BitcoinCash f => magnetic_anomaly_time f <=? median_timestamp
  | _ => false
  end.

(** Both loops take one more step than there are entries in the pool. *)
Definition create_new_block (self : BlockAssembler) (store : Store) (mempool : Pool) (time median_timestamp : Z)
    (consensus : ConsensusParams) : outcome E BlockTemplate :=
  let previous_header_hash := bb_hash (best_block store) in
  height ← ucheck 32 (bb_number (best_block store) + 1);
  bits ← @work_required _ (as_block_header_provider store) E previous_header_hash time height consensus;
  let tx_iter := fitting_new (as_transaction_output_provider store) (iter mempool ByTransactionScore)
    (max_block_size self) (max_block_sigops self) height time (template_checkdatasig consensus median_timestamp) in
  '(coinbase_value, transactions) ← collect (S (size (by_hash (storage mempool)))) tx_iter (block_reward_satoshi height) [];
  median_time_past ← @median_timestamp_inclusive (as_block_header_provider store) E previous_header_hash;
  transactions ← (match transaction_ordering (fork consensus) median_time_past with
                  | Canonical => sort_canonical transactions
                  | Topological => Ok transactions
                  end);
  Ok (mkTemplate BLOCK_VERSION previous_header_hash time bits height transactions coinbase_value
        (max_block_size self) (max_block_sigops self)).

End assembler.
End BlockAssembler.
