(* ===== verification/BlockAssemblerSpec.v ===== *)
(** Reading the memory pool in order, and block templates
    (src/miner/src/memory_pool.rs, src/miner/src/block_assembler.rs): the iterator of the
    pool gives what removing would give, and a template holds entries of the pool within
    the limit of the block size. *)
From Stdlib Require Import ZArith Lia Strings.Byte Sorted.
From stdpp Require Import base decidable numbers countable gmap list relations sorting.
From S2P Require Import Prelude Crypto Serialization Chain ChainHash U256 Compact Network Work Storage Verify Accept AcceptSpec ChainVerifier.
From S2P Require Import MemoryPool MemoryPoolInv MemoryPoolSpec BlockAssembler.

Local Open Scope Z_scope.

Module BlockAssemblerSpec.
Import Ser Chain ChainHash Network Work Storage Verify Accept AcceptSpec ChainVerifier MemoryPool MemoryPoolInv MemoryPoolSpec BlockAssembler.

(** * Iterating over the pool *)

(** What is left of a pool when an iterator has passed some entries. *)
Definition rest_of (pool : gmap bytes Entry) (removed : gset bytes) : gmap bytes Entry :=
  filter (fun p => p.1 ∉ removed) pool.

Lemma rest_of_lookup pool removed h :
  rest_of pool removed !! h = if decide (h ∈ removed) then None else pool !! h.
Proof.
  unfold rest_of. case_decide as Hd.
  - apply map_lookup_filter_None. right. intros x _ Hn. by apply Hn.
  - destruct (pool !! h) as [e|] eqn:He.
    + by apply map_lookup_filter_Some.
    + apply map_lookup_filter_None. by left.
Qed.

Lemma rest_of_delete pool removed h : rest_of pool ({[h]} ∪ removed) = delete h (rest_of pool removed).
Proof.
  apply map_eq. intros k. destruct (decide (k = h)) as [->|Hne].
  - rewrite lookup_delete_eq, rest_of_lookup. case_decide; set_solver.
  - rewrite lookup_delete_ne, !rest_of_lookup by done. repeat case_decide; set_solver.
Qed.

Lemma has_in_pool_ancestors_rest pool removed tx :
  has_in_pool_ancestors (Some removed) pool tx = has_in_pool_ancestors None (rest_of pool removed) tx.
Proof.
  apply eq_true_iff_eq. rewrite !has_in_pool_ancestors_spec. setoid_rewrite rest_of_lookup.
  split; intros (p & Hp & Hs & Hr); exists p; (split; [done|]); case_decide; try done; by destruct Hs.
Qed.

Section iterate.
Context `{HashOrder} {E : Type} (inputs_of : bytes -> list bytes).

Lemma promote_rest pool removed ds self :
  Forall (fun d => hash d ∉ removed) ds ->
  promote (E := E) (Some removed) pool self ds = promote None (rest_of pool removed) self ds.
Proof.
  intros Hds. revert self. induction Hds as [|d ds Hd Hds IH]; intros self; [done|]. cbn [promote].
  rewrite has_in_pool_ancestors_rest, rest_of_lookup, decide_False by done.
  destruct (negb _); [|by rewrite !ok_bind, IH]. destruct (pool !! hash d); [|by rewrite !ok_bind, IH].
  destruct (insert_to_orderings _ _) as [o| | |]; cbn; [apply IH|done..].
Qed.

(** The iterator [it] stands for the storage [s] of a pool from which what it has
    passed was removed; what has been passed has no parent that is left. *)
Record iterates (it : MemoryPoolIterator) (s : PoolStorage) : Prop := {
  it_rest : by_hash s = rest_of (by_hash (storage (iter_pool it))) (iter_removed it);
  it_references : iter_references it = references s;
  it_inv : inv inputs_of s;
  it_entries h e : by_hash (storage (iter_pool it)) !! h = Some e -> hash e = h /\ parents (transaction e) = inputs_of h;
  it_passed h e p : h ∈ iter_removed it -> by_hash (storage (iter_pool it)) !! h = Some e ->
    p ∈ parents (transaction e) -> by_hash s !! p = None;
}.

Lemma iterates_start self strategy : inv inputs_of (storage self) -> iterates (iter self strategy) (storage self).
Proof.
  intros Hi. pose proof (inv_entries _ _ Hi) as Hw. split; cbn.
  - apply map_eq. intros h. by rewrite rest_of_lookup, decide_False by set_solver.
  - done.
  - done.
  - intros h e He. split; [by eapply (pool_hash _ _ _ Hw)|by eapply (pool_inputs _ _ _ Hw)].
  - set_solver.
Qed.

Lemma references_remove_rest it s e :
  iterates it s -> ready (by_hash s) e ->
  references_remove (E := E) (iter_references it) (Some ({[hash e]} ∪ iter_removed it)) (by_hash (storage (iter_pool it))) e =
  references_remove (references s) None (delete (hash e) (by_hash s)) e.
Proof.
  intros [Hr Href Hi He Hp] [Hes Hpar]. unfold references_remove. rewrite Href, Hr, <- rest_of_delete.
  set (pool := by_hash (storage (iter_pool it))) in *. set (removed := {[hash e]} ∪ iter_removed it).
  destruct (by_input (references s) !! hash e) as [dset|] eqn:Hd; [|done].
  assert (omap (fun h => pool !! h) (hash_iter dset) = omap (fun h => rest_of pool removed !! h) (hash_iter dset) /\
    Forall (fun d => hash d ∉ removed) (omap (fun h => pool !! h) (hash_iter dset))) as [Hom Hall].
  { assert (Forall (fun h => is_Some (pool !! h) -> h ∉ removed) (hash_iter dset)) as Hf.
    { apply Forall_forall. intros h Hh [x Hx] Hin. rewrite hash_iter_perm, elem_of_elements in Hh.
      assert (hash e ∈ inputs_of h) as Hc by (apply (proj2 (inv_children _ _ Hi)); by rewrite Hd).
      rewrite <- (proj2 (He _ _ Hx)) in Hc. apply elem_of_union in Hin as [->%elem_of_singleton|Hin].
      - rewrite Hr, rest_of_lookup in Hes. case_decide; [done|]. rewrite Hes in Hx. injection Hx as <-.
        specialize (Hpar _ Hc). rewrite Hr, rest_of_lookup in Hpar. rewrite decide_False in Hpar by done. by rewrite Hpar in Hes.
      - rewrite (Hp h x (hash e) Hin Hx Hc) in Hes. done. }
    induction Hf as [|h l Hh Hf IH]; [done|]. destruct IH as [IH1 IH2]. cbn. rewrite rest_of_lookup.
    destruct (pool !! h) as [x|] eqn:Hx.
    - rewrite decide_False by (by apply Hh). split; [by f_equal|]. constructor; [|done].
      rewrite (proj1 (He _ _ Hx)). by apply Hh.
    - by case_decide. }
  rewrite promote_rest, Hom by done. done.
Qed.

(** One step of the iterator is one removal. *)
Lemma iter_next_spec it s :
  iterates it s ->
  (by_hash s = ∅ /\ iter_next (E := E) it = Ok (None, it) /\
     storage_remove_with_strategy (E := E) s (iter_strategy it) = Ok (None, s)) \/
  (exists e it' s', ready (by_hash s) e /\ by_hash (storage (iter_pool it)) !! hash e = Some e /\
     iter_next (E := E) it = Ok (Some e, it') /\
     storage_remove_with_strategy (E := E) s (iter_strategy it) = Ok (Some (mkIndexedTx (hash e) (transaction e)), s') /\
     iterates it' s' /\ by_hash s' = delete (hash e) (by_hash s) /\
     iter_pool it' = iter_pool it /\ iter_strategy it' = iter_strategy it).
Proof.
  intros Hit. pose proof (it_inv _ _ Hit) as Hi. pose proof (inv_entries _ _ Hi) as Hw.
  destruct (inv_ordered _ _ Hi) as (R & Hk & Hn & HR & _). unfold storage_remove_with_strategy, iter_next. rewrite (it_references _ _ Hit).
  destruct (read_top_spec (E := E) R (ordered (references s)) (iter_strategy it) Hk) as [[-> ->]|(e & He & ->)].
  { apply Forall_forall. intros x Hx. apply HR in Hx as [Hx _]. by eapply (pool_small _ _ _ Hw). }
  { left. split; [|done]. destruct (decide (by_hash s = ∅)) as [|Hne]; [done|].
    destruct (ready_exists _ _ _ Hw Hne) as [e He%HR]. by apply not_elem_of_nil in He. }
  right. apply HR in He. rewrite !ok_bind.
  assert (by_hash (storage (iter_pool it)) !! hash e = Some e /\ hash e ∉ iter_removed it) as [Hpool Hnot].
  { destruct He as [He _]. rewrite (it_rest _ _ Hit), rest_of_lookup in He. by case_decide. }
  destruct (remove_by_hash_spec (E := E) inputs_of s (hash e) e Hi (proj1 He)) as (s' & Hr & Hi' & Hb & _).
  assert (references_remove (references s) None (delete (hash e) (by_hash s)) e = Ok (E := E) (references s')) as Href.
  { unfold storage_remove_by_hash in Hr. rewrite (proj1 He) in Hr.
    apply bind_Ok in Hr as (? & _ & Hr). apply bind_Ok in Hr as (? & _ & Hr). apply bind_Ok in Hr as (r & Hrr & Hr).
    injection Hr as <-. exact Hrr. }
  rewrite Hpool, Hr, <- (it_references _ _ Hit). cbn [expect]. rewrite !ok_bind, (references_remove_rest it s e Hit He), Href, !ok_bind.
  eexists e, _, s'. split_and!; try done. split; cbn.
  - by rewrite rest_of_delete, Hb, (it_rest _ _ Hit).
  - done.
  - done.
  - by apply (it_entries _ _ Hit).
  - intros h x p Hin Hx Hp. rewrite Hb. apply lookup_delete_None. right. apply elem_of_union in Hin as [->%elem_of_singleton|Hin].
    + rewrite Hpool in Hx. injection Hx as <-. by apply He.
    + by eapply (it_passed _ _ Hit).
Qed.

(** All that an iterator gives. *)
Inductive yields : MemoryPoolIterator -> list Entry -> Prop :=
| yields_nil it : iter_next (E := E) it = Ok (None, it) -> yields it []
| yields_cons it e it' es : iter_next (E := E) it = Ok (Some e, it') -> yields it' es -> yields it (e :: es).

Definition entry_tx (e : Entry) : IndexedTransaction := mkIndexedTx (hash e) (transaction e).

Lemma iterates_yields it s :
  iterates it s ->
  exists es, yields it es /\ length es = size (by_hash s) /\ entries_of (by_hash s) (map entry_tx es) /\
    parents_first (by_hash s) (map entry_tx es) /\ Forall (fun e => by_hash s !! hash e = Some e) es /\
    es ≡ₚ map snd (map_to_list (by_hash s)) /\
    (forall n, exists s', storage_remove_n_with_strategy (E := E) s n (iter_strategy it) = Ok (map entry_tx (take n es), s')).
Proof.
  remember (size (by_hash s)) as m eqn:Hm. revert it s Hm. induction m as [|m IH]; intros it s Hm Hit;
    destruct (iter_next_spec it s Hit) as [(Hb & Hn & Hr)|(e & it' & s' & He & Hpool & Hn & Hr & Hit' & Hb & _ & Hst)].
  - exists []. rewrite Hb. split_and!; try done; [by constructor|split; [constructor|set_solver]|by intros []|].
    intros [|n]; exists s; [done|]. cbn. by rewrite Hr.
  - exfalso. symmetry in Hm. apply map_size_empty_inv in Hm. destruct He as [He _]. by rewrite Hm in He.
  - by rewrite Hb, map_size_empty in Hm.
  - destruct (IH it' s') as (es & Hy & Hl & Hof & Hpf & Hall & Hperm & Hrem); [rewrite Hb, map_size_delete, (proj1 He); lia|done|].
    rewrite Hb in *. exists (e :: es). split_and!.
    + by eapply yields_cons.
    + cbn. lia.
    + by apply entries_of_cons; [apply He|].
    + by apply parents_first_cons.
    + constructor; [apply He|]. eapply Forall_impl; [exact Hall|]. cbn. by intros x [_ Hx]%lookup_delete_Some.
    + rewrite Hperm, <- (map_to_list_delete _ _ _ (proj1 He)). done.
    + intros [|n]; [by exists s|]. destruct (Hrem n) as [s2 Hs2]. exists s2. cbn. rewrite Hr, ok_bind, <- Hst, Hs2. done.
Qed.

Lemma yields_take n it es : yields it es -> iter_take (E := E) n it = Ok (take n es).
Proof.
  intros Hy. revert n. induction Hy as [it Hn|it e it' es Hn Hy IH]; intros [|n]; try done; cbn; rewrite Hn, ok_bind; [done|].
  by rewrite IH, ok_bind.
Qed.

(** In every pool the node reaches, reading entries in the order of a strategy, which
    leaves the pool as it is, gives the hashes of what removing as many would give. *)
Theorem read_n_is_remove_n zero_fee self n strategy :
  rtc (pool_step (E := E) inputs_of) (pool_start zero_fee) self ->
  exists txs self', remove_n_with_strategy (E := E) self n strategy = Ok (txs, self') /\
    read_n_with_strategy (E := E) self n strategy = Ok (map itx_hash txs).
Proof.
  intros Hreach%pool_reachable_inv. pose proof (iterates_start self strategy Hreach) as Hit.
  destruct (iterates_yields _ _ Hit) as (es & Hy & _ & _ & _ & _ & _ & Hrem). destruct (Hrem n) as [s' Hs'].
  exists (map entry_tx (take n es)), (with_storage self s'). unfold remove_n_with_strategy, read_n_with_strategy.
  cbn [iter_strategy iter] in Hs'. rewrite Hs', (yields_take _ _ _ Hy), !ok_bind. split; [done|].
  by rewrite map_map.
Qed.

End iterate.

(** * Policies *)

Definition appends (step : NextStep) : bool :=
  match step with Append | FinishAndAppend => true | Ignore | FinishAndIgnore => false end.
Definition finishes (step : NextStep) : bool :=
  match step with FinishAndAppend | FinishAndIgnore => true | Append | Ignore => false end.

(** A transaction is appended when both policies agree, and the block is finished when
    one of them says so. *)
Lemma next_step_and_spec a b :
  appends (next_step_and a b) = appends a && appends b /\ finishes (next_step_and a b) = finishes a || finishes b.
Proof. by destruct a, b. Qed.

(** A policy whose sums do not overflow with [total] more to come in [count] steps. *)
Record roomy (p : SizePolicy) (total count : Z) : Prop := {
  roomy_current : 0 <= current_size p;
  roomy_buffer : 0 <= size_buffer p <= 1000;
  roomy_total : current_size p + total + 1000 < 2 ^ 32;
  roomy_counter : 0 <= finish_counter p;
  roomy_count : finish_counter p + count < 2 ^ 32;
}.

Lemma roomy_le p total count total' count' :
  roomy p total count -> 0 <= total' <= total -> count' <= count -> roomy p total' count'.
Proof. intros [] ? ?. split; lia. Qed.

Lemma decide_step_spec {E} p size total count :
  roomy p total count -> 0 <= size <= total -> 0 < count ->
  exists step p', decide_step (E := E) p size = Ok (step, p') /\ appends step = (current_size p + size <=? max_size p) /\
    finishes step = (finish_limit p <=? finish_counter p + 1) /\
    current_size p' = current_size p /\ max_size p' = max_size p /\ roomy p' total (count - 1).
Proof.
  intros [] Hs Hc. unfold decide_step. rewrite !ucheck_Ok, !ok_bind by (unfold uint; lia).
  eexists _, _. split; [done|]. split_and!.
  - by destruct (_ <=? _), (_ <=? _).
  - by destruct (_ <=? _), (_ <=? _).
  - by destruct (_ <? _).
  - by destruct (_ <? _).
  - destruct (_ <? _); split; cbn; lia.
Qed.

Lemma apply_spec {E} p size total count :
  roomy p total count -> 0 <= size <= total ->
  exists p', apply (E := E) p size = Ok p' /\ current_size p' = current_size p + size /\ max_size p' = max_size p /\
    roomy p' (total - size) count.
Proof.
  intros [] Hs. unfold apply. rewrite ucheck_Ok, ok_bind by (unfold uint; lia). eexists. split; [done|].
  split_and!; [done..|]. split; cbn; lia.
Qed.

(** * Transactions that fit *)

Section fitting.
Context `{HashOrder} {E : Type}.

(** The signature operations of the entry can be counted, whatever it spends. *)
Definition counts (checkdatasig_active : bool) (e : Entry) : Prop :=
  forall store, exists n, transaction_sigops (E := E) (transaction e) store true checkdatasig_active = Ok n /\ 0 <= n < 2 ^ 31.

Record fitting_inv (self : FittingTransactionsIterator) (es : list Entry) : Prop := {
  fit_yields : finished self = false -> yields (E := E) (fit_iter self) es;
  fit_room : roomy (fit_block_size self) (sumZ entry_size es) (zlen es);
  fit_sigops_room : roomy (fit_sigops self) (sumZ entry_size es + 2 ^ 31) (zlen es);
  fit_entries : Forall (fun e => 0 < entry_size e /\ counts (fit_checkdatasig_active self) e) es;
}.

(** What does not change while entries are looked at. *)
Definition same_block (self self' : FittingTransactionsIterator) : Prop :=
  fit_block_height self' = fit_block_height self /\ fit_block_time self' = fit_block_time self /\
  max_size (fit_block_size self') = max_size (fit_block_size self).

Lemma sumZ_sizes_nonneg es (P : Entry -> Prop) : Forall (fun e => 0 < entry_size e /\ P e) es -> 0 <= sumZ entry_size es.
Proof. unfold sumZ. induction 1 as [|e es [He _] _ IH]; cbn; lia. Qed.

(** A call of [next] ends, and gives an entry of [es] that fits, or none. *)
Definition fits_next (self : FittingTransactionsIterator) (es : list Entry)
    (r : outcome E (option Entry * FittingTransactionsIterator)) : Prop :=
  (exists self', r = Ok (None, self')) \/
  (exists skipped e rest self', es = skipped ++ e :: rest /\ r = Ok (Some e, self') /\ fitting_inv self' rest /\ same_block self self' /\
     is_final_in_block (transaction e) (fit_block_height self) (fit_block_time self) = true /\
     current_size (fit_block_size self') = current_size (fit_block_size self) + entry_size e /\
     current_size (fit_block_size self') <= max_size (fit_block_size self')).

Lemma fits_next_skip self self2 e es r :
  same_block self self2 -> current_size (fit_block_size self2) = current_size (fit_block_size self) ->
  fits_next self2 es r -> fits_next self (e :: es) r.
Proof.
  intros (Hh & Ht & Hm) Hc [?|(sk & x & rest & self' & -> & Hx & Hi & (Hh' & Ht' & Hm') & Hfi & Hc' & Hle)]; [by left|right].
  exists (e :: sk), x, rest, self'. rewrite <- Hh, <- Ht, <- Hc. unfold same_block. rewrite <- Hh, <- Ht, <- Hm. done.
Qed.

(** Both policies decide on the first entry. *)
Lemma fitting_decide self e es it :
  fitting_inv self (e :: es) -> yields (E := E) it es ->
  exists n st1 p1 st2 p2,
    transaction_sigops (transaction e) (fitting_provider self) true (fit_checkdatasig_active self) = Ok (E := E) n /\
    wrap 32 (entry_size e) = entry_size e /\
    decide_step (E := E) (fit_block_size self) (entry_size e) = Ok (st1, p1) /\ decide_step (E := E) (fit_sigops self) (wrap 32 n) = Ok (st2, p2) /\
    (appends (next_step_and st1 st2) = true -> current_size p1 + entry_size e <= max_size p1) /\
    current_size p1 = current_size (fit_block_size self) /\ max_size p1 = max_size (fit_block_size self) /\
    roomy p1 (sumZ entry_size (e :: es)) (zlen es) /\ roomy p2 (sumZ entry_size (e :: es) + 2 ^ 31) (zlen es) /\ 0 < entry_size e /\
    Forall (fun e => 0 < entry_size e /\ counts (fit_checkdatasig_active self) e) es.
Proof.
  intros [_ Hr Hs He] Hy. inversion He as [|? ? [Hpos Hcount] He']; subst. pose proof (sumZ_sizes_nonneg _ _ He') as Hnn.
  assert (sumZ entry_size (e :: es) = entry_size e + sumZ entry_size es) as Hsum by done.
  pose proof (roomy_total _ _ _ Hr) as Hlim. pose proof (roomy_current _ _ _ Hr) as Hcur.
  destruct (Hcount (fitting_provider self)) as (n & Hn & Hnb).
  destruct (decide_step_spec (E := E) _ (entry_size e) _ _ Hr) as (st1 & p1 & H1 & Ha1 & _ & Hc1 & Hm1 & Hr1); [lia|cbn [length]; lia|].
  destruct (decide_step_spec (E := E) _ n _ _ Hs) as (st2 & p2 & H2 & _ & _ & _ & _ & Hr2); [lia|cbn [length]; lia|].
  exists n, st1, p1, st2, p2. rewrite (wrap_uint 32 (entry_size e)), (wrap_uint 32 n) by (unfold uint; lia).
  replace (zlen (e :: es) - 1) with (zlen es) in * by (cbn [length]; lia). split_and!; try done.
  rewrite (proj1 (next_step_and_spec st1 st2)), Ha1, andb_true_iff, Hc1, Hm1. by intros [?%Z.leb_le _].
Qed.

Lemma fitting_append self e es finish :
  roomy (fit_block_size self) (sumZ entry_size (e :: es)) (zlen es) -> roomy (fit_sigops self) (sumZ entry_size (e :: es) + 2 ^ 31) (zlen es) ->
  0 < entry_size e -> Forall (fun e => 0 < entry_size e /\ counts (fit_checkdatasig_active self) e) es ->
  yields (E := E) (fit_iter self) es ->
  exists self', append_entry (E := E) self e (entry_size e) finish = Ok self' /\ fitting_inv self' es /\ same_block self self' /\
    current_size (fit_block_size self') = current_size (fit_block_size self) + entry_size e.
Proof.
  intros Hr Hs Hpos He Hy. pose proof (sumZ_sizes_nonneg _ _ He) as Hn.
  change (sumZ entry_size (e :: es)) with (entry_size e + sumZ entry_size es) in *.
  destruct (apply_spec (E := E) _ (entry_size e) _ _ Hr) as (p & Hp & Hpc & Hpm & Hpr); [lia|].
  destruct (apply_spec (E := E) _ (entry_size e) _ _ Hs) as (q & Hq & _ & _ & Hqr); [lia|].
  unfold append_entry. rewrite Hp, Hq, !ok_bind. eexists. split; [done|]. split; [|done]. split; cbn; [done| | |done].
  - eapply roomy_le; [exact Hpr|lia..].
  - eapply roomy_le; [exact Hqr|lia..].
Qed.

Lemma fitting_next_spec fuel self es :
  (length es < fuel)%nat -> fitting_inv self es -> fits_next self es (fitting_next fuel self).
Proof.
  revert fuel self. induction es as [|e es IH]; intros [|fuel] self Hf Hi; cbn [length] in Hf; try lia; cbn [fitting_next];
    (destruct (finished self) eqn:Hfin; [by left; eexists|]); pose proof (fit_yields _ _ Hi Hfin) as Hy;
    inversion Hy as [? Hn|? ? it ? Hn Hy']; subst; rewrite Hn, ok_bind; [by left; eexists|].
  destruct (fitting_decide _ _ _ it Hi Hy') as (n & st1 & p1 & st2 & p2 & -> & -> & H1 & H2 & Hfit & Hc & Hm & Hr1 & Hr2 & Hpos & He).
  rewrite ok_bind, H1, ok_bind, H2, ok_bind. set (self1 := with_policies self it p1 p2). pose proof (sumZ_sizes_nonneg _ _ He) as Hnn.
  assert (roomy p1 (sumZ entry_size es) (zlen es) /\ roomy p2 (sumZ entry_size es + 2 ^ 31) (zlen es)) as [Hr1' Hr2'].
  { change (sumZ entry_size (e :: es)) with (entry_size e + sumZ entry_size es) in *. split; (eapply roomy_le; [eassumption|lia..]). }
  assert (fits_next self (e :: es) (fitting_next fuel self1)) as Hskip.
  { eapply fits_next_skip; [..|apply IH; [lia|by split]]; done. }
  destruct (is_final_in_block _ (fit_block_height self1) _) eqn:Hfinal; cbn [negb]; [|done].
  destruct (_ && existsb _ _); [done|].
  destruct (next_step_and st1 st2); try done.
  - destruct (fitting_append self1 e es false) as (self' & -> & Hi' & Hsb & Hc'); [done..|]. rewrite ok_bind. right.
    exists [], e, es, self'. pose proof (Hfit eq_refl). destruct Hsb as (? & ? & ?). cbn in *. unfold same_block. split_and!; try done; congruence || lia.
  - destruct (fitting_append self1 e es true) as (self' & -> & Hi' & Hsb & Hc'); [done..|]. rewrite ok_bind. right.
    exists [], e, es, self'. pose proof (Hfit eq_refl). destruct Hsb as (? & ? & ?). cbn in *. unfold same_block. split_and!; try done; congruence || lia.
  - eapply fits_next_skip; [..|apply IH; [lia|by split]]; done.
Qed.

Lemma collect_spec fuel self es value txs :
  (length es < fuel)%nat -> fitting_inv self es ->
  Forall (fun e => 0 <= miner_fee e) es -> 0 <= value -> value + sumZ miner_fee es < 2 ^ 64 ->
  exists chosen, collect (E := E) fuel self value txs = Ok (value + sumZ miner_fee chosen, txs ++ map entry_tx chosen) /\
    sublist chosen es /\
    Forall (fun e => is_final_in_block (transaction e) (fit_block_height self) (fit_block_time self) = true) chosen /\
    (chosen <> [] -> current_size (fit_block_size self) + sumZ entry_size chosen <= max_size (fit_block_size self)).
Proof.
  revert self es value txs. induction fuel as [|fuel IH]; intros self es value txs Hf Hi Hfee Hv Hb; [lia|]. cbn [collect].
  destruct (fitting_next_spec (S fuel) self es Hf Hi) as [[self' ->]|(sk & e & rest & self' & -> & -> & Hi' & (Hh & Ht & Hm) & Hfi & Hc & Hle)];
    rewrite ok_bind.
  { exists []. cbn. rewrite Z.add_0_r, app_nil_r. split_and!; [done|apply sublist_nil_l|constructor|done]. }
  apply Forall_app in Hfee as [Hfs Hfee]. inversion Hfee as [|? ? Hfe Hfr]; subst.
  assert (0 <= sumZ miner_fee sk /\ 0 <= sumZ miner_fee rest) as [Hs1 Hs2].
  { split; [revert Hfs|revert Hfr]; clear; unfold sumZ; induction 1; cbn; lia. }
  assert (sumZ miner_fee (sk ++ e :: rest) = sumZ miner_fee sk + (miner_fee e + sumZ miner_fee rest)) as Hsum.
  { clear. unfold sumZ. induction sk as [|x sk IH]; cbn; [done|]. rewrite IH. lia. }
  rewrite Hsum in Hb. rewrite (wrap_uint 64) by (unfold uint; lia). rewrite ucheck_Ok, ok_bind by (unfold uint; lia).
  destruct (IH self' rest (value + miner_fee e) (txs ++ [mkIndexedTx (hash e) (transaction e)])) as (chosen & -> & Hsub & Hfin & Hlim);
    [rewrite length_app in Hf; cbn [length] in Hf; lia|done|done|lia|lia|].
  exists (e :: chosen). split_and!.
  - change (sumZ miner_fee (e :: chosen)) with (miner_fee e + sumZ miner_fee chosen). rewrite <- app_assoc, Z.add_assoc. done.
  - by apply sublist_inserts_l, sublist_skip.
  - constructor; [done|]. by rewrite <- Hh, <- Ht.
  - intros _. change (sumZ entry_size (e :: chosen)) with (entry_size e + sumZ entry_size chosen). destruct chosen as [|x chosen].
    + cbn. lia.
    + specialize (Hlim ltac:(done)). lia.
Qed.

End fitting.

(** * Canonical order *)

Lemma hash_cmp_ltb a b :
  match hash_cmp a b with Eq => a = b | Lt => hash_lt a b | Gt => hash_lt b a end.
Proof.
  destruct (hash_cmp a b) eqn:Hc; [by apply hash_cmp_eq| |]; revert b Hc; unfold hash_lt;
    induction a as [|x a IH]; intros [|y b]; cbn; try done;
    destruct (Z.compare_spec (u8 x) (u8 y)) as [Hxy|Hxy|Hxy]; try done; intros Hc.
  - apply orb_true_iff. right. rewrite Hxy, Z.eqb_refl. by apply IH.
  - apply orb_true_iff. left. by apply Z.ltb_lt.
  - apply orb_true_iff. right. rewrite Hxy, Z.eqb_refl. by apply IH.
  - apply orb_true_iff. left. by apply Z.ltb_lt.
Qed.

Section canonical.
Context {E : Type}.
Abbreviation cmp := (fun tx1 tx2 => Ok (E := E) (hash_cmp (itx_hash tx1) (itx_hash tx2))).

Lemma sort_insert_spec x l :
  itx_hash x ∉ map itx_hash l -> StronglySorted hash_lt (map itx_hash l) ->
  exists l', sort_insert cmp x l = Ok l' /\ l' ≡ₚ x :: l /\ StronglySorted hash_lt (map itx_hash l').
Proof.
  induction l as [|y l IH]; intros Hn Hs; cbn [sort_insert].
  { exists [x]. split_and!; [done..|]. by repeat constructor. }
  cbn [map] in Hn, Hs. apply not_elem_of_cons in Hn as [Hxy Hn]. inversion Hs as [|? ? Hs' Hall]; subst.
  pose proof (hash_cmp_ltb (itx_hash y) (itx_hash x)) as Hc. rewrite ok_bind.
  destruct (hash_cmp (itx_hash y) (itx_hash x)); [done| |].
  - destruct (IH Hn Hs') as (l' & -> & Hp & Hs2). rewrite ok_bind. exists (y :: l'). split_and!; [done| |].
    + rewrite Hp. constructor.
    + cbn. constructor; [done|]. rewrite Hp. cbn. by constructor.
  - exists (x :: y :: l). split_and!; [done..|]. cbn. constructor; [done|]. constructor; [done|].
    eapply Forall_impl; [exact Hall|]. intros h Hh. by etrans.
Qed.

Lemma sort_canonical_spec l :
  NoDup (map itx_hash l) ->
  exists l', sort_canonical (E := E) l = Ok l' /\ l' ≡ₚ l /\ StronglySorted hash_lt (map itx_hash l').
Proof.
  unfold sort_canonical. induction l as [|x l IH]; cbn [map sort_by]; intros Hn; [by exists []; repeat constructor|].
  apply NoDup_cons in Hn as [Hx Hn]. destruct (IH Hn) as (l' & -> & Hp & Hs). rewrite ok_bind.
  destruct (sort_insert_spec x l') as (l2 & -> & Hp2 & Hs2); [by rewrite Hp|done|]. exists l2. split_and!; [done|by rewrite Hp2, Hp|done].
Qed.

End canonical.

(** * Templates *)

Section template.
Context `{HashOrder} `{U256} `{BitVec} {E : Type} (inputs_of : bytes -> list bytes).

Lemma median_timestamp_inclusive_Ok (headers : BlockHeaderProvider) h : exists t, @median_timestamp_inclusive headers E h = Ok t.
Proof.
  unfold median_timestamp_inclusive. set (ts := map _ _). case_bool_decide as Hts; [by eexists|]. unfold index.
  destruct (lookup_lt_is_Some_2 (merge_sort Z.le ts) (length ts / 2)) as [z ->]; [|by eexists].
  rewrite (Permutation_length (merge_sort_Permutation Z.le ts)). destruct ts; [done|]. apply Nat.div_lt; simpl; lia.
Qed.

(** The order of a template passes the check of the verifier. *)
Lemma order_template consensus mtp txs :
  NoDup (map itx_hash txs) ->
  exists l, (match transaction_ordering (fork consensus) mtp with
             | Canonical => sort_canonical (E := E) txs | Topological => Ok txs end) = Ok l /\ l ≡ₚ txs /\
    (transaction_ordering (fork consensus) mtp = Topological -> l = txs) /\
    forall header coinbase, BlockTransactionOrdering_check (mkIndexedBlock header (coinbase :: l)) consensus mtp = Ok tt.
Proof.
  intros Hn. unfold BlockTransactionOrdering_check. destruct (transaction_ordering (fork consensus) mtp) eqn:Ho; [by exists txs|].
  destruct (sort_canonical_spec (E := E) txs Hn) as (l & Hl & Hp & Hs). exists l. split_and!; [done|done|done|].
  intros header coinbase. cbn [ib_transactions]. rewrite windows2_drop. cbn [drop]. rewrite drop_0.
  apply StronglySorted_Sorted, Sorted_fmap_hash, (windows2_Sorted (fun a b => hash_ltb (itx_hash a) (itx_hash b))) in Hs. by rewrite Hs.
Qed.

Lemma sublist_map {A B} (f : A -> B) l l' : sublist l l' -> sublist (map f l) (map f l').
Proof. induction 1; cbn; by constructor. Qed.

Definition total_fees (pool : gmap bytes Entry) : Z := sumZ (fun p => miner_fee p.2) (map_to_list pool).

Lemma sumZ_perm {A} (f : A -> Z) l l' : l ≡ₚ l' -> sumZ f l = sumZ f l'.
Proof. unfold sumZ. induction 1; cbn; lia. Qed.

Lemma sumZ_pool (f : Entry -> Z) (pool : gmap bytes Entry) es :
  es ≡ₚ map snd (map_to_list pool) -> sumZ f es = sumZ (fun p => f p.2) (map_to_list pool).
Proof. intros ->%(sumZ_perm f). unfold sumZ. by rewrite map_map. Qed.

(** The limits within which nothing in the assembly overflows. *)
Record assembles (self : BlockAssembler) (store : Store) (mempool : Pool) (time median_timestamp : Z)
    (consensus : ConsensusParams) (bits : Z) : Prop := {
  as_height : 0 <= bb_number (best_block store) + 1 < 2 ^ 32;
  as_bits : @work_required _ (as_block_header_provider store) E (bb_hash (best_block store)) time
    (bb_number (best_block store) + 1) consensus = Ok bits;
  as_counts : map_Forall (fun _ e => counts (E := E) (template_checkdatasig consensus median_timestamp) e) (pool_of mempool);
  as_sizes : total_size (pool_of mempool) < 2 ^ 31 - 2000;
  as_count : Z.of_nat (size (pool_of mempool)) < 2 ^ 32;
  as_fees : block_reward_satoshi (bb_number (best_block store) + 1) + total_fees (pool_of mempool) < 2 ^ 64;
}.

(** C34: For every pool that is reached by the steps of [pool_step], in which no transaction
    is put in while an entry spends it, a template is made, when the required work can be
    computed, the number, sizes and fees are in range, and the signature operations of
    every entry can be counted ([assembles]).  It holds distinct entries of
    the pool, all of them final in the block, with the header within the size limit; the
    coinbase may claim the reward and all their fees.  They are in the order in which the
    pool is read by score, or, when the chain asks for it, in the canonical order which
    the verifier checks, whatever the coinbase. *)
Theorem template_fits zero_fee self store mempool time median_timestamp consensus bits :
  rtc (pool_step (E := E) inputs_of) (pool_start zero_fee) mempool ->
  assembles self store mempool time median_timestamp consensus bits ->
  exists template chosen es median_time_past,
    create_new_block (E := E) self store mempool time median_timestamp consensus = Ok template /\
    bt_bits template = bits /\ bt_previous_header_hash template = bb_hash (best_block store) /\
    bt_transactions template ≡ₚ map entry_tx chosen /\ NoDup (map itx_hash (bt_transactions template)) /\
    iter_take (E := E) (size (pool_of mempool)) (iter mempool ByTransactionScore) = Ok es /\ sublist chosen es /\
    Forall (fun e => pool_of mempool !! hash e = Some e /\ is_final_in_block (transaction e) (bt_height template) time = true) chosen /\
    (chosen <> [] -> BLOCK_HEADER_SIZE + 4 + sumZ entry_size chosen <= max_block_size self) /\
    coinbase_value template = block_reward_satoshi (bt_height template) + sumZ miner_fee chosen /\
    @median_timestamp_inclusive (as_block_header_provider store) E (bb_hash (best_block store)) = Ok median_time_past /\
    (transaction_ordering (fork consensus) median_time_past = Topological -> bt_transactions template = map entry_tx chosen) /\
    (forall header coinbase, BlockTransactionOrdering_check (mkIndexedBlock header (coinbase :: bt_transactions template))
       consensus median_time_past = Ok tt).
Proof.
  intros Hreach%pool_reachable_inv [Hh Hbits Hc Hsz Hct Hfees]. pose proof (inv_entries _ _ Hreach) as Hw.
  destruct (iterates_yields (E := E) inputs_of _ _ (iterates_start inputs_of mempool ByTransactionScore Hreach))
    as (es & Hy & Hl & [Hnd _] & _ & Hall & Hperm & _). unfold create_new_block. rewrite ucheck_Ok, ok_bind, Hbits, ok_bind by done.
  set (tx_iter := fitting_new _ _ _ _ _ _ _). fold (pool_of mempool) in *.
  assert (sumZ entry_size es = total_size (pool_of mempool)) as Hsum by (by rewrite (sumZ_pool entry_size _ _ Hperm)).
  pose proof (sumZ_pool miner_fee _ _ Hperm) as Hsf. fold (total_fees (pool_of mempool)) in Hsf.
  destruct (collect_spec (E := E) (S (size (pool_of mempool))) tx_iter es (block_reward_satoshi (bb_number (best_block store) + 1)) [])
    as (chosen & -> & Hsub & Hfin & Hlim).
  { lia. }
  { split; [done| | |].
    - split; cbn; unfold BLOCK_HEADER_SIZE; lia.
    - split; cbn; lia.
    - eapply Forall_impl; [exact Hall|]. cbn. intros e He. split; [apply (pool_small _ _ _ Hw) in He as [(_ & _ & ?) _]; lia|by eapply Hc]. }
  { eapply Forall_impl; [exact Hall|]. cbn. intros e He. apply (pool_small _ _ _ Hw) in He as [(? & _ & _) _]. lia. }
  { apply reward_nonneg. } { lia. }
  rewrite ok_bind. destruct (median_timestamp_inclusive_Ok (as_block_header_provider store) (bb_hash (best_block store))) as [mtp Hmtp].
  rewrite Hmtp, ok_bind. cbn [app].
  assert (NoDup (map itx_hash (map entry_tx chosen))) as Hndc.
  { eapply sublist_NoDup; [exact Hnd|]. by apply sublist_map, sublist_map. }
  destruct (order_template consensus mtp _ Hndc) as (l & -> & Hlp & Htop & Hcan). rewrite ok_bind.
  eexists _, chosen, es, mtp. split; [reflexivity|]. cbn. split_and!; try done.
  - by rewrite Hlp.
  - rewrite (yields_take _ _ _ Hy). by rewrite take_ge by lia.
  - apply Forall_and. split; [|done]. apply Forall_forall. intros e He. apply (proj1 (Forall_forall _ _) Hall). by eapply elem_of_sublist.
Qed.

End template.
End BlockAssemblerSpec.

(** * Examples *)

Section witnesses.
Import Chain ChainHash Network Work Storage Verify ChainVerifier ChainVerifierExamples MemoryPool MemoryPoolInv MemoryPoolSpec ExamplePool BlockAssembler BlockAssemblerSpec.
Import ExampleU256 ExampleBits.

Lemma read_n_is_remove_n_witness :
  exists txs self', remove_n_with_strategy (E := unit) example_pool2 5 ByPackageScore = Ok (txs, self') /\
    read_n_with_strategy (E := unit) example_pool2 5 ByPackageScore = Ok (map itx_hash txs).
Proof. apply (read_n_is_remove_n example_inputs false). exact example_pool2_reachable. Defined.

(** Entries without scripts have no signature operations. *)
Lemma counts_no_scripts cds e :
  Forall (fun i => script_sig i = []) (inputs (transaction e)) -> Forall (fun o => script_pubkey o = []) (outputs (transaction e)) ->
  counts (E := unit) cds e.
Proof.
  intros Hi Ho store. exists 0. split; [|lia]. unfold transaction_sigops.
  assert (sum_map (E := unit) (fun o => Script.Script.sigops_count (script_pubkey o) cds false) (outputs (transaction e)) 0 = Ok 0) as ->.
  { induction Ho as [|o l Ho _ IH]; [done|]. cbn. rewrite Ho. exact IH. }
  rewrite ok_bind. destruct (is_coinbase _); [done|].
  assert (input_sigops_loop (E := unit) (inputs (transaction e)) store true cds 0 0 = Ok (0, 0)) as ->; [|done].
  induction Hi as [|i l Hs _ IH]; [done|]. cbn. rewrite Hs. destruct (transaction_output _ _ _); cbn; [|exact IH].
  unfold Script.Script.pay_to_script_hash_sigops. destruct (negb _); cbn; exact IH.
Qed.

Definition example_assembler : BlockAssembler := mkAssembler 1000000 20000.

Lemma example_assembles : assembles (E := unit) example_assembler example_store example_pool2 2000 2000 consensus easy_bits.
Proof.
  split.
  - vm_compute. split; [discriminate|reflexivity].
  - vm_compute. reflexivity.
  - assert (map_Forall (fun _ e => Forall (fun i => script_sig i = []) (inputs (transaction e)) /\
        Forall (fun o => script_pubkey o = []) (outputs (transaction e))) (pool_of example_pool2)) as Hn
      by (apply (bool_decide_eq_true_1 _); vm_compute; reflexivity).
    intros h e He. apply counts_no_scripts; apply (Hn h e He).
  - vm_compute. reflexivity.
  - vm_compute. reflexivity.
  - vm_compute. reflexivity.
Qed.

Lemma template_fits_witness :
  exists template chosen es median_time_past,
    create_new_block (E := unit) example_assembler example_store example_pool2 2000 2000 consensus = Ok template /\
    bt_transactions template ≡ₚ map entry_tx chosen /\
    iter_take (E := unit) (size (pool_of example_pool2)) (iter example_pool2 ByTransactionScore) = Ok es /\ sublist chosen es /\
    (forall header coinbase, Accept.BlockTransactionOrdering_check (mkIndexedBlock header (coinbase :: bt_transactions template))
       consensus median_time_past = Ok tt).
Proof.
  destruct (template_fits (E := unit) example_inputs false example_assembler example_store example_pool2 2000 2000 consensus easy_bits)
    as (template & chosen & es & mtp & Hc & _ & _ & Hp & _ & Hes & Hs & _ & _ & _ & _ & _ & Ho);
    [exact example_pool2_reachable|exact example_assembles|]. exists template, chosen, es, mtp. split_and!; done.
Defined.

(** The policy of signature operations is given the sizes of the transactions.  Both of
    these have 600 signature operations, the limit is 1000, and both are taken. *)
Definition checks (n : byte) : IndexedTransaction :=
  mkIndexedTx (example_hash n)
    (mkTx 1 [mkInput (mkOutPoint (example_hash xaa) (u8 n)) [] 4294967295 []] [mkOutput 1000 (replicate 30 xae)] 0).
Definition checks_pool : Pool := inserted (inserted new (checks x01)) (checks x02).

Theorem template_exceeds_sigops :
  match create_new_block (E := unit) (mkAssembler 1000000 1000) example_store checks_pool 2000 2000 consensus with
  | Ok template => bt_transactions template = [checks x01; checks x02] /\ sigop_limit template = 1000
  | _ => False
  end /\
  transaction_sigops (E := unit) (itx_raw (checks x01)) NoopStore true false = Ok 600 /\
  transaction_sigops (E := unit) (itx_raw (checks x02)) NoopStore true false = Ok 600.
Proof. vm_compute. auto. Qed.

(** A transaction that does not fit is passed over without being remembered, and its
    child, which is in the pool too, is taken. *)
Definition large_parent : IndexedTransaction := example_spender x01 [(xaa, 0)] 20.
Definition large_parent_pool : Pool := inserted (inserted new large_parent) child.

Theorem template_omits_parent :
  match create_new_block (E := unit) (mkAssembler 184 20000) example_store large_parent_pool 2000 2000 consensus with
  | Ok template => bt_transactions template = [child]
  | _ => False
  end /\ contains large_parent_pool (itx_hash large_parent) = true /\
  parents (itx_raw child) = [itx_hash large_parent].
Proof. vm_compute. auto. Qed.

End witnesses.
