(* ===== verification/CpuMiner.v ===== *)
(** The cpu miner (src/miner/src/cpu_miner.rs): the header kept serialized with its
    changing bytes overwritten, the search over nonces and extra nonces, and that the
    search finds the first solution there is, for the header serialized from scratch. *)
From Stdlib Require Import ZArith Lia Strings.Byte.
From stdpp Require Import base decidable numbers countable gmap list.
From S2P Require Import Prelude Crypto Serialization Codec Chain ChainHash U256 Compact Network Work Builder Storage Verify ChainVerifier MemoryPool BlockAssembler.

Local Open Scope Z_scope.

Module CpuMiner.
Import Ser Derive Chain ChainHash Network Work BlockAssembler.

(** [U256::to_little_endian] of the bigint package, into 32 bytes. *)
Class U256Bytes (U : U256) := { u256_to_little_endian : u256 -> bytes }.
Class U256BytesLaws {U : U256} (B : U256Bytes U) (L : U256Laws U) :=
  to_little_endian_spec x : u256_to_little_endian x = le_bytes 32 (uval x).

(** [slice.copy_from_slice(bytes)] on [data[from..to]], and [write_u32] into [data[from..]]. *)
Definition copy_from_slice {E} (data : bytes) (from to : nat) (src : bytes) : outcome E bytes :=
  if (from <=? to)%nat && (to <=? length data)%nat && (to - from =? length src)%nat
  then Ok (take from data ++ src ++ drop to data) else Panic.
Definition write_u32 {E} (data : bytes) (from : nat) (n : Z) : outcome E bytes :=
  if (from <=? length data)%nat && (4 <=? length data - from)%nat
  then Ok (take from data ++ le_bytes 4 n ++ drop (from + 4) data) else Panic.

(** ** BlockHeaderBytes *)

Definition header_bytes_new (version : Z) (previous_header_hash : bytes) (bits : Z) : bytes :=
  let merkle_root_hash := zero_hash in
  let time := 0 in
  let nonce := 0 in
  out (append u32_codec nonce (append u32_codec bits (append u32_codec time
    (append (hash_codec 32) merkle_root_hash (append (hash_codec 32) previous_header_hash
      (append u32_codec version stream_default)))))).

Definition set_merkle_root_hash {E} (data hash : bytes) : outcome E bytes :=
  copy_from_slice data (4 + 32) (4 + 32 + 32) hash.

Definition set_time {E} (data : bytes) (time : Z) : outcome E bytes :=
  write_u32 data (4 + 32 + 32) time.

Definition set_nonce {E} (data : bytes) (nonce : Z) : outcome E bytes :=
  write_u32 data (4 + 32 + 32 + 4 + 4) nonce.

(** ** Coinbase builders *)

Class CoinbaseTransactionBuilder (T : Type) := {
  set_extranonce : forall {E}, T -> bytes -> outcome E T;
  builder_hash : T -> bytes;
  builder_finish : T -> Transaction;
}.

Section miner.
Context `{Crypto} `{U256} `{!U256Bytes _} {T : Type} `{!CoinbaseTransactionBuilder T} {E : Type}.

Record Solution := mkSolution {
  sol_nonce : Z;
  sol_extranonce : u256;
  sol_time : Z;
  sol_coinbase_transaction : Transaction;
}.

Definition header_bytes_hash (data : bytes) : bytes := dhash256 data.

(** The body of the loop over nonces: the nonce that solves, or the next one. *)
Definition try_nonce (bits : Z) (s : Z * bytes) : (Z * bytes) + outcome E Z :=
  let '(nonce, data) := s in
  match set_nonce data (wrap 32 nonce) with
  | Ok data =>
      if is_valid_proof_of_work_hash bits (header_bytes_hash data) then inr (Ok (wrap 32 nonce))
      else inl (nonce + 1, data)
  | Err e => inr (Err e)
  | Panic => inr Panic
  | Diverge => inr Diverge
  end.

(** The header with the root of the template's transactions behind the coinbase. *)
Definition update_root (block : BlockTemplate) (builder : T) (data : bytes) : outcome E bytes :=
  let merkle_tree := builder_hash builder :: map itx_hash (bt_transactions block) in
  root ← merkle_root merkle_tree;
  set_merkle_root_hash data root.

(** The body of the loop over extra nonces, below the test of the loop: the nonce that
    solves, or the bytes that go into the next round; and the builder. *)
Definition search_nonces (block : BlockTemplate) (extranonce : u256) (builder : T) (data : bytes)
    : outcome E (T * (bytes + Z)) :=
  builder ← set_extranonce builder (u256_to_little_endian extranonce);
  data ← update_root block builder data;
  match run 32 (try_nonce (bt_bits block)) (0, data) with
  | inr r => nonce ← r; Ok (builder, inr nonce)
  | inl (_, data) => Ok (builder, inl data)
  end.

Definition try_extranonce (block : BlockTemplate) (max_extranonce : u256) (s : u256 * T * bytes)
    : (u256 * T * bytes) + outcome E (option Solution) :=
  let '(extranonce, builder, data) := s in
  if u256_leb max_extranonce extranonce then inr (Ok None) else
  match search_nonces block extranonce builder data with
  | Ok (builder, inr nonce) =>
      inr (Ok (Some (mkSolution nonce extranonce (bt_time block) (builder_finish builder))))
  | Ok (builder, inl data) =>
      match u256_add extranonce u256_one with
      | Ok extranonce => inl (extranonce, builder, data)
      | Err e => inr (Err e)
      | Panic => inr Panic
      | Diverge => inr Diverge
      end
  | Err e => inr (Err e)
  | Panic => inr Panic
  | Diverge => inr Diverge
  end.

(** The loop over extra nonces makes fewer than [2 ^ 256] rounds. *)
Definition find_solution (block : BlockTemplate) (builder : T) (max_extranonce : u256)
    : outcome E (option Solution) :=
  data ← set_time (header_bytes_new (bt_version block) (bt_previous_header_hash block) (bt_bits block))
           (bt_time block);
  match run 256 (try_extranonce block max_extranonce) (u256_from 0, builder, data) with
  | inr r => r
  | inl _ => Diverge
  end.

(** * What is searched for *)

(** The header of the block that has this coinbase and this nonce, from scratch. *)
Definition mined_header (block : BlockTemplate) (root : bytes) (nonce : Z) : BlockHeader :=
  mkHeader (bt_version block) (bt_previous_header_hash block) root (bt_time block) (bt_bits block) nonce.

Definition solves (block : BlockTemplate) (coinbase : Transaction) (nonce : Z) : Prop :=
  exists root, @merkle_root _ E (transaction_hash coinbase :: map itx_hash (bt_transactions block)) = Ok root /\
    is_valid_proof_of_work_hash (bt_bits block) (block_header_hash (mined_header block root nonce)) = true.

(** The builder after the first [k] extra nonces. *)
Fixpoint builder_at (k : nat) (builder : T) : outcome E T :=
  match k with
  | O => Ok builder
  | S k' => builder ← builder_at k' builder; set_extranonce builder (le_bytes 32 (Z.of_nat k'))
  end.

Definition solves_at (block : BlockTemplate) (builder : T) (extranonce nonce : Z) : Prop :=
  exists t, builder_at (S (Z.to_nat extranonce)) builder = Ok t /\ solves block (builder_finish t) nonce.

Record template_ok (block : BlockTemplate) : Prop := {
  to_version : uint 32 (bt_version block);
  to_previous : length (bt_previous_header_hash block) = 32%nat;
  to_time : uint 32 (bt_time block);
  to_bits : uint 32 (bt_bits block);
  to_hashes : Forall (fun tx => length (itx_hash tx) = 32%nat) (bt_transactions block);
}.

End miner.

(** What a builder promises: it takes any extra nonce, and its hash is that of the
    transaction it finishes with. *)
Class CoinbaseBuilderLaws `{Crypto} T `{CoinbaseTransactionBuilder T} := {
  builder_ok : T -> Prop;
  set_extranonce_ok {E} t bs : builder_ok t -> exists t', @set_extranonce _ _ E t bs = Ok t' /\ builder_ok t';
  builder_hash_ok t : builder_ok t -> builder_hash t = transaction_hash (builder_finish t);
}.

(** * The bytes of the header *)

Definition header_data (h : BlockHeader) : bytes :=
  le_bytes 4 (hd_version h) ++ previous_header_hash h ++ merkle_root_hash h ++
  le_bytes 4 (time h) ++ le_bytes 4 (bits h) ++ le_bytes 4 (nonce h).

Lemma header_data_codec h : to_bytes header_codec h = header_data h.
Proof.
  unfold to_bytes, header_data, header_codec, append. cbn.
  by rewrite <- !app_assoc.
Qed.

Lemma header_bytes_new_data version previous bits :
  header_bytes_new version previous bits = header_data (mkHeader version previous zero_hash 0 bits 0).
Proof. unfold header_bytes_new, header_data. cbn -[le_bytes]. by rewrite <- !app_assoc. Qed.

Lemma overwrite (pre old new post : bytes) from to :
  length pre = from -> (length old = to - from)%nat -> (from <= to)%nat ->
  take from (pre ++ old ++ post) ++ new ++ drop to (pre ++ old ++ post) = pre ++ new ++ post.
Proof.
  intros Hp Ho Hft. rewrite take_app_length' by done.
  rewrite (app_assoc pre old post) at 1. rewrite drop_app_length' by (rewrite length_app; lia).
  done.
Qed.

Section header_data.
Context {E : Type} (h : BlockHeader).
Hypothesis Hp : length (previous_header_hash h) = 32%nat.
Hypothesis Hr : length (merkle_root_hash h) = 32%nat.

Lemma set_merkle_root_hash_data root : length root = 32%nat ->
  @set_merkle_root_hash E (header_data h) root =
  Ok (header_data (mkHeader (hd_version h) (previous_header_hash h) root (time h) (bits h) (nonce h))).
Proof.
  intros Hl. unfold set_merkle_root_hash, copy_from_slice, header_data.
  rewrite !length_app, !length_le_bytes, Hp, Hr, Hl. cbn -[take drop app le_bytes]. f_equal.
  rewrite (app_assoc (le_bytes 4 _)).
  erewrite overwrite; [by rewrite <- !app_assoc| |lia|lia].
  by rewrite length_app, length_le_bytes, Hp.
Qed.

Lemma set_time_data t :
  @set_time E (header_data h) t =
  Ok (header_data (mkHeader (hd_version h) (previous_header_hash h) (merkle_root_hash h) t (bits h) (nonce h))).
Proof.
  unfold set_time, write_u32, header_data.
  rewrite !length_app, !length_le_bytes, Hp, Hr. cbn -[take drop app le_bytes]. f_equal.
  rewrite (app_assoc (le_bytes 4 _)), (app_assoc (_ ++ _)).
  erewrite overwrite; [by rewrite <- !app_assoc| |by rewrite length_le_bytes|lia].
  by rewrite !length_app, length_le_bytes, Hp, Hr.
Qed.

Lemma set_nonce_data n :
  @set_nonce E (header_data h) n =
  Ok (header_data (mkHeader (hd_version h) (previous_header_hash h) (merkle_root_hash h) (time h) (bits h) n)).
Proof.
  unfold set_nonce, write_u32, header_data.
  rewrite !length_app, !length_le_bytes, Hp, Hr. cbn -[take drop app le_bytes]. f_equal.
  rewrite (app_assoc (le_bytes 4 _)), (app_assoc (_ ++ _)), (app_assoc (_ ++ _)), (app_assoc (_ ++ _)).
  rewrite <- (app_nil_r (le_bytes 4 (nonce h))).
  erewrite overwrite; [by rewrite <- !app_assoc, app_nil_r| |by rewrite length_le_bytes|lia].
  by rewrite !length_app, !length_le_bytes, Hp, Hr.
Qed.
End header_data.

Lemma merkle_root_fuel_32 `{CryptoLaws} {E} fuel hashes root :
  Forall (fun h : bytes => length h = 32%nat) hashes ->
  @merkle_root_fuel _ E fuel hashes = Ok root -> length root = 32%nat.
Proof.
  revert hashes. induction fuel as [|fuel IH]; intros hashes Hf Hm; [done|].
  cbn [merkle_root_fuel] in Hm. destruct hashes as [|a [|b l]].
  - eapply IH, Hm. apply next_level_32.
  - injection Hm as <-. by inversion Hf.
  - eapply IH, Hm. apply next_level_32.
Qed.

Lemma merkle_root_32 `{CryptoLaws} {E} hashes : hashes <> [] ->
  Forall (fun h : bytes => length h = 32%nat) hashes ->
  exists root, @merkle_root _ E hashes = Ok root /\ length root = 32%nat.
Proof.
  intros Hne Hf. destruct (merkle_root_fuel_total (E := E) (length hashes) hashes) as (root & Hm); [done..|].
  exists root. split; [done|]. by eapply merkle_root_fuel_32.
Qed.

(** * The two loops *)

Lemma run_rounds {S R} n (body : S -> S + R) s :
  exists m, Z.of_nat m = 2 ^ Z.of_nat n /\ run n body s = loop m body s.
Proof. exists (2 ^ n)%nat. split; [by rewrite Nat2Z.inj_pow|apply run_loop]. Qed.

Section search.
Context `{CryptoLaws} `{U256Laws} `{!U256Bytes _} `{!U256BytesLaws _ _}.
Context {T : Type} `{!CoinbaseTransactionBuilder T} `{!CoinbaseBuilderLaws T} {E : Type}.
Context (block : BlockTemplate).
Hypothesis Hok : template_ok block.

(** The hash of the header with this root and this nonce is a proof of work. *)
Definition works (root : bytes) (nonce : Z) : bool :=
  is_valid_proof_of_work_hash (bt_bits block) (block_header_hash (mined_header block root nonce)).

Lemma nonces_loop root m k n0 : length root = 32%nat -> 0 <= k -> k + Z.of_nat m <= 2 ^ 32 ->
  (exists n, k <= n < k + Z.of_nat m /\ works root n = true /\ (forall n', k <= n' < n -> works root n' = false) /\
     loop m (try_nonce (bt_bits block)) (k, header_data (mined_header block root n0)) = inr (@Ok E _ n)) \/
  ((forall n', k <= n' < k + Z.of_nat m -> works root n' = false) /\
     exists n1, loop m (try_nonce (E := E) (bt_bits block)) (k, header_data (mined_header block root n0)) =
       inl (k + Z.of_nat m, header_data (mined_header block root n1))).
Proof.
  intros Hl. revert k n0. induction m as [|m IH]; intros k n0 Hk Hm.
  - right. split; [lia|]. exists n0. cbn. by rewrite Z.add_0_r.
  - cbn [loop try_nonce]. rewrite (wrap_uint 32 k) by (unfold uint; lia).
    rewrite set_nonce_data by (first [apply Hok|exact Hl]).
    change (header_data _) with (header_data (mined_header block root k)) at 1.
    change (mkHeader _ _ _ _ _ k) with (mined_header block root k).
    unfold header_bytes_hash. rewrite <- header_data_codec.
    change (is_valid_proof_of_work_hash _ _) with (works root k).
    destruct (works root k) eqn:Hw.
    + left. exists k. split_and!; [lia|lia|done| |done]. intros; lia.
    + rewrite header_data_codec.
      destruct (IH (k + 1) k ltac:(lia) ltac:(lia)) as [(n & Hn & Hv & Hf & ->)|(Hf & n1 & ->)].
      * left. exists n. split_and!; [lia|lia|done| |done]. intros n' Hn'.
        destruct (decide (n' = k)) as [->|]; [done|]. apply Hf; lia.
      * right. split; [|exists n1; f_equal; f_equal; lia].
        intros n' Hn'. destruct (decide (n' = k)) as [->|]; [done|]. apply Hf; lia.
Qed.

Lemma nonces_run root n0 : length root = 32%nat ->
  (exists n, uint 32 n /\ works root n = true /\ (forall n', 0 <= n' < n -> works root n' = false) /\
     run 32 (try_nonce (bt_bits block)) (0, header_data (mined_header block root n0)) = inr (@Ok E _ n)) \/
  ((forall n', uint 32 n' -> works root n' = false) /\
     exists n1, run 32 (try_nonce (E := E) (bt_bits block)) (0, header_data (mined_header block root n0)) =
       inl (2 ^ 32, header_data (mined_header block root n1))).
Proof.
  intros Hl. destruct (run_rounds 32 (try_nonce (E := E) (bt_bits block)) (0, header_data (mined_header block root n0)))
    as (m & Hm & ->).
  pose proof (nonces_loop root m 0 n0 Hl) as Hn. rewrite Hm in Hn. unfold uint. apply Hn; cbn; lia.
Qed.

Lemma solves_works coinbase root n :
  @merkle_root _ E (transaction_hash coinbase :: map itx_hash (bt_transactions block)) = Ok root ->
  solves (E := E) block coinbase n <-> works root n = true.
Proof. intros Hm. unfold solves. rewrite Hm. split; [by intros (? & [= <-] & ?)|by exists root]. Qed.

Lemma not_solves_works coinbase root n :
  @merkle_root _ E (transaction_hash coinbase :: map itx_hash (bt_transactions block)) = Ok root ->
  works root n = false -> ~ solves (E := E) block coinbase n.
Proof. intros Hm Hw Hs. by rewrite solves_works, Hw in Hs. Qed.

Definition mined_data (data : bytes) : Prop :=
  exists root n, length root = 32%nat /\ data = header_data (mined_header block root n).

Lemma search_nonces_spec e t t' data : mined_data data ->
  @set_extranonce _ _ E t (le_bytes 32 (uval e)) = Ok t' -> builder_ok t' ->
  (exists n, uint 32 n /\ solves (E := E) block (builder_finish t') n /\
     (forall n', 0 <= n' < n -> ~ solves (E := E) block (builder_finish t') n') /\
     search_nonces (E := E) block e t data = Ok (t', inr n)) \/
  ((forall n', uint 32 n' -> ~ solves (E := E) block (builder_finish t') n') /\
     exists data', mined_data data' /\ search_nonces (E := E) block e t data = Ok (t', inl data')).
Proof.
  intros (r0 & n0 & Hr0 & ->) Hset Hb. unfold search_nonces, update_root.
  rewrite to_little_endian_spec, Hset, ok_bind, builder_hash_ok by done.
  destruct (merkle_root_32 (E := E) (transaction_hash (builder_finish t') :: map itx_hash (bt_transactions block)))
    as (root & Hm & Hl).
  { done. }
  { constructor; [apply length_dhash256|]. apply Forall_map, Hok. }
  rewrite Hm, ok_bind, set_merkle_root_hash_data, ok_bind by (first [apply Hok|done]).
  change (mkHeader _ _ root _ _ _) with (mined_header block root n0).
  destruct (nonces_run root n0 Hl) as [(n & Hn & Hw & Hf & ->)|(Hf & n1 & ->)].
  - left. exists n. split_and!; [done..|by apply (solves_works _ root)| |done].
    intros n' Hn'. apply (not_solves_works _ root); auto.
  - right. split; [intros n' Hn'; apply (not_solves_works _ root); auto|].
    exists (header_data (mined_header block root n1)). split; [by exists root, n1|done].
Qed.

Lemma builder_at_ok b k : builder_ok b -> exists t, @builder_at T _ E k b = Ok t /\ builder_ok t.
Proof.
  intros Hb. induction k as [|k (t & Ht & Hok')]; [by exists b|]. cbn [builder_at]. rewrite Ht, ok_bind.
  by apply set_extranonce_ok.
Qed.

(** What the search from the extra nonce [k] on finds. *)
Definition search_result (b : T) (k : Z) (max : u256) (r : option Solution) : Prop :=
  match r with
  | Some s =>
      k <= uval (sol_extranonce s) < uval max /\ uint 32 (sol_nonce s) /\ sol_time s = bt_time block /\
      (exists t, @builder_at T _ E (S (Z.to_nat (uval (sol_extranonce s)))) b = Ok t /\
         sol_coinbase_transaction s = builder_finish t) /\
      solves (E := E) block (sol_coinbase_transaction s) (sol_nonce s) /\
      (forall e n, k <= e < uval (sol_extranonce s) -> uint 32 n -> ~ solves_at (E := E) block b e n) /\
      (forall n, 0 <= n < sol_nonce s -> ~ solves (E := E) block (sol_coinbase_transaction s) n)
  | None => forall e n, k <= e < uval max -> uint 32 n -> ~ solves_at (E := E) block b e n
  end.

Lemma solves_at_eq b e t n : @builder_at T _ E (S (Z.to_nat e)) b = Ok t ->
  solves_at (E := E) block b e n <-> solves (E := E) block (builder_finish t) n.
Proof. intros Ht. unfold solves_at. rewrite Ht. split; [by intros (? & [= <-] & ?)|by exists t]. Qed.

Lemma extranonces_loop b max m e t data : builder_ok b -> mined_data data ->
  @builder_at T _ E (Z.to_nat (uval e)) b = Ok t -> uval e <= uval max < uval e + Z.of_nat m ->
  exists r, loop m (try_extranonce (E := E) block max) (e, t, data) = inr (Ok r) /\ search_result b (uval e) max r.
Proof.
  intros Hb. revert e t data. induction m as [|m IH]; intros e t data Hd Ht Hm.
  { lia. }
  cbn [loop try_extranonce]. rewrite u256_leb_spec. pose proof (uval_bound e) as He. pose proof (uval_bound max) as Hx.
  destruct (Z.leb_spec (uval max) (uval e)) as [Hle|Hlt].
  { exists None. split; [done|]. intros e' n' He'. lia. }
  destruct (builder_at_ok b (S (Z.to_nat (uval e))) Hb) as (t' & Ht' & Hb').
  pose proof Ht' as Hset. cbn [builder_at] in Hset. rewrite Ht, ok_bind, Z2Nat.id in Hset by apply He.
  destruct (search_nonces_spec e t t' data Hd Hset Hb') as [(n & Hn & Hs & Hf & ->)|(Hf & data' & Hd' & ->)].
  - exists (Some (mkSolution n e (bt_time block) (builder_finish t'))). split; [done|].
    cbn. split; [lia|]. split; [done|]. split; [done|]. split; [by exists t'|]. split; [done|].
    split; [intros; lia|done].
  - destruct (uval_add (E := E) e u256_one) as (e' & Hadd & He'); [rewrite uval_one; unfold uint in *; lia|].
    rewrite Hadd. rewrite uval_one in He'.
    destruct (IH e' t' data' Hd') as (r & -> & Hr).
    { rewrite He'. rewrite Z2Nat.inj_add, Nat.add_1_r by (unfold uint in *; lia). done. }
    { lia. }
    exists r. split; [done|]. rewrite He' in Hr. clear -Hf Ht' Hr Hlt.
    assert (forall n, uint 32 n -> ~ solves_at (E := E) block b (uval e) n) as Hno.
    { intros n Hn. rewrite solves_at_eq by exact Ht'. auto. }
    destruct r as [s|]; cbn in *.
    + destruct Hr as (Hk & Hn & Htm & Hc & Hs & Hf1 & Hf2). 
      split; [lia|]. split; [done|]. split; [done|]. split; [done|]. split; [done|]. split; [|done].
      intros e0 n He0. destruct (decide (e0 = uval e)) as [->|]; [apply Hno|apply Hf1; lia].
    + intros e0 n He0. destruct (decide (e0 = uval e)) as [->|]; [apply Hno|apply Hr; lia].
Qed.

(** C35: The search always ends, and gives the first solution there is, extra nonces before
    nonces: the coinbase and the nonce make a header, serialized from scratch, whose
    hash is below the target, and no earlier pair does.  Without a solution, no pair
    below the limit solves. *)
Theorem find_solution_first b max : builder_ok b ->
  exists r, find_solution (E := E) block b max = Ok r /\ search_result b 0 max r.
Proof.
  intros Hb. unfold find_solution. rewrite header_bytes_new_data, set_time_data by (first [apply Hok|done]).
  rewrite ok_bind. change (mkHeader _ _ _ _ _ _) with (mined_header block zero_hash 0).
  assert (uval (u256_from 0) = 0) as Hz by by apply uval_from.
  pose proof (uval_bound max) as [Hx0 Hx].
  destruct (run_rounds 256 (try_extranonce (E := E) block max)
    (u256_from 0, b, header_data (mined_header block zero_hash 0))) as (m & Hm & ->).
  destruct (extranonces_loop b max m (u256_from 0) b (header_data (mined_header block zero_hash 0)))
    as (r & Hr & Hs).
  - done.
  - by exists zero_hash, 0.
  - by rewrite Hz.
  - rewrite Hz, Hm. split; [done|]. by rewrite Z.add_0_l.
  - exists r. rewrite Hr. by rewrite Hz in Hs.
Qed.
End search.

(** * The builder of the tests: a coinbase that pays to a script hash *)

Definition P2shCoinbaseTransactionBuilder : Type := Transaction.

Definition p2sh_builder_new {E} (hash : bytes) (value : Z) : outcome E P2shCoinbaseTransactionBuilder :=
  script_pubkey ← Builder.build_p2sh hash;
  Ok (mkTx 0 [coinbase_input []] [mkOutput value script_pubkey] 0).

#[export] Instance p2sh_builder `{Crypto} : CoinbaseTransactionBuilder P2shCoinbaseTransactionBuilder := {|
  set_extranonce E t extranonce :=
    i ← index (inputs t) 0;
    Ok (mkTx (version t)
          (<[0%nat := mkInput (previous_output i) extranonce (sequence i) (script_witness i)]> (inputs t))
          (outputs t) (lock_time t));
  builder_hash := transaction_hash;
  builder_finish t := t;
|}.

#[export] Instance p2sh_builder_laws `{Crypto} : CoinbaseBuilderLaws P2shCoinbaseTransactionBuilder.
Proof.
  refine {| builder_ok t := inputs t <> [] |}.
  - intros E t bs Hne. cbn. destruct (inputs t) as [|i l]; [done|]. cbn. eauto.
  - done.
Defined.

(** ** A search that evaluates *)

Module ExampleMiner.
Import ExampleU256.

#[local] Instance example_u256_bytes : U256Bytes example_u256 :=
  {| u256_to_little_endian := fun x => le_bytes 32 (wrap 256 x) |}.
#[local] Instance example_u256_bytes_laws : U256BytesLaws example_u256_bytes example_u256_laws.
Proof. done. Defined.

(** A hash that mixes its input. *)
#[local] Instance mixing_crypto : Crypto := {|
  sha1 := pad 20; ripemd160 := pad 20; siphash24 := fun _ _ _ => 0;
  sha256 := fun x => le_bytes 32 (2 ^ 224 * foldl (fun a b => (a * 16777619 + u8 b) mod 4294967291) 1 x);
|}.
#[local] Instance mixing_crypto_laws : CryptoLaws mixing_crypto.
Proof. split; intros; [apply ExampleCrypto.length_pad..|apply length_le_bytes|done]. Qed.

Definition template : BlockTemplate := mkTemplate 1 zero_hash 7 0x2007ffff 0 [] 10 1000 100.
Definition builder : P2shCoinbaseTransactionBuilder := mkTx 0 [coinbase_input []] [mkOutput 10 []] 0.

Lemma template_is_ok : template_ok template.
Proof. by split; try done; vm_compute. Qed.

Example first_nonce :
  match find_solution (E := unit) template builder (3 : @u256 example_u256) with
  | Ok (Some s) => Some (sol_nonce s)
  | _ => None
  end = Some 6.
Proof. vm_compute. reflexivity. Qed.

(** With a limit of three extra nonces, the first nonce that solves is 6. *)
Lemma find_solution_first_witness :
  template_ok template /\ builder_ok builder /\
  exists r, find_solution (E := unit) template builder (3 : @u256 example_u256) = Ok r /\
    search_result (E := unit) template builder 0 (3 : @u256 example_u256) r.
Proof.
  assert (builder_ok builder) as Hb by done.
  split; [exact template_is_ok|]. split; [exact Hb|].
  exact (find_solution_first (E := unit) template template_is_ok builder (3 : @u256 example_u256) Hb).
Defined.
End ExampleMiner.
End CpuMiner.
