(* ===== verification/OrphanPools.v ===== *)
(** Orphans (src/sync/src/utils/orphan_blocks_pool.rs, orphan_transactions_pool.rs):
    blocks and transactions that wait for their parents.

    Hash maps are finite maps, iterated in an arbitrary order ([HashOrder]); the maps in
    order of insertion are those of the package linked-hash-map ([LinkedHashMap]).  The
    time at which something is inserted is an argument. *)
From Stdlib Require Import ZArith Lia Strings.Byte.
From stdpp Require Import base decidable numbers countable gmap list.
From S2P Require Import Prelude Crypto Serialization Chain ChainHash LinkedMap MemoryPool.

Local Open Scope Z_scope.

(** * Blocks *)

Module OrphanBlocks.
Import Chain ChainHash.

Section pool.
Context `{HashOrder} {Time : Type} `{L : LinkedHashMap bytes Time} `{!LinkedHashMapEdit bytes Time L}.

Record OrphanBlocksPool := mkOrphanBlocks {
  orphaned_blocks : gmap bytes (gmap bytes IndexedBlock);
  unknown_blocks : @lhm bytes Time L;
}.

Definition new : OrphanBlocksPool := mkOrphanBlocks ∅ lhm_new.

(** The number of parents, not of blocks. *)
Definition len (self : OrphanBlocksPool) : Z := Z.of_nat (size (orphaned_blocks self)).

Definition contains_unknown_block (self : OrphanBlocksPool) (hash : bytes) : bool :=
  lhm_contains_key (unknown_blocks self) hash.

Definition block_hash (b : IndexedBlock) : bytes := ih_hash (ib_header b).
Definition block_parent (b : IndexedBlock) : bytes := previous_header_hash (ih_raw (ib_header b)).

Definition insert_orphaned_block (self : OrphanBlocksPool) (block : IndexedBlock) : OrphanBlocksPool :=
  let siblings := default ∅ (orphaned_blocks self !! block_parent block) in
  mkOrphanBlocks (<[block_parent block := <[block_hash block := block]> siblings]> (orphaned_blocks self)) (unknown_blocks self).

Definition insert_unknown_block {E : Type} (now : Time) (self : OrphanBlocksPool) (block : IndexedBlock) : outcome E OrphanBlocksPool :=
  let previous_value := lhm_get (unknown_blocks self) (block_hash block) in
  let unknown := lhm_insert (unknown_blocks self) (block_hash block) now in
  _ ← rust_assert (match previous_value with None => true | Some _ => false end);
  Ok (insert_orphaned_block (mkOrphanBlocks (orphaned_blocks self) unknown) block).

Definition remove_unknown (unknown : @lhm bytes Time L) (hashes : list bytes) : @lhm bytes Time L := foldl lhm_remove unknown hashes.

Fixpoint remove_for_parent_loop {E : Type} (fuel : nat) (self : OrphanBlocksPool) (queue : list bytes) (removed : list IndexedBlock)
    : outcome E (list IndexedBlock * OrphanBlocksPool) :=
  match queue with
  | [] => Ok (removed, self)
  | parent_hash :: queue =>
      match fuel with
      | O => Diverge
      | S fuel =>
          match orphaned_blocks self !! parent_hash with
          | Some orphaned =>
              let keys := hash_iter (dom orphaned) in
              remove_for_parent_loop fuel
                (mkOrphanBlocks (delete parent_hash (orphaned_blocks self)) (remove_unknown (unknown_blocks self) keys))
                (queue ++ keys) (removed ++ omap (fun h => orphaned !! h) keys)
          | None => remove_for_parent_loop fuel self queue removed
          end
      end
  end.

Definition blocks_count (self : OrphanBlocksPool) : nat :=
  sum_list (map (fun p => size p.2) (map_to_list (orphaned_blocks self))).

(** Every round takes a hash from the queue, and the hash of a block is queued when the
    block is removed. *)
Definition remove_blocks_for_parent {E : Type} (self : OrphanBlocksPool) (hash : bytes)
    : outcome E (list IndexedBlock * OrphanBlocksPool) :=
  remove_for_parent_loop (S (blocks_count self)) self [hash] [].

(** The closure given to [retain], for the blocks of one parent. *)
Fixpoint remove_orphans (orphans : gmap bytes IndexedBlock) (hashes removed : list bytes)
    : gmap bytes IndexedBlock * list bytes :=
  match hashes with
  | [] => (orphans, removed)
  | h :: hashes =>
      match orphans !! h with
      | Some _ => remove_orphans (delete h orphans) hashes (removed ++ [h])
      | None => remove_orphans orphans hashes removed
      end
  end.

Fixpoint retain_loop (parents hashes : list bytes) (blocks : gmap bytes (gmap bytes IndexedBlock)) (removed : list bytes)
    : gmap bytes (gmap bytes IndexedBlock) * list bytes :=
  match parents with
  | [] => (blocks, removed)
  | p :: parents =>
      match blocks !! p with
      | Some orphans =>
          let '(orphans, removed) := remove_orphans orphans hashes removed in
          let blocks := if bool_decide (orphans = ∅) then delete p blocks else <[p := orphans]> blocks in
          retain_loop parents hashes blocks removed
      | None => retain_loop parents hashes blocks removed
      end
  end.

Fixpoint remove_children {E : Type} (self : OrphanBlocksPool) (hashes removed : list bytes) : outcome E (list bytes * OrphanBlocksPool) :=
  match hashes with
  | [] => Ok (removed, self)
  | h :: hashes =>
      '(blocks, self) ← remove_blocks_for_parent self h;
      remove_children self hashes (removed ++ map block_hash blocks)
  end.

Definition remove_blocks {E : Type} (self : OrphanBlocksPool) (hashes : gset bytes) : outcome E (list bytes * OrphanBlocksPool) :=
  let order := hash_iter hashes in
  let '(blocks, removed) := retain_loop (hash_iter (dom (orphaned_blocks self))) order (orphaned_blocks self) [] in
  let self := mkOrphanBlocks blocks (remove_unknown (unknown_blocks self) removed) in
  remove_children self order removed.

Definition remove_known_blocks {E : Type} (self : OrphanBlocksPool) : outcome E (list bytes * OrphanBlocksPool) :=
  let orphans_to_remove : gset bytes :=
    list_to_set (List.filter (fun h => negb (lhm_contains_key (unknown_blocks self) h))
      (concat (map (fun p => map fst (map_to_list p.2)) (map_to_list (orphaned_blocks self))))) in
  '(_, self) ← remove_blocks self orphans_to_remove;
  Ok (hash_iter orphans_to_remove, self).

End pool.
Arguments OrphanBlocksPool Time {L}.
End OrphanBlocks.

(** * Transactions *)

Module OrphanTransactions.
Import Chain ChainHash.

(** [insertion_time], [transaction] and [unknown_parents]. *)
Record OrphanTransaction (Time : Type) := mkOrphanTx {
  insertion_time : Time;
  orphan_transaction : IndexedTransaction;
  unknown_parents : gset bytes;
}.
Arguments mkOrphanTx {Time}.
Arguments insertion_time {Time}.
Arguments orphan_transaction {Time}.
Arguments unknown_parents {Time}.

Section pool.
Context `{HashOrder} {Time : Type} `{L : LinkedHashMap bytes (OrphanTransaction Time)} `{!LinkedHashMapEdit bytes (OrphanTransaction Time) L}.

Record OrphanTransactionsPool := mkOrphanTxs {
  by_hash : @lhm bytes (OrphanTransaction Time) L;
  by_parent : gmap bytes (gset bytes);
}.

Definition new : OrphanTransactionsPool := mkOrphanTxs lhm_new ∅.
Definition contains (self : OrphanTransactionsPool) (hash : bytes) : bool := lhm_contains_key (by_hash self) hash.

Definition spends_hash (tx : IndexedTransaction) (h : bytes) : bool :=
  existsb (fun i => bool_decide (op_hash (previous_output i) = h)) (inputs (itx_raw tx)).

Definition add_parent (hash : bytes) (by_parent : gmap bytes (gset bytes)) (parent : bytes) : gmap bytes (gset bytes) :=
  <[parent := {[hash]} ∪ default ∅ (by_parent !! parent)]> by_parent.

Definition insert {E : Type} (now : Time) (self : OrphanTransactionsPool) (transaction : IndexedTransaction) (unknown_parents : gset bytes)
    : outcome E OrphanTransactionsPool :=
  _ ← rust_assert (negb (lhm_contains_key (by_hash self) (itx_hash transaction)));
  _ ← rust_assert (forallb (spends_hash transaction) (hash_iter unknown_parents));
  Ok (mkOrphanTxs (lhm_insert (by_hash self) (itx_hash transaction) (mkOrphanTx now transaction unknown_parents))
        (foldl (add_parent (itx_hash transaction)) (by_parent self) (hash_iter unknown_parents))).

(** The new value of the entry; all its parents are known when none is left. *)
Definition remove_known_parent (parent_hash : bytes) (o : OrphanTransaction Time) : OrphanTransaction Time :=
  mkOrphanTx (insertion_time o) (orphan_transaction o) (unknown_parents o ∖ {[parent_hash]}).

(** The loop over the children of [hash]: what is removed, with its hashes. *)
Fixpoint resolve_children (hash : bytes) (children : list bytes) (by_hash : @lhm bytes (OrphanTransaction Time) L)
    (hashes : list bytes) (orphans : list IndexedTransaction) : @lhm bytes (OrphanTransaction Time) L * list bytes * list IndexedTransaction :=
  match children with
  | [] => (by_hash, hashes, orphans)
  | child :: children =>
      match lhm_get by_hash child with
      | Some entry =>
          let entry := remove_known_parent hash entry in
          if bool_decide (unknown_parents entry = ∅) then
            resolve_children hash children (lhm_remove by_hash child) (hashes ++ [child]) (orphans ++ [orphan_transaction entry])
          else resolve_children hash children (lhm_get_mut by_hash child (remove_known_parent hash)) hashes orphans
      | None => resolve_children hash children by_hash hashes orphans
      end
  end.

Fixpoint remove_for_parent_loop {E : Type} (fuel : nat) (self : OrphanTransactionsPool) (queue : list bytes)
    (removed : list IndexedTransaction) : outcome E (list IndexedTransaction * OrphanTransactionsPool) :=
  match queue with
  | [] => Ok (removed, self)
  | hash :: queue =>
      match fuel with
      | O => Diverge
      | S fuel =>
          match by_parent self !! hash with
          | Some children =>
              let '(by_hash, hashes, orphans) := resolve_children hash (hash_iter children) (by_hash self) [] removed in
              remove_for_parent_loop fuel (mkOrphanTxs by_hash (delete hash (by_parent self))) (queue ++ hashes) orphans
          | None => remove_for_parent_loop fuel self queue removed
          end
      end
  end.

(** Every transaction is queued at most once, when it is removed. *)
Definition remove_transactions_for_parent {E : Type} (self : OrphanTransactionsPool) (hash : bytes)
    : outcome E (list IndexedTransaction * OrphanTransactionsPool) :=
  _ ← rust_assert (negb (lhm_contains_key (by_hash self) hash));
  remove_for_parent_loop (S (length (lhm_iter (by_hash self)))) self [hash] [].

Fixpoint remove_transactions_loop {E : Type} (self : OrphanTransactionsPool) (hashes : list bytes) (removed : list IndexedTransaction)
    : outcome E (list IndexedTransaction * OrphanTransactionsPool) :=
  match hashes with
  | [] => Ok (removed, self)
  | hash :: hashes =>
      let removed := match lhm_get (by_hash self) hash with Some t => removed ++ [orphan_transaction t] | None => removed end in
      let self := mkOrphanTxs (lhm_remove (by_hash self) hash) (by_parent self) in
      '(more, self) ← remove_transactions_for_parent self hash;
      remove_transactions_loop self hashes (removed ++ more)
  end.

Definition remove_transactions {E : Type} (self : OrphanTransactionsPool) (hashes : list bytes)
    : outcome E (list IndexedTransaction * OrphanTransactionsPool) := remove_transactions_loop self hashes [].

End pool.
Arguments OrphanTransactionsPool Time {L}.
End OrphanTransactions.
