(* ===== verification/OrphanSpec.v ===== *)
(** Specifications of the pools of orphans (OrphanPools.v): removing what depends on a
    parent ends, takes out exactly the descendants, and gives them parents first. *)
From Stdlib Require Import ZArith Lia Strings.Byte.
From stdpp Require Import base decidable numbers countable gmap list relations.
From S2P Require Import Prelude Crypto Serialization Chain ChainHash LinkedMap FiltersSpec MemoryPool MemoryPoolSpec OrphanPools.

Local Open Scope Z_scope.

Lemma hash_iter_elem `{HashOrderOf A} (s : gset A) h : h ∈ hash_iter s <-> h ∈ s.
Proof. by rewrite hash_iter_perm, elem_of_elements. Qed.

Lemma hash_iter_nodup `{HashOrderOf A} (s : gset A) : NoDup (hash_iter s).
Proof. rewrite hash_iter_perm. apply NoDup_elements. Qed.

Lemma hash_iter_length `{HashOrderOf A} (s : gset A) : length (hash_iter s) = size s.
Proof. by rewrite hash_iter_perm. Qed.

(** * Blocks *)

Module OrphanBlocksSpec.
Import Chain ChainHash OrphanBlocks.

Section pool.
Context `{HashOrder} {Time : Type} `{L : LinkedHashMap bytes Time} `{!LinkedHashMapLaws L} `{!LinkedHashMapEdit bytes Time L} `{!LinkedHashMapEditLaws L _}.

Implicit Types (self pool : OrphanBlocksPool Time) (b : IndexedBlock) (h : bytes).

Definition stored self b : Prop := exists m, orphaned_blocks self !! block_parent b = Some m /\ m !! block_hash b = Some b.

(** Blocks are under the hashes of their parents and their own; unknown blocks are
    stored. *)
Record wf self : Prop := {
  wf_keys p m h b : orphaned_blocks self !! p = Some m -> m !! h = Some b -> block_hash b = h /\ block_parent b = p;
  wf_nonempty p m : orphaned_blocks self !! p = Some m -> m <> ∅;
  wf_unknown h : is_Some (lhm_get (unknown_blocks self) h) -> exists b, stored self b /\ block_hash b = h;
}.

(** The block is stored and comes after [h] by parents that are all stored. *)
Inductive descends self h : IndexedBlock -> Prop :=
| descends_child b : stored self b -> block_parent b = h -> descends self h b
| descends_further c b : descends self h c -> stored self b -> block_parent b = block_hash c -> descends self h b.

Lemma descends_stored self h b : descends self h b -> stored self b.
Proof. by destruct 1. Qed.

(** Every block comes after its parent, or its parent is [h]. *)
Definition parents_before h (l : list IndexedBlock) : Prop :=
  forall l1 b l2, l = l1 ++ b :: l2 -> block_parent b = h \/ exists c, c ∈ l1 /\ block_hash c = block_parent b.

Lemma orphans_wf_new : wf (new (L := L)).
Proof. split; cbn; [by intros ? ?|by intros ? ?|]. intros h. rewrite lhm_get_new. by intros []. Qed.

Lemma stored_insert self b c : wf self ->
  stored (insert_orphaned_block self b) c <-> c = b \/ stored self c /\ (block_parent c, block_hash c) <> (block_parent b, block_hash b).
Proof.
  intros Hw. unfold stored, insert_orphaned_block. cbn. split.
  - intros (m & Hm & Hc). destruct (decide (block_parent c = block_parent b)) as [Hp|Hp].
    + rewrite Hp, lookup_insert_eq in Hm. injection Hm as <-. destruct (decide (block_hash c = block_hash b)) as [Hh|Hh].
      * rewrite Hh, lookup_insert_eq in Hc. injection Hc as ->. by left.
      * right. rewrite lookup_insert_ne in Hc by done. split; [|congruence]. rewrite Hp.
        destruct (orphaned_blocks self !! block_parent b) as [m|]; [by exists m|done].
    + right. rewrite lookup_insert_ne in Hm by done. split; [by exists m|congruence].
  - intros [->|[(m & Hm & Hc) Hne]].
    + eexists. split; [apply lookup_insert_eq|]. apply lookup_insert_eq.
    + destruct (decide (block_parent c = block_parent b)) as [Hp|Hp].
      * rewrite Hp in *. eexists. split; [apply lookup_insert_eq|]. rewrite lookup_insert_ne by congruence. by rewrite Hm.
      * exists m. by rewrite lookup_insert_ne.
Qed.

Lemma wf_insert self b : wf self -> wf (insert_orphaned_block self b).
Proof.
  intros Hw. split.
  - cbn. intros p m h c Hm Hc. destruct (decide (p = block_parent b)) as [->|Hp].
    + rewrite lookup_insert_eq in Hm. injection Hm as <-. destruct (decide (h = block_hash b)) as [->|Hh].
      * rewrite lookup_insert_eq in Hc. by injection Hc as <-.
      * rewrite lookup_insert_ne in Hc by done. destruct (orphaned_blocks self !! block_parent b) as [m|] eqn:Hm; [|done].
        by eapply (wf_keys _ Hw).
    + rewrite lookup_insert_ne in Hm by done. by eapply (wf_keys _ Hw).
  - cbn. intros p m. destruct (decide (p = block_parent b)) as [->|Hp].
    + rewrite lookup_insert_eq. intros [= <-]. apply insert_non_empty.
    + rewrite lookup_insert_ne by done. apply (wf_nonempty _ Hw).
  - cbn. intros h (c & Hc & <-)%(wf_unknown _ Hw).
    destruct (decide ((block_parent c, block_hash c) = (block_parent b, block_hash b))) as [Heq|Hne].
    + exists b. split; [apply stored_insert; auto|congruence].
    + exists c. split; [apply stored_insert; auto|done].
Qed.

Lemma insert_unknown_spec {E : Type} now self b :
  wf self ->
  (contains_unknown_block self (block_hash b) = false ->
   exists self', insert_unknown_block (E := E) now self b = Ok self' /\ wf self' /\ contains_unknown_block self' (block_hash b) = true) /\
  (contains_unknown_block self (block_hash b) = true -> insert_unknown_block (E := E) now self b = Panic).
Proof.
  intros Hw. unfold contains_unknown_block, insert_unknown_block. rewrite lhm_contains_spec. split.
  - intros Hn%bool_decide_eq_false. destruct (lhm_get (unknown_blocks self) (block_hash b)) eqn:Hg; [by destruct Hn|].
    cbn. eexists. split; [done|]. cbn [unknown_blocks insert_orphaned_block].
    split; [|rewrite lhm_contains_spec; apply bool_decide_eq_true; rewrite lhm_get_insert, bool_decide_true by done; by eexists].
    split; [apply (wf_keys _ (wf_insert self b Hw))|apply (wf_nonempty _ (wf_insert self b Hw))|]. cbn. intros h.
    rewrite lhm_get_insert. case_bool_decide as Hh.
    + intros _. exists b. split; [|done]. apply (proj2 (stored_insert self b b Hw)). by left.
    + intros Hs. apply (wf_unknown _ (wf_insert self b Hw) h Hs).
  - intros Hs%bool_decide_eq_true. destruct (lhm_get (unknown_blocks self) (block_hash b)); [done|by destruct Hs].
Qed.

(** ** Removing descendants *)

Lemma remove_unknown_get (u : @lhm bytes Time L) hs k : lhm_get (remove_unknown u hs) k = if decide (k ∈ hs) then None else lhm_get u k.
Proof.
  revert u. induction hs as [|h hs IH]; intros u; [by rewrite decide_False by apply not_elem_of_nil|].
  change (remove_unknown u (h :: hs)) with (remove_unknown (lhm_remove u h) hs). rewrite IH, lhm_get_remove. repeat case_decide; try case_bool_decide; set_solver.
Qed.

Lemma blocks_count_delete self p m u :
  orphaned_blocks self !! p = Some m ->
  blocks_count self = (size m + blocks_count (mkOrphanBlocks (delete p (orphaned_blocks self)) u))%nat.
Proof.
  intros Hm. unfold blocks_count. cbn. rewrite <- (map_to_list_delete _ _ _ Hm). done.
Qed.

(** The blocks of one parent, in the order of its keys. *)
Lemma siblings_hash (m : gmap bytes IndexedBlock) (keys : list bytes) :
  (forall h b, m !! h = Some b -> block_hash b = h) -> Forall (fun h => h ∈ dom m) keys ->
  map block_hash (omap (fun h => m !! h) keys) = keys.
Proof.
  intros Hk. induction 1 as [|h keys Hh Hf IH]; [done|]. apply elem_of_dom in Hh as [b Hb]. cbn. rewrite Hb. cbn.
  by rewrite IH, (Hk _ _ Hb).
Qed.

(** What holds in the loop that removes the descendants of [h] from [pool]. *)
Record progress pool h self (queue : list bytes) (removed : list IndexedBlock) : Prop := {
  pg_sub p : orphaned_blocks self !! p = orphaned_blocks pool !! p \/ orphaned_blocks self !! p = None;
  pg_removed b : b ∈ removed <-> stored pool b /\ orphaned_blocks self !! block_parent b = None;
  pg_descends b : b ∈ removed -> descends pool h b;
  pg_queue x : x ∈ queue -> x = h \/ exists b, b ∈ removed /\ block_hash b = x;
  pg_done x : x = h \/ (exists b, b ∈ removed /\ block_hash b = x) -> x ∈ queue \/ orphaned_blocks self !! x = None;
  pg_nodup : NoDup removed;
  pg_order : parents_before h removed;
  pg_unknown k : lhm_get (unknown_blocks self) k = if decide (k ∈ map block_hash removed) then None else lhm_get (unknown_blocks pool) k;
}.

Lemma progress_skip pool h self x queue removed :
  progress pool h self (x :: queue) removed -> orphaned_blocks self !! x = None -> progress pool h self queue removed.
Proof.
  intros [Hs Hr Hd Hq Hdn Hn Ho Hu] Hx. split; try done.
  - intros y Hy. apply Hq. by right.
  - intros y Hy. destruct (Hdn y Hy) as [[->|?]%elem_of_cons|?]; auto.
Qed.

Lemma siblings_spec pool p m b :
  wf pool -> orphaned_blocks pool !! p = Some m ->
  b ∈ omap (fun h => m !! h) (hash_iter (dom m)) <-> stored pool b /\ block_parent b = p.
Proof.
  intros Hw Hm. rewrite list_elem_of_omap. split.
  - intros (x & _ & Hx). destruct (wf_keys _ Hw _ _ _ _ Hm Hx) as [<- <-]. split; [by exists m|done].
  - intros [(m' & Hm' & Hb) <-]. rewrite Hm in Hm'. injection Hm' as <-. exists (block_hash b). split; [|done].
    apply hash_iter_elem, elem_of_dom. by exists b.
Qed.

Lemma parents_before_app h l l' x :
  parents_before h l -> Forall (fun b => block_parent b = x) l' -> x = h \/ (exists b, b ∈ l /\ block_hash b = x) ->
  parents_before h (l ++ l').
Proof.
  intros Hl Hl' Hx l1 b l2 Heq. apply app_eq_app in Heq as (k & [[-> Heq]|[-> Heq]]).
  - destruct k as [|c k]; cbn in Heq.
    + rewrite app_nil_r in *. subst l'. inversion Hl' as [|? ? Hb _]; subst. destruct Hx as [Hx|(c & Hc & Hch)]; [by left|right]. by exists c.
    + injection Heq as -> ->. by eapply Hl.
  - subst l'. apply Forall_app in Hl' as [_ Hl']. inversion Hl' as [|? ? Hb _]; subst.
    destruct Hx as [Hx|(c & Hc & Hch)]; [by left|right]. exists c. rewrite elem_of_app. auto.
Qed.

Lemma progress_take pool h self x queue removed m :
  wf pool -> progress pool h self (x :: queue) removed -> orphaned_blocks self !! x = Some m ->
  let keys := hash_iter (dom m) in
  progress pool h (mkOrphanBlocks (delete x (orphaned_blocks self)) (remove_unknown (unknown_blocks self) keys))
    (queue ++ keys) (removed ++ omap (fun h => m !! h) keys).
Proof.
  intros Hw [Hs Hr Hd Hq Hdn Hn Ho Hu] Hm keys.
  assert (orphaned_blocks pool !! x = Some m) as Hpm by (destruct (Hs x) as [<-|Hx]; congruence).
  assert (forall b, b ∈ omap (fun h => m !! h) keys <-> stored pool b /\ block_parent b = x) as Hsib by (intros b; by apply siblings_spec).
  assert (map block_hash (omap (fun h => m !! h) keys) = keys) as Hkeys.
  { apply siblings_hash; [intros k b Hb; by eapply (wf_keys _ Hw)|]. apply Forall_forall. intros k Hk. by apply hash_iter_elem in Hk. }
  assert (forall b, b ∈ removed ++ omap (fun h => m !! h) keys <-> stored pool b /\ delete x (orphaned_blocks self) !! block_parent b = None) as Hr'.
  { intros b. rewrite elem_of_app, Hr, Hsib, lookup_delete_None. naive_solver. }
  assert (forall y, (exists b, b ∈ removed ++ omap (fun h => m !! h) keys /\ block_hash b = y) <-> (exists b, b ∈ removed /\ block_hash b = y) \/ y ∈ keys) as Hex.
  { intros y. assert (y ∈ keys <-> exists b, b ∈ omap (fun h => m !! h) keys /\ block_hash b = y) as ->; [|setoid_rewrite elem_of_app; naive_solver].
    rewrite <- Hkeys at 1. rewrite list_elem_of_In, in_map_iff. setoid_rewrite <- list_elem_of_In. naive_solver. }
  split; cbn.
  - intros p. destruct (decide (p = x)) as [->|Hp]; [right; apply lookup_delete_eq|]. rewrite lookup_delete_ne by done. apply Hs.
  - done.
  - intros b [Hb|Hb]%elem_of_app; [by apply Hd|]. apply Hsib in Hb as [Hb Hp].
    destruct (Hq x (list_elem_of_here _ _)) as [->|(c & Hc & <-)]; [by apply descends_child|].
    eapply descends_further; [apply Hd, Hc|done|done].
  - intros y. rewrite Hex, elem_of_app. intros [Hy|Hy]; [|tauto]. destruct (Hq y (list_elem_of_further _ _ _ Hy)); tauto.
  - intros y. rewrite Hex, elem_of_app. intros Hy. destruct (decide (y = x)) as [->|Hne]; [right; apply lookup_delete_eq|].
    destruct Hy as [Hy|[Hy|Hy]]; [|destruct (Hdn y (or_intror Hy)) as [[?|?]%elem_of_cons|?]|tauto]; try tauto.
    + destruct (Hdn y (or_introl Hy)) as [[?|?]%elem_of_cons|?]; [done|tauto|]. right. by rewrite lookup_delete_ne.
    + right. by rewrite lookup_delete_ne.
  - apply NoDup_app. split_and!; [done| |].
    + intros b Hb Hb'. apply Hsib in Hb' as [_ Hp]. apply Hr in Hb as [_ Hb]. congruence.
    + apply (NoDup_fmap_1 block_hash). change (NoDup (map block_hash (omap (fun h => m !! h) keys))). rewrite Hkeys. apply hash_iter_nodup.
  - eapply parents_before_app; [done| |apply Hq, list_elem_of_here]. apply Forall_forall. intros b Hb.
    by apply Hsib in Hb as [_ ?].
  - intros k. rewrite remove_unknown_get, Hu, map_app, Hkeys. repeat case_decide; set_solver.
Qed.

Lemma remove_loop_spec {E : Type} fuel pool h self queue removed :
  wf pool -> progress pool h self queue removed -> (length queue + blocks_count self <= fuel)%nat ->
  exists removed' self', remove_for_parent_loop (E := E) fuel self queue removed = Ok (removed', self') /\
    progress pool h self' [] removed'.
Proof.
  intros Hw. revert self queue removed. induction fuel as [|fuel IH]; intros self [|x queue] removed Hp Hf;
    cbn [length] in Hf; try (by exists removed, self); [lia|]. cbn [remove_for_parent_loop].
  destruct (orphaned_blocks self !! x) as [m|] eqn:Hm.
  - apply IH; [by apply progress_take|]. rewrite (blocks_count_delete _ _ _ (remove_unknown (unknown_blocks self) (hash_iter (dom m))) Hm) in Hf.
    rewrite length_app, hash_iter_length, size_dom. lia.
  - apply IH; [by eapply progress_skip|lia].
Qed.

Lemma progress_start pool h : progress pool h pool [h] [].
Proof.
  split.
  - auto.
  - intros b. split; [by intros ?%not_elem_of_nil|]. intros [(m & Hm & _) Hn]. congruence.
  - by intros b ?%not_elem_of_nil.
  - intros x ->%list_elem_of_singleton. auto.
  - intros x [->|(b & Hb & _)]; [left; apply list_elem_of_here|by apply not_elem_of_nil in Hb].
  - constructor.
  - by intros [|? ?] ? ?.
  - intros k. by rewrite decide_False by apply not_elem_of_nil.
Qed.

Lemma progress_end pool h self removed :
  wf pool -> progress pool h self [] removed ->
  wf self /\ (forall b, b ∈ removed <-> descends pool h b) /\ (forall b, stored self b <-> stored pool b /\ ~ descends pool h b).
Proof.
  intros Hw [Hs Hr Hd Hq Hdn Hn Ho Hu].
  assert (forall b, b ∈ removed <-> descends pool h b) as Hrd.
  { intros b. split; [apply Hd|]. induction 1 as [b Hb Hp|c b Hc IH Hb Hp]; apply Hr; (split; [done|]); rewrite Hp.
    - destruct (Hdn h) as [?%not_elem_of_nil|?]; auto; done.
    - destruct (Hdn (block_hash c)) as [?%not_elem_of_nil|?]; eauto; done. }
  assert (forall b, stored self b <-> stored pool b /\ ~ descends pool h b) as Hst.
  { intros b. rewrite <- Hrd, Hr. split.
    - intros (m & Hm & Hb). split; [|intros [_ ?]; congruence]. exists m. destruct (Hs (block_parent b)); split; congruence.
    - intros [(m & Hm & Hb) Hnot]. exists m. split; [|done]. destruct (Hs (block_parent b)) as [->|Hnone]; [done|].
      exfalso. apply Hnot. split; [by exists m|done]. }
  split_and!; [|done|done]. split.
  - intros p m k b Hm. destruct (Hs p) as [Heq|]; [|congruence]. rewrite Heq in Hm. by apply (wf_keys _ Hw).
  - intros p m Hm. destruct (Hs p) as [Heq|]; [|congruence]. rewrite Heq in Hm. by eapply (wf_nonempty _ Hw).
  - intros k. rewrite Hu. case_decide as Hk; [by intros []|]. intros (b & Hb & <-)%(wf_unknown _ Hw). exists b. split; [|done].
    apply Hst. split; [done|]. rewrite <- Hrd. intros Hin. apply Hk. rewrite list_elem_of_In. apply in_map. by apply list_elem_of_In.
Qed.

Lemma remove_for_parent_spec {E : Type} pool h :
  wf pool ->
  exists removed self, remove_blocks_for_parent (E := E) pool h = Ok (removed, self) /\ wf self /\
    (forall b, b ∈ removed <-> descends pool h b) /\ (forall b, stored self b <-> stored pool b /\ ~ descends pool h b) /\
    NoDup removed /\ parents_before h removed /\
    (forall k, lhm_get (unknown_blocks self) k = if decide (k ∈ map block_hash removed) then None else lhm_get (unknown_blocks pool) k).
Proof.
  intros Hw. unfold remove_blocks_for_parent.
  destruct (remove_loop_spec (E := E) (S (blocks_count pool)) pool h pool [h] [] Hw (progress_start pool h)) as (removed & self & Hr & Hp); [cbn; lia|].
  exists removed, self. destruct (progress_end _ _ _ _ Hw Hp) as (Hw' & Hrd & Hst). destruct Hp. done.
Qed.

(** ** Removing blocks by hash *)

Lemma remove_orphans_spec (m : gmap bytes IndexedBlock) hs removed :
  let '(m', removed') := remove_orphans m hs removed in
  (forall k, m' !! k = if decide (k ∈ hs) then None else m !! k) /\
  (forall k, k ∈ removed' <-> k ∈ removed \/ k ∈ hs /\ is_Some (m !! k)).
Proof.
  revert m removed. induction hs as [|h hs IH]; intros m removed; cbn.
  { split; intros k; [by rewrite decide_False by apply not_elem_of_nil|]. pose proof (not_elem_of_nil k). tauto. }
  destruct (m !! h) as [b|] eqn:Hb.
  - specialize (IH (delete h m) (removed ++ [h])). destruct (remove_orphans _ _ _) as [m' removed']. destruct IH as [IH1 IH2]. split; intros k.
    + rewrite IH1. destruct (decide (k = h)) as [->|Hne].
      * rewrite lookup_delete_eq. rewrite (decide_True _ _ (P := _ ∈ _ :: _)) by apply list_elem_of_here. by case_decide.
      * rewrite lookup_delete_ne by done. repeat case_decide; set_solver.
    + rewrite IH2, elem_of_app, list_elem_of_singleton, elem_of_cons. destruct (decide (k = h)) as [->|Hne].
      * rewrite Hb. naive_solver.
      * rewrite lookup_delete_ne by done. naive_solver.
  - specialize (IH m removed). destruct (remove_orphans _ _ _) as [m' removed']. destruct IH as [IH1 IH2]. split; intros k.
    + rewrite IH1. destruct (decide (k = h)) as [->|Hne]; repeat case_decide; set_solver.
    + rewrite IH2, elem_of_cons. split; [tauto|]. intros [?|[[->|?] Hk]]; [tauto| |tauto]. rewrite Hb in Hk. by destruct Hk.
Qed.

(** What is left of the blocks of a parent. *)
Definition trimmed (hs : list bytes) (m m' : option (gmap bytes IndexedBlock)) : Prop :=
  forall k, (m' ≫= fun m' => m' !! k) = if decide (k ∈ hs) then None else m ≫= fun m => m !! k.

Lemma retain_loop_spec ps hs blocks removed :
  NoDup ps -> (forall p m, blocks !! p = Some m -> m <> ∅) ->
  let '(blocks', removed') := retain_loop ps hs blocks removed in
  (forall p, if decide (p ∈ ps) then trimmed hs (blocks !! p) (blocks' !! p) else blocks' !! p = blocks !! p) /\
  (forall p m, blocks' !! p = Some m -> m <> ∅) /\
  (forall k, k ∈ removed' <-> k ∈ removed \/ k ∈ hs /\ exists p m, p ∈ ps /\ blocks !! p = Some m /\ is_Some (m !! k)).
Proof.
  revert blocks removed. induction ps as [|p ps IH]; intros blocks removed Hn Hne; cbn.
  { split_and!; [intros p; by rewrite decide_False by apply not_elem_of_nil|done|]. intros k. split; [tauto|]. intros [?|(_ & p & m & Hp & _)]; [done|by apply not_elem_of_nil in Hp]. }
  apply NoDup_cons in Hn as [Hp Hn]. destruct (blocks !! p) as [m|] eqn:Hm.
  - pose proof (remove_orphans_spec m hs removed) as Hro. destruct (remove_orphans m hs removed) as [m' removed1]. destruct Hro as [Hm' Hr1].
    set (blocks1 := if bool_decide (m' = ∅) then delete p blocks else <[p := m']> blocks).
    assert (forall q, q <> p -> blocks1 !! q = blocks !! q) as Hother.
    { intros q Hq. unfold blocks1. case_bool_decide; [by rewrite lookup_delete_ne|by rewrite lookup_insert_ne]. }
    assert (trimmed hs (Some m) (blocks1 !! p)) as Htrim.
    { intros k. cbn. rewrite <- Hm'. unfold blocks1. case_bool_decide as He; [by rewrite lookup_delete_eq, He|by rewrite lookup_insert_eq]. }
    assert (forall q mq, blocks1 !! q = Some mq -> mq <> ∅) as Hne1.
    { intros q mq. destruct (decide (q = p)) as [->|Hq]; [|rewrite Hother by done; apply Hne].
      unfold blocks1. case_bool_decide; [by rewrite lookup_delete_eq|]. rewrite lookup_insert_eq. by intros [= <-]. }
    specialize (IH blocks1 removed1 Hn Hne1). destruct (retain_loop ps hs blocks1 removed1) as [blocks' removed']. destruct IH as (IH1 & IH2 & IH3).
    split_and!; [|done|].
    + intros q. specialize (IH1 q). destruct (decide (q = p)) as [->|Hq].
      * rewrite decide_False in IH1 by done. rewrite decide_True by apply list_elem_of_here. by rewrite IH1, Hm.
      * rewrite Hother in IH1 by done. repeat case_decide; set_solver.
    + intros k. rewrite IH3, Hr1. setoid_rewrite elem_of_cons. split.
      * intros [[?|[? ?]]|[? (q & mq & Hq & Hmq & Hk)]]; [tauto|right; eauto 10|]. right. split; [done|].
        rewrite Hother in Hmq by (intros ->; done). eauto 10.
      * intros [?|[? (q & mq & [->|Hq] & Hmq & Hk)]]; [tauto|rewrite Hm in Hmq; injection Hmq as <-; tauto|].
        right. split; [done|]. exists q, mq. rewrite Hother by (intros ->; done). done.
  - specialize (IH blocks removed Hn Hne). destruct (retain_loop ps hs blocks removed) as [blocks' removed']. destruct IH as (IH1 & IH2 & IH3).
    split_and!; [|done|].
    + intros q. specialize (IH1 q). destruct (decide (q = p)) as [->|Hq].
      * rewrite decide_False in IH1 by done. rewrite decide_True by apply list_elem_of_here. rewrite IH1, Hm. intros k. cbn. by case_decide.
      * repeat case_decide; set_solver.
    + intros k. rewrite IH3. setoid_rewrite elem_of_cons. naive_solver.
Qed.

Definition retained pool (hs : list bytes) : OrphanBlocksPool Time * list bytes :=
  let '(blocks, removed) := retain_loop (hash_iter (dom (orphaned_blocks pool))) hs (orphaned_blocks pool) [] in
  (mkOrphanBlocks blocks (remove_unknown (unknown_blocks pool) removed), removed).

Lemma retained_spec pool hs :
  wf pool -> wf (retained pool hs).1 /\
  (forall b, stored (retained pool hs).1 b <-> stored pool b /\ block_hash b ∉ hs) /\
  (forall k, k ∈ (retained pool hs).2 <-> k ∈ hs /\ exists b, stored pool b /\ block_hash b = k).
Proof.
  intros Hw. unfold retained. pose proof (retain_loop_spec (hash_iter (dom (orphaned_blocks pool))) hs (orphaned_blocks pool) []
    (hash_iter_nodup _) (wf_nonempty _ Hw)) as Hr. destruct (retain_loop _ _ _ _) as [blocks removed]. cbn. destruct Hr as (Hb & Hne & Hrem).
  assert (forall p, trimmed hs (orphaned_blocks pool !! p) (blocks !! p)) as Htrim.
  { intros p. specialize (Hb p). case_decide as Hp; [done|]. rewrite Hb. rewrite hash_iter_elem, not_elem_of_dom in Hp. rewrite Hp.
    intros k. cbn. by case_decide. }
  assert (forall p m k b, blocks !! p = Some m -> m !! k = Some b -> k ∉ hs /\ exists m0, orphaned_blocks pool !! p = Some m0 /\ m0 !! k = Some b) as Hsub.
  { intros p m k b Hm Hk. specialize (Htrim p k). rewrite Hm in Htrim. cbn in Htrim. rewrite Hk in Htrim. case_decide; [done|].
    split; [done|]. destruct (orphaned_blocks pool !! p) as [m0|]; [by exists m0|done]. }
  assert (forall b, stored (mkOrphanBlocks blocks (remove_unknown (unknown_blocks pool) removed)) b <-> stored pool b /\ block_hash b ∉ hs) as Hst.
  { intros b. unfold stored. cbn. split.
    - intros (m & Hm & Hk). destruct (Hsub _ _ _ _ Hm Hk) as [Hn (m0 & Hm0 & Hk0)]. split; [by exists m0|done].
    - intros [(m & Hm & Hk) Hn]. specialize (Htrim (block_parent b) (block_hash b)). rewrite decide_False, Hm in Htrim by done. cbn in Htrim.
      rewrite Hk in Htrim. destruct (blocks !! block_parent b) as [m'|]; [by exists m'|done]. }
  assert (forall k, k ∈ removed <-> k ∈ hs /\ exists b, stored pool b /\ block_hash b = k) as Hremoved.
  { intros k. rewrite Hrem. split.
    - intros [?%not_elem_of_nil|[Hk (p & m & _ & Hm & b & Hb2)]]; [done|]. split; [done|].
      destruct (wf_keys _ Hw _ _ _ _ Hm Hb2) as [Hh Hp]. exists b. split; [|done]. exists m. by rewrite Hp, Hh.
    - intros [Hk (b & (m & Hm & Hb2) & <-)]. right. split; [done|]. exists (block_parent b), m. split; [|by rewrite Hb2].
      apply hash_iter_elem, elem_of_dom. by exists m. }
  split_and!; [|done|done]. split; cbn.
  - intros p m k b Hm Hk. destruct (Hsub _ _ _ _ Hm Hk) as [_ (m0 & Hm0 & Hk0)]. by eapply (wf_keys _ Hw).
  - done.
  - intros k. rewrite remove_unknown_get. case_decide as Hk; [by intros []|]. intros (b & Hb2 & <-)%(wf_unknown _ Hw). exists b. split; [|done].
    apply Hst. split; [done|]. intros Hin. apply Hk. rewrite Hremoved. eauto.
Qed.

(** The block has one of the hashes or depends on it. *)
Definition depends pool (hs : list bytes) b : Prop := block_hash b ∈ hs \/ exists h, h ∈ hs /\ descends pool h b.

(** What holds when the children of the hashes in [done] have been removed. *)
Record cleaning pool (hs : list bytes) self (done : list bytes) : Prop := {
  cl_wf : wf self;
  cl_stored b : stored self b -> stored pool b /\ block_hash b ∉ hs;
  cl_done h b : h ∈ done -> block_parent b = h -> ~ stored self b;
  cl_closed c b : stored self b -> stored pool c -> block_parent b = block_hash c -> stored self c \/ block_hash c ∈ hs;
  cl_kept b : stored pool b -> ~ depends pool hs b -> stored self b;
}.

Lemma descends_mono self pool h b : (forall c, stored self c -> stored pool c) -> descends self h b -> descends pool h b.
Proof. intros Hm. induction 1; [apply descends_child|eapply descends_further]; eauto. Qed.

Lemma cleaning_step pool hs self self' dn h :
  cleaning pool hs self dn -> h ∈ hs -> wf self' -> (forall b, stored self' b <-> stored self b /\ ~ descends self h b) ->
  cleaning pool hs self' (dn ++ [h]).
Proof.
  intros [Hw Hs Hd Hc Hk] Hh Hw' Hst. split; [done| | | |].
  - intros b [Hb _]%Hst. by apply Hs.
  - intros x b [Hx| ->%list_elem_of_singleton]%elem_of_app Hp [Hb Hnd]%Hst; [by eapply Hd|]. apply Hnd. by apply descends_child.
  - intros c b [Hb Hnd]%Hst Hcp Hp. destruct (Hc c b Hb Hcp Hp) as [Hcs|?]; [left|by right]. apply Hst. split; [done|].
    intros Hdc. apply Hnd. by eapply descends_further.
  - intros b Hb Hnd. apply Hst. split; [by apply Hk|]. intros Hdb. apply Hnd. right. exists h. split; [done|].
    eapply descends_mono; [|exact Hdb]. intros c Hcs. by apply Hs.
Qed.

Lemma remove_children_spec {E : Type} pool hs self dn todo removed :
  hs = dn ++ todo -> cleaning pool hs self dn ->
  exists removed' self', remove_children (E := E) self todo removed = Ok (removed', self') /\ cleaning pool hs self' hs.
Proof.
  intros ->. revert self dn removed. induction todo as [|h todo IH]; intros self dn removed Hc; cbn [remove_children].
  { exists removed, self. by rewrite app_nil_r in *. }
  destruct (remove_for_parent_spec (E := E) self h (cl_wf _ _ _ _ Hc)) as (blocks & self1 & -> & Hw1 & _ & Hst & _). rewrite ok_bind.
  rewrite cons_middle, app_assoc in *. apply IH. eapply cleaning_step; [exact Hc| |done|done]. set_solver.
Qed.

Lemma cleaning_end pool hs self : cleaning pool hs self hs -> forall b, stored self b <-> stored pool b /\ ~ depends pool hs b.
Proof.
  intros [Hw Hs Hd Hc Hk] b. split; [|by intros [? ?]; apply Hk]. intros Hb. split; [by apply Hs|]. intros [Hin|(h & Hh & Hdb)].
  - by apply Hs in Hb as [_ ?].
  - induction Hdb as [b Hbp Hp|c b Hdc IH Hbp Hp]; [by eapply Hd|].
    destruct (Hc c b Hb (descends_stored _ _ _ Hdc) Hp) as [Hcs|Hin]; [by apply IH|by eapply (Hd (block_hash c))].
Qed.

Lemma remove_blocks_spec {E : Type} pool (hashes : gset bytes) :
  wf pool ->
  exists removed self, remove_blocks (E := E) pool hashes = Ok (removed, self) /\ wf self /\
    forall b, stored self b <-> stored pool b /\ ~ depends pool (hash_iter hashes) b.
Proof.
  intros Hw. set (hs := hash_iter hashes). pose proof (retained_spec pool hs Hw) as (Hw1 & Hst & _). unfold remove_blocks. fold hs.
  unfold retained in *. destruct (retain_loop _ _ _ _) as [blocks removed]. cbn [fst snd] in *.
  destruct (remove_children_spec (E := E) pool hs (mkOrphanBlocks blocks (remove_unknown (unknown_blocks pool) removed)) [] hs removed)
    as (removed' & self & -> & Hc); [done| |].
  - split; [done| | | |].
    + intros b Hb. by apply Hst.
    + by intros h b ?%not_elem_of_nil.
    + intros c b [Hb Hn]%Hst Hcp Hp. destruct (decide (block_hash c ∈ hs)); [by right|left]. by apply Hst.
    + intros b Hb Hn. apply Hst. split; [done|]. intros Hin. apply Hn. by left.
  - exists removed', self. split_and!; [done|apply Hc|by apply cleaning_end].
Qed.

(** The hashes of stored blocks that were not received unrequested. *)
Lemma known_hashes pool h :
  wf pool ->
  h ∈ (list_to_set (List.filter (fun h => negb (lhm_contains_key (unknown_blocks pool) h))
        (concat (map (fun p => map fst (map_to_list p.2)) (map_to_list (orphaned_blocks pool))))) : gset bytes) <->
  contains_unknown_block pool h = false /\ exists b, stored pool b /\ block_hash b = h.
Proof.
  intros Hw. rewrite elem_of_list_to_set, list_elem_of_In, filter_In, in_concat, negb_true_iff. unfold contains_unknown_block.
  setoid_rewrite in_map_iff. split.
  - intros [(l & ([p m] & <- & Hm) & Hl) Hn]. split; [done|]. apply in_map_iff in Hl as ([k b] & <- & Hb). cbn in *.
    apply list_elem_of_In, elem_of_map_to_list in Hm, Hb. destruct (wf_keys _ Hw _ _ _ _ Hm Hb) as [Hh Hp].
    exists b. split; [|done]. exists m. by rewrite Hp, Hh.
  - intros [Hn (b & (m & Hm & Hb) & <-)]. split; [|done]. eexists. split.
    + exists (block_parent b, m). split; [done|]. by apply list_elem_of_In, elem_of_map_to_list.
    + cbn. apply in_map_iff. exists (block_hash b, b). split; [done|]. by apply list_elem_of_In, elem_of_map_to_list.
Qed.

(** * Reachable pools *)

Inductive pool_step : relation (OrphanBlocksPool Time) :=
| step_orphaned self b : pool_step self (insert_orphaned_block self b)
| step_unknown self now b self' : insert_unknown_block (E := unit) now self b = Ok self' -> pool_step self self'
| step_for_parent self h l self' : remove_blocks_for_parent (E := unit) self h = Ok (l, self') -> pool_step self self'
| step_blocks self hs l self' : remove_blocks (E := unit) self hs = Ok (l, self') -> pool_step self self'
| step_known self l self' : remove_known_blocks (E := unit) self = Ok (l, self') -> pool_step self self'.

Lemma pool_step_wf self self' : pool_step self self' -> wf self -> wf self'.
Proof.
  destruct 1 as [self b|self now b self' Hs|self h l self' Hs|self hs l self' Hs|self l self' Hs]; intros Hw.
  - by apply wf_insert.
  - destruct (insert_unknown_spec (E := unit) now self b Hw) as [H1 H2]. destruct (contains_unknown_block self (block_hash b)).
    + rewrite H2 in Hs by done. done.
    + destruct H1 as (s & H1 & Hws & _); [done|]. rewrite H1 in Hs. by injection Hs as <-.
  - destruct (remove_for_parent_spec (E := unit) self h Hw) as (l' & s & H1 & Hws & _). rewrite H1 in Hs. by injection Hs as _ <-.
  - destruct (remove_blocks_spec (E := unit) self hs Hw) as (l' & s & H1 & Hws & _). rewrite H1 in Hs. by injection Hs as _ <-.
  - unfold remove_known_blocks in Hs. apply bind_Ok in Hs as ([l' s] & Hs1 & Hs2). injection Hs2 as _ <-.
    edestruct (remove_blocks_spec (E := unit) self) as (l2 & s2 & H1 & Hws & _); [done|]. rewrite H1 in Hs1. by injection Hs1 as _ <-.
Qed.

Lemma pool_reachable_wf self : rtc pool_step (new (L := L)) self -> wf self.
Proof.
  generalize orphans_wf_new. generalize (new (L := L)). intros a Hw Hr. induction Hr as [|? ? ? Hs _ IH]; [done|]. apply IH. by eapply pool_step_wf.
Qed.

(** C37: In every pool that is reached, removing what depends on a block ends and gives
    exactly the stored descendants of that block, each once and after its parent; the
    others stay, and none of the removed is unknown any more. *)
Theorem orphan_blocks_in_order {E : Type} pool h :
  rtc pool_step (new (L := L)) pool ->
  exists removed self, remove_blocks_for_parent (E := E) pool h = Ok (removed, self) /\
    (forall b, b ∈ removed <-> descends pool h b) /\ (forall b, stored self b <-> stored pool b /\ ~ descends pool h b) /\
    NoDup removed /\ parents_before h removed /\
    (forall b, b ∈ removed -> contains_unknown_block self (block_hash b) = false).
Proof.
  intros Hw%pool_reachable_wf.
  destruct (remove_for_parent_spec (E := E) pool h Hw) as (removed & self & Hr & _ & Hd & Hs & Hn & Ho & Hu).
  exists removed, self. split_and!; try done. intros b Hb. unfold contains_unknown_block. rewrite lhm_contains_spec, Hu.
  rewrite decide_True by (rewrite list_elem_of_In; apply in_map; by apply list_elem_of_In). apply bool_decide_false. by intros [].
Qed.

(** In every pool that is reached, removing the known blocks ends; what stays are the
    unknown blocks that depend on no known one. *)
Theorem remove_known_blocks_spec {E : Type} pool :
  rtc pool_step (new (L := L)) pool ->
  exists hashes self, remove_known_blocks (E := E) pool = Ok (hashes, self) /\
    (forall h, h ∈ hashes <-> contains_unknown_block pool h = false /\ exists b, stored pool b /\ block_hash b = h) /\
    (forall b, stored self b <-> stored pool b /\ ~ depends pool hashes b).
Proof.
  intros Hw%pool_reachable_wf. unfold remove_known_blocks. set (hs := list_to_set _).
  destruct (remove_blocks_spec (E := E) pool hs Hw) as (removed & self & -> & _ & Hst). rewrite ok_bind.
  exists (hash_iter hs), self. split_and!; [done| |done]. intros h. rewrite hash_iter_elem. by apply known_hashes.
Qed.

End pool.
(** ** A property of the blocks in the pool *)

(** Pools only hold the blocks that were inserted, so that what holds of those holds of all. *)
Section all_blocks.
Context `{HashOrder} {Time : Type} `{L : LinkedHashMap bytes Time} `{!LinkedHashMapEdit bytes Time L}.
Variable P : IndexedBlock -> Prop.
Implicit Types (self pool : OrphanBlocksPool Time) (b : IndexedBlock).

Definition all_of (blocks : gmap bytes (gmap bytes IndexedBlock)) : Prop :=
  forall p m h b, blocks !! p = Some m -> m !! h = Some b -> P b.
Definition all_blocks self : Prop := all_of (orphaned_blocks self).

Lemma all_insert self b : P b -> all_blocks self -> all_blocks (insert_orphaned_block self b).
Proof.
  intros Hb Hall p m h c. cbn. rewrite lookup_insert_Some. intros [[<- <-]|[_ Hm]] Hc; [|by eapply Hall].
  rewrite lookup_insert_Some in Hc. destruct Hc as [[_ <-]|[_ Hc]]; [done|].
  destruct (orphaned_blocks self !! block_parent b) as [m'|] eqn:Hm; cbn in Hc; [by eapply Hall|by rewrite lookup_empty in Hc].
Qed.

Lemma all_insert_unknown {E} now self b pool :
  P b -> insert_unknown_block (E := E) now self b = Ok pool -> all_blocks self -> all_blocks pool.
Proof. intros Hb Hi Hall. apply bind_Ok in Hi as (u & _ & [= <-]). by apply all_insert. Qed.

Lemma all_delete blocks p : all_of blocks -> all_of (delete p blocks).
Proof. intros Hall p' m h b Hm. rewrite lookup_delete_Some in Hm. destruct Hm as [_ Hm]. by eapply Hall. Qed.

Lemma all_remove_loop {E} fuel self queue removed removed' pool :
  remove_for_parent_loop (E := E) fuel self queue removed = Ok (removed', pool) ->
  all_blocks self -> Forall P removed -> all_blocks pool /\ Forall P removed'.
Proof.
  revert self queue removed. induction fuel as [|fuel IH]; intros self [|x queue] removed Hr Hall Hrem; cbn [remove_for_parent_loop] in Hr;
    try (by injection Hr as <- <-); [done|].
  destruct (orphaned_blocks self !! x) as [m|] eqn:Hm; [|by eapply IH]. eapply IH; [exact Hr|by apply all_delete|].
  apply Forall_app_2; [done|]. apply Forall_forall. intros b (h & _ & Hb)%list_elem_of_omap. by eapply Hall.
Qed.

Lemma all_remove_for_parent {E} self h bs pool :
  remove_blocks_for_parent (E := E) self h = Ok (bs, pool) -> all_blocks self -> all_blocks pool /\ Forall P bs.
Proof. intros Hr Hall. by eapply all_remove_loop. Qed.

Lemma remove_orphans_subseteq (m m' : gmap bytes IndexedBlock) hs removed removed' :
  remove_orphans m hs removed = (m', removed') -> m' ⊆ m.
Proof.
  revert m removed. induction hs as [|h hs IH]; intros m removed; cbn [remove_orphans]; [by intros [= <- <-]|].
  destruct (m !! h); [|by apply IH]. intros Hr%IH. etrans; [exact Hr|apply delete_subseteq].
Qed.

Lemma all_retain parents hs blocks removed blocks' removed' :
  retain_loop parents hs blocks removed = (blocks', removed') -> all_of blocks -> all_of blocks'.
Proof.
  revert blocks removed. induction parents as [|p parents IH]; intros blocks removed; cbn [retain_loop]; [by intros [= <- <-]|].
  destruct (blocks !! p) as [m|] eqn:Hm; [|by apply IH].
  destruct (remove_orphans m hs removed) as [m' removed1] eqn:Hr. intros Hl Hall. eapply IH; [exact Hl|]. case_bool_decide.
  - by apply all_delete.
  - intros p' m1 h b. rewrite lookup_insert_Some. intros [[<- <-]|[_ Hm1]] Hb; [|by eapply Hall].
    eapply Hall; [exact Hm|]. eapply lookup_weaken; [exact Hb|by eapply remove_orphans_subseteq].
Qed.

Lemma all_remove_children {E} self hs removed removed' pool :
  remove_children (E := E) self hs removed = Ok (removed', pool) -> all_blocks self -> all_blocks pool.
Proof.
  revert self removed. induction hs as [|h hs IH]; intros self removed; cbn [remove_children]; [by intros [= <- <-]|].
  intros Hr Hall. apply bind_Ok in Hr as ([bs self1] & Hp & Hr). apply all_remove_for_parent in Hp as [Hall1 _]; [|done].
  by eapply IH.
Qed.

Lemma all_remove_blocks {E} self hs removed pool :
  remove_blocks (E := E) self hs = Ok (removed, pool) -> all_blocks self -> all_blocks pool.
Proof.
  unfold remove_blocks. destruct (retain_loop _ _ _ _) as [blocks removed1] eqn:Hr. intros Hc Hall.
  eapply all_remove_children; [exact Hc|]. by eapply all_retain.
Qed.

Lemma all_remove_known {E} self hs pool :
  remove_known_blocks (E := E) self = Ok (hs, pool) -> all_blocks self -> all_blocks pool.
Proof. intros Hr Hall. apply bind_Ok in Hr as ([x pool1] & Hr & [= _ <-]). by eapply all_remove_blocks. Qed.

End all_blocks.

End OrphanBlocksSpec.

(** * Transactions *)

Module OrphanTransactionsSpec.
Import Chain ChainHash OrphanTransactions.

Section pool.
Context `{HashOrder} {Time : Type} `{L : LinkedHashMap bytes (OrphanTransaction Time)} `{!LinkedHashMapLaws L}.
Context `{!LinkedHashMapEdit bytes (OrphanTransaction Time) L} `{!LinkedHashMapEditLaws L _}.

Implicit Types (self pool : OrphanTransactionsPool Time) (o : OrphanTransaction Time) (m : @lhm bytes (OrphanTransaction Time) L).

(** Transactions are under their hashes, and under those of all parents they wait for;
    all wait for some. *)
Record wf self : Prop := {
  wf_hash h o : lhm_get (by_hash self) h = Some o -> itx_hash (orphan_transaction o) = h;
  wf_parent h o p : lhm_get (by_hash self) h = Some o -> p ∈ unknown_parents o -> h ∈ default ∅ (by_parent self !! p);
  wf_waits h o : lhm_get (by_hash self) h = Some o -> unknown_parents o <> ∅;
}.

Lemma tx_wf_new : wf (new (L := L)).
Proof. split; cbn; intros *; by rewrite lhm_get_new. Qed.

Lemma length_without {V} k (l : list (bytes * V)) :
  NoDup (map fst l) -> is_Some (assoc k l) -> length l = S (length (without k l)).
Proof.
  induction l as [|[x v] l IH]; cbn; [by intros _ []|]. intros [Hx Hn]%NoDup_cons Hs. unfold without in *. cbn. case_bool_decide as Hk; cbn.
  - subst. f_equal. symmetry. f_equal. apply List.forallb_filter_id, List.forallb_forall. intros p Hp.
    apply negb_true_iff, bool_decide_eq_false. intros <-. apply Hx. rewrite list_elem_of_In. by apply in_map.
  - f_equal. by apply IH.
Qed.

Lemma lhm_remove_length m k : is_Some (lhm_get m k) -> length (lhm_iter m) = S (length (lhm_iter (lhm_remove m k))).
Proof. rewrite !lhm_iter_spec, lhm_remove_spec, lhm_get_spec. apply length_without, lhm_nodup. Qed.

Lemma lhm_get_mut_length m k f : length (lhm_iter (lhm_get_mut m k f)) = length (lhm_iter m).
Proof. by rewrite !lhm_iter_spec, lhm_get_mut_spec, length_map. Qed.

(** What becomes of the entry of a child when the parent [x] is known. *)
Definition without_parent (x : bytes) (e : option (OrphanTransaction Time)) : option (OrphanTransaction Time) :=
  match e with
  | Some o => if bool_decide (unknown_parents o ∖ {[x]} = ∅) then None else Some (remove_known_parent x o)
  | None => None
  end.

Lemma resolve_children_spec x cs m hs os :
  NoDup cs -> (forall h o, lhm_get m h = Some o -> itx_hash (orphan_transaction o) = h) ->
  exists m' ts, resolve_children x cs m hs os = (m', hs ++ map itx_hash ts, os ++ ts) /\
    (forall k, lhm_get m' k = if decide (k ∈ cs) then without_parent x (lhm_get m k) else lhm_get m k) /\
    (forall t, t ∈ ts -> exists o, itx_hash t ∈ cs /\ lhm_get m (itx_hash t) = Some o /\ orphan_transaction o = t /\ unknown_parents o ∖ {[x]} = ∅) /\
    (forall k o, k ∈ cs -> lhm_get m k = Some o -> unknown_parents o ∖ {[x]} = ∅ -> k ∈ map itx_hash ts) /\
    NoDup (map itx_hash ts) /\ (length (lhm_iter m) = length ts + length (lhm_iter m'))%nat.
Proof.
  revert m hs os. induction cs as [|c cs IH]; intros m hs os Hn Hk; cbn [resolve_children].
  { exists m, []. cbn. rewrite !app_nil_r. split_and!; [done| | | |constructor|done].
    - intros k. by rewrite decide_False by apply not_elem_of_nil.
    - by intros t ?%not_elem_of_nil.
    - by intros k o ?%not_elem_of_nil. }
  apply NoDup_cons in Hn as [Hc Hn]. destruct (lhm_get m c) as [o|] eqn:Ho; [destruct (bool_decide _) eqn:He|].
  - apply bool_decide_eq_true in He. cbn in He. pose proof (Hk _ _ Ho) as Hoh.
    destruct (IH (lhm_remove m c) (hs ++ [c]) (os ++ [orphan_transaction o]) Hn) as (m' & ts & Hr & Hg & Ht & Hall & Hnd & Hl).
    { intros h o'. rewrite lhm_get_remove. case_bool_decide; [done|apply Hk]. }
    exists m', (orphan_transaction o :: ts). cbn [map]. rewrite Hoh. cbn [remove_known_parent orphan_transaction]. rewrite Hr, <- !app_assoc. split_and!.
    + done.
    + intros k. rewrite Hg, lhm_get_remove. destruct (decide (k = c)) as [->|Hne].
      * rewrite decide_False, decide_True by (done || apply list_elem_of_here). rewrite bool_decide_true, Ho by done. cbn. by rewrite bool_decide_true.
      * rewrite bool_decide_false by done. repeat case_decide; set_solver.
    + intros t [->|Hin]%elem_of_cons.
      * exists o. rewrite Hoh. split_and!; try done. apply list_elem_of_here.
      * destruct (Ht t Hin) as (o' & Hcs & Hgo & ? & ?). rewrite lhm_get_remove in Hgo. case_bool_decide; [done|].
        exists o'. split_and!; try done. by right.
    + intros k o' [->|Hin]%elem_of_cons Hgo He'; [apply list_elem_of_here|]. apply list_elem_of_further. eapply Hall; [done| |done].
      rewrite lhm_get_remove. rewrite bool_decide_false; [done|]. by intros ->.
    + apply NoDup_cons. split; [|done]. rewrite list_elem_of_In, in_map_iff. intros (t & <- & Hin%list_elem_of_In).
      destruct (Ht t Hin) as (o' & Hcs & _). done.
    + rewrite (lhm_remove_length m c) by (by rewrite Ho). cbn. lia.
  - apply bool_decide_eq_false in He. cbn in He.
    destruct (IH (lhm_get_mut m c (remove_known_parent x)) hs os Hn) as (m' & ts & Hr & Hg & Ht & Hall & Hnd & Hl).
    { intros h o'. rewrite lhm_get_get_mut. case_bool_decide as Hh; [|apply Hk]. subst. rewrite Ho. cbn. intros [= <-]. by apply (Hk _ _ Ho). }
    exists m', ts. split_and!; [done| | | |done|by rewrite lhm_get_mut_length in Hl].
    + intros k. rewrite Hg, lhm_get_get_mut. destruct (decide (k = c)) as [->|Hne].
      * rewrite decide_False, decide_True by (done || apply list_elem_of_here). rewrite bool_decide_true, Ho by done. cbn. by rewrite bool_decide_false.
      * rewrite bool_decide_false by done. repeat case_decide; set_solver.
    + intros t Hin. destruct (Ht t Hin) as (o' & Hcs & Hgo & ? & ?). rewrite lhm_get_get_mut, bool_decide_false in Hgo by (intros Heq; by rewrite <- Heq in Hcs).
      exists o'. split_and!; try done. by right.
    + intros k o' [->|Hin]%elem_of_cons Hgo He'; [rewrite Ho in Hgo; injection Hgo as <-; done|]. eapply Hall; [done| |done].
      rewrite lhm_get_get_mut, bool_decide_false; [done|]. by intros ->.
  - destruct (IH m hs os Hn Hk) as (m' & ts & Hr & Hg & Ht & Hall & Hnd & Hl). exists m', ts. split_and!; try done.
    + intros k. rewrite Hg. destruct (decide (k = c)) as [->|Hne]; [rewrite Ho|]; repeat case_decide; set_solver.
    + intros t Hin. destruct (Ht t Hin) as (o' & Hcs & ?). exists o'. split; [by right|done].
    + intros k o' [->|Hin]%elem_of_cons Hgo; [congruence|by eapply Hall].
Qed.

(** The entry when the parents [dn] are known. *)
Definition resolved_in (dn : list bytes) o : OrphanTransaction Time :=
  mkOrphanTx (insertion_time o) (orphan_transaction o) (unknown_parents o ∖ list_to_set dn).

(** Every transaction comes after all parents it waited for, but [h]. *)
Definition resolved_before pool (h : bytes) (l : list IndexedTransaction) : Prop :=
  forall l1 t l2, l = l1 ++ t :: l2 -> exists o, lhm_get (by_hash pool) (itx_hash t) = Some o /\ orphan_transaction o = t /\
    forall p, p ∈ unknown_parents o -> p = h \/ p ∈ map itx_hash l1.

(** What holds in the loop when the parents [dn] have been looked at. *)
Record progress pool h self (dn queue : list bytes) (removed : list IndexedTransaction) : Prop := {
  pg_seq : dn ++ queue = h :: map itx_hash removed;
  pg_get k : lhm_get (by_hash self) k =
    match lhm_get (by_hash pool) k with
    | Some o => if decide (k ∈ map itx_hash removed) then None else Some (resolved_in dn o)
    | None => None
    end;
  pg_waits k o : lhm_get (by_hash pool) k = Some o -> k ∉ map itx_hash removed -> unknown_parents (resolved_in dn o) <> ∅;
  pg_parent p : p ∉ dn -> by_parent self !! p = by_parent pool !! p;
  pg_order : resolved_before pool h removed;
  pg_nodup : NoDup (map itx_hash removed);
}.

Lemma resolved_in_snoc dn x o :
  unknown_parents (resolved_in dn o) ∖ {[x]} = unknown_parents (resolved_in (dn ++ [x]) o) /\
  remove_known_parent x (resolved_in dn o) = resolved_in (dn ++ [x]) o.
Proof.
  assert (unknown_parents o ∖ list_to_set dn ∖ {[x]} = unknown_parents o ∖ list_to_set (C := gset bytes) (dn ++ [x])) as Heq
    by (rewrite list_to_set_app_L; set_solver).
  split; [exact Heq|]. unfold remove_known_parent, resolved_in. cbn. by rewrite Heq.
Qed.

Lemma resolved_before_app pool h l ts known :
  resolved_before pool h l -> known ⊆ h :: map itx_hash l ->
  (forall t, t ∈ ts -> exists o, lhm_get (by_hash pool) (itx_hash t) = Some o /\ orphan_transaction o = t /\
    forall p, p ∈ unknown_parents o -> p ∈ known) ->
  resolved_before pool h (l ++ ts).
Proof.
  intros Hl Hk Hts l1 t l2 Heq.
  assert ((exists k, l = l1 ++ t :: k) \/ (exists k, l1 = l ++ k /\ t ∈ ts)) as [(k & ->)|(k & -> & Ht)].
  { apply app_eq_app in Heq as (k & [[-> Heq]|[-> Heq]]).
    - destruct k as [|c k]; cbn in Heq; [right; exists []|left; injection Heq as -> ->; by exists k].
      rewrite !app_nil_r. split; [done|]. rewrite <- Heq. apply list_elem_of_here.
    - right. exists k. split; [done|]. rewrite Heq. set_solver. }
  - by eapply Hl.
  - destruct (Hts t Ht) as (o & Ho & Hot & Hp). exists o. split_and!; [done..|]. intros p Hpp. specialize (Hk p (Hp p Hpp)).
    rewrite map_app. set_solver.
Qed.

Lemma progress_step pool h self dn x queue removed parents' :
  wf pool -> progress pool h self dn (x :: queue) removed -> (forall p, p <> x -> parents' !! p = by_parent self !! p) ->
  let children := default ∅ (by_parent self !! x) in
  exists m ts, resolve_children x (hash_iter children) (by_hash self) [] removed = (m, map itx_hash ts, removed ++ ts) /\
    progress pool h (mkOrphanTxs m parents') (dn ++ [x]) (queue ++ map itx_hash ts) (removed ++ ts) /\
    (length (lhm_iter (by_hash self)) = length ts + length (lhm_iter m))%nat.
Proof.
  intros Hw [Hsq Hg Hwt Hpa Ho Hn] Hp' children.
  destruct (resolve_children_spec x (hash_iter children) (by_hash self) [] removed (hash_iter_nodup _)) as (m & ts & Hr & Hm & Ht & Hall & Hnd & Hl).
  { intros k o. rewrite Hg. destruct (lhm_get (by_hash pool) k) as [o0|] eqn:Ho0; [|done]. case_decide; [done|]. intros [= <-]. by apply (wf_hash _ Hw _ _ Ho0). }
  exists m, ts. split_and!; [done| |done].
  assert (forall t, t ∈ ts -> exists o, lhm_get (by_hash pool) (itx_hash t) = Some o /\ orphan_transaction o = t /\ itx_hash t ∉ map itx_hash removed /\
    unknown_parents (resolved_in (dn ++ [x]) o) = ∅ /\ itx_hash t ∈ hash_iter children) as Hts.
  { intros t Hin. destruct (Ht t Hin) as (o & Hc & Hgo & Hot & He). rewrite Hg in Hgo.
    destruct (lhm_get (by_hash pool) (itx_hash t)) as [o0|]; [|done]. case_decide; [done|]. injection Hgo as <-.
    exists o0. rewrite <- (proj1 (resolved_in_snoc dn x o0)). done. }
  assert (forall k, k ∈ map itx_hash ts -> exists o, lhm_get (by_hash pool) k = Some o /\ k ∉ map itx_hash removed /\
    unknown_parents (resolved_in (dn ++ [x]) o) = ∅ /\ k ∈ hash_iter children) as Htk.
  { intros k. rewrite list_elem_of_In, in_map_iff. intros (t & <- & Hin%list_elem_of_In). destruct (Hts t Hin) as (o & ? & _ & ? & ? & ?). by exists o. }
  assert (forall k o, lhm_get (by_hash pool) k = Some o -> k ∉ map itx_hash removed -> k ∉ hash_iter children ->
    resolved_in (dn ++ [x]) o = resolved_in dn o) as Hsame.
  { intros k o Hk _ Hc. unfold resolved_in. f_equal. rewrite list_to_set_app_L. destruct (decide (x ∈ dn)) as [|Hx]; [set_solver|].
    assert (x ∉ unknown_parents o); [|set_solver]. intros Hxo. apply Hc, hash_iter_elem. unfold children. rewrite (Hpa x Hx). by eapply (wf_parent _ Hw). }
  split; cbn [by_hash by_parent].
  - rewrite map_app. change (h :: map itx_hash removed ++ map itx_hash ts) with ((h :: map itx_hash removed) ++ map itx_hash ts).
    rewrite <- Hsq, <- !app_assoc. done.
  - intros k. rewrite Hm, Hg, map_app. destruct (lhm_get (by_hash pool) k) as [o|] eqn:Ho0; [|by case_decide].
    destruct (decide (k ∈ map itx_hash removed)) as [Hk|Hk]; [rewrite (decide_True _ _ (P := _ ∈ _ ++ _)) by set_solver; by case_decide|].
    destruct (decide (k ∈ map itx_hash ts)) as [Hkt|Hkt].
    + rewrite (decide_True _ _ (P := _ ∈ _ ++ _)) by set_solver. destruct (Htk k Hkt) as (o' & Ho' & _ & He & Hc). rewrite Ho0 in Ho'. injection Ho' as <-.
      rewrite decide_True by done. cbn. by rewrite bool_decide_true by (by rewrite <- He, <- (proj1 (resolved_in_snoc dn x o))).
    + rewrite (decide_False _ _ (P := _ ∈ _ ++ _)) by set_solver. case_decide as Hc; [|by rewrite (Hsame k o)].
      cbn. rewrite bool_decide_false.
      * f_equal. apply resolved_in_snoc.
      * intros He. apply Hkt. apply (Hall k (resolved_in dn o)); [done| |exact He]. rewrite Hg, Ho0. by rewrite decide_False.
  - intros k o Hk. rewrite map_app, not_elem_of_app. intros [Hkr Hkt] He.
    destruct (decide (k ∈ hash_iter children)) as [Hc|Hc].
    + apply Hkt. apply (Hall k (resolved_in dn o)); [done| |rewrite (proj1 (resolved_in_snoc dn x o)); exact He]. rewrite Hg, Hk. by rewrite decide_False.
    + rewrite (Hsame k o) in He by done. by eapply Hwt.
  - intros p [Hp Hx]%not_elem_of_app. rewrite Hp' by set_solver. by apply Hpa.
  - apply (resolved_before_app _ _ _ _ (dn ++ [x])); [done| |].
    + rewrite <- Hsq. set_solver.
    + intros t Hin. destruct (Hts t Hin) as (o & Ho0 & Hot & _ & He & _). exists o. split_and!; [done..|]. intros p Hp.
      destruct (decide (p ∈ dn ++ [x])) as [|Hn']; [done|]. exfalso. assert (p ∈ unknown_parents (resolved_in (dn ++ [x]) o)) as Hpe; [|rewrite He in Hpe; set_solver].
      cbn. rewrite elem_of_difference, elem_of_list_to_set. done.
  - rewrite map_app. apply NoDup_app. split_and!; [done| |done]. intros k Hk Hkt. by destruct (Htk k Hkt) as (o & _ & ? & _).
Qed.

Lemma resolve_loop_spec {E : Type} fuel pool h self dn queue removed :
  wf pool -> progress pool h self dn queue removed -> (length queue + length (lhm_iter (by_hash self)) <= fuel)%nat ->
  exists removed' self' dn', remove_for_parent_loop (E := E) fuel self queue removed = Ok (removed', self') /\
    progress pool h self' dn' [] removed'.
Proof.
  intros Hw. revert self dn queue removed. induction fuel as [|fuel IH]; intros self dn [|x queue] removed Hp Hf;
    cbn [length] in Hf; try (by exists removed, self, dn); [lia|]. cbn [remove_for_parent_loop].
  destruct (by_parent self !! x) as [children|] eqn:Hc.
  - destruct (progress_step pool h self dn x queue removed (delete x (by_parent self)) Hw Hp) as (m & ts & Hr & Hp' & Hl).
    { intros p Hpx. by rewrite lookup_delete_ne. }
    rewrite Hc in Hr. cbn in Hr. rewrite Hr. eapply IH; [exact Hp'|]. rewrite length_app, length_map. cbn. lia.
  - destruct (progress_step pool h self dn x queue removed (by_parent self) Hw Hp) as (m & ts & Hr & Hp' & Hl); [done|].
    assert (hash_iter ∅ = []) as Hnil by (apply length_zero_iff_nil; by rewrite hash_iter_length).
    rewrite Hc in Hr. cbn in Hr. rewrite Hnil in Hr. cbn in Hr. injection Hr as Hm Hts Hrem.
    destruct ts; [|done]. rewrite !app_nil_r in Hp'. subst m. eapply IH; [|lia]. destruct self. exact Hp'.
Qed.

Lemma tx_progress_start pool h : wf pool -> progress pool h pool [] [h] [].
Proof.
  intros Hw. assert (forall o, resolved_in [] o = o) as Hr by (intros []; unfold resolved_in; cbn; f_equal; set_solver). split.
  - done.
  - intros k. destruct (lhm_get (by_hash pool) k); [|done]. by rewrite decide_False, Hr by apply not_elem_of_nil.
  - intros k o Hk _. rewrite Hr. by eapply (wf_waits _ Hw).
  - done.
  - by intros [|? ?] ? ?.
  - constructor.
Qed.

Lemma progress_wf pool h self dn removed : wf pool -> progress pool h self dn [] removed -> wf self.
Proof.
  intros Hw [Hsq Hg Hwt Hpa Ho Hn].
  assert (forall k o, lhm_get (by_hash self) k = Some o -> exists o0, lhm_get (by_hash pool) k = Some o0 /\ o = resolved_in dn o0 /\ k ∉ map itx_hash removed) as Hs.
  { intros k o. rewrite Hg. destruct (lhm_get (by_hash pool) k) as [o0|]; [|done]. case_decide; [done|]. intros [= <-]. by exists o0. }
  split.
  - intros k o (o0 & Ho0 & -> & _)%Hs. by apply (wf_hash _ Hw _ _ Ho0).
  - intros k o p (o0 & Ho0 & -> & _)%Hs. cbn. rewrite elem_of_difference, elem_of_list_to_set. intros [Hp Hpd].
    rewrite Hpa by done. by eapply (wf_parent _ Hw).
  - intros k o (o0 & Ho0 & -> & Hk)%Hs. by eapply Hwt.
Qed.

Lemma resolve_for_parent_spec {E : Type} pool h :
  wf pool -> contains pool h = false ->
  exists removed self, remove_transactions_for_parent (E := E) pool h = Ok (removed, self) /\ wf self /\
    progress pool h self (h :: map itx_hash removed) [] removed.
Proof.
  intros Hw Hc. unfold remove_transactions_for_parent. unfold contains in Hc. rewrite Hc. cbn [negb rust_assert]. rewrite ok_bind.
  destruct (resolve_loop_spec (E := E) (S (length (lhm_iter (by_hash pool)))) pool h pool [] [h] [] Hw (tx_progress_start pool h Hw))
    as (removed & self & dn & Hr & Hp); [cbn; lia|]. exists removed, self. pose proof (pg_seq _ _ _ _ _ _ Hp) as Hsq. rewrite app_nil_r in Hsq. subst dn.
  split_and!; [exact Hr|by eapply progress_wf|done].
Qed.

Lemma wf_remove self h : wf self -> wf (mkOrphanTxs (lhm_remove (by_hash self) h) (by_parent self)).
Proof.
  intros Hw. split; cbn; intros k o; [|intros p|]; rewrite lhm_get_remove; (case_bool_decide; [done|]).
  - apply (wf_hash _ Hw).
  - apply (wf_parent _ Hw).
  - apply (wf_waits _ Hw).
Qed.

Lemma remove_transactions_spec {E : Type} self hs removed :
  wf self -> exists removed' self', remove_transactions_loop (E := E) self hs removed = Ok (removed', self') /\ wf self'.
Proof.
  revert self removed. induction hs as [|h hs IH]; intros self removed Hw; cbn [remove_transactions_loop]; [by exists removed, self|].
  destruct (resolve_for_parent_spec (E := E) _ h (wf_remove self h Hw)) as (more & self1 & -> & Hw1 & _).
  { unfold contains. rewrite lhm_contains_spec. apply bool_decide_false. cbn. rewrite lhm_get_remove, bool_decide_true by done. by intros []. }
  rewrite ok_bind. by apply IH.
Qed.

Lemma add_parents_spec (hash : bytes) (ps : list bytes) (m : gmap bytes (gset bytes)) (p : bytes) :
  default ∅ (foldl (add_parent hash) m ps !! p) = (if decide (p ∈ ps) then {[hash]} else ∅) ∪ default ∅ (m !! p).
Proof.
  revert m. induction ps as [|q ps IH]; intros m; [rewrite decide_False by apply not_elem_of_nil; set_solver|]. cbn [foldl]. rewrite IH.
  unfold add_parent. destruct (decide (p = q)) as [->|Hne].
  - rewrite lookup_insert_eq. rewrite (decide_True _ _ (P := _ ∈ _ :: _)) by apply list_elem_of_here. case_decide; set_solver.
  - rewrite lookup_insert_ne by done. f_equal. repeat case_decide; set_solver.
Qed.

(** Inserting an orphan succeeds when it is new and spends what it waits for. *)
Lemma insert_orphan_tx_spec {E : Type} now self t ps :
  wf self -> contains self (itx_hash t) = false -> ps <> ∅ -> (forall p, p ∈ ps -> spends_hash t p = true) ->
  exists self', insert (E := E) now self t ps = Ok self' /\ wf self' /\
    lhm_get (by_hash self') (itx_hash t) = Some (mkOrphanTx now t ps).
Proof.
  intros Hw Hc Hne Hs. unfold insert. unfold contains in Hc. rewrite Hc. cbn [negb rust_assert]. rewrite ok_bind.
  assert (forallb (spends_hash t) (hash_iter ps) = true) as ->.
  { apply forallb_forall. intros p Hp%list_elem_of_In. apply Hs. by apply hash_iter_elem in Hp. }
  cbn. eexists. split; [done|]. split; [|cbn; by rewrite lhm_get_insert, bool_decide_true].
  split; cbn; intros k o; [|intros p|]; rewrite lhm_get_insert; case_bool_decide as Hk.
  - intros [= <-]. done.
  - apply (wf_hash _ Hw).
  - intros [= <-]. cbn. rewrite add_parents_spec. intros Hp. rewrite decide_True by (by apply hash_iter_elem). set_solver.
  - intros Ho Hp. rewrite add_parents_spec. pose proof (wf_parent _ Hw _ _ _ Ho Hp). set_solver.
  - by intros [= <-].
  - apply (wf_waits _ Hw).
Qed.

Inductive pool_step : relation (OrphanTransactionsPool Time) :=
| step_insert self now t ps self' : ps <> ∅ -> insert (E := unit) now self t ps = Ok self' -> pool_step self self'
| step_for_parent self h l self' : remove_transactions_for_parent (E := unit) self h = Ok (l, self') -> pool_step self self'
| step_remove self hs l self' : remove_transactions (E := unit) self hs = Ok (l, self') -> pool_step self self'.

Lemma tx_pool_step_wf self self' : pool_step self self' -> wf self -> wf self'.
Proof.
  destruct 1 as [self now t ps self' Hne Hs|self h l self' Hs|self hs l self' Hs]; intros Hw.
  - assert (contains self (itx_hash t) = false /\ forallb (spends_hash t) (hash_iter ps) = true) as [Hc Hf].
    { unfold insert in Hs. unfold contains. destruct (lhm_contains_key _ _); [done|]. cbn in Hs. by destruct (forallb _ _). }
    destruct (insert_orphan_tx_spec (E := unit) now self t ps Hw Hc Hne) as (s & Hs1 & Hws & _); [|rewrite Hs1 in Hs; by injection Hs as <-].
    intros p Hp. apply (proj1 (forallb_forall _ _) Hf). by apply list_elem_of_In, hash_iter_elem.
  - destruct (contains self h) eqn:Hc.
    + unfold remove_transactions_for_parent, contains in *. by rewrite Hc in Hs.
    + destruct (resolve_for_parent_spec (E := unit) self h Hw Hc) as (l' & s & Hs1 & Hws & _). rewrite Hs1 in Hs. by injection Hs as _ <-.
  - destruct (remove_transactions_spec (E := unit) self hs [] Hw) as (l' & s & Hs1 & Hws). unfold remove_transactions in Hs. rewrite Hs1 in Hs. by injection Hs as _ <-.
Qed.

Lemma tx_pool_reachable_wf self : rtc pool_step (new (L := L)) self -> wf self.
Proof.
  generalize tx_wf_new. generalize (new (L := L)). intros a Hw Hr. induction Hr as [|? ? ? Hs _ IH]; [done|]. apply IH. by eapply tx_pool_step_wf.
Qed.

(** In every pool that is reached, when a transaction [h] that is no orphan becomes
    known, the loop ends.  It gives distinct orphans, each after all the parents it
    waited for, and takes them out; every other orphan still waits for a parent, and only
    for parents that are neither [h] nor given. *)
Theorem orphan_transactions_in_order {E : Type} pool h :
  rtc pool_step (new (L := L)) pool -> contains pool h = false ->
  exists removed self, remove_transactions_for_parent (E := E) pool h = Ok (removed, self) /\
    resolved_before pool h removed /\ NoDup (map itx_hash removed) /\
    (forall k, lhm_get (by_hash self) k =
       match lhm_get (by_hash pool) k with
       | Some o => if decide (k ∈ map itx_hash removed) then None else Some (resolved_in (h :: map itx_hash removed) o)
       | None => None
       end) /\
    (forall k o, lhm_get (by_hash self) k = Some o -> unknown_parents o <> ∅).
Proof.
  intros Hw%tx_pool_reachable_wf Hc. destruct (resolve_for_parent_spec (E := E) pool h Hw Hc) as (removed & self & Hr & Hws & [Hsq Hg Hwt Hpa Ho Hn]).
  exists removed, self. split_and!; try done. apply (wf_waits _ Hws).
Qed.

End pool.
End OrphanTransactionsSpec.

(** * Examples *)

Section witnesses.
Import Chain ChainHash MemoryPoolSpec.ExamplePool ExampleLinked.

Definition example_block (n parent : byte) : IndexedBlock :=
  mkIndexedBlock (mkIndexedHeader (example_hash n) (mkHeader 1 (example_hash parent) zero_hash 0 0 0)) [].
Definition example_orphan_blocks : OrphanBlocks.OrphanBlocksPool Z :=
  OrphanBlocks.insert_orphaned_block (OrphanBlocks.insert_orphaned_block OrphanBlocks.new (example_block x03 x02)) (example_block x02 x01).

Lemma example_blocks_reachable : rtc OrphanBlocksSpec.pool_step (OrphanBlocks.new (L := example_linked Z)) example_orphan_blocks.
Proof. eapply rtc_l; [apply OrphanBlocksSpec.step_orphaned|]. apply rtc_once, OrphanBlocksSpec.step_orphaned. Qed.

Lemma orphan_blocks_in_order_witness :
  exists removed self, OrphanBlocks.remove_blocks_for_parent (E := unit) example_orphan_blocks (example_hash x01) = Ok (removed, self) /\
    NoDup removed /\ OrphanBlocksSpec.parents_before (example_hash x01) removed.
Proof.
  destruct (OrphanBlocksSpec.orphan_blocks_in_order (E := unit) example_orphan_blocks (example_hash x01) example_blocks_reachable)
    as (removed & self & Hr & _ & _ & Hn & Ho & _). exists removed, self. split_and!; [exact Hr|exact Hn|exact Ho].
Defined.

Lemma remove_known_blocks_spec_witness :
  exists hashes self, OrphanBlocks.remove_known_blocks (E := unit) example_orphan_blocks = Ok (hashes, self) /\
    (forall b, OrphanBlocksSpec.stored self b <-> OrphanBlocksSpec.stored example_orphan_blocks b /\ ~ OrphanBlocksSpec.depends example_orphan_blocks hashes b).
Proof.
  destruct (OrphanBlocksSpec.remove_known_blocks_spec (E := unit) example_orphan_blocks example_blocks_reachable) as (hashes & self & Hr & _ & Hs).
  exists hashes, self. split; [exact Hr|exact Hs].
Defined.

(** A child that waits for two parents, one of which is an orphan itself. *)
Definition example_orphan (n : byte) (parents : list byte) : IndexedTransaction := example_spender n (map (fun p => (p, 0)) parents) 1.
Definition orphaned (self : OrphanTransactions.OrphanTransactionsPool Z) (n : byte) (parents : list byte) : OrphanTransactions.OrphanTransactionsPool Z :=
  match OrphanTransactions.insert (E := unit) 0 self (example_orphan n parents) (list_to_set (map example_hash parents)) with
  | Ok s => s | _ => self end.
Definition example_orphan_txs : OrphanTransactions.OrphanTransactionsPool Z :=
  orphaned (orphaned OrphanTransactions.new x02 [x01]) x03 [x02; x04].

Lemma orphaned_step self n parents :
  list_to_set (C := gset bytes) (map example_hash parents) <> ∅ ->
  (exists s, OrphanTransactions.insert (E := unit) 0 self (example_orphan n parents) (list_to_set (map example_hash parents)) = Ok s) ->
  OrphanTransactionsSpec.pool_step self (orphaned self n parents).
Proof.
  intros Hne [s Hs]. eapply (OrphanTransactionsSpec.step_insert self 0); [exact Hne|]. unfold orphaned. by rewrite Hs.
Qed.

Lemma example_txs_reachable : rtc OrphanTransactionsSpec.pool_step (OrphanTransactions.new (L := example_linked _)) example_orphan_txs.
Proof.
  eapply rtc_l; [apply (orphaned_step _ x02 [x01])|apply rtc_once, (orphaned_step _ x03 [x02; x04])].
  - discriminate.
  - eexists. reflexivity.
  - discriminate.
  - eexists. reflexivity.
Qed.

Lemma orphan_transactions_in_order_witness :
  exists removed self, OrphanTransactions.remove_transactions_for_parent (E := unit) example_orphan_txs (example_hash x01) = Ok (removed, self) /\
    OrphanTransactionsSpec.resolved_before example_orphan_txs (example_hash x01) removed.
Proof.
  destruct (OrphanTransactionsSpec.orphan_transactions_in_order (E := unit) example_orphan_txs (example_hash x01) example_txs_reachable)
    as (removed & self & Hr & Ho & _); [reflexivity|]. exists removed, self. split; [exact Hr|exact Ho].
Defined.

(** When an orphan is removed, a child that waits for another parent too stays, and no
    longer waits for the one that was removed: it is given out when the other parent
    comes. *)
Theorem orphan_of_removed_parent :
  match OrphanTransactions.remove_transactions (E := unit) example_orphan_txs [example_hash x02] with
  | Ok (removed, self) =>
      removed = [example_orphan x02 [x01]] /\
      match OrphanTransactions.remove_transactions_for_parent (E := unit) self (example_hash x04) with
      | Ok (txs, _) => txs = [example_orphan x03 [x02; x04]]
      | _ => False
      end
  | _ => False
  end.
Proof. vm_compute. auto. Qed.

End witnesses.
