(* ===== verification/SyncChain.v ===== *)
(** The chain as synchronization sees it (src/sync/src/synchronization_chain.rs): the
    blocks of the storage, and the queues of blocks that are verified, requested and
    scheduled, with their headers, the memory pool and the transactions that are
    verified.

    The storage is the database of Db.v, the queues are those of HashQueue.v, the memory
    pool that of MemoryPool.v.  Other components share the storage and the memory pool;
    here they are part of the state.  When the storage fails, the caller of
    [insert_best_block] panics, so no state is kept with an error. *)
From Stdlib Require Import ZArith Lia Strings.Byte.
From stdpp Require Import base decidable numbers countable gmap list.
From S2P Require Import Prelude Crypto Serialization Codec Chain ChainHash Network Storage Kv Db LinkedMap HashQueue MemoryPool.

Local Open Scope Z_scope.

Module SyncChain.
Import Ser Chain ChainHash Network Storage HashQueue BestHeaders.

Definition VERIFYING_QUEUE : nat := 0.
Definition REQUESTED_QUEUE : nat := 1.
Definition SCHEDULED_QUEUE : nat := 2.
Definition NUMBER_OF_QUEUES : nat := 3.

Record BlockInsertionResult := mkInsertion {
  canonized_blocks_hashes : list bytes;
  transactions_to_reverify : list IndexedTransaction;
}.

Inductive BlockState := UnknownBlock | Scheduled | Requested | Verifying | Stored | DeadEnd.
Inductive TransactionState := UnknownTransaction | VerifyingTransaction | InMemory | StoredTransaction.

Definition from_queue_index {E} (queue_index : nat) : outcome E BlockState :=
  match queue_index with
  | 2 => Ok Scheduled
  | 1 => Ok Requested
  | 0 => Ok Verifying
  | _ => Panic
  end%nat.

Definition to_queue_index {E} (self : BlockState) : outcome E nat :=
  match self with
  | Scheduled => Ok SCHEDULED_QUEUE
  | Requested => Ok REQUESTED_QUEUE
  | Verifying => Ok VERIFYING_QUEUE
  | _ => Panic
  end.

Section chain.
Context `{BitVec} {T : Type} `{!Kv.KeyValueDatabase T} `{HashOrder}.
Context `{L : LinkedHashMap bytes IndexedTransaction} `{!LinkedHashMapEdit bytes IndexedTransaction L}.

Record Chain := mkChain {
  genesis_block_hash : bytes;
  best_storage_block : BestBlock;
  storage : Db.BlockChainDatabase T;
  hash_chain : HashQueueChain;
  headers_chain : BestHeadersChain;
  verifying_transactions : @lhm bytes IndexedTransaction L;
  memory_pool : MemoryPool.Pool;
  dead_end_blocks : gset bytes;
  segwit_possible : bool;
}.

(** The chain with other queues, other transactions, another storage. *)
Definition with_queues (self : Chain) (q : HashQueueChain) (hs : BestHeadersChain) : Chain :=
  mkChain (genesis_block_hash self) (best_storage_block self) (storage self) q hs (verifying_transactions self)
    (memory_pool self) (dead_end_blocks self) (segwit_possible self).
Definition with_transactions (self : Chain) (v : @lhm bytes IndexedTransaction L) (p : MemoryPool.Pool) : Chain :=
  mkChain (genesis_block_hash self) (best_storage_block self) (storage self) (hash_chain self) (headers_chain self) v
    p (dead_end_blocks self) (segwit_possible self).
Definition with_storage (self : Chain) (best : BestBlock) (s : Db.BlockChainDatabase T) (hs : BestHeadersChain) : Chain :=
  mkChain (genesis_block_hash self) best s (hash_chain self) hs (verifying_transactions self)
    (memory_pool self) (dead_end_blocks self) (segwit_possible self).

Definition new {E} (storage : Db.BlockChainDatabase T) (consensus : ConsensusParams) (memory_pool : MemoryPool.Pool) : outcome E Chain :=
  genesis ← Db.block_hash storage 0;
  genesis_block_hash ← expect genesis;
  let best_storage_block := Db.best_block storage in
  hash_chain ← with_number_of_queues NUMBER_OF_QUEUES;
  Ok (mkChain genesis_block_hash best_storage_block storage hash_chain (BestHeaders.new (bb_hash best_storage_block)) lhm_new
        memory_pool ∅ (is_segwit_possible consensus)).

(** * What the chain holds *)

Record Information := mkInformation {
  scheduled : Z;
  requested : Z;
  verifying : Z;
  stored : Z;
  transactions : MemoryPool.Information;
  headers : Z * Z;
}.

Definition information {E} (self : Chain) : outcome E Information :=
  scheduled ← len_of (hash_chain self) SCHEDULED_QUEUE;
  requested ← len_of (hash_chain self) REQUESTED_QUEUE;
  verifying ← len_of (hash_chain self) VERIFYING_QUEUE;
  stored ← ucheck 32 (bb_number (best_storage_block self) + 1);
  Ok (mkInformation scheduled requested verifying stored (MemoryPool.information (memory_pool self))
        (BestHeaders.information (headers_chain self))).

Definition length_of_blocks_state {E} (self : Chain) (state : BlockState) : outcome E Z :=
  match state with
  | Stored => ucheck 32 (bb_number (best_storage_block self) + 1)
  | _ => i ← to_queue_index state; len_of (hash_chain self) i
  end.

Definition best_n_of_blocks_state {E} (self : Chain) (state : BlockState) (n : Z) : outcome E (list bytes) :=
  match state with
  | Scheduled | Requested | Verifying => i ← to_queue_index state; front_n_at (hash_chain self) i n
  | _ => Panic
  end.

Definition best_block {E} (self : Chain) : outcome E BestBlock :=
  back ← chain_back (hash_chain self);
  match back with
  | Some hash =>
      len ← chain_len (hash_chain self);
      number ← ucheck 32 (bb_number (best_storage_block self) + len);
      Ok (mkBest number hash)
  | None => Ok (best_storage_block self)
  end.

Definition best_block_header {E} (self : Chain) : outcome E BestBlock :=
  let best := (BestHeaders.information (headers_chain self)).1 in
  if best =? 0 then Ok (best_storage_block self) else
  number ← ucheck 32 (bb_number (best_storage_block self) + best);
  header ← expect (header_at (headers_chain self) (best - 1));
  Ok (mkBest number (ih_hash header)).

Definition block_hash {E} (self : Chain) (number : Z) : outcome E (option bytes) :=
  if number <=? bb_number (best_storage_block self) then Db.block_hash (storage self) number
  else chain_at (hash_chain self) (number - bb_number (best_storage_block self)).

Definition block_number {E} (self : Chain) (hash : bytes) : outcome E (option Z) :=
  stored ← Db.block_number (storage self) hash;
  match stored with
  | Some number => Ok (Some number)
  | None =>
      match height (headers_chain self) hash with
      | Some p =>
          n ← ucheck 32 (bb_number (best_storage_block self) + p);
          n ← ucheck 32 (n + 1);
          Ok (Some n)
      | None => Ok None
      end
  end.

Definition block_header_by_number {E} (self : Chain) (number : Z) : outcome E (option IndexedBlockHeader) :=
  if number <=? bb_number (best_storage_block self) then Db.block_header (storage self) (Number number)
  else Ok (header_at (headers_chain self) (number - bb_number (best_storage_block self))).

Definition block_header_by_hash {E} (self : Chain) (hash : bytes) : outcome E (option IndexedBlockHeader) :=
  stored ← Db.block_header (storage self) (Hash hash);
  match stored with
  | Some header => Ok (Some header)
  | None => Ok (BestHeaders.by_hash (headers_chain self) hash)
  end.

(** The trait [BlockHeaderProvider] of the chain. *)
Definition block_header {E} (self : Chain) (block_ref : BlockRef) : outcome E (option IndexedBlockHeader) :=
  match block_ref with
  | Hash hash => block_header_by_hash self hash
  | Number n => block_header_by_number self n
  end.
Definition block_header_bytes {E} (self : Chain) (block_ref : BlockRef) : outcome E (option bytes) :=
  h ← block_header self block_ref; Ok (option_map (fun h => to_bytes header_codec (ih_raw h)) h).

Definition block_state {E} (self : Chain) (hash : bytes) : outcome E BlockState :=
  match contains_in (hash_chain self) hash with
  | Some queue_index => from_queue_index queue_index
  | None =>
      stored ← Db.contains_block (storage self) (Hash hash);
      if (stored : bool) then Ok Stored
      else if bool_decide (hash ∈ dead_end_blocks self) then Ok DeadEnd
      else Ok UnknownBlock
  end.

(** * Block locators *)

(** The index goes down at least by one in each round. *)
Fixpoint locator_queue_loop {E} (fuel : nat) (self : Chain) (index step : Z) (hashes : list bytes)
    : outcome E (list bytes * Z * Z) :=
  match fuel with
  | O => Diverge
  | S fuel =>
      block_hash ← index_chain (hash_chain self) index;
      let hashes := hashes ++ [block_hash] in
      let step := if 10 <=? zlen hashes then wrap 32 (step * 2) else step in
      if index <? step then
        local_index ← ucheck 32 (step - index - 1);
        Ok (hashes, local_index, step)
      else locator_queue_loop fuel self (index - step) step hashes
  end.

Definition block_locator_hashes_for_queue {E} (self : Chain) (hashes : list bytes) : outcome E (list bytes * Z * Z) :=
  queue_len ← chain_len (hash_chain self);
  if queue_len =? 0 then Ok (hashes, 0, 1) else
  locator_queue_loop (Z.to_nat queue_len) self (queue_len - 1) 1 hashes.

Fixpoint block_locator_hashes_for_storage {E} (fuel : nat) (self : Chain) (index step : Z) (hashes : list bytes)
    : outcome E (list bytes) :=
  match fuel with
  | O => Diverge
  | S fuel =>
      stored ← Db.block_hash (storage self) index;
      block_hash ← expect stored;
      let hashes := hashes ++ [block_hash] in
      let step := if 10 <=? zlen hashes then wrap 32 (step * 2) else step in
      if index <? step then Ok (if negb (index =? 0) then hashes ++ [genesis_block_hash self] else hashes)
      else block_locator_hashes_for_storage fuel self (index - step) step hashes
  end.

Definition block_locator_hashes {E} (self : Chain) : outcome E (list bytes) :=
  '(hashes, local_index, step) ← block_locator_hashes_for_queue self [];
  let best := bb_number (best_storage_block self) in
  let storage_index := if best <? local_index then 0 else best - local_index in
  block_locator_hashes_for_storage (S (Z.to_nat storage_index)) self storage_index step hashes.

(** * Queues *)

Definition schedule_blocks_headers {E} (self : Chain) (hs : list IndexedBlockHeader) : outcome E Chain :=
  q ← push_back_n_at (hash_chain self) SCHEDULED_QUEUE (map ih_hash hs);
  headers ← insert_n (headers_chain self) hs;
  Ok (with_queues self q headers).

Definition request_blocks_hashes {E} (self : Chain) (n : Z) : outcome E (list bytes * Chain) :=
  '(scheduled, q) ← pop_front_n_at (hash_chain self) SCHEDULED_QUEUE n;
  q ← push_back_n_at q REQUESTED_QUEUE scheduled;
  Ok (scheduled, with_queues self q (headers_chain self)).

Definition verify_block {E} (self : Chain) (header : IndexedBlockHeader) : outcome E Chain :=
  q ← push_back_at (hash_chain self) VERIFYING_QUEUE (ih_hash header);
  headers ← BestHeaders.insert (headers_chain self) header;
  Ok (with_queues self q headers).

Fixpoint verify_blocks {E} (self : Chain) (blocks : list IndexedBlockHeader) : outcome E Chain :=
  match blocks with
  | [] => Ok self
  | block :: blocks => self ← verify_block self block; verify_blocks self blocks
  end.

Definition mark_dead_end_block (self : Chain) (hash : bytes) : Chain :=
  mkChain (genesis_block_hash self) (best_storage_block self) (storage self) (hash_chain self) (headers_chain self)
    (verifying_transactions self) (memory_pool self) ({[hash]} ∪ dead_end_blocks self) (segwit_possible self).

Definition forget_block_with_state_leave_header {E} (self : Chain) (hash : bytes) (state : BlockState)
    : outcome E (HashPosition * Chain) :=
  i ← to_queue_index state;
  '(position, q) ← remove_at (hash_chain self) i hash;
  Ok (position, with_queues self q (headers_chain self)).

Definition forget_block_leave_header {E} (self : Chain) (hash : bytes) : outcome E (HashPosition * Chain) :=
  '(position, q) ← remove_at (hash_chain self) VERIFYING_QUEUE hash;
  match position with
  | Missing =>
      '(position, q) ← remove_at q REQUESTED_QUEUE hash;
      match position with
      | Missing =>
          '(position, q) ← remove_at q SCHEDULED_QUEUE hash;
          Ok (position, with_queues self q (headers_chain self))
      | position => Ok (position, with_queues self q (headers_chain self))
      end
  | position => Ok (position, with_queues self q (headers_chain self))
  end.

Definition forget_block {E} (self : Chain) (hash : bytes) : outcome E (HashPosition * Chain) :=
  headers ← BestHeaders.remove (headers_chain self) hash;
  forget_block_leave_header (with_queues self (hash_chain self) headers) hash.

Fixpoint forget_blocks {E} (self : Chain) (hashes : list bytes) : outcome E Chain :=
  match hashes with
  | [] => Ok self
  | hash :: hashes => '(_, self) ← forget_block self hash; forget_blocks self hashes
  end.

Fixpoint forget_blocks_leave_header {E} (self : Chain) (hashes : list bytes) : outcome E Chain :=
  match hashes with
  | [] => Ok self
  | hash :: hashes => '(_, self) ← forget_block_leave_header self hash; forget_blocks_leave_header self hashes
  end.

(** A hash has at most one child, the next of the best headers. *)
Fixpoint removal_stack_loop {E} (fuel : nat) (self : Chain) (removal_queue removal_stack : list bytes) : outcome E (list bytes) :=
  match removal_queue with
  | [] => Ok removal_stack
  | hash :: removal_queue =>
      match fuel with
      | O => Diverge
      | S fuel =>
          next ← children (headers_chain self) hash;
          removal_stack_loop fuel self (removal_queue ++ next) (removal_stack ++ [hash])
      end
  end.

Definition forget_block_with_children {E} (self : Chain) (hash : bytes) : outcome E Chain :=
  stack ← removal_stack_loop (S (length (queue (best (headers_chain self))))) self [hash] [];
  forget_blocks self (rev stack).

Definition forget_all_blocks_with_state {E} (self : Chain) (state : BlockState) : outcome E Chain :=
  i ← to_queue_index state;
  '(hashes, q) ← remove_all_at (hash_chain self) i;
  headers ← remove_n (headers_chain self) hashes;
  Ok (with_queues self q headers).

(** * Inserting blocks *)

(** For an accepted transaction: it leaves the memory pool and the verified ones. *)
Definition forget_accepted (hash : bytes) (pool : MemoryPool.Pool) (v : @lhm bytes IndexedTransaction L)
    : outcome StorageError (MemoryPool.Pool * @lhm bytes IndexedTransaction L) :=
  '(_, pool) ← MemoryPool.remove_by_hash pool hash;
  Ok (pool, lhm_remove v hash).

Fixpoint remove_spenders {E} (pool : MemoryPool.Pool) (ins : list TransactionInput) : outcome E MemoryPool.Pool :=
  match ins with
  | [] => Ok pool
  | input :: ins => '(_, pool) ← MemoryPool.remove_by_prevout pool (previous_output input); remove_spenders pool ins
  end.

Fixpoint accept_transactions (txs : list IndexedTransaction) (pool : MemoryPool.Pool) (v : @lhm bytes IndexedTransaction L)
    : outcome StorageError (MemoryPool.Pool * @lhm bytes IndexedTransaction L) :=
  match txs with
  | [] => Ok (pool, v)
  | tx :: txs =>
      '(pool, v) ← forget_accepted (itx_hash tx) pool v;
      pool ← remove_spenders pool (inputs (itx_raw tx));
      accept_transactions txs pool v
  end.

Fixpoint accept_hashes (hashes : list bytes) (pool : MemoryPool.Pool) (v : @lhm bytes IndexedTransaction L)
    : outcome StorageError (MemoryPool.Pool * @lhm bytes IndexedTransaction L) :=
  match hashes with
  | [] => Ok (pool, v)
  | hash :: hashes => '(pool, v) ← forget_accepted hash pool v; accept_hashes hashes pool v
  end.

(** [flat_map] over the blocks of a route. *)
Fixpoint route_items {A} (f : bytes -> outcome StorageError (list A)) (route : list bytes) : outcome StorageError (list A) :=
  match route with
  | [] => Ok []
  | hash :: route => items ← f hash; rest ← route_items f route; Ok (items ++ rest)
  end.

Definition insert_to_main (self : Chain) (block : IndexedBlock) : outcome StorageError (BlockInsertionResult * Chain) :=
  let hash := ih_hash (ib_header block) in
  s ← Db.insert (storage self) block;
  s ← Db.canonize s hash;
  let best := Db.best_block s in
  let self := with_storage self best s (block_inserted_to_storage (headers_chain self) hash (bb_hash best)) in
  _ ← rust_assert (bool_decide (bb_hash (best_storage_block self) = hash));
  '(pool, v) ← accept_transactions (ib_transactions block) (memory_pool self) (verifying_transactions self);
  Ok (mkInsertion [hash] [], with_transactions self v pool).

Definition insert_with_reorganization (self : Chain) (block : IndexedBlock) (origin : SideChainOrigin)
    : outcome StorageError (BlockInsertionResult * Chain) :=
  let hash := ih_hash (ib_header block) in
  f ← Db.fork (storage self) origin;
  f ← Db.insert f block;
  f ← Db.canonize f hash;
  s ← Db.switch_to_fork (storage self) f;
  let best := Db.best_block s in
  let self := with_storage self best s (block_inserted_to_storage (headers_chain self) hash (bb_hash best)) in
  new_main ← route_items (fun h => Db.block_transaction_hashes s (Hash h)) (canonized_route origin);
  '(pool, v) ← accept_hashes (map itx_hash (ib_transactions block) ++ new_main) (memory_pool self) (verifying_transactions self);
  old_main ← route_items (fun h => Db.block_transactions s (Hash h)) (decanonized_route origin);
  let count := MemoryPool.transactions_count (MemoryPool.information pool) in
  '(pool_transactions, pool) ← MemoryPool.remove_n_with_strategy pool (Z.to_nat count) MemoryPool.ByTimestamp;
  let verifying := map snd (lhm_iter v) in
  Ok (mkInsertion (canonized_route origin ++ [hash]) (old_main ++ pool_transactions ++ verifying),
      with_transactions self (lhm_clear v) pool).

Definition insert_to_side (self : Chain) (block : IndexedBlock) : outcome StorageError (BlockInsertionResult * Chain) :=
  s ← Db.insert (storage self) block;
  Ok (mkInsertion [] [],
      with_storage self (best_storage_block self) s
        (block_inserted_to_storage (headers_chain self) (ih_hash (ib_header block)) (bb_hash (best_storage_block self)))).

Definition insert_best_block (self : Chain) (block : IndexedBlock) : outcome StorageError (BlockInsertionResult * Chain) :=
  let best := Db.best_block (storage self) in
  stored ← Db.block_hash (storage self) (bb_number best);
  _ ← rust_assert (bool_decide (Some (bb_hash best) = stored));
  origin ← Db.block_origin (storage self) (ib_header block);
  match origin with
  | KnownBlock => Panic
  | CanonChain _ => insert_to_main self block
  | SideChainBecomingCanonChain origin => insert_with_reorganization self block origin
  | SideChain _ => insert_to_side self block
  end.

(** * Transactions *)

Definition transaction_state {E} (self : Chain) (hash : bytes) : outcome E TransactionState :=
  if lhm_contains_key (verifying_transactions self) hash then Ok VerifyingTransaction else
  stored ← Db.transaction (storage self) hash;
  if bool_decide (is_Some stored) then Ok StoredTransaction else
  if MemoryPool.contains (memory_pool self) hash then Ok InMemory else
  Ok UnknownTransaction.

Definition transactions_hashes_with_state {E} (self : Chain) (state : TransactionState) : outcome E (list bytes) :=
  match state with
  | InMemory => Ok (MemoryPool.get_transactions_ids (memory_pool self))
  | VerifyingTransaction => Ok (map fst (lhm_iter (verifying_transactions self)))
  | _ => Panic
  end.

Definition verify_transaction (self : Chain) (tx : IndexedTransaction) : Chain :=
  with_transactions self (lhm_insert (verifying_transactions self) (itx_hash tx) tx) (memory_pool self).

Definition forget_verifying_transaction (self : Chain) (hash : bytes) : bool * Chain :=
  (bool_decide (is_Some (lhm_get (verifying_transactions self) hash)),
   with_transactions self (lhm_remove (verifying_transactions self) hash) (memory_pool self)).

Definition spends (hash : bytes) (tx : IndexedTransaction) : bool :=
  existsb (fun i => bool_decide (op_hash (previous_output i) = hash)) (inputs (itx_raw tx)).

(** Every hash that is queued, but the first, is that of a transaction taken out. *)
Fixpoint forget_children_loop {E} (fuel : nat) (v : @lhm bytes IndexedTransaction L) (queue : list bytes)
    : outcome E (@lhm bytes IndexedTransaction L) :=
  match queue with
  | [] => Ok v
  | hash :: queue =>
      match fuel with
      | O => Diverge
      | S fuel =>
          let remove := map fst (List.filter (fun p => spends hash p.2) (lhm_iter v)) in
          forget_children_loop fuel (foldl lhm_remove v remove) (queue ++ remove)
      end
  end.

Definition forget_verifying_transaction_with_children {E} (self : Chain) (hash : bytes) : outcome E Chain :=
  let self := (forget_verifying_transaction self hash).2 in
  v ← forget_children_loop (S (length (lhm_iter (verifying_transactions self)))) (verifying_transactions self) [hash];
  Ok (with_transactions self v (memory_pool self)).

Definition transaction_by_hash (self : Chain) (hash : bytes) : option IndexedTransaction :=
  match lhm_get (verifying_transactions self) hash with
  | Some tx => Some tx
  | None => option_map (mkIndexedTx hash) (MemoryPool.read_by_hash (memory_pool self) hash)
  end.

(** The outputs that the fee calculator asks the storage for. *)
Fixpoint stored_outputs {E} (s : Db.BlockChainDatabase T) (ins : list TransactionInput)
    : outcome E (list (OutPoint * TransactionOutput)) :=
  match ins with
  | [] => Ok []
  | input :: ins =>
      o ← Db.transaction_output s (previous_output input) usize_max;
      rest ← stored_outputs s ins;
      Ok (match o with Some o => (previous_output input, o) :: rest | None => rest end)
  end.

Definition listed_outputs (l : list (OutPoint * TransactionOutput)) : TransactionOutputProvider := {|
  transaction_output := fun prevout _ => option_map snd (List.find (fun p => bool_decide (p.1 = prevout)) l);
  is_spent := fun _ => false;
|}.

(** [FeeCalculator(storage)]. *)
Definition storage_fee {E} (s : Db.BlockChainDatabase T) (pool : MemoryPool.Pool) (tx : Transaction) : outcome E Z :=
  outs ← stored_outputs s (inputs tx);
  MemoryPool.fee_calculator (listed_outputs outs) pool tx.

Definition insert_verified_transaction {E} (self : Chain) (transaction : IndexedTransaction) : outcome E Chain :=
  pool ← remove_spenders (memory_pool self) (inputs (itx_raw transaction));
  pool ← MemoryPool.insert_verified (storage_fee (storage self)) pool transaction;
  Ok (with_transactions self (verifying_transactions self) pool).

(** The traits [TransactionProvider] and [TransactionOutputProvider] of the chain. *)
Definition transaction_bytes {E} (self : Chain) (hash : bytes) : outcome E (option bytes) :=
  match MemoryPool.pool_transaction_bytes (memory_pool self) hash with
  | Some b => Ok (Some b)
  | None => Db.transaction_bytes (storage self) hash
  end.
Definition transaction {E} (self : Chain) (hash : bytes) : outcome E (option IndexedTransaction) :=
  match MemoryPool.pool_transaction (memory_pool self) hash with
  | Some t => Ok (Some t)
  | None => Db.transaction (storage self) hash
  end.
Definition chain_output {E} (self : Chain) (outpoint : OutPoint) (transaction_index : Z) : outcome E (option TransactionOutput) :=
  match transaction_output (MemoryPool.pool_provider (memory_pool self)) outpoint transaction_index with
  | Some o => Ok (Some o)
  | None => Db.transaction_output (storage self) outpoint transaction_index
  end.
Definition chain_is_spent {E} (self : Chain) (outpoint : OutPoint) : outcome E bool :=
  if is_spent (MemoryPool.pool_provider (memory_pool self)) outpoint then Ok true else Db.is_spent (storage self) outpoint.

End chain.
End SyncChain.
