(* ===== verification/SyncChainSpec.v ===== *)
(** Theorems about the chain of synchronization (SyncChain.v): what inserting a block
    does to the memory pool and the transactions under verification, block locators, and
    forgetting blocks. *)
From Stdlib Require Import ZArith Lia Strings.Byte Sorted.
From stdpp Require Import base decidable numbers countable gmap list relations.
From S2P Require Import Prelude Crypto Serialization Codec Chain ChainHash Network Storage Kv Db DbSpec Filters HashQueue.
From S2P Require Import DbUtxo DbExamples LinkedMap FiltersSpec MemoryPool MemoryPoolInv MemoryPoolSpec SyncChain.

Local Open Scope Z_scope.

Module SyncChainSpec.
Import Ser Chain ChainHash Network Storage HashQueue BestHeaders MemoryPoolInv MemoryPoolSpec SyncChain.

(** * Memory pool *)

Section pool.
Context `{HashOrder} {E : Type} (inputs_of : bytes -> list bytes).
Implicit Types pool : MemoryPool.Pool.

(** Entries are kept as they are or leave. *)
Definition shrinks pool pool' : Prop := forall h, pool_of pool' !! h = None \/ pool_of pool' !! h = pool_of pool !! h.

Lemma shrinks_refl pool : shrinks pool pool.
Proof. intros h. by right. Qed.
Lemma shrinks_trans pool1 pool2 pool3 : shrinks pool1 pool2 -> shrinks pool2 pool3 -> shrinks pool1 pool3.
Proof. intros H1 H2 h. destruct (H2 h) as [?| ->]; [by left|apply H1]. Qed.

Lemma conflicts_mono (m m' : gmap bytes MemoryPool.Entry) spent spent' h :
  (forall h e, m' !! h = Some e -> m !! h = Some e) -> spent' ⊆ spent -> conflicts m' spent' h -> conflicts m spent h.
Proof. intros Hm Hs. induction 1; [eapply conflicts_direct|eapply conflicts_further]; eauto. Qed.

Lemma shrinks_Some pool pool' h e : shrinks pool pool' -> pool_of pool' !! h = Some e -> pool_of pool !! h = Some e.
Proof. intros Hs He. destruct (Hs h); congruence. Qed.

Lemma shrinks_unspent pool pool' o :
  inv inputs_of (MemoryPool.storage pool) -> inv inputs_of (MemoryPool.storage pool') -> shrinks pool pool' ->
  MemoryPool.is_output_spent (MemoryPool.storage pool) o = false -> MemoryPool.is_output_spent (MemoryPool.storage pool') o = false.
Proof.
  intros Hi Hi' Hs. unfold MemoryPool.is_output_spent. rewrite !bool_decide_eq_false. intros Hn [h Hh]. apply Hn.
  apply (inv_spent _ _ Hi') in Hh as (e & He & Ho). exists h. apply (inv_spent _ _ Hi). exists e. split; [|done]. by eapply shrinks_Some.
Qed.

Lemma remove_by_hash_shrinks {E' : Type} pool h :
  inv inputs_of (MemoryPool.storage pool) ->
  exists r pool', MemoryPool.remove_by_hash (E := E') pool h = Ok (r, pool') /\ inv inputs_of (MemoryPool.storage pool') /\
    pool_of pool' = delete h (pool_of pool) /\ shrinks pool pool' /\ MemoryPool.accept_zero_fee pool' = MemoryPool.accept_zero_fee pool.
Proof.
  intros Hi. unfold MemoryPool.remove_by_hash. destruct (pool_of pool !! h) as [e|] eqn:He.
  - destruct (remove_by_hash_spec (E := E') inputs_of _ h e Hi He) as (s' & -> & Hi' & Hb & _). rewrite ok_bind.
    eexists _, _. split; [done|]. split_and!; [done|done| |done]. intros k. unfold pool_of. cbn. rewrite Hb.
    destruct (decide (k = h)) as [->|]; [left; apply lookup_delete_eq|right; by rewrite lookup_delete_ne].
  - unfold MemoryPool.storage_remove_by_hash. unfold pool_of in He. rewrite He, ok_bind. eexists _, _. split; [done|]. cbn.
    split_and!; [done| |intros k; by right|done]. unfold pool_of. cbn. by rewrite delete_id.
Qed.

Lemma remove_spenders_spec pool ins :
  inv inputs_of (MemoryPool.storage pool) ->
  exists pool', remove_spenders (E := E) pool ins = Ok pool' /\ inv inputs_of (MemoryPool.storage pool') /\ shrinks pool pool' /\
    MemoryPool.accept_zero_fee pool' = MemoryPool.accept_zero_fee pool /\
    (forall i, i ∈ ins -> MemoryPool.is_output_spent (MemoryPool.storage pool') (previous_output i) = false) /\
    (forall h e, pool_of pool !! h = Some e -> ~ conflicts (pool_of pool) (map previous_output ins) h -> pool_of pool' !! h = Some e).
Proof.
  revert pool. induction ins as [|i ins IH]; intros pool Hi; cbn [remove_spenders].
  { exists pool. split_and!; try done; [apply shrinks_refl|by intros i ?%not_elem_of_nil]. }
  destruct (remove_by_prevout_spec (E := E) inputs_of pool (previous_output i) Hi) as (txs & pool1 & -> & Hi1 & Hz1 & _ & Hc & Hb & Hun). rewrite ok_bind.
  assert (shrinks pool pool1) as Hs1 by (intros h; rewrite Hb; case_decide; auto).
  destruct (IH pool1 Hi1) as (pool2 & -> & Hi2 & Hs2 & Hz2 & Hun2 & Hk2). exists pool2. split_and!; [done|done|by eapply shrinks_trans|congruence| |].
  - intros j [->|Hj]%elem_of_cons; [|by apply Hun2]. eapply shrinks_unspent; [exact Hi1|done|done|]. apply Hun. by left.
  - intros h e He Hn. apply Hk2.
    + rewrite Hb, decide_False; [done|]. rewrite Hc. intros Hcf. apply Hn. eapply conflicts_mono; [| |exact Hcf]; [done|]. set_solver.
    + intros Hcf. apply Hn. eapply conflicts_mono; [| |exact Hcf]; [intros k x; by apply shrinks_Some|]. set_solver.
Qed.

End pool.

(** * Inserting blocks *)

Section insert.
Context `{BitVec} {T : Type} `{!Kv.KeyValueDatabase T} `{HashOrder}.
Context `{L : LinkedHashMap bytes IndexedTransaction} `{!LinkedHashMapLaws L} `{!LinkedHashMapEdit bytes IndexedTransaction L} `{!LinkedHashMapEditLaws L _}.
Context (inputs_of : bytes -> list bytes).
Implicit Types (self : Chain (T := T) (L := L)) (pool : MemoryPool.Pool) (v : @lhm bytes IndexedTransaction L).

Definition spent_by (tx : IndexedTransaction) : list OutPoint := map previous_output (inputs (itx_raw tx)).

(** What is left of a memory pool when the transactions of a block are accepted:
    neither these nor what spends one of their inputs, and all that does not depend on
    such a conflict. *)
Record accepted (txs : list IndexedTransaction) pool pool' : Prop := {
  ac_shrinks : shrinks pool pool';
  ac_gone t : t ∈ txs -> pool_of pool' !! itx_hash t = None;
  ac_unspent t o : t ∈ txs -> o ∈ spent_by t -> MemoryPool.is_output_spent (MemoryPool.storage pool') o = false;
  ac_kept h e : pool_of pool !! h = Some e -> h ∉ map itx_hash txs ->
    (forall t, t ∈ txs -> ~ conflicts (delete (itx_hash t) (pool_of pool)) (spent_by t) h) -> pool_of pool' !! h = Some e;
}.

Lemma lhm_remove_list_get v hs k : lhm_get (foldl lhm_remove v hs) k = if decide (k ∈ hs) then None else lhm_get v k.
Proof.
  revert v. induction hs as [|h hs IH]; intros v; [by rewrite decide_False by apply not_elem_of_nil|]. cbn [foldl].
  rewrite IH, lhm_get_remove. repeat case_decide; try case_bool_decide; set_solver.
Qed.

Lemma forget_accepted_spec h pool v :
  inv inputs_of (MemoryPool.storage pool) ->
  exists pool', forget_accepted h pool v = Ok (pool', lhm_remove v h) /\ inv inputs_of (MemoryPool.storage pool') /\
    pool_of pool' = delete h (pool_of pool) /\ shrinks pool pool' /\ MemoryPool.accept_zero_fee pool' = MemoryPool.accept_zero_fee pool.
Proof.
  intros Hi. unfold forget_accepted. destruct (remove_by_hash_shrinks (E' := StorageError) inputs_of pool h Hi) as (r & pool' & -> & ?).
  rewrite ok_bind. by exists pool'.
Qed.

Lemma accept_transactions_spec txs pool v :
  inv inputs_of (MemoryPool.storage pool) ->
  exists pool', accept_transactions txs pool v = Ok (pool', foldl lhm_remove v (map itx_hash txs)) /\
    inv inputs_of (MemoryPool.storage pool') /\ accepted txs pool pool'.
Proof.
  revert pool v. induction txs as [|t txs IH]; intros pool v Hi; cbn [accept_transactions].
  { exists pool. split_and!; [done..|]. split; [apply shrinks_refl|by intros t ?%not_elem_of_nil|by intros t o ?%not_elem_of_nil|done]. }
  destruct (forget_accepted_spec (itx_hash t) pool v Hi) as (pool1 & -> & Hi1 & Hb1 & Hs1 & _). rewrite ok_bind.
  destruct (remove_spenders_spec (E := StorageError) inputs_of pool1 (inputs (itx_raw t)) Hi1) as (pool2 & -> & Hi2 & Hs2 & _ & Hun2 & Hk2). rewrite ok_bind.
  destruct (IH pool2 (lhm_remove v (itx_hash t)) Hi2) as (pool3 & -> & Hi3 & [Hs3 Hg3 Hun3 Hk3]). exists pool3. split_and!; [done|done|].
  pose proof (shrinks_trans _ _ _ Hs2 Hs3) as Hs23. split.
  - by eapply shrinks_trans.
  - intros x [->|Hx]%elem_of_cons; [|by apply Hg3]. destruct (Hs23 (itx_hash t)) as [|Heq]; [done|]. by rewrite Heq, Hb1, lookup_delete_eq.
  - intros x o [->|Hx]%elem_of_cons; [|by apply Hun3]. unfold spent_by. rewrite list_elem_of_In, in_map_iff. intros (i & <- & Hin%list_elem_of_In).
    eapply (shrinks_unspent inputs_of pool2); [done..|]. by apply Hun2.
  - intros h e He Hh Hn. cbn [map] in Hh. apply not_elem_of_cons in Hh as [Hne Hh]. apply Hk3; [|done|].
    + apply Hk2; [by rewrite Hb1, lookup_delete_ne|]. rewrite Hb1. apply (Hn t), list_elem_of_here.
    + intros x Hx Hcf. apply (Hn x (list_elem_of_further _ _ _ Hx)). eapply conflicts_mono; [| |exact Hcf]; [|done].
      intros k y [Hk Hy]%lookup_delete_Some. apply lookup_delete_Some. split; [done|].
      eapply shrinks_Some; [|exact Hy]. by eapply shrinks_trans.
Qed.

Lemma accept_hashes_spec hs pool v :
  inv inputs_of (MemoryPool.storage pool) ->
  exists pool', accept_hashes hs pool v = Ok (pool', foldl lhm_remove v hs) /\ inv inputs_of (MemoryPool.storage pool') /\
    (forall h, pool_of pool' !! h = if decide (h ∈ hs) then None else pool_of pool !! h).
Proof.
  revert pool v. induction hs as [|h hs IH]; intros pool v Hi; cbn [accept_hashes].
  { exists pool. split_and!; [done..|]. intros k. by rewrite decide_False by apply not_elem_of_nil. }
  destruct (forget_accepted_spec h pool v Hi) as (pool1 & -> & Hi1 & Hb1 & _). rewrite ok_bind.
  destruct (IH pool1 (lhm_remove v h) Hi1) as (pool2 & -> & Hi2 & Hb2). exists pool2. split_and!; [done|done|].
  intros k. rewrite Hb2, Hb1. destruct (decide (k = h)) as [->|Hne].
  - rewrite lookup_delete_eq, (decide_True _ _ (P := _ ∈ _ :: _)) by apply list_elem_of_here. by case_decide.
  - rewrite lookup_delete_ne by done. repeat case_decide; set_solver.
Qed.

(** The storage agrees with itself about the best block. *)
Definition best_agrees (s : Db.BlockChainDatabase T) : Prop :=
  Db.block_hash (E := StorageError) s (bb_number (Db.best_block s)) = Ok (Some (bb_hash (Db.best_block s))).

Lemma canonize_best (s s' : Db.BlockChainDatabase T) h : Db.canonize s h = Ok s' -> bb_hash (Db.best_block s') = h.
Proof.
  unfold Db.canonize. intros Hc. repeat (apply bind_Ok in Hc as (? & _ & Hc)). by injection Hc as <-.
Qed.

(** C14: A block that extends the main chain, and that the storage takes, is inserted.  It
    becomes the best block; its transactions leave the memory pool and verification, and
    with them all that spends one of their inputs; what conflicts with none of them
    stays.  Nothing is to be verified again.  The pool is one reached by the steps of
    [pool_step]. *)
Theorem main_block_accepted {E : Type} zero_fee self block n s1 s2 :
  rtc (pool_step (E := E) inputs_of) (pool_start zero_fee) (memory_pool self) ->
  best_agrees (storage self) -> Db.block_origin (storage self) (ib_header block) = Ok (CanonChain n) ->
  Db.insert (storage self) block = Ok s1 -> Db.canonize s1 (ih_hash (ib_header block)) = Ok s2 ->
  exists self', insert_best_block self block = Ok (mkInsertion [ih_hash (ib_header block)] [], self') /\
    storage self' = s2 /\ best_storage_block self' = Db.best_block s2 /\ bb_hash (best_storage_block self') = ih_hash (ib_header block) /\
    inv inputs_of (MemoryPool.storage (memory_pool self')) /\ accepted (ib_transactions block) (memory_pool self) (memory_pool self') /\
    (forall k, lhm_get (verifying_transactions self') k =
       if decide (k ∈ map itx_hash (ib_transactions block)) then None else lhm_get (verifying_transactions self) k) /\
    hash_chain self' = hash_chain self /\ dead_end_blocks self' = dead_end_blocks self.
Proof.
  intros Hreach%pool_reachable_inv Hag Ho Hins Hcan. unfold insert_best_block. rewrite Hag, ok_bind, bool_decide_true by done.
  cbn [rust_assert]. rewrite ok_bind, Ho, ok_bind. unfold insert_to_main. rewrite Hins, ok_bind, Hcan, ok_bind.
  cbn [best_storage_block with_storage memory_pool verifying_transactions]. pose proof (canonize_best _ _ _ Hcan) as Hb.
  rewrite bool_decide_true by done. cbn [rust_assert]. rewrite ok_bind.
  destruct (accept_transactions_spec (ib_transactions block) (memory_pool self) (verifying_transactions self) Hreach) as (pool' & -> & Hi' & Ha).
  rewrite ok_bind. eexists. split; [done|]. cbn. split_and!; try done. intros k. apply lhm_remove_list_get.
Qed.

(** What is to be verified again of the memory pool and of what was under verification:
    all that the new blocks do not accept. *)
Record reverified self (accepted_hashes : list bytes) (pool_txs verifying_txs : list IndexedTransaction) : Prop := {
  rv_pool h : h ∈ map itx_hash pool_txs <-> is_Some (pool_of (memory_pool self) !! h) /\ h ∉ accepted_hashes;
  rv_pool_nodup : NoDup (map itx_hash pool_txs);
  rv_pool_tx t e : t ∈ pool_txs -> pool_of (memory_pool self) !! itx_hash t = Some e -> itx_raw t = MemoryPool.transaction e;
  rv_parents_first l1 t l2 p : pool_txs = l1 ++ t :: l2 -> p ∈ parents (itx_raw t) ->
    is_Some (pool_of (memory_pool self) !! p) -> p ∉ accepted_hashes -> p ∈ map itx_hash l1;
  rv_verifying t : t ∈ verifying_txs <-> exists k, lhm_get (verifying_transactions self) k = Some t /\ k ∉ accepted_hashes;
}.

Lemma reorganization_pool {E : Type} pool (hs : list bytes) pool1 :
  inv inputs_of (MemoryPool.storage pool1) -> (forall h, pool_of pool1 !! h = if decide (h ∈ hs) then None else pool_of pool !! h) ->
  exists txs pool', MemoryPool.remove_n_with_strategy (E := E) pool1 (Z.to_nat (MemoryPool.transactions_count (MemoryPool.information pool1)))
      MemoryPool.ByTimestamp = Ok (txs, pool') /\ pool_of pool' = ∅ /\ inv inputs_of (MemoryPool.storage pool') /\
    (forall h, h ∈ map itx_hash txs <-> is_Some (pool_of pool !! h) /\ h ∉ hs) /\ NoDup (map itx_hash txs) /\
    (forall t e, t ∈ txs -> pool_of pool !! itx_hash t = Some e -> itx_raw t = MemoryPool.transaction e) /\
    (forall l1 t l2 p, txs = l1 ++ t :: l2 -> p ∈ parents (itx_raw t) -> is_Some (pool_of pool !! p) -> p ∉ hs -> p ∈ map itx_hash l1).
Proof.
  intros Hi Hb. cbn [MemoryPool.information MemoryPool.transactions_count]. rewrite Nat2Z.id.
  destruct (remove_n_pool_spec (E := E) inputs_of pool1 (size (pool_of pool1)) MemoryPool.ByTimestamp Hi)
    as (txs & pool' & Hr & Hi' & _ & [Hnd Hof] & Hpf & Hb' & Hemp). exists txs, pool'. specialize (Hemp (le_n _)).
  assert (forall h, is_Some (pool_of pool1 !! h) <-> is_Some (pool_of pool !! h) /\ h ∉ hs) as Hin.
  { intros h. rewrite Hb. case_decide; [|tauto]. split; [by intros []|tauto]. }
  split_and!; [exact Hr|done|done| |done| |].
  - intros h. rewrite <- Hin. split.
    + rewrite list_elem_of_In, in_map_iff. intros (t & <- & Ht%list_elem_of_In). destruct (Hof t Ht) as (e & He & _). by exists e.
    + intros Hs. specialize (Hb' h). rewrite Hemp in Hb'. destruct (decide (h ∈ map itx_hash txs)); [done|]. rewrite <- Hb' in Hs. by destruct Hs.
  - intros t e Ht He. destruct (Hof t Ht) as (x & Hx & Hraw). rewrite Hb in Hx. case_decide; [done|]. rewrite Hraw. congruence.
  - intros l1 t l2 p Heq Hp Hs Hn. eapply Hpf; [exact Heq|exact Hp|]. by apply Hin.
Qed.

(** C15: A block on a side chain that makes it the main chain, and that the storage takes, is
    inserted with the blocks of its branch.  Given back to be verified again are first
    all transactions of the blocks that left the main chain, then, without those the new
    branch holds, the entries of the memory pool, parents first, and the transactions under
    verification; the memory pool and verification are empty.  The pool is one reached by
    the steps of [pool_step]. *)
Theorem reorganization_reverifies {E : Type} zero_fee self block origin f f1 f2 s new_main old_main :
  rtc (pool_step (E := E) inputs_of) (pool_start zero_fee) (memory_pool self) ->
  best_agrees (storage self) -> Db.block_origin (storage self) (ib_header block) = Ok (SideChainBecomingCanonChain origin) ->
  Db.fork (storage self) origin = Ok f -> Db.insert f block = Ok f1 -> Db.canonize f1 (ih_hash (ib_header block)) = Ok f2 ->
  Db.switch_to_fork (storage self) f2 = Ok s ->
  route_items (fun h => Db.block_transaction_hashes s (Hash h)) (canonized_route origin) = Ok new_main ->
  route_items (fun h => Db.block_transactions s (Hash h)) (decanonized_route origin) = Ok old_main ->
  exists self' pool_txs verifying_txs,
    insert_best_block self block =
      Ok (mkInsertion (canonized_route origin ++ [ih_hash (ib_header block)]) (old_main ++ pool_txs ++ verifying_txs), self') /\
    reverified self (map itx_hash (ib_transactions block) ++ new_main) pool_txs verifying_txs /\
    storage self' = s /\ best_storage_block self' = Db.best_block s /\
    pool_of (memory_pool self') = ∅ /\ (forall k, lhm_get (verifying_transactions self') k = None).
Proof.
  intros Hreach%pool_reachable_inv Hag Ho Hf Hins Hcan Hsw Hnew Hold. unfold insert_best_block. rewrite Hag, ok_bind, bool_decide_true by done.
  cbn [rust_assert]. rewrite ok_bind, Ho, ok_bind. unfold insert_with_reorganization. rewrite Hf, ok_bind, Hins, ok_bind, Hcan, ok_bind, Hsw, ok_bind, Hnew, ok_bind.
  cbn [memory_pool verifying_transactions with_storage]. set (hs := map itx_hash (ib_transactions block) ++ new_main).
  destruct (accept_hashes_spec hs (memory_pool self) (verifying_transactions self) Hreach) as (pool1 & -> & Hi1 & Hb1). rewrite ok_bind, Hold, ok_bind.
  destruct (reorganization_pool (E := StorageError) (memory_pool self) hs pool1 Hi1 Hb1) as (txs & pool' & -> & Hemp & _ & Hin & Hnd & Htx & Hpf).
  rewrite ok_bind. eexists _, txs, _. split; [done|]. split; [|split_and!; try done; intros k; apply lhm_get_clear]. split; [done..|].
  intros t. rewrite list_elem_of_In, in_map_iff. split.
  - intros ([k t'] & <- & Hk%list_elem_of_In). apply lhm_iter_get in Hk. rewrite lhm_remove_list_get in Hk. case_decide; [done|]. by exists k.
  - intros (k & Hk & Hn). exists (k, t). split; [done|]. apply list_elem_of_In, lhm_iter_get. by rewrite lhm_remove_list_get, decide_False.
Qed.

End insert.
(** * Block locators *)

(** The heights of a locator: ten in a row from the best block, then with steps that
    double, down to the genesis block.  [count] hashes come before. *)
Fixpoint locator_heights (fuel : nat) (h step count : Z) : list Z :=
  match fuel with
  | O => []
  | S fuel =>
      let step := if 10 <=? count + 1 then step * 2 else step in
      h :: (if h =? 0 then [] else if h <? step then [0] else locator_heights fuel (h - step) step (count + 1))
  end.

Section locator.
Context `{BitVec} {T : Type} `{!Kv.KeyValueDatabase T}.
Context `{L : LinkedHashMap bytes IndexedTransaction}.
Implicit Types (self : Chain (T := T) (L := L)).

(** The hashes in the queues, the oldest first. *)
Definition queued (q : HashQueueChain) : list bytes := concat (map queue q).

Lemma len_queue (q : HashQueue) : zlen (queue q) < 2 ^ 32 -> len q = zlen (queue q).
Proof. intros Hl. apply wrap_uint. unfold uint. lia. Qed.

Lemma chain_len_spec {E : Type} (q : HashQueueChain) : zlen (queued q) < 2 ^ 32 -> chain_len (E := E) q = Ok (zlen (queued q)).
Proof.
  intros Hl. unfold chain_len.
  assert (forall n, 0 <= n -> n + zlen (queued q) < 2 ^ 32 ->
    foldl (fun total x => total ← total; ucheck (E := E) 32 (total + len x)) (Ok n) q = Ok (n + zlen (queued q))) as Hgen; [|by rewrite Hgen].
  clear Hl. induction q as [|x q IH]; intros n Hn Hl; cbn [foldl]; [by rewrite Z.add_0_r|].
  unfold queued in *. cbn [map concat] in *. rewrite length_app in *. rewrite ok_bind, len_queue, ucheck_Ok by (unfold uint; lia).
  rewrite IH by lia. f_equal. lia.
Qed.

Lemma index_chain_spec {E : Type} (q : HashQueueChain) i h :
  zlen (queued q) < 2 ^ 32 -> 0 <= i -> queued q !! Z.to_nat i = Some h -> index_chain (E := E) q i = Ok h.
Proof.
  revert i. induction q as [|x q IH]; intros i Hl Hi Hh; [done|]. unfold queued in *. cbn [map concat index_chain] in *.
  rewrite length_app in Hl. rewrite len_queue by lia. destruct (Z.ltb_spec i (zlen (queue x))) as [Hlt|Hge].
  - unfold index_queue, index. rewrite lookup_app_l in Hh by lia. by rewrite Hh.
  - pose proof (lookup_lt_Some _ _ _ Hh) as Hb. rewrite length_app in Hb. rewrite ucheck_Ok, ok_bind by (unfold uint; lia).
    apply IH; [lia|lia|]. rewrite lookup_app_r in Hh by lia. by replace (Z.to_nat (i - zlen (queue x))) with (Z.to_nat i - length (queue x))%nat by lia.
Qed.

(** The chain as a list of hashes by height: [hs] are those of the storage. *)
Record located self (hs : list bytes) : Prop := {
  lc_best : bb_number (best_storage_block self) + 1 = zlen hs;
  lc_stored {E : Type} i h : hs !! i = Some h -> Db.block_hash (E := E) (storage self) (Z.of_nat i) = Ok (Some h);
  lc_genesis : hs !! 0%nat = Some (genesis_block_hash self);
  lc_bound : zlen (hs ++ queued (hash_chain self)) < 2 ^ 30;
}.

Definition hashes_at (full : list bytes) (heights : list Z) : list bytes := omap (fun h => full !! Z.to_nat h) heights.

Lemma locator_storage_spec {E : Type} self hs fuel i step acc :
  located self hs -> 0 <= i < zlen hs -> (Z.to_nat i < fuel)%nat -> 0 < step < 2 ^ 31 ->
  block_locator_hashes_for_storage (E := E) fuel self i step acc =
    Ok (acc ++ hashes_at (hs ++ queued (hash_chain self)) (locator_heights fuel i step (zlen acc))).
Proof.
  intros Hl. revert i step acc. induction fuel as [|fuel IH]; intros i step acc Hi Hf Hs; [lia|]. cbn [block_locator_hashes_for_storage locator_heights].
  destruct (lookup_lt_is_Some_2 hs (Z.to_nat i)) as [h Hh]; [lia|]. pose proof (lc_stored _ _ Hl (E := E) _ _ Hh) as Hb. rewrite Z2Nat.id in Hb by lia.
  rewrite Hb, ok_bind. cbn [expect]. rewrite ok_bind, length_app. cbn [length].
  assert (forall rest, hashes_at (hs ++ queued (hash_chain self)) (i :: rest) = h :: hashes_at (hs ++ queued (hash_chain self)) rest) as Hcons.
  { intros rest. unfold hashes_at. cbn [omap list_omap]. by rewrite lookup_app_l, Hh by lia. }
  replace (Z.of_nat (length acc + 1)) with (zlen acc + 1) by lia. rewrite (wrap_uint 32 (step * 2)) by (unfold uint; lia). rewrite Hcons.
  set (step' := if 10 <=? zlen acc + 1 then step * 2 else step). assert (0 < step') as Hs' by (unfold step'; destruct (10 <=? _); lia).
  destruct (Z.eqb_spec i 0) as [->|Hi0]; cbn [negb].
  { rewrite (proj2 (Z.ltb_lt 0 step')) by done. done. }
  destruct (Z.ltb_spec i step') as [Hlt|Hge].
  - f_equal. rewrite <- app_assoc. f_equal. cbn [app]. f_equal. unfold hashes_at. cbn [omap list_omap]. change (Z.to_nat 0) with 0%nat. pose proof (lc_genesis _ _ Hl) as Hg.
    by rewrite lookup_app_l, Hg by (apply lookup_lt_Some in Hg; lia).
  - pose proof (lc_bound _ _ Hl) as Hbd. rewrite length_app in Hbd. rewrite IH by lia. rewrite length_app. cbn [length].
    replace (Z.of_nat (length acc + 1)) with (zlen acc + 1) by lia. by rewrite <- app_assoc.
Qed.

Lemma locator_heights_fuel fuel fuel' h step count :
  0 <= h -> 0 < step -> (Z.to_nat h < fuel)%nat -> (Z.to_nat h < fuel')%nat ->
  locator_heights fuel h step count = locator_heights fuel' h step count.
Proof.
  revert fuel' h step count. induction fuel as [|fuel IH]; intros [|fuel'] h step count Hh Hs Hf Hf'; [lia..|]. cbn [locator_heights].
  set (step' := if 10 <=? count + 1 then step * 2 else step). assert (0 < step') by (unfold step'; destruct (10 <=? _); lia). f_equal.
  destruct (Z.eqb_spec h 0); [done|]. destruct (Z.ltb_spec h step'); [done|]. apply IH; lia.
Qed.

(** The loop over the queues stops at the height where the storage goes on. *)
Lemma locator_queue_spec {E : Type} self hs fuel i step acc :
  located self hs -> 0 <= i < zlen (queued (hash_chain self)) -> (Z.to_nat i < fuel)%nat -> 0 < step < 2 ^ 30 ->
  exists hashes local step', locator_queue_loop (E := E) fuel self i step acc = Ok (hashes, local, step') /\ 0 <= local /\ 0 < step' < 2 ^ 31 /\
    let best := bb_number (best_storage_block self) in
    let j := if best <? local then 0 else best - local in 0 <= j < zlen hs /\
    forall fuel' fuel2, (Z.to_nat j < fuel2)%nat -> (Z.to_nat (zlen hs + i) < fuel')%nat ->
      hashes ++ hashes_at (hs ++ queued (hash_chain self)) (locator_heights fuel2 j step' (zlen hashes)) =
      acc ++ hashes_at (hs ++ queued (hash_chain self)) (locator_heights fuel' (zlen hs + i) step (zlen acc)).
Proof.
  intros Hl. revert i step acc. induction fuel as [|fuel IH]; intros i step acc Hi Hf Hs; [lia|]. cbn [locator_queue_loop].
  pose proof (lc_bound _ _ Hl) as Hbd. rewrite length_app in Hbd. pose proof (lc_best _ _ Hl) as Hbest.
  assert (1 <= zlen hs) as Hne by (pose proof (lc_genesis _ _ Hl) as Hg; apply lookup_lt_Some in Hg; lia).
  destruct (lookup_lt_is_Some_2 (queued (hash_chain self)) (Z.to_nat i)) as [h Hh]; [lia|].
  rewrite (index_chain_spec _ i h), ok_bind by (done || lia). rewrite length_app. cbn [length].
  assert (forall rest, hashes_at (hs ++ queued (hash_chain self)) (zlen hs + i :: rest) = h :: hashes_at (hs ++ queued (hash_chain self)) rest) as Hcons.
  { intros rest. unfold hashes_at. cbn [omap list_omap]. rewrite lookup_app_r by lia.
    by replace (Z.to_nat (zlen hs + i) - length hs)%nat with (Z.to_nat i) by lia; rewrite Hh. }
  replace (Z.of_nat (length acc + 1)) with (zlen acc + 1) by lia. rewrite (wrap_uint 32 (step * 2)) by (unfold uint; lia).
  set (step' := if 10 <=? zlen acc + 1 then step * 2 else step).
  assert (0 < step' < 2 ^ 31) as Hs' by (unfold step'; destruct (10 <=? _); lia).
  assert (forall rest, zlen (acc ++ [h]) = zlen acc + 1 /\ (acc ++ [h]) ++ rest = acc ++ h :: rest) as Hacc
    by (intros rest; rewrite length_app, <- app_assoc; cbn [length]; split; [lia|done]).
  destruct (Z.ltb_spec i step') as [Hlt|Hge].
  - rewrite ucheck_Ok, ok_bind by (unfold uint; lia). exists (acc ++ [h]), (step' - i - 1), step'. split; [done|]. split; [lia|]. split; [done|].
    cbn zeta. destruct (Z.ltb_spec (bb_number (best_storage_block self)) (step' - i - 1)) as [Hb|Hb].
    + split; [lia|]. intros [|fuel'] [|fuel2] H2 H'; [lia..|]. cbn [locator_heights]. fold step'. rewrite Hcons.
      rewrite (proj2 (Z.eqb_neq (zlen hs + i) 0)), (proj2 (Z.ltb_lt (zlen hs + i) step')) by lia. cbn [Z.eqb]. by rewrite (proj2 (Hacc _)).
    + split; [lia|]. intros [|fuel'] [|fuel2] H2 H'; [lia..|]. rewrite (proj1 (Hacc [])), (proj2 (Hacc _)). f_equal.
      cbn [locator_heights]. fold step'. rewrite Hcons. f_equal. rewrite (proj2 (Z.eqb_neq (zlen hs + i) 0)), (proj2 (Z.ltb_ge (zlen hs + i) step')) by lia.
      replace (bb_number (best_storage_block self) - (step' - i - 1)) with (zlen hs + i - step') in * by lia.
      f_equal. apply (locator_heights_fuel (S fuel2)); lia.
  - destruct (IH (i - step') step' (acc ++ [h])) as (hashes & local & st & Hr & Hloc & Hst & Hrest); [lia|lia|lia|].
    exists hashes, local, st. split; [done|]. split; [done|]. split; [done|]. cbn zeta in *. destruct Hrest as (Hj & Heq). split; [done|].
    intros [|fuel'] fuel2 H2 H'; [lia|]. rewrite (Heq fuel' fuel2) by lia. rewrite (proj1 (Hacc [])), (proj2 (Hacc _)). f_equal. cbn [locator_heights]. fold step'.
    rewrite Hcons. f_equal. rewrite (proj2 (Z.eqb_neq (zlen hs + i) 0)), (proj2 (Z.ltb_ge (zlen hs + i) step')) by lia. by rewrite Z.add_sub_assoc.
Qed.

Lemma locator_heights_shape fuel h step count :
  0 <= h -> 0 < step -> (Z.to_nat h < fuel)%nat ->
  exists rest, locator_heights fuel h step count = h :: rest /\ last (h :: rest) = Some 0 /\
    StronglySorted Z.gt (h :: rest) /\ Forall (fun x => 0 <= x <= h) (h :: rest).
Proof.
  revert h step count. induction fuel as [|fuel IH]; intros h step count Hh Hs Hf; [lia|]. cbn [locator_heights].
  set (step' := if 10 <=? count + 1 then step * 2 else step). assert (0 < step') by (unfold step'; destruct (10 <=? _); lia).
  destruct (Z.eqb_spec h 0) as [->|Hne]; [|destruct (Z.ltb_spec h step')]; eexists; (split; [reflexivity|]).
  - split_and!; [done|by repeat constructor|repeat constructor; lia].
  - split_and!; [done|repeat constructor; lia|repeat constructor; lia].
  - destruct (IH (h - step') step' (count + 1)) as (rest & -> & Hlast & Hsort & Hall); [lia..|]. split_and!.
    + done.
    + constructor; [done|]. eapply Forall_impl; [exact Hall|]. cbn. lia.
    + constructor; [lia|]. eapply Forall_impl; [exact Hall|]. cbn. lia.
Qed.

Lemma locator_heights_row fuel h count k :
  0 <= h -> (Z.to_nat h < fuel)%nat -> Z.of_nat k <= h -> 0 <= count -> count + Z.of_nat k <= 9 ->
  locator_heights fuel h 1 count !! k = Some (h - Z.of_nat k).
Proof.
  revert fuel h count. induction k as [|k IH]; intros [|fuel] h count Hh Hf Hk Hc Hck; [lia| |lia|]; cbn [locator_heights lookup list_lookup].
  - f_equal. lia.
  - rewrite (proj2 (Z.leb_gt 10 (count + 1))), (proj2 (Z.eqb_neq h 0)), (proj2 (Z.ltb_ge h 1)) by lia.
    change (locator_heights fuel (h - 1) 1 (count + 1) !! k = Some (h - Z.of_nat (S k))). rewrite IH by lia. f_equal. lia.
Qed.

Lemma locator_heights_length fuel h step count k :
  9 <= count -> 0 < step -> 0 <= h < step * 2 ^ Z.of_nat (S k) -> (length (locator_heights fuel h step count) <= k + 2)%nat.
Proof.
  revert fuel h step count. induction k as [|k IH]; intros [|fuel] h step count Hc Hs Hh; cbn [locator_heights length]; try lia;
    rewrite (proj2 (Z.leb_le 10 (count + 1))) by lia; destruct (h =? 0); cbn [length]; try lia; destruct (Z.ltb_spec h (step * 2)); cbn [length]; try lia.
  assert (step * 2 ^ Z.of_nat (S (S k)) = step * 2 * 2 ^ Z.of_nat (S k)) as Hp by (rewrite (Nat2Z.inj_succ (S k)), Z.pow_succ_r by lia; lia).
  rewrite Hp in Hh. specialize (IH fuel (h - step * 2) (step * 2) (count + 1) ltac:(lia) ltac:(lia) ltac:(lia)). lia.
Qed.

Lemma locator_heights_length_row fuel h count :
  0 <= count -> 0 <= h < 2 ^ 31 -> (length (locator_heights fuel h 1 count) <= 32 + Z.to_nat (9 - count))%nat.
Proof.
  remember (Z.to_nat (9 - count)) as n eqn:Hn. revert fuel h count Hn. induction n as [|n IH]; intros fuel h count Hn Hc Hh.
  - pose proof (locator_heights_length fuel h 1 count 30 ltac:(lia) ltac:(lia)) as Hl. change (2 ^ Z.of_nat 31) with (2 ^ 31) in Hl. lia.
  - destruct fuel as [|fuel]; cbn [locator_heights length]; [lia|]. rewrite (proj2 (Z.leb_gt 10 (count + 1))) by lia.
    destruct (h =? 0); cbn [length]; [lia|]. destruct (Z.ltb_spec h 1); cbn [length]; [lia|].
    specialize (IH fuel (h - 1) (count + 1)). lia.
Qed.

(** C36: A block locator is made for every chain whose storage holds all its blocks.  It
    names blocks from the best one, in the queues or stored, down to the genesis block,
    each lower than the one before: the ten best ones in a row, and few in all. *)
Theorem block_locator_spec {E : Type} self hs :
  located self hs ->
  let full := hs ++ queued (hash_chain self) in
  exists heights, block_locator_hashes (E := E) self = Ok (hashes_at full heights) /\
    head heights = Some (zlen full - 1) /\ last heights = Some 0 /\ StronglySorted Z.gt heights /\
    Forall (fun h => is_Some (full !! Z.to_nat h)) heights /\
    (forall k, (k < 10)%nat -> Z.of_nat k < zlen full -> heights !! k = Some (zlen full - 1 - Z.of_nat k)) /\
    (length heights <= 41)%nat.
Proof.
  intros Hl full. pose proof (lc_bound _ _ Hl) as Hbd. fold full in Hbd. pose proof (lc_best _ _ Hl) as Hbest.
  assert (1 <= zlen hs) as Hne by (pose proof (lc_genesis _ _ Hl) as Hg; apply lookup_lt_Some in Hg; lia).
  assert (zlen full = zlen hs + zlen (queued (hash_chain self))) as Hfull by (unfold full; rewrite length_app; lia).
  set (F := S (Z.to_nat (zlen full - 1))). exists (locator_heights F (zlen full - 1) 1 0).
  split; [|destruct (locator_heights_shape F (zlen full - 1) 1 0) as (rest & Hrest & Hlast & Hsort & Hall); [lia..|]].
  - unfold block_locator_hashes, block_locator_hashes_for_queue. rewrite chain_len_spec, ok_bind by lia.
    destruct (Z.eqb_spec (zlen (queued (hash_chain self))) 0) as [Hz|Hz].
    + rewrite ok_bind. rewrite (proj2 (Z.ltb_ge _ 0)) by lia. rewrite (locator_storage_spec self hs) by (done || lia). cbn [app length].
      f_equal. fold full. unfold F. replace (bb_number (best_storage_block self) - 0) with (zlen full - 1) by lia. done.
    + destruct (locator_queue_spec (E := E) self hs (Z.to_nat (zlen (queued (hash_chain self)))) (zlen (queued (hash_chain self)) - 1) 1 [])
        as (hashes & local & st & Hr & Hloc & Hst & Hrest); [done|lia|lia|lia|]. rewrite Hr, ok_bind. cbn zeta in Hrest. destruct Hrest as (Hj & Heq).
      rewrite (locator_storage_spec self hs) by (done || lia). fold full in Heq |- *. f_equal.
      rewrite (Heq F) by (unfold F; lia). cbn [app length]. by replace (zlen hs + (zlen (queued (hash_chain self)) - 1)) with (zlen full - 1) by lia.
  - split_and!.
    + by rewrite Hrest.
    + by rewrite Hrest.
    + by rewrite Hrest.
    + rewrite Hrest. eapply Forall_impl; [exact Hall|]. cbn. intros x Hx. apply lookup_lt_is_Some_2. lia.
    + intros k Hk Hkl. unfold F. rewrite locator_heights_row by lia. done.
    + pose proof (locator_heights_length_row F (zlen full - 1) 0). lia.
Qed.

End locator.

(** * Queues and headers *)

Section queues.
Context `{BitVec} {T : Type} `{!Kv.KeyValueDatabase T}.
Context `{L : LinkedHashMap bytes IndexedTransaction}.
Implicit Types (self : Chain (T := T) (L := L)) (a b c : list bytes).

(** The queues of verified, requested and scheduled blocks, no hash twice. *)
Record three (q : HashQueueChain) a b c : Prop := {
  th_queues : exists qa qb qc, q = [qa; qb; qc] /\ HashQueue.wf qa /\ HashQueue.wf qb /\ HashQueue.wf qc /\
    queue qa = a /\ queue qb = b /\ queue qc = c;
  th_nodup : NoDup (a ++ b ++ c);
  th_bound : zlen (a ++ b ++ c) < 2 ^ 32;
}.

Definition except (hs : list bytes) (l : list bytes) : list bytes := List.filter (fun x => negb (bool_decide (x ∈ hs))) l.

Lemma except_id hs l : (forall x, x ∈ hs -> x ∉ l) -> except hs l = l.
Proof.
  intros Hn. apply List.forallb_filter_id, forallb_forall. intros x Hx%list_elem_of_In. apply negb_true_iff, bool_decide_eq_false.
  intros Hin. by apply (Hn x).
Qed.

Lemma except_middle h l1 l2 : NoDup (l1 ++ h :: l2) -> except [h] (l1 ++ h :: l2) = l1 ++ l2.
Proof.
  intros Hn. assert ((h ∉ l1) /\ h ∉ l2) as [H1 H2].
  { rewrite <- Permutation_middle, NoDup_cons, not_elem_of_app in Hn. tauto. }
  unfold except. rewrite List.filter_app. cbn [List.filter]. rewrite bool_decide_true by apply list_elem_of_here. cbn [negb].
  fold (except [h] l1) (except [h] l2). rewrite !except_id; [done|..]; by intros x ->%list_elem_of_singleton.
Qed.

Lemma except_app hs hs' l : except hs (except hs' l) = except (hs ++ hs') l.
Proof.
  unfold except. induction l as [|x l IH]; [done|]. cbn [List.filter].
  destruct (decide (x ∈ hs')) as [Hx|Hx].
  - rewrite (bool_decide_true (x ∈ hs')), (bool_decide_true (x ∈ hs ++ hs')) by set_solver. done.
  - rewrite (bool_decide_false (x ∈ hs')) by done. cbn [negb List.filter]. rewrite IH.
    rewrite (bool_decide_ext (x ∈ hs) (x ∈ hs ++ hs')) by set_solver. done.
Qed.

Lemma remove_except {E : Type} q h :
  HashQueue.wf q -> zlen (queue q) < 2 ^ 32 ->
  exists p q', HashQueue.remove (E := E) q h = Ok (p, q') /\ HashQueue.wf q' /\ queue q' = except [h] (queue q) /\ (p = Missing <-> h ∉ queue q).
Proof.
  intros Hw Hl. destruct (remove_spec (E := E) q h Hw Hl) as [[Hn ->]|(l1 & l2 & p & q' & Hq & Hn & -> & -> & Hq' & Hw')].
  - exists Missing, q. split_and!; try done. rewrite except_id; [done|]. by intros x ->%list_elem_of_singleton.
  - eexists _, q'. split; [done|]. split_and!; [done| |].
    + rewrite Hq, except_middle; [done|]. rewrite <- Hq. apply Hw.
    + rewrite Hq. split; [by case_bool_decide|]. intros Hn'. exfalso. apply Hn'. set_solver.
Qed.

Lemma except_length hs l : (length (except hs l) <= length l)%nat.
Proof. unfold except. induction l as [|x l IH]; cbn; [lia|]. destruct (negb _); cbn; lia. Qed.

Lemma except_nodup hs l : NoDup l -> NoDup (except hs l).
Proof.
  intros Hn. apply NoDup_ListNoDup, List.NoDup_filter, NoDup_ListNoDup. done.
Qed.

Lemma three_except hs qa qb qc a b c :
  NoDup (a ++ b ++ c) -> zlen (a ++ b ++ c) < 2 ^ 32 -> HashQueue.wf qa -> HashQueue.wf qb -> HashQueue.wf qc ->
  queue qa = except hs a -> queue qb = except hs b -> queue qc = except hs c -> three [qa; qb; qc] (except hs a) (except hs b) (except hs c).
Proof.
  intros Hn Hb Ha Hb' Hc Hqa Hqb Hqc. split; [by exists qa, qb, qc| |]; unfold except; rewrite <- !List.filter_app; fold (except hs (a ++ b ++ c)).
  - by apply except_nodup.
  - pose proof (except_length hs (a ++ b ++ c)). lia.
Qed.

(** A forgotten block leaves the queue it is in. *)
Lemma forget_leave_spec {E : Type} self h a b c :
  three (hash_chain self) a b c ->
  exists p self', forget_block_leave_header (E := E) self h = Ok (p, self') /\
    three (hash_chain self') (except [h] a) (except [h] b) (except [h] c) /\
    self' = with_queues self (hash_chain self') (headers_chain self).
Proof.
  intros [(qa & qb & qc & Hq & Hwa & Hwb & Hwc & <- & <- & <-) Hn Hb].
  pose proof Hb as Hb'. rewrite !length_app in Hb'.
  destruct (remove_except (E := E) qa h Hwa) as (pa & qa' & Ha & Hwa' & Hqa & Hpa); [lia|].
  destruct (remove_except (E := E) qb h Hwb) as (pb & qb' & Hqb' & Hwb' & Hqb & Hpb); [lia|].
  destruct (remove_except (E := E) qc h Hwc) as (pc & qc' & Hqc' & Hwc' & Hqc & Hpc); [lia|].
  assert (forall x, x ∈ queue qa -> x ∉ queue qb /\ x ∉ queue qc) as Hab.
  { intros x Hx. apply NoDup_app in Hn as (_ & Hn & _). specialize (Hn x Hx). by rewrite not_elem_of_app in Hn. }
  assert (forall x, x ∈ queue qb -> x ∉ queue qc) as Hbc.
  { apply NoDup_app in Hn as (_ & _ & Hn). apply NoDup_app in Hn as (_ & Hn & _). done. }
  assert (forall q : HashQueue, h ∉ queue q -> queue q = except [h] (queue q)) as Hid.
  { intros q Hq'. rewrite except_id; [done|]. by intros x ->%list_elem_of_singleton. }
  unfold forget_block_leave_header, remove_at, index. rewrite Hq. cbn. rewrite Ha. cbn.
  destruct (decide (h ∈ queue qa)) as [Hin|Hin].
  { destruct (Hab h Hin) as [Hnb Hnc]. destruct pa; [by apply Hpa in Hin|..]; eexists _, _; (split; [reflexivity|]); (split; [|done]);
      cbn; apply three_except; auto. }
  rewrite (proj2 Hpa Hin). cbn. rewrite Hqb'. cbn. destruct (decide (h ∈ queue qb)) as [Hinb|Hinb].
  { destruct pb; [by apply Hpb in Hinb|..]; eexists _, _; (split; [reflexivity|]); (split; [|done]); cbn; apply three_except; auto. }
  rewrite (proj2 Hpb Hinb). cbn. rewrite Hqc'. cbn. eexists _, _. split; [reflexivity|]. split; [|done]. cbn. apply three_except; auto.
Qed.

Lemma three_id q hs a b c :
  three q a b c -> (forall x, x ∈ hs -> x ∉ a ++ b ++ c) -> three q (except hs a) (except hs b) (except hs c).
Proof.
  intros Ht Hn. rewrite !except_id; [done|..]; intros x Hx; specialize (Hn x Hx); set_solver.
Qed.

(** Forgetting the last header also takes its block out of the queues. *)
Lemma forget_last_spec {E : Type} self hs h a b c :
  three (hash_chain self) a b c -> rep (headers_chain self) (hs ++ [h]) -> zlen (hs ++ [h]) < 2 ^ 32 ->
  exists p self', forget_block (E := E) self (ih_hash h) = Ok (p, self') /\
    three (hash_chain self') (except [ih_hash h] a) (except [ih_hash h] b) (except [ih_hash h] c) /\
    rep (headers_chain self') hs /\ storage_best_hash (headers_chain self') = storage_best_hash (headers_chain self) /\
    self' = with_queues self (hash_chain self') (headers_chain self').
Proof.
  intros Ht Hr Hl. unfold forget_block.
  destruct (remove_rep (E := E) (headers_chain self) (hs ++ [h]) (ih_hash h) Hr Hl) as [[Hn _]|(hs1 & h' & hs2 & hc & Heq & Hh & -> & Hr' & Hsb)].
  { exfalso. apply Hn. rewrite map_app. set_solver. }
  assert (hs1 = hs) as ->.
  { pose proof (rep_nodup _ _ Hr) as Hnd. destruct hs2 as [|x hs2] using rev_ind; [by apply app_inj_tail in Heq as [<- _]|].
    exfalso. rewrite app_comm_cons, app_assoc in Heq. apply app_inj_tail in Heq as [-> ->]. rewrite !map_app in Hnd. cbn [map] in Hnd.
    rewrite Hh in Hnd. apply NoDup_app in Hnd as (_ & Hnd & _). apply (Hnd (ih_hash x)); set_solver. }
  rewrite ok_bind. destruct (forget_leave_spec (E := E) (with_queues self (hash_chain self) hc) (ih_hash h) a b c Ht) as (p & self' & -> & Ht' & Hself).
  exists p, self'. split; [done|]. split; [done|]. rewrite Hself. cbn. split_and!; done.
Qed.

Lemma forget_blocks_spec {E : Type} self hs tl a b c :
  three (hash_chain self) a b c -> rep (headers_chain self) (hs ++ tl) -> zlen (hs ++ tl) < 2 ^ 32 ->
  exists self', forget_blocks (E := E) self (rev (map ih_hash tl)) = Ok self' /\
    three (hash_chain self') (except (map ih_hash tl) a) (except (map ih_hash tl) b) (except (map ih_hash tl) c) /\
    rep (headers_chain self') hs /\ self' = with_queues self (hash_chain self') (headers_chain self').
Proof.
  revert self a b c. induction tl as [|h tl IH] using rev_ind; intros self a b c Ht Hr Hl.
  { exists self. cbn. rewrite app_nil_r in Hr. split; [done|]. split; [|split; [done|by destruct self]]. apply three_id; [done|]. by intros x ?%not_elem_of_nil. }
  rewrite app_assoc in Hr, Hl. destruct (forget_last_spec (E := E) self (hs ++ tl) h a b c Ht Hr Hl) as (p & self1 & Hf & Ht1 & Hr1 & _ & Hs1).
  rewrite map_app, rev_app_distr. cbn [map rev app forget_blocks]. rewrite Hf, ok_bind.
  destruct (IH self1 _ _ _ Ht1 Hr1) as (self2 & -> & Ht2 & Hr2 & Hs2); [rewrite !length_app in *; cbn [length] in Hl; lia|]. exists self2. split; [done|].
  rewrite !except_app in Ht2. cbn [map] in *. split; [done|]. split; [done|]. rewrite Hs2, Hs1. by destruct self2.
Qed.

Lemma removal_stack_spec {E : Type} self hs fuel i stack :
  rep (headers_chain self) hs -> zlen hs < 2 ^ 32 -> (length hs < fuel + i)%nat ->
  removal_stack_loop (E := E) fuel self (match hs !! i with Some h => [ih_hash h] | None => [] end) stack = Ok (stack ++ map ih_hash (drop i hs)).
Proof.
  intros Hr Hl. revert i stack. induction fuel as [|fuel IH]; intros i stack Hf; destruct (hs !! i) as [h|] eqn:Hi; cbn [removal_stack_loop].
  - apply lookup_lt_Some in Hi. lia.
  - apply lookup_ge_None in Hi. by rewrite drop_ge, app_nil_r by lia.
  - rewrite (children_rep (headers_chain self) hs Hr Hl h i Hi), ok_bind. cbn [app]. rewrite IH by lia.
    rewrite (drop_S _ _ _ Hi). cbn [map]. by rewrite <- app_assoc.
  - apply lookup_ge_None in Hi. by rewrite drop_ge, app_nil_r by lia.
Qed.

(** Forgetting a block whose header is known forgets all blocks after it: their headers
    leave the chain of best headers, and their hashes leave the queues; everything else
    stays as it is. *)
Theorem forget_with_children_spec {E : Type} self a b c hs1 h hs2 :
  three (hash_chain self) a b c -> rep (headers_chain self) (hs1 ++ h :: hs2) -> zlen (hs1 ++ h :: hs2) < 2 ^ 32 ->
  let gone := map ih_hash (h :: hs2) in
  exists self', forget_block_with_children (E := E) self (ih_hash h) = Ok self' /\
    three (hash_chain self') (except gone a) (except gone b) (except gone c) /\ rep (headers_chain self') hs1 /\
    self' = with_queues self (hash_chain self') (headers_chain self').
Proof.
  intros Ht Hr Hl gone. unfold forget_block_with_children. rewrite (rep_queue _ _ Hr), length_map.
  pose proof (removal_stack_spec (E := E) self (hs1 ++ h :: hs2) (S (length (hs1 ++ h :: hs2))) (length hs1) [] Hr Hl ltac:(lia)) as Hs.
  rewrite list_lookup_middle, drop_app_length in Hs by done. cbn [app] in Hs. rewrite Hs, ok_bind. by apply forget_blocks_spec.
Qed.

(** * Numbers of blocks that are not stored *)

(** The header that is given for the number of a header in the chain of best headers is
    the next one. *)
Theorem header_by_number_is_next {E : Type} self hs i h :
  rep (headers_chain self) hs -> bb_number (best_storage_block self) + zlen hs + 1 < 2 ^ 32 -> 0 <= bb_number (best_storage_block self) ->
  hs !! i = Some h -> Db.block_number (E := E) (storage self) (ih_hash h) = Ok None ->
  exists n, block_number (E := E) self (ih_hash h) = Ok (Some n) /\ block_header_by_number (E := E) self n = Ok (hs !! S i).
Proof.
  intros Hr Hb Hp Hi Hn. pose proof (lookup_lt_Some _ _ _ Hi) as Hlt. exists (bb_number (best_storage_block self) + Z.of_nat i + 1). split.
  - unfold block_number. rewrite Hn, ok_bind. unfold height. rewrite (position_rep _ _ _ _ Hr ltac:(lia) Hi).
    rewrite ucheck_Ok, ok_bind, ucheck_Ok, ok_bind by (unfold uint; lia). done.
  - unfold block_header_by_number. rewrite (proj2 (Z.leb_gt _ _)) by lia. rewrite (header_at_rep _ _ _ Hr). do 2 f_equal. lia.
Qed.

End queues.
End SyncChainSpec.

(** * Examples *)

Section witnesses.
Import Chain ChainHash Network Storage Kv DbExamples ExampleBits HashQueue BestHeaders MemoryPoolSpec ExamplePool ExampleLinked SyncChain SyncChainSpec.

Abbreviation chain := (Chain (T := MemoryDatabase) (L := example_linked IndexedTransaction)).

(** The chain over a database and a memory pool. *)
Definition chain_over (s : database) (pool : MemoryPool.Pool) : chain :=
  mkChain (hash_of x01) (Db.best_block s) s [HashQueue.new; HashQueue.new; HashQueue.new] (BestHeaders.new (bb_hash (Db.best_block s)))
    lhm_new pool ∅ false.

Lemma main_block_accepted_witness :
  exists self', insert_best_block (chain_over db_2 example_pool2) block_1 = Ok (mkInsertion [hash_of x02] [], self') /\
    bb_hash (best_storage_block self') = hash_of x02 /\ accepted (ib_transactions block_1) example_pool2 (memory_pool self').
Proof.
  destruct (main_block_accepted (E := unit) example_inputs false (chain_over db_2 example_pool2) block_1 1 db_3 db_4)
    as (self' & Hi & _ & _ & Hb & _ & Ha & _).
  - exact example_pool2_reachable.
  - vm_compute. reflexivity.
  - vm_compute. reflexivity.
  - apply ok_unwrap. vm_compute. reflexivity.
  - apply ok_unwrap. vm_compute. reflexivity.
  - exists self'. split_and!; [exact Hi|exact Hb|exact Ha].
Defined.

(** A block on the side chain of [db_6], which makes it the main chain. *)
Definition side_3 : IndexedBlock := example_block x05 (hash_of x04) [coinbase xa5].
Definition side_fork : Db.ForkChainDatabase MemoryDatabase :=
  unwrap (Db.mkDb (Db.best_block db_6) (overlay_new (Db.db db_6))) (Db.fork db_6 next_origin).
Definition side_fork_1 : Db.ForkChainDatabase MemoryDatabase := unwrap side_fork (Db.insert side_fork side_3).
Definition side_fork_2 : Db.ForkChainDatabase MemoryDatabase := unwrap side_fork_1 (Db.canonize side_fork_1 (hash_of x05)).
Definition switched : database := unwrap db_6 (Db.switch_to_fork db_6 side_fork_2).

Lemma reorganization_reverifies_witness :
  exists self' pool_txs verifying_txs,
    insert_best_block (chain_over db_6 example_pool2) side_3 =
      Ok (mkInsertion [hash_of x03; hash_of x04; hash_of x05] ([coinbase xa1; spend xa2 xa0] ++ pool_txs ++ verifying_txs), self') /\
    pool_of (memory_pool self') = ∅.
Proof.
  destruct (reorganization_reverifies (E := unit) example_inputs false (chain_over db_6 example_pool2) side_3 next_origin side_fork side_fork_1 side_fork_2
    switched (map hash_of [xa3; xa2; xa4]) [coinbase xa1; spend xa2 xa0]) as (self' & p & v & Hi & _ & _ & _ & Hp & _).
  - exact example_pool2_reachable.
  - vm_compute. reflexivity.
  - vm_compute. reflexivity.
  - apply ok_unwrap. vm_compute. reflexivity.
  - apply ok_unwrap. vm_compute. reflexivity.
  - apply ok_unwrap. vm_compute. reflexivity.
  - apply ok_unwrap. vm_compute. reflexivity.
  - vm_compute. reflexivity.
  - vm_compute. reflexivity.
  - exists self', p, v. split; [exact Hi|exact Hp].
Defined.

(** Two blocks are stored, and two are scheduled. *)
Definition scheduled_chain : chain :=
  with_queues (chain_over db_4 example_pool2)
    [HashQueue.new; HashQueue.new; mkQueue [hash_of x0a; hash_of x0b] (list_to_set [hash_of x0a; hash_of x0b])]
    (mkHeaders (hash_of x02)
      (list_to_map (map (fun h => (ih_hash h, h)) [mkIndexedHeader (hash_of x0a) (header (hash_of x02)); mkIndexedHeader (hash_of x0b) (header (hash_of x0a))]))
      (mkQueue [hash_of x0a; hash_of x0b] (list_to_set [hash_of x0a; hash_of x0b]))).

Lemma block_locator_spec_witness :
  exists heights, block_locator_hashes (E := unit) scheduled_chain =
    Ok (hashes_at ([hash_of x01; hash_of x02] ++ queued (hash_chain scheduled_chain)) heights) /\ head heights = Some 3 /\ last heights = Some 0.
Proof.
  destruct (block_locator_spec (E := unit) scheduled_chain [hash_of x01; hash_of x02]) as (heights & Hb & Hh & Hl & _).
  - split.
    + vm_compute. reflexivity.
    + intros E [|[|i]] h; [intros [= <-]; vm_compute; reflexivity..|]. done.
    + reflexivity.
    + vm_compute. reflexivity.
  - exists heights. split_and!; [exact Hb|exact Hh|exact Hl].
Defined.

Lemma forget_with_children_spec_witness :
  exists self', forget_block_with_children (E := unit) scheduled_chain (hash_of x0a) = Ok self' /\ rep (headers_chain self') [].
Proof.
  destruct (forget_with_children_spec (E := unit) scheduled_chain [] [] [hash_of x0a; hash_of x0b] []
    (mkIndexedHeader (hash_of x0a) (header (hash_of x02))) [mkIndexedHeader (hash_of x0b) (header (hash_of x0a))]) as (self' & Hf & _ & Hr & _).
  - split; [|by apply (bool_decide_eq_true_1 _); vm_compute|vm_compute; reflexivity].
    eexists _, _, _. split; [reflexivity|]. split_and!; try done; try apply HashQueue.wf_new.
    split; [reflexivity|by apply (bool_decide_eq_true_1 _); vm_compute].
  - split; [|reflexivity|reflexivity]. split; [reflexivity|by apply (bool_decide_eq_true_1 _); vm_compute].
  - vm_compute. reflexivity.
  - exists self'. split; [exact Hf|exact Hr].
Defined.

(** Blocks that are only under verification are not seen by [best_block]. *)
Theorem best_block_ignores_verifying :
  best_block (E := unit) (with_queues (chain_over db_4 example_pool2)
    [mkQueue [hash_of x0a] {[hash_of x0a]}; HashQueue.new; HashQueue.new] (BestHeaders.new (hash_of x02))) = Ok (mkBest 1 (hash_of x02)).
Proof. vm_compute. reflexivity. Qed.

End witnesses.
