(* ===== verification/Float64.v ===== *)
(** Double-precision numbers ([f64]), as far as the node computes with times and
    speeds: the binary64 format of the Standard Library's specification of floating
    point, rounding to nearest even. *)
From Stdlib Require Import ZArith Lia Floats.SpecFloat Floats.FloatClass.
From stdpp Require Import base.
From S2P Require Import Prelude.

Local Open Scope Z_scope.

Module F64.

Definition prec : Z := 53.
Definition emax : Z := 1024.

Definition f64 : Type := spec_float.

Definition add : f64 -> f64 -> f64 := SFadd prec emax.
Definition sub : f64 -> f64 -> f64 := SFsub prec emax.
Definition mul : f64 -> f64 -> f64 := SFmul prec emax.
Definition div : f64 -> f64 -> f64 := SFdiv prec emax.

(** [as f64] of an integer. *)
Definition of_int (z : Z) : f64 := binary_normalize prec emax z 0 false.

(** A literal [n / d]. *)
Definition ratio (n d : Z) : f64 := div (of_int n) (of_int d).

(** The comparisons [<], [<=], [>]; all are false on a number that is not one. *)
Definition ltb (x y : f64) : bool := SFltb x y.
Definition leb (x y : f64) : bool := SFleb x y.
Definition gtb (x y : f64) : bool := SFltb y x.
Definition geb (x y : f64) : bool := SFleb y x.

Definition partial_cmp (x y : f64) : option comparison := SFcompare x y.

Definition is_normal (x : f64) : bool :=
  match SFclassify prec x with PNormal | NNormal => true | _ => false end.

(** [as u32]: towards zero, saturating. *)
Definition to_u32 (x : f64) : Z :=
  match x with
  | S754_nan | S754_zero _ | S754_infinity true | S754_finite true _ _ => 0
  | S754_infinity false => 2 ^ 32 - 1
  | S754_finite false m e => Z.min (2 ^ 32 - 1) (Z.shiftl (Zpos m) e)
  end.

Lemma to_u32_range x : 0 <= to_u32 x < 2 ^ 32.
Proof.
  destruct x as [[]|[]| |[] m e]; cbn [to_u32]; try lia.
  assert (0 <= Z.shiftl (Zpos m) e) by (apply Z.shiftl_nonneg; lia). lia.
Qed.

End F64.
