(* ===== verification/PeersTasks.v ===== *)
(** Which peer is asked for what (src/sync/src: synchronization_peers_tasks.rs,
    utils/average_speed_meter.rs): the peers that are useful, idle or busy, their pending
    requests and failures, and the meters of their speed.

    The clock ([precise_time_s]) is an argument of the operations that read it; it
    stands still within one operation. *)
From Stdlib Require Import ZArith Lia Strings.Byte.
From stdpp Require Import base decidable numbers countable gmap list.
From S2P Require Import Prelude LinkedMap MemoryPool Float64.

Local Open Scope Z_scope.

(** * Speed meters *)

Module AverageSpeedMeter.
Import F64.

Record AverageSpeedMeter := mkMeter {
  inspect_items : Z;
  inspected_items : list f64;
  meter_speed : f64;
  last_timestamp : option f64;
}.

Definition with_inspect_items {E} (inspect_items : Z) : outcome E AverageSpeedMeter :=
  _ ← rust_assert (0 <? inspect_items);
  Ok (mkMeter inspect_items [] (of_int 0) None).

Definition speed (self : AverageSpeedMeter) : f64 :=
  let items_per_second := div (of_int 1) (meter_speed self) in
  if is_normal items_per_second then items_per_second else of_int 0.

Definition inspected_items_len (self : AverageSpeedMeter) : Z := zlen (inspected_items self).

Definition checkpoint {E} (now : f64) (self : AverageSpeedMeter) : outcome E AverageSpeedMeter :=
  '(items, s) ← (if inspected_items_len self =? inspect_items self then
      oldest ← expect (head (inspected_items self));
      Ok (tail (inspected_items self),
          div (sub (mul (of_int (inspect_items self)) (meter_speed self)) oldest) (sub (of_int (inspect_items self)) (of_int 1)))
    else Ok (inspected_items self, meter_speed self));
  Ok (match last_timestamp self with
      | Some last =>
          let newest := sub now last in
          mkMeter (inspect_items self) (items ++ [newest])
            (div (add (mul (of_int (zlen items)) s) newest) (add (of_int (zlen items)) (of_int 1))) (Some now)
      | None => mkMeter (inspect_items self) items s (Some now)
      end).

Definition start (now : f64) (self : AverageSpeedMeter) : AverageSpeedMeter :=
  mkMeter (inspect_items self) (inspected_items self) (meter_speed self) (Some now).

Definition stop (self : AverageSpeedMeter) : AverageSpeedMeter :=
  mkMeter (inspect_items self) (inspected_items self) (meter_speed self) None.

(** The meter holds at most as many times as it inspects, at least one. *)
Definition wf (self : AverageSpeedMeter) : Prop :=
  0 < inspect_items self /\ inspected_items_len self <= inspect_items self.

(** A checkpoint never fails, and keeps the window of the last items. *)
Lemma checkpoint_wf {E} now self :
  wf self -> exists self', checkpoint (E := E) now self = Ok self' /\ wf self' /\ inspect_items self' = inspect_items self.
Proof.
  intros [Hp Hl]. unfold wf, checkpoint, inspected_items_len in *. destruct (Z.eqb_spec (zlen (inspected_items self)) (inspect_items self)) as [He|He].
  - destruct (inspected_items self) as [|x l]; [cbn in He; lia|]. cbn [head expect]. rewrite ok_bind. cbn [tail] in *.
    eexists. split; [reflexivity|]. cbn in *. destruct (last_timestamp self); cbn; rewrite ?length_app; cbn; (split; [|done]); lia.
  - rewrite ok_bind. eexists. split; [reflexivity|]. destruct (last_timestamp self); cbn; rewrite ?length_app; cbn; (split; [|done]); lia.
Qed.

End AverageSpeedMeter.

(** * Peers and their tasks *)

Module PeersTasks.
Import F64 AverageSpeedMeter.

Definition MAX_PEER_FAILURES : Z := 4.
Definition MAX_BLOCKS_FAILURES : Z := 6.
Definition BLOCKS_TO_INSPECT : Z := 32.

(** The time a request was sent; for blocks, also the hashes not yet received. *)
Record HeadersRequest := mkHeadersRequest { hr_timestamp : f64 }.
Record BlocksRequest := mkBlocksRequest { br_timestamp : f64; br_blocks : gset bytes }.

Inductive TrustLevel := Suspicious | Trusted.
#[global] Instance TrustLevel_eq_dec : EqDecision TrustLevel.
Proof. solve_decision. Defined.

Record PeerStats := mkPeerStats { failures : Z; stats_speed : AverageSpeedMeter; trust : TrustLevel }.

(** The failures of a block's requests ([BlockStats]). *)
Definition BlockStats := Z.

Section tasks.
Context `{!HashOrder} `{!HashOrderOf Z}.
Context {LH : LinkedHashMap Z HeadersRequest} `{!LinkedHashMapEdit Z HeadersRequest LH}.
Context {LB : LinkedHashMap Z BlocksRequest} `{!LinkedHashMapEdit Z BlocksRequest LB}.

Record PeersTasks := mkTasks {
  all : gset Z;
  unuseful : gset Z;
  idle_for_headers : gset Z;
  idle_for_blocks : gset Z;
  headers_requests : @lhm Z HeadersRequest LH;
  blocks_requests : @lhm Z BlocksRequest LB;
  stats : gmap Z PeerStats;
  blocks_stats : gmap bytes BlockStats;
}.

Definition default : PeersTasks := mkTasks ∅ ∅ ∅ ∅ lhm_new lhm_new ∅ ∅.

Definition stats_new {E} : outcome E PeerStats :=
  speed ← with_inspect_items BLOCKS_TO_INSPECT;
  Ok (mkPeerStats 0 speed Suspicious).

(** Changes of a field, as [insert] and [remove] make them. *)
Definition with_stats (self : PeersTasks) (s : gmap Z PeerStats) : PeersTasks :=
  mkTasks (all self) (unuseful self) (idle_for_headers self) (idle_for_blocks self) (headers_requests self)
    (blocks_requests self) s (blocks_stats self).
Definition with_blocks_stats (self : PeersTasks) (s : gmap bytes BlockStats) : PeersTasks :=
  mkTasks (all self) (unuseful self) (idle_for_headers self) (idle_for_blocks self) (headers_requests self)
    (blocks_requests self) (stats self) s.
Definition with_sets (self : PeersTasks) (a u ih ib : gset Z) : PeersTasks :=
  mkTasks a u ih ib (headers_requests self) (blocks_requests self) (stats self) (blocks_stats self).
Definition with_headers_requests (self : PeersTasks) (r : @lhm Z HeadersRequest LH) : PeersTasks :=
  mkTasks (all self) (unuseful self) (idle_for_headers self) (idle_for_blocks self) r (blocks_requests self)
    (stats self) (blocks_stats self).
Definition with_blocks_requests (self : PeersTasks) (r : @lhm Z BlocksRequest LB) : PeersTasks :=
  mkTasks (all self) (unuseful self) (idle_for_headers self) (idle_for_blocks self) (headers_requests self) r
    (stats self) (blocks_stats self).

(** ** Reading *)

Definition useful_peers (self : PeersTasks) : list Z := List.filter (fun p => negb (bool_decide (p ∈ unuseful self))) (hash_iter (all self)).

(** Faster peers first; a peer without a speed counts as standing still. *)
Definition sort_peers_for_blocks {E} (self : PeersTasks) (peers : list Z) : outcome E (list Z) :=
  let peer_speed p := match stats self !! p with Some s => speed (stats_speed s) | None => of_int 0 end in
  sort_by (fun left right => Ok (match partial_cmp (peer_speed right) (peer_speed left) with Some c => c | None => Eq end)) peers.

Definition get_blocks_tasks (self : PeersTasks) (peer_index : Z) : option (gset bytes) :=
  br_blocks <$> lhm_get (blocks_requests self) peer_index.

Definition get_peer_stats (self : PeersTasks) (peer_index : Z) : option PeerStats := stats self !! peer_index.

Record Information := mkInformation { info_all : Z; info_idle : Z; info_unuseful : Z; info_active : Z }.

Definition information (self : PeersTasks) : Information :=
  let active_for_headers : gset Z := list_to_set (map fst (lhm_iter (headers_requests self))) in
  let active_for_blocks : gset Z := list_to_set (map fst (lhm_iter (blocks_requests self))) in
  mkInformation (Z.of_nat (size (all self))) (Z.of_nat (size (idle_for_blocks self ∖ active_for_headers)))
    (Z.of_nat (size (unuseful self))) (Z.of_nat (size (active_for_headers ∪ active_for_blocks))).

(** ** Marking peers *)

Definition useful_peer {E} (self : PeersTasks) (peer_index : Z) : outcome E PeersTasks :=
  let inserted := bool_decide (peer_index ∉ all self) in
  let removed := negb inserted && bool_decide (peer_index ∈ unuseful self) in
  let unuseful' := if inserted then unuseful self else unuseful self ∖ {[peer_index]} in
  let self := with_sets self (all self ∪ {[peer_index]}) unuseful' (idle_for_headers self) (idle_for_blocks self) in
  if inserted || removed then
    s ← stats_new;
    Ok (with_stats
          (with_sets self (all self) (unuseful self) (idle_for_headers self ∪ {[peer_index]}) (idle_for_blocks self ∪ {[peer_index]}))
          (<[peer_index := s]> (stats self)))
  else Ok self.

Definition unuseful_peer {E} (self : PeersTasks) (peer_index : Z) : outcome E PeersTasks :=
  _ ← rust_assert (negb (lhm_contains_key (blocks_requests self) peer_index));
  self ← (if bool_decide (peer_index ∉ all self) then
      s ← stats_new; Ok (with_stats self (<[peer_index := s]> (stats self)))
    else Ok self);
  Ok (with_sets self (all self ∪ {[peer_index]}) (unuseful self ∪ {[peer_index]}) (idle_for_headers self ∖ {[peer_index]})
        (idle_for_blocks self ∖ {[peer_index]})).

Definition disconnect {E} (self : PeersTasks) (peer_index : Z) : outcome E PeersTasks :=
  _ ← rust_assert (negb (lhm_contains_key (blocks_requests self) peer_index));
  let self := with_sets self (all self ∖ {[peer_index]}) (unuseful self ∖ {[peer_index]}) (idle_for_headers self ∖ {[peer_index]})
                (idle_for_blocks self ∖ {[peer_index]}) in
  let self := with_headers_requests self (lhm_remove (headers_requests self) peer_index) in
  let self := with_blocks_requests self (lhm_remove (blocks_requests self) peer_index) in
  Ok (with_stats self (delete peer_index (stats self))).

(** ** Responses *)

(** A requested block has come: the response time of the peer. *)
Definition update_response_time {E} (now : f64) (self : PeersTasks) (peer_index : Z) : outcome E PeersTasks :=
  match stats self !! peer_index with
  | Some br =>
      speed ← checkpoint now (stats_speed br);
      let failures := if 0 <? failures br then failures br - 1 else failures br in
      Ok (with_stats self (<[peer_index := mkPeerStats failures speed Trusted]> (stats self)))
  | None => Ok self
  end.

Definition map_stats (self : PeersTasks) (peer_index : Z) (f : AverageSpeedMeter -> AverageSpeedMeter) : PeersTasks :=
  match stats self !! peer_index with
  | Some br => with_stats self (<[peer_index := mkPeerStats (failures br) (f (stats_speed br)) (trust br)]> (stats self))
  | None => self
  end.

Definition on_block_received {E} (now : f64) (self : PeersTasks) (peer_index : Z) (block_hash : bytes) : outcome E PeersTasks :=
  let self := with_blocks_stats self (delete block_hash (blocks_stats self)) in
  match lhm_get (blocks_requests self) peer_index with
  | None => Ok self
  | Some request =>
      if negb (bool_decide (block_hash ∈ br_blocks request)) then Ok self else
      let blocks := br_blocks request ∖ {[block_hash]} in
      let self := with_blocks_requests self
        (lhm_get_mut (blocks_requests self) peer_index (fun r => mkBlocksRequest (br_timestamp r) blocks)) in
      self ← update_response_time now self peer_index;
      if negb (bool_decide (blocks = ∅)) then
        Ok (with_blocks_requests self
              (lhm_insert (lhm_remove (blocks_requests self) peer_index) peer_index (mkBlocksRequest now blocks)))
      else
        let self := map_stats self peer_index stop in
        let self := with_blocks_requests self (lhm_remove (blocks_requests self) peer_index) in
        let idle_h := if negb (lhm_contains_key (headers_requests self) peer_index)
                      then idle_for_headers self ∪ {[peer_index]} else idle_for_headers self in
        Ok (with_sets self (all self) (unuseful self) idle_h (idle_for_blocks self ∪ {[peer_index]}))
  end.

Definition on_headers_received (self : PeersTasks) (peer_index : Z) : PeersTasks :=
  let self := with_headers_requests self (lhm_remove (headers_requests self) peer_index) in
  if negb (lhm_contains_key (blocks_requests self) peer_index)
  then with_sets self (all self) (unuseful self) (idle_for_headers self ∪ {[peer_index]}) (idle_for_blocks self)
  else self.

(** ** Requests *)

Definition on_blocks_requested {E} (now : f64) (self : PeersTasks) (peer_index : Z) (blocks_hashes : list bytes) : outcome E PeersTasks :=
  self ← (if bool_decide (peer_index ∉ all self) then unuseful_peer self peer_index else Ok self);
  let self := with_sets self (all self) (unuseful self ∖ {[peer_index]}) (idle_for_headers self) (idle_for_blocks self ∖ {[peer_index]}) in
  let self := if negb (lhm_contains_key (blocks_requests self) peer_index)
              then with_blocks_requests self (lhm_insert (blocks_requests self) peer_index (mkBlocksRequest now ∅)) else self in
  _ ← expect (lhm_get (blocks_requests self) peer_index);
  let self := with_blocks_requests self (lhm_get_mut (blocks_requests self) peer_index
    (fun r => mkBlocksRequest (br_timestamp r) (br_blocks r ∪ list_to_set blocks_hashes))) in
  Ok (map_stats self peer_index (start now)).

Definition on_headers_requested {E} (now : f64) (self : PeersTasks) (peer_index : Z) : outcome E PeersTasks :=
  self ← (if bool_decide (peer_index ∉ all self) then unuseful_peer self peer_index else Ok self);
  let self := with_sets self (all self) (unuseful self) (idle_for_headers self ∖ {[peer_index]}) (idle_for_blocks self) in
  let requests := lhm_remove (headers_requests self) peer_index in
  Ok (with_headers_requests self (lhm_insert requests peer_index (mkHeadersRequest now))).

(** ** Failures *)

(** The blocks to ask for again, and those that failed too often. *)
Fixpoint on_blocks_failure {E} (self : PeersTasks) (hashes : list bytes) : outcome E (list bytes * list bytes * PeersTasks) :=
  match hashes with
  | [] => Ok ([], [], self)
  | hash :: hashes =>
      n ← ucheck 64 (match blocks_stats self !! hash with Some n => n | None => 0 end + 1);
      if MAX_BLOCKS_FAILURES <? n then
        '(normal_blocks, failed_blocks, self) ← on_blocks_failure (with_blocks_stats self (delete hash (blocks_stats self))) hashes;
        Ok (normal_blocks, hash :: failed_blocks, self)
      else
        '(normal_blocks, failed_blocks, self) ← on_blocks_failure (with_blocks_stats self (<[hash := n]> (blocks_stats self))) hashes;
        Ok (hash :: normal_blocks, failed_blocks, self)
  end.

Definition penalize {E} (self : PeersTasks) (peer_index : Z) : outcome E (bool * PeersTasks) :=
  match stats self !! peer_index with
  | None => Ok (false, self)
  | Some s =>
      if bool_decide (trust s = Trusted) then
        n ← ucheck 64 (failures s + 1);
        Ok (MAX_PEER_FAILURES <? n, with_stats self (<[peer_index := mkPeerStats n (stats_speed s) (trust s)]> (stats self)))
      else
        Ok (true, with_stats self (<[peer_index := mkPeerStats MAX_PEER_FAILURES (stats_speed s) (trust s)]> (stats self)))
  end.

Definition on_peer_block_failure {E} (self : PeersTasks) (peer_index : Z) : outcome E (bool * PeersTasks) := penalize self peer_index.

Definition on_peer_headers_failure {E} (self : PeersTasks) (peer_index : Z) : outcome E (bool * PeersTasks) :=
  let self := with_headers_requests self (lhm_remove (headers_requests self) peer_index) in
  penalize (with_sets self (all self) (unuseful self) (idle_for_headers self ∪ {[peer_index]}) (idle_for_blocks self)) peer_index.

Definition reset (self : PeersTasks) : PeersTasks :=
  mkTasks (all self) (all self) ∅ ∅ (lhm_clear (headers_requests self)) (lhm_clear (blocks_requests self)) (stats self) (blocks_stats self).

Definition reset_blocks_tasks (self : PeersTasks) (peer_index : Z) : list bytes * PeersTasks :=
  let self := with_sets self (all self) (unuseful self) (idle_for_headers self) (idle_for_blocks self ∪ {[peer_index]}) in
  (match lhm_get (blocks_requests self) peer_index with Some br => hash_iter (br_blocks br) | None => [] end,
   with_blocks_requests self (lhm_remove (blocks_requests self) peer_index)).

End tasks.


End PeersTasks.
