(* ===== verification/PeersTasksSpec.v ===== *)
(** What the bookkeeping of peers (PeersTasks.v) keeps true: no useful peer is lost, a
    peer that is asked for blocks is useful and not idle, the peers have been asked for
    what the history of operations says, and no operation of the client fails. *)
From Stdlib Require Import ZArith Lia Strings.Byte.
From stdpp Require Import base decidable numbers countable gmap list relations.
From S2P Require Import Prelude LinkedMap MemoryPool MemoryPoolSpec Float64 PeersTasks.

Local Open Scope Z_scope.

Module PeersTasksSpec.
Import F64 PeersTasks.

(** Membership of one peer after adding or taking out another one. *)
Ltac member q p :=
  cbn in *; rewrite ?elem_of_union, ?elem_of_difference, ?elem_of_singleton in *;
  destruct (decide (q = p)) as [->|]; intuition congruence.

Section spec.
Context `{!HashOrder} `{!HashOrderOf Z}.
Context {LH : LinkedHashMap Z HeadersRequest} `{!LinkedHashMapLaws LH} `{!LinkedHashMapEdit Z HeadersRequest LH} `{!LinkedHashMapEditLaws LH _}.
Context {LB : LinkedHashMap Z BlocksRequest} `{!LinkedHashMapLaws LB} `{!LinkedHashMapEdit Z BlocksRequest LB} `{!LinkedHashMapEditLaws LB _}.
Abbreviation tasks := (PeersTasks (LH := LH) (LB := LB)).
Implicit Types (t : tasks) (n p : Z) (h : bytes).

(** A peer has been asked for blocks. *)
Definition busy t p : Prop := is_Some (lhm_get (blocks_requests t) p).

(** A peer has been asked for the block; some peer has. *)
Definition asked t p h : Prop := exists r, lhm_get (blocks_requests t) p = Some r /\ h ∈ br_blocks r.
Definition pending t h : Prop := exists p, asked t p h.

(** A peer with a lawful meter and at most [n] failures. *)
Definition stats_ok n (s : PeerStats) : Prop := AverageSpeedMeter.wf (stats_speed s) /\ 0 <= failures s <= n.

(** The peers and their tasks, with at most [n] failures for each peer. *)
Record wf n t : Prop := {
  wf_unuseful : unuseful t ⊆ all t;
  wf_stats p : is_Some (stats t !! p) <-> p ∈ all t;
  wf_busy p : busy t p -> p ∈ all t /\ p ∉ unuseful t /\ p ∉ idle_for_blocks t;
  wf_useful p : p ∈ all t -> p ∉ unuseful t -> p ∈ idle_for_blocks t \/ busy t p;
  wf_headers p : is_Some (lhm_get (headers_requests t) p) -> p ∈ all t;
  wf_peer_stats p s : stats t !! p = Some s -> stats_ok n s;
  wf_blocks_stats h k : blocks_stats t !! h = Some k -> 1 <= k <= MAX_BLOCKS_FAILURES;
  wf_bound : MAX_PEER_FAILURES <= n;
}.

Lemma wf_default : wf MAX_PEER_FAILURES default.
Proof.
  split; cbn; try set_solver.
  - intros p. rewrite lookup_empty. split; [by intros []|set_solver].
  - intros p [r Hr]. unfold busy in *. cbn in Hr. by rewrite lhm_get_new in Hr.
  - intros p [r Hr]. by rewrite lhm_get_new in Hr.
Qed.

(** ** New peers *)

Lemma stats_new_ok {E} n : MAX_PEER_FAILURES <= n -> exists s, stats_new (E := E) = Ok s /\ stats_ok n s.
Proof. intros Hn. eexists. split; [reflexivity|]. unfold MAX_PEER_FAILURES in Hn. by repeat split; cbn; try lia. Qed.

Lemma insert_stats_ok n (m : gmap Z PeerStats) p s :
  (forall q x, m !! q = Some x -> stats_ok n x) -> stats_ok n s -> forall q x, <[p := s]> m !! q = Some x -> stats_ok n x.
Proof. intros Hm Hs q x. rewrite lookup_insert. case_decide; [by intros [= <-]|apply Hm]. Qed.

(** The tasks with one peer made idle, useful, and with new statistics. *)
Definition add_useful t p s (u : gset Z) : tasks :=
  with_stats (with_sets t (all t ∪ {[p]}) u (idle_for_headers t ∪ {[p]}) (idle_for_blocks t ∪ {[p]})) (<[p := s]> (stats t)).

Lemma wf_add_useful n t p s :
  wf n t -> ~ busy t p -> stats_ok n s -> wf n (add_useful t p s (unuseful t ∖ {[p]})).
Proof.
  intros [H1 H2 H3 H4 H5 H6 H7 H8] Hb Hs. split; cbn.
  - intros q Hq. specialize (H1 q). clear - Hq H1. member q p.
  - intros q. rewrite lookup_insert_is_Some, (H2 q), elem_of_union, elem_of_singleton. destruct (decide (p = q)); intuition congruence.
  - intros q Hq. specialize (H3 q Hq). clear H1 H2 H4 H5 H6 H7. unfold busy in *. cbn in Hq. member q p.
  - intros q. specialize (H4 q). clear H1 H2 H3 H5 H6 H7. unfold busy in *. member q p.
  - intros q Hq. apply elem_of_union_l. by apply H5.
  - by apply insert_stats_ok.
  - done.
  - done.
Qed.

Lemma useful_peer_spec {E : Type} n t p :
  wf n t -> exists t', useful_peer (E := E) t p = Ok t' /\ wf n t' /\ blocks_requests t' = blocks_requests t /\
    p ∈ all t' /\ p ∉ unuseful t'.
Proof.
  intros Hw. unfold useful_peer. destruct (stats_new_ok (E := E) n (wf_bound _ _ Hw)) as (s & Hs & Hok). rewrite Hs.
  assert (busy t p -> p ∈ all t /\ p ∉ unuseful t) as Hb by (intros Hb; apply (wf_busy _ _ Hw) in Hb; tauto).
  destruct (decide (p ∈ all t)) as [Hp|Hp].
  - rewrite (bool_decide_false (p ∉ all t)) by auto. cbn [negb andb orb].
    assert (all t ∪ {[p]} = all t) as Ha by (apply set_eq; intros q; member q p).
    destruct (decide (p ∈ unuseful t)) as [Hu|Hu].
    + rewrite bool_decide_true, ok_bind by done. exists (add_useful t p s (unuseful t ∖ {[p]})). split; [reflexivity|].
      split; [apply wf_add_useful; [done|tauto|done]|]. cbn. split_and!; [done|rewrite elem_of_union, elem_of_singleton; auto|].
      rewrite elem_of_difference, elem_of_singleton. tauto.
    + rewrite bool_decide_false by done. eexists. split; [reflexivity|].
      assert (unuseful t ∖ {[p]} = unuseful t) as Hun by (apply set_eq; intros q; member q p).
      rewrite Ha, Hun. split; [|cbn; auto]. by destruct t.
  - rewrite (bool_decide_true (p ∉ all t)) by done. cbn [negb andb orb]. rewrite ok_bind. exists (add_useful t p s (unuseful t)). split; [reflexivity|].
    assert (p ∉ unuseful t) as Hu by (intros Hu; by apply (wf_unuseful _ _ Hw) in Hu).
    assert (unuseful t ∖ {[p]} = unuseful t) as Hun by (apply set_eq; intros q; member q p).
    pose proof (wf_add_useful n t p s Hw) as Hwf. rewrite Hun in Hwf.
    split; [apply Hwf; [tauto|done]|]. cbn. split_and!; [done|rewrite elem_of_union, elem_of_singleton; auto|done].
Qed.

Lemma unuseful_peer_spec {E : Type} n t p :
  wf n t -> ~ busy t p -> exists t', unuseful_peer (E := E) t p = Ok t' /\ wf n t' /\ blocks_requests t' = blocks_requests t /\
    all t' = all t ∪ {[p]} /\ unuseful t' = unuseful t ∪ {[p]}.
Proof.
  intros Hw Hb. unfold unuseful_peer. rewrite lhm_contains_spec, (bool_decide_false _ Hb). cbn [negb rust_assert]. rewrite ok_bind.
  destruct (stats_new_ok (E := E) n (wf_bound _ _ Hw)) as (s & Hs & Hok). rewrite Hs, ok_bind.
  set (st := if bool_decide (p ∉ all t) then <[p := s]> (stats t) else stats t).
  assert ((if bool_decide (p ∉ all t) then Ok (with_stats t (<[p := s]> (stats t))) else Ok t) = Ok (E := E) (with_stats t st)) as ->.
  { unfold st. case_bool_decide; [done|]. by destruct t. }
  rewrite ok_bind. eexists. split; [reflexivity|]. split; [|done].
  destruct Hw as [H1 H2 H3 H4 H5 H6 H7 H8]. split; cbn.
  - intros q. specialize (H1 q). clear - H1. member q p.
  - intros q. unfold st. case_bool_decide as Hn.
    + rewrite lookup_insert_is_Some, (H2 q), elem_of_union, elem_of_singleton. destruct (decide (p = q)); intuition congruence.
    + rewrite (H2 q). assert (p ∈ all t) as Hp by (apply dec_stable; tauto). clear - Hp. member q p.
  - intros q Hq. specialize (H3 q Hq). clear H1 H2 H4 H5 H6 H7. unfold busy in *. cbn in Hq. member q p.
  - intros q. specialize (H4 q). clear H1 H2 H3 H5 H6 H7. unfold busy in *. member q p.
  - intros q Hq. apply elem_of_union_l. by apply H5.
  - unfold st. case_bool_decide; [by apply insert_stats_ok|done].
  - done.
  - done.
Qed.

(** ** Changes of single fields *)

Lemma wf_with_stats n t p s : wf n t -> is_Some (stats t !! p) -> stats_ok n s -> wf n (with_stats t (<[p := s]> (stats t))).
Proof.
  intros [H1 H2 H3 H4 H5 H6 H7 H8] Hp Hs. split; cbn; try done; [|by apply insert_stats_ok].
  intros q. rewrite lookup_insert_is_Some, <- H2. destruct (decide (p = q)) as [->|]; intuition congruence.
Qed.

Lemma wf_with_blocks_stats n t m :
  wf n t -> (forall h n, m !! h = Some n -> 1 <= n <= MAX_BLOCKS_FAILURES) -> wf n (with_blocks_stats t m).
Proof. intros [] ?. by split. Qed.

Lemma wf_idle_headers n t ih : wf n t -> wf n (with_sets t (all t) (unuseful t) ih (idle_for_blocks t)).
Proof. intros []. by split. Qed.

Lemma wf_remove_headers n t p : wf n t -> wf n (with_headers_requests t (lhm_remove (headers_requests t) p)).
Proof.
  intros [H1 H2 H3 H4 H5 H6 H7 H8]. split; cbn; try done.
  intros q. rewrite lhm_get_remove. case_bool_decide; [by intros []|apply H5].
Qed.

(** Other blocks are asked for, of the same peers. *)
Lemma wf_same_busy n t r :
  wf n t -> (forall q, is_Some (lhm_get r q) <-> is_Some (lhm_get (blocks_requests t) q)) -> wf n (with_blocks_requests t r).
Proof.
  intros [H1 H2 H3 H4 H5 H6 H7 H8] Hr. split; cbn; try done.
  - intros q Hq. apply H3. by apply Hr.
  - intros q Ha Hu. destruct (H4 q Ha Hu) as [|Hb]; [by left|right; by apply Hr].
Qed.

(** A peer is asked for nothing more, and becomes idle. *)
Lemma wf_release n t p ih :
  wf n t -> wf n (with_sets (with_blocks_requests t (lhm_remove (blocks_requests t) p)) (all t) (unuseful t) ih (idle_for_blocks t ∪ {[p]})).
Proof.
  intros [H1 H2 H3 H4 H5 H6 H7 H8]. split; cbn; try done; intros q; unfold busy; cbn; rewrite lhm_get_remove; case_bool_decide as Hq; subst.
  - by intros [].
  - intros Hb. destruct (H3 q Hb) as (? & ? & ?). split_and!; [done|done|]. rewrite elem_of_union, elem_of_singleton. intuition congruence.
  - intros _ _. left. rewrite elem_of_union, elem_of_singleton. auto.
  - intros Ha Hu. rewrite elem_of_union. destruct (H4 q Ha Hu); auto.
Qed.

Lemma delete_blocks_stats (m : gmap bytes BlockStats) h :
  (forall h n, m !! h = Some n -> 1 <= n <= MAX_BLOCKS_FAILURES) -> forall h' n, delete h m !! h' = Some n -> 1 <= n <= MAX_BLOCKS_FAILURES.
Proof. intros Hm h' n. rewrite lookup_delete_Some. intros [_ Hn]. by apply Hm in Hn. Qed.

(** ** Leaving and resetting *)

Lemma disconnect_spec {E : Type} n t p :
  wf n t -> ~ busy t p -> exists t', disconnect (E := E) t p = Ok t' /\ wf n t' /\
    (forall q, lhm_get (blocks_requests t') q = lhm_get (blocks_requests t) q) /\ p ∉ all t' /\
    (forall q, stats t' !! q = stats t !! q \/ stats t' !! q = None).
Proof.
  intros Hw Hb. unfold disconnect. rewrite lhm_contains_spec, (bool_decide_false _ Hb). cbn [negb rust_assert]. rewrite ok_bind.
  assert (forall q, lhm_get (lhm_remove (blocks_requests t) p) q = lhm_get (blocks_requests t) q) as Hsame.
  { intros q. rewrite lhm_get_remove. case_bool_decide as Hq; [subst|done]. symmetry. by apply eq_None_not_Some. }
  eexists. split; [reflexivity|]. cbn. split; [|split; [done|]].
  2: { split; [rewrite elem_of_difference, elem_of_singleton; intuition|].
       intros q. destruct (decide (q = p)) as [->|]; [right; by rewrite lookup_delete_eq|left; by rewrite lookup_delete_ne]. }
  destruct Hw as [H1 H2 H3 H4 H5 H6 H7 H8]. split; cbn.
  - intros q. specialize (H1 q). clear - H1. member q p.
  - intros q. rewrite lookup_delete_is_Some, (H2 q), elem_of_difference, elem_of_singleton. intuition congruence.
  - intros q. specialize (H3 q). unfold busy in *. cbn. rewrite Hsame. clear H1 H2 H4 H5 H6 H7 Hsame. member q p.
  - intros q. specialize (H4 q). unfold busy in *. cbn. rewrite Hsame. clear H1 H2 H3 H5 H6 H7 Hsame. member q p.
  - intros q. rewrite lhm_get_remove. case_bool_decide; [by intros []|]. intros Hq. apply H5 in Hq. member q p.
  - intros q x. rewrite lookup_delete_Some. intros [_ Hx]. by apply H6 in Hx.
  - done.
  - done.
Qed.

Lemma reset_spec n t : wf n t -> wf n (reset t) /\ (forall h, ~ pending (reset t) h) /\ useful_peers (reset t) = [].
Proof.
  intros [H1 H2 H3 H4 H5 H6 H7 H8]. split_and!.
  - split; cbn; try done; intros q; unfold busy; cbn; try (intros [x Hx]; by rewrite lhm_get_clear in Hx); intros Hq Hn; by destruct Hn.
  - intros h (q & r & Hq & _). cbn in Hq. by rewrite lhm_get_clear in Hq.
  - unfold useful_peers, reset. cbn. apply elem_of_nil_inv. intros q [Hi Hf]%list_elem_of_In%filter_In.
    apply list_elem_of_In in Hi. rewrite hash_iter_perm, elem_of_elements in Hi. by rewrite bool_decide_true in Hf.
Qed.

Lemma reset_blocks_tasks_spec n t p :
  wf n t -> wf n (reset_blocks_tasks t p).2 /\ ~ busy (reset_blocks_tasks t p).2 p /\
    (forall q, q <> p -> lhm_get (blocks_requests (reset_blocks_tasks t p).2) q = lhm_get (blocks_requests t) q) /\
    (forall h, h ∈ (reset_blocks_tasks t p).1 <-> asked t p h) /\
    stats (reset_blocks_tasks t p).2 = stats t.
Proof.
  intros Hw. split_and!; [by apply (wf_release n t p)| | | |done].
  - unfold busy, reset_blocks_tasks. cbn. rewrite lhm_get_remove, bool_decide_true by done. by intros [].
  - intros q Hq. cbn. by rewrite lhm_get_remove, bool_decide_false.
  - intros h. unfold asked. cbn. destruct (lhm_get (blocks_requests t) p) as [r|]; [|set_solver].
    rewrite hash_iter_perm, elem_of_elements. split; [by exists r|]. by intros (? & [= <-] & ?).
Qed.

(** ** Requests and responses *)

Lemma map_stats_spec n t p f :
  wf n t -> (forall m, AverageSpeedMeter.wf m -> AverageSpeedMeter.wf (f m)) ->
  wf n (map_stats t p f) /\ blocks_requests (map_stats t p f) = blocks_requests t.
Proof.
  intros Hw Hf. unfold map_stats. destruct (stats t !! p) as [s|] eqn:Hs; [|done]. split; [|done].
  destruct (wf_peer_stats _ _ Hw p s Hs). apply wf_with_stats; [done|by eexists|]. split; [by apply Hf|done].
Qed.

Lemma update_response_time_spec {E : Type} n now t p :
  wf n t -> exists t', update_response_time (E := E) now t p = Ok t' /\ wf n t' /\ blocks_requests t' = blocks_requests t.
Proof.
  intros Hw. unfold update_response_time. destruct (stats t !! p) as [s|] eqn:Hs; [|by exists t].
  destruct (wf_peer_stats _ _ Hw p s Hs) as [Hm Hf].
  destruct (AverageSpeedMeter.checkpoint_wf (E := E) now _ Hm) as (m & -> & Hm' & _). rewrite ok_bind.
  eexists. split; [reflexivity|]. split; [|done]. apply wf_with_stats; [done|by eexists|].
  split; [done|]. cbn. destruct (0 <? failures s) eqn:?; lia.
Qed.

(** The blocks asked of the peers after one peer's request is replaced. *)
Lemma asked_change t t' p (P : bytes -> Prop) :
  (forall q, q <> p -> lhm_get (blocks_requests t') q = lhm_get (blocks_requests t) q) ->
  (forall x, asked t' p x <-> P x) ->
  forall q x, asked t' q x <-> (if bool_decide (q = p) then P x else asked t q x).
Proof.
  intros Hq Hp q x. case_bool_decide; [subst; apply Hp|]. unfold asked. by rewrite Hq.
Qed.

(** One block of a peer is no longer asked for. *)
Lemma asked_received t t' p h r :
  lhm_get (blocks_requests t) p = Some r ->
  (forall q, q <> p -> lhm_get (blocks_requests t') q = lhm_get (blocks_requests t) q) ->
  (forall x, asked t' p x <-> x ∈ br_blocks r ∖ {[h]}) ->
  forall q x, asked t' q x <-> asked t q x /\ ~ (q = p /\ x = h).
Proof.
  intros Hr Hq Hp q x. rewrite (asked_change t t' p _ Hq Hp). case_bool_decide; [subst|tauto].
  unfold asked. rewrite Hr, elem_of_difference, elem_of_singleton. split; [intros []; split; [by exists r|tauto]|].
  intros ((? & [= <-] & ?) & ?). tauto.
Qed.

Lemma on_block_received_spec {E : Type} n now t p h :
  wf n t -> exists t', on_block_received (E := E) now t p h = Ok t' /\ wf n t' /\
    (forall q x, asked t' q x <-> asked t q x /\ ~ (q = p /\ x = h)).
Proof.
  intros Hw. unfold on_block_received. set (t0 := with_blocks_stats t (delete h (blocks_stats t))).
  assert (wf n t0) as Hw0 by (apply wf_with_blocks_stats; [done|]; apply delete_blocks_stats, (wf_blocks_stats _ _ Hw)).
  change (blocks_requests t0) with (blocks_requests t).
  destruct (lhm_get (blocks_requests t) p) as [r|] eqn:Hr.
  2: { exists t0. split_and!; [done..|]. intros q x. unfold asked. cbn. split; [|tauto]. intros Hq. split; [done|].
       intros [-> ->]. destruct Hq as (? & Hq & _). congruence. }
  case_bool_decide as Hh; cbn [negb].
  2: { exists t0. split_and!; [done..|]. intros q x. unfold asked. cbn. split; [|tauto]. intros Hq. split; [done|].
       intros [-> ->]. destruct Hq as (? & Hq & Hin). congruence. }
  cbn zeta. set (bl := br_blocks r ∖ {[h]}). set (rq := lhm_get_mut _ _ _).
  assert (forall q, lhm_get rq q = if bool_decide (p = q) then Some (mkBlocksRequest (br_timestamp r) bl) else lhm_get (blocks_requests t) q) as Hrq.
  { intros q. unfold rq. rewrite lhm_get_get_mut. case_bool_decide; [subst; by rewrite Hr|done]. }
  assert (wf n (with_blocks_requests t0 rq)) as Hw1.
  { apply wf_same_busy; [done|]. intros q. rewrite Hrq. case_bool_decide; [subst; cbn; by rewrite Hr|done]. }
  destruct (update_response_time_spec (E := E) n now _ p Hw1) as (t2 & -> & Hw2 & Hb2). rewrite ok_bind. cbn in Hb2.
  case_bool_decide as He; cbn [negb].
  - destruct (map_stats_spec n t2 p AverageSpeedMeter.stop Hw2) as [Hw3 Hb3]; [by intros ? []|].
    eexists. split; [reflexivity|]. split; [by refine (wf_release n _ p _ _)|].
    apply (asked_received _ _ _ _ r Hr); unfold asked; cbn; rewrite Hb3, Hb2.
    + intros q Hq. by rewrite lhm_get_remove, bool_decide_false, Hrq, bool_decide_false.
    + intros x. rewrite lhm_get_remove, bool_decide_true by done. unfold bl in He. rewrite He. set_solver.
  - eexists. split; [reflexivity|]. split.
    + apply wf_same_busy; [done|]. intros q. rewrite lhm_get_insert, lhm_get_remove, Hb2, Hrq. by repeat case_bool_decide.
    + apply (asked_received _ _ _ _ r Hr); unfold asked; cbn; rewrite Hb2.
      * intros q Hq. by rewrite lhm_get_insert, lhm_get_remove, !bool_decide_false, Hrq, bool_decide_false.
      * intros x. rewrite lhm_get_insert, bool_decide_true by done. split; [by intros (? & [= <-] & ?)|]. intros ?. by eexists.
Qed.

Lemma on_headers_received_spec n t p : wf n t -> wf n (on_headers_received t p) /\ blocks_requests (on_headers_received t p) = blocks_requests t.
Proof.
  intros Hw. unfold on_headers_received. cbn. assert (wf n (with_headers_requests t (lhm_remove (headers_requests t) p))) by by apply wf_remove_headers.
  destruct (lhm_contains_key _ _); cbn; split; try done. by refine (wf_idle_headers n _ _ _).
Qed.

(** A peer that is not known becomes known, as unuseful, before it is asked. *)
Lemma know_peer {E : Type} n t p :
  wf n t -> exists t', (if bool_decide (p ∉ all t) then unuseful_peer t p else Ok t) = Ok (E := E) t' /\ wf n t' /\
    blocks_requests t' = blocks_requests t /\ p ∈ all t' /\ (forall q, busy t' q <-> busy t q).
Proof.
  intros Hw. case_bool_decide as Hp; [|exists t; split_and!; [done..|apply dec_stable; tauto|done]].
  destruct (unuseful_peer_spec (E := E) n t p Hw) as (t' & -> & Hw' & Hb & Ha & _).
  { intros Hb. by apply (wf_busy _ _ Hw) in Hb as []. }
  exists t'. unfold busy. rewrite Ha, Hb, elem_of_union, elem_of_singleton. auto 7.
Qed.

Lemma on_headers_requested_spec {E : Type} n now t p :
  wf n t -> exists t', on_headers_requested (E := E) now t p = Ok t' /\ wf n t' /\ blocks_requests t' = blocks_requests t.
Proof.
  intros Hw. unfold on_headers_requested. destruct (know_peer (E := E) n t p Hw) as (t1 & -> & Hw1 & Hb1 & Hp1 & _). rewrite ok_bind.
  eexists. split; [reflexivity|]. split; [|done]. destruct Hw1 as [H1 H2 H3 H4 H5 H6 H7 H8]. split; cbn; try done.
  intros q. rewrite lhm_get_insert, lhm_get_remove. case_bool_decide; [by subst|apply H5].
Qed.

(** A useful peer is asked for blocks. *)
Lemma wf_ask n t p r :
  wf n t -> p ∈ all t -> (forall q, is_Some (lhm_get r q) <-> q = p \/ is_Some (lhm_get (blocks_requests t) q)) ->
  wf n (with_blocks_requests (with_sets t (all t) (unuseful t ∖ {[p]}) (idle_for_headers t) (idle_for_blocks t ∖ {[p]})) r).
Proof.
  intros [H1 H2 H3 H4 H5 H6 H7 H8] Hp Hr. split; cbn; try done.
  - intros q. specialize (H1 q). clear - H1. member q p.
  - intros q. specialize (H3 q). unfold busy in *. cbn. rewrite Hr. clear - H3 Hp. member q p.
  - intros q. specialize (H4 q). unfold busy in *. cbn. rewrite Hr. clear - H4. member q p.
Qed.

Lemma on_blocks_requested_spec {E : Type} n now t p hs :
  wf n t -> exists t', on_blocks_requested (E := E) now t p hs = Ok t' /\ wf n t' /\
    (forall q x, asked t' q x <-> asked t q x \/ (q = p /\ x ∈ hs)).
Proof.
  intros Hw. unfold on_blocks_requested. destruct (know_peer (E := E) n t p Hw) as (t1 & -> & Hw1 & Hb1 & Hp1 & _). rewrite ok_bind.
  cbn zeta. cbn [with_sets blocks_requests]. rewrite lhm_contains_spec, Hb1.
  set (t2 := with_sets _ _ _ _ _). set (old := from_option id (mkBlocksRequest now ∅) (lhm_get (blocks_requests t) p)).
  set (t3 := if negb (bool_decide _) then _ else _).
  assert (exists r, t3 = with_blocks_requests t2 r /\ lhm_get r p = Some old /\ (forall q, q <> p -> lhm_get r q = lhm_get (blocks_requests t) q)) as (r & -> & Hp & Hq).
  { unfold t3, old. case_bool_decide as Hk; cbn [negb].
    - exists (blocks_requests t). destruct Hk as [x Hx]. rewrite Hx. split_and!; [|done..]. unfold t2. rewrite <- Hb1. by destruct t1.
    - eexists. split; [reflexivity|]. apply eq_None_not_Some in Hk. rewrite lhm_get_insert, bool_decide_true, Hk by done.
      split; [done|]. intros q Hq. by rewrite lhm_get_insert, bool_decide_false. }
  cbn [with_blocks_requests blocks_requests]. rewrite Hp. cbn [expect]. rewrite ok_bind. eexists. split; [reflexivity|].
  set (r' := lhm_get_mut _ _ _). set (t4 := with_blocks_requests (with_blocks_requests t2 r) r').
  assert (forall q, lhm_get r' q = if bool_decide (p = q) then Some (mkBlocksRequest (br_timestamp old) (br_blocks old ∪ list_to_set hs))
            else lhm_get (blocks_requests t) q) as Hr'.
  { intros q. unfold r'. rewrite lhm_get_get_mut. case_bool_decide; [subst; by rewrite Hp|by apply Hq]. }
  assert (wf n t4) as Hw4.
  { apply (wf_ask n t1 p r' Hw1 Hp1). intros q. rewrite Hr', Hb1. case_bool_decide; [subst; naive_solver|intuition congruence]. }
  destruct (map_stats_spec n t4 p (AverageSpeedMeter.start now) Hw4) as [Hw5 Hb5]; [by intros ? []|]. split; [done|].
  intros q x. rewrite (asked_change t _ p (fun x => asked t p x \/ x ∈ hs)).
  - case_bool_decide; [subst; tauto|tauto].
  - intros q' Hq'. rewrite Hb5. cbn. by rewrite Hr', bool_decide_false.
  - intros y. unfold asked at 1. rewrite Hb5. cbn. rewrite Hr', bool_decide_true by done. split.
    + intros (? & [= <-] & Hy). cbn in Hy. rewrite elem_of_union, elem_of_list_to_set in Hy. destruct Hy as [Hy|]; [left|by right].
      unfold old in Hy. unfold asked. destruct (lhm_get (blocks_requests t) p) as [o|]; [by exists o|cbn in Hy; set_solver].
    + intros Hy. eexists. split; [done|]. cbn. rewrite elem_of_union, elem_of_list_to_set. destruct Hy as [(o & Ho & Hy)|]; [left|by right].
      unfold old. by rewrite Ho.
Qed.

(** ** Failures *)

Lemma penalize_spec {E : Type} n t p :
  wf n t -> n + 1 < 2 ^ 64 -> exists b t', penalize (E := E) t p = Ok (b, t') /\ wf (n + 1) t' /\ blocks_requests t' = blocks_requests t /\
    (p ∈ all t -> b = true <-> exists s, stats t !! p = Some s /\ (trust s = Suspicious \/ MAX_PEER_FAILURES <= failures s)) /\
    unuseful t' = unuseful t.
Proof.
  intros Hw Hn. assert (wf (n + 1) t) as Hw'.
  { destruct Hw as [H1 H2 H3 H4 H5 H6 H7 H8]. split; try done; [|lia]. intros q s Hs. destruct (H6 q s Hs). split; [done|lia]. }
  pose proof (wf_bound _ _ Hw) as Hm. unfold penalize. destruct (stats t !! p) as [s|] eqn:Hs.
  2: { exists false, t. split_and!; [done..| |done]. intros Hp. apply (wf_stats _ _ Hw) in Hp as [s Hp]. congruence. }
  destruct (wf_peer_stats _ _ Hw p s Hs) as [Hsp Hf]. case_bool_decide as Ht.
  - rewrite ucheck_Ok by (unfold uint; lia). rewrite ok_bind. eexists _, _. split; [reflexivity|]. split_and!; [|done| |done].
    + apply wf_with_stats; [done|by eexists|]. split; [done|cbn; lia].
    + intros _. split; [exists s|intros (? & [= <-] & [|])]; [|congruence|]; [split; [done|right]|]; lia.
  - eexists _, _. split; [reflexivity|]. split_and!; [|done| |done].
    + apply wf_with_stats; [done|by eexists|]. split; [done|cbn; unfold MAX_PEER_FAILURES in *; lia].
    + intros _. split; [|done]. intros _. exists s. destruct (trust s) eqn:?; [auto|congruence].
Qed.

Lemma on_peer_headers_failure_spec {E : Type} n t p :
  wf n t -> n + 1 < 2 ^ 64 -> exists b t', on_peer_headers_failure (E := E) t p = Ok (b, t') /\ wf (n + 1) t' /\ blocks_requests t' = blocks_requests t.
Proof.
  intros Hw Hn. unfold on_peer_headers_failure. cbn zeta.
  destruct (penalize_spec (E := E) n (with_sets (with_headers_requests t (lhm_remove (headers_requests t) p)) (all t) (unuseful t)
              (idle_for_headers t ∪ {[p]}) (idle_for_blocks t)) p) as (b & t' & He & Hw' & Hb & _); [|done|by exists b, t'].
  refine (wf_idle_headers n _ _ _). by apply wf_remove_headers.
Qed.

(** Every failed block is asked for again or given up. *)
Lemma on_blocks_failure_spec {E : Type} n t hs :
  wf n t -> exists again failed t', on_blocks_failure (E := E) t hs = Ok (again, failed, t') /\ wf n t' /\ blocks_requests t' = blocks_requests t /\
    stats t' = stats t /\ unuseful t' = unuseful t /\ again ++ failed ≡ₚ hs.
Proof.
  revert t. induction hs as [|h hs IH]; intros t Hw; [by exists [], [], t|]. cbn [on_blocks_failure].
  set (k := match blocks_stats t !! h with Some n => n | None => 0 end).
  assert (0 <= k <= MAX_BLOCKS_FAILURES) as Hk.
  { unfold k. destruct (blocks_stats t !! h) as [m|] eqn:Hm; [apply (wf_blocks_stats _ _ Hw) in Hm; lia|done]. }
  unfold MAX_BLOCKS_FAILURES in Hk. rewrite ucheck_Ok by (unfold uint; lia). rewrite ok_bind. destruct (Z.ltb_spec MAX_BLOCKS_FAILURES (k + 1)).
  - destruct (IH (with_blocks_stats t (delete h (blocks_stats t)))) as (a & f & t' & -> & Hw' & Hb & Hs & Hu & Hp).
    { apply wf_with_blocks_stats; [done|]. apply delete_blocks_stats, (wf_blocks_stats _ _ Hw). }
    rewrite ok_bind. exists a, (h :: f), t'. split_and!; try done. rewrite <- Hp. by rewrite <- Permutation_middle.
  - destruct (IH (with_blocks_stats t (<[h := k + 1]> (blocks_stats t)))) as (a & f & t' & -> & Hw' & Hb & Hs & Hu & Hp).
    { apply wf_with_blocks_stats; [done|]. intros h' m. rewrite lookup_insert. case_decide; [intros [= <-]; lia|apply (wf_blocks_stats _ _ Hw)]. }
    rewrite ok_bind. exists (h :: a), f, t'. split_and!; try done. by rewrite <- Hp.
Qed.

(** * Sequences of operations *)

Inductive op :=
  | UsefulPeer (p : Z)
  | UnusefulPeer (p : Z)
  | Disconnect (p : Z)
  | BlockReceived (now : f64) (p : Z) (h : bytes)
  | HeadersReceived (p : Z)
  | BlocksRequested (now : f64) (p : Z) (hs : list bytes)
  | HeadersRequested (now : f64) (p : Z)
  | BlocksFailure (hs : list bytes)
  | PeerBlockFailure (p : Z)
  | PeerHeadersFailure (p : Z)
  | Reset
  | ResetBlocksTasks (p : Z).

Definition apply_op {E} t (o : op) : outcome E tasks :=
  match o with
  | UsefulPeer p => useful_peer t p
  | UnusefulPeer p => unuseful_peer t p
  | Disconnect p => disconnect t p
  | BlockReceived now p h => on_block_received now t p h
  | HeadersReceived p => Ok (on_headers_received t p)
  | BlocksRequested now p hs => on_blocks_requested now t p hs
  | HeadersRequested now p => on_headers_requested now t p
  | BlocksFailure hs => '(_, _, t) ← on_blocks_failure t hs; Ok t
  | PeerBlockFailure p => '(_, t) ← on_peer_block_failure t p; Ok t
  | PeerHeadersFailure p => '(_, t) ← on_peer_headers_failure t p; Ok t
  | Reset => Ok (reset t)
  | ResetBlocksTasks p => Ok (reset_blocks_tasks t p).2
  end.

(** What an operation does to the blocks asked of the peers. *)
Definition asked_after (o : op) (P : Z -> bytes -> Prop) (q : Z) (x : bytes) : Prop :=
  match o with
  | BlockReceived _ p h => P q x /\ ~ (q = p /\ x = h)
  | BlocksRequested _ p hs => P q x \/ (q = p /\ x ∈ hs)
  | Reset => False
  | ResetBlocksTasks p => P q x /\ q <> p
  | _ => P q x
  end.

(** A peer is taken out of service only after its blocks are taken back. *)
Definition legal t (o : op) : Prop :=
  match o with UnusefulPeer p | Disconnect p => ~ busy t p | _ => True end.

Inductive after : nat -> tasks -> Prop :=
  | after_start : after O default
  | after_op k t o t' : after k t -> legal t o -> apply_op (E := unit) t o = Ok t' -> after (S k) t'.

Lemma wf_mono n m t : wf n t -> n <= m -> wf m t.
Proof.
  intros [H1 H2 H3 H4 H5 H6 H7 H8] Hm. split; try done; [|lia]. intros q s Hs. destruct (H6 q s Hs). split; [done|lia].
Qed.

Lemma asked_same t t' : blocks_requests t' = blocks_requests t -> forall q x, asked t' q x <-> asked t q x.
Proof. intros He q x. unfold asked. by rewrite He. Qed.

(** An operation that is legal returns, keeps the invariant and changes the blocks asked
    of the peers as specified. *)
Lemma apply_op_spec {E : Type} n t o :
  wf n t -> n + 1 < 2 ^ 64 -> legal t o ->
  exists t', apply_op (E := E) t o = Ok t' /\ wf (n + 1) t' /\ forall q x, asked t' q x <-> asked_after o (asked t) q x.
Proof.
  intros Hw Hn Hl.
  assert (forall t' (o : outcome E tasks) P, o = Ok t' -> wf n t' -> P t' -> exists t', o = Ok t' /\ wf (n + 1) t' /\ P t') as Hok.
  { intros t' r P Hr Hw' HP. exists t'. split_and!; [done|apply (wf_mono n); [done|lia]|done]. }
  destruct o as [p|p|p|now p h|p|now p hs|now p|hs|p|p| |p]; cbn [apply_op asked_after] in *.
  - destruct (useful_peer_spec (E := E) n t p Hw) as (t' & He & Hw' & Hb & _). apply (Hok t'); [done..|]. by apply asked_same.
  - destruct (unuseful_peer_spec (E := E) n t p Hw Hl) as (t' & He & Hw' & Hb & _). apply (Hok t'); [done..|]. by apply asked_same.
  - destruct (disconnect_spec (E := E) n t p Hw Hl) as (t' & He & Hw' & Hb & _). apply (Hok t'); [done..|]. intros q x. unfold asked. by rewrite Hb.
  - destruct (on_block_received_spec (E := E) n now t p h Hw) as (t' & He & Hw' & Hb). by apply (Hok t').
  - destruct (on_headers_received_spec n t p Hw) as [Hw' Hb]. apply (Hok (on_headers_received t p)); [done..|]. by apply asked_same.
  - destruct (on_blocks_requested_spec (E := E) n now t p hs Hw) as (t' & He & Hw' & Hb). by apply (Hok t').
  - destruct (on_headers_requested_spec (E := E) n now t p Hw) as (t' & He & Hw' & Hb). apply (Hok t'); [done..|]. by apply asked_same.
  - destruct (on_blocks_failure_spec (E := E) n t hs Hw) as (a & f & t' & -> & Hw' & Hb & _). apply (Hok t'); [done..|]. by apply asked_same.
  - destruct (penalize_spec (E := E) n t p Hw Hn) as (b & t' & He & Hw' & Hb & _). unfold on_peer_block_failure. rewrite He. exists t'. split_and!; [done..|by apply asked_same].
  - destruct (on_peer_headers_failure_spec (E := E) n t p Hw Hn) as (b & t' & -> & Hw' & Hb). exists t'. split_and!; [done..|by apply asked_same].
  - destruct (reset_spec n t Hw) as (Hw' & Hb & _). apply (Hok (reset t)); [done..|]. intros q x. split; [|done]. intros ?. by apply (Hb x); exists q.
  - destruct (reset_blocks_tasks_spec n t p Hw) as (Hw' & Hb & Hq & _). apply (Hok (reset_blocks_tasks t p).2); [done..|].
    intros q x. destruct (decide (q = p)) as [->|Hne]; [|unfold asked; rewrite Hq; tauto].
    split; [|tauto]. intros (r & Hr & _). contradict Hb. by exists r.
Qed.

Lemma after_wf k t : after k t -> Z.of_nat k + MAX_PEER_FAILURES < 2 ^ 64 -> wf (Z.of_nat k + MAX_PEER_FAILURES) t.
Proof.
  induction 1 as [|k t o t' _ IH Hl He]; intros Hk; [apply wf_default|].
  destruct (apply_op_spec (E := unit) (Z.of_nat k + MAX_PEER_FAILURES) t o) as (t1 & He1 & Hw & _); [apply IH; lia|lia|done|].
  rewrite He in He1. injection He1 as <-. apply (wf_mono _ _ _ Hw). lia.
Qed.

Lemma not_legal_panics {E : Type} t o : ~ legal t o -> apply_op (E := E) t o = Panic.
Proof.
  destruct o; cbn; try tauto; intros Hb%dec_stable; unfold unuseful_peer, disconnect; rewrite lhm_contains_spec, (bool_decide_true _ Hb); done.
Qed.

(** C19: In every sequence of operations, a useful peer is idle for blocks or has been asked
    for some, not both; every peer has statistics; and an operation fails exactly when a
    peer with unanswered requests for blocks is marked unuseful or disconnected.  What
    the peers are asked for changes as [asked_after] says. *)
Theorem peers_tasks_correct k t :
  after k t -> Z.of_nat k + MAX_PEER_FAILURES + 1 < 2 ^ 64 ->
  (forall p, p ∈ all t -> p ∉ unuseful t -> (p ∈ idle_for_blocks t <-> ~ busy t p)) /\
  (forall p, busy t p -> p ∈ all t /\ p ∉ unuseful t) /\
  (forall p, is_Some (get_peer_stats t p) <-> p ∈ all t) /\
  (forall o, ~ legal t o -> apply_op (E := unit) t o = Panic) /\
  (forall o, legal t o -> exists t', apply_op (E := unit) t o = Ok t' /\ forall q x, asked t' q x <-> asked_after o (asked t) q x).
Proof.
  intros Ha Hk. pose proof (after_wf k t Ha ltac:(lia)) as Hw. destruct Hw as [H1 H2 H3 H4 H5 H6 H7 H8] eqn:Hweq. split_and!.
  - intros p Hp Hu. split; [intros Hi Hb; by apply H3 in Hb as (_ & _ & ?)|]. intros Hb. by destruct (H4 p Hp Hu).
  - intros p Hb. apply H3 in Hb. tauto.
  - exact H2.
  - intros o. apply not_legal_panics.
  - intros o Hl. destruct (apply_op_spec (E := unit) _ t o Hw ltac:(lia) Hl) as (t' & He & _ & Hq). by exists t'.
Qed.

End spec.

(** * A run *)

Module ExampleTasks.
#[local] Existing Instances MemoryPoolSpec.ExamplePool.elements_order.
Import ExampleLinked.

Definition now : f64 := of_int 10.
Definition block : bytes := [x01].

Lemma peers_tasks_correct_witness :
  exists t : PeersTasks, after 2 t /\ asked t 7 block /\ 7 ∉ unuseful t /\ apply_op (E := unit) t (Disconnect 7) = Panic.
Proof.
  destruct (apply_op_spec (E := unit) _ default (UsefulPeer 7) wf_default) as (t1 & He1 & Hw1 & _); [done..|].
  destruct (apply_op_spec (E := unit) _ t1 (BlocksRequested now 7 [block]) Hw1) as (t2 & He2 & Hw2 & Hq); [done..|].
  assert (asked t2 7 block) as Ha by (apply Hq; right; split; [done|by apply list_elem_of_singleton]).
  assert (after 2 t2) as H2 by (refine (after_op _ t1 _ _ (after_op _ default _ _ after_start _ He1) _ He2); done).
  assert (busy t2 7) as Hb by (destruct Ha as (r & Hr & _); by exists r).
  destruct (peers_tasks_correct 2 t2 H2) as (_ & Hu & _ & Hp & _); [done|]. exists t2. split_and!; [done..| |].
  - by apply Hu.
  - apply Hp. cbn. tauto.
Defined.

End ExampleTasks.
End PeersTasksSpec.
