(* ===== verification/ClientCore.v ===== *)
(** The synchronization client (src/sync/src: synchronization_client_core.rs,
    utils/synchronization_state.rs, utils/message_block_headers_provider.rs, and the
    tasks of synchronization_executor.rs): what the node does when peers connect, answer
    and fail, and when verification has ended.

    A handler is a step of the state [Core] ([core_result]); what leaves the client
    (tasks, complaints about peers, calls of listeners, of waiting futures and of
    verification sinks) is appended to the list [effects].  The clocks are read once for
    each handler. *)
From Stdlib Require Import ZArith Lia Strings.Byte.
From stdpp Require Import base decidable numbers countable gmap strings list.
From S2P Require Import Prelude Crypto Serialization Codec Chain ChainHash U256 Compact Network Work Storage Deployments Verify Accept.
From S2P Require Import ChainVerifier Kv Db LinkedMap HashQueue Message MemoryPool OrphanPools SyncChain Float64 PeersTasks.

Local Open Scope Z_scope.

(** * The headers of a message (message_block_headers_provider.rs) *)

Module MessageHeaders.
Import Chain ChainHash Network.

Record MessageBlockHeadersProvider := mkProvider {
  first_header_number : Z;
  headers : gmap bytes IndexedBlockHeader;
  headers_order : list bytes;
}.

Definition new {E} (best_block_header_height : Z) : outcome E MessageBlockHeadersProvider :=
  first ← ucheck 32 (best_block_header_height + 1);
  Ok (mkProvider first ∅ []).

Definition append_header (self : MessageBlockHeadersProvider) (hash : bytes) (header : IndexedBlockHeader)
    : MessageBlockHeadersProvider :=
  mkProvider (first_header_number self) (<[hash := header]> (headers self)) (headers_order self ++ [hash]).

(** The chain behind the message is asked first. *)
Definition block_header {E} (chain_provider : BlockRef -> outcome E (option IndexedBlockHeader))
    (self : MessageBlockHeadersProvider) (block_ref : BlockRef) : outcome E (option IndexedBlockHeader) :=
  known ← chain_provider block_ref;
  match known, block_ref with
  | Some header, _ => Ok (Some header)
  | None, Hash h => Ok (headers self !! h)
  | None, Number n =>
      if (first_header_number self <=? n) && (n - first_header_number self <? wrap 32 (zlen (headers_order self))) then
        header_hash ← index (headers_order self) (Z.to_nat (n - first_header_number self));
        header ← expect (headers self !! header_hash);
        Ok (Some header)
      else Ok None
  end.

(** The header at a number is the one appended for it. *)
Lemma append_header_at {E} (p : BlockRef -> outcome E (option IndexedBlockHeader)) self h k :
  p (Number k) = Ok None -> uint 32 (zlen (headers_order self) + 1) ->
  k = first_header_number self + zlen (headers_order self) ->
  block_header p (append_header self (ih_hash h) h) (Number k) = Ok (Some h).
Proof.
  intros Hp [Hl0 Hl] ->. unfold block_header. rewrite Hp, ok_bind. cbn [append_header headers_order first_header_number headers].
  rewrite length_app. cbn [length].
  rewrite (proj2 (Z.leb_le _ _)) by lia. rewrite wrap_uint by (split; lia). rewrite (proj2 (Z.ltb_lt _ _)) by lia. cbn [andb].
  replace (Z.to_nat _) with (length (headers_order self)) by lia.
  rewrite index_middle, ok_bind, lookup_insert_eq by done. done.
Qed.

End MessageHeaders.

(** * Tasks (synchronization_executor.rs) *)

Module SyncTask.
Import Chain ChainHash Message.

Inductive Task :=
  | Ignore (peer_index request_id : Z)
  | GetData (peer_index : Z) (message : list InventoryVector)
  | GetHeaders (peer_index : Z) (message : Locator)
  | MemoryPool (peer_index : Z)
  | Block (peer_index : Z) (block : IndexedBlock)
  | MerkleBlock (peer_index : Z) (hash : bytes) (message : Message.MerkleBlock)
  | CompactBlock (peer_index : Z) (hash : bytes) (message : BlockHeaderAndIDs)
  | WitnessBlock (peer_index : Z) (block : IndexedBlock)
  | Transaction (peer_index : Z) (transaction : IndexedTransaction)
  | WitnessTransaction (peer_index : Z) (transaction : IndexedTransaction)
  | BlockTxn (peer_index : Z) (message : BlockTransactions)
  | NotFound (peer_index : Z) (message : list InventoryVector)
  | Inventory (peer_index : Z) (message : list InventoryVector)
  | Headers (peer_index : Z) (message : list BlockHeader) (request_id : option Z)
  | RelayNewBlock (block : IndexedBlock)
  | RelayNewTransaction (transaction : IndexedTransaction) (fee_rate : Z).

(** Tasks of the verification thread (synchronization_verifier.rs). *)
Inductive VerificationTask :=
  | VerifyBlock (block : IndexedBlock)
  | VerifyTransaction (height : Z) (transaction : IndexedTransaction)
  | Stop.

End SyncTask.

(** * The client *)

Module ClientCore.
Import SyncTask Ser Chain ChainHash Network Storage Message F64 HashQueue SyncChain AverageSpeedMeter.

Definition MAX_SCHEDULED_HASHES : Z := 4 * 1024.
Definition MAX_REQUESTED_BLOCKS : Z := 256.
Definition MAX_VERIFYING_BLOCKS : Z := 256.
Definition MIN_BLOCKS_IN_REQUEST : Z := 32.
Definition MAX_BLOCKS_IN_REQUEST : Z := 128.
Definition NEAR_EMPTY_VERIFICATION_QUEUE_THRESHOLD_BLOCKS : Z := 20.
Definition NEAR_EMPTY_VERIFICATION_QUEUE_THRESHOLD_S : f64 := of_int 20.
Definition SYNC_SPEED_BLOCKS_TO_INSPECT : Z := 512.
Definition BLOCKS_SPEED_BLOCKS_TO_INSPECT : Z := 512.
Definition MIN_BLOCK_DUPLICATION_INTERVAL_S : f64 := of_int 10.
Definition MAX_BLOCKS_IN_DUPLICATE_REQUEST : Z := 4.
Definition MIN_BLOCKS_IN_DUPLICATE_REQUEST : Z := 8.

(** [Synchronizing] holds the time and the height of the last report. *)
Inductive State := Synchronizing (timestamp : f64) (num_of_blocks : Z) | NearlySaturated | Saturated.

Definition is_saturated (self : State) : bool := match self with Saturated => true | _ => false end.
Definition is_synchronizing (self : State) : bool := match self with Synchronizing _ _ => true | _ => false end.
Definition is_nearly_saturated (self : State) : bool := match self with NearlySaturated => true | _ => false end.

Record SynchronizationState := mkShared { shared_synchronizing : bool; best_storage_block_height : Z }.

Record BlocksRequestLimits := mkLimits {
  max_scheduled_hashes : Z;
  max_requested_blocks : Z;
  max_verifying_blocks : Z;
  min_blocks_in_request : Z;
  max_blocks_in_request : Z;
}.

Definition default_limits : BlocksRequestLimits :=
  mkLimits MAX_SCHEDULED_HASHES MAX_REQUESTED_BLOCKS MAX_VERIFYING_BLOCKS MIN_BLOCKS_IN_REQUEST MAX_BLOCKS_IN_REQUEST.

Inductive AppendTransactionError := AppendSynchronizing | Orphan (unknown_parents : gset bytes).
Inductive BlocksHeadersVerificationResult := Skip | HeaderError (index : nat) | Success.

(** What leaves the client.  A future that waits for blocks and a sink that waits for a
    transaction belong to the callers. *)
Inductive Effect (Future Sink : Type) :=
  | Execute (task : Task)
  | Misbehaving (peer_index : Z)
  | Dos (peer_index : Z)
  | StateSwitched (is_synchronizing : bool)
  | BestBlockInserted (hash : bytes)
  | Awake (future : Future)
  | SinkSuccess (sink : Sink) (transaction : IndexedTransaction)
  | SinkError (sink : Sink) (hash : bytes).
Arguments Execute {Future Sink} task.
Arguments Misbehaving {Future Sink} peer_index.
Arguments Dos {Future Sink} peer_index.
Arguments StateSwitched {Future Sink} is_synchronizing.
Arguments BestBlockInserted {Future Sink} hash.
Arguments Awake {Future Sink} future.
Arguments SinkSuccess {Future Sink} sink transaction.
Arguments SinkError {Future Sink} sink hash.

Section core.
Context `{U256} `{BitVec} {T : Type} `{!Kv.KeyValueDatabase T} `{!HashOrder} `{!HashOrderOf Z}.
Context {L : LinkedHashMap bytes IndexedTransaction} `{!LinkedHashMapEdit bytes IndexedTransaction L}.
Context {LU : LinkedHashMap bytes f64} `{!LinkedHashMapEdit bytes f64 LU}.
Context {LO : LinkedHashMap bytes (OrphanTransactions.OrphanTransaction f64)}.
Context `{!LinkedHashMapEdit bytes (OrphanTransactions.OrphanTransaction f64) LO}.
Context {LH : LinkedHashMap Z PeersTasks.HeadersRequest} `{!LinkedHashMapEdit Z PeersTasks.HeadersRequest LH}.
Context {LB : LinkedHashMap Z PeersTasks.BlocksRequest} `{!LinkedHashMapEdit Z PeersTasks.BlocksRequest LB}.
Context {Future Sink E : Type}.

Record Core := mkCore {
  shared_state : SynchronizationState;
  state : State;
  peers_tasks : PeersTasks.PeersTasks (LH := LH) (LB := LB);
  chain : Chain (T := T) (L := L);
  orphaned_blocks_pool : OrphanBlocks.OrphanBlocksPool f64 (L := LU);
  orphaned_transactions_pool : OrphanTransactions.OrphanTransactionsPool f64 (L := LO);
  verify_headers_enabled : bool;
  verifying_blocks_by_peer : gmap bytes Z;
  verifying_blocks_futures : gmap Z (gset bytes * list Future);
  verifying_transactions_sinks : gmap bytes Sink;
  do_not_relay : gset bytes;
  block_speed_meter : AverageSpeedMeter;
  sync_speed_meter : AverageSpeedMeter;
  close_connection_on_bad_block : bool;
  listener : bool;
  last_dup_time : f64;
  effects : list (Effect Future Sink);
}.

(** The state with one field changed. *)
Definition set_shared (v : SynchronizationState) (c : Core) : Core :=
  mkCore v (state c) (peers_tasks c) (chain c) (orphaned_blocks_pool c) (orphaned_transactions_pool c)
    (verify_headers_enabled c) (verifying_blocks_by_peer c) (verifying_blocks_futures c)
    (verifying_transactions_sinks c) (do_not_relay c) (block_speed_meter c) (sync_speed_meter c)
    (close_connection_on_bad_block c) (listener c) (last_dup_time c) (effects c).
Definition set_state (v : State) (c : Core) : Core :=
  mkCore (shared_state c) v (peers_tasks c) (chain c) (orphaned_blocks_pool c) (orphaned_transactions_pool c)
    (verify_headers_enabled c) (verifying_blocks_by_peer c) (verifying_blocks_futures c)
    (verifying_transactions_sinks c) (do_not_relay c) (block_speed_meter c) (sync_speed_meter c)
    (close_connection_on_bad_block c) (listener c) (last_dup_time c) (effects c).
Definition set_tasks (v : PeersTasks.PeersTasks (LH := LH) (LB := LB)) (c : Core) : Core :=
  mkCore (shared_state c) (state c) v (chain c) (orphaned_blocks_pool c) (orphaned_transactions_pool c)
    (verify_headers_enabled c) (verifying_blocks_by_peer c) (verifying_blocks_futures c)
    (verifying_transactions_sinks c) (do_not_relay c) (block_speed_meter c) (sync_speed_meter c)
    (close_connection_on_bad_block c) (listener c) (last_dup_time c) (effects c).
Definition set_chain (v : Chain (T := T) (L := L)) (c : Core) : Core :=
  mkCore (shared_state c) (state c) (peers_tasks c) v (orphaned_blocks_pool c) (orphaned_transactions_pool c)
    (verify_headers_enabled c) (verifying_blocks_by_peer c) (verifying_blocks_futures c)
    (verifying_transactions_sinks c) (do_not_relay c) (block_speed_meter c) (sync_speed_meter c)
    (close_connection_on_bad_block c) (listener c) (last_dup_time c) (effects c).
Definition set_blocks_pool (v : OrphanBlocks.OrphanBlocksPool f64 (L := LU)) (c : Core) : Core :=
  mkCore (shared_state c) (state c) (peers_tasks c) (chain c) v (orphaned_transactions_pool c)
    (verify_headers_enabled c) (verifying_blocks_by_peer c) (verifying_blocks_futures c)
    (verifying_transactions_sinks c) (do_not_relay c) (block_speed_meter c) (sync_speed_meter c)
    (close_connection_on_bad_block c) (listener c) (last_dup_time c) (effects c).
Definition set_transactions_pool (v : OrphanTransactions.OrphanTransactionsPool f64 (L := LO)) (c : Core) : Core :=
  mkCore (shared_state c) (state c) (peers_tasks c) (chain c) (orphaned_blocks_pool c) v (verify_headers_enabled c)
    (verifying_blocks_by_peer c) (verifying_blocks_futures c) (verifying_transactions_sinks c) (do_not_relay c)
    (block_speed_meter c) (sync_speed_meter c) (close_connection_on_bad_block c) (listener c) (last_dup_time c)
    (effects c).
Definition set_by_peer (v : gmap bytes Z) (c : Core) : Core :=
  mkCore (shared_state c) (state c) (peers_tasks c) (chain c) (orphaned_blocks_pool c) (orphaned_transactions_pool c)
    (verify_headers_enabled c) v (verifying_blocks_futures c) (verifying_transactions_sinks c) (do_not_relay c)
    (block_speed_meter c) (sync_speed_meter c) (close_connection_on_bad_block c) (listener c) (last_dup_time c)
    (effects c).
Definition set_futures (v : gmap Z (gset bytes * list Future)) (c : Core) : Core :=
  mkCore (shared_state c) (state c) (peers_tasks c) (chain c) (orphaned_blocks_pool c) (orphaned_transactions_pool c)
    (verify_headers_enabled c) (verifying_blocks_by_peer c) v (verifying_transactions_sinks c) (do_not_relay c)
    (block_speed_meter c) (sync_speed_meter c) (close_connection_on_bad_block c) (listener c) (last_dup_time c)
    (effects c).
Definition set_sinks (v : gmap bytes Sink) (c : Core) : Core :=
  mkCore (shared_state c) (state c) (peers_tasks c) (chain c) (orphaned_blocks_pool c) (orphaned_transactions_pool c)
    (verify_headers_enabled c) (verifying_blocks_by_peer c) (verifying_blocks_futures c) v (do_not_relay c)
    (block_speed_meter c) (sync_speed_meter c) (close_connection_on_bad_block c) (listener c) (last_dup_time c)
    (effects c).
Definition set_do_not_relay (v : gset bytes) (c : Core) : Core :=
  mkCore (shared_state c) (state c) (peers_tasks c) (chain c) (orphaned_blocks_pool c) (orphaned_transactions_pool c)
    (verify_headers_enabled c) (verifying_blocks_by_peer c) (verifying_blocks_futures c)
    (verifying_transactions_sinks c) v (block_speed_meter c) (sync_speed_meter c) (close_connection_on_bad_block c)
    (listener c) (last_dup_time c) (effects c).
Definition set_block_meter (v : AverageSpeedMeter) (c : Core) : Core :=
  mkCore (shared_state c) (state c) (peers_tasks c) (chain c) (orphaned_blocks_pool c) (orphaned_transactions_pool c)
    (verify_headers_enabled c) (verifying_blocks_by_peer c) (verifying_blocks_futures c)
    (verifying_transactions_sinks c) (do_not_relay c) v (sync_speed_meter c) (close_connection_on_bad_block c)
    (listener c) (last_dup_time c) (effects c).
Definition set_sync_meter (v : AverageSpeedMeter) (c : Core) : Core :=
  mkCore (shared_state c) (state c) (peers_tasks c) (chain c) (orphaned_blocks_pool c) (orphaned_transactions_pool c)
    (verify_headers_enabled c) (verifying_blocks_by_peer c) (verifying_blocks_futures c)
    (verifying_transactions_sinks c) (do_not_relay c) (block_speed_meter c) v (close_connection_on_bad_block c)
    (listener c) (last_dup_time c) (effects c).
Definition set_listener (v : bool) (c : Core) : Core :=
  mkCore (shared_state c) (state c) (peers_tasks c) (chain c) (orphaned_blocks_pool c) (orphaned_transactions_pool c)
    (verify_headers_enabled c) (verifying_blocks_by_peer c) (verifying_blocks_futures c)
    (verifying_transactions_sinks c) (do_not_relay c) (block_speed_meter c) (sync_speed_meter c)
    (close_connection_on_bad_block c) v (last_dup_time c) (effects c).
Definition set_last_dup_time (v : f64) (c : Core) : Core :=
  mkCore (shared_state c) (state c) (peers_tasks c) (chain c) (orphaned_blocks_pool c) (orphaned_transactions_pool c)
    (verify_headers_enabled c) (verifying_blocks_by_peer c) (verifying_blocks_futures c)
    (verifying_transactions_sinks c) (do_not_relay c) (block_speed_meter c) (sync_speed_meter c)
    (close_connection_on_bad_block c) (listener c) v (effects c).
Definition set_effects (v : list (Effect Future Sink)) (c : Core) : Core :=
  mkCore (shared_state c) (state c) (peers_tasks c) (chain c) (orphaned_blocks_pool c) (orphaned_transactions_pool c)
    (verify_headers_enabled c) (verifying_blocks_by_peer c) (verifying_blocks_futures c)
    (verifying_transactions_sinks c) (do_not_relay c) (block_speed_meter c) (sync_speed_meter c)
    (close_connection_on_bad_block c) (listener c) (last_dup_time c) v.

(** * Steps *)

Definition core_result (A : Type) : Type := Core -> outcome E (A * Core).

#[export] Instance core_bind : MBind core_result := fun A B f m c => '(a, c) ← m c; f a c.
#[export] Instance core_ret : MRet core_result := fun A a c => Ok (a, c).

Definition step {A} (f : Core -> outcome E (A * Core)) : core_result A := f.
Definition lift {A} (m : outcome E A) : core_result A := fun c => a ← m; Ok (a, c).
Definition asks {A} (f : Core -> A) : core_result A := fun c => Ok (f c, c).
Definition modify (f : Core -> Core) : core_result unit := fun c => Ok (tt, f c).
Definition emit (e : Effect Future Sink) : core_result unit := modify (fun c => set_effects (effects c ++ [e]) c).
Definition on_tasks (f : PeersTasks.PeersTasks -> outcome E PeersTasks.PeersTasks) : core_result unit := fun c =>
  t ← f (peers_tasks c); Ok (tt, set_tasks t c).
Definition read_chain {A} (f : Chain -> outcome E A) : core_result A := fun c => a ← f (chain c); Ok (a, c).
Definition on_chain {A} (f : Chain -> outcome E (A * Chain)) : core_result A := fun c =>
  '(a, ch) ← f (chain c); Ok (a, set_chain ch c).
Definition change_chain (f : Chain -> outcome E Chain) : core_result unit := fun c =>
  ch ← f (chain c); Ok (tt, set_chain ch c).
Definition when (b : bool) (m : core_result unit) : core_result unit := if b then m else mret tt.

Fixpoint for_each {A} (l : list A) (f : A -> core_result unit) : core_result unit :=
  match l with
  | [] => mret tt
  | x :: l => _ ← f x; for_each l f
  end.

(** The consensus parameters of the verifier, [precise_time_s], and the time in seconds
    that headers are checked against. *)
Variables (consensus : ConsensusParams) (now : f64) (current_time : Z).

(** ** States of synchronization *)

Definition print_synchronization_information : core_result unit := fun c =>
  match state c with
  | Synchronizing timestamp num_of_blocks =>
      let timestamp_diff := sub now timestamp in
      let new_num_of_blocks := bb_number (best_storage_block (chain c)) in
      let blocks_diff := if num_of_blocks <? new_num_of_blocks then new_num_of_blocks - num_of_blocks else 0 in
      Ok (tt, if geb timestamp_diff (of_int 60) || (1000 <=? blocks_diff)
              then set_state (Synchronizing now new_num_of_blocks) c else c)
  | _ => Ok (tt, c)
  end.

Definition update_synchronizing (b : bool) (c : Core) : Core :=
  set_shared (mkShared b (best_storage_block_height (shared_state c))) c.

Definition notify_state (b : bool) : core_result unit :=
  l ← asks listener; when l (emit (StateSwitched b)).

Definition switch_to_synchronization_state : core_result unit :=
  s ← asks state;
  if is_synchronizing s then mret tt else
  _ ← notify_state true;
  modify (fun c => set_state (Synchronizing now (bb_number (best_storage_block (chain c)))) (update_synchronizing true c)).

Definition switch_to_nearly_saturated_state : core_result unit :=
  s ← asks state;
  if is_nearly_saturated s then mret tt else
  _ ← notify_state false;
  modify (fun c => set_state NearlySaturated (update_synchronizing false c)).

Definition switch_to_saturated_state : core_result unit :=
  s ← asks state;
  if is_saturated s then mret tt else
  _ ← notify_state false;
  _ ← modify (fun c => set_state Saturated (update_synchronizing false c));
  _ ← modify (fun c => set_tasks (PeersTasks.reset (peers_tasks c)) c);
  removed_orphans ← step (fun c => '(hashes, pool) ← OrphanBlocks.remove_known_blocks (orphaned_blocks_pool c);
                              Ok (hashes, set_blocks_pool pool c));
  _ ← change_chain (fun ch => forget_blocks ch removed_orphans);
  _ ← change_chain (fun ch => forget_all_blocks_with_state ch Requested);
  _ ← change_chain (fun ch => forget_all_blocks_with_state ch Scheduled);
  hashes ← read_chain SyncChain.block_locator_hashes;
  peers ← asks (fun c => hash_iter (PeersTasks.all (peers_tasks c)));
  for_each peers (fun peer =>
    _ ← emit (Execute (GetHeaders peer (with_block_locator_hashes hashes)));
    emit (Execute (SyncTask.MemoryPool peer))).

Definition try_switch_to_saturated_state : core_result bool :=
  scheduled ← read_chain (fun ch => length_of_blocks_state ch Scheduled);
  requested ← read_chain (fun ch => length_of_blocks_state ch Requested);
  let switch_to_saturated := (scheduled =? 0) && (requested =? 0) in
  _ ← when switch_to_saturated switch_to_saturated_state;
  mret switch_to_saturated.

(** ** Requesting blocks *)

(** The peers are asked in turn, the last one for all that is left. *)
Fixpoint request_loop (inv_type : InventoryType) (chunk_size last_peer_index index : Z) (peers : list Z) (hashes : list bytes)
    : core_result (list Task * list bytes) :=
  match peers with
  | [] => mret ([], hashes)
  | peer :: peers =>
      let peer_chunk_size := if index =? last_peer_index then zlen hashes else Z.min (zlen hashes) chunk_size in
      if peer_chunk_size =? 0 then mret ([], hashes) else
      let chunk_hashes := take (Z.to_nat peer_chunk_size) hashes in
      _ ← on_tasks (fun t => PeersTasks.on_blocks_requested now t peer chunk_hashes);
      '(tasks, hashes) ← request_loop inv_type chunk_size last_peer_index (index + 1) peers (drop (Z.to_nat peer_chunk_size) hashes);
      mret (GetData peer (map (mkInventory inv_type) chunk_hashes) :: tasks, hashes)
  end.

Definition prepare_blocks_requests_tasks (limits : BlocksRequestLimits) (peers : list Z) (hashes : list bytes)
    : core_result (list Task) :=
  peers ← step (fun c => p ← PeersTasks.sort_peers_for_blocks (peers_tasks c) peers; Ok (p, c));
  let chunk_size := Z.min (max_blocks_in_request limits) (Z.max (wrap 32 (zlen hashes)) (min_blocks_in_request limits)) in
  last_peer_index ← lift (ucheck 64 (zlen peers - 1));
  segwit ← asks (fun c => segwit_possible (chain c));
  let inv_type := if (segwit : bool) then MessageWitnessBlock else MessageBlock in
  '(tasks, hashes) ← request_loop inv_type chunk_size last_peer_index 0 peers hashes;
  _ ← lift (rust_assert (zlen hashes =? 0));
  mret tasks.

(** Blocks that are requested already, to be asked of idle peers as well when the
    verification queue runs empty before the requests are answered. *)
Definition duplicate_requests (requested_hashes_len verifying_hashes_len : Z) : core_result (option (list bytes)) :=
  verification_speed ← asks (fun c => speed (block_speed_meter c));
  synchronization_speed ← asks (fun c => speed (sync_speed_meter c));
  inspected ← asks (fun c => inspected_items_len (block_speed_meter c));
  let verification_queue_will_be_empty_in :=
    if verifying_hashes_len =? 0 then
      if inspected <? NEAR_EMPTY_VERIFICATION_QUEUE_THRESHOLD_BLOCKS then of_int 60 else of_int 0
    else if ltb verification_speed (ratio 1 100) then of_int 60
    else div (of_int verifying_hashes_len) verification_speed in
  let synchronization_queue_will_be_full_in :=
    if ltb synchronization_speed (ratio 1 100) then of_int 60
    else div (of_int requested_hashes_len) synchronization_speed in
  last_dup ← asks last_dup_time;
  if gtb synchronization_queue_will_be_full_in verification_queue_will_be_empty_in &&
     ltb verification_queue_will_be_empty_in NEAR_EMPTY_VERIFICATION_QUEUE_THRESHOLD_S &&
     gtb (sub now last_dup) MIN_BLOCK_DUPLICATION_INTERVAL_S then
    _ ← modify (set_last_dup_time now);
    let len := to_u32 (mul synchronization_speed (sub synchronization_queue_will_be_full_in verification_queue_will_be_empty_in)) in
    let len := Z.min MAX_BLOCKS_IN_DUPLICATE_REQUEST len in
    let len := Z.max MIN_BLOCKS_IN_DUPLICATE_REQUEST (Z.min requested_hashes_len len) in
    hashes ← read_chain (fun ch => best_n_of_blocks_state ch Requested len);
    mret (Some hashes)
  else mret None.

(** Headers are asked of all peers that are idle for them. *)
Definition headers_requests_tasks : core_result (list Task) :=
  headers_idle_peers ← asks (fun c => hash_iter (PeersTasks.idle_for_headers (peers_tasks c)));
  if bool_decide (headers_idle_peers = []) then mret [] else
  scheduled_hashes_len ← read_chain (fun ch => length_of_blocks_state ch Scheduled);
  if scheduled_hashes_len <? MAX_SCHEDULED_HASHES then
    _ ← for_each headers_idle_peers (fun peer => on_tasks (fun t => PeersTasks.on_headers_requested now t peer));
    hashes ← read_chain SyncChain.block_locator_hashes;
    mret (map (fun peer => GetHeaders peer (with_block_locator_hashes hashes)) headers_idle_peers)
  else mret [].

(** The blocks to ask of the peers that are idle for them. *)
Definition blocks_requests_hashes (limits : BlocksRequestLimits) (blocks_idle_peers_len verifying_hashes_len : Z)
    : core_result (option (list bytes)) :=
  if blocks_idle_peers_len =? 0 then mret None else
  requested_hashes_len ← read_chain (fun ch => length_of_blocks_state ch Requested);
  blocks_requests ← (if requested_hashes_len =? 0 then mret None else duplicate_requests requested_hashes_len verifying_hashes_len);
  scheduled_hashes_len ← read_chain (fun ch => length_of_blocks_state ch Scheduled);
  busy ← lift (ucheck 32 (requested_hashes_len + verifying_hashes_len));
  if (busy <? MAX_REQUESTED_BLOCKS + MAX_VERIFYING_BLOCKS) && negb (scheduled_hashes_len =? 0) then
    let chunk_size := Z.min (max_blocks_in_request limits)
      (Z.max (scheduled_hashes_len / blocks_idle_peers_len) (min_blocks_in_request limits)) in
    hashes_to_request_len ← lift (ucheck 32 (chunk_size * blocks_idle_peers_len));
    hashes_to_request ← on_chain (fun ch => request_blocks_hashes ch hashes_to_request_len);
    mret (Some (match blocks_requests with Some r => r ++ hashes_to_request | None => hashes_to_request end))
  else mret blocks_requests.

(** The forced requests are asked of the useful peers; without any, the client gives up
    and is saturated ([None]). *)
Definition forced_requests_tasks (limits : BlocksRequestLimits) (forced_blocks_requests : option (list bytes))
    : core_result (option (list Task)) :=
  match forced_blocks_requests with
  | None => mret (Some [])
  | Some hashes =>
      useful ← asks (fun c => PeersTasks.useful_peers (peers_tasks c));
      if bool_decide (useful = []) then _ ← switch_to_saturated_state; mret None else
      tasks ← prepare_blocks_requests_tasks limits useful hashes;
      mret (Some tasks)
  end.

Definition final_requests_tasks (limits : BlocksRequestLimits) (final_blocks_requests : option (list bytes))
    : core_result (list Task) :=
  match final_blocks_requests with
  | None => mret []
  | Some hashes =>
      useful ← asks (fun c => PeersTasks.useful_peers (peers_tasks c));
      if bool_decide (useful = []) then mret [] else prepare_blocks_requests_tasks limits useful hashes
  end.

Definition execute_synchronization_tasks (forced_blocks_requests final_blocks_requests : option (list bytes)) : core_result unit :=
  _ ← print_synchronization_information;
  stored ← read_chain (fun ch => length_of_blocks_state ch Stored);
  let limits := if 150000 <? stored then mkLimits MAX_SCHEDULED_HASHES MAX_REQUESTED_BLOCKS MAX_VERIFYING_BLOCKS 8 16
                else default_limits in
  verifying_hashes_len ← read_chain (fun ch => length_of_blocks_state ch Verifying);
  forced ← forced_requests_tasks limits forced_blocks_requests;
  match forced with
  | None => mret tt
  | Some tasks1 =>
      tasks2 ← final_requests_tasks limits final_blocks_requests;
      blocks_idle_peers ← asks (fun c => hash_iter (PeersTasks.idle_for_blocks (peers_tasks c)));
      tasks3 ← headers_requests_tasks;
      blocks_requests ← blocks_requests_hashes limits (wrap 32 (zlen blocks_idle_peers)) verifying_hashes_len;
      tasks4 ← match blocks_requests with
               | Some hashes => prepare_blocks_requests_tasks limits blocks_idle_peers hashes
               | None => mret []
               end;
      for_each (tasks1 ++ tasks2 ++ tasks3 ++ tasks4) (fun task => emit (Execute task))
  end.

(** ** Peers *)

Definition on_connect (peer_index : Z) : core_result unit :=
  hashes ← read_chain SyncChain.block_locator_hashes;
  _ ← emit (Execute (GetHeaders peer_index (with_block_locator_hashes hashes)));
  _ ← on_tasks (fun t => PeersTasks.unuseful_peer t peer_index);
  on_tasks (fun t => PeersTasks.on_headers_requested now t peer_index).

Definition reset_blocks_tasks (peer_index : Z) : core_result (list bytes) := fun c =>
  let '(hashes, t) := PeersTasks.reset_blocks_tasks (peers_tasks c) peer_index in Ok (hashes, set_tasks t c).

Definition on_disconnect (peer_index : Z) : core_result unit :=
  peer_tasks ← reset_blocks_tasks peer_index;
  _ ← on_tasks (fun t => PeersTasks.disconnect t peer_index);
  execute_synchronization_tasks (Some peer_tasks) None.

(** ** Inventory *)

(** Is an announced item unknown, so that it is asked for? *)
Definition is_unknown_item (peer_index : Z) (item : InventoryVector) : core_result bool :=
  match inv_type item with
  | MessageTx | MessageWitnessTx =>
      s ← read_chain (fun ch => transaction_state ch (inv_hash item));
      pool ← asks orphaned_transactions_pool;
      mret (match s with UnknownTransaction => negb (OrphanTransactions.contains pool (inv_hash item)) | _ => false end)
  | MessageBlock | MessageWitnessBlock =>
      s ← read_chain (fun ch => block_state ch (inv_hash item));
      match s with
      | UnknownBlock => pool ← asks orphaned_blocks_pool; mret (negb (OrphanBlocks.contains_unknown_block pool (inv_hash item)))
      | DeadEnd =>
          close ← asks close_connection_on_bad_block;
          if negb close then mret true else _ ← emit (Misbehaving peer_index); mret false
      | _ => mret false
      end
  | MessageCompactBlock | MessageFilteredBlock | MessageWitnessFilteredBlock => mret false
  | InvError => _ ← emit (Misbehaving peer_index); mret false
  end.

Fixpoint unknown_inventory (peer_index : Z) (inventory : list InventoryVector) : core_result (list InventoryVector) :=
  match inventory with
  | [] => mret []
  | item :: inventory =>
      unknown ← is_unknown_item peer_index item;
      rest ← unknown_inventory peer_index inventory;
      mret (if (unknown : bool) then item :: rest else rest)
  end.

Definition with_witness (segwit : bool) (item : InventoryVector) : InventoryVector :=
  if negb segwit then item else
  match inv_type item with
  | MessageTx => mkInventory MessageWitnessTx (inv_hash item)
  | MessageBlock => mkInventory MessageWitnessBlock (inv_hash item)
  | _ => item
  end.

Definition on_inventory (peer_index : Z) (inventory : list InventoryVector) : core_result unit :=
  segwit ← asks (fun c => segwit_possible (chain c));
  unknown ← unknown_inventory peer_index inventory;
  if bool_decide (unknown = []) then mret tt else
  emit (Execute (GetData peer_index (map (with_witness segwit) unknown))).

(** ** Headers *)

Fixpoint verify_headers_loop (peer_index : Z) (last_known_hash : bytes) (provider : MessageHeaders.MessageBlockHeadersProvider)
    (header_index : nat) (headers : list IndexedBlockHeader) : core_result BlocksHeadersVerificationResult :=
  match headers with
  | [] => mret Success
  | header :: headers =>
      if negb (bool_decide (previous_header_hash (ih_raw header) = last_known_hash)) then
        _ ← emit (Misbehaving peer_index); mret Skip
      else
      s ← read_chain (fun ch => block_state ch (ih_hash header));
      close ← asks close_connection_on_bad_block;
      match s, close with
      | UnknownBlock, _ =>
          enabled ← asks verify_headers_enabled;
          valid ← lift (if (enabled : bool) then
              match_result (ChainVerifier.verify_block_header consensus current_time (ih_hash header) (ih_raw header))
                (fun _ => Ok true) (fun _ => Ok false)
            else Ok true);
          if (valid : bool) then
            verify_headers_loop peer_index (ih_hash header) (MessageHeaders.append_header provider (ih_hash header) header)
              (S header_index) headers
          else
            _ ← when close (emit (Misbehaving peer_index)); mret (HeaderError header_index)
      | DeadEnd, true => _ ← emit (Misbehaving peer_index); mret Skip
      | _, _ => _ ← on_tasks (fun t => PeersTasks.useful_peer t peer_index); mret Skip
      end
  end.

Definition verify_headers (peer_index : Z) (last_known_hash : bytes) (headers : list IndexedBlockHeader)
    : core_result BlocksHeadersVerificationResult :=
  best ← read_chain best_block_header;
  provider ← lift (MessageHeaders.new (bb_number best));
  verify_headers_loop peer_index last_known_hash provider 0 headers.

(** [position(...).expect(...)] of the first header that is not known. *)
Fixpoint first_unknown (headers : list IndexedBlockHeader) : core_result nat :=
  match headers with
  | [] => lift Panic
  | header :: headers =>
      s ← read_chain (fun ch => block_state ch (ih_hash header));
      match s with
      | UnknownBlock => mret O
      | _ => n ← first_unknown headers; mret (S n)
      end
  end.

(** The position of the first unknown header, if there is one. *)
Definition first_unknown_index (header0 header_last : IndexedBlockHeader) (headers : list IndexedBlockHeader) : core_result (option nat) :=
  s0 ← read_chain (fun ch => block_state ch (ih_hash header0));
  match s0 with
  | UnknownBlock => mret (Some O)
  | _ =>
      sl ← read_chain (fun ch => block_state ch (ih_hash header_last));
      match sl with
      | UnknownBlock => n ← first_unknown (tail headers); mret (Some (1 + n)%nat)
      | _ => mret None
      end
  end.

Definition penalize (peer_index : Z) : core_result bool := fun c =>
  '(b, t) ← PeersTasks.penalize (peers_tasks c) peer_index; Ok (b, set_tasks t c).

(** The headers from the first unknown one on are verified and scheduled. *)
Definition schedule_unknown_headers (peer_index : Z) (header0 : IndexedBlockHeader) (headers : list IndexedBlockHeader)
    (first_unknown_index : nat) : core_result unit :=
  last_known_hash ← lift (match first_unknown_index with
    | O => Ok (previous_header_hash (ih_raw header0))
    | S n => h ← index headers n; Ok (ih_hash h)
    end);
  close ← asks close_connection_on_bad_block;
  s ← read_chain (fun ch => block_state ch last_known_hash);
  match close, s with
  | true, DeadEnd => emit (Misbehaving peer_index)
  | _, _ =>
      result ← verify_headers peer_index last_known_hash (drop first_unknown_index headers);
      match result with
      | HeaderError error_index =>
          h ← lift (index headers (first_unknown_index + error_index));
          modify (fun c => set_chain (mark_dead_end_block (chain c) (ih_hash h)) c)
      | Skip => mret tt
      | Success =>
          _ ← change_chain (fun ch => schedule_blocks_headers ch (drop first_unknown_index headers));
          st ← asks state;
          _ ← (if is_synchronizing st then mret tt else
            scheduled ← read_chain (fun ch => length_of_blocks_state ch Scheduled);
            requested ← read_chain (fun ch => length_of_blocks_state ch Requested);
            total ← lift (ucheck 32 (scheduled + requested));
            if total =? 1 then switch_to_nearly_saturated_state else switch_to_synchronization_state);
          _ ← on_tasks (fun t => PeersTasks.useful_peer t peer_index);
          execute_synchronization_tasks None None
      end
  end.

Definition on_headers (peer_index : Z) (headers : list IndexedBlockHeader) : core_result unit :=
  _ ← lift (rust_assert (negb (bool_decide (length headers = 0)%nat)));
  _ ← modify (fun c => set_tasks (PeersTasks.on_headers_received (peers_tasks c) peer_index) c);
  header0 ← lift (index headers 0);
  parent ← read_chain (fun ch => block_state ch (previous_header_hash (ih_raw header0)));
  match parent with
  | UnknownBlock =>
      too_bad ← penalize peer_index;
      when too_bad (emit (Misbehaving peer_index))
  | _ =>
      header_last ← lift (index headers (length headers - 1));
      first ← first_unknown_index header0 header_last headers;
      match first with
      | None => on_tasks (fun t => PeersTasks.useful_peer t peer_index)
      | Some first => schedule_unknown_headers peer_index header0 headers first
      end
  end.

(** ** Blocks *)

Abbreviation block_hash := OrphanBlocks.block_hash.
Abbreviation block_parent := OrphanBlocks.block_parent.

Definition remove_blocks_for_parent (hash : bytes) : core_result (list IndexedBlock) := fun c =>
  '(blocks, pool) ← OrphanBlocks.remove_blocks_for_parent (orphaned_blocks_pool c) hash;
  Ok (blocks, set_blocks_pool pool c).

(** A block whose parent is not known, or is known to be bad. *)
Definition on_unconnected_block (block : IndexedBlock) : core_result unit :=
  st ← asks state;
  if is_synchronizing st then
    _ ← on_chain (fun ch => forget_block ch (block_hash block));
    removed ← remove_blocks_for_parent (block_hash block);
    change_chain (fun ch => forget_blocks_leave_header ch (map block_hash removed))
  else
    _ ← on_chain (fun ch => forget_block_leave_header ch (block_hash block));
    pool ← asks orphaned_blocks_pool;
    if OrphanBlocks.contains_unknown_block pool (block_hash block) then mret tt else
    pool ← lift (OrphanBlocks.insert_unknown_block now pool block);
    modify (set_blocks_pool pool).

(** Blocks that wait for their verification are recorded under the peer that sent them. *)
Definition remember_verifying (peer_index : Z) (hashes : list bytes) (c : Core) : Core :=
  let by_peer := foldl (fun m h => <[h := peer_index]> m) (verifying_blocks_by_peer c) hashes in
  let futures := match verifying_blocks_futures c !! peer_index with
                 | Some (waiting, futures) => <[peer_index := (waiting ∪ list_to_set hashes, futures)]> (verifying_blocks_futures c)
                 | None => <[peer_index := (list_to_set hashes, [])]> (verifying_blocks_futures c)
                 end in
  set_futures futures (set_by_peer by_peer c).

(** A block whose parent is stored or verified before it: it is verified, and with it the
    orphans that wait for it. *)
Definition on_connected_block (peer_index : Z) (block : IndexedBlock) : core_result (list IndexedBlock) :=
  _ ← step (fun c => m ← checkpoint now (sync_speed_meter c); Ok (tt, set_sync_meter m c));
  _ ← on_tasks (fun t => PeersTasks.useful_peer t peer_index);
  orphans ← remove_blocks_for_parent (block_hash block);
  let blocks_to_verify := block :: orphans in
  _ ← change_chain (fun ch => forget_blocks_leave_header ch (map block_hash blocks_to_verify));
  _ ← change_chain (fun ch => verify_blocks ch (map ib_header blocks_to_verify));
  _ ← modify (remember_verifying peer_index (map block_hash blocks_to_verify));
  mret blocks_to_verify.

(** What is done with a block by the state of its parent. *)
Definition on_new_block (peer_index : Z) (block : IndexedBlock) : core_result (option (list IndexedBlock)) :=
  parent_block_state ← read_chain (fun ch => block_state ch (block_parent block));
  close ← asks close_connection_on_bad_block;
  match parent_block_state with
  | DeadEnd =>
      if (close : bool) then _ ← emit (Misbehaving peer_index); mret None
      else _ ← on_unconnected_block block; mret None
  | UnknownBlock => _ ← on_unconnected_block block; mret None
  | Verifying | Stored => blocks ← on_connected_block peer_index block; mret (Some blocks)
  | Requested | Scheduled =>
      _ ← on_tasks (fun t => PeersTasks.useful_peer t peer_index);
      _ ← modify (fun c => set_blocks_pool (OrphanBlocks.insert_orphaned_block (orphaned_blocks_pool c) block) c);
      mret None
  end.

Definition on_block (peer_index : Z) (block : IndexedBlock) : core_result (option (list IndexedBlock)) :=
  _ ← on_tasks (fun t => PeersTasks.on_block_received now t peer_index (block_hash block));
  state ← read_chain (fun ch => block_state ch (block_hash block));
  close ← asks close_connection_on_bad_block;
  match state with
  | Verifying | Stored => _ ← on_tasks (fun t => PeersTasks.useful_peer t peer_index); mret None
  | DeadEnd => if (close : bool) then _ ← emit (Misbehaving peer_index); mret None else on_new_block peer_index block
  | UnknownBlock | Scheduled | Requested => on_new_block peer_index block
  end.

(** ** Transactions *)

Fixpoint unknown_parents (ins : list TransactionInput) : core_result (gset bytes) :=
  match ins with
  | [] => mret ∅
  | input :: ins =>
      s ← read_chain (fun ch => transaction_state ch (op_hash (previous_output input)));
      rest ← unknown_parents ins;
      mret (match s with UnknownTransaction => {[op_hash (previous_output input)]} ∪ rest | _ => rest end)
  end.

Definition remember_transaction (relay : bool) (tx : IndexedTransaction) (c : Core) : Core :=
  let c := if negb relay then set_do_not_relay ({[itx_hash tx]} ∪ do_not_relay c) c else c in
  set_chain (verify_transaction (chain c) tx) c.

Definition try_append_transaction (transaction : IndexedTransaction) (relay : bool)
    : core_result (AppendTransactionError + list IndexedTransaction) :=
  st ← asks state;
  if is_synchronizing st then mret (inl AppendSynchronizing) else
  unknown ← unknown_parents (inputs (itx_raw transaction));
  if negb (bool_decide (unknown = ∅)) then mret (inl (Orphan unknown)) else
  orphans ← step (fun c => '(txs, pool) ← OrphanTransactions.remove_transactions_for_parent (orphaned_transactions_pool c) (itx_hash transaction);
                      Ok (txs, set_transactions_pool pool c));
  let transactions := transaction :: orphans in
  _ ← for_each transactions (fun tx => modify (remember_transaction relay tx));
  mret (inr transactions).

Definition process_peer_transaction (transaction : IndexedTransaction) (relay : bool) : core_result (option (list IndexedTransaction)) :=
  r ← try_append_transaction transaction relay;
  match r with
  | inl (Orphan unknown_parents) =>
      _ ← step (fun c => pool ← OrphanTransactions.insert now (orphaned_transactions_pool c) transaction unknown_parents;
                    Ok (tt, set_transactions_pool pool c));
      mret None
  | inl AppendSynchronizing => mret None
  | inr transactions => mret (Some transactions)
  end.

Definition on_transaction (transaction : IndexedTransaction) : core_result (option (list IndexedTransaction)) :=
  pool ← asks orphaned_transactions_pool;
  if OrphanTransactions.contains pool (itx_hash transaction) then mret None else
  s ← read_chain (fun ch => transaction_state ch (itx_hash transaction));
  match s with
  | UnknownTransaction => process_peer_transaction transaction true
  | _ => mret None
  end.

(** The texts of the errors are left out. *)
Definition accept_transaction (transaction : IndexedTransaction) (sink : Sink)
    : core_result (AppendTransactionError + list IndexedTransaction) :=
  r ← try_append_transaction transaction true;
  match r with
  | inl e => mret (inl e)
  | inr transactions =>
      _ ← modify (fun c => set_sinks (<[itx_hash transaction := sink]> (verifying_transactions_sinks c)) c);
      mret (inr transactions)
  end.

(** ** Other messages and requests *)

Definition on_notfound (peer_index : Z) (inventory : list InventoryVector) : core_result unit :=
  let notfound_blocks : gset bytes :=
    list_to_set (map inv_hash (List.filter (fun item => bool_decide (inv_type item = MessageBlock)) inventory)) in
  if bool_decide (notfound_blocks = ∅) then mret tt else
  requested ← asks (fun c => PeersTasks.get_blocks_tasks (peers_tasks c) peer_index);
  let is_requested_block :=
    match requested with Some blocks => negb (bool_decide (blocks ∩ notfound_blocks = ∅)) | None => false end in
  if negb is_requested_block then mret tt else
  removed_tasks ← reset_blocks_tasks peer_index;
  _ ← on_tasks (fun t => PeersTasks.unuseful_peer t peer_index);
  st ← asks state;
  _ ← when (is_synchronizing st) (emit (Misbehaving peer_index));
  execute_synchronization_tasks (Some removed_tasks) None.

Definition after_peer_nearly_blocks_verified (peer_index : Z) (future : Future) : core_result unit :=
  st ← asks state;
  if is_synchronizing st then emit (Awake future) else
  waiting ← asks (fun c => verifying_blocks_futures c !! peer_index);
  match waiting with
  | Some (hashes, futures) =>
      modify (fun c => set_futures (<[peer_index := (hashes, futures ++ [future])]> (verifying_blocks_futures c)) c)
  | None => emit (Awake future)
  end.

Definition install_sync_listener : core_result unit :=
  l ← asks listener;
  _ ← lift (rust_assert (negb l));
  modify (set_listener true).

Definition forget_failed_blocks (blocks_to_forget : list bytes) : core_result unit :=
  for_each blocks_to_forget (fun hash => change_chain (fun ch => forget_block_with_children ch hash)).

(** ** Verification has ended *)

Definition awake_waiting_threads (hash : bytes) : core_result unit :=
  peer ← asks (fun c => verifying_blocks_by_peer c !! hash);
  match peer with
  | None => mret tt
  | Some peer_index =>
      entry ← asks (fun c => verifying_blocks_futures c !! peer_index);
      _ ← match entry with
          | Some (waiting, futures) =>
              let waiting : gset bytes := waiting ∖ {[hash]} in
              if bool_decide (waiting = ∅) then
                _ ← for_each futures (fun f => emit (Awake f));
                modify (fun c => set_futures (delete peer_index (verifying_blocks_futures c)) c)
              else modify (fun c => set_futures (<[peer_index := (waiting, futures)]> (verifying_blocks_futures c)) c)
          | None => mret tt
          end;
      modify (fun c => set_by_peer (delete hash (verifying_blocks_by_peer c)) c)
  end.

(** [do_not_relay.remove]. *)
Definition take_do_not_relay (hash : bytes) : core_result bool := fun c =>
  Ok (bool_decide (hash ∈ do_not_relay c), set_do_not_relay (do_not_relay c ∖ {[hash]}) c).

(** A storage error is not recovered from. *)
Definition or_panic {A} (m : outcome StorageError A) : outcome E A := match_result m Ok (fun _ => Panic).

Definition insert_verified_block (block : IndexedBlock) : core_result BlockInsertionResult :=
  position ← on_chain (fun ch => forget_block_with_state_leave_header ch (block_hash block) Verifying);
  match position with
  | Missing => mret (mkInsertion [] [])
  | _ => on_chain (fun ch => or_panic (insert_best_block ch block))
  end.

Definition relay_block (hash : bytes) : core_result unit :=
  block ← read_chain (fun ch => Db.block (storage ch) (Hash hash));
  match block with Some b => emit (Execute (RelayNewBlock b)) | None => mret tt end.

Fixpoint reverify (height : Z) (txs : list IndexedTransaction) : core_result (list VerificationTask) :=
  match txs with
  | [] => mret []
  | tx :: txs =>
      orphans ← process_peer_transaction tx false;
      rest ← reverify height txs;
      mret (match orphans with Some l => map (VerifyTransaction height) l ++ rest | None => rest end)
  end.

Definition on_block_verification_success (block : IndexedBlock) : core_result (list VerificationTask) :=
  _ ← step (fun c => m ← checkpoint now (block_speed_meter c); Ok (tt, set_block_meter m c));
  skip_relay ← take_do_not_relay (block_hash block);
  let needs_relay := negb skip_relay in
  result ← insert_verified_block block;
  _ ← modify (fun c => set_shared (mkShared (shared_synchronizing (shared_state c)) (bb_number (best_storage_block (chain c)))) c);
  l ← asks listener;
  _ ← match last (canonized_blocks_hashes result) with
      | Some best_block_hash => when l (emit (BestBlockInserted best_block_hash))
      | None => mret tt
      end;
  _ ← awake_waiting_threads (block_hash block);
  _ ← execute_synchronization_tasks None None;
  st ← asks state;
  _ ← when (needs_relay && (is_saturated st || is_nearly_saturated st)) (for_each (canonized_blocks_hashes result) relay_block);
  best ← read_chain best_block;
  next_block_height ← lift (ucheck 32 (bb_number best + 1));
  reverify next_block_height (transactions_to_reverify result).

Definition on_block_verification_error (hash : bytes) : core_result unit :=
  _ ← take_do_not_relay hash;
  peer ← asks (fun c => verifying_blocks_by_peer c !! hash);
  close ← asks close_connection_on_bad_block;
  _ ← match peer with Some peer_index => when close (emit (Dos peer_index)) | None => mret tt end;
  _ ← change_chain (fun ch => forget_block_with_children ch hash);
  _ ← modify (fun c => set_chain (mark_dead_end_block (chain c) hash) c);
  _ ← awake_waiting_threads hash;
  execute_synchronization_tasks None None.

(** The fee rate of a transaction whose inputs are in the pool or stored. *)
Definition chain_fee_rate (ch : Chain) (tx : Transaction) : outcome E Z :=
  outs ← stored_outputs (storage ch) (inputs tx);
  MemoryPool.transaction_fee_rate (DuplexTransactionOutputProvider (MemoryPool.pool_provider (memory_pool ch)) (listed_outputs outs)) tx.

Definition on_transaction_verification_success (transaction : IndexedTransaction) : core_result unit :=
  skip_relay ← take_do_not_relay (itx_hash transaction);
  verifying ← on_chain (fun ch => Ok (forget_verifying_transaction ch (itx_hash transaction)));
  if negb verifying then mret tt else
  _ ← change_chain (fun ch => insert_verified_transaction ch transaction);
  fee_rate ← read_chain (fun ch => chain_fee_rate ch (itx_raw transaction));
  _ ← when (negb skip_relay) (emit (Execute (RelayNewTransaction transaction fee_rate)));
  sink ← asks (fun c => verifying_transactions_sinks c !! itx_hash transaction);
  match sink with
  | Some s =>
      _ ← modify (fun c => set_sinks (delete (itx_hash transaction) (verifying_transactions_sinks c)) c);
      emit (SinkSuccess s transaction)
  | None => mret tt
  end.

Definition on_transaction_verification_error (hash : bytes) : core_result unit :=
  _ ← take_do_not_relay hash;
  _ ← change_chain (fun ch => forget_verifying_transaction_with_children ch hash);
  sink ← asks (fun c => verifying_transactions_sinks c !! hash);
  match sink with
  | Some s =>
      _ ← modify (fun c => set_sinks (delete hash (verifying_transactions_sinks c)) c);
      emit (SinkError s hash)
  | None => mret tt
  end.

(** ** A new client *)

Definition with_storage (storage : Db.BlockChainDatabase T) : SynchronizationState :=
  mkShared false (bb_number (Db.best_block storage)).

Definition new (close_connection_on_bad_block : bool) (shared_state : SynchronizationState) (chain : Chain) : outcome E Core :=
  block_speed_meter ← with_inspect_items SYNC_SPEED_BLOCKS_TO_INSPECT;
  sync_speed_meter ← with_inspect_items BLOCKS_SPEED_BLOCKS_TO_INSPECT;
  Ok (mkCore shared_state Saturated PeersTasks.default chain OrphanBlocks.new OrphanTransactions.new true ∅ ∅ ∅ ∅
        block_speed_meter sync_speed_meter close_connection_on_bad_block false (of_int 0) []).

End core.
End ClientCore.
