(* ===== verification/SyncManager.v ===== *)
(** The management of synchronization (src/sync/src/synchronization_manager.rs): peers
    that do not answer in time lose their requests and their standing, and orphans that
    are too old or too many are dropped.

    A round of the worker is [manage]; the thread, its interval and its end are left
    out. *)
From Stdlib Require Import ZArith Lia Strings.Byte.
From stdpp Require Import base decidable numbers countable gmap list.
From S2P Require Import Prelude Crypto Serialization Codec Chain ChainHash U256 Compact Network Work Storage Deployments Verify Accept.
From S2P Require Import ChainVerifier Kv Db LinkedMap HashQueue Message MemoryPool OrphanPools SyncChain Float64 PeersTasks ClientCore.

Local Open Scope Z_scope.

Module SyncManager.
Import F64 ChainHash SyncChain PeersTasks ClientCore.

Definition DEFAULT_NEW_PEER_BLOCK_FAILURE_INTERVAL_MS : Z := 5 * 1000.
Definition DEFAULT_NEW_PEER_HEADERS_FAILURE_INTERVAL_MS : Z := 5 * 1000.
Definition DEFAULT_TRUSTED_PEER_BLOCK_FAILURE_INTERVAL_MS : Z := 20 * 1000.
Definition DEFAULT_TRUSTED_PEER_HEADERS_FAILURE_INTERVAL_MS : Z := 20 * 1000.
Definition DEFAULT_UNKNOWN_BLOCK_REMOVAL_TIME_MS : Z := 20 * 60 * 1000.
Definition DEFAULT_UNKNOWN_BLOCKS_MAX_LEN : Z := 16.
Definition DEFAULT_ORPHAN_TRANSACTION_REMOVAL_TIME_MS : Z := 10 * 60 * 1000.
Definition DEFAULT_ORPHAN_TRANSACTIONS_MAX_LEN : Z := 10000.

Record ManagePeersConfig := mkPeersConfig {
  new_block_failure_interval_ms : Z;
  new_headers_failure_interval_ms : Z;
  trusted_block_failure_interval_ms : Z;
  trusted_headers_failure_interval_ms : Z;
}.
Definition default_peers_config : ManagePeersConfig :=
  mkPeersConfig DEFAULT_NEW_PEER_BLOCK_FAILURE_INTERVAL_MS DEFAULT_NEW_PEER_HEADERS_FAILURE_INTERVAL_MS
    DEFAULT_TRUSTED_PEER_BLOCK_FAILURE_INTERVAL_MS DEFAULT_TRUSTED_PEER_HEADERS_FAILURE_INTERVAL_MS.

(** [ManageUnknownBlocksConfig] and [ManageOrphanTransactionsConfig]. *)
Record ManageOrphansConfig := mkOrphansConfig { removal_time_ms : Z; max_number : Z }.
Definition default_unknown_config : ManageOrphansConfig :=
  mkOrphansConfig DEFAULT_UNKNOWN_BLOCK_REMOVAL_TIME_MS DEFAULT_UNKNOWN_BLOCKS_MAX_LEN.
Definition default_orphan_config : ManageOrphansConfig :=
  mkOrphansConfig DEFAULT_ORPHAN_TRANSACTION_REMOVAL_TIME_MS DEFAULT_ORPHAN_TRANSACTIONS_MAX_LEN.

(** Has the time of an interval in milliseconds not yet passed? *)
Definition within (now timestamp : f64) (interval_ms : Z) : bool := leb (sub now timestamp) (div (of_int interval_ms) (of_int 1000)).

Section manager.
Context `{U256} `{BitVec} {T : Type} `{!Kv.KeyValueDatabase T} `{!HashOrder} `{!HashOrderOf Z}.
Context {L : LinkedHashMap bytes IndexedTransaction} `{!LinkedHashMapEdit bytes IndexedTransaction L}.
Context {LU : LinkedHashMap bytes f64} `{!LinkedHashMapEdit bytes f64 LU}.
Context {LO : LinkedHashMap bytes (OrphanTransactions.OrphanTransaction f64)}.
Context `{!LinkedHashMapEdit bytes (OrphanTransactions.OrphanTransaction f64) LO}.
Context {LH : LinkedHashMap Z HeadersRequest} `{!LinkedHashMapEdit Z HeadersRequest LH}.
Context {LB : LinkedHashMap Z BlocksRequest} `{!LinkedHashMapEdit Z BlocksRequest LB}.
Context {Future Sink E : Type}.
Variables (consensus : Network.ConsensusParams) (now : f64) (current_time : Z).

Abbreviation tasks := (PeersTasks (LH := LH) (LB := LB)).

Definition is_trusted (t : tasks) (peer_index : Z) : bool :=
  match get_peer_stats t peer_index with Some s => bool_decide (trust s = Trusted) | None => false end.

(** The oldest request comes first: the first one that is in time ends the loop.  Given
    are the blocks to ask for again, those to forget, and the peers to complain about. *)
Fixpoint manage_blocks_loop (config : ManagePeersConfig) (requests : list (Z * BlocksRequest)) (t : tasks)
    : outcome E (list bytes * list bytes * list Z * tasks) :=
  match requests with
  | [] => Ok ([], [], [], t)
  | (worst_peer_index, blocks_request) :: requests =>
      let interval := if is_trusted t worst_peer_index then trusted_block_failure_interval_ms config
                      else new_block_failure_interval_ms config in
      if within now (br_timestamp blocks_request) interval then Ok ([], [], [], t) else
      let '(failed_blocks, t) := PeersTasks.reset_blocks_tasks t worst_peer_index in
      '(normal_blocks, failed_blocks, t) ← on_blocks_failure t failed_blocks;
      '(too_many, t) ← on_peer_block_failure t worst_peer_index;
      t ← (if (too_many : bool) then unuseful_peer t worst_peer_index else Ok t);
      '(to_request, to_forget, bad, t) ← manage_blocks_loop config requests t;
      Ok (normal_blocks ++ to_request, failed_blocks ++ to_forget, (if (too_many : bool) then worst_peer_index :: bad else bad), t)
  end.

Definition manage_synchronization_peers_blocks (config : ManagePeersConfig) (t : tasks) : outcome E (list bytes * list bytes * list Z * tasks) :=
  manage_blocks_loop config (lhm_iter (blocks_requests t)) t.

Fixpoint manage_headers_loop (config : ManagePeersConfig) (requests : list (Z * HeadersRequest)) (t : tasks)
    : outcome E (list Z * tasks) :=
  match requests with
  | [] => Ok ([], t)
  | (worst_peer_index, headers_request) :: requests =>
      let interval := if is_trusted t worst_peer_index then trusted_headers_failure_interval_ms config
                      else new_headers_failure_interval_ms config in
      if within now (hr_timestamp headers_request) interval then Ok ([], t) else
      if match get_blocks_tasks t worst_peer_index with Some b => negb (bool_decide (b = ∅)) | None => false end
      then manage_headers_loop config requests t else
      '(too_many, t) ← on_peer_headers_failure t worst_peer_index;
      '(bad, t) ← manage_headers_loop config requests t;
      Ok (if (too_many : bool) then worst_peer_index :: bad else bad, t)
  end.

Definition manage_synchronization_peers_headers (config : ManagePeersConfig) (t : tasks) : outcome E (list Z * tasks) :=
  manage_headers_loop config (lhm_iter (headers_requests t)) t.

(** Of entries in the order of their insertion: the first [remove_num], and then those
    that are older than the configuration allows. *)
Fixpoint to_remove (config : ManageOrphansConfig) (remove_num : nat) (entries : list (bytes * f64)) : list bytes :=
  match entries with
  | [] => []
  | (hash, time) :: entries =>
      match remove_num with
      | S remove_num => hash :: to_remove config remove_num entries
      | O => if within now time (removal_time_ms config) then [] else hash :: to_remove config O entries
      end
  end.

Definition excess (config : ManageOrphansConfig) (len : Z) : nat :=
  if max_number config <? len then Z.to_nat (len - max_number config) else 0%nat.

Definition manage_unknown_orphaned_blocks (config : ManageOrphansConfig) (pool : OrphanBlocks.OrphanBlocksPool f64 (L := LU))
    : outcome E (option (list bytes) * OrphanBlocks.OrphanBlocksPool f64 (L := LU)) :=
  let unknown := OrphanBlocks.unknown_blocks pool in
  let hashes := to_remove config (excess config (lhm_len unknown)) (lhm_iter unknown) in
  '(removed, pool) ← OrphanBlocks.remove_blocks pool (list_to_set hashes);
  Ok (if bool_decide (removed = []) then None else Some removed, pool).

Definition manage_orphaned_transactions (config : ManageOrphansConfig) (pool : OrphanTransactions.OrphanTransactionsPool f64 (L := LO))
    : outcome E (option (list bytes) * OrphanTransactions.OrphanTransactionsPool f64 (L := LO)) :=
  let orphans := OrphanTransactions.by_hash pool in
  let entries := map (fun p => (p.1, OrphanTransactions.insertion_time p.2)) (lhm_iter orphans) in
  '(removed, pool) ← OrphanTransactions.remove_transactions pool (to_remove config (excess config (lhm_len orphans)) entries);
  let removed := map itx_hash removed in
  Ok (if bool_decide (removed = []) then None else Some removed, pool).

(** ** A round of the worker *)

Abbreviation core_result := (core_result (T := T) (L := L) (LU := LU) (LO := LO) (LH := LH) (LB := LB) (Future := Future) (Sink := Sink) (E := E)).

Definition some_if_any (l : list bytes) : option (list bytes) := if bool_decide (l = []) then None else Some l.

Definition manage_synchronizing : core_result unit :=
  '(blocks_to_request, blocks_to_forget, bad) ← step (fun c =>
    '(r, f, bad, t) ← manage_synchronization_peers_blocks default_peers_config (peers_tasks c); Ok ((r, f, bad), set_tasks t c));
  _ ← for_each bad (fun p => emit (Misbehaving p));
  _ ← forget_failed_blocks blocks_to_forget;
  _ ← execute_synchronization_tasks now (some_if_any blocks_to_request) (some_if_any blocks_to_forget);
  bad ← step (fun c =>
    '(bad, t) ← manage_synchronization_peers_headers default_peers_config (peers_tasks c); Ok (bad, set_tasks t c));
  _ ← for_each bad (fun p => emit (Misbehaving p));
  step (fun c =>
    '(_, pool) ← manage_orphaned_transactions default_orphan_config (orphaned_transactions_pool c);
    Ok (tt, set_transactions_pool pool c)).

Definition manage_saturated : core_result unit :=
  orphans_to_remove ← step (fun c =>
    '(hashes, pool) ← manage_unknown_orphaned_blocks default_unknown_config (orphaned_blocks_pool c);
    Ok (hashes, set_blocks_pool pool c));
  match orphans_to_remove with
  | Some hashes => for_each hashes (fun h => _ ← on_chain (fun ch => forget_block ch h); mret tt)
  | None => mret tt
  end.

Definition manage : core_result unit :=
  _ ← print_synchronization_information now;
  st ← asks state;
  if is_synchronizing st || is_nearly_saturated st then manage_synchronizing else manage_saturated.

End manager.
End SyncManager.
