(* ===== verification/SyncManagerSpec.v ===== *)
(** What a round of the manager (SyncManager.v) does to the requests of the peers: it
    ends, no requested block gets lost, and the peers it complains about are no longer
    useful. *)
From Stdlib Require Import ZArith Lia Strings.Byte.
From stdpp Require Import base decidable numbers countable gmap list.
From S2P Require Import Prelude LinkedMap MemoryPool MemoryPoolSpec Float64 PeersTasks PeersTasksSpec SyncManager.

Local Open Scope Z_scope.

Module SyncManagerSpec.
Import F64 PeersTasks PeersTasksSpec SyncManager.

Section spec.
Context `{!HashOrder} `{!HashOrderOf Z}.
Context {LH : LinkedHashMap Z HeadersRequest} `{!LinkedHashMapLaws LH} `{!LinkedHashMapEdit Z HeadersRequest LH} `{!LinkedHashMapEditLaws LH _}.
Context {LB : LinkedHashMap Z BlocksRequest} `{!LinkedHashMapLaws LB} `{!LinkedHashMapEdit Z BlocksRequest LB} `{!LinkedHashMapEditLaws LB _}.
Context {E : Type}.
Abbreviation tasks := (PeersTasks (LH := LH) (LB := LB)).
Implicit Types (t : tasks) (n p : Z) (h : bytes) (now : f64).

(** The requests of one peer are taken back: what they asked for is asked again or given
    up, and the peer may lose its standing. *)
Definition fail_peer t p : outcome E (list bytes * list bytes * bool * tasks) :=
  let '(failed_blocks, t) := PeersTasks.reset_blocks_tasks t p in
  '(normal_blocks, failed_blocks, t) ← on_blocks_failure t failed_blocks;
  '(too_many, t) ← on_peer_block_failure t p;
  t ← (if (too_many : bool) then unuseful_peer t p else Ok t);
  Ok (normal_blocks, failed_blocks, too_many, t).

Lemma fail_peer_spec n t p :
  wf n t -> n + 1 < 2 ^ 64 -> exists again failed b t', fail_peer t p = Ok (again, failed, b, t') /\ wf (n + 1) t' /\
    (forall q, q <> p -> lhm_get (blocks_requests t') q = lhm_get (blocks_requests t) q) /\ ~ busy t' p /\
    (forall h, asked t p h <-> h ∈ again \/ h ∈ failed) /\ (b = true -> p ∈ unuseful t') /\ unuseful t ⊆ unuseful t'.
Proof.
  intros Hw Hn. unfold fail_peer. destruct (reset_blocks_tasks_spec n t p Hw) as (Hw1 & Hb1 & Hq1 & Ha1 & _).
  change (unuseful t) with (unuseful (PeersTasks.reset_blocks_tasks t p).2).
  destruct (PeersTasks.reset_blocks_tasks t p) as [hs t1]. cbn [fst snd] in *.
  destruct (on_blocks_failure_spec (E := E) n t1 hs Hw1) as (again & failed & t2 & -> & Hw2 & Hb2 & _ & Hu2 & Hp2). rewrite ok_bind.
  destruct (penalize_spec (E := E) n t2 p Hw2 Hn) as (b & t3 & He3 & Hw3 & Hb3 & _ & Hu3). unfold on_peer_block_failure. rewrite He3, ok_bind.
  assert (forall h, asked t p h <-> h ∈ again \/ h ∈ failed) as Hall by (intros h; by rewrite <- Ha1, <- Hp2, elem_of_app).
  assert (~ busy t3 p) as Hb3' by (unfold busy; by rewrite Hb3, Hb2). rewrite <- Hu2, <- Hu3. destruct b.
  - destruct (unuseful_peer_spec (E := E) _ t3 p Hw3 Hb3') as (t4 & -> & Hw4 & Hb4 & _ & Hu4). rewrite ok_bind.
    exists again, failed, true, t4. unfold busy. rewrite Hb4, Hu4, Hb3, Hb2. split_and!; [done..| |]; set_solver.
  - rewrite ok_bind. exists again, failed, false, t3. unfold busy. rewrite Hb3, Hb2. by split_and!.
Qed.

Lemma manage_blocks_loop_spec n now config requests t :
  wf n t -> n + zlen requests < 2 ^ 64 -> NoDup (map fst requests) ->
  (forall p r, (p, r) ∈ requests -> lhm_get (blocks_requests t) p = Some r) ->
  exists again failed bad t', manage_blocks_loop (E := E) now config requests t = Ok (again, failed, bad, t') /\
    (forall h, pending t h <-> h ∈ again \/ h ∈ failed \/ pending t' h) /\ (forall p, p ∈ bad -> p ∈ unuseful t') /\
    wf (n + zlen requests) t' /\ unuseful t ⊆ unuseful t'.
Proof.
  revert n t. induction requests as [|[p r] requests IH]; intros n t Hw Hn Hnd Hin.
  { exists [], [], [], t. cbn. rewrite Z.add_0_r. split_and!; [done| |set_solver|done|done]. set_solver. }
  cbn [manage_blocks_loop]. set (interval := if is_trusted t p then _ else _).
  assert (zlen ((p, r) :: requests) = zlen requests + 1) as Hlen by (cbn [length]; lia). rewrite Hlen in *. clear Hlen.
  destruct (within now (br_timestamp r) interval).
  { exists [], [], [], t. split_and!; [done|set_solver|set_solver| |done]. apply (wf_mono n); [done|lia]. }
  assert (forall (k : list bytes * list bytes * bool * tasks -> outcome E (list bytes * list bytes * list Z * tasks)),
    (let '(failed_blocks, t) := PeersTasks.reset_blocks_tasks t p in
     '(normal_blocks, failed_blocks, t) ← on_blocks_failure t failed_blocks;
     '(too_many, t) ← on_peer_block_failure t p;
     t ← (if (too_many : bool) then unuseful_peer t p else Ok t);
     k (normal_blocks, failed_blocks, too_many, t)) = fail_peer t p ≫= k) as Hk.
  { intros k. unfold fail_peer. destruct (PeersTasks.reset_blocks_tasks t p) as [hs t1].
    destruct (on_blocks_failure t1 hs) as [[[? ?] t2]| | |]; [|done..]. rewrite !ok_bind.
    destruct (on_peer_block_failure t2 p) as [[b t3]| | |]; [|done..]. rewrite !ok_bind. by destruct (if b then _ else _). }
  rewrite (Hk (fun '(a, f, b, t) => '(to_request, to_forget, bad, t) ← manage_blocks_loop now config requests t;
    Ok (a ++ to_request, f ++ to_forget, (if (b : bool) then p :: bad else bad), t))). clear Hk.
  destruct (fail_peer_spec n t p Hw ltac:(lia)) as (a & f & b & t1 & -> & Hw1 & Hq1 & Hb1 & Ha1 & Hu1 & Hs1). rewrite ok_bind.
  apply NoDup_cons in Hnd as [Hni Hnd].
  destruct (IH (n + 1) t1 Hw1 ltac:(lia) Hnd) as (a' & f' & bad & t' & -> & Hp' & Hbad & Hw' & Hs').
  { intros q rq Hq. rewrite Hq1; [apply Hin; by right|]. intros ->. apply Hni. apply list_elem_of_fmap. by exists (p, rq). }
  rewrite ok_bind. eexists _, _, _, t'. split; [reflexivity|]. split_and!.
  - intros h. rewrite !elem_of_app. specialize (Ha1 h). specialize (Hp' h).
    assert (pending t h <-> asked t p h \/ pending t1 h) as ->; [|tauto]. split.
    + intros [q Hq]. destruct (decide (q = p)) as [->|Hne]; [by left|right]. exists q. unfold asked in *. by rewrite Hq1.
    + intros [Hq|[q Hq]]; [by exists p|]. exists q. unfold asked in *. destruct (decide (q = p)) as [->|Hne]; [|by rewrite <- Hq1].
      destruct Hq as (x & Hx & _). contradict Hb1. by exists x.
  - intros q Hq. destruct b; [apply elem_of_cons in Hq as [->|Hq]|]; auto.
  - apply (wf_mono _ _ _ Hw'). lia.
  - set_solver.
Qed.

(** C21: A round of the manager over the blocks the peers have been asked for returns, and
    loses none of them: each one is asked for again, given up, or still asked of a peer.
    The peers complained about are no longer useful. *)
Theorem manage_blocks_conserves n now config t :
  wf n t -> n + zlen (lhm_iter (blocks_requests t)) < 2 ^ 64 ->
  exists again failed bad t', manage_synchronization_peers_blocks (E := E) now config t = Ok (again, failed, bad, t') /\
    (forall h, pending t h <-> h ∈ again \/ h ∈ failed \/ pending t' h) /\
    (forall p, p ∈ bad -> p ∈ unuseful t') /\ exists m, wf m t'.
Proof.
  intros Hw Hn. destruct (manage_blocks_loop_spec n now config (lhm_iter (blocks_requests t)) t Hw Hn) as (a & f & bad & t' & He & Hp & Hb & Hw' & _).
  - rewrite lhm_iter_spec. apply lhm_nodup.
  - intros p r. by rewrite lhm_iter_get.
  - exists a, f, bad, t'. split_and!; [done..|by eexists].
Qed.

End spec.

(** * A round *)

Module ExampleRound.
Import ExampleLinked.
#[local] Existing Instances MemoryPoolSpec.ExamplePool.elements_order.

(** A useful peer that was asked for a block long ago. *)
Definition stats0 : PeerStats := mkPeerStats 0 (AverageSpeedMeter.mkMeter BLOCKS_TO_INSPECT [] (of_int 0) None) Suspicious.
Definition request : BlocksRequest := mkBlocksRequest (of_int 10) {[ [x01] ]}.
Definition useful : PeersTasks := add_useful default 7 stats0 (unuseful default ∖ {[7]}).
Definition waiting : PeersTasks :=
  with_blocks_requests (with_sets useful (all useful) (unuseful useful ∖ {[7]}) (idle_for_headers useful) (idle_for_blocks useful ∖ {[7]}))
    (lhm_insert (blocks_requests useful) 7 request).

Lemma waiting_wf : wf MAX_PEER_FAILURES waiting.
Proof.
  apply wf_ask.
  - apply wf_add_useful; [apply wf_default|by intros [? Hb]|done].
  - cbn. set_solver.
  - intros q. rewrite lhm_get_insert. case_bool_decide; [subst; naive_solver|intuition congruence].
Qed.

Lemma manage_blocks_conserves_witness :
  exists again failed bad t', manage_synchronization_peers_blocks (E := unit) (of_int 1000) default_peers_config waiting = Ok (again, failed, bad, t') /\
    (forall h, pending waiting h <-> h ∈ again \/ h ∈ failed \/ pending t' h).
Proof.
  destruct (manage_blocks_conserves (E := unit) MAX_PEER_FAILURES (of_int 1000) default_peers_config waiting waiting_wf) as (a & f & b & t' & He & Hp & _);
    [reflexivity|]. by exists a, f, b, t'.
Defined.

(** The peer has not answered in time: the block is asked for again, and the peer, which
    has sent no block before, is dropped. *)
Example waiting_round :
  (x ← manage_synchronization_peers_blocks (E := unit) (of_int 1000) default_peers_config waiting; Ok (x.1)) = Ok ([ [x01] ], [], [7]).
Proof. vm_compute. reflexivity. Qed.

End ExampleRound.
End SyncManagerSpec.
