(* ===== verification/SyncVerifier.v ===== *)
(** Verification of what peers send (src/sync/src: synchronization_verifier.rs,
    utils/memory_pool_transaction_provider.rs): the tasks of the verification thread,
    whose results go to a sink ([VerificationSink]).

    The storage and the memory pool are shared with the sink, which changes them; the
    verification reads them there.  Channels and the thread are left out: SyncNode.v
    interleaves the tasks with the handlers of the client. *)
From Stdlib Require Import ZArith Lia Strings.Byte.
From stdpp Require Import base decidable numbers countable gmap list.
From S2P Require Import Prelude Opcode Crypto Keys Serialization Codec Chain ChainHash U256 Compact Network Work Storage Deployments Verify Accept.
From S2P Require Import ChainVerifier Kv Db LinkedMap HashQueue Message MemoryPool OrphanPools SyncChain Float64 PeersTasks ClientCore.

Local Open Scope Z_scope.

Module SyncVerifier.
Import SyncTask Chain ChainHash Network Storage Deployments Verify Accept ChainVerifier.

(** * The storage as verification reads it *)

(** A database that keeps its laws answers every read; what is read is the answer. *)
Definition answer {A} (d : A) (m : outcome unit A) : A := match m with Ok a => a | _ => d end.

Section views.
Context `{BitVec} {T : Type} `{!Kv.KeyValueDatabase T}.

Definition outputs_view (db : Db.BlockChainDatabase T) : TransactionOutputProvider := {|
  transaction_output := fun prevout index => answer None (Db.transaction_output db prevout index);
  is_spent := fun prevout => answer false (Db.is_spent db prevout);
|}.

Definition store_view (db : Db.BlockChainDatabase T) : Store := {|
  best_block := Db.best_block db;
  store_block_hash := fun number => answer None (Db.block_hash db number);
  as_block_header_provider := fun block_ref => answer None (Db.block_header db block_ref);
  as_transaction_output_provider := outputs_view db;
  as_transaction_meta_provider := fun hash => answer None (Db.transaction_meta db hash);
|}.

End views.

Definition canon_view `{BitVec} {T : Type} `{!Kv.KeyValueDatabase T} (db : Db.BlockChainDatabase T) : CanonStore := {|
  as_store := store_view db;
  block_origin := Db.block_origin db;
  fork_store := fun origin => f ← Db.fork db origin; Ok (store_view f);
|}.

(** * Outputs for a transaction of the memory pool *)

(** The outputs of the pool that the transaction spends, and the outputs that count as
    unspent, or as gone, when it replaces transactions that are not final. *)
Record MemoryPoolTransactionOutputProvider := mkPoolProvider {
  storage_provider : TransactionOutputProvider;
  mempool_inputs : gmap OutPoint (option TransactionOutput);
  nonfinal_spends : option (gset OutPoint * gset OutPoint);
}.

Definition pool_inputs (memory_pool : MemoryPool.Pool) (tx : Transaction) : gmap OutPoint (option TransactionOutput) :=
  foldl (fun m input => <[previous_output input :=
    transaction_output (MemoryPool.pool_provider memory_pool) (previous_output input) usize_max]> m) ∅ (inputs tx).

Definition for_transaction {E} (fuel : nat) (storage : TransactionOutputProvider) (memory_pool : MemoryPool.Pool) (tx : Transaction)
    : outcome E (TxError + MemoryPoolTransactionOutputProvider) :=
  check_result ← MemoryPool.check_double_spend fuel memory_pool tx;
  Ok (match check_result with
      | MemoryPool.DoubleSpend _ hash index => inl (TransactionError.UsingSpentOutput hash index)
      | MemoryPool.NoDoubleSpend => inr (mkPoolProvider storage (pool_inputs memory_pool tx) None)
      | MemoryPool.NonFinalDoubleSpend double_spends dependent_spends =>
          inr (mkPoolProvider storage (pool_inputs memory_pool tx) (Some (double_spends, dependent_spends)))
      end).

(** The trait [TransactionOutputProvider]. *)
Definition pool_transaction_output (self : MemoryPoolTransactionOutputProvider) (prevout : OutPoint) (transaction_index : Z)
    : option TransactionOutput :=
  if match nonfinal_spends self with Some (_, dependent_spends) => bool_decide (prevout ∈ dependent_spends) | None => false end
  then None else
  match mempool_inputs self !! prevout with
  | Some (Some output) => Some output
  | _ => transaction_output (storage_provider self) prevout transaction_index
  end.

Definition pool_is_spent (self : MemoryPoolTransactionOutputProvider) (prevout : OutPoint) : bool :=
  if match nonfinal_spends self with Some (double_spends, _) => bool_decide (prevout ∈ double_spends) | None => false end
  then false else is_spent (storage_provider self) prevout.

Definition as_provider (self : MemoryPoolTransactionOutputProvider) : TransactionOutputProvider := {|
  transaction_output := pool_transaction_output self;
  is_spent := pool_is_spent self;
|}.

(** * The sink *)

(** What the verification thread calls when a task has ended, and the state it shares
    with it. *)
Class VerificationSink (T S E : Type) := {
  sink_storage : S -> Db.BlockChainDatabase T;
  sink_memory_pool : S -> MemoryPool.Pool;
  on_block_verification_success : S -> IndexedBlock -> outcome E (list VerificationTask * S);
  on_block_verification_error : S -> Error -> bytes -> outcome E S;
  on_transaction_verification_success : S -> IndexedTransaction -> outcome E S;
  on_transaction_verification_error : S -> TxError -> bytes -> outcome E S;
}.

Section verifier.
Context `{Crypto} `{Secp256k1} `{U256} `{BitVec} `{Rayon} {T : Type} `{!Kv.KeyValueDatabase T} {S E : Type} `{!VerificationSink T S E}.

(** * The verifier *)

(** [ChainVerifierWrapper], with the deployment cache of the verifier. *)
Record Wrapper := mkWrapper {
  verification_level : VerificationLevel;
  verification_edge : bytes;
  enforce_full_verification : bool;
  cache : DeploymentStateCache;
}.

Definition wrapper_new (db : Db.BlockChainDatabase T) (level : VerificationLevel) (edge : bytes) : outcome E Wrapper :=
  enforce ← Db.contains_block db (Hash edge);
  Ok (mkWrapper level edge enforce ∅).

(** The consensus parameters, and the time blocks and transactions are checked at. *)
Variables (consensus : ConsensusParams) (current_time : Z).

Definition wrapper_verify_block (self : Wrapper) (db : Db.BlockChainDatabase T) (block : IndexedBlock) : outcome Error unit * Wrapper :=
  let enforce := if bool_decide (ih_hash (ib_header block) = verification_edge self) then true else enforce_full_verification self in
  let level := if enforce then Full else verification_level self in
  let '(r, c) := verify (canon_view db) consensus level current_time block (cache self) in
  (r, mkWrapper (verification_level self) (verification_edge self) enforce c).

(** Verifying a block, and telling the sink. *)
Definition verify_block_task (self : Wrapper) (sink : S) (block : IndexedBlock) : outcome E (list VerificationTask * Wrapper * S) :=
  let '(r, self) := wrapper_verify_block self (sink_storage sink) block in
  match_result r
    (fun _ => '(tasks, sink) ← on_block_verification_success sink block; Ok (tasks, self, sink))
    (fun e => sink ← on_block_verification_error sink e (ih_hash (ib_header block)); Ok ([], self, sink)).

(** The verdict on a transaction against the storage and the memory pool. *)
Definition verify_pool_transaction (fuel : nat) (self : Wrapper) (db : Db.BlockChainDatabase T) (pool : MemoryPool.Pool) (height : Z)
    (tx : IndexedTransaction) : outcome TxError unit * Wrapper :=
  match for_transaction (E := TxError) fuel (outputs_view db) pool (itx_raw tx) with
  | Ok (inl e) => (Err e, self)
  | Ok (inr provider) =>
      let '(r, c) := verify_mempool_transaction (store_view db) consensus (as_block_header_provider (store_view db)) (as_provider provider)
                       height current_time tx (cache self) in
      (r, mkWrapper (verification_level self) (verification_edge self) (enforce_full_verification self) c)
  | Err e => (Err e, self)
  | Panic => (Panic, self)
  | Diverge => (Diverge, self)
  end.

Definition verify_transaction_task (fuel : nat) (self : Wrapper) (sink : S) (height : Z) (tx : IndexedTransaction) : outcome E (Wrapper * S) :=
  let '(r, self) := verify_pool_transaction fuel self (sink_storage sink) (sink_memory_pool sink) height tx in
  match_result r
    (fun _ => sink ← on_transaction_verification_success sink tx; Ok (self, sink))
    (fun e => sink ← on_transaction_verification_error sink e (itx_hash tx); Ok (self, sink)).

(** [execute_single_task]: tasks that the sink asks for follow in the same queue.  Given
    back is whether the thread goes on. *)
Fixpoint execute_tasks (fuel pool_fuel : nat) (self : Wrapper) (sink : S) (tasks_queue : list VerificationTask) : outcome E (bool * Wrapper * S) :=
  match tasks_queue with
  | [] => Ok (true, self, sink)
  | task :: tasks_queue =>
      match fuel with
      | O => Diverge
      | Datatypes.S fuel =>
          match task with
          | VerifyBlock block =>
              '(tasks, self, sink) ← verify_block_task self sink block;
              execute_tasks fuel pool_fuel self sink (tasks_queue ++ tasks)
          | VerifyTransaction height tx =>
              '(self, sink) ← verify_transaction_task pool_fuel self sink height tx;
              execute_tasks fuel pool_fuel self sink tasks_queue
          | Stop => Ok (false, self, sink)
          end
      end
  end.

Definition execute_single_task (fuel pool_fuel : nat) (self : Wrapper) (sink : S) (task : VerificationTask) : outcome E (bool * Wrapper * S) :=
  execute_tasks fuel pool_fuel self sink [task].

End verifier.
End SyncVerifier.
