(* ===== verification/SyncVerifierSpec.v ===== *)
(** What verification and insertion do to the storage (SyncVerifier.v, SyncChain.v): the
    database keeps holding a chain, exactly the block is added, and full verification
    accepts only blocks that are valid on the database they are added to. *)
From Stdlib Require Import ZArith Lia Strings.Byte.
From stdpp Require Import base decidable numbers countable gmap list relations.
From S2P Require Import Prelude Opcode Crypto Keys Serialization Codec Chain ChainHash U256 Compact Network Work Storage Deployments Verify Accept.
From S2P Require Import ChainVerifier Kv Db DbSpec LinkedMap HashQueue MemoryPool OrphanPools SyncChain ClientCore SyncVerifier.

Local Open Scope Z_scope.

Module SyncVerifierSpec.
Import Chain ChainHash Network Storage Verify Accept ChainVerifier DbSpec SyncVerifier.

(** A 256-bit hash that is not zero. *)
Definition hash_ok (b : IndexedBlock) : Prop := length (ih_hash (ib_header b)) = 32%nat /\ ih_hash (ib_header b) <> zero_hash.

Section storage.
Context `{BitVec} {T : Type} `{!Kv.KeyValueDatabase T} `{!Kv.KeyValueDatabaseLaws T} `{!HashOrder}.
Context {L : LinkedHashMap bytes IndexedTransaction} `{!LinkedHashMapEdit bytes IndexedTransaction L}.
Abbreviation database := (Db.BlockChainDatabase T).
Abbreviation Chain := (SyncChain.Chain (T := T) (L := L)).

(** The header with this hash is stored. *)
Definition known (s : database) (h : bytes) : Prop := is_Some (header_of (seen s) h).

Lemma contains_known {E} (s : database) h : db_invariant s -> Db.contains_block (E := E) s (Hash h) = Ok (bool_decide (known s h)).
Proof. intros [[hs Hca] _]. by rewrite contains_block_view by apply Hca. Qed.

(** A block whose origin is found, and that is not stored, has a stored parent. *)
Lemma origin_parent_known (s : database) header origin :
  db_invariant s -> Db.block_origin s header = Ok origin -> origin <> KnownBlock -> known s (previous_header_hash (ih_raw header)).
Proof.
  intros Hinv Ho Hne. pose proof Hinv as [[hs [Hok Hb Hc]] _]. unfold Db.block_origin in Ho.
  rewrite block_hash_view, ok_bind in Ho by done. apply bind_Ok in Ho as ([] & Hbest & Ho).
  destruct (bool_decide_reflect (Some (bb_hash (Db.best_block s)) = hash_at (seen s) (bb_number (Db.best_block s)))) as [Hat|]; [|done]. clear Hbest.
  rewrite !contains_known, !ok_bind in Ho by done. case_bool_decide; [congruence|]. case_bool_decide as Hp.
  - rewrite <- Hp. assert (0 <= bb_number (Db.best_block s)) as Hn by (rewrite Hb; cbn; lia).
    rewrite (cc_hash_at _ _ Hc) in Hat by done. symmetry in Hat. destruct (cc_linked _ _ Hc _ _ Hat) as (hd & Hhd & _). by exists hd.
  - apply bind_Ok in Ho as ([] & Hp' & _). by case_bool_decide.
Qed.

(** A block is added to the database, by extending the chain, or a side chain, or by
    switching to a side chain. *)
Lemma insert_best_block_spec (c : Chain) b r c' :
  db_invariant (SyncChain.storage c) -> hash_ok b ->
  SyncChain.insert_best_block c b = Ok (r, c') ->
  db_invariant (SyncChain.storage c') /\
  forall h, known (SyncChain.storage c') h <-> known (SyncChain.storage c) h \/ h = ih_hash (ib_header b).
Proof.
  intros Hinv [Hl Hz] Hi. pose proof Hinv as [[hs Hca] Hroot].
  assert (forall s' : database, (forall h, header_of (seen s') h = inserted_header b (seen (SyncChain.storage c)) h) ->
    forall h, known s' h <-> known (SyncChain.storage c) h \/ h = ih_hash (ib_header b)) as Hknown.
  { intros s' Hh h. unfold known. rewrite Hh. unfold inserted_header. destruct (header_of _ _) as [hd|]; [naive_solver|].
    case_decide; [naive_solver|]. unfold is_Some. naive_solver. }
  unfold SyncChain.insert_best_block in Hi. apply bind_Ok in Hi as (st & _ & Hi). apply bind_Ok in Hi as (u & _ & Hi).
  apply bind_Ok in Hi as (origin & Ho & Hi).
  assert (previous_header_hash (ih_raw (ib_header b)) = zero_hash -> forall h, header_of (seen (SyncChain.storage c)) h = None) as Hgen.
  { intros Hpz h. destruct (origin_parent_known _ _ origin Hinv Ho) as [hd Hhd]; [by intros ->|]. rewrite Hpz in Hhd.
    by apply (cc_width _ _ (ca_contents _ _ Hca)) in Hhd as []. }
  destruct origin as [|n|o|o]; [done|..].
  - unfold SyncChain.insert_to_main in Hi. apply bind_Ok in Hi as (s1 & Hi1 & Hi). apply bind_Ok in Hi as (s2 & Hc2 & Hi).
    apply bind_Ok in Hi as (? & _ & Hi). apply bind_Ok in Hi as ([p v] & _ & Hi). injection Hi as <- <-. cbn.
    destruct (insert_headers _ _ _ (ca_ok _ _ Hca) Hi1) as [Hok1 Hh1]. destruct (canonize_headers _ _ _ Hok1 Hc2) as [_ Hh2]. split.
    + apply (db_invariant_step s1); [by eapply step_canonize|]. apply (db_invariant_step (SyncChain.storage c)); [by eapply step_insert|done].
    + apply Hknown. intros h. by rewrite Hh2, Hh1.
  - unfold SyncChain.insert_to_side in Hi. apply bind_Ok in Hi as (s1 & Hi1 & Hi). injection Hi as <- <-. cbn.
    destruct (insert_headers _ _ _ (ca_ok _ _ Hca) Hi1) as [Hok1 Hh1]. split; [|by apply Hknown].
    apply (db_invariant_step (SyncChain.storage c)); [by eapply step_insert|done].
  - unfold SyncChain.insert_with_reorganization in Hi. apply bind_Ok in Hi as (f & Hf & Hi). apply bind_Ok in Hi as (f1 & Hi1 & Hi).
    apply bind_Ok in Hi as (f2 & Hc2 & Hi). apply bind_Ok in Hi as (s & Hs & Hi). apply bind_Ok in Hi as (? & _ & Hi).
    apply bind_Ok in Hi as ([? ?] & _ & Hi). apply bind_Ok in Hi as (? & _ & Hi). apply bind_Ok in Hi as ([? ?] & _ & Hi).
    injection Hi as <- <-. cbn.
    destruct (reorganize_spec _ hs o f b f1 f2 Hca Hl Hz Hf Hi1 Hc2) as (s' & hs' & Hs' & Hca' & Hh & Hrt).
    rewrite Hs in Hs'. injection Hs' as <-. split; [split; [by eexists|by apply Hrt]|by apply Hknown].
Qed.

(** Inserting a block leaves the best block alone; the chain follows the storage. *)
Lemma insert_best {U : Type} `{!Kv.KeyValueDatabase U} (s s' : Db.BlockChainDatabase U) b : Db.insert s b = Ok s' -> Db.best_block s' = Db.best_block s.
Proof.
  unfold Db.insert. intros Hi. apply bind_Ok in Hi as (known & _ & Hi). destruct known; [by injection Hi as <-|].
  apply bind_Ok in Hi as (parent & _ & Hi). destruct (_ && _); [done|]. apply bind_Ok in Hi as (d & _ & Hi). by injection Hi as <-.
Qed.

Lemma insert_best_block_best (c : Chain) b r c' :
  SyncChain.best_storage_block c = Db.best_block (SyncChain.storage c) -> SyncChain.insert_best_block c b = Ok (r, c') ->
  SyncChain.best_storage_block c' = Db.best_block (SyncChain.storage c').
Proof.
  intros Hb Hi. unfold SyncChain.insert_best_block in Hi. do 3 apply bind_Ok in Hi as (? & _ & Hi).
  destruct x1 as [|n|o|o]; [done|..].
  - unfold SyncChain.insert_to_main in Hi. do 3 apply bind_Ok in Hi as (? & _ & Hi). apply bind_Ok in Hi as ([? ?] & _ & Hi). by injection Hi as <- <-.
  - unfold SyncChain.insert_to_side in Hi. apply bind_Ok in Hi as (s1 & Hs1 & Hi). injection Hi as <- <-. cbn. by rewrite (insert_best _ _ _ Hs1).
  - unfold SyncChain.insert_with_reorganization in Hi. do 5 apply bind_Ok in Hi as (? & _ & Hi). apply bind_Ok in Hi as ([? ?] & _ & Hi).
    apply bind_Ok in Hi as (? & _ & Hi). apply bind_Ok in Hi as ([? ?] & _ & Hi). by injection Hi as <- <-.
Qed.

End storage.

Section verifier.
Context `{Crypto} `{Secp256k1} `{U256} `{BitVec} `{RayonLaws} {T : Type} `{!Kv.KeyValueDatabase T} `{!Kv.KeyValueDatabaseLaws T} `{!HashOrder}.
Context {L : LinkedHashMap bytes IndexedTransaction} `{!LinkedHashMapEdit bytes IndexedTransaction L}.
Abbreviation database := (Db.BlockChainDatabase T).
Abbreviation Chain := (SyncChain.Chain (T := T) (L := L)).
Variable consensus : ConsensusParams.

(** The block is valid on this database: on its chain, or on the side chain that the block
    belongs to. *)
Definition valid_on (s : database) (b : IndexedBlock) : Prop :=
  exists origin store height median_time_past,
    Db.block_origin s (ib_header b) = Ok origin /\ selected (canon_view s) origin store height /\
    valid_block store consensus b height median_time_past.

(** How a database came about: each of the blocks, in this order, was valid on the database
    as it was then, and was inserted into it. *)
Inductive history (start : database) : list IndexedBlock -> database -> Prop :=
  | history_start : history start [] start
  | history_add bs (c c' : Chain) b r :
      history start bs (SyncChain.storage c) -> valid_on (SyncChain.storage c) b ->
      SyncChain.insert_best_block c b = Ok (r, c') -> history start (bs ++ [b]) (SyncChain.storage c').

(** The database is the old one with the valid blocks that it has in addition, all of them
    [from] a given source. *)
Definition grown (from : IndexedBlock -> Prop) (start s : database) : Prop :=
  exists bs, history start bs s /\ Forall from bs /\
    forall h, known s h <-> known start h \/ h ∈ map (fun b => ih_hash (ib_header b)) bs.

Lemma grown_start from (start : database) : grown from start start.
Proof. exists []. split_and!; [constructor|constructor|]. intros h. rewrite elem_of_nil. tauto. Qed.

Lemma grown_add (from : IndexedBlock -> Prop) start (c c' : Chain) b r :
  grown from start (SyncChain.storage c) -> db_invariant (SyncChain.storage c) -> hash_ok b -> from b ->
  valid_on (SyncChain.storage c) b -> SyncChain.insert_best_block c b = Ok (r, c') ->
  grown from start (SyncChain.storage c').
Proof.
  intros (bs & Hh & Hfrom & Hk) Hinv Hb Hf Hv Hi. exists (bs ++ [b]).
  destruct (insert_best_block_spec c b r c' Hinv Hb Hi) as [_ Hk']. split_and!.
  - by eapply history_add.
  - apply Forall_app_2; [done|by constructor].
  - intros h. rewrite Hk', Hk, map_app, elem_of_app. cbn [map]. rewrite list_elem_of_singleton. tauto.
Qed.

Lemma grown_known from (start s : database) h : grown from start s -> known start h -> known s h.
Proof. intros (bs & _ & _ & Hk) Hh. apply Hk. by left. Qed.

(** Full verification, before the edge as well, accepts only valid blocks. *)
Lemma wrapper_verified now v (s : database) b v' :
  verification_level v = Full -> wrapper_verify_block consensus now v s b = (Ok tt, v') ->
  valid_on s b /\ verification_level v' = Full.
Proof.
  intros Hl Hv. unfold wrapper_verify_block in Hv. rewrite Hl in Hv. set (enf := if bool_decide _ then _ else _) in Hv.
  replace (if enf then Full else Full) with Full in Hv by (by destruct enf).
  destruct (verify _ _ _ _ _ _) as [r c] eqn:Hvb. injection Hv as -> <-. split; [|done].
  destruct (verify_block_steps _ _ _ _ _ _ Hvb) as (origin & mtp & st & height & Hpre & Ho & Hsel & acceptor & c0 & Hn & Ha).
  exists origin, st, height, mtp. split_and!; [done..|]. by eapply accepted_valid.
Qed.

(** Verification does not change the level. *)
Lemma wrapper_level now v (s : database) b : verification_level (wrapper_verify_block consensus now v s b).2 = verification_level v.
Proof. unfold wrapper_verify_block. by destruct (verify _ _ _ _ _ _). Qed.

End verifier.
End SyncVerifierSpec.
