(* ===== verification/BlocksWriter.v ===== *)
(** The import of blocks (src/sync/src/blocks_writer.rs, the command import of src/pbtc):
    blocks in any order are verified and inserted one by one; those whose parent is not
    stored yet wait in the pool of orphans.

    The writer and its sink share the storage, which is part of the sink's chain.  The
    error that the sink keeps is taken, and ends the import, right after the verification
    that led to it: here it is the result of the sink, and no state is kept with it. *)
From Stdlib Require Import ZArith Lia Strings.Byte.
From stdpp Require Import base decidable numbers countable gmap list.
From S2P Require Import Prelude Opcode Crypto Keys Serialization Codec Chain ChainHash U256 Compact Network Work Storage Deployments Verify Accept.
From S2P Require Import ChainVerifier Kv Db LinkedMap HashQueue MemoryPool OrphanPools SyncChain ClientCore SyncVerifier.

Local Open Scope Z_scope.

Module BlocksWriter.
Import Chain ChainHash Network Storage Verify Accept ChainVerifier SyncVerifier.

Definition MAX_ORPHANED_BLOCKS : Z := 1024.

(** [Error] of the library. *)
Inductive WriterError :=
  | TooManyOrphanBlocks
  | Database (e : StorageError)
  | Verification (e : Error).

Section writer.
Context `{Crypto} `{Secp256k1} `{U256} `{BitVec} `{Rayon} {T : Type} `{!Kv.KeyValueDatabase T} `{!HashOrder}.
Context {L : LinkedHashMap bytes IndexedTransaction} `{!LinkedHashMapEdit bytes IndexedTransaction L}.
Context {Time : Type} {LU : LinkedHashMap bytes Time} `{!LinkedHashMapEdit bytes Time LU}.

Abbreviation Chain := (SyncChain.Chain (T := T) (L := L)).

(** [BlocksWriterSink]: no transactions are verified. *)
#[export] Instance BlocksWriterSink : VerificationSink T Chain WriterError := {|
  sink_storage := SyncChain.storage;
  sink_memory_pool := SyncChain.memory_pool;
  on_block_verification_success := fun chain block =>
    '(_, chain) ← map_err Database (SyncChain.insert_best_block chain block); Ok ([], chain);
  on_block_verification_error := fun chain err hash => Err (Verification err);
  on_transaction_verification_success := fun chain transaction => Panic;
  on_transaction_verification_error := fun chain err hash => Panic;
|}.

Record BlocksWriter := mkWriter {
  orphaned_blocks_pool : OrphanBlocks.OrphanBlocksPool Time (L := LU);
  verifier : Wrapper;
  sink : Chain;
}.

Definition storage (self : BlocksWriter) : Db.BlockChainDatabase T := SyncChain.storage (sink self).

Definition new (storage : Db.BlockChainDatabase T) (consensus : ConsensusParams) (verification_level : VerificationLevel)
    (verification_edge : bytes) : outcome WriterError BlocksWriter :=
  chain ← SyncChain.new storage consensus MemoryPool.new;
  verifier ← wrapper_new storage verification_level verification_edge;
  Ok (mkWriter OrphanBlocks.new verifier chain).

(** The consensus parameters of the verifier. *)
Variables (consensus : ConsensusParams).

Definition verify_block (current_time : Z) (self : BlocksWriter) (block : IndexedBlock) : outcome WriterError BlocksWriter :=
  '(_, verifier, sink) ← verify_block_task consensus current_time (verifier self) (sink self) block;
  Ok (mkWriter (orphaned_blocks_pool self) verifier sink).

Fixpoint verify_queue (current_time : Z) (self : BlocksWriter) (verification_queue : list IndexedBlock) : outcome WriterError BlocksWriter :=
  match verification_queue with
  | [] => Ok self
  | block :: verification_queue => self ← verify_block current_time self block; verify_queue current_time self verification_queue
  end.

Definition append_block (current_time : Z) (self : BlocksWriter) (block : IndexedBlock) : outcome WriterError BlocksWriter :=
  known ← Db.contains_block (storage self) (Hash (ih_hash (ib_header block)));
  if (known : bool) then Ok self else
  known_parent ← Db.contains_block (storage self) (Hash (previous_header_hash (ih_raw (ib_header block))));
  if negb known_parent then
    let pool := OrphanBlocks.insert_orphaned_block (orphaned_blocks_pool self) block in
    if MAX_ORPHANED_BLOCKS <? OrphanBlocks.len pool then Err TooManyOrphanBlocks
    else Ok (mkWriter pool (verifier self) (sink self))
  else
    '(verification_queue, pool) ← OrphanBlocks.remove_blocks_for_parent (orphaned_blocks_pool self) (ih_hash (ib_header block));
    verify_queue current_time (mkWriter pool (verifier self) (sink self)) (block :: verification_queue).

(** The loop of the command import, which stops at the first error.  Each block comes
    with the time at which it is appended. *)
Fixpoint import (self : BlocksWriter) (blk_dir : list (Z * IndexedBlock)) : outcome WriterError BlocksWriter :=
  match blk_dir with
  | [] => Ok self
  | (current_time, block) :: blk_dir => self ← append_block current_time self block; import self blk_dir
  end.

End writer.

(** [init_db] of src/pbtc/util.rs. *)
Inductive InitError := IncompatibleGenesisBlock.

Definition init_db `{BitVec} {T : Type} `{!Kv.KeyValueDatabase T} (genesis_block : IndexedBlock) (db : Db.BlockChainDatabase T)
    : outcome InitError (Db.BlockChainDatabase T) :=
  let hash := ih_hash (ib_header genesis_block) in
  known ← Db.block_hash db 0;
  match known with
  | Some db_genesis_block_hash => if bool_decide (db_genesis_block_hash = hash) then Ok db else Err IncompatibleGenesisBlock
  | None =>
      match_result (Db.insert db genesis_block) (fun db => match_result (Db.canonize db hash) Ok (fun _ => Panic)) (fun _ => Panic)
  end.

End BlocksWriter.
