(* ===== verification/BlocksWriterSpec.v ===== *)
(** What an import (BlocksWriter.v) leaves in the database: a chain, all of whose new
    blocks are imported ones that were valid on the database they were added to, with
    every imported block stored or waiting for a parent that is not stored. *)
From Stdlib Require Import ZArith Lia Strings.Byte.
From stdpp Require Import base decidable numbers countable gmap list relations.
From S2P Require Import Prelude Opcode Crypto Keys Serialization Codec Chain ChainHash U256 Compact Network Work Storage Deployments Verify Accept.
From S2P Require Import ChainVerifier Kv Db DbSpec DbExamples LinkedMap HashQueue MemoryPool MemoryPoolSpec OrphanPools OrphanSpec SyncChain ClientCore SyncVerifier SyncVerifierSpec BlocksWriter.

Local Open Scope Z_scope.

Module BlocksWriterSpec.
Import Chain ChainHash Network Storage Verify Accept ChainVerifier DbSpec SyncVerifier SyncVerifierSpec BlocksWriter OrphanBlocks OrphanBlocksSpec.

Section writer.
Context `{Crypto} `{Secp256k1} `{U256} `{BitVec} `{RayonLaws} {T : Type} `{!Kv.KeyValueDatabase T} `{!Kv.KeyValueDatabaseLaws T} `{!HashOrder}.
Context {L : LinkedHashMap bytes IndexedTransaction} `{!LinkedHashMapEdit bytes IndexedTransaction L}.
Context {Time : Type} {LU : LinkedHashMap bytes Time} `{!LinkedHashMapLaws LU} `{!LinkedHashMapEdit bytes Time LU} `{!LinkedHashMapEditLaws LU _}.
Abbreviation database := (Db.BlockChainDatabase T).
Abbreviation writer := (BlocksWriter (T := T) (L := L) (LU := LU)).
Variable consensus : ConsensusParams.
Implicit Types (w : writer) (b : IndexedBlock) (h : bytes) (from : IndexedBlock -> Prop).
Abbreviation grown := (grown (T := T) (L := L) consensus).

(** The import so far: [start] is the storage it began with, and the blocks come [from] a
    given source. *)
Record importing from (start : database) w : Prop := {
  im_level : verification_level (verifier w) = Full;
  im_storage : db_invariant (storage w);
  im_grown : grown from start (storage w);
}.

(** The orphans wait for parents that are not stored. *)
Record orphans_wait from w : Prop := {
  ow_wf : wf (orphaned_blocks_pool w);
  ow_parent b : stored (orphaned_blocks_pool w) b -> ~ known (storage w) (block_parent b);
  ow_hash b : stored (orphaned_blocks_pool w) b -> hash_ok b;
  ow_from b : stored (orphaned_blocks_pool w) b -> from b;
}.

Lemma verify_block_spec from start now w b w' :
  importing from start w -> hash_ok b -> from b -> verify_block consensus now w b = Ok w' ->
  importing from start w' /\ (forall h, known (storage w') h <-> known (storage w) h \/ h = block_hash b) /\
  orphaned_blocks_pool w' = orphaned_blocks_pool w.
Proof.
  intros [Hl Hinv Hgrown] Hb Hfrom Hv. unfold verify_block, verify_block_task in Hv.
  destruct (wrapper_verify_block _ _ _ _ _) as [r v'] eqn:Hvb. destruct r as [[]|e| |]; cbn [match_result] in Hv; [|done..].
  apply bind_Ok in Hv as ([[ts v] s'] & Hs & Hv). injection Hv as <-.
  apply bind_Ok in Hs as ([ts' s1] & Hs & Hv). injection Hv as <- <- <-.
  cbn [on_block_verification_success BlocksWriterSink] in Hs. apply bind_Ok in Hs as ([r c1] & Hs & Hv). injection Hv as <- <-.
  destruct (SyncChain.insert_best_block (sink w) b) as [[r' c']|e| |] eqn:Hi; [|done..]. injection Hs as <- <-.
  destruct (insert_best_block_spec (sink w) b r' c' Hinv Hb Hi) as [Hinv' Hk].
  destruct (wrapper_verified consensus now _ _ b v' Hl Hvb) as [Hvd Hl']. split_and!; [|done|done].
  split; [done|done|]. by eapply grown_add.
Qed.

Lemma verify_queue_spec from start now w queue w' :
  importing from start w -> (forall b, b ∈ queue -> hash_ok b /\ from b) -> verify_queue consensus now w queue = Ok w' ->
  importing from start w' /\ (forall x, known (storage w') x <-> known (storage w) x \/ exists b, b ∈ queue /\ block_hash b = x) /\
  orphaned_blocks_pool w' = orphaned_blocks_pool w.
Proof.
  revert w. induction queue as [|b queue IH]; intros w Him Hok Hv; cbn [verify_queue] in Hv.
  { injection Hv as <-. split_and!; [done| |done]. intros x. split; [tauto|]. intros [?|(b & Hb & _)]; [done|by apply not_elem_of_nil in Hb]. }
  apply bind_Ok in Hv as (w1 & Hv1 & Hv).
  destruct (Hok b (list_elem_of_here _ _)) as [Hb Hf].
  destruct (verify_block_spec from start now w b w1 Him Hb Hf Hv1) as (Him1 & Hk1 & Ho1).
  destruct (IH w1 Him1) as (Him' & Hk' & Ho'); [intros c Hc; apply Hok; by right|done|].
  split_and!; [done| |congruence]. intros x. rewrite Hk', Hk1. setoid_rewrite elem_of_cons. naive_solver.
Qed.

(** The block is stored, or waits. *)
Definition accounted w h : Prop := known (storage w) h \/ exists b, stored (orphaned_blocks_pool w) b /\ block_hash b = h.

Lemma stored_new b : ~ stored (OrphanBlocks.new (L := LU)) b.
Proof. intros (m & Hm & _). unfold OrphanBlocks.new in Hm. cbn [orphaned_blocks] in Hm. by rewrite lookup_empty in Hm. Qed.

Lemma append_orphan_spec from start w b :
  importing from start w -> orphans_wait from w -> hash_ok b -> from b -> ~ known (storage w) (block_parent b) ->
  let w' := mkWriter (insert_orphaned_block (orphaned_blocks_pool w) b) (verifier w) (sink w) in
  importing from start w' /\ orphans_wait from w' /\ accounted w' (block_hash b) /\ forall h, accounted w h -> accounted w' h.
Proof.
  intros [Hl Hinv Hgrown] [Hw Hp Hh Hf] Hb Hfrom Hnp w'. pose proof (fun c => stored_insert (orphaned_blocks_pool w) b c Hw) as Hst. split_and!.
  - by split.
  - split; [by apply wf_insert|..]; intros c [->|[Hc _]]%Hst; auto.
  - right. exists b. split; [apply Hst; auto|done].
  - intros h [Hk|(c & Hc & <-)]; [by left|right].
    destruct (decide ((block_parent c, block_hash c) = (block_parent b, block_hash b))) as [He|Hne].
    + exists b. split; [apply Hst; auto|congruence].
    + exists c. split; [apply Hst; auto|done].
Qed.

Lemma append_block_spec from start now w b w' :
  importing from start w -> orphans_wait from w -> hash_ok b -> from b -> append_block consensus now w b = Ok w' ->
  importing from start w' /\ orphans_wait from w' /\ accounted w' (block_hash b) /\ forall h, accounted w h -> accounted w' h.
Proof.
  intros Him How Hb Hfrom Ha. unfold append_block in Ha. rewrite !contains_known in Ha by apply Him. rewrite !ok_bind in Ha.
  case_bool_decide as Hk; [injection Ha as <-; split_and!; [done..|by left|done]|].
  case_bool_decide as Hp; cbn [negb] in Ha.
  2: { destruct (_ <? _); [done|]. injection Ha as <-. by apply append_orphan_spec. }
  destruct How as [Hw Hwp Hwh Hwf].
  destruct (remove_for_parent_spec (E := WriterError) (orphaned_blocks_pool w) (block_hash b) Hw) as (queue & pool & Hr & Hw' & Hq & Hst & _).
  unfold block_hash in Hr at 1. rewrite Hr, ok_bind in Ha.
  destruct (verify_queue_spec from start now (mkWriter pool (verifier w) (sink w)) (b :: queue) w') as (Him' & Hk' & Ho'); [| |done|].
  { destruct Him. by split. }
  { intros c [->|Hc]%elem_of_cons; [done|]. apply Hq, descends_stored in Hc. split; [by apply Hwh|by apply Hwf]. }
  cbn in Ho'. change (storage (mkWriter pool (verifier w) (sink w))) with (storage w) in Hk'. split_and!; [done|..].
  - split; rewrite ?Ho'; [done|..]; intros c [Hc Hnd]%Hst; [|by apply Hwh|by apply Hwf]. intros [Hkn|(d & Hd & He)]%Hk'; [by apply (Hwp c)|].
    apply Hnd. apply elem_of_cons in Hd as [->|Hd]; [by apply descends_child|]. eapply descends_further; [by apply Hq|done|done].
  - left. apply Hk'. right. exists b. split; [apply list_elem_of_here|done].
  - intros h [Hkn|(c & Hc & <-)]; [left; apply Hk'; by left|].
    destruct (decide (block_hash c ∈ map block_hash queue)) as [Hin|Hni].
    + left. apply Hk'. right. apply list_elem_of_fmap in Hin as (d & He & Hd). exists d. split; [by right|done].
    + right. exists c. split; [|done]. rewrite Ho'. apply Hst. split; [done|]. intros Hd%Hq. apply Hni, list_elem_of_fmap. by exists c.
Qed.

Lemma import_spec from start w blocks w' :
  importing from start w -> orphans_wait from w -> Forall (fun p => hash_ok p.2) blocks -> Forall (fun p => from p.2) blocks ->
  import consensus w blocks = Ok w' ->
  importing from start w' /\ orphans_wait from w' /\ (forall now b, (now, b) ∈ blocks -> accounted w' (block_hash b)) /\
  forall h, accounted w h -> accounted w' h.
Proof.
  intros Him How Hok Hfrom Hi. revert w Him How Hi.
  induction blocks as [|[now b] blocks IH]; intros w Him How Hi; cbn [import] in Hi.
  { injection Hi as <-. split_and!; [done..| |done]. by intros ? ? ?%not_elem_of_nil. }
  apply Forall_cons in Hok as [Hb Hok]. apply Forall_cons in Hfrom as [Hf Hfrom].
  apply bind_Ok in Hi as (w1 & Ha & Hi). destruct (append_block_spec from start now w b w1 Him How Hb Hf Ha) as (Him1 & How1 & Hb1 & Hk1).
  destruct (IH Hok Hfrom w1 Him1 How1 Hi) as (Him' & How' & Hall & Hk'). split_and!; [done..| |auto].
  intros n c [[= -> ->]|Hc]%elem_of_cons; [by apply Hk'|by eapply Hall].
Qed.

(** C16: Importing blocks with full verification, in any order, into a database that holds
    a chain leaves one that holds a chain, when the import runs to its end.  The database is
    then the one at the start with some of the imported blocks inserted in turn, each of
    which was valid on the database as it was when it was inserted ([grown]): the work is
    the required one, the header commits to the transactions, no more is minted than the
    reward and the fees, no output is spent twice, every script is satisfied.  Every
    imported block is stored, or waits for a parent that is not stored.  The imported blocks
    have hashes of 32 bytes other than zero. *)
Theorem import_sound (start : database) edge w blocks w' :
  db_invariant start -> Forall (fun p => hash_ok p.2) blocks ->
  BlocksWriter.new start consensus Full edge = Ok w -> import consensus w blocks = Ok w' ->
  (exists hs, canonical (storage w') hs) /\
  grown (fun b => b ∈ map snd blocks) start (storage w') /\
  (forall now b, (now, b) ∈ blocks -> accounted w' (block_hash b)) /\
  (forall b, stored (orphaned_blocks_pool w') b -> ~ known (storage w') (block_parent b)).
Proof.
  intros Hinv Hok Hnew Hi. set (from := fun b => b ∈ map snd blocks).
  assert (importing from start w /\ orphans_wait from w) as [Him How].
  { unfold BlocksWriter.new in Hnew. apply bind_Ok in Hnew as (c & Hc & Hnew). apply bind_Ok in Hnew as (v & Hv & Hnew). injection Hnew as <-.
    unfold SyncChain.new in Hc. do 3 apply bind_Ok in Hc as (? & _ & Hc). injection Hc as <-.
    unfold wrapper_new in Hv. apply bind_Ok in Hv as (? & _ & Hv). injection Hv as <-.
    split; split; try done; [apply grown_start|apply orphans_wf_new|intros b Hb; by apply stored_new in Hb..]. }
  assert (Forall (fun p => from p.2) blocks) as Hall.
  { apply Forall_forall. intros p Hp. apply list_elem_of_fmap. by exists p. }
  destruct (import_spec from start w blocks w' Him How Hok Hall Hi) as ([_ Hinv' Hg] & [_ Hp' _ _] & Hacc & _).
  split_and!; [apply Hinv'|done..].
Qed.

End writer.

(** An empty database gets the genesis block. *)
Lemma init_db_spec `{BitVec} {T : Type} `{!Kv.KeyValueDatabase T} `{!Kv.KeyValueDatabaseLaws T} (d : T) genesis s :
  Kv.kv_ok d -> (forall k, Kv.view d k = None) -> hash_ok genesis ->
  init_db genesis (Db.mkDb Db.best_block_default d) = Ok s -> db_invariant s /\ known s (block_hash genesis).
Proof.
  intros Hok Hnone [Hl Hz] Hi. pose proof (empty_invariant d Hok Hnone) as Hinv. unfold init_db in Hi.
  rewrite block_hash_view, ok_bind in Hi by done. unfold hash_at in Hi. cbn [Db.db] in Hi. rewrite Hnone in Hi. cbn [mbind option_bind] in Hi.
  destruct (Db.insert _ genesis) as [s1|e| |] eqn:Hi1; cbn [match_result] in Hi; [|done..].
  destruct (Db.canonize s1 _) as [s2|e| |] eqn:Hc; cbn [match_result] in Hi; [|done..]. injection Hi as <-.
  destruct (insert_headers (Db.mkDb Db.best_block_default d) _ _ Hok Hi1) as [Hok1 Hh1]. destruct (canonize_headers _ _ _ Hok1 Hc) as [_ Hh2]. split.
  - apply (db_invariant_step s1); [by eapply step_canonize|]. eapply db_invariant_step; [eapply step_insert; [done|done| |done]|done].
    intros _ h. unfold header_of. cbn. by rewrite Hnone.
  - unfold known. rewrite Hh2, Hh1. unfold inserted_header. destruct (header_of _ _); [by eexists|]. rewrite decide_True by done. by eexists.
Qed.

(** * An import *)

(** Two blocks, the second one first. *)
Module ExampleImport.
Import Kv ChainVerifierExamples DbExamples ExampleCrypto Keys.ExampleKeys ExampleU256 ExampleBits ExampleRayon ExampleLinked.
#[local] Existing Instances MemoryPoolSpec.ExamplePool.elements_order.

Definition genesis_block : IndexedBlock := mkIndexedBlock ChainVerifierExamples.genesis [].
Definition third_coinbase : IndexedTransaction :=
  mkIndexedTx (le_bytes 32 77) (mkTx 1 [coinbase_input [x52; x52]] [mkOutput 5000000000 [x51]] 0).
Definition third_block : IndexedBlock :=
  mkIndexedBlock (mkIndexedHeader (le_bytes 32 3) (mkHeader 1 (le_bytes 32 2) (itx_hash third_coinbase) 3000 easy_bits 0)) [third_coinbase].
Definition start : database := unwrap DbExamples.empty (init_db genesis_block DbExamples.empty).
Abbreviation example_writer := (BlocksWriter (T := MemoryDatabase) (L := example_linked IndexedTransaction) (LU := example_linked Z)).
Definition example_new : outcome WriterError example_writer := BlocksWriter.new start consensus Full zero_hash.
Definition blocks : list (Z * IndexedBlock) := [(4000, third_block); (4001, second_block)].
Definition imported : outcome WriterError example_writer := w ← example_new; import consensus w blocks.

Lemma start_invariant : db_invariant start.
Proof.
  apply (init_db_spec memory_default genesis_block start (memory_ok _) memory_empty); [done|]. apply ok_unwrap. vm_compute. reflexivity.
Qed.

Lemma import_sound_witness :
  exists w w', example_new = Ok w /\ import consensus w blocks = Ok w' /\ bb_number (Db.best_block (storage w')) = 2 /\
    grown (T := MemoryDatabase) (L := example_linked IndexedTransaction) consensus (fun b => b ∈ [third_block; second_block])
      start (storage w').
Proof.
  assert (match imported with Ok w => bb_number (Db.best_block (storage w)) | _ => 0 end = 2) as Hb by (vm_compute; reflexivity).
  unfold imported in Hb. destruct example_new as [w| | |] eqn:Hn; [|discriminate Hb..]. rewrite ok_bind in Hb.
  destruct (import consensus w blocks) as [w'| | |] eqn:Hi; [|discriminate Hb..]. exists w, w'. split_and!; [done..|].
  exact (proj1 (proj2 (import_sound consensus start zero_hash w blocks w' start_invariant
    ltac:(by repeat constructor) Hn Hi))).
Defined.

End ExampleImport.
End BlocksWriterSpec.
