(* ===== verification/SyncNode.v ===== *)
(** The synchronizing node (src/sync/src: synchronization_client.rs, the verification sink
    of synchronization_client_core.rs, [create_local_sync_node] of lib.rs): the client, the
    thread that verifies and the thread that manages, which share the client's core.

    Every handler holds the lock of the core from its beginning to its end, so the steps
    of the node are the handlers, whole, in any order ([node_step]).  The verification
    thread takes its tasks one by one from the channel; the tasks that the core adds when
    a block is inserted come first. *)
From Stdlib Require Import ZArith Lia Strings.Byte.
From stdpp Require Import base decidable numbers countable gmap list relations.
From S2P Require Import Prelude Opcode Crypto Keys Serialization Codec Chain ChainHash U256 Compact Network Work Storage Deployments Verify Accept.
From S2P Require Import ChainVerifier Kv Db LinkedMap HashQueue Message MemoryPool OrphanPools SyncChain Float64 PeersTasks ClientCore SyncManager SyncVerifier.

Local Open Scope Z_scope.

Module SyncNode.
Import SyncTask Chain ChainHash Network Storage F64 Verify Accept ChainVerifier SyncVerifier ClientCore.

Section node.
Context `{Crypto} `{Secp256k1} `{U256} `{BitVec} `{Rayon} {T : Type} `{!Kv.KeyValueDatabase T} `{!HashOrder} `{!HashOrderOf Z}.
Context {L : LinkedHashMap bytes IndexedTransaction} `{!LinkedHashMapEdit bytes IndexedTransaction L}.
Context {LU : LinkedHashMap bytes f64} `{!LinkedHashMapEdit bytes f64 LU}.
Context {LO : LinkedHashMap bytes (OrphanTransactions.OrphanTransaction f64)}.
Context `{!LinkedHashMapEdit bytes (OrphanTransactions.OrphanTransaction f64) LO}.
Context {LH : LinkedHashMap Z PeersTasks.HeadersRequest} `{!LinkedHashMapEdit Z PeersTasks.HeadersRequest LH}.
Context {LB : LinkedHashMap Z PeersTasks.BlocksRequest} `{!LinkedHashMapEdit Z PeersTasks.BlocksRequest LB}.
Context {Future Sink E : Type}.
Variables (consensus : ConsensusParams).

Abbreviation Core := (Core (T := T) (L := L) (LU := LU) (LO := LO) (LH := LH) (LB := LB) (Future := Future) (Sink := Sink)).
Abbreviation core_result := (core_result (T := T) (L := L) (LU := LU) (LO := LO) (LH := LH) (LB := LB) (Future := Future) (Sink := Sink) (E := E)).

(** [CoreVerificationSink], at a time. *)
Definition CoreVerificationSink (now : f64) : VerificationSink T Core E := {|
  sink_storage := fun c => SyncChain.storage (chain c);
  sink_memory_pool := fun c => SyncChain.memory_pool (chain c);
  SyncVerifier.on_block_verification_success := fun c block => on_block_verification_success now block c;
  SyncVerifier.on_block_verification_error := fun c err hash => '(_, c) ← on_block_verification_error now hash c; Ok c;
  SyncVerifier.on_transaction_verification_success := fun c tx => '(_, c) ← on_transaction_verification_success tx c; Ok c;
  SyncVerifier.on_transaction_verification_error := fun c err hash => '(_, c) ← on_transaction_verification_error hash c; Ok c;
|}.

(** The core, the verifier of the verification thread, the tasks it has still to do for
    the current one, and the channel. *)
Record Node := mkNode {
  core : Core;
  verifier : Wrapper;
  subtasks : list VerificationTask;
  channel : list VerificationTask;
}.

(** [create_local_sync_node]: the memory pool of the regression test network takes
    transactions without a fee, and its peers may send bad blocks. *)
Definition new (db : Db.BlockChainDatabase T) (verification_level : VerificationLevel) (verification_edge : bytes) : outcome E Node :=
  let regtest := bool_decide (network consensus = Regtest) in
  let memory_pool := if regtest then MemoryPool.accept_zero_fee_transactions MemoryPool.new else MemoryPool.new in
  chain ← SyncChain.new db consensus memory_pool;
  core ← ClientCore.new (negb regtest) (ClientCore.with_storage db) chain;
  verifier ← wrapper_new db verification_level verification_edge;
  Ok (mkNode core verifier [] []).

(** * The client's operations *)

(** A handler of the core, and nothing to verify. *)
Definition on_core {A} (m : core_result A) (n : Node) : outcome E Node :=
  '(_, c) ← m (core n); Ok (mkNode c (verifier n) (subtasks n) (channel n)).

Definition send (tasks : list VerificationTask) (c : Core) (n : Node) : Node := mkNode c (verifier n) (subtasks n) (channel n ++ tasks).

(** [on_block], while the verification lock is held. *)
Definition client_on_block (now : f64) (peer_index : Z) (block : IndexedBlock) (n : Node) : outcome E Node :=
  '(blocks_to_verify, c) ← on_block now peer_index block (core n);
  Ok (match blocks_to_verify with Some blocks => send (map VerifyBlock blocks) c n | None => send [] c n end).

(** The end of [on_block]. *)
Definition after_block (now : f64) : core_result unit :=
  saturated ← try_switch_to_saturated_state;
  if (saturated : bool) then mret tt else execute_synchronization_tasks now None None.

Definition send_transactions (txs : list IndexedTransaction) (c : Core) (n : Node) : outcome E Node :=
  next_block_height ← ucheck 32 (best_storage_block_height (shared_state c) + 1);
  Ok (send (map (VerifyTransaction next_block_height) txs) c n).

Definition client_on_transaction (now : f64) (transaction : IndexedTransaction) (n : Node) : outcome E Node :=
  '(transactions_to_verify, c) ← on_transaction now transaction (core n);
  match transactions_to_verify with
  | Some txs => send_transactions txs c n
  | None => Ok (send [] c n)
  end.

Definition client_accept_transaction (transaction : IndexedTransaction) (sink : Sink) (n : Node)
    : outcome E (option AppendTransactionError * Node) :=
  '(r, c) ← accept_transaction transaction sink (core n);
  match r with
  | inr txs => n ← send_transactions txs c n; Ok (None, n)
  | inl err => Ok (Some err, send [] c n)
  end.

(** * The verification thread *)

(** One task.  [fuel] bounds the descendants that are looked at in the memory pool. *)
Definition worker_task (now : f64) (current_time : Z) (fuel : nat) (task : VerificationTask) (v : Wrapper) (c : Core)
    : outcome E (list VerificationTask * Wrapper * Core) :=
  match task with
  | VerifyBlock block => verify_block_task (VerificationSink0 := CoreVerificationSink now) consensus current_time v c block
  | VerifyTransaction height tx =>
      '(v, c) ← verify_transaction_task (VerificationSink0 := CoreVerificationSink now) consensus current_time fuel v c height tx;
      Ok ([], v, c)
  | Stop => Ok ([], v, c)
  end.

(** The next task: one of the current task, or a new one from the channel. *)
Definition worker_step (now : f64) (current_time : Z) (fuel : nat) (n : Node) : outcome E Node :=
  match subtasks n, channel n with
  | task :: tasks, channel =>
      '(more, v, c) ← worker_task now current_time fuel task (verifier n) (core n);
      Ok (mkNode c v (tasks ++ more) channel)
  | [], task :: channel =>
      '(more, v, c) ← worker_task now current_time fuel task (verifier n) (core n);
      Ok (mkNode c v more channel)
  | [], [] => Ok n
  end.

(** * Steps *)

Definition next_task (n : Node) : option VerificationTask := head (subtasks n ++ channel n).

(** Hashes are 256 bits wide, and no block hashes to zero. *)
Definition hashes_ok (task : option VerificationTask) : Prop :=
  match task with
  | Some (VerifyBlock b) => length (ih_hash (ib_header b)) = 32%nat /\ ih_hash (ib_header b) <> zero_hash
  | _ => True
  end.

(** The blocks that peers can send. *)
Variable received : IndexedBlock -> Prop.

Inductive node_step : Node -> Node -> Prop :=
  | step_connect now p n n' : on_core (on_connect now p) n = Ok n' -> node_step n n'
  | step_disconnect now p n n' : on_core (on_disconnect now p) n = Ok n' -> node_step n n'
  | step_inventory p inv n n' : on_core (on_inventory p inv) n = Ok n' -> node_step n n'
  | step_headers now t p hs n n' : on_core (on_headers consensus now t p hs) n = Ok n' -> node_step n n'
  | step_block now p b n n' : received b -> client_on_block now p b n = Ok n' -> node_step n n'
  | step_after_block now n n' : on_core (after_block now) n = Ok n' -> node_step n n'
  | step_transaction now tx n n' : client_on_transaction now tx n = Ok n' -> node_step n n'
  | step_accept tx sink n r n' : client_accept_transaction tx sink n = Ok (r, n') -> node_step n n'
  | step_notfound now p inv n n' : on_core (on_notfound now p inv) n = Ok n' -> node_step n n'
  | step_after_peer p f n n' : on_core (after_peer_nearly_blocks_verified p f) n = Ok n' -> node_step n n'
  | step_listener n n' : on_core install_sync_listener n = Ok n' -> node_step n n'
  | step_manage now n n' : on_core (SyncManager.manage now) n = Ok n' -> node_step n n'
  | step_worker now t fuel n n' :
      hashes_ok (next_task n) ->
      worker_step now t fuel n = Ok n' -> node_step n n'.

End node.
End SyncNode.
