(* ===== verification/SyncNodeSpec.v ===== *)
(** The safety of the synchronizing node (SyncNode.v): whatever peers send and in whatever
    order the threads run, the storage holds a chain all of whose new blocks are valid,
    and the state the other components read agrees with it. *)
From Stdlib Require Import ZArith Lia Strings.Byte.
From stdpp Require Import base decidable numbers countable gmap list relations.
From S2P Require Import Prelude Opcode Crypto Keys Serialization Codec Chain ChainHash U256 Compact Network Work Storage Deployments Verify Accept.
From S2P Require Import ChainVerifier Kv Db DbSpec LinkedMap HashQueue Message MemoryPool OrphanPools SyncChain Float64 PeersTasks ClientCore SyncManager SyncVerifier SyncVerifierSpec SyncNode.
From S2P Require Import DbExamples MemoryPoolSpec OrphanSpec BlocksWriter BlocksWriterSpec.

Local Open Scope Z_scope.

Create HintDb keeps.

Module SyncNodeSpec.
Import SyncTask Chain ChainHash Network Storage F64 Verify Accept ChainVerifier DbSpec SyncVerifier SyncVerifierSpec ClientCore SyncNode.

(** * Chains with the same storage *)

Section chains.
Context `{BitVec} {T : Type} `{!Kv.KeyValueDatabase T} `{!HashOrder}.
Context {L : LinkedHashMap bytes IndexedTransaction} `{!LinkedHashMapEdit bytes IndexedTransaction L}.
Abbreviation Chain := (SyncChain.Chain (T := T) (L := L)).
Implicit Types (ch : Chain).

(** The storage, the best block and the memory pool are the same. *)
Definition same_storage ch ch' : Prop :=
  SyncChain.storage ch' = SyncChain.storage ch /\ SyncChain.best_storage_block ch' = SyncChain.best_storage_block ch /\
  SyncChain.memory_pool ch' = SyncChain.memory_pool ch.

#[export] Instance same_storage_preorder : PreOrder same_storage.
Proof. split; [done|]. intros ch1 ch2 ch3 (? & ? & ?) (? & ? & ?). split_and!; congruence. Qed.

Lemma with_queues_same ch q hs : same_storage ch (SyncChain.with_queues ch q hs).
Proof. done. Qed.

Ltac same := repeat match goal with
  | H : _ ≫= _ = Ok _ |- _ => apply bind_Ok in H as (? & ? & ?)
  | H : (let '(_, _) := ?p in _) = Ok _ |- _ => destruct p
  | H : Ok _ = Ok _ |- _ => injection H as ?; subst
  | H : match ?p with _ => _ end = Ok _ |- _ => destruct p eqn:?
  end; try done.

Lemma schedule_same {E} ch hs ch' : SyncChain.schedule_blocks_headers (E := E) ch hs = Ok ch' -> same_storage ch ch'.
Proof. unfold SyncChain.schedule_blocks_headers. intros. same. Qed.

Lemma request_same {E} ch n hs ch' : SyncChain.request_blocks_hashes (E := E) ch n = Ok (hs, ch') -> same_storage ch ch'.
Proof. unfold SyncChain.request_blocks_hashes. intros. same. Qed.

Lemma verify_same {E} ch hs ch' : SyncChain.verify_blocks (E := E) ch hs = Ok ch' -> same_storage ch ch'.
Proof.
  revert ch. induction hs as [|h hs IH]; intros ch; cbn [SyncChain.verify_blocks]; [by intros [= <-]|].
  intros Hv. apply bind_Ok in Hv as (ch1 & Hs1 & Hv). transitivity ch1; [|by apply IH]. unfold SyncChain.verify_block in Hs1. same.
Qed.

Lemma forget_state_same {E} ch h st r ch' : SyncChain.forget_block_with_state_leave_header (E := E) ch h st = Ok (r, ch') -> same_storage ch ch'.
Proof. unfold SyncChain.forget_block_with_state_leave_header. intros. same. Qed.

Lemma forget_leave_same {E} ch h r ch' : SyncChain.forget_block_leave_header (E := E) ch h = Ok (r, ch') -> same_storage ch ch'.
Proof. unfold SyncChain.forget_block_leave_header. intros. same. Qed.

Lemma forget_same {E} ch h r ch' : SyncChain.forget_block (E := E) ch h = Ok (r, ch') -> same_storage ch ch'.
Proof. unfold SyncChain.forget_block. intros Hf. apply bind_Ok in Hf as (hs & _ & Hf). by apply forget_leave_same in Hf. Qed.

Lemma forget_blocks_same {E} ch hs ch' : SyncChain.forget_blocks (E := E) ch hs = Ok ch' -> same_storage ch ch'.
Proof.
  revert ch. induction hs as [|h hs IH]; intros ch; cbn [SyncChain.forget_blocks]; [by intros [= <-]|].
  intros Hf. apply bind_Ok in Hf as ([r ch1] & Hs1 & Hf). transitivity ch1; [by eapply forget_same|by apply IH].
Qed.

Lemma forget_blocks_leave_same {E} ch hs ch' : SyncChain.forget_blocks_leave_header (E := E) ch hs = Ok ch' -> same_storage ch ch'.
Proof.
  revert ch. induction hs as [|h hs IH]; intros ch; cbn [SyncChain.forget_blocks_leave_header]; [by intros [= <-]|].
  intros Hf. apply bind_Ok in Hf as ([r ch1] & Hs1 & Hf). transitivity ch1; [by eapply forget_leave_same|by apply IH].
Qed.

Lemma forget_children_same {E} ch h ch' : SyncChain.forget_block_with_children (E := E) ch h = Ok ch' -> same_storage ch ch'.
Proof. unfold SyncChain.forget_block_with_children. intros Hf. apply bind_Ok in Hf as (st & _ & Hf). by apply forget_blocks_same in Hf. Qed.

Lemma forget_all_same {E} ch st ch' : SyncChain.forget_all_blocks_with_state (E := E) ch st = Ok ch' -> same_storage ch ch'.
Proof. unfold SyncChain.forget_all_blocks_with_state. intros. same. Qed.

Lemma forget_transaction_same {E} ch h ch' : SyncChain.forget_verifying_transaction_with_children (E := E) ch h = Ok ch' -> same_storage ch ch'.
Proof. unfold SyncChain.forget_verifying_transaction_with_children. intros. same. Qed.

End chains.
#[export] Hint Resolve schedule_same request_same verify_same forget_state_same forget_leave_same forget_same forget_blocks_same : keeps.
#[export] Hint Resolve forget_blocks_leave_same forget_children_same forget_all_same forget_transaction_same : keeps.

(** * Handlers that leave the storage alone *)

Section frames.
Context `{U256} `{BitVec} {T : Type} `{!Kv.KeyValueDatabase T} `{!HashOrder} `{!HashOrderOf Z}.
Context {L : LinkedHashMap bytes IndexedTransaction} `{!LinkedHashMapEdit bytes IndexedTransaction L}.
Context {LU : LinkedHashMap bytes f64} `{!LinkedHashMapEdit bytes f64 LU}.
Context {LO : LinkedHashMap bytes (OrphanTransactions.OrphanTransaction f64)}.
Context `{!LinkedHashMapEdit bytes (OrphanTransactions.OrphanTransaction f64) LO}.
Context {LH : LinkedHashMap Z PeersTasks.HeadersRequest} `{!LinkedHashMapEdit Z PeersTasks.HeadersRequest LH}.
Context {LB : LinkedHashMap Z PeersTasks.BlocksRequest} `{!LinkedHashMapEdit Z PeersTasks.BlocksRequest LB}.
Context {Future Sink E : Type}.
Abbreviation Core := (Core (T := T) (L := L) (LU := LU) (LO := LO) (LH := LH) (LB := LB) (Future := Future) (Sink := Sink)).
Abbreviation core_result := (core_result (T := T) (L := L) (LU := LU) (LO := LO) (LH := LH) (LB := LB) (Future := Future) (Sink := Sink) (E := E)).
Implicit Types (c : Core).
Variable received : IndexedBlock -> Prop.
Abbreviation orphans_received := (OrphanBlocksSpec.all_blocks received).

(** The flag that others read says whether the client synchronizes. *)
Definition flag_ok c : Prop := shared_synchronizing (shared_state c) = is_synchronizing (state c).

Record frame c c' : Prop := {
  fr_chain : same_storage (chain c) (chain c');
  fr_height : best_storage_block_height (shared_state c') = best_storage_block_height (shared_state c);
  fr_flag : flag_ok c -> flag_ok c';
  fr_orphans : orphans_received (orphaned_blocks_pool c) -> orphans_received (orphaned_blocks_pool c');
}.

#[export] Instance frame_preorder : PreOrder frame.
Proof.
  split; [done|]. intros c1 c2 c3 [A1 B1 C1 D1] [A2 B2 C2 D2]. split; [by transitivity (chain c2)|congruence|auto|auto].
Qed.

(** Every result of the step is related to the state before it. *)
Definition Keeps {A} (m : core_result A) : Prop := forall c a c', m c = Ok (a, c') -> frame c c'.

Lemma keeps_bind {A B} (m : core_result A) (f : A -> core_result B) : Keeps m -> (forall a, Keeps (f a)) -> Keeps (m ≫= f).
Proof.
  intros Hm Hf c b c'. unfold mbind, core_bind. intros Hb. apply bind_Ok in Hb as ([a c1] & Ha & Hb).
  transitivity c1; [by eapply Hm|by eapply Hf].
Qed.

Lemma keeps_ret {A} (a : A) : Keeps (mret a).
Proof. by intros c b c' [= <- <-]. Qed.

Lemma keeps_lift {A} (m : outcome E A) : Keeps (lift m).
Proof. intros c a c' Hl. apply bind_Ok in Hl as (? & _ & Hl). by injection Hl as <- <-. Qed.

Lemma keeps_asks {A} (f : Core -> A) : Keeps (asks f).
Proof. by intros c a c' [= <- <-]. Qed.

Lemma keeps_read {A} (f : SyncChain.Chain -> outcome E A) : Keeps (read_chain f).
Proof. intros c a c' Hl. apply bind_Ok in Hl as (? & _ & Hl). by injection Hl as <- <-. Qed.

Lemma keeps_modify (f : Core -> Core) : (forall c, frame c (f c)) -> Keeps (modify f).
Proof. intros Hf c a c' [= <- <-]. apply Hf. Qed.

Lemma keeps_emit e : Keeps (emit e).
Proof. by apply keeps_modify. Qed.

Lemma keeps_on_tasks f : Keeps (on_tasks f).
Proof. intros c a c' Hl. apply bind_Ok in Hl as (? & _ & Hl). by injection Hl as <- <-. Qed.

Lemma keeps_on_chain {A} (f : SyncChain.Chain -> outcome E (A * SyncChain.Chain)) :
  (forall ch a ch', f ch = Ok (a, ch') -> same_storage ch ch') -> Keeps (on_chain f).
Proof. intros Hf c a c' Hl. apply bind_Ok in Hl as ([x ch] & Hx & Hl). injection Hl as <- <-. split; [by eapply Hf|done..]. Qed.

Lemma keeps_change_chain (f : SyncChain.Chain -> outcome E SyncChain.Chain) :
  (forall ch ch', f ch = Ok ch' -> same_storage ch ch') -> Keeps (change_chain f).
Proof. intros Hf c a c' Hl. apply bind_Ok in Hl as (ch & Hx & Hl). injection Hl as <- <-. split; [by eapply Hf|done..]. Qed.

(** The pool of orphaned blocks loses blocks. *)
Lemma keeps_pool {A} (f : OrphanBlocks.OrphanBlocksPool f64 (L := LU) -> outcome E (A * OrphanBlocks.OrphanBlocksPool f64 (L := LU))) :
  (forall pool a pool', f pool = Ok (a, pool') -> orphans_received pool -> orphans_received pool') ->
  Keeps (step (fun c => '(a, pool) ← f (orphaned_blocks_pool c); Ok (a, set_blocks_pool pool c))).
Proof.
  intros Hf c a c' Hl. apply bind_Ok in Hl as ([x pool] & Hx & Hl). injection Hl as <- <-. split; [done..|]. by eapply Hf.
Qed.

Lemma keeps_when b m : Keeps m -> Keeps (when b m).
Proof. destruct b; [done|]. intros _. apply keeps_ret. Qed.

Lemma keeps_for_each {A} (l : list A) f : (forall x, Keeps (f x)) -> Keeps (for_each l f).
Proof. intros Hf. induction l as [|x l IH]; [apply keeps_ret|]. by apply keeps_bind. Qed.

End frames.

(** A step that is written out: a computation, and a change of other fields. *)
Ltac keeps_raw :=
  let c0 := fresh "c" in let a0 := fresh "a" in let c1 := fresh "c" in let Hl := fresh "Hl" in
  intros c0 a0 c1 Hl; unfold step in Hl; repeat match type of Hl with
  | _ ≫= _ = Ok _ => let x := fresh in apply bind_Ok in Hl as (x & _ & Hl)
  | (let '(_, _) := ?p in _) = Ok _ => destruct p
  | match ?p with _ => _ end = Ok _ => destruct p
  end; by injection Hl as <- <-.

Ltac keeps := repeat first
  [ progress intros | assumption
  | match goal with
    | |- Keeps _ (_ ≫= _) => apply keeps_bind
    | |- Keeps _ (mret _) => apply keeps_ret
    | |- Keeps _ (lift _) => apply keeps_lift
    | |- Keeps _ (asks _) => apply keeps_asks
    | |- Keeps _ (read_chain _) => apply keeps_read
    | |- Keeps _ (emit _) => apply keeps_emit
    | |- Keeps _ (on_tasks _) => apply keeps_on_tasks
    | |- Keeps _ (when _ _) => apply keeps_when
    | |- Keeps _ (for_each _ _) => apply keeps_for_each
    | |- Keeps _ (on_chain _) => apply keeps_on_chain; intros ? ? ? ?; solve [eauto with keeps | done]
    | |- Keeps _ (change_chain _) => apply keeps_change_chain; intros ? ? ?; solve [eauto with keeps]
    | |- Keeps _ (modify _) => apply keeps_modify; done
    | |- Keeps _ (step _) => first
        [ apply keeps_pool; intros ? ? ? ? ?; solve [eauto using OrphanBlocksSpec.all_remove_known with keeps]
        | keeps_raw ]
    | |- Keeps _ (match ?x with _ => _ end) => destruct x
    end
  | solve [eauto with keeps] ].

Section handlers.
Context `{U256} `{BitVec} {T : Type} `{!Kv.KeyValueDatabase T} `{!HashOrder} `{!HashOrderOf Z}.
Context {L : LinkedHashMap bytes IndexedTransaction} `{!LinkedHashMapEdit bytes IndexedTransaction L}.
Context {LU : LinkedHashMap bytes f64} `{!LinkedHashMapEdit bytes f64 LU}.
Context {LO : LinkedHashMap bytes (OrphanTransactions.OrphanTransaction f64)}.
Context `{!LinkedHashMapEdit bytes (OrphanTransactions.OrphanTransaction f64) LO}.
Context {LH : LinkedHashMap Z PeersTasks.HeadersRequest} `{!LinkedHashMapEdit Z PeersTasks.HeadersRequest LH}.
Context {LB : LinkedHashMap Z PeersTasks.BlocksRequest} `{!LinkedHashMapEdit Z PeersTasks.BlocksRequest LB}.
Context {Future Sink E : Type}.
Abbreviation Core := (Core (T := T) (L := L) (LU := LU) (LO := LO) (LH := LH) (LB := LB) (Future := Future) (Sink := Sink)).
Abbreviation core_result := (core_result (T := T) (L := L) (LU := LU) (LO := LO) (LH := LH) (LB := LB) (Future := Future) (Sink := Sink) (E := E)).
Variable received : IndexedBlock -> Prop.
Abbreviation keeps m := (Keeps received (T := T) (L := L) (LU := LU) (LO := LO) (LH := LH) (LB := LB) (Future := Future) (Sink := Sink) (E := E) m).
Implicit Types (c : Core).

Variables (consensus : ConsensusParams) (now : f64) (current_time : Z).

Lemma keeps_print : keeps (print_synchronization_information now).
Proof.
  intros c a c'. unfold print_synchronization_information. destruct (state c) as [t n| |] eqn:Hst; [|by intros [= <- <-]..].
  destruct (_ || _); intros [= <- <-]; [|done]. split; [done|done| |done]. unfold flag_ok. cbn. by rewrite Hst.
Qed.
Hint Resolve keeps_print : keeps.

Lemma keeps_notify b : keeps (notify_state b).
Proof. unfold notify_state. keeps. Qed.
Hint Resolve keeps_notify : keeps.

Lemma keeps_saturated : keeps switch_to_saturated_state.
Proof. unfold switch_to_saturated_state. keeps. Qed.
Hint Resolve keeps_saturated : keeps.

Lemma keeps_nearly : keeps switch_to_nearly_saturated_state.
Proof. unfold switch_to_nearly_saturated_state. keeps. Qed.
Hint Resolve keeps_nearly : keeps.

Lemma keeps_synchronization : keeps (switch_to_synchronization_state now).
Proof. unfold switch_to_synchronization_state. keeps. Qed.
Hint Resolve keeps_synchronization : keeps.

Lemma keeps_try_saturated : keeps try_switch_to_saturated_state.
Proof. unfold try_switch_to_saturated_state. keeps. Qed.
Hint Resolve keeps_try_saturated : keeps.

Lemma keeps_request_loop t n l i peers hs : keeps (request_loop now t n l i peers hs).
Proof. revert i hs. induction peers as [|p peers IH]; intros i hs; cbn [request_loop]; keeps. Qed.
Hint Resolve keeps_request_loop : keeps.

Lemma keeps_prepare l peers hs : keeps (prepare_blocks_requests_tasks now l peers hs).
Proof. unfold prepare_blocks_requests_tasks. keeps. Qed.
Hint Resolve keeps_prepare : keeps.

Lemma keeps_duplicate r v : keeps (duplicate_requests now r v).
Proof. unfold duplicate_requests. keeps. Qed.
Hint Resolve keeps_duplicate : keeps.

Lemma keeps_headers_requests : keeps (headers_requests_tasks now).
Proof. unfold headers_requests_tasks. keeps. Qed.
Hint Resolve keeps_headers_requests : keeps.

Lemma keeps_requests_hashes l n v : keeps (blocks_requests_hashes now l n v).
Proof. unfold blocks_requests_hashes. keeps. Qed.
Hint Resolve keeps_requests_hashes : keeps.

Lemma keeps_forced l hs : keeps (forced_requests_tasks now l hs).
Proof. unfold forced_requests_tasks. keeps. Qed.
Lemma keeps_final l hs : keeps (final_requests_tasks now l hs).
Proof. unfold final_requests_tasks. keeps. Qed.
Hint Resolve keeps_forced keeps_final : keeps.

Lemma keeps_execute forced final : keeps (execute_synchronization_tasks now forced final).
Proof. unfold execute_synchronization_tasks. keeps. Qed.
Hint Resolve keeps_execute : keeps.

(** ** Handlers *)

Lemma keeps_connect p : keeps (on_connect now p).
Proof. unfold on_connect. keeps. Qed.

Lemma keeps_reset p : keeps (reset_blocks_tasks p).
Proof. unfold reset_blocks_tasks. intros c a c'. destruct (PeersTasks.reset_blocks_tasks _ _). by intros [= <- <-]. Qed.
Hint Resolve keeps_reset : keeps.

Lemma keeps_disconnect p : keeps (on_disconnect now p).
Proof. unfold on_disconnect. keeps. Qed.

Lemma keeps_unknown_item p i : keeps (is_unknown_item p i).
Proof. unfold is_unknown_item. keeps. Qed.
Hint Resolve keeps_unknown_item : keeps.

Lemma keeps_unknown_inventory p l : keeps (unknown_inventory p l).
Proof. induction l; cbn [unknown_inventory]; keeps. Qed.
Hint Resolve keeps_unknown_inventory : keeps.

Lemma keeps_inventory p l : keeps (on_inventory p l).
Proof. unfold on_inventory. keeps. Qed.

Lemma keeps_headers_loop p h pr i hs : keeps (verify_headers_loop consensus current_time p h pr i hs).
Proof. revert h pr i. induction hs; intros h pr i; cbn [verify_headers_loop]; keeps. Qed.
Hint Resolve keeps_headers_loop : keeps.

Lemma keeps_verify_headers p h hs : keeps (verify_headers consensus current_time p h hs).
Proof. unfold verify_headers. keeps. Qed.
Hint Resolve keeps_verify_headers : keeps.

Lemma keeps_first_unknown hs : keeps (first_unknown hs).
Proof. induction hs; cbn [first_unknown]; keeps. Qed.
Hint Resolve keeps_first_unknown : keeps.

Lemma keeps_first_unknown_index h0 hl hs : keeps (first_unknown_index h0 hl hs).
Proof. unfold first_unknown_index. keeps. Qed.
Hint Resolve keeps_first_unknown_index : keeps.

Lemma keeps_penalize p : keeps (penalize p).
Proof. unfold penalize. keeps_raw. Qed.
Hint Resolve keeps_penalize : keeps.

Lemma keeps_schedule_unknown p h0 hs i : keeps (schedule_unknown_headers consensus now current_time p h0 hs i).
Proof. unfold schedule_unknown_headers. keeps. Qed.
Hint Resolve keeps_schedule_unknown : keeps.

Lemma keeps_headers p hs : keeps (on_headers consensus now current_time p hs).
Proof. unfold on_headers. keeps. Qed.

Lemma keeps_remove_blocks h : keeps (remove_blocks_for_parent h).
Proof.
  apply (keeps_pool received (fun pool => OrphanBlocks.remove_blocks_for_parent pool h)). intros pool a pool' Hr Hall.
  by destruct (OrphanBlocksSpec.all_remove_for_parent received _ _ _ _ Hr Hall).
Qed.
Hint Resolve keeps_remove_blocks : keeps.

Lemma keeps_unconnected b : received b -> keeps (on_unconnected_block now b).
Proof.
  intros Hb. unfold on_unconnected_block. apply keeps_bind; [keeps|]. intros st. destruct (is_synchronizing st); [keeps|].
  apply keeps_bind; [keeps|]. intros _ c a c' Hl. unfold mbind, core_bind, asks in Hl. rewrite ok_bind in Hl.
  destruct (OrphanBlocks.contains_unknown_block _ _); [by injection Hl as <- <-|].
  apply bind_Ok in Hl as ([pool c1] & Hp & Hl). apply bind_Ok in Hp as (pool1 & Hp & [= <- <-]). injection Hl as <- <-.
  split; [done..|]. by eapply OrphanBlocksSpec.all_insert_unknown.
Qed.
Hint Resolve keeps_unconnected : keeps.

Lemma keeps_insert_orphan b : received b ->
  keeps (modify (fun c => set_blocks_pool (OrphanBlocks.insert_orphaned_block (orphaned_blocks_pool c) b) c)).
Proof. intros Hb. apply keeps_modify. intros c. split; [done..|]. by apply OrphanBlocksSpec.all_insert. Qed.

Lemma keeps_connected p b : keeps (on_connected_block now p b).
Proof. unfold on_connected_block. keeps. Qed.
Hint Resolve keeps_connected : keeps.

Lemma keeps_new_block p b : received b -> keeps (on_new_block now p b).
Proof. intros Hb. pose proof (keeps_unconnected b Hb). unfold on_new_block. keeps; by apply keeps_insert_orphan. Qed.
Hint Resolve keeps_new_block : keeps.

Lemma keeps_block p b : received b -> keeps (on_block now p b).
Proof. intros Hb. pose proof (keeps_new_block p b Hb). unfold on_block. keeps. Qed.

(** ** What handlers give back *)

(** The result of a step, where all orphans were received. *)
Definition yields {A} (m : core_result A) (Q : A -> Prop) : Prop :=
  forall c a c', OrphanBlocksSpec.all_blocks received (orphaned_blocks_pool c) -> m c = Ok (a, c') -> Q a.

Lemma yields_bind {A B} (m : core_result A) (f : A -> core_result B) R Q :
  keeps m -> yields m R -> (forall a, R a -> yields (f a) Q) -> yields (m ≫= f) Q.
Proof.
  intros Hk Hm Hf c b c' Hall Hb. unfold mbind, core_bind in Hb. apply bind_Ok in Hb as ([a c1] & Ha & Hb).
  eapply Hf; [by eapply Hm| |exact Hb]. by apply (fr_orphans received c c1); [eapply Hk|].
Qed.

Lemma yields_after {A B} (m : core_result A) (f : A -> core_result B) Q :
  keeps m -> (forall a, yields (f a) Q) -> yields (m ≫= f) Q.
Proof. intros Hk Hf. eapply (yields_bind m f (fun _ => True)); [done|done|]. intros a _. apply Hf. Qed.

Lemma yields_ret {A} (a : A) Q : Q a -> yields (mret a) Q.
Proof. by intros Ha c b c' _ [= <- <-]. Qed.

Lemma yields_orphans h : yields (remove_blocks_for_parent h) (Forall received).
Proof.
  intros c bs c' Hall Hr. apply bind_Ok in Hr as ([bs1 pool] & Hr & [= <- <-]).
  by destruct (OrphanBlocksSpec.all_remove_for_parent received _ _ _ _ Hr Hall).
Qed.

(** The blocks that are to be verified are the received one and orphans. *)
Lemma connected_received p b : received b -> yields (on_connected_block now p b) (Forall received).
Proof.
  intros Hb. unfold on_connected_block. do 2 (apply yields_after; [keeps|intros _]).
  eapply yields_bind; [keeps|apply yields_orphans|]. intros orphans Ho. do 3 (apply yields_after; [keeps|intros _]).
  apply yields_ret. by constructor.
Qed.

Abbreviation some_received := (fun r => forall bs, r = Some bs -> Forall received bs).

Lemma new_block_received p b : received b -> yields (on_new_block now p b) some_received.
Proof.
  intros Hb. pose proof (keeps_unconnected b Hb). pose proof (keeps_insert_orphan b Hb). unfold on_new_block.
  apply yields_after; [keeps|]. intros st. apply yields_after; [keeps|]. intros close.
  destruct st, close; first
    [ eapply yields_bind; [keeps|by apply connected_received|]; intros bs Hbs; apply yields_ret; by intros ? [= <-]
    | repeat (apply yields_after; [keeps|intros _]); by apply yields_ret ].
Qed.

Lemma block_received p b : received b -> yields (on_block now p b) some_received.
Proof.
  intros Hb. pose proof (new_block_received p b Hb). unfold on_block. apply yields_after; [keeps|]. intros _.
  apply yields_after; [keeps|]. intros st. apply yields_after; [keeps|]. intros close.
  destruct st, close; first [done|apply yields_after; [keeps|]; intros _; by apply yields_ret].
Qed.

Lemma keeps_unknown_parents ins : keeps (unknown_parents ins).
Proof. induction ins; cbn [unknown_parents]; keeps. Qed.
Hint Resolve keeps_unknown_parents : keeps.

Lemma remember_transaction_frame r tx c : frame received c (remember_transaction r tx c).
Proof. unfold remember_transaction. by destruct r. Qed.

Lemma keeps_try_append tx r : keeps (try_append_transaction tx r).
Proof. unfold try_append_transaction. keeps; apply keeps_modify; intros; apply remember_transaction_frame. Qed.
Hint Resolve keeps_try_append : keeps.

Lemma keeps_process tx r : keeps (process_peer_transaction now tx r).
Proof. unfold process_peer_transaction. keeps. Qed.
Hint Resolve keeps_process : keeps.

Lemma keeps_transaction tx : keeps (on_transaction now tx).
Proof. unfold on_transaction. keeps. Qed.

Lemma keeps_accept tx sink : keeps (accept_transaction tx sink).
Proof. unfold accept_transaction. keeps. Qed.

Lemma keeps_notfound p l : keeps (on_notfound now p l).
Proof. unfold on_notfound. keeps. Qed.

Lemma keeps_after_peer p f : keeps (after_peer_nearly_blocks_verified p f).
Proof. unfold after_peer_nearly_blocks_verified. keeps. Qed.

Lemma keeps_listener : keeps install_sync_listener.
Proof. unfold install_sync_listener. keeps. Qed.

Lemma keeps_forget_failed hs : keeps (forget_failed_blocks hs).
Proof. unfold forget_failed_blocks. keeps. Qed.
Hint Resolve keeps_forget_failed : keeps.

Lemma keeps_awake h : keeps (awake_waiting_threads h).
Proof. unfold awake_waiting_threads. keeps. Qed.
Lemma keeps_take_relay h : keeps (take_do_not_relay h).
Proof. by intros c a c' [= <- <-]. Qed.
Lemma keeps_relay h : keeps (relay_block h).
Proof. unfold relay_block. keeps. Qed.
Hint Resolve keeps_awake keeps_take_relay keeps_relay : keeps.

Lemma keeps_reverify n txs : keeps (reverify now n txs).
Proof. induction txs; cbn [reverify]; keeps. Qed.
Hint Resolve keeps_reverify : keeps.

Lemma keeps_block_error h : keeps (on_block_verification_error now h).
Proof. unfold on_block_verification_error. keeps. Qed.

Lemma keeps_transaction_error h : keeps (on_transaction_verification_error h).
Proof. unfold on_transaction_verification_error. keeps. Qed.

Lemma keeps_after_block : keeps (after_block now).
Proof. unfold after_block. keeps. Qed.

Lemma all_manage_unknown config pool r pool' :
  SyncManager.manage_unknown_orphaned_blocks (E := E) now config pool = Ok (r, pool') ->
  OrphanBlocksSpec.all_blocks received pool -> OrphanBlocksSpec.all_blocks received pool'.
Proof. intros Hm Hall. apply bind_Ok in Hm as ([x pool1] & Hr & [= _ <-]). by eapply OrphanBlocksSpec.all_remove_blocks. Qed.
Hint Resolve all_manage_unknown : keeps.

Lemma keeps_manage : keeps (SyncManager.manage now).
Proof. unfold SyncManager.manage, SyncManager.manage_synchronizing, SyncManager.manage_saturated. keeps. Qed.

End handlers.

(** * The invariant of the node *)

Section safety.
Context `{Crypto} `{Secp256k1} `{U256} `{BitVec} `{RayonLaws} {T : Type} `{!Kv.KeyValueDatabase T} `{!Kv.KeyValueDatabaseLaws T}.
Context `{!HashOrder} `{!HashOrderOf Z}.
Context {L : LinkedHashMap bytes IndexedTransaction} `{!LinkedHashMapEdit bytes IndexedTransaction L}.
Context {LU : LinkedHashMap bytes f64} `{!LinkedHashMapEdit bytes f64 LU}.
Context {LO : LinkedHashMap bytes (OrphanTransactions.OrphanTransaction f64)}.
Context `{!LinkedHashMapEdit bytes (OrphanTransactions.OrphanTransaction f64) LO}.
Context {LH : LinkedHashMap Z PeersTasks.HeadersRequest} `{!LinkedHashMapEdit Z PeersTasks.HeadersRequest LH}.
Context {LB : LinkedHashMap Z PeersTasks.BlocksRequest} `{!LinkedHashMapEdit Z PeersTasks.BlocksRequest LB}.
Context {Future Sink E : Type}.
Variables (consensus : ConsensusParams) (received : IndexedBlock -> Prop) (start : Db.BlockChainDatabase T).
Abbreviation Core := (Core (T := T) (L := L) (LU := LU) (LO := LO) (LH := LH) (LB := LB) (Future := Future) (Sink := Sink)).
Abbreviation core_result := (core_result (T := T) (L := L) (LU := LU) (LO := LO) (LH := LH) (LB := LB) (Future := Future) (Sink := Sink) (E := E)).
Abbreviation Node := (Node (T := T) (L := L) (LU := LU) (LO := LO) (LH := LH) (LB := LB) (Future := Future) (Sink := Sink)).
Abbreviation keeps m := (Keeps received (T := T) (L := L) (LU := LU) (LO := LO) (LH := LH) (LB := LB) (Future := Future) (Sink := Sink) (E := E) m).
Implicit Types (c : Core) (n : Node).

Definition storage_of c : Db.BlockChainDatabase T := SyncChain.storage (chain c).

Abbreviation grown_from_start s := (grown (T := T) (L := L) consensus received start s).

(** The storage holds a chain that has grown by valid blocks that were received, as were the
    orphans, and the client's view of the best block is right. *)
Record chain_ok c : Prop := {
  co_storage : db_invariant (storage_of c);
  co_grown : grown_from_start (storage_of c);
  co_orphans : OrphanBlocksSpec.all_blocks received (orphaned_blocks_pool c);
  co_best : SyncChain.best_storage_block (chain c) = Db.best_block (storage_of c);
  co_flag : flag_ok c;
}.

Record core_ok c : Prop := {
  co_chain : chain_ok c;
  co_height : best_storage_block_height (shared_state c) = bb_number (Db.best_block (storage_of c));
}.

Lemma frame_chain_ok c c' : frame received c c' -> chain_ok c -> chain_ok c'.
Proof.
  intros [(Hs & Hb & _) _ Hf Ho] [H1' H2' H3' H4' H5']. unfold storage_of in *. split; unfold storage_of; rewrite ?Hs, ?Hb; auto.
Qed.

Lemma frame_core_ok c c' : frame received c c' -> core_ok c -> core_ok c'.
Proof.
  intros Hf [Hc Hh]. pose proof Hf as [(Hs & _ & _) Hh' _ _]. split; [by apply (frame_chain_ok c)|]. unfold storage_of in *. by rewrite Hh', Hs.
Qed.

Lemma keeps_ok {A} (m : core_result A) c a c' : keeps m -> m c = Ok (a, c') -> core_ok c -> core_ok c'.
Proof. intros Hk Hm. apply frame_core_ok. by eapply Hk. Qed.

Lemma frame_storage c c' : frame received c c' -> storage_of c' = storage_of c.
Proof. by intros [(Hs & _) _ _ _]. Qed.

(** The block can be inserted: it was verified on the storage as it is. *)
Definition insertable b c : Prop := received b /\ hash_ok b /\ valid_on consensus (storage_of c) b.

Lemma insert_verified_block_ok b c r c' :
  insertable b c -> insert_verified_block (E := E) b c = Ok (r, c') -> chain_ok c -> chain_ok c'.
Proof.
  intros (Hrec & Hb & Hv) Hi Hc. unfold insert_verified_block, mbind, core_bind in Hi. apply bind_Ok in Hi as ([pos c1] & H1' & Hi).
  assert (frame received c c1) as Hf by (refine (keeps_on_chain _ _ _ c pos c1 H1'); intros ? ? ?; apply forget_state_same).
  rewrite <- (frame_storage _ _ Hf) in Hv.
  pose proof (frame_chain_ok c c1 Hf Hc) as Hc1.
  assert (forall r ch, SyncChain.insert_best_block (chain c1) b = Ok (r, ch) -> chain_ok (set_chain ch c1)) as Hins.
  { intros r1 ch Hr. destruct Hc1 as [Hinv Hgrown Horph Hbest Hflag].
    destruct (insert_best_block_spec (chain c1) b r1 ch Hinv Hb Hr) as [Hinv' Hk]. split; [done|..].
    - by eapply grown_add.
    - done.
    - by eapply insert_best_block_best.
    - done. }
  destruct pos; [by injection Hi as <- <-|..]; unfold on_chain in Hi; apply bind_Ok in Hi as ([r1 ch1] & Hr1 & Hi); injection Hi as <- <-;
    unfold or_panic in Hr1; destruct (SyncChain.insert_best_block (chain c1) b) as [[r2 ch2]| | |] eqn:Hr; try done; injection Hr1 as <- <-; by eapply Hins.
Qed.

(** What a step leads to. *)
Definition ensures {A} (P : Core -> Prop) (m : core_result A) (Q : Core -> Prop) : Prop := forall c a c', P c -> m c = Ok (a, c') -> Q c'.

Lemma ensures_bind {A B} P Q Q' (m : core_result A) (f : A -> core_result B) :
  ensures P m Q -> (forall a, ensures Q (f a) Q') -> ensures P (m ≫= f) Q'.
Proof.
  intros Hm Hf c b c' HP. unfold mbind, core_bind. intros Hb. apply bind_Ok in Hb as ([a c1] & Ha & Hb).
  by eapply Hf; [eapply Hm|].
Qed.

Lemma ensures_chain {A} (m : core_result A) : keeps m -> ensures chain_ok m chain_ok.
Proof. intros Hk c a c' Hc Hm. by eapply frame_chain_ok; [eapply Hk|]. Qed.

Lemma ensures_core {A} (m : core_result A) : keeps m -> ensures core_ok m core_ok.
Proof. intros Hk c a c' Hc Hm. by eapply frame_core_ok; [eapply Hk|]. Qed.

Lemma ensures_insertable {A} b (m : core_result A) : keeps m ->
  ensures (fun c => chain_ok c /\ insertable b c) m (fun c => chain_ok c /\ insertable b c).
Proof.
  intros Hk c a c' [Hc Hi] Hm. pose proof (Hk _ _ _ Hm) as Hf. split; [by apply (frame_chain_ok c)|].
  unfold insertable. by rewrite (frame_storage _ _ Hf).
Qed.

(** A verified block has been inserted, or was forgotten meanwhile. *)
Lemma block_success_ok now b : ensures (fun c => core_ok c /\ insertable b c) (on_block_verification_success (E := E) now b) core_ok.
Proof.
  apply (ensures_bind _ (fun c => chain_ok c /\ insertable b c)).
  { intros c a c' [[Hc _] Hi] Hm. eapply ensures_insertable; [|done|exact Hm]. keeps_raw. }
  intros _. apply (ensures_bind _ (fun c => chain_ok c /\ insertable b c)); [apply ensures_insertable, keeps_take_relay|]. intros skip.
  apply (ensures_bind _ chain_ok); [intros c r c' [Hc Hi]; intros; by eapply insert_verified_block_ok|]. intros result.
  apply (ensures_bind _ core_ok).
  { intros c a c' Hc [= <- <-]. pose proof (co_best _ Hc) as Hbest. destruct Hc. split; [by split|]. cbn. by rewrite Hbest. }
  intros _. apply ensures_core. keeps; eauto using keeps_awake, keeps_execute, keeps_relay, keeps_reverify.
Qed.

Lemma transaction_success_ok tx : ensures core_ok (on_transaction_verification_success (E := E) tx) core_ok.
Proof.
  apply (ensures_bind _ core_ok); [apply ensures_core, keeps_take_relay|]. intros skip.
  apply (ensures_bind _ core_ok); [apply ensures_core, keeps_on_chain; by intros ch a ch' [= <- <-]|]. intros [|]; cbn [negb]; [|apply ensures_core; keeps].
  apply (ensures_bind _ core_ok); [|intros _; apply ensures_core; keeps].
  intros c a c' [[Hinv Hgrown Horph Hbest Hflag] Hh] Hc. unfold change_chain in Hc. apply bind_Ok in Hc as (ch & Hch & Hc). injection Hc as <- <-.
  unfold SyncChain.insert_verified_transaction in Hch. do 2 apply bind_Ok in Hch as (? & _ & Hch). injection Hch as <-. split; [by split|done].
Qed.

(** * Steps *)

(** The blocks that wait for the verification were received. *)
Definition task_received (task : VerificationTask) : Prop := match task with VerifyBlock b => received b | _ => True end.

Record node_ok n : Prop := {
  no_core : core_ok (core n);
  no_level : verification_level (verifier n) = Full;
  no_tasks : Forall task_received (subtasks n ++ channel n);
}.

Lemma on_core_ok {A} (m : core_result A) n n' : keeps m -> on_core m n = Ok n' -> node_ok n -> node_ok n'.
Proof.
  intros Hk Hm [Hc Hl Ht]. unfold on_core in Hm. apply bind_Ok in Hm as ([a c] & Hm & Ho). injection Ho as <-.
  split; [by eapply keeps_ok|done|done].
Qed.

Lemma send_ok tasks c n : core_ok c -> Forall task_received tasks -> node_ok n -> node_ok (send tasks c n).
Proof. intros Hc Ht [_ Hl Hts]. split; [done|done|]. cbn. rewrite app_assoc. by apply Forall_app_2. Qed.

Lemma transactions_received h txs : Forall task_received (map (VerifyTransaction h) txs).
Proof. apply Forall_map, Forall_true. done. Qed.

Lemma send_transactions_ok txs c n n' : send_transactions (E := E) txs c n = Ok n' -> core_ok c -> node_ok n -> node_ok n'.
Proof. intros Hs Hc Hn. apply bind_Ok in Hs as (h & _ & Hs). injection Hs as <-. apply send_ok; [done|apply transactions_received|done]. Qed.

(** What follows the insertion of a block are transactions. *)
Definition gives {A} (m : core_result A) (Q : A -> Prop) : Prop := forall c a c', m c = Ok (a, c') -> Q a.

Lemma gives_bind {A B} (m : core_result A) (f : A -> core_result B) Q : (forall a, gives (f a) Q) -> gives (m ≫= f) Q.
Proof. intros Hf c b c' Hb. unfold mbind, core_bind in Hb. apply bind_Ok in Hb as ([a c1] & _ & Hb). by eapply Hf. Qed.

Lemma gives_after {A B} (m : core_result A) (f : A -> core_result B) Q1 Q : gives m Q1 -> (forall a, Q1 a -> gives (f a) Q) -> gives (m ≫= f) Q.
Proof. intros Hm Hf c b c' Hb. unfold mbind, core_bind in Hb. apply bind_Ok in Hb as ([a c1] & Ha & Hb). by eapply Hf; [eapply Hm|]. Qed.

Lemma reverify_tasks now h txs : gives (reverify (E := E) now h txs) (Forall task_received).
Proof.
  induction txs as [|tx txs IH]; cbn [reverify]; [by intros c a c' [= <- <-]|]. apply gives_bind. intros orphans.
  eapply gives_after; [exact IH|]. intros rest Hr c a c' [= <- <-]. destruct orphans; [|done].
  apply Forall_app_2; [apply transactions_received|done].
Qed.

Lemma block_success_tasks now b : gives (on_block_verification_success (E := E) now b) (Forall task_received).
Proof. unfold on_block_verification_success. repeat (apply gives_bind; intros ?). apply reverify_tasks. Qed.

Lemma verify_block_ok now t fuel b v c ts v' c' :
  received b -> hash_ok b -> worker_task (E := E) consensus now t fuel (VerifyBlock b) v c = Ok (ts, v', c') ->
  verification_level v = Full -> core_ok c -> core_ok c' /\ verification_level v' = Full /\ Forall task_received ts.
Proof.
  intros Hrec Hb Hw Hl Hc. cbn [worker_task] in Hw. unfold verify_block_task in Hw.
  pose proof (wrapper_level consensus t v (storage_of c) b) as Hl'. cbn [sink_storage CoreVerificationSink] in Hw.
  change (SyncChain.storage (chain c)) with (storage_of c) in Hw.
  destruct (wrapper_verify_block consensus t v (storage_of c) b) as [r v1] eqn:Hv. cbn [snd] in Hl'. destruct r as [[]|e| |]; cbn [match_result] in Hw; [..|done|done].
  - apply bind_Ok in Hw as ([ts1 c1] & Hs & Hw). injection Hw as <- <- <-. cbn in Hs.
    destruct (wrapper_verified consensus t v (storage_of c) b v1 Hl Hv) as [Hvd Hfull].
    split_and!; [by apply (block_success_ok now b c ts1 c1)|done|by eapply block_success_tasks].
  - apply bind_Ok in Hw as (c1 & Hs & Hw). injection Hw as <- <- <-. cbn in Hs. apply bind_Ok in Hs as ([u c2] & Hs & Ho). injection Ho as <-.
    split_and!; [by eapply keeps_ok; [apply keeps_block_error|..]|congruence|by constructor].
Qed.

Lemma verify_transaction_ok now t fuel h tx v c ts v' c' :
  worker_task (E := E) consensus now t fuel (VerifyTransaction h tx) v c = Ok (ts, v', c') ->
  core_ok c -> core_ok c' /\ verification_level v' = verification_level v /\ ts = [].
Proof.
  intros Hw Hc. cbn [worker_task] in Hw. apply bind_Ok in Hw as ([v2 c2] & Hw & Ho). injection Ho as <- <- <-. unfold verify_transaction_task in Hw.
  destruct (verify_pool_transaction _ _ _ _ _ _ _ _) as [r v1] eqn:Hv. cbn in Hv.
  assert (verification_level v1 = verification_level v) as Hl.
  { unfold verify_pool_transaction in Hv. destruct (for_transaction _ _ _ _) as [[e|p]| | |]; try by injection Hv as _ <-.
    destruct (verify_mempool_transaction _ _ _ _ _ _ _ _) as [r1 c1]. by injection Hv as _ <-. }
  destruct r as [[]|e| |]; cbn [match_result] in Hw; [..|done|done].
  - apply bind_Ok in Hw as (c1 & Hs & Hw). injection Hw as <- <-. cbn in Hs. apply bind_Ok in Hs as ([u c2] & Hs & Ho). injection Ho as <-.
    split_and!; [by eapply transaction_success_ok|done|done].
  - apply bind_Ok in Hw as (c1 & Hs & Hw). injection Hw as <- <-. cbn in Hs. apply bind_Ok in Hs as ([u c2] & Hs & Ho). injection Ho as <-.
    split_and!; [by eapply keeps_ok; [apply keeps_transaction_error|..]|done|done].
Qed.

Lemma worker_task_ok now t fuel task v c ts v' c' :
  hashes_ok (Some task) -> task_received task -> worker_task (E := E) consensus now t fuel task v c = Ok (ts, v', c') ->
  verification_level v = Full -> core_ok c -> core_ok c' /\ verification_level v' = Full /\ Forall task_received ts.
Proof.
  destruct task as [b|h tx|]; intros Hh Hrec Hw Hl Hc.
  - by eapply verify_block_ok.
  - destruct (verify_transaction_ok now t fuel h tx v c ts v' c' Hw Hc) as (? & ? & ->). split_and!; [done|congruence|by constructor].
  - injection Hw as <- <- <-. split_and!; [done|done|by constructor].
Qed.

Lemma worker_step_ok now t fuel n n' : hashes_ok (next_task n) -> worker_step (E := E) consensus now t fuel n = Ok n' -> node_ok n -> node_ok n'.
Proof.
  intros Hh Hw [Hc Hl Hts]. unfold worker_step, next_task in *. destruct (subtasks n) as [|task tasks] eqn:Hsub; [destruct (channel n) as [|task rest] eqn:Hch|].
  { injection Hw as <-. split; [done|done|by rewrite Hsub, Hch]. }
  all: apply bind_Ok in Hw as ([[more v] c] & Ht & Hw); injection Hw as <-; apply Forall_cons in Hts as [Hrec Hts];
    destruct (worker_task_ok now t fuel task (verifier n) (core n) more v c Hh Hrec Ht Hl Hc) as (? & ? & ?); (split; [done|done|]); cbn.
  - by apply Forall_app_2.
  - apply Forall_app in Hts as [Hts1 Hts2]. by repeat apply Forall_app_2.
Qed.

Lemma node_step_ok n n' : node_step (E := E) consensus received n n' -> node_ok n -> node_ok n'.
Proof.
  intros Hs Hn. destruct Hs as [now p n n' Hs|now p n n' Hs|p inv n n' Hs|now t p hs n n' Hs|now p b n n' Hrec Hs|now n n' Hs|now tx n n' Hs|tx sink n r n' Hs|
    now p inv n n' Hs|p f n n' Hs|n n' Hs|now n n' Hs|now t fuel n n' Hh Hs].
  - by eapply on_core_ok; [apply keeps_connect|..].
  - by eapply on_core_ok; [apply keeps_disconnect|..].
  - by eapply on_core_ok; [apply keeps_inventory|..].
  - by eapply on_core_ok; [apply keeps_headers|..].
  - apply bind_Ok in Hs as ([bs c] & Hb & Hs). injection Hs as <-.
    assert (core_ok c) by (eapply keeps_ok; [by apply keeps_block|done|apply Hn]).
    pose proof (block_received received now p b Hrec _ _ _ (co_orphans _ (co_chain _ (no_core _ Hn))) Hb) as Hbs.
    destruct bs as [bs|]; apply send_ok; try done. apply Forall_map. by apply Hbs.
  - by eapply on_core_ok; [apply keeps_after_block|..].
  - apply bind_Ok in Hs as ([txs c] & Hb & Hs). assert (core_ok c) by (eapply keeps_ok; [apply keeps_transaction|done|apply Hn]).
    destruct txs; [by eapply send_transactions_ok|]. injection Hs as <-. by apply send_ok.
  - apply bind_Ok in Hs as ([txs c] & Hb & Hs). assert (core_ok c) by (eapply keeps_ok; [apply keeps_accept|done|apply Hn]).
    destruct txs; [injection Hs as <- <-; by apply send_ok|]. apply bind_Ok in Hs as (n1 & Hs & [= <- <-]). by eapply send_transactions_ok.
  - by eapply on_core_ok; [apply keeps_notfound|..].
  - by eapply on_core_ok; [apply keeps_after_peer|..].
  - by eapply on_core_ok; [apply keeps_listener|..].
  - by eapply on_core_ok; [apply keeps_manage|..].
  - by eapply worker_step_ok.
Qed.

Lemma node_new_ok edge n : db_invariant start -> SyncNode.new (E := E) consensus start Full edge = Ok n -> node_ok n.
Proof.
  intros Hinv Hn. unfold SyncNode.new in Hn. apply bind_Ok in Hn as (ch & Hch & Hn). apply bind_Ok in Hn as (c & Hc & Hn). apply bind_Ok in Hn as (v & Hv & Hn).
  injection Hn as <-. unfold SyncChain.new in Hch. do 3 apply bind_Ok in Hch as (? & _ & Hch). injection Hch as <-.
  unfold ClientCore.new in Hc. do 2 apply bind_Ok in Hc as (? & _ & Hc). injection Hc as <-.
  unfold wrapper_new in Hv. apply bind_Ok in Hv as (? & _ & Hv). injection Hv as <-. split; [|done|constructor]. split; [|done].
  split; [done|apply grown_start| |done|done]. intros p m h b Hm. cbn in Hm. by rewrite lookup_empty in Hm.
Qed.

Lemma reachable_ok edge n0 n :
  db_invariant start -> SyncNode.new (E := E) consensus start Full edge = Ok n0 -> rtc (node_step (E := E) consensus received) n0 n -> node_ok n.
Proof. intros Hinv Hnew Hsteps. apply (node_new_ok edge n0 Hinv) in Hnew. clear Hinv. induction Hsteps; eauto using node_step_ok. Qed.

(** What the node promises. *)
Definition safe n : Prop :=
  let db := storage_of (core n) in
  (exists hs, canonical db hs) /\
  grown_from_start db /\
  SyncChain.best_storage_block (chain (core n)) = Db.best_block db /\
  best_storage_block_height (shared_state (core n)) = bb_number (Db.best_block db) /\
  shared_synchronizing (shared_state (core n)) = is_synchronizing (state (core n)).

Lemma node_ok_safe n : node_ok n -> safe n.
Proof. intros [[[Hi Hgrown Horph Hbest Hflag] Hh] _ _]. unfold safe. cbn zeta. split_and!; [apply Hi|done..]. Qed.

(** Whatever the peers send, and in whatever order the handlers, the verification of
    blocks and transactions, and the management of peers follow each other: with full
    verification the storage holds a chain, it is the one at the start with received blocks
    inserted in turn, each of which was valid on the storage it was inserted into, and what the rest of the node reads of the client, the best block, its
    height and whether it synchronizes, is right. *)
Theorem node_safe edge n0 n :
  db_invariant start -> SyncNode.new (E := E) consensus start Full edge = Ok n0 -> rtc (node_step (E := E) consensus received) n0 n -> safe n.
Proof. eauto using reachable_ok, node_ok_safe. Qed.

(** The loop of the verification thread over one task and those that follow from it is a
    sequence of the worker's steps. *)
Lemma execute_tasks_steps now t fuel pool_fuel v c queue ch v' c' :
  execute_tasks (VerificationSink0 := CoreVerificationSink (E := E) now) consensus t fuel pool_fuel v c queue = Ok (true, v', c') ->
  rtc (fun n n' => worker_step (E := E) consensus now t pool_fuel n = Ok n') (mkNode c v queue ch) (mkNode c' v' [] ch).
Proof.
  revert v c queue. induction fuel as [|fuel IH]; intros v c [|task queue]; cbn [execute_tasks]; [by intros [= <- <-]|done|by intros [= <- <-]|].
  destruct task as [block|height tx|]; [| |done]; intros Ht; apply bind_Ok in Ht as (r & Hr & Ht).
  - destruct r as [[more v1] c1]. apply rtc_l with (mkNode c1 v1 (queue ++ more) ch); [|by apply IH].
    unfold worker_step. cbn [subtasks channel verifier core worker_task]. by rewrite Hr.
  - destruct r as [v1 c1]. apply rtc_l with (mkNode c1 v1 (queue ++ []) ch); [|rewrite app_nil_r; by apply IH].
    unfold worker_step. cbn [subtasks channel verifier core worker_task]. by rewrite Hr.
Qed.

End safety.

(** * A run *)

(** A peer sends the second block, which is verified and inserted. *)
Module ExampleRun.
Import Kv ChainVerifierExamples DbExamples ExampleCrypto Keys.ExampleKeys ExampleU256 ExampleBits ExampleRayon ExampleLinked BlocksWriterSpec.BlocksWriterSpec.ExampleImport.
#[local] Existing Instances MemoryPoolSpec.ExamplePool.elements_order.

Abbreviation example_node := (Node (T := MemoryDatabase) (L := example_linked IndexedTransaction) (LU := example_linked f64)
  (LO := example_linked (OrphanTransactions.OrphanTransaction f64)) (LH := example_linked PeersTasks.HeadersRequest)
  (LB := example_linked PeersTasks.BlocksRequest) (Future := unit) (Sink := unit)).
Definition first_node : outcome unit example_node := SyncNode.new consensus start Full zero_hash.
Definition now : f64 := of_int 10.

Lemma node_safe_witness :
  exists n0 n : example_node, first_node = Ok n0 /\ rtc (node_step (E := unit) consensus (fun b => b = second_block)) n0 n /\
    best_storage_block_height (shared_state (core n)) = 1 /\
    grown (T := MemoryDatabase) (L := example_linked IndexedTransaction) consensus (fun b => b = second_block) start (storage_of (core n)).
Proof.
  assert (match (n0 ← first_node; n1 ← client_on_block now 1 second_block n0; n2 ← worker_step consensus now 3000 0 n1; Ok (next_task n1, n2)) with
          | Ok (Some (VerifyBlock b), n) => bool_decide (ih_hash (ib_header b) = le_bytes 32 2) && (best_storage_block_height (shared_state (core n)) =? 1)
          | _ => false end = true) as Hrun by (vm_compute; reflexivity).
  destruct first_node as [n0| | |] eqn:H0; [|discriminate Hrun..]. rewrite ok_bind in Hrun.
  destruct (client_on_block now 1 second_block n0) as [n1| | |] eqn:H1; [|discriminate Hrun..]. rewrite ok_bind in Hrun.
  destruct (worker_step consensus now 3000 0 n1) as [n2| | |] eqn:H2; [|discriminate Hrun..]. rewrite ok_bind in Hrun.
  destruct (next_task n1) as [[b| |]|] eqn:Ht; [|discriminate Hrun..]. apply andb_true_iff in Hrun as [Hb%bool_decide_eq_true Hh%Z.eqb_eq].
  assert (rtc (node_step (E := unit) consensus (fun b => b = second_block)) n0 n2) as Hsteps.
  { eapply rtc_l; [eapply step_block; [reflexivity|exact H1]|]. apply rtc_once. eapply step_worker; [|exact H2]. rewrite Ht. cbn. by rewrite Hb. }
  exists n0, n2. split_and!; [done|done|exact Hh|].
  exact (proj1 (proj2 (node_safe consensus (fun b => b = second_block) start zero_hash n0 n2 start_invariant H0 Hsteps))).
Defined.

End ExampleRun.
End SyncNodeSpec.
