(* ===== verification/ClientCoreSpec.v ===== *)
(** What the client (ClientCore.v) asks of its peers and believes of their answers: how
    blocks are divided among the peers, and which headers are scheduled. *)
From Stdlib Require Import ZArith Lia Strings.Byte.
From stdpp Require Import base decidable numbers countable gmap strings list.
From S2P Require Import Prelude Opcode Crypto Keys Serialization Codec Chain ChainHash U256 Compact Network Work Storage Deployments Verify Accept.
From S2P Require Import ChainVerifier Kv Db LinkedMap HashQueue Message MemoryPool OrphanPools SyncChain Float64 PeersTasks PeersTasksSpec ClientCore.
From S2P Require Import DbSpec DbUtxo DbExamples MemoryPoolSpec SyncManager SyncVerifier SyncVerifierSpec BlocksWriter BlocksWriterSpec SyncNode SyncNodeSpec.

Local Open Scope Z_scope.

Module ClientCoreSpec.
Import Chain ChainHash Network Storage Message F64 SyncTask SyncChain PeersTasksSpec ClientCore.

(** * Sorting *)

Lemma sort_insert_perm {E A} (cmp : A -> A -> outcome E comparison) x l :
  (forall a b, exists r, cmp a b = Ok r) -> exists l', sort_insert cmp x l = Ok l' /\ l' ≡ₚ x :: l.
Proof.
  intros Hcmp. induction l as [|y l (l' & Hl & Hp)]; [by exists [x]|]. cbn [sort_insert]. destruct (Hcmp y x) as [r ->]. rewrite ok_bind.
  destruct r; [by exists (x :: y :: l)| |by exists (x :: y :: l)]. rewrite Hl, ok_bind. exists (y :: l'). split; [done|]. rewrite Hp. constructor.
Qed.

Lemma sort_by_perm {E A} (cmp : A -> A -> outcome E comparison) l :
  (forall a b, exists r, cmp a b = Ok r) -> exists l', sort_by cmp l = Ok l' /\ l' ≡ₚ l.
Proof.
  intros Hcmp. induction l as [|x l (l' & Hl & Hp)]; [by exists []|]. cbn [sort_by]. rewrite Hl, ok_bind.
  destruct (sort_insert_perm cmp x l' Hcmp) as (l2 & H2 & Hp2). exists l2. split; [done|]. by rewrite Hp2, Hp.
Qed.

Section spec.
Context `{U256} `{BitVec} {T : Type} `{!Kv.KeyValueDatabase T} `{!HashOrder} `{!HashOrderOf Z}.
Context {L : LinkedHashMap bytes IndexedTransaction} `{!LinkedHashMapEdit bytes IndexedTransaction L}.
Context {LU : LinkedHashMap bytes f64} `{!LinkedHashMapEdit bytes f64 LU}.
Context {LO : LinkedHashMap bytes (OrphanTransactions.OrphanTransaction f64)}.
Context `{!LinkedHashMapEdit bytes (OrphanTransactions.OrphanTransaction f64) LO}.
Context {LH : LinkedHashMap Z PeersTasks.HeadersRequest} `{!LinkedHashMapLaws LH} `{!LinkedHashMapEdit Z PeersTasks.HeadersRequest LH} `{!LinkedHashMapEditLaws LH _}.
Context {LB : LinkedHashMap Z PeersTasks.BlocksRequest} `{!LinkedHashMapLaws LB} `{!LinkedHashMapEdit Z PeersTasks.BlocksRequest LB} `{!LinkedHashMapEditLaws LB _}.
Context {Future Sink E : Type}.
Abbreviation Core := (Core (T := T) (L := L) (LU := LU) (LO := LO) (LH := LH) (LB := LB) (Future := Future) (Sink := Sink)).
Abbreviation core_result := (core_result (T := T) (L := L) (LU := LU) (LO := LO) (LH := LH) (LB := LB) (Future := Future) (Sink := Sink) (E := E)).
Implicit Types (c : Core).
Variables (consensus : ConsensusParams) (now : f64) (current_time : Z).

Lemma bind_step {A B} (m : core_result A) (f : A -> core_result B) c a c' : m c = Ok (a, c') -> (m ≫= f) c = f a c'.
Proof. intros Hm. unfold mbind, core_bind. by rewrite Hm. Qed.

Lemma bind_inv {A B} (m : core_result A) (f : A -> core_result B) c b c2 :
  (m ≫= f) c = Ok (b, c2) -> exists a c1, m c = Ok (a, c1) /\ f a c1 = Ok (b, c2).
Proof. unfold mbind, core_bind. intros Hm. apply bind_Ok in Hm as ([a c1] & Ha & Hb). by exists a, c1. Qed.

Lemma lift_inv {A B} (m : outcome E A) (f : A -> core_result B) c b c2 :
  (lift m ≫= f) c = Ok (b, c2) -> exists a, m = Ok a /\ f a c = Ok (b, c2).
Proof. intros (a & c1 & Ha & Hf)%bind_inv. unfold lift in Ha. apply bind_Ok in Ha as (a' & -> & [= -> ->]). by exists a. Qed.

Lemma read_inv {A B} (g : SyncChain.Chain -> outcome E A) (f : A -> core_result B) c b c2 :
  (read_chain g ≫= f) c = Ok (b, c2) -> exists a, g (chain c) = Ok a /\ f a c = Ok (b, c2).
Proof. intros (a & c1 & Ha & Hf)%bind_inv. unfold read_chain in Ha. apply bind_Ok in Ha as (a' & Hg & [= -> ->]). by exists a. Qed.

(** * Dividing requests *)

(** Requests to these peers for these blocks. *)
Definition requests (t : InventoryType) (parts : list (Z * list bytes)) : list Task :=
  map (fun part => GetData part.1 (map (mkInventory t) part.2)) parts.

(** Every block is asked of one peer, every peer for some blocks at once. *)
Definition divided (peers : list Z) (hashes : list bytes) (parts : list (Z * list bytes)) : Prop :=
  concat (map snd parts) = hashes /\ map fst parts `sublist_of` peers /\ Forall (fun part => part.2 <> []) parts.

(** The peers are asked for what is in the parts, beside what they have been asked for. *)
Definition asked_more (parts : list (Z * list bytes)) c c' : Prop :=
  exists t, c' = set_tasks t c /\
    forall p h, asked t p h <-> asked (peers_tasks c) p h \/ exists part, part ∈ parts /\ part.1 = p /\ h ∈ part.2.

Lemma request_loop_spec n t chunk peers c index hashes :
  0 < chunk -> wf n (peers_tasks c) -> peers <> [] ->
  exists parts c', request_loop (E := E) now t chunk (index + zlen peers - 1) index peers hashes c = Ok ((requests t parts, []), c') /\
    divided peers hashes parts /\ asked_more parts c c' /\ wf n (peers_tasks c').
Proof.
  intros Hchunk. revert c index hashes. induction peers as [|p peers IH]; intros c index hashes Hw Hne; [done|].
  cbn [request_loop]. destruct hashes as [|h hashes].
  { assert ((if index =? index + zlen (p :: peers) - 1 then zlen (@nil bytes) else Z.min (zlen (@nil bytes)) chunk) = 0) as Hz by (destruct (_ =? _); cbn; lia).
    rewrite Hz. cbn [Z.eqb]. exists [], c. split; [done|]. split_and!; [split_and!; [done|apply sublist_nil_l|done]| |done].
    exists (peers_tasks c). split; [by destruct c|]. intros q x. split; [by left|]. intros [|(part & Hin & _)]; [done|by apply elem_of_nil in Hin]. }
  set (k := if index =? _ then _ else _). assert (0 < k <= zlen (h :: hashes)) as Hk.
  { unfold k. destruct (_ =? _); cbn [length] in *; lia. }
  rewrite (proj2 (Z.eqb_neq k 0)) by lia. set (mine := take (Z.to_nat k) (h :: hashes)).
  destruct (on_blocks_requested_spec (E := E) n now (peers_tasks c) p mine Hw) as (t1 & Ht1 & Hw1 & Ha1).
  rewrite (bind_step _ _ _ tt (set_tasks t1 c)) by (unfold on_tasks; by rewrite Ht1).
  assert (exists parts c', request_loop (E := E) now t chunk (index + zlen (p :: peers) - 1) (index + 1) peers (drop (Z.to_nat k) (h :: hashes)) (set_tasks t1 c) =
            Ok ((requests t parts, []), c') /\ divided peers (drop (Z.to_nat k) (h :: hashes)) parts /\ asked_more parts (set_tasks t1 c) c' /\ wf n (peers_tasks c'))
    as (parts & c' & Hr & Hd & (t2 & -> & Ha2) & Hw2).
  { replace (index + zlen (p :: peers) - 1) with (index + 1 + zlen peers - 1) by (cbn [length]; lia). destruct peers as [|q peers]; [|by apply IH].
    assert (k = zlen (h :: hashes)) as -> by (unfold k; rewrite (proj2 (Z.eqb_eq _ _)) by (cbn [length]; lia); done).
    rewrite Nat2Z.id, drop_all. exists [], (set_tasks t1 c). split_and!; [done|split_and!; [done|apply sublist_nil_l|done]| |done].
    exists t1. split; [done|]. intros q x. split; [by left|]. intros [|(part & Hin & _)]; [done|by apply elem_of_nil in Hin]. }
  rewrite (bind_step _ _ _ (requests t parts, []) (set_tasks t2 (set_tasks t1 c))) by exact Hr.
  exists ((p, mine) :: parts), (set_tasks t2 (set_tasks t1 c)). split; [done|]. split_and!; [| |done].
  2:{ exists t2. split; [done|]. intros q x. rewrite Ha2. cbn [peers_tasks set_tasks]. rewrite Ha1. clear. split.
      - intros [[|[-> Hx]]|(part & Hin & Hpart)]; [by left|right; exists (p, mine); split_and!; [left|..]; done|right; exists part; by split; [right|]].
      - intros [|(part & [->|Hin]%elem_of_cons & <- & Hx)]; [by left; left|left; right; done|right; by exists part]. }
  destruct Hd as (Hc & Hs & Hf). split_and!; cbn [map concat fst snd]; [|by apply sublist_skip|].
  - rewrite Hc. apply take_drop.
  - constructor; [|done]. cbn. unfold mine. destruct (Z.to_nat k) eqn:He; [lia|done].
Qed.

Lemma sort_peers_perm (t : PeersTasks.PeersTasks (LH := LH) (LB := LB)) peers :
  exists sorted, PeersTasks.sort_peers_for_blocks (E := E) t peers = Ok sorted /\ sorted ≡ₚ peers.
Proof. unfold PeersTasks.sort_peers_for_blocks. apply sort_by_perm. by eexists. Qed.

(** C20: Blocks are divided among the peers without fail: every block is asked of exactly one
    of them, no peer is asked twice or for nothing, each is remembered to have been asked
    for what it was sent, and nothing else changes. *)
Theorem blocks_requests_divided n limits peers hashes c :
  0 < min_blocks_in_request limits -> 0 < max_blocks_in_request limits -> peers <> [] -> NoDup peers -> zlen peers < 2 ^ 64 -> wf n (peers_tasks c) ->
  exists t parts c', prepare_blocks_requests_tasks (E := E) now limits peers hashes c = Ok (requests t parts, c') /\
    concat (map snd parts) = hashes /\ NoDup (map fst parts) /\ (forall p, p ∈ map fst parts -> p ∈ peers) /\
    Forall (fun part => part.2 <> []) parts /\ asked_more parts c c' /\ wf n (peers_tasks c').
Proof.
  intros Hmin Hmax Hne Hnd Hlen Hw. unfold prepare_blocks_requests_tasks.
  destruct (sort_peers_perm (peers_tasks c) peers) as (sorted & Hsort & Hperm).
  rewrite (bind_step _ _ _ sorted c) by (unfold step; by rewrite Hsort).
  assert (sorted <> []) as Hne' by (intros ->; by apply Permutation_nil_l in Hperm).
  assert (0 < zlen sorted < 2 ^ 64) as Hlen' by (rewrite Hperm; destruct peers; [done|cbn [length] in *; lia]).
  rewrite (bind_step _ _ _ (zlen sorted - 1) c) by (unfold lift; by rewrite ucheck_Ok by (unfold uint; lia)).
  rewrite (bind_step _ _ _ (segwit_possible (chain c)) c) by done. cbn zeta. set (t := if segwit_possible (chain c) then _ else _).
  set (chunk := Z.min _ _). destruct (request_loop_spec n t chunk sorted c 0 hashes) as (parts & c' & Hr & (Hc & Hs & Hf) & Ha & Hw'); [unfold chunk; lia|done|done|].
  rewrite (bind_step _ _ _ (requests t parts, []) c') by exact Hr. exists t, parts, c'. split; [done|]. split_and!; [done| | |done|done|done].
  - eapply sublist_NoDup; [|exact Hs]. by rewrite Hperm.
  - intros p Hp. rewrite <- Hperm. by eapply elem_of_sublist.
Qed.

(** Requests that one message can hold all go to one peer, however many peers there are. *)
Theorem few_blocks_one_peer n limits peers hashes c :
  0 < min_blocks_in_request limits -> 0 < zlen hashes <= max_blocks_in_request limits -> zlen hashes < 2 ^ 32 ->
  peers <> [] -> zlen peers < 2 ^ 64 -> wf n (peers_tasks c) ->
  exists t p c', prepare_blocks_requests_tasks (E := E) now limits peers hashes c = Ok (requests t [(p, hashes)], c').
Proof.
  intros Hmin Hmax Hsmall Hne Hlen Hw. unfold prepare_blocks_requests_tasks. destruct (sort_peers_perm (peers_tasks c) peers) as (sorted & Hsort & Hperm).
  rewrite (bind_step _ _ _ sorted c) by (unfold step; by rewrite Hsort).
  assert (zlen sorted < 2 ^ 64) as Hlen' by (by rewrite Hperm). destruct sorted as [|p sorted]; [by apply Permutation_nil_l in Hperm|].
  rewrite (bind_step _ _ _ (zlen (p :: sorted) - 1) c) by (unfold lift; by rewrite ucheck_Ok by (unfold uint; cbn [length] in *; lia)).
  rewrite (bind_step _ _ _ (segwit_possible (chain c)) c) by done. cbn zeta. set (t := if segwit_possible (chain c) then _ else _).
  unfold wrap. rewrite Z.mod_small by lia. set (chunk := Z.min _ _). cbn [request_loop].
  set (k := if 0 =? _ then _ else _). assert (k = zlen hashes) as -> by (unfold k, chunk; destruct (_ =? _); lia).
  rewrite (proj2 (Z.eqb_neq (zlen hashes) 0)), Nat2Z.id, take_ge, drop_all by lia.
  destruct (on_blocks_requested_spec (E := E) n now (peers_tasks c) p hashes Hw) as (t1 & Ht1 & _). exists t, p, (set_tasks t1 c).
  assert (forall i j, request_loop (E := E) now t chunk j i sorted [] (set_tasks t1 c) = Ok (([], []), set_tasks t1 c)) as Hrest.
  { intros i j. destruct sorted as [|q sorted]; [done|]. cbn [request_loop length]. destruct (i =? j); [done|]. by rewrite Z.min_l by (unfold chunk; lia). }
  rewrite (bind_step _ _ _ (requests t [(p, hashes)], []) (set_tasks t1 c)); [done|].
  rewrite (bind_step _ _ _ tt (set_tasks t1 c)) by (unfold on_tasks; by rewrite Ht1). by rewrite (bind_step _ _ _ ([], []) (set_tasks t1 c)) by apply Hrest.
Qed.

(** * Headers *)

(** A header that may follow the block [last]: nothing is known of it, and it is valid. *)
Definition may_follow c (last : bytes) (header : IndexedBlockHeader) : Prop :=
  previous_header_hash (ih_raw header) = last /\ block_state (E := E) (chain c) (ih_hash header) = Ok UnknownBlock.

Definition header_valid (header : IndexedBlockHeader) : Prop :=
  exists u, ChainVerifier.verify_block_header consensus current_time (ih_hash header) (ih_raw header) = Ok u.

(** A chain of such headers. *)
Fixpoint linked_from c (last : bytes) (headers : list IndexedBlockHeader) : Prop :=
  match headers with
  | [] => True
  | header :: headers => may_follow c last header /\ header_valid header /\ linked_from c (ih_hash header) headers
  end.

Lemma verify_headers_loop_spec p last provider index headers c r c' :
  verify_headers_enabled c = true -> verify_headers_loop (E := E) consensus current_time p last provider index headers c = Ok (r, c') ->
  match r with
  | Success => c' = c /\ linked_from c last headers
  | HeaderError i => exists good bad rest, headers = good ++ bad :: rest /\ i = (index + length good)%nat /\ linked_from c last good /\ ~ header_valid bad
  | Skip => True
  end.
Proof.
  intros Hen. revert last provider index. induction headers as [|header headers IH]; intros last provider index Hr; cbn [verify_headers_loop] in Hr.
  { injection Hr as <- <-. done. }
  case_bool_decide as Hprev; cbn [negb] in Hr; [|by apply bind_inv in Hr as (? & ? & _ & [= <- _])].
  apply read_inv in Hr as (st & Hst & Hr). apply bind_inv in Hr as (close & c1 & [= <- <-] & Hr).
  assert (st = UnknownBlock \/ r = Skip) as [->| ->]; [|apply bind_inv in Hr as (enabled & c1 & [= <- <-] & Hr)|done].
  { destruct st, (close_connection_on_bad_block c); try (by left); right; by apply bind_inv in Hr as (? & ? & _ & [= <- _]). }
  rewrite Hen in Hr. apply lift_inv in Hr as (valid & Hvalid & Hr).
  destruct (ChainVerifier.verify_block_header consensus current_time (ih_hash header) (ih_raw header)) as [u|e| |] eqn:Hv; [| |done..]; injection Hvalid as <-.
  - assert (may_follow c last header /\ header_valid header) as [Hm Hh] by (split; [done|by exists u]). apply IH in Hr. destruct r as [|i|]; [done| |].
    + destruct Hr as (good & bad & rest & -> & -> & Hg & Hb). exists (header :: good), bad, rest. split_and!; [done|cbn; lia|by split_and!|done].
    + destruct Hr as [-> Hl]. by split_and!.
  - apply bind_inv in Hr as (? & ? & _ & [= <- _]). exists [], header, headers. split_and!; [done|cbn; lia|done|]. intros [u Hu]. congruence.
Qed.

(** C22: Headers that pass are a chain on top of [last], none of them known and each of them
    valid; checking them changes nothing.  When one is reported as bad, it is not valid,
    and all before it pass. *)
Theorem verify_headers_sound p last headers c r c' :
  verify_headers_enabled c = true -> verify_headers (E := E) consensus current_time p last headers c = Ok (r, c') ->
  match r with
  | Success => c' = c /\ linked_from c last headers
  | HeaderError i => exists good bad rest, headers = good ++ bad :: rest /\ i = length good /\ linked_from c last good /\ ~ header_valid bad
  | Skip => True
  end.
Proof.
  intros Hen Hr. unfold verify_headers in Hr. apply read_inv in Hr as (best & _ & Hr). apply lift_inv in Hr as (provider & _ & Hr).
  exact (verify_headers_loop_spec p last provider 0 headers c r c' Hen Hr).
Qed.
End spec.

(** * Examples *)

Module ExampleClient.
Import Kv ChainVerifierExamples DbExamples ExampleCrypto Keys.ExampleKeys ExampleU256 ExampleBits ExampleRayon ExampleLinked BlocksWriterSpec.BlocksWriterSpec.ExampleImport SyncNodeSpec.SyncNodeSpec.ExampleRun.
#[local] Existing Instances MemoryPoolSpec.ExamplePool.elements_order.

Definition twelve : list bytes := map (fun i => le_bytes 32 (Z.of_nat i)) (seq 0 12).
Definition limits : BlocksRequestLimits := mkLimits 10 10 10 2 5.

Lemma first_node_ok : exists n0, first_node = Ok n0 /\ peers_tasks (SyncNode.core n0) = PeersTasks.default /\ verify_headers_enabled (SyncNode.core n0) = true.
Proof.
  assert (is_ok first_node = true) as Hn by (vm_compute; reflexivity). destruct first_node as [n0| | |] eqn:H0; [|done..]. exists n0. split; [done|].
  unfold first_node, SyncNode.new in H0. apply bind_Ok in H0 as (ch & _ & H0). apply bind_Ok in H0 as (c & Hc & H0). apply bind_Ok in H0 as (v & _ & H0).
  injection H0 as <-. unfold ClientCore.new in Hc. cbn [SyncNode.core]. repeat apply bind_Ok in Hc as (? & _ & Hc). by injection Hc as <-.
Qed.

Lemma blocks_requests_divided_witness : exists n0, first_node = Ok n0 /\
  exists t parts c', prepare_blocks_requests_tasks (E := unit) now limits [1; 2; 3] twelve (SyncNode.core n0) = Ok (requests t parts, c') /\
    concat (map snd parts) = twelve /\ NoDup (map fst parts).
Proof.
  destruct first_node_ok as (n0 & Hn & Ht & _). exists n0. split; [done|].
  destruct (blocks_requests_divided (E := unit) now PeersTasks.MAX_PEER_FAILURES limits [1; 2; 3] twelve (SyncNode.core n0)) as (t & parts & c' & Hr & Hc & Hd & _);
    [done|done|done|apply (bool_decide_eq_true_1 (NoDup [1; 2; 3])); vm_compute; reflexivity|vm_compute; reflexivity|rewrite Ht; apply wf_default|by exists t, parts, c'].
Defined.

Lemma verify_headers_sound_witness : exists n0 c', first_node = Ok n0 /\
  verify_headers (E := unit) consensus 4000 1 (ih_hash ChainVerifierExamples.genesis) [ib_header second_block] (SyncNode.core n0) = Ok (Success, c') /\
  c' = SyncNode.core n0 /\ linked_from (E := unit) consensus 4000 (SyncNode.core n0) (ih_hash ChainVerifierExamples.genesis) [ib_header second_block].
Proof.
  destruct first_node_ok as (n0 & Hn & _ & Hen).
  assert (match (n0 ← first_node; verify_headers (E := unit) consensus 4000 1 (ih_hash ChainVerifierExamples.genesis) [ib_header second_block] (SyncNode.core n0)) with
          | Ok (Success, _) => true | _ => false end = true) as Hr by (vm_compute; reflexivity).
  rewrite Hn, ok_bind in Hr. destruct (verify_headers _ _ _ _ _ _) as [[[| |] c']| | |] eqn:Hv; [done|done| |done..].
  exists n0, c'. split_and!; [done|done|..]; apply (verify_headers_sound (E := unit) consensus 4000 1 _ _ _ Success c' Hen Hv).
Defined.
End ExampleClient.
End ClientCoreSpec.
