(* ===== verification/SyncExecutor.v ===== *)
(** The executor of synchronization tasks (src/sync/src/synchronization_executor.rs): what
    is sent to the peers, and what is remembered of it.

    A task changes the peers (Peers.v), and gives the messages that go out, each with the
    connection it is given to.  The nonces of compact blocks are drawn at random: [nonce]
    is the one for a peer. *)
From Stdlib Require Import ZArith Lia Strings.Byte.
From stdpp Require Import base decidable numbers countable gmap list.
From S2P Require Import Prelude Crypto Serialization Codec Chain ChainHash Network Storage Message LinkedMap Filters FiltersSpec Peers Deployments.
From S2P Require Import MemoryPool Kv Db HashQueue OrphanPools SyncChain Float64 PeersTasks ClientCore.

Local Open Scope Z_scope.

Module SyncExecutor.
Import SyncTask Chain ChainHash Message Peers.

(** The calls of a connection. *)
Inductive Outgoing :=
  | ConnIgnored (request_id : Z)
  | SendGetData (message : list InventoryVector)
  | SendGetHeaders (message : Locator)
  | SendMemPool
  | SendBlock (message : Chain.Block)
  | SendMerkleBlock (message : Message.MerkleBlock)
  | ConnSendCompactBlock (message : BlockHeaderAndIDs)
  | SendWitnessBlock (message : Chain.Block)
  | SendTransaction (message : Chain.Transaction)
  | SendWitnessTransaction (message : Chain.Transaction)
  | SendBlockTxn (message : BlockTransactions)
  | SendNotFound (message : list InventoryVector)
  | ConnSendInventory (message : list InventoryVector)
  | RespondHeaders (message : list BlockHeader) (request_id : Z)
  | ConnSendHeaders (message : list BlockHeader).

Section executor.
Context `{Crypto} `{Murmur3} `{BitVec} `{LinkedHashMap bytes KnownHash.KnownHashType} {connection E : Type}.
Abbreviation PeersImpl := (PeersImpl (connection := connection)).
Abbreviation result := (list (connection * Outgoing) * PeersImpl)%type.
Variable nonce : Z -> Z.

(** [if let Some(connection) = self.peers.connection(peer_index)]. *)
Definition with_connection (self : PeersImpl) (peer_index : Z) (f : connection -> result) : result :=
  match peer_connection_of self peer_index with
  | Some c => f c
  | None => ([], self)
  end.

Definition send (self : PeersImpl) (peer_index : Z) (message : Outgoing) : result :=
  with_connection self peer_index (fun c => ([(c, message)], self)).

(** The peer knows what it is sent. *)
Definition send_known (self : PeersImpl) (peer_index : Z) (hash : bytes) (t : KnownHash.KnownHashType) (message : Outgoing) : result :=
  with_connection self peer_index (fun c => ([(c, message)], hash_known_as self peer_index hash t)).

Definition execute_ignore self peer_index request_id := send self peer_index (ConnIgnored request_id).
Definition execute_getdata self peer_index getdata := send self peer_index (SendGetData getdata).
Definition execute_getheaders self peer_index getheaders := send self peer_index (SendGetHeaders getheaders).
Definition execute_memorypool self peer_index := send self peer_index SendMemPool.
Definition execute_block self peer_index (block : IndexedBlock) :=
  send_known self peer_index (ih_hash (ib_header block)) KnownHash.Block (SendBlock (to_raw_block block)).
Definition execute_merkleblock self peer_index hash block := send_known self peer_index hash KnownHash.Block (SendMerkleBlock block).
Definition execute_compact_block self peer_index hash block :=
  send_known self peer_index hash KnownHash.CompactBlock (ConnSendCompactBlock block).
Definition execute_witness_block self peer_index (block : IndexedBlock) :=
  send_known self peer_index (ih_hash (ib_header block)) KnownHash.Block (SendWitnessBlock (to_raw_block block)).
Definition execute_transaction self peer_index (tx : IndexedTransaction) :=
  send_known self peer_index (itx_hash tx) KnownHash.Transaction (SendTransaction (itx_raw tx)).
Definition execute_witness_transaction self peer_index (tx : IndexedTransaction) :=
  send_known self peer_index (itx_hash tx) KnownHash.Transaction (SendWitnessTransaction (itx_raw tx)).
Definition execute_block_txn self peer_index blocktxn := send self peer_index (SendBlockTxn blocktxn).
Definition execute_notfound self peer_index notfound := send self peer_index (SendNotFound notfound).
Definition execute_inventory self peer_index inventory := send self peer_index (ConnSendInventory inventory).
Definition execute_headers self peer_index headers (request_id : option Z) :=
  send self peer_index (match request_id with Some id => RespondHeaders headers id | None => ConnSendHeaders headers end).

(** The announcement of a block to one peer. *)
Definition announce_block (self : PeersImpl) (block : IndexedBlock) (peer_index : Z) : outcome E result :=
  match filter_block self peer_index block with
  | SendInventory => Ok (execute_inventory self peer_index [mkInventory MessageBlock (ih_hash (ib_header block))])
  | SendHeaders => Ok (execute_headers self peer_index [ih_raw (ib_header block)] None)
  | SendCompactBlock =>
      compact_block ← build_compact_block (nonce peer_index) self peer_index block;
      Ok (match compact_block with
          | Some compact_block => execute_compact_block self peer_index (ih_hash (ib_header block)) compact_block
          | None => ([], self)
          end)
  | DoNotAnnounce => Ok ([], self)
  end.

Fixpoint relay (announce : PeersImpl -> Z -> outcome E result) (self : PeersImpl) (indexes : list Z) : outcome E result :=
  match indexes with
  | [] => Ok ([], self)
  | peer_index :: indexes =>
      '(sent, self) ← announce self peer_index;
      '(rest, self) ← relay announce self indexes;
      Ok (sent ++ rest, self)
  end.

Definition execute_relay_block (self : PeersImpl) (block : IndexedBlock) : outcome E result :=
  relay (fun self => announce_block self block) self (enumerate self).

Definition announce_transaction (self : PeersImpl) (tx : IndexedTransaction) (fee_rate peer_index : Z) : outcome E result :=
  '(announcement, self) ← filter_transaction self peer_index tx (Some fee_rate);
  Ok (match announcement with
      | TxSendInventory => execute_inventory self peer_index [mkInventory MessageTx (itx_hash tx)]
      | TxDoNotAnnounce => ([], self)
      end).

Definition execute_relay_transaction (self : PeersImpl) (tx : IndexedTransaction) (fee_rate : Z) : outcome E result :=
  relay (fun self => announce_transaction self tx fee_rate) self (enumerate self).

Definition execute (self : PeersImpl) (task : Task) : outcome E result :=
  match task with
  | Ignore peer_index request_id => Ok (execute_ignore self peer_index request_id)
  | GetData peer_index getdata => Ok (execute_getdata self peer_index getdata)
  | GetHeaders peer_index getheaders => Ok (execute_getheaders self peer_index getheaders)
  | SyncTask.MemoryPool peer_index => Ok (execute_memorypool self peer_index)
  | SyncTask.Block peer_index block => Ok (execute_block self peer_index block)
  | SyncTask.MerkleBlock peer_index hash block => Ok (execute_merkleblock self peer_index hash block)
  | CompactBlock peer_index hash block => Ok (execute_compact_block self peer_index hash block)
  | WitnessBlock peer_index block => Ok (execute_witness_block self peer_index block)
  | SyncTask.Transaction peer_index tx => Ok (execute_transaction self peer_index tx)
  | WitnessTransaction peer_index tx => Ok (execute_witness_transaction self peer_index tx)
  | BlockTxn peer_index blocktxn => Ok (execute_block_txn self peer_index blocktxn)
  | NotFound peer_index notfound => Ok (execute_notfound self peer_index notfound)
  | Inventory peer_index inventory => Ok (execute_inventory self peer_index inventory)
  | Headers peer_index headers request_id => Ok (execute_headers self peer_index headers request_id)
  | RelayNewBlock block => execute_relay_block self block
  | RelayNewTransaction tx fee_rate => execute_relay_transaction self tx fee_rate
  end.

End executor.
End SyncExecutor.
