(* ===== verification/SyncServer.v ===== *)
(** The synchronization server (src/sync/src/synchronization_server.rs): requests of the
    peers wait in a queue for each peer, which are served in turn, one task at a time.

    Serving a task reads the storage and the memory pool; it gives the tasks for the
    executor (SyncExecutor.v), the peers after it, and possibly a task that goes to the
    front of the peer's queue.  [server_worker] is one turn of the worker thread; its
    waiting for tasks and its end are left out. *)
From Stdlib Require Import ZArith Lia Strings.Byte.
From stdpp Require Import base decidable numbers countable gmap list.
From S2P Require Import Prelude Crypto Serialization Codec Chain ChainHash Network Storage Message LinkedMap Filters FiltersSpec Peers.
From S2P Require Import MemoryPool Kv Db HashQueue OrphanPools SyncChain Float64 PeersTasks ClientCore SyncExecutor.

Local Open Scope Z_scope.

Module SyncServer.
Import SyncTask Chain ChainHash Network Storage Message Peers.

Definition GETBLOCKS_MAX_RESPONSE_HASHES : nat := 500.
Definition GETHEADERS_MAX_RESPONSE_HEADERS : nat := 2000.

Inductive ServerTask :=
  | ServeGetData (peer_index : Z) (message : list InventoryVector)
  | ServeReversedGetData (peer_index : Z) (message notfound : list InventoryVector)
  | ServeGetBlocks (peer_index : Z) (message : Locator)
  | ServeGetHeaders (peer_index : Z) (message : Locator) (request_id : Z)
  | ServeMempool (peer_index : Z)
  | ServeGetBlockTxn (peer_index : Z) (message : BlockTransactionsRequest).

Definition task_peer (task : ServerTask) : Z :=
  match task with
  | ServeGetData p _ | ServeReversedGetData p _ _ | ServeGetBlocks p _ | ServeGetHeaders p _ _ | ServeMempool p | ServeGetBlockTxn p _ => p
  end.

(** * The queue *)

Record ServerQueue := mkQueue { peers_queue : list Z; tasks_queue : gmap Z (list ServerTask) }.

Definition queue_new : ServerQueue := mkQueue [] ∅.

Definition next_task {E} (self : ServerQueue) : outcome E (option ServerTask * ServerQueue) :=
  match peers_queue self with
  | [] => Ok (None, self)
  | peer_index :: queue =>
      peer_tasks ← expect (tasks_queue self !! peer_index);
      peer_task ← expect (head peer_tasks);
      let rest := tail peer_tasks in
      Ok (Some peer_task,
          if negb (bool_decide (length rest = 0%nat))
          then mkQueue (queue ++ [peer_index]) (<[peer_index := rest]> (tasks_queue self))
          else mkQueue queue (delete peer_index (tasks_queue self)))
  end.

(** Both [add_task] and [add_task_front]: [put] adds the task to those of the peer. *)
Definition add_with (put : ServerTask -> list ServerTask -> list ServerTask) (self : ServerQueue) (task : ServerTask) : ServerQueue :=
  let peer_index := task_peer task in
  match tasks_queue self !! peer_index with
  | Some tasks =>
      mkQueue (if bool_decide (length tasks = 0%nat) then peers_queue self ++ [peer_index] else peers_queue self)
        (<[peer_index := put task tasks]> (tasks_queue self))
  | None => mkQueue (peers_queue self ++ [peer_index]) (<[peer_index := [task]]> (tasks_queue self))
  end.

Definition add_task : ServerQueue -> ServerTask -> ServerQueue := add_with (fun task tasks => tasks ++ [task]).
Definition add_task_front : ServerQueue -> ServerTask -> ServerQueue := add_with cons.

Fixpoint remove_first (p : Z) (l : list Z) : list Z :=
  match l with
  | [] => []
  | q :: l => if bool_decide (q = p) then l else q :: remove_first p l
  end.

Definition remove_peer_tasks {E} (self : ServerQueue) (peer_index : Z) : outcome E ServerQueue :=
  match tasks_queue self !! peer_index with
  | None => Ok self
  | Some _ =>
      _ ← rust_assert (bool_decide (peer_index ∈ peers_queue self));
      Ok (mkQueue (remove_first peer_index (peers_queue self)) (delete peer_index (tasks_queue self)))
  end.

(** * Serving *)

Section server.
Context `{Crypto} `{Murmur3} `{BitVec} `{LinkedHashMap bytes KnownHash.KnownHashType} `{!HashOrder} {connection E : Type}.
Context {T : Type} `{!Kv.KeyValueDatabase T}.
Abbreviation PeersImpl := (PeersImpl (connection := connection)).
Abbreviation served := (option ServerTask * list Task * PeersImpl)%type.
Variables (nonce : Z -> Z) (storage : Db.BlockChainDatabase T) (memory_pool : MemoryPool.Pool).

Definition serve_get_data (peers : PeersImpl) (peer_index : Z) (message : list InventoryVector) : served :=
  (Some (ServeReversedGetData peer_index (rev message) []), [], peers).

(** The answer to one item, or [None] when it is not found. *)
Definition serve_item (peers : PeersImpl) (peer_index : Z) (item : InventoryVector) : outcome E (option (list Task) * PeersImpl) :=
  match inv_type item with
  | MessageTx =>
      Ok (option_map (fun tx => [SyncTask.Transaction peer_index (mkIndexedTx (inv_hash item) tx)])
            (MemoryPool.read_by_hash memory_pool (inv_hash item)), peers)
  | MessageWitnessTx =>
      Ok (option_map (fun tx => [WitnessTransaction peer_index (mkIndexedTx (inv_hash item) tx)])
            (MemoryPool.read_by_hash memory_pool (inv_hash item)), peers)
  | MessageBlock =>
      block ← Db.block storage (Hash (inv_hash item));
      Ok (option_map (fun block => [SyncTask.Block peer_index block]) block, peers)
  | MessageFilteredBlock =>
      block ← Db.block storage (Hash (inv_hash item));
      match block with
      | Some block =>
          '(artefacts, peers) ← build_merkle_block peers peer_index block;
          Ok (option_map (fun a => SyncTask.MerkleBlock peer_index (ih_hash (ib_header block)) (Connection.merkleblock a) ::
                map (SyncTask.Transaction peer_index) (Connection.matching_transactions a)) artefacts, peers)
      | None => Ok (None, peers)
      end
  | MessageCompactBlock =>
      block ← Db.block storage (Hash (inv_hash item));
      match block with
      | Some block =>
          message ← build_compact_block (nonce peer_index) peers peer_index block;
          Ok (Some (match message with Some m => [CompactBlock peer_index (ih_hash (ib_header block)) m] | None => [] end), peers)
      | None => Ok (None, peers)
      end
  | MessageWitnessBlock =>
      block ← Db.block storage (Hash (inv_hash item));
      Ok (option_map (fun block => [WitnessBlock peer_index block]) block, peers)
  | InvError | MessageWitnessFilteredBlock => Ok (Some [], peers)
  end.

Definition serve_reversed_get_data (peers : PeersImpl) (peer_index : Z) (message notfound : list InventoryVector) : outcome E served :=
  match last message with
  | None => Ok (None, if negb (bool_decide (length notfound = 0%nat)) then [NotFound peer_index notfound] else [], peers)
  | Some next_item =>
      '(answer, peers) ← serve_item peers peer_index next_item;
      let notfound := match answer with Some _ => notfound | None => notfound ++ [next_item] end in
      Ok (Some (ServeReversedGetData peer_index (removelast message) notfound), match answer with Some tasks => tasks | None => [] end, peers)
  end.

(** Following the parents of a block off the main chain. *)
Fixpoint common_ancestor (fuel : nat) (block_hash : bytes) : outcome E (option Z) :=
  match fuel with
  | O => Diverge
  | S fuel =>
      header ← Db.block_header storage (Hash block_hash);
      match header with
      | None => Ok None
      | Some header =>
          let previous := previous_header_hash (ih_raw header) in
          number ← Db.block_number storage previous;
          match number with
          | Some number => Ok (Some number)
          | None => common_ancestor fuel previous
          end
      end
  end.

Fixpoint locate (fuel : nat) (hashes : list bytes) : outcome E (option Z) :=
  match hashes with
  | [] => Ok None
  | block_hash :: hashes =>
      number ← Db.block_number storage block_hash;
      match number with
      | Some number => Ok (Some number)
      | None =>
          ancestor ← common_ancestor fuel block_hash;
          match ancestor with
          | Some number => Ok (Some number)
          | None => locate fuel hashes
          end
      end
  end.

Definition locate_best_common_block (fuel : nat) (hash_stop : bytes) (locator : list bytes) : outcome E (option Z) :=
  locate fuel (locator ++ [hash_stop]).

(** The hashes of the main chain from a number on, at most [n], before [hash_stop]. *)
Fixpoint hashes_after (n : nat) (number : Z) (hash_stop : bytes) : outcome E (list bytes) :=
  match n with
  | O => Ok []
  | S n =>
      hash ← Db.block_hash storage number;
      match hash with
      | None => Ok []
      | Some hash =>
          if bool_decide (hash = hash_stop) then Ok [] else
          rest ← hashes_after n (number + 1) hash_stop; Ok (hash :: rest)
      end
  end.

Definition serve_get_blocks (fuel : nat) (peers : PeersImpl) (peer_index : Z) (message : Locator) : outcome E served :=
  common ← locate_best_common_block fuel (hash_stop message) (block_locator_hashes message);
  match common with
  | Some block_height =>
      first ← ucheck 32 (block_height + 1);
      _ ← ucheck 32 (first + Z.of_nat GETBLOCKS_MAX_RESPONSE_HASHES);
      hashes ← hashes_after GETBLOCKS_MAX_RESPONSE_HASHES first (hash_stop message);
      let inventory := map (mkInventory MessageBlock) hashes in
      Ok (None, if negb (bool_decide (length inventory = 0%nat)) then [Inventory peer_index inventory] else [], peers)
  | None => Ok (None, [], disconnect peers peer_index)
  end.

(** The headers of these hashes, up to the first that is missing. *)
Fixpoint headers_of (hashes : list bytes) : outcome E (list BlockHeader) :=
  match hashes with
  | [] => Ok []
  | hash :: hashes =>
      header ← Db.block_header storage (Hash hash);
      match header with
      | None => Ok []
      | Some header => rest ← headers_of hashes; Ok (ih_raw header :: rest)
      end
  end.

Definition serve_get_headers (fuel : nat) (peers : PeersImpl) (peer_index : Z) (message : Locator) (request_id : Z) : outcome E served :=
  common ← locate_best_common_block fuel (hash_stop message) (block_locator_hashes message);
  match common with
  | Some block_height =>
      first ← ucheck 32 (block_height + 1);
      _ ← ucheck 32 (first + Z.of_nat GETHEADERS_MAX_RESPONSE_HEADERS);
      hashes ← hashes_after GETHEADERS_MAX_RESPONSE_HEADERS first (hash_stop message);
      headers ← headers_of hashes;
      Ok (None, [Headers peer_index headers (Some request_id)], peers)
  | None => Ok (None, [], disconnect peers peer_index)
  end.

Definition serve_mempool (peers : PeersImpl) (peer_index : Z) : served :=
  let inventory := map (mkInventory MessageTx) (MemoryPool.get_transactions_ids memory_pool) in
  (None, if negb (bool_decide (length inventory = 0%nat)) then [Inventory peer_index inventory] else [], peers).

(** The transactions at the requested positions.  [inl true]: the request is bad; [inl
    false]: a transaction is missing in the storage. *)
Fixpoint requested_transactions (hashes : list bytes) (requested_indexes : gset Z) (indexes : list Z) : outcome E (bool + list Transaction) :=
  match indexes with
  | [] => Ok (inr [])
  | i :: indexes =>
      if zlen hashes <=? i then Ok (inl true) else
      if bool_decide (i ∈ requested_indexes) then Ok (inl true) else
      hash ← index hashes (Z.to_nat i);
      transaction ← Db.transaction storage hash;
      match transaction with
      | Some transaction =>
          rest ← requested_transactions hashes ({[i]} ∪ requested_indexes) indexes;
          Ok (match rest with inr l => inr (itx_raw transaction :: l) | inl b => inl b end)
      | None => Ok (inl false)
      end
  end.

Definition serve_get_block_txn (peers : PeersImpl) (peer_index : Z) (message : BlockTransactionsRequest) : outcome E served :=
  if negb (is_hash_known_as peers peer_index (btr_blockhash message) KnownHash.CompactBlock)
  then Ok (None, [], disconnect peers peer_index) else
  block_transactions ← Db.block_transaction_hashes storage (Hash (btr_blockhash message));
  if zlen block_transactions <? zlen (indexes message) then Ok (None, [], disconnect peers peer_index) else
  r ← requested_transactions block_transactions ∅ (indexes message);
  Ok (match r with
      | inr transactions => (None, [BlockTxn peer_index (mkBlockTransactions (btr_blockhash message) transactions)], peers)
      | inl true => (None, [], disconnect peers peer_index)
      | inl false => (None, [], peers)
      end).

Definition execute (fuel : nat) (peers : PeersImpl) (task : ServerTask) : outcome E served :=
  match task with
  | ServeGetData p message => Ok (serve_get_data peers p message)
  | ServeReversedGetData p message notfound => serve_reversed_get_data peers p message notfound
  | ServeGetBlocks p message => serve_get_blocks fuel peers p message
  | ServeGetHeaders p message request_id => serve_get_headers fuel peers p message request_id
  | ServeMempool p => Ok (serve_mempool peers p)
  | ServeGetBlockTxn p message => serve_get_block_txn peers p message
  end.

(** * The worker *)

(** Calls of the executor, in turn. *)
Fixpoint execute_all (peers : PeersImpl) (tasks : list Task) : outcome E (list (connection * SyncExecutor.Outgoing) * PeersImpl) :=
  match tasks with
  | [] => Ok ([], peers)
  | task :: tasks =>
      '(sent, peers) ← SyncExecutor.execute nonce peers task;
      '(rest, peers) ← execute_all peers tasks;
      Ok (sent ++ rest, peers)
  end.

(** One turn: nothing happens when no task waits. *)
Definition server_worker (fuel : nat) (queue : ServerQueue) (peers : PeersImpl)
    : outcome E (list (connection * SyncExecutor.Outgoing) * ServerQueue * PeersImpl) :=
  '(task, queue) ← next_task queue;
  match task with
  | Some task =>
      '(again, tasks, peers) ← execute fuel peers task;
      '(sent, peers) ← execute_all peers tasks;
      Ok (sent, match again with Some task => add_task_front queue task | None => queue end, peers)
  | None => Ok ([], queue, peers)
  end.

End server.
End SyncServer.
