(* ===== verification/SyncServerSpec.v ===== *)
(** What the server (SyncServer.v) answers: headers that follow the best block it has in
    common with the peer, items in the order they were asked for; and how the requests of
    many peers take turns. *)
From Stdlib Require Import ZArith Lia Strings.Byte.
From stdpp Require Import base decidable numbers countable gmap list relations.
From S2P Require Import Prelude Crypto Serialization Codec Chain ChainHash Network Storage Message LinkedMap Filters FiltersSpec Peers.
From S2P Require Import MemoryPool Kv Db DbSpec DbUtxo DbExamples HashQueue OrphanPools SyncChain Float64 PeersTasks ClientCore SyncExecutor SyncServer.

Local Open Scope Z_scope.

Module SyncServerSpec.
Import SyncTask Chain ChainHash Network Storage Message Peers DbSpec SyncServer.

(** * Headers and hashes of the main chain *)

(** The hashes before the first that is [stop]. *)
Fixpoint before (stop : bytes) (hs : list bytes) : list bytes :=
  match hs with
  | [] => []
  | h :: hs => if decide (h = stop) then [] else h :: before stop hs
  end.

Section storage.
Context `{BitVec} {T : Type} `{!Kv.KeyValueDatabase T} `{!Kv.KeyValueDatabaseLaws T} {E : Type}.
Variables (storage : Db.BlockChainDatabase T) (hs : list bytes).
Hypotheses (Hca : canonical storage hs) (Hroot : rooted (seen storage)) (Hne : hs <> []).
Abbreviation c := (seen storage).

Lemma hashes_after_spec n k stop : hashes_after (E := E) storage n (Z.of_nat k) stop = Ok (before stop (take n (drop k hs))).
Proof.
  revert k. induction n as [|n IH]; intros k; [done|]. cbn [hashes_after].
  rewrite block_hash_view, ok_bind by apply Hca. rewrite (cc_hash_at _ _ (ca_contents _ _ Hca)), Nat2Z.id by lia.
  destruct (hs !! k) as [h|] eqn:Hk.
  - rewrite (drop_S _ _ _ Hk). cbn. replace (Z.of_nat k + 1) with (Z.of_nat (S k)) by lia. rewrite IH, ok_bind.
    case_bool_decide; case_decide; done.
  - by rewrite drop_ge by (by apply lookup_ge_None).
Qed.

Lemma headers_of_spec l : (forall h, h ∈ l -> h ∈ hs) ->
  exists hds, headers_of (E := E) storage l = Ok hds /\ Forall2 (fun h hd => header_of c h = Some hd) l hds.
Proof.
  induction l as [|h l IH]; intros Hl; [by exists []|]. cbn [headers_of]. rewrite block_header_view, ok_bind by apply Hca.
  destruct (IH (fun x Hx => Hl x (list_elem_of_further _ _ _ Hx))) as (hds & -> & Hf).
  destruct (proj1 (list_elem_of_lookup _ _) (Hl h (list_elem_of_here _ _))) as [i Hi].
  destruct (cc_linked _ _ (ca_contents _ _ Hca) i h Hi) as (hd & Hhd & _). rewrite Hhd. cbn. exists (hd :: hds). split; [done|by constructor].
Qed.

(** The ancestor of a side block is where its route leaves the chain. *)
Lemma common_ancestor_spec h r i fuel :
  route c hs h r i -> h ∉ hs -> (length r <= fuel)%nat -> common_ancestor (E := E) storage fuel h = Ok (Some (Z.of_nat i)).
Proof.
  intros Hr. revert fuel. induction Hr as [h i Hi|h hd r i Hout Hh Hr IH]; intros fuel Hn Hf; [by apply list_elem_of_lookup_2 in Hi|].
  rewrite length_app in Hf. cbn in Hf. destruct fuel as [|fuel]; [lia|]. cbn [common_ancestor].
  rewrite block_header_view, ok_bind, Hh by apply Hca. cbn. rewrite block_number_view, ok_bind by apply Hca.
  destruct (decide (previous_header_hash hd ∈ hs)) as [[j Hj]%list_elem_of_lookup|Hp].
  - rewrite (number_of_chain _ _ Hca _ _ Hj). inversion Hr as [? ? Hi|? ? ? ? Hp]; subst.
    + by rewrite (NoDup_lookup _ _ _ _ (cc_nodup _ _ (ca_contents _ _ Hca)) Hi Hj).
    + by apply list_elem_of_lookup_2 in Hj.
  - rewrite (number_of_side _ _ Hca _ Hp). apply IH; [done|lia].
Qed.

Lemma unknown_not_in h : header_of c h = None -> h ∉ hs.
Proof. intros Hh [i Hi]%list_elem_of_lookup. destruct (cc_linked _ _ (ca_contents _ _ Hca) i h Hi) as (hd & Hhd & _). congruence. Qed.

(** The first stored hash decides: its own number, or that of the block where its side
    chain leaves the main chain. *)
Definition common (l : list bytes) (r : option Z) : Prop :=
  (r = None /\ Forall (fun h => header_of c h = None) l) \/
  (exists l1 h l2 route i, l = l1 ++ h :: l2 /\ Forall (fun h => header_of c h = None) l1 /\ DbSpec.route c hs h route i /\ r = Some (Z.of_nat i)).

Lemma locate_spec l : exists r bound, common l r /\ forall fuel, (bound <= fuel)%nat -> locate (E := E) storage fuel l = Ok r.
Proof.
  induction l as [|h l (r & bound & Hr & Hl)]; [exists None, O; split; [left; by split|done]|].
  destruct (header_of c h) as [hd|] eqn:Hh.
  - destruct (route_total c hs h (ca_contents _ _ Hca) Hne Hroot ltac:(by exists hd)) as (rt & i & Hrt).
    exists (Some (Z.of_nat i)), (length rt). split; [right; exists [], h, l, rt, i; by split_and!|]. intros fuel Hf. cbn [locate].
    rewrite block_number_view, ok_bind by apply Hca. destruct (decide (h ∈ hs)) as [[j Hj]%list_elem_of_lookup|Hn].
    + rewrite (number_of_chain _ _ Hca _ _ Hj). inversion Hrt as [? ? Hi|? ? ? ? Hp]; subst; [|by apply list_elem_of_lookup_2 in Hj].
      by rewrite (NoDup_lookup _ _ _ _ (cc_nodup _ _ (ca_contents _ _ Hca)) Hi Hj).
    + rewrite (number_of_side _ _ Hca _ Hn). by rewrite (common_ancestor_spec h rt i fuel Hrt Hn Hf), ok_bind.
  - exists r, (S bound). split.
    + destruct Hr as [[-> Hf]|(l1 & x & l2 & rt & i & -> & Hf & Hrt & ->)]; [left; split; [done|by constructor]|right].
      exists (h :: l1), x, l2, rt, i. split_and!; [done|by constructor|done..].
    + intros [|fuel] Hf; [lia|]. cbn [locate]. rewrite block_number_view, ok_bind by apply Hca.
      rewrite (number_of_side _ _ Hca _ (unknown_not_in _ Hh)). cbn [common_ancestor]. rewrite block_header_view, ok_bind by apply Hca.
      rewrite Hh. cbn. apply Hl. lia.
Qed.

Lemma before_prefix stop l : exists n, before stop l = take n l.
Proof.
  induction l as [|h l [n Hn]]; [by exists O|]. cbn. case_decide; [by exists O|]. exists (S n). cbn. by rewrite Hn.
Qed.

(** What is sent after position [i] is linked to it. *)
Lemma answer_linked i stop n hds k hd :
  Forall2 (fun h hd => header_of c h = Some hd) (before stop (take n (drop (S i) hs))) hds -> hds !! k = Some hd ->
  hs !! (i + k)%nat = Some (previous_header_hash hd).
Proof.
  intros Hf Hk. destruct (before_prefix stop (take n (drop (S i) hs))) as [m Hm]. rewrite Hm, take_take in Hf.
  destruct (Forall2_lookup_r _ _ _ _ _ Hf Hk) as (h & Hh & Hhd). apply lookup_take_Some in Hh as [Hh _]. rewrite lookup_drop in Hh.
  destruct (cc_linked _ _ (ca_contents _ _ Hca) _ _ Hh) as (hd' & Hhd' & Hp). rewrite Hhd in Hhd'. injection Hhd' as <-. exact Hp.
Qed.

Lemma route_bound h r i : route c hs h r i -> (i < length hs)%nat.
Proof. induction 1; [by eapply lookup_lt_Some|done]. Qed.

(** The answer to a getheaders request, on a storage that holds the chain [hs]. *)
Definition headers_answer {connection} `{LinkedHashMap bytes KnownHash.KnownHashType} (peers : PeersImpl (connection := connection)) (p : Z)
    (message : Locator) (id : Z) (answer : option ServerTask * list Task * PeersImpl (connection := connection)) : Prop :=
  (Forall (fun h => header_of c h = None) (block_locator_hashes message ++ [hash_stop message]) /\ answer = (None, [], disconnect peers p)) \/
  (exists l1 h l2 r i hds,
    block_locator_hashes message ++ [hash_stop message] = l1 ++ h :: l2 /\ Forall (fun h => header_of c h = None) l1 /\ route c hs h r i /\
    answer = (None, [Headers p hds (Some id)], peers) /\
    Forall2 (fun h hd => header_of c h = Some hd) (before (hash_stop message) (take GETHEADERS_MAX_RESPONSE_HEADERS (drop (S i) hs))) hds /\
    forall k hd, hds !! k = Some hd -> hs !! (i + k)%nat = Some (previous_header_hash hd)).

(** C17: A getheaders request is always answered.  A peer none of whose hashes is stored is
    disconnected.  Otherwise the first stored hash of the locator, or else [hash_stop],
    decides: the peer gets the headers of the main chain that follow that block, or that
    follow the block where its branch leaves the main chain; in order, at most 2000,
    without [hash_stop] and what comes after it; each names the one before it, the first
    the common block. *)
Theorem serve_get_headers_correct {connection} `{LinkedHashMap bytes KnownHash.KnownHashType} (peers : PeersImpl (connection := connection)) p message id :
  zlen hs + 2001 < 2 ^ 32 ->
  exists answer bound, headers_answer peers p message id answer /\
    forall fuel, (bound <= fuel)%nat -> serve_get_headers (E := E) storage fuel peers p message id = Ok answer.
Proof.
  intros Hlen. unfold serve_get_headers, locate_best_common_block.
  destruct (locate_spec (block_locator_hashes message ++ [hash_stop message])) as (r & bound & [[-> Hf]|(l1 & h & l2 & rt & i & Hl & Hf & Hr & ->)] & Hloc).
  - exists (None, [], disconnect peers p), bound. split; [by left|]. intros fuel Hfuel. by rewrite Hloc, ok_bind.
  - pose proof (route_bound _ _ _ Hr) as Hi. destruct (before_prefix (hash_stop message) (take GETHEADERS_MAX_RESPONSE_HEADERS (drop (S i) hs))) as [m Hm].
    destruct (headers_of_spec (before (hash_stop message) (take GETHEADERS_MAX_RESPONSE_HEADERS (drop (S i) hs)))) as (hds & Hhds & Hf2).
    { intros x. rewrite Hm, take_take. intros (j & Hj & _)%elem_of_take. rewrite lookup_drop in Hj. by eapply list_elem_of_lookup_2. }
    exists (None, [Headers p hds (Some id)], peers), bound. split.
    + right. exists l1, h, l2, rt, i, hds. split_and!; try done. intros k hd. by apply answer_linked with (hash_stop message) GETHEADERS_MAX_RESPONSE_HEADERS.
    + intros fuel Hfuel. rewrite Hloc, ok_bind by done. change (Z.of_nat GETHEADERS_MAX_RESPONSE_HEADERS) with 2000.
      rewrite ucheck_Ok, ok_bind, ucheck_Ok, ok_bind by (unfold uint; lia).
      replace (Z.of_nat i + 1) with (Z.of_nat (S i)) by lia. rewrite hashes_after_spec, ok_bind, Hhds. done.
Qed.

End storage.
(** * The queue *)

Record queue_ok (q : ServerQueue) : Prop := {
  qo_nodup : NoDup (peers_queue q);
  qo_peers p : p ∈ peers_queue q <-> is_Some (tasks_queue q !! p);
  qo_tasks p ts : tasks_queue q !! p = Some ts -> ts <> [] /\ Forall (fun t => task_peer t = p) ts;
}.

(** The tasks that wait for a peer, in order. *)
Definition tasks_of (q : ServerQueue) (p : Z) : list ServerTask := default [] (tasks_queue q !! p).

Lemma queue_new_ok : queue_ok queue_new.
Proof. split; [constructor|intros p; cbn; rewrite lookup_empty; split; [by intros ?%elem_of_nil|by intros []]|done]. Qed.

Lemma add_with_spec put q t :
  (forall t ts, put t ts <> []) -> (forall P ts, Forall P ts -> P t -> Forall P (put t ts)) -> (put t [] = [t]) -> queue_ok q ->
  let q' := add_with put q t in
  queue_ok q' /\ (peers_queue q' = peers_queue q \/ peers_queue q' = peers_queue q ++ [task_peer t]) /\
  tasks_of q' (task_peer t) = put t (tasks_of q (task_peer t)) /\ forall p, p <> task_peer t -> tasks_of q' p = tasks_of q p.
Proof.
  intros Hne Hput Hnil [Hnd Hps Hts]. unfold add_with, tasks_of. cbn zeta. destruct (tasks_queue q !! task_peer t) as [ts|] eqn:Ht.
  - destruct (Hts _ _ Ht) as [Hts0 Hall]. rewrite bool_decide_eq_false_2 by (by destruct ts). cbn [peers_queue tasks_queue]. split_and!; [|by left| |].
    + split; cbn; [done| |].
      * intros p. rewrite Hps, lookup_insert_is_Some. destruct (decide (task_peer t = p)) as [<-|]; [rewrite Ht|]; naive_solver.
      * intros p ts'. rewrite lookup_insert_Some. intros [[<- <-]|[_ Hp]]; [split; [done|by apply Hput]|by apply Hts].
    + by rewrite lookup_insert_eq.
    + intros p Hp. by rewrite lookup_insert_ne.
  - cbn [peers_queue tasks_queue]. assert (task_peer t ∉ peers_queue q) as Hout by (rewrite Hps, Ht; by intros []). split_and!; [|by right| |].
    + split; cbn.
      * apply NoDup_app. split_and!; [done|by intros x Hx ->%list_elem_of_singleton|apply NoDup_singleton].
      * intros p. rewrite elem_of_app, list_elem_of_singleton, Hps, lookup_insert_is_Some. destruct (decide (task_peer t = p)); naive_solver.
      * intros p ts'. rewrite lookup_insert_Some. intros [[<- <-]|[_ Hp]]; [split; [done|by repeat constructor]|by apply Hts].
    + by rewrite lookup_insert_eq, <- Hnil.
    + intros p Hp. by rewrite lookup_insert_ne.
Qed.

Lemma add_task_ok q t : queue_ok q -> queue_ok (add_task q t).
Proof.
  intros Hq. apply (add_with_spec (fun t ts => ts ++ [t]) q t); [by destruct ts|by intros; apply Forall_app_2; [|constructor]|done|done].
Qed.

Lemma add_task_front_ok q t : queue_ok q -> queue_ok (add_task_front q t).
Proof. intros Hq. apply (add_with_spec cons q t); [done|by constructor|done|done]. Qed.

Lemma next_task_spec {E} q : queue_ok q ->
  match peers_queue q with
  | [] => next_task (E := E) q = Ok (None, q)
  | p :: ps => exists t q', next_task (E := E) q = Ok (Some t, q') /\ queue_ok q' /\ tasks_of q p = t :: tasks_of q' p /\ task_peer t = p /\
      (peers_queue q' = ps \/ peers_queue q' = ps ++ [p]) /\ forall p', p' <> p -> tasks_of q' p' = tasks_of q p'
  end.
Proof.
  intros [Hnd Hps Hts]. unfold next_task. destruct (peers_queue q) as [|p ps] eqn:Hq; [done|].
  destruct (proj1 (Hps p) (list_elem_of_here _ _)) as [ts Hp]. destruct (Hts _ _ Hp) as [Hne Hall]. rewrite Hp. cbn.
  destruct ts as [|t ts]; [done|]. cbn. exists t. apply Forall_cons in Hall as [Ht Hall]. apply NoDup_cons in Hnd as [Hout Hnd].
  case_bool_decide as Hlen; cbn [negb]; eexists; (split; [done|]); unfold tasks_of; cbn [peers_queue tasks_queue]; rewrite Hp.
  - apply nil_length_inv in Hlen as ->. rewrite lookup_delete_eq. split_and!; [|done..|by left|intros p' Hp'; by rewrite lookup_delete_ne].
    split; cbn; [done| |].
    + intros p'. rewrite lookup_delete_is_Some, <- Hps, elem_of_cons. naive_solver.
    + intros p' ts'. rewrite lookup_delete_Some. intros [_ Hp']. by apply Hts.
  - rewrite lookup_insert_eq. split_and!; [|done..|by right|intros p' Hp'; by rewrite lookup_insert_ne]. split; cbn.
    + apply NoDup_app. split_and!; [done|by intros x Hx ->%list_elem_of_singleton|apply NoDup_singleton].
    + intros p'. rewrite elem_of_app, list_elem_of_singleton, lookup_insert_is_Some, <- Hps, elem_of_cons. destruct (decide (p = p')); naive_solver.
    + intros p' ts'. rewrite lookup_insert_Some. intros [[<- <-]|[_ Hp']]; [split; [by destruct ts|done]|by apply Hts].
Qed.

Lemma filter_out (p : Z) (l : list Z) : p ∉ l -> filter (fun q => q <> p) l = l.
Proof.
  induction l as [|q l IH]; [done|]. intros [Hn Hl]%not_elem_of_cons. rewrite filter_cons, decide_True by congruence. by rewrite IH.
Qed.

Lemma remove_first_filter p l : NoDup l -> remove_first p l = filter (fun q => q <> p) l.
Proof.
  induction l as [|q l IH]; [done|]. intros [Hq Hl]%NoDup_cons. cbn [remove_first]. rewrite filter_cons. case_bool_decide as Hqp; case_decide; try congruence.
  - subst. by rewrite filter_out.
  - by rewrite IH.
Qed.

Lemma next_task_ok {E} q t q' : queue_ok q -> next_task (E := E) q = Ok (t, q') -> queue_ok q'.
Proof.
  intros Hq Hn. pose proof (next_task_spec (E := E) q Hq) as Hs. destruct (peers_queue q) as [|p ps]; [rewrite Hs in Hn; by injection Hn as <- <-|].
  destruct Hs as (t1 & q1 & Hs & Hok & _). rewrite Hs in Hn. by injection Hn as <- <-.
Qed.

Lemma remove_peer_tasks_spec {E} q p : queue_ok q -> exists q', remove_peer_tasks (E := E) q p = Ok q' /\ queue_ok q' /\
  peers_queue q' = filter (fun x => x <> p) (peers_queue q) /\ tasks_of q' p = [] /\ forall p', p' <> p -> tasks_of q' p' = tasks_of q p'.
Proof.
  intros Hok. pose proof Hok as [Hnd Hps Hts]. unfold remove_peer_tasks, tasks_of. destruct (tasks_queue q !! p) as [ts|] eqn:Hp.
  - rewrite bool_decide_eq_true_2 by (rewrite Hps, Hp; by eexists). rewrite remove_first_filter by done. eexists. split; [done|]. cbn [peers_queue tasks_queue].
    split_and!; [|done|by rewrite lookup_delete_eq|intros p' Hp'; by rewrite lookup_delete_ne]. split; cbn.
    + by apply NoDup_filter.
    + intros p'. rewrite list_elem_of_filter, lookup_delete_is_Some, <- Hps. naive_solver.
    + intros p' ts'. rewrite lookup_delete_Some. intros [_ Hp']. by apply Hts.
  - eexists. split; [done|]. split_and!; [done| |by rewrite Hp|done]. rewrite filter_out; [done|]. rewrite Hps, Hp. by intros [].
Qed.

Lemma filter_position (x : Z) (l : list Z) n p : l !! n = Some p -> p <> x -> exists n', (n' <= n)%nat /\ filter (fun q => q <> x) l !! n' = Some p.
Proof.
  revert n. induction l as [|q l IH]; intros n; [done|]. destruct n as [|n]; cbn [lookup list_lookup].
  - intros [= ->] Hp. exists O. by rewrite filter_cons, decide_True.
  - intros Hn Hp. destruct (IH n Hn Hp) as (n' & Hle & Hn'). rewrite filter_cons. case_decide; [exists (S n')|exists n']; (split; [lia|done]).
Qed.

Inductive queue_op := OpNext | OpAdd (task : ServerTask) | OpAddFront (task : ServerTask) | OpRemove (peer_index : Z).

(** One operation on the queue, and the task it gives to the worker. *)
Definition apply_queue_op {E} (o : queue_op) (q : ServerQueue) : outcome E (option ServerTask * ServerQueue) :=
  match o with
  | OpNext => next_task q
  | OpAdd t => Ok (None, add_task q t)
  | OpAddFront t => Ok (None, add_task_front q t)
  | OpRemove p => q ← remove_peer_tasks q p; Ok (None, q)
  end.

(** A sequence of operations, with what each of them gives to the worker. *)
Fixpoint run_queue {E} (ops : list queue_op) (q : ServerQueue) : outcome E (list (option ServerTask) * ServerQueue) :=
  match ops with
  | [] => Ok ([], q)
  | o :: ops =>
      '(out, q) ← apply_queue_op o q;
      '(outs, q) ← run_queue ops q;
      Ok (out :: outs, q)
  end.

Fixpoint nexts (ops : list queue_op) : nat :=
  match ops with
  | [] => O
  | OpNext :: ops => S (nexts ops)
  | _ :: ops => nexts ops
  end.

(** What one operation, with its result, does to the tasks that wait for the peer [p]: a
    new task goes behind them, a task put back before them, a dropped peer has none; a
    task of the peer that is taken was the first of them, and no task is taken only if
    none waits. *)
Definition turn (p : Z) (o : queue_op) (out : option ServerTask) (waiting waiting' : list ServerTask) : Prop :=
  match o, out with
  | OpNext, Some t => if decide (task_peer t = p) then waiting = t :: waiting' else waiting' = waiting
  | OpNext, None => waiting = [] /\ waiting' = []
  | OpAdd t, None => waiting' = if decide (task_peer t = p) then waiting ++ [t] else waiting
  | OpAddFront t, None => waiting' = if decide (task_peer t = p) then t :: waiting else waiting
  | OpRemove p', None => waiting' = if decide (p' = p) then [] else waiting
  | _, _ => False
  end.

Fixpoint turns (p : Z) (ops : list queue_op) (outs : list (option ServerTask)) (waiting waiting' : list ServerTask) : Prop :=
  match ops, outs with
  | [], [] => waiting' = waiting
  | o :: ops, out :: outs => exists mid, turn p o out waiting mid /\ turns p ops outs mid waiting'
  | _, _ => False
  end.

Lemma tasks_of_peers q p : queue_ok q -> tasks_of q p <> [] -> exists n, peers_queue q !! n = Some p.
Proof.
  intros Hok Hp. apply list_elem_of_lookup, (qo_peers q Hok). unfold tasks_of in Hp.
  destruct (tasks_queue q !! p); [by eexists|done].
Qed.

Lemma apply_queue_op_spec {E} o q : queue_ok q -> exists out q', apply_queue_op (E := E) o q = Ok (out, q') /\ queue_ok q' /\
  (forall p, turn p o out (tasks_of q p) (tasks_of q' p)) /\
  forall p n, peers_queue q !! n = Some p -> o <> OpRemove p ->
    (o = OpNext /\ n = O /\ exists t, out = Some t /\ task_peer t = p) \/
    (length (option_list out) <= nexts [o] /\ exists n', n' + nexts [o] <= n /\ peers_queue q' !! n' = Some p)%nat.
Proof.
  intros Hok. destruct o as [|t|t|p0]; cbn [apply_queue_op turn].
  - pose proof (next_task_spec (E := E) q Hok) as Hn. destruct (peers_queue q) as [|p0 ps] eqn:Hq.
    + rewrite Hn. exists None, q. split_and!; [done|done| |done]. intros p.
      destruct (tasks_of q p) eqn:Hp; [done|]. destruct (tasks_of_peers q p Hok) as [n Hl]; [by rewrite Hp|]. by rewrite Hq in Hl.
    + destruct Hn as (t & q' & -> & Hok' & Hts & Ht & Hps & Hoth). exists (Some t), q'. split_and!; [done|done| |].
      * intros p. case_decide as Hp; rewrite Ht in Hp; [by subst p|apply Hoth; congruence].
      * intros p [|n] Hn _; [left; injection Hn as <-; eauto|right]. split; [done|]. exists n. split; [cbn; lia|].
        destruct Hps as [->| ->]; [done|by apply lookup_app_l_Some].
  - destruct (add_with_spec (fun t ts => ts ++ [t]) q t) as (Hok' & Hps & Ht & Hoth); [by destruct ts|by intros; apply Forall_app_2; [|constructor]|done|done|].
    exists None, (add_task q t). split_and!; [done|exact Hok'| |].
    + intros p. case_decide as Hp; [by subst p|]. apply Hoth. congruence.
    + intros p n Hn _. right. split; [cbn; lia|]. exists n. split; [cbn; lia|]. unfold add_task. destruct Hps as [->| ->]; [done|by apply lookup_app_l_Some].
  - destruct (add_with_spec cons q t) as (Hok' & Hps & Ht & Hoth); [done|by constructor|done|done|].
    exists None, (add_task_front q t). split_and!; [done|exact Hok'| |].
    + intros p. case_decide as Hp; [by subst p|]. apply Hoth. congruence.
    + intros p n Hn _. right. split; [cbn; lia|]. exists n. split; [cbn; lia|]. unfold add_task_front. destruct Hps as [->| ->]; [done|by apply lookup_app_l_Some].
  - destruct (remove_peer_tasks_spec (E := E) q p0 Hok) as (q' & -> & Hok' & Hps & Ht & Hoth). rewrite ok_bind. exists None, q'. split_and!; [done|done| |].
    + intros p. case_decide as Hp; [by subst p|]. apply Hoth. congruence.
    + intros p n Hn Hr. right. split; [cbn; lia|]. destruct (filter_position p0 (peers_queue q) n p Hn ltac:(congruence)) as (n' & Hle & Hn').
      exists n'. rewrite Hps. split; [cbn; lia|done].
Qed.

Lemma run_queue_spec {E} ops q : queue_ok q -> exists outs q', run_queue (E := E) ops q = Ok (outs, q') /\ queue_ok q' /\
  (forall p, turns p ops outs (tasks_of q p) (tasks_of q' p)) /\
  forall p n, peers_queue q !! n = Some p -> OpRemove p ∉ ops -> (n < nexts ops)%nat ->
    exists k t, omap id outs !! k = Some t /\ (k <= n)%nat /\ task_peer t = p.
Proof.
  revert q. induction ops as [|o ops IH]; intros q Hok; cbn [run_queue].
  - exists [], q. split_and!; [done|done|done|cbn; lia].
  - destruct (apply_queue_op_spec (E := E) o q Hok) as (out & q1 & -> & Hok1 & Hf1 & Hp1). rewrite ok_bind.
    destruct (IH q1 Hok1) as (outs & q2 & -> & Hok2 & Hf2 & Hp2). rewrite ok_bind. exists (out :: outs), q2. split_and!; [done|done| |].
    + intros p. exists (tasks_of q1 p). split; [apply Hf1|apply Hf2].
    + intros p n Hn [Hr Hrs]%not_elem_of_cons Hlt. destruct (Hp1 p n Hn ltac:(congruence)) as [(-> & -> & t & -> & Ht)|(Hlen & n' & Hle & Hn')].
      * exists O, t. done.
      * destruct (Hp2 p n' Hn' Hrs) as (k & t & Hk & Hkn & Ht); [destruct o; cbn in *; lia|].
        exists (length (option_list out) + k)%nat, t. split_and!; [by destruct out|lia|done].
Qed.

(** C25: Requests wait their turn, whatever the order in which they are queued, taken, put back
    and dropped.  No operation panics.  For every peer the queue behaves as a double-ended
    list of its own ([turns]): a new request goes behind those that wait, one put back
    before them, a peer that is dropped has none, the request taken for the peer is the
    first of its list, and nothing is taken only if nothing waits; so no request is
    lost, taken twice or overtaken.  A peer that has [n] others before it and is not
    dropped gets its turn among the next [n + 1] tasks, however many tasks the others add. *)
Theorem server_queue_fair {E} ops : exists outs q, run_queue (E := E) ops queue_new = Ok (outs, q) /\
  (forall p, turns p ops outs [] (tasks_of q p)) /\
  (forall p, tasks_of q p <> [] -> exists n, peers_queue q !! n = Some p) /\
  forall p n later, peers_queue q !! n = Some p -> OpRemove p ∉ later -> (n < nexts later)%nat ->
    exists outs' q' k t, run_queue (E := E) later q = Ok (outs', q') /\ omap id outs' !! k = Some t /\ (k <= n)%nat /\
      task_peer t = p.
Proof.
  destruct (run_queue_spec (E := E) ops queue_new queue_new_ok) as (outs & q & Hrun & Hok & Hf & _). exists outs, q. split_and!.
  - done.
  - intros p. apply Hf.
  - intros p. by apply tasks_of_peers.
  - intros p n later Hn Hr Hlt. destruct (run_queue_spec (E := E) later q Hok) as (outs' & q' & Hrun' & _ & _ & Hp).
    destruct (Hp p n Hn Hr Hlt) as (k & t & Hk). by exists outs', q', k, t.
Qed.

(** * A getdata request *)

(** The queue when only one peer has tasks. *)
Definition solo (p : Z) (ts : list ServerTask) : ServerQueue :=
  match ts with [] => queue_new | _ => mkQueue [p] {[p := ts]} end.

Lemma next_task_solo {E} p t ts : next_task (E := E) (solo p (t :: ts)) = Ok (Some t, solo p ts).
Proof.
  unfold next_task. cbn [solo peers_queue tasks_queue]. rewrite lookup_singleton_eq. cbn. destruct ts as [|t' ts]; cbn.
  - by rewrite delete_singleton_eq.
  - by rewrite insert_singleton_eq.
Qed.

Lemma add_task_front_solo p t ts : task_peer t = p -> add_task_front (solo p ts) t = solo p (t :: ts).
Proof.
  intros <-. unfold add_task_front, add_with. destruct ts as [|t' ts]; cbn [solo queue_new peers_queue tasks_queue].
  - by rewrite lookup_empty, insert_empty.
  - by rewrite lookup_singleton_eq, insert_singleton_eq.
Qed.

Section getdata.
Context `{Crypto} `{Murmur3} `{BitVec} `{LinkedHashMap bytes KnownHash.KnownHashType} `{!MemoryPool.HashOrder} {connection E : Type}.
Context {T : Type} `{!Kv.KeyValueDatabase T}.
Abbreviation PeersImpl := (PeersImpl (connection := connection)).
Variables (nonce : Z -> Z) (storage : Db.BlockChainDatabase T) (memory_pool : MemoryPool.Pool) (fuel : nat).
Abbreviation worker := (server_worker (connection := connection) (E := E) nonce storage memory_pool fuel).

Fixpoint worker_turns (n : nat) (queue : ServerQueue) (peers : PeersImpl) : outcome E (list (connection * SyncExecutor.Outgoing) * ServerQueue * PeersImpl) :=
  match n with
  | O => Ok ([], queue, peers)
  | S n =>
      '(sent, queue, peers) ← worker queue peers;
      '(rest, queue, peers) ← worker_turns n queue peers;
      Ok (sent ++ rest, queue, peers)
  end.

(** The items are answered one after the other; those that are not found are collected. *)
Fixpoint answer_items (peers : PeersImpl) (p : Z) (items : list InventoryVector)
    : outcome E (list (connection * SyncExecutor.Outgoing) * list InventoryVector * PeersImpl) :=
  match items with
  | [] => Ok ([], [], peers)
  | item :: items =>
      '(answer, peers) ← serve_item nonce storage memory_pool peers p item;
      '(sent, peers) ← execute_all nonce peers (default [] answer);
      '(rest, notfound, peers) ← answer_items peers p items;
      Ok (sent ++ rest, (match answer with Some _ => [] | None => [item] end) ++ notfound, peers)
  end.

Definition send_notfound (peers : PeersImpl) (p : Z) (notfound : list InventoryVector) : list (connection * SyncExecutor.Outgoing) * PeersImpl :=
  match notfound with [] => ([], peers) | _ => SyncExecutor.execute_notfound peers p notfound end.

Lemma reversed_turns p rest items acc peers :
  worker_turns (S (length items)) (solo p (ServeReversedGetData p (rev items) acc :: rest)) peers =
  '(sent, notfound, peers) ← answer_items peers p items;
  Ok (sent ++ (send_notfound peers p (acc ++ notfound)).1, solo p rest, (send_notfound peers p (acc ++ notfound)).2).
Proof.
  revert acc peers. induction items as [|item items IH]; intros acc peers.
  - cbn [worker_turns length]. unfold server_worker. rewrite next_task_solo, ok_bind. cbn. rewrite app_nil_r. destruct acc as [|i acc]; [done|]. cbn [length].
    rewrite bool_decide_eq_false_2 by done. cbn. destruct (SyncExecutor.execute_notfound peers p (i :: acc)) as [sent peers']. cbn. by rewrite !app_nil_r.
  - cbn [length]. change (worker_turns (S (S (length items)))) with (fun queue peers => '(sent, queue, peers) ← worker queue peers;
      '(rest, queue, peers) ← worker_turns (S (length items)) queue peers; Ok (sent ++ rest, queue, peers)). cbn beta. unfold server_worker at 1.
    rewrite next_task_solo, ok_bind. cbn [execute answer_items]. unfold serve_reversed_get_data.
    cbn [rev]. rewrite last_snoc, removelast_last.
    destruct (serve_item _ _ _ _ _ item) as [[answer peers1]| | |]; [|done..]. rewrite !ok_bind.
    replace (match answer with Some tasks => tasks | None => [] end) with (default [] answer) by (by destruct answer).
    destruct (execute_all _ _ _) as [[sent peers2]| | |]; [|done..]. rewrite !ok_bind, add_task_front_solo, IH by done.
    destruct (answer_items peers2 p items) as [[[sent' notfound] peers3]| | |]; [|done..]. rewrite !ok_bind. destruct answer; cbn [app]; [|rewrite <- app_assoc; cbn [app]]; by rewrite <- app_assoc.
Qed.

(** A getdata request is answered item by item in the order of the request, and then one
    notfound names the items that were not found, in that order; all this before the next
    request of the peer is looked at. *)
Theorem getdata_in_order p items rest peers :
  worker_turns (2 + length items) (solo p (ServeGetData p items :: rest)) peers =
  '(sent, notfound, peers) ← answer_items peers p items;
  Ok (sent ++ (send_notfound peers p notfound).1, solo p rest, (send_notfound peers p notfound).2).
Proof.
  change (worker_turns (2 + length items)) with (fun queue peers => '(sent, queue, peers) ← worker queue peers;
    '(rest, queue, peers) ← worker_turns (S (length items)) queue peers; Ok (sent ++ rest, queue, peers)). cbn beta. unfold server_worker at 1.
  rewrite next_task_solo, ok_bind. unfold execute, serve_get_data. rewrite ok_bind. cbn [execute_all]. rewrite !ok_bind, add_task_front_solo, reversed_turns by done. cbn [app].
  by destruct (answer_items peers p items) as [[[sent notfound] peers1]| | |].
Qed.
End getdata.

(** * Examples *)

Module ExampleServer.
Import Kv DbExamples ExampleBits ExampleLinked.

Definition peers : PeersImpl (connection := Z) := mkPeers (list_to_map [(1, peer_new 1 10); (2, peer_new 1 20)]) [].

(** The peer has a block nobody knows, and before it the side branch. *)
Definition locator : Locator := mkLocator 70015 [hash_of x09; hash_of x04; hash_of x01] zero_hash.

Lemma serve_get_headers_correct_witness :
  exists answer bound, headers_answer db_6 [hash_of x01; hash_of x02] peers 1 locator 7 answer /\
    forall fuel, (bound <= fuel)%nat -> serve_get_headers (E := unit) db_6 fuel peers 1 locator 7 = Ok answer.
Proof.
  apply (serve_get_headers_correct (E := unit) db_6 [hash_of x01; hash_of x02] db_6_canonical db_6_rooted ltac:(discriminate) peers 1 locator 7).
  vm_compute. reflexivity.
Defined.

(** Three peers; the first asks for more while the others wait. *)
Example queue_turns : run_queue (E := unit) [OpAdd (ServeMempool 1); OpAdd (ServeMempool 2); OpAdd (ServeGetData 1 []); OpAdd (ServeMempool 3); OpNext; OpNext; OpNext; OpNext] queue_new =
  Ok (replicate 4 None ++ [Some (ServeMempool 1); Some (ServeMempool 2); Some (ServeMempool 3); Some (ServeGetData 1 [])], queue_new).
Proof. vm_compute. reflexivity. Qed.
End ExampleServer.

End SyncServerSpec.
