(* ===== verification/SyncRelaySpec.v ===== *)
(** Announcing a block to the peers (SyncExecutor.v) and answering what they ask about it
    afterwards (SyncServer.v): every peer gets the announcement of its own choice, and a
    peer that got a compact block can ask for the transactions it lacks. *)
From Stdlib Require Import ZArith Lia Strings.Byte.
From stdpp Require Import base decidable numbers countable gmap list.
From S2P Require Import Prelude Crypto Serialization Codec Chain ChainHash Network Storage Message LinkedMap Filters FiltersSpec Peers.
From S2P Require Import MemoryPool Kv Db DbSpec DbUtxo DbExamples HashQueue OrphanPools SyncChain Float64 PeersTasks ClientCore SyncExecutor SyncServer.

Local Open Scope Z_scope.

Module SyncRelaySpec.
Import SyncTask Chain ChainHash Network Storage Message Peers DbSpec SyncExecutor SyncServer.

Section relay.
Context `{Crypto} `{Murmur3} `{BitVec} `{L : LinkedHashMap bytes KnownHash.KnownHashType} `{!LinkedHashMapLaws L} {connection E : Type}.
Abbreviation PeersImpl := (PeersImpl (connection := connection)).
Variable nonce : Z -> Z.
Abbreviation announce := (announce_block (connection := connection) (E := E) nonce).
Abbreviation block_hash b := (ih_hash (ib_header b)).

(** * Known hashes *)

Lemma known_insert_contains self hash t :
  lhm_get (KnownHash.known_hashes self) hash = None -> KnownHash.contains (KnownHash.insert self hash t) hash t = true.
Proof.
  intros Hn. unfold KnownHash.contains. rewrite lhm_get_spec, FiltersSpec.insert_entries. cbn zeta.
  rewrite lhm_get_spec in Hn. apply assoc_None in Hn as Hout. rewrite decide_False by done.
  assert (assoc hash (lhm_entries (KnownHash.known_hashes self) ++ [(hash, t)]) = Some t) as Ha by (by apply FiltersSpec.assoc_snoc).
  destruct (KnownHash.MAX_KNOWN_HASHES_LEN <? _) eqn:Hlen; [|rewrite Ha; by apply bool_decide_eq_true_2].
  destruct (lhm_entries (KnownHash.known_hashes self)) as [|[k v] es]; [discriminate Hlen|]. cbn [app tail].
  cbn in Hout. rewrite FiltersSpec.assoc_snoc; [by apply bool_decide_eq_true_2|]. by apply not_elem_of_cons in Hout as [_ Hout].
Qed.

Lemma insert_keeps self hash t t' :
  KnownHash.contains self hash t' = true -> KnownHash.insert self hash t = self.
Proof.
  unfold KnownHash.contains, KnownHash.insert. rewrite lhm_contains_spec. destruct (lhm_get _ _); [|done].
  intros _. by rewrite bool_decide_eq_true_2.
Qed.

(** * Announcing *)

Lemma announce_own self block q sent self' p : announce self block q = Ok (sent, self') -> p <> q -> peers self' !! p = peers self !! p.
Proof.
  intros Ha Hp. unfold announce_block in Ha. destruct (filter_block self q block).
  - unfold execute_inventory, send, with_connection in Ha. destruct (peer_connection_of self q); by injection Ha as <- <-.
  - unfold execute_headers, send, with_connection in Ha. destruct (peer_connection_of self q); by injection Ha as <- <-.
  - apply bind_Ok in Ha as ([m|] & _ & Ha); [|by injection Ha as <- <-].
    unfold execute_compact_block, send_known, with_connection in Ha. destruct (peer_connection_of self q); [|by injection Ha as <- <-].
    injection Ha as <- <-. unfold hash_known_as, update_filter. destruct (peers self !! q); [|done]. by apply lookup_insert_ne.
  - by injection Ha as <- <-.
Qed.

(** The announcement depends on the peer alone. *)
Lemma announce_same self self' block p :
  peers self !! p = peers self' !! p -> (announce self block p ≫= fun r => Ok r.1) = (announce self' block p ≫= fun r => Ok r.1).
Proof.
  intros Hp. unfold announce_block, filter_block, execute_inventory, execute_headers, execute_compact_block, send_known, send, with_connection,
    peer_connection_of, build_compact_block. rewrite Hp. destruct (peers self' !! p) as [q|]; [|done].
  destruct (if Connection.filter_block _ _ then _ else _); cbn; [done..| |done]. by destruct (Connection.build_compact_block _ _ _).
Qed.

Lemma announce_compact self block p sent self' q :
  announce self block p = Ok (sent, self') -> peers self !! p = Some q -> filter_block self p block = SendCompactBlock ->
  is_hash_known_as self p (block_hash block) KnownHash.Transaction = false ->
  (exists m, sent = [(peer_connection q, ConnSendCompactBlock m)]) /\ is_hash_known_as self' p (block_hash block) KnownHash.CompactBlock = true.
Proof.
  intros Ha Hq Hf Ht. unfold announce_block in Ha. rewrite Hf in Ha. unfold build_compact_block in Ha. rewrite Hq in Ha.
  destruct (Connection.build_compact_block _ _ block) as [m| | |]; [|done..]. rewrite !ok_bind in Ha.
  unfold execute_compact_block, send_known, with_connection, peer_connection_of in Ha. rewrite Hq in Ha. injection Ha as <- <-. split; [by exists m|].
  unfold hash_known_as, update_filter, is_hash_known_as in *. rewrite Hq in *. cbn [peers]. rewrite lookup_insert_eq.
  unfold filter_block in Hf. rewrite Hq in Hf. destruct (Connection.filter_block _ _) eqn:Hb; [|done].
  unfold Connection.is_hash_known_as, Connection.hash_known_as. cbn. apply known_insert_contains.
  unfold Connection.filter_block, KnownHash.filter_block in Hb. unfold Connection.is_hash_known_as, KnownHash.contains in Ht.
  destruct (lhm_get _ _) as [[]|]; done.
Qed.

Lemma relay_spec block self0 l self sent self' : NoDup l -> (forall p, p ∈ l -> peers self !! p = peers self0 !! p) ->
  relay (fun self => announce self block) self l = Ok (sent, self') ->
  exists parts, sent = concat parts /\ Forall2 (fun p part => (announce self0 block p ≫= fun r => Ok r.1) = Ok part) l parts /\
    (forall p, p ∉ l -> peers self' !! p = peers self !! p) /\
    (forall p, p ∈ l -> exists self1 self2 part, peers self1 !! p = peers self0 !! p /\ announce self1 block p = Ok (part, self2) /\ peers self' !! p = peers self2 !! p).
Proof.
  revert self sent. induction l as [|q l IH]; intros self sent Hnd Hsame Hr; cbn [relay] in Hr.
  - injection Hr as <- <-. exists []. split_and!; [done|constructor|done|by intros p ?%elem_of_nil].
  - apply bind_Ok in Hr as ([part self1] & Ha & Hr). apply bind_Ok in Hr as ([rest self2] & Hr & He). injection He as <- <-.
    apply NoDup_cons in Hnd as [Hq Hnd]. destruct (IH self1 rest Hnd) as (parts & -> & Hf & Hout & Hin); [|done|].
    { intros p Hp. rewrite (announce_own _ _ _ _ _ _ Ha); [apply Hsame; by right|by intros ->]. }
    exists (part :: parts). split_and!; [done| | |].
    + constructor; [|done]. rewrite <- (announce_same self self0) by (apply Hsame; by left). by rewrite Ha.
    + intros p [Hp Hl]%not_elem_of_cons. by rewrite Hout, (announce_own _ _ _ _ _ _ Ha).
    + intros p [->|Hp]%elem_of_cons; [|by apply Hin]. exists self, self1, part. split_and!; [apply Hsame; by left|done|by apply Hout].
Qed.

Lemma enumerate_spec (self : PeersImpl) : NoDup (enumerate self) /\ forall p, p ∈ enumerate self <-> is_Some (peers self !! p).
Proof.
  unfold enumerate. split; [apply NoDup_fst_map_to_list|]. intros p. rewrite list_elem_of_fmap. split.
  - intros ([k v] & -> & Hkv%elem_of_map_to_list). by exists v.
  - intros [v Hv]. exists (p, v). split; [done|by apply elem_of_map_to_list].
Qed.

(** * Transactions of a block *)

Context {T : Type} `{!Kv.KeyValueDatabase T} `{!Kv.KeyValueDatabaseLaws T}.
Variable storage : Db.BlockChainDatabase T.

(** The storage has the block and its transactions. *)
Definition block_stored (block : IndexedBlock) : Prop :=
  hashes_of (seen storage) (block_hash block) = map itx_hash (ib_transactions block) /\
  Forall (fun tx => transaction_of (seen storage) (itx_hash tx) = Some (itx_raw tx)) (ib_transactions block).

(** The transactions at these positions. *)
Definition picked (txs : list IndexedTransaction) (l : list Z) : list Transaction :=
  omap (fun i => itx_raw <$> txs !! Z.to_nat i) l.

Lemma requested_spec block l seen_indexes : Kv.kv_ok (Db.db storage) -> block_stored block -> NoDup l ->
  Forall (fun i => 0 <= i < zlen (ib_transactions block) /\ i ∉ seen_indexes) l ->
  requested_transactions (E := E) storage (map itx_hash (ib_transactions block)) seen_indexes l = Ok (inr (picked (ib_transactions block) l)).
Proof.
  intros Hok [_ Htx]. revert seen_indexes. induction l as [|i l IH]; intros seen_indexes Hnd Hl; [done|]. cbn [requested_transactions].
  apply NoDup_cons in Hnd as [Hi Hnd]. apply Forall_cons in Hl as [[Hb Hs] Hl]. rewrite length_map.
  rewrite (proj2 (Z.leb_gt _ _)), bool_decide_eq_false_2 by (done || lia).
  destruct (lookup_lt_is_Some_2 (ib_transactions block) (Z.to_nat i)) as [tx Hx]; [lia|]. unfold index.
  unfold picked. cbn [omap list_omap]. rewrite Hx.
  assert (map itx_hash (ib_transactions block) !! Z.to_nat i = Some (itx_hash tx)) as -> by (exact (list_lookup_fmap_Some_2 itx_hash _ _ _ Hx)).
  cbn. rewrite transaction_view by done. cbn.
  rewrite (proj1 (Forall_lookup _ _) Htx _ _ Hx). cbn. rewrite IH; [done|done|]. eapply Forall_impl; [exact (proj2 (Forall_forall _ _) (fun x Hx => conj Hx (proj1 (Forall_forall _ _) Hl x Hx)))|].
  cbn. intros x (Hx' & Hxb & Hxs). split; [done|]. set_unfold. intros [->|]; done.
Qed.

Lemma distinct_indexes (l : list Z) n : 0 <= n -> NoDup l -> Forall (fun i => 0 <= i < n) l -> zlen l <= n.
Proof.
  intros Hn Hnd Hl. assert (l ⊆+ seqZ 0 n) as Hs%submseteq_length.
  { apply NoDup_submseteq; [done|]. intros x Hx. apply elem_of_seqZ. apply (proj1 (Forall_forall _ _) Hl) in Hx. lia. }
  rewrite length_seqZ in Hs. lia.
Qed.

(** C18: A new block is announced to the connected peers one after the other, once to each,
    with what [announce] gives for the peer.  A peer that gets a compact block can ask for any of the block's transactions
    by distinct positions, and gets exactly these, in the order asked. *)
Theorem compact_block_served self block sent self' p q l :
  Kv.kv_ok (Db.db storage) -> block_stored block -> execute_relay_block (E := E) nonce self block = Ok (sent, self') ->
  peers self !! p = Some q -> filter_block self p block = SendCompactBlock ->
  is_hash_known_as self p (block_hash block) KnownHash.Transaction = false ->
  NoDup l -> Forall (fun i => 0 <= i < zlen (ib_transactions block)) l ->
  (exists parts, sent = concat parts /\ Forall2 (fun p part => (announce self block p ≫= fun r => Ok r.1) = Ok part) (enumerate self) parts) /\
  (exists m, (peer_connection q, ConnSendCompactBlock m) ∈ sent) /\
  serve_get_block_txn (E := E) storage self' p (mkRequest (block_hash block) l) =
  Ok (None, [BlockTxn p (mkBlockTransactions (block_hash block) (picked (ib_transactions block) l))], self').
Proof.
  intros Hok Hst Hr Hq Hf Ht Hnd Hl. destruct (enumerate_spec self) as [Hen Hin].
  destruct (relay_spec block self _ self sent self' Hen ltac:(done) Hr) as (parts & -> & Hparts & _ & Hp).
  destruct (proj1 (list_elem_of_lookup _ _) (proj2 (Hin p) ltac:(by eexists))) as [k Hk].
  destruct (Hp p (list_elem_of_lookup_2 _ _ _ Hk)) as (self1 & self2 & part & Hs1 & Ha & Hs2).
  destruct (announce_compact self1 block p part self2 q Ha) as [[m ->] Hknown].
  { congruence. } { unfold filter_block in *. by rewrite Hs1. } { unfold is_hash_known_as in *. by rewrite Hs1. }
  destruct (Forall2_lookup_l _ _ _ _ _ Hparts Hk) as (part & Hpart & Hown). split_and!; [by exists parts| |].
  - exists m. apply list_elem_of_In, in_concat. exists part. rewrite <- !list_elem_of_In. split; [by eapply list_elem_of_lookup_2|].
    rewrite <- (announce_same self1 self) in Hown by done. rewrite Ha, ok_bind in Hown. injection Hown as <-. by left.
  - unfold serve_get_block_txn. cbn [btr_blockhash indexes]. unfold is_hash_known_as in *. rewrite Hs2, Hknown. cbn [negb].
    rewrite block_transaction_hashes_view, ok_bind by done. rewrite (proj1 Hst), length_map.
    rewrite (proj2 (Z.ltb_ge _ _)) by (apply distinct_indexes; [lia|done..]). rewrite requested_spec; [done|done..|]. eapply Forall_impl; [exact Hl|]. set_solver.
Qed.

(** A block that a peer is known to have is never remembered as a compact block: a peer
    that is sent the compact block it asked for, and asks for transactions of it, is
    disconnected. *)
Theorem compact_block_refused (self : PeersImpl) p q h m l :
  peers self !! p = Some q -> is_hash_known_as self p h KnownHash.Block = true ->
  execute_compact_block self p h m = ([(peer_connection q, ConnSendCompactBlock m)], self) /\
  serve_get_block_txn (E := E) storage self p (mkRequest h l) = Ok (None, [], disconnect self p).
Proof.
  intros Hq Hb. unfold is_hash_known_as, Connection.is_hash_known_as in Hb. rewrite Hq in Hb. split.
  - unfold execute_compact_block, send_known, with_connection, peer_connection_of. rewrite Hq. do 2 f_equal.
    unfold hash_known_as, update_filter. rewrite Hq. unfold Connection.hash_known_as. rewrite (insert_keeps _ _ _ _ Hb).
    destruct q as [? ? [] ? ?], self as [ps cl]. cbn in *. f_equal. by apply insert_id.
  - unfold serve_get_block_txn, is_hash_known_as, Connection.is_hash_known_as. cbn [btr_blockhash]. rewrite Hq.
    unfold KnownHash.contains in *. destruct (lhm_get _ _) as [[]|]; done.
Qed.
End relay.

(** * Examples *)

Module ExampleRelay.
Import Kv DbExamples ExampleFilters ExampleCrypto ExampleBits ExampleLinked.

(** The first peer asked for compact blocks, the second for headers. *)
Definition peers : PeersImpl (connection := Z) :=
  set_block_announcement_type (set_block_announcement_type (mkPeers (list_to_map [(1, peer_new 1 10); (2, peer_new 1 20)]) []) 1 SendCompactBlock) 2 SendHeaders.

Lemma compact_block_served_witness : exists sent peers' m,
  execute_relay_block (E := unit) (fun _ => 0) peers block_1 = Ok (sent, peers') /\
  (10, ConnSendCompactBlock m) ∈ sent /\
  serve_get_block_txn (E := unit) db_3 peers' 1 (mkRequest (hash_of x02) [1; 0]) =
  Ok (None, [BlockTxn 1 (mkBlockTransactions (hash_of x02) [itx_raw (spend xa2 xa0); itx_raw (coinbase xa1)])], peers').
Proof.
  assert (is_ok (execute_relay_block (E := unit) (fun _ => 0) peers block_1) = true) as Hr by (vm_compute; reflexivity).
  apply (ok_unwrap ([], peers)) in Hr. destruct (unwrap _ _) as [sent peers'].
  destruct (compact_block_served (E := unit) (fun _ => 0) db_3 peers block_1 sent peers' 1 (mkPeer 10 1 (peer_filter (peer_new 1 10)) SendCompactBlock TxSendInventory) [1; 0])
    as (_ & [m Hm] & Hs); [done| |exact Hr|vm_compute; reflexivity..| | |].
  - split; [vm_compute; reflexivity|repeat constructor; vm_compute; reflexivity].
  - apply (bool_decide_eq_true_1 (NoDup [1; 0])). vm_compute. reflexivity.
  - repeat constructor; cbn; lia.
  - exists sent, peers', m. split_and!; [exact Hr|exact Hm|exact Hs].
Defined.
End ExampleRelay.
End SyncRelaySpec.
