(* ===== verification/LocalNode.v ===== *)
(** The local node (src/sync/src: local_node.rs, inbound_connection.rs,
    inbound_connection_factory.rs): the sessions with the peers and what happens with each
    message of theirs.

    The state puts the parts together: the synchronizing node (SyncNode.v), the peers
    (Peers.v) and the queue of the server (SyncServer.v).  What a handler of the client
    asks for (its [effects]) is done when the handler ends ([flush]): messages are sent by
    the executor (SyncExecutor.v), peers are cut off, requests that waited for the client
    are queued for the server, and who waits for a transaction gets its verdict. *)
From Stdlib Require Import ZArith Lia Strings.Byte.
From stdpp Require Import base decidable numbers countable gmap list relations.
From S2P Require Import Prelude Opcode Crypto Keys Serialization Codec Chain ChainHash U256 Compact Network Work Storage Deployments Verify Accept.
From S2P Require Import ChainVerifier Kv Db LinkedMap HashQueue Message Filters Peers MemoryPool BlockAssembler OrphanPools SyncChain Float64 PeersTasks.
From S2P Require Import ClientCore SyncManager SyncVerifier SyncNode SyncExecutor SyncServer.

Local Open Scope Z_scope.

Module LocalNode.
Import SyncTask Chain ChainHash Network Storage F64 Verify Accept ChainVerifier SyncVerifier ClientCore.
Import SyncNode(Node, node_step, hashes_ok).
Import SyncServer(ServerTask(..), ServerQueue).

(** The messages of a peer. *)
Inductive Incoming :=
  | InInventory (message : list Message.InventoryVector)
  | InGetData (message : list Message.InventoryVector)
  | InGetBlocks (message : Message.Locator)
  | InGetHeaders (message : Message.Locator) (id : Z)
  | InTransaction (message : Transaction)
  | InBlock (message : Chain.Block)
  | InHeaders (message : list BlockHeader)
  | InMempool
  | InFilterLoad (message : Message.FilterLoad)
  | InFilterAdd (data : bytes)
  | InFilterClear
  | InMerkleBlock
  | InSendHeaders
  | InFeeFilter (fee_rate : Z)
  | InSendCompact (message : Message.SendCompact)
  | InCompactBlock
  | InGetBlockTxn (message : Message.BlockTransactionsRequest)
  | InBlockTxn
  | InNotFound (message : list Message.InventoryVector).

Section local.
Context `{Crypto} `{Secp256k1} `{U256} `{BitVec} `{Rayon} {T : Type} `{!Kv.KeyValueDatabase T} `{!HashOrder} `{!HashOrderOf Z} `{Murmur3}.
Context {L : LinkedHashMap bytes IndexedTransaction} `{!LinkedHashMapEdit bytes IndexedTransaction L}.
Context {LU : LinkedHashMap bytes f64} `{!LinkedHashMapEdit bytes f64 LU}.
Context {LO : LinkedHashMap bytes (OrphanTransactions.OrphanTransaction f64)}.
Context `{!LinkedHashMapEdit bytes (OrphanTransactions.OrphanTransaction f64) LO}.
Context {LH : LinkedHashMap Z PeersTasks.HeadersRequest} `{!LinkedHashMapEdit Z PeersTasks.HeadersRequest LH}.
Context {LB : LinkedHashMap Z PeersTasks.BlocksRequest} `{!LinkedHashMapEdit Z PeersTasks.BlocksRequest LB}.
Context {LK : LinkedHashMap bytes KnownHash.KnownHashType} {connection E : Type}.
Variables (consensus : ConsensusParams) (nonce : Z -> Z).

(** A request that waits for the client is one for the server; who waits for the verdict
    on a transaction is known by a number. *)
Abbreviation Node := (Node (T := T) (L := L) (LU := LU) (LO := LO) (LH := LH) (LB := LB) (Future := ServerTask) (Sink := Z)).
Abbreviation core_result := (core_result (T := T) (L := L) (LU := LU) (LO := LO) (LH := LH) (LB := LB) (Future := ServerTask) (Sink := Z) (E := E)).
Abbreviation PeersImpl := (Peers.PeersImpl (connection := connection)).

Record LocalNode := mkLocal {
  node : Node;
  peers : PeersImpl;
  queue : ServerQueue;
  counter : Z;
  performed : nat;
  sent : list (connection * SyncExecutor.Outgoing);
  notified : list (bool + bytes);
  results : gmap Z (bool * bytes);
}.

Definition with_node (n : Node) (l : LocalNode) : LocalNode :=
  mkLocal n (peers l) (queue l) (counter l) (performed l) (sent l) (notified l) (results l).
Definition with_peers (p : PeersImpl) (l : LocalNode) : LocalNode :=
  mkLocal (node l) p (queue l) (counter l) (performed l) (sent l) (notified l) (results l).
Definition with_queue (q : ServerQueue) (l : LocalNode) : LocalNode :=
  mkLocal (node l) (peers l) q (counter l) (performed l) (sent l) (notified l) (results l).
Definition with_sent (s : list (connection * SyncExecutor.Outgoing)) (l : LocalNode) : LocalNode :=
  mkLocal (node l) (peers l) (queue l) (counter l) (performed l) (sent l ++ s) (notified l) (results l).

Definition new (n : Node) : LocalNode := mkLocal n (Peers.mkPeers ∅ []) SyncServer.queue_new 0 0 [] [] ∅.

(** * Effects *)

(** The server puts its tasks in the queue. *)
Definition serve (task : ServerTask) (l : LocalNode) : LocalNode := with_queue (SyncServer.add_task (queue l) task) l.

Definition perform (e : Effect ServerTask Z) (l : LocalNode) : outcome E LocalNode :=
  match e with
  | Execute task => '(s, p) ← SyncExecutor.execute nonce (peers l) task; Ok (with_sent s (with_peers p l))
  | Misbehaving p | Dos p => Ok (with_peers (Peers.disconnect (peers l) p) l)
  | StateSwitched b => Ok (mkLocal (node l) (peers l) (queue l) (counter l) (performed l) (sent l) (notified l ++ [inl b]) (results l))
  | BestBlockInserted h => Ok (mkLocal (node l) (peers l) (queue l) (counter l) (performed l) (sent l) (notified l ++ [inr h]) (results l))
  | Awake task => Ok (serve task l)
  | SinkSuccess sink tx =>
      Ok (mkLocal (node l) (peers l) (queue l) (counter l) (performed l) (sent l) (notified l) (<[sink := (true, itx_hash tx)]> (results l)))
  | SinkError sink hash =>
      Ok (mkLocal (node l) (peers l) (queue l) (counter l) (performed l) (sent l) (notified l) (<[sink := (false, hash)]> (results l)))
  end.

Fixpoint perform_all (es : list (Effect ServerTask Z)) (l : LocalNode) : outcome E LocalNode :=
  match es with
  | [] => Ok l
  | e :: es => l ← perform e l; perform_all es l
  end.

(** What the client has asked for since the last time. *)
Definition flush (l : LocalNode) : outcome E LocalNode :=
  let es := effects (SyncNode.core (node l)) in
  l ← perform_all (drop (performed l) es) l;
  Ok (mkLocal (node l) (peers l) (queue l) (counter l) (length es) (sent l) (notified l) (results l)).

(** A call of the client. *)
Definition client {A} (m : core_result A) (l : LocalNode) : outcome E LocalNode :=
  n ← SyncNode.on_core m (node l); flush (with_node n l).

(** * Sessions *)

(** [create_sync_session]: the index of the new peer. *)
Definition create_sync_session (services : Z) (c : connection) (l : LocalNode) : outcome E (Z * LocalNode) :=
  peer_index ← ucheck 64 (counter l + 1);
  p ← Peers.insert (peers l) peer_index services c;
  Ok (peer_index, mkLocal (node l) p (queue l) peer_index (performed l) (sent l) (notified l) (results l)).

(** [start_sync_session] with [on_connect] of the node. *)
Definition start_sync_session (now : f64) (peer_index : Z) (version : Message.Version.Version) (l : LocalNode) : outcome E LocalNode :=
  let l := if negb (Message.Version.relay_transactions version)
           then with_peers (Peers.set_transaction_announcement_type (peers l) peer_index Peers.TxDoNotAnnounce) l else l in
  client (on_connect now peer_index) l.

Definition close_session (now : f64) (peer_index : Z) (l : LocalNode) : outcome E LocalNode :=
  client (on_disconnect now peer_index) (with_peers (Peers.remove (peers l) peer_index) l).

(** * Messages *)

Definition guarded (g : Peers.Guarded) (peer_index : Z) (handle : LocalNode -> outcome E LocalNode) (l : LocalNode) : outcome E LocalNode :=
  match g with
  | Peers.Ignored => Ok l
  | Peers.CutOff => Ok (with_peers (Peers.disconnect (peers l) peer_index) l)
  | Peers.Handled => handle l
  end.

Definition know (peer_index : Z) (hash : bytes) (t : KnownHash.KnownHashType) (l : LocalNode) : LocalNode :=
  with_peers (Peers.hash_known_as (peers l) peer_index hash t) l.

Definition misbehaving (peer_index : Z) (l : LocalNode) : LocalNode := with_peers (Peers.disconnect (peers l) peer_index) l.

Definition on_transaction (now : f64) (peer_index : Z) (message : Transaction) (l : LocalNode) : outcome E LocalNode :=
  let tx := indexed_from_raw message in
  let l := know peer_index (itx_hash tx) KnownHash.Transaction l in
  n ← SyncNode.client_on_transaction now tx (node l); flush (with_node n l).

(** [on_block], up to where the lock of the verification is released; the rest is
    [after_block]. *)
Definition on_block (now : f64) (peer_index : Z) (message : Chain.Block) (l : LocalNode) : outcome E LocalNode :=
  let block := indexed_block_from_raw message in
  let l := know peer_index (ih_hash (ib_header block)) KnownHash.Block l in
  n ← SyncNode.client_on_block now peer_index block (node l); flush (with_node n l).

Definition on_send_compact (peer_index : Z) (message : Message.SendCompact) (l : LocalNode) : LocalNode :=
  if negb (Message.second message =? 1) then l
  else if Message.first message then with_peers (Peers.set_block_announcement_type (peers l) peer_index Peers.SendCompactBlock) l
  else l.

Definition on_get_block_txn (peer_index : Z) (message : Message.BlockTransactionsRequest) (l : LocalNode) : LocalNode :=
  if shared_synchronizing (shared_state (SyncNode.core (node l))) then l else serve (ServeGetBlockTxn peer_index message) l.

Definition receive (now : f64) (current_time : Z) (peer_index : Z) (message : Incoming) (l : LocalNode) : outcome E LocalNode :=
  match message with
  | InInventory m => guarded (Peers.on_inventory m) peer_index (client (on_inventory peer_index m)) l
  | InGetData m => guarded (Peers.on_getdata m) peer_index (fun l => Ok (serve (ServeGetData peer_index m) l)) l
  | InGetBlocks m => Ok (serve (ServeGetBlocks peer_index m) l)
  | InGetHeaders m id => client (after_peer_nearly_blocks_verified peer_index (ServeGetHeaders peer_index m id)) l
  | InTransaction m => on_transaction now peer_index m l
  | InBlock m => on_block now peer_index m l
  | InHeaders m =>
      guarded (Peers.on_headers m) peer_index (client (on_headers consensus now current_time peer_index (map indexed_header_from_raw m))) l
  | InMempool => Ok (serve (ServeMempool peer_index) l)
  | InFilterLoad m => Ok (with_peers (Peers.handle_filterload (peers l) peer_index m) l)
  | InFilterAdd data =>
      guarded (Peers.on_filteradd data) peer_index (fun l => p ← Peers.update_bloom_filter (peers l) peer_index data; Ok (with_peers p l)) l
  | InFilterClear => Ok (with_peers (Peers.clear_bloom_filter (peers l) peer_index) l)
  | InMerkleBlock | InCompactBlock | InBlockTxn => Ok (misbehaving peer_index l)
  | InSendHeaders => Ok (with_peers (Peers.set_block_announcement_type (peers l) peer_index Peers.SendHeaders) l)
  | InFeeFilter fee_rate => Ok (with_peers (Peers.set_fee_filter (peers l) peer_index fee_rate) l)
  | InSendCompact m => Ok (on_send_compact peer_index m l)
  | InGetBlockTxn m => Ok (on_get_block_txn peer_index m l)
  | InNotFound m => client (on_notfound now peer_index m) l
  end.

(** * Requests of the user *)

(** The verdict comes as the result with number [sink], unless the transaction is not even
    tried. *)
Definition accept_transaction (transaction : IndexedTransaction) (sink : Z) (l : LocalNode)
    : outcome E (option AppendTransactionError * LocalNode) :=
  '(r, n) ← SyncNode.client_accept_transaction transaction sink (node l);
  l ← flush (with_node n l); Ok (r, l).

Definition get_block_template (time : Z) (l : LocalNode) : outcome E BlockAssembler.BlockTemplate :=
  let chain := chain (SyncNode.core (node l)) in
  let store := store_view (SyncChain.storage chain) in
  let previous_block_height := bb_number (best_block store) in
  header ← Db.block_header (SyncChain.storage chain) (Number previous_block_height);
  previous_block_header ← expect header;
  median_timestamp ← @Work.median_timestamp_inclusive (as_block_header_provider store) E (ih_hash previous_block_header);
  new_block_height ← ucheck 32 (previous_block_height + 1);
  let max_block_size := Network.max_block_size (fork consensus) new_block_height median_timestamp in
  max_block_sigops ← Network.max_block_sigops (fork consensus) new_block_height max_block_size;
  let block_assembler := BlockAssembler.mkAssembler (wrap 32 max_block_size) (wrap 32 max_block_sigops) in
  BlockAssembler.create_new_block block_assembler store (SyncChain.memory_pool chain) time median_timestamp consensus.

(** * The threads *)

(** A turn of the server. *)
Definition server_turn (fuel : nat) (l : LocalNode) : outcome E LocalNode :=
  let chain := chain (SyncNode.core (node l)) in
  '(s, q, p) ← SyncServer.server_worker nonce (SyncChain.storage chain) (SyncChain.memory_pool chain) fuel (queue l) (peers l);
  Ok (with_sent s (with_queue q (with_peers p l))).

(** A step of the verification. *)
Definition verify_turn (now : f64) (current_time : Z) (fuel : nat) (l : LocalNode) : outcome E LocalNode :=
  n ← SyncNode.worker_step consensus now current_time fuel (node l); flush (with_node n l).

Inductive local_step : LocalNode -> LocalNode -> Prop :=
  | local_create services c l p l' : create_sync_session services c l = Ok (p, l') -> local_step l l'
  | local_start now p version l l' : start_sync_session now p version l = Ok l' -> local_step l l'
  | local_close now p l l' : close_session now p l = Ok l' -> local_step l l'
  | local_receive now t p message l l' : receive now t p message l = Ok l' -> local_step l l'
  | local_after_block now l l' : client (SyncNode.after_block now) l = Ok l' -> local_step l l'
  | local_accept tx sink l r l' : accept_transaction tx sink l = Ok (r, l') -> local_step l l'
  | local_listener l l' : client install_sync_listener l = Ok l' -> local_step l l'
  | local_manage now l l' : client (SyncManager.manage now) l = Ok l' -> local_step l l'
  | local_server fuel l l' : server_turn fuel l = Ok l' -> local_step l l'
  | local_verify now t fuel l l' :
      hashes_ok (SyncNode.next_task (node l)) -> verify_turn now t fuel l = Ok l' -> local_step l l'.

End local.
End LocalNode.
