(* ===== verification/LocalNodeSpec.v ===== *)
(** The whole node (LocalNode.v): what holds however the messages of the peers, the
    requests of the user and the turns of the threads follow each other. *)
From Stdlib Require Import ZArith Lia Strings.Byte.
From stdpp Require Import base decidable numbers countable gmap list relations.
From S2P Require Import Prelude Opcode Crypto Keys Serialization Codec Chain ChainHash U256 Compact Network Work Storage Deployments Verify Accept.
From S2P Require Import ChainVerifier Kv Db DbSpec DbExamples LinkedMap HashQueue Message Filters FiltersSpec Peers MemoryPool MemoryPoolSpec BlockAssembler OrphanPools SyncChain Float64 PeersTasks.
From S2P Require Import ClientCore SyncManager SyncVerifier SyncVerifierSpec BlocksWriter BlocksWriterSpec SyncNode SyncNodeSpec SyncExecutor SyncServer SyncServerSpec LocalNode.

Local Open Scope Z_scope.

Module LocalNodeSpec.
Import SyncTask Chain ChainHash Network Storage F64 Verify Accept ChainVerifier SyncVerifier ClientCore LocalNode.
Import SyncNode(Node, node_step, hashes_ok).
Import SyncServer(ServerTask(..), ServerQueue).

(** * Peers are only lost *)

Section peers.
Context `{Crypto} `{Murmur3} `{BitVec} `{LK : LinkedHashMap bytes KnownHash.KnownHashType} `{!HashOrder} {connection E : Type}.
Abbreviation PeersImpl := (Peers.PeersImpl (connection := connection)).
Implicit Types (ps : PeersImpl).

(** Nobody is a peer that was not before. *)
Definition fewer ps ps' : Prop := forall p, is_Some (Peers.peers ps' !! p) -> is_Some (Peers.peers ps !! p).

#[export] Instance fewer_preorder : PreOrder fewer.
Proof. split; [by intros ps p|]. intros ps1 ps2 ps3 Ha1 Ha2 p Hp. by apply Ha1, Ha2. Qed.

Lemma fewer_insert ps p q cl : is_Some (Peers.peers ps !! p) -> fewer ps (Peers.mkPeers (<[p := q]> (Peers.peers ps)) cl).
Proof. intros Hp p'. cbn. rewrite lookup_insert_is_Some. intros [<-|[_ ?]]; done. Qed.

Lemma fewer_delete ps p cl : fewer ps (Peers.mkPeers (delete p (Peers.peers ps)) cl).
Proof. intros p'. cbn. rewrite lookup_delete_is_Some. by intros [_ ?]. Qed.

Ltac fewer_cases := repeat match goal with
  | |- context [match Peers.peers ?ps !! ?p with _ => _ end] => destruct (Peers.peers ps !! p) eqn:?
  end; try done; (apply fewer_insert || apply fewer_delete); by eexists.

Lemma fewer_disconnect ps p : fewer ps (Peers.disconnect ps p).
Proof. unfold Peers.disconnect. destruct (Peers.peers ps !! p); [apply fewer_delete|done]. Qed.

Lemma fewer_remove ps p : fewer ps (Peers.remove ps p).
Proof. apply fewer_delete. Qed.

Lemma fewer_update ps p f : fewer ps (Peers.update_filter ps p f).
Proof. unfold Peers.update_filter. fewer_cases. Qed.

Lemma fewer_bloom ps p data ps' : Peers.update_bloom_filter (E := E) ps p data = Ok ps' -> fewer ps ps'.
Proof.
  unfold Peers.update_bloom_filter. destruct (Peers.peers ps !! p) eqn:Hp; [|by intros [= <-]].
  intros Hb. apply bind_Ok in Hb as (f & _ & [= <-]). apply fewer_insert. by eexists.
Qed.

Lemma fewer_blocks ps p t : fewer ps (Peers.set_block_announcement_type ps p t).
Proof. unfold Peers.set_block_announcement_type. fewer_cases. Qed.

Lemma fewer_transactions ps p t : fewer ps (Peers.set_transaction_announcement_type ps p t).
Proof. unfold Peers.set_transaction_announcement_type. fewer_cases. Qed.

Lemma fewer_filterload ps p m : fewer ps (Peers.handle_filterload ps p m).
Proof. unfold Peers.handle_filterload. destruct (Peers.on_filterload m); [done|apply fewer_disconnect|apply fewer_update]. Qed.

(** ** The executor *)

Variable nonce : Z -> Z.

Lemma fewer_send ps p m : fewer ps (SyncExecutor.send ps p m).2.
Proof. unfold SyncExecutor.send, SyncExecutor.with_connection. by destruct (Peers.peer_connection_of ps p). Qed.

Lemma fewer_send_known ps p h t m : fewer ps (SyncExecutor.send_known ps p h t m).2.
Proof. unfold SyncExecutor.send_known, SyncExecutor.with_connection. destruct (Peers.peer_connection_of ps p); [apply fewer_update|done]. Qed.

Lemma fewer_announce_block ps b p s ps' : SyncExecutor.announce_block (E := E) nonce ps b p = Ok (s, ps') -> fewer ps ps'.
Proof.
  unfold SyncExecutor.announce_block. destruct (Peers.filter_block ps p b); intros Ha.
  - injection Ha as Ha. change ps' with ((s, ps').2). rewrite <- Ha. apply fewer_send.
  - injection Ha as Ha. change ps' with ((s, ps').2). rewrite <- Ha. apply fewer_send.
  - apply bind_Ok in Ha as ([m|] & _ & Ha); [|by injection Ha as <- <-]. injection Ha as Ha. change ps' with ((s, ps').2). rewrite <- Ha. apply fewer_send_known.
  - by injection Ha as <- <-.
Qed.

Lemma fewer_announce_transaction ps tx fee p s ps' : SyncExecutor.announce_transaction (E := E) ps tx fee p = Ok (s, ps') -> fewer ps ps'.
Proof.
  unfold SyncExecutor.announce_transaction. intros Ha. apply bind_Ok in Ha as ([a ps1] & Hf & Ha). transitivity ps1.
  - unfold Peers.filter_transaction in Hf. destruct (Peers.peers ps !! p) eqn:Hp; [|by injection Hf as <- <-].
    apply bind_Ok in Hf as ([pass f] & _ & [= <- <-]). apply fewer_insert. by eexists.
  - destruct a; [|by injection Ha as <- <-]. injection Ha as Ha. change ps' with ((s, ps').2). rewrite <- Ha. apply fewer_send.
Qed.

Lemma fewer_relay announce ps is_ s ps' :
  (forall ps p s ps', announce ps p = Ok (s, ps') -> fewer ps ps') -> SyncExecutor.relay (E := E) announce ps is_ = Ok (s, ps') -> fewer ps ps'.
Proof.
  intros Ha. revert ps s. induction is_ as [|p is_ IH]; intros ps s; cbn [SyncExecutor.relay]; [by intros [= <- <-]|].
  intros Hr. apply bind_Ok in Hr as ([s1 ps1] & Ha1 & Hr). apply bind_Ok in Hr as ([s2 ps2] & Ha2 & [= <- <-]). etrans; eauto.
Qed.

Lemma fewer_execute ps task s ps' : SyncExecutor.execute (E := E) nonce ps task = Ok (s, ps') -> fewer ps ps'.
Proof.
  destruct task; cbn [SyncExecutor.execute]; intros He;
    try (injection He as He; change ps' with ((s, ps').2); rewrite <- He; first [apply fewer_send|apply fewer_send_known]).
  - eapply fewer_relay; [|exact He]. intros ? ? ? ? Hx. exact (fewer_announce_block _ _ _ _ _ Hx).
  - eapply fewer_relay; [|exact He]. intros ? ? ? ? Hx. exact (fewer_announce_transaction _ _ _ _ _ _ Hx).
Qed.

Lemma fewer_execute_all ps tasks s ps' : SyncServer.execute_all (E := E) nonce ps tasks = Ok (s, ps') -> fewer ps ps'.
Proof.
  revert ps s. induction tasks as [|task tasks IH]; intros ps s; cbn [SyncServer.execute_all]; [by intros [= <- <-]|].
  intros Hr. apply bind_Ok in Hr as ([s1 ps1] & Ha1 & Hr). apply bind_Ok in Hr as ([s2 ps2] & Ha2 & [= <- <-]).
  etrans; [by eapply fewer_execute|by eapply IH].
Qed.

(** ** The server *)

Context {T : Type} `{!Kv.KeyValueDatabase T}.
Variables (storage : Db.BlockChainDatabase T) (memory_pool : MemoryPool.Pool).

Lemma fewer_item ps p item r ps' : SyncServer.serve_item (E := E) nonce storage memory_pool ps p item = Ok (r, ps') -> fewer ps ps'.
Proof.
  unfold SyncServer.serve_item. intros Hi.
  destruct (Message.inv_type item); try (by injection Hi as <- <-); apply bind_Ok in Hi as (block & _ & Hi); try (by injection Hi as <- <-).
  - destruct block as [block|]; [|by injection Hi as <- <-]. apply bind_Ok in Hi as ([a ps1] & Hm & [= <- <-]).
    unfold Peers.build_merkle_block in Hm. destruct (Peers.peers ps !! p) eqn:Hp; [|by injection Hm as <- <-].
    apply bind_Ok in Hm as ([a' f] & _ & [= <- <-]). apply fewer_insert. by eexists.
  - destruct block as [block|]; [|by injection Hi as <- <-]. by apply bind_Ok in Hi as (m & _ & [= <- <-]).
Qed.

Lemma fewer_serve fuel ps task again tasks ps' :
  SyncServer.execute (E := E) nonce storage memory_pool fuel ps task = Ok (again, tasks, ps') -> fewer ps ps'.
Proof.
  destruct task; cbn [SyncServer.execute]; intros Hs.
  - by injection Hs as <- <- <-.
  - unfold SyncServer.serve_reversed_get_data in Hs. destruct (last message) as [item|]; [|by injection Hs as <- <- <-].
    apply bind_Ok in Hs as ([a ps1] & Hi & [= <- <- <-]). by eapply fewer_item.
  - unfold SyncServer.serve_get_blocks in Hs. apply bind_Ok in Hs as ([height|] & _ & Hs); [|injection Hs as <- <- <-; apply fewer_disconnect].
    repeat apply bind_Ok in Hs as (? & _ & Hs). by injection Hs as <- <- <-.
  - unfold SyncServer.serve_get_headers in Hs. apply bind_Ok in Hs as ([height|] & _ & Hs); [|injection Hs as <- <- <-; apply fewer_disconnect].
    repeat apply bind_Ok in Hs as (? & _ & Hs). by injection Hs as <- <- <-.
  - by injection Hs as <- <- <-.
  - unfold SyncServer.serve_get_block_txn in Hs. destruct (negb _); [injection Hs as <- <- <-; apply fewer_disconnect|].
    apply bind_Ok in Hs as (hs & _ & Hs). destruct (_ <? _); [injection Hs as <- <- <-; apply fewer_disconnect|].
    apply bind_Ok in Hs as ([[]|txs] & _ & [= <- <- <-]); [apply fewer_disconnect|done|done].
Qed.

Lemma server_worker_keeps fuel q ps s q' ps' :
  SyncServer.server_worker (E := E) nonce storage memory_pool fuel q ps = Ok (s, q', ps') ->
  fewer ps ps' /\ (SyncServerSpec.queue_ok q -> SyncServerSpec.queue_ok q').
Proof.
  unfold SyncServer.server_worker. intros Hw. apply bind_Ok in Hw as ([task q1] & Hn & Hw). destruct task as [task|].
  - apply bind_Ok in Hw as ([[again tasks] ps1] & He & Hw). apply bind_Ok in Hw as ([s1 ps2] & Ha & [= <- <- <-]). split.
    + etrans; [by eapply fewer_serve|by eapply fewer_execute_all].
    + intros Hq. apply SyncServerSpec.next_task_ok in Hn; [|done]. destruct again; [by apply SyncServerSpec.add_task_front_ok|done].
  - injection Hw as <- <- <-. split; [done|]. intros Hq. by eapply SyncServerSpec.next_task_ok.
Qed.
End peers.

(** * The node *)

Section local.
Context `{Crypto} `{Secp256k1} `{U256} `{BitVec} `{RayonLaws} {T : Type} `{!Kv.KeyValueDatabase T} `{!Kv.KeyValueDatabaseLaws T} `{!HashOrder} `{!HashOrderOf Z} `{Murmur3}.
Context {L : LinkedHashMap bytes IndexedTransaction} `{!LinkedHashMapEdit bytes IndexedTransaction L}.
Context {LU : LinkedHashMap bytes f64} `{!LinkedHashMapEdit bytes f64 LU}.
Context {LO : LinkedHashMap bytes (OrphanTransactions.OrphanTransaction f64)}.
Context `{!LinkedHashMapEdit bytes (OrphanTransactions.OrphanTransaction f64) LO}.
Context {LH : LinkedHashMap Z PeersTasks.HeadersRequest} `{!LinkedHashMapEdit Z PeersTasks.HeadersRequest LH}.
Context {LB : LinkedHashMap Z PeersTasks.BlocksRequest} `{!LinkedHashMapEdit Z PeersTasks.BlocksRequest LB}.
Context {LK : LinkedHashMap bytes KnownHash.KnownHashType} {connection E : Type}.
Variables (consensus : ConsensusParams) (nonce : Z -> Z).
Abbreviation LocalNode := (LocalNode (T := T) (L := L) (LU := LU) (LO := LO) (LH := LH) (LB := LB) (LK := LK) (connection := connection)).

(** A block that a peer sent: its hash and those of its transactions are computed from the
    message. *)
Definition from_message (b : IndexedBlock) : Prop := exists m : Chain.Block, b = indexed_block_from_raw m.

Abbreviation steps := (rtc (node_step (T := T) (L := L) (LU := LU) (LO := LO) (LH := LH) (LB := LB) (Future := ServerTask) (Sink := Z) (E := E) consensus from_message)).
Implicit Types (l : LocalNode).

(** The parts beside the client keep their promises: the queue is in order, and peers are
    numbered as they come. *)
Record parts_ok l : Prop := {
  po_queue : SyncServerSpec.queue_ok (queue l);
  po_peers p : is_Some (Peers.peers (peers l) !! p) -> 1 <= p <= counter l;
  po_counter : 0 <= counter l;
}.

(** What a step does: steps of the client, and the other parts stay in order. *)
Definition advances l l' : Prop := steps (node l) (node l') /\ (parts_ok l -> parts_ok l').

#[export] Instance advances_preorder : PreOrder advances.
Proof.
  split; [by intros l; split|]. intros l1 l2 l3 [Hs1 Hp1] [Hs2 Hp2]. split; [by etrans|auto].
Qed.

Lemma advances_peers l ps : fewer (peers l) ps -> advances l (with_peers ps l).
Proof. intros Hf. split; [done|]. intros [Hq Hps Hc]. split; [done| |done]. intros p Hp. apply Hps, Hf, Hp. Qed.

Lemma advances_serve task l : advances l (serve task l).
Proof. split; [done|]. intros [Hq Hps Hc]. split; [by apply SyncServerSpec.add_task_ok|done|done]. Qed.

Lemma advances_perform e l l' : perform (E := E) nonce e l = Ok l' -> advances l l'.
Proof.
  destruct e as [task|p|p|b|h|task|sink tx|sink h]; cbn [perform]; intros Hp; try (by injection Hp as <-; split; [|intros []; split]).
  - apply bind_Ok in Hp as ([s ps] & He & [= <-]). transitivity (with_peers ps l); [|by split; [|intros []; split]].
    apply advances_peers. by eapply fewer_execute.
  - injection Hp as <-. apply advances_peers, fewer_disconnect.
  - injection Hp as <-. apply advances_peers, fewer_disconnect.
  - injection Hp as <-. apply advances_serve.
Qed.

Lemma advances_perform_all es l l' : perform_all (E := E) nonce es l = Ok l' -> advances l l'.
Proof.
  revert l. induction es as [|e es IH]; intros l; cbn [perform_all]; [by intros [= <-]|].
  intros Hp. apply bind_Ok in Hp as (l1 & Hp & Hr). etrans; [by eapply advances_perform|by apply IH].
Qed.

Lemma advances_flush l l' : flush (E := E) nonce l = Ok l' -> advances l l'.
Proof.
  unfold flush. intros Hf. apply bind_Ok in Hf as (l1 & Hp & [= <-]). transitivity l1; [by eapply advances_perform_all|by split; [|intros []; split]].
Qed.

Lemma advances_node n l : node_step (E := E) consensus from_message (node l) n -> advances l (with_node n l).
Proof. intros Hs. split; [by apply rtc_once|by intros []; split]. Qed.

Lemma advances_client {A} (m : core_result A) l l' :
  (forall n n', SyncNode.on_core m n = Ok n' -> node_step (E := E) consensus from_message n n') -> client (E := E) nonce m l = Ok l' -> advances l l'.
Proof.
  intros Hm Hc. unfold client in Hc. apply bind_Ok in Hc as (n & Hn & Hf). etrans; [eapply advances_node, Hm, Hn|by apply advances_flush].
Qed.

Lemma advances_guarded g p handle l l' :
  (forall l l', handle l = Ok l' -> advances l l') -> guarded (E := E) g p handle l = Ok l' -> advances l l'.
Proof.
  intros Hh. destruct g; cbn [guarded]; [by intros [= <-]| |by apply Hh]. intros [= <-]. apply advances_peers, fewer_disconnect.
Qed.

Lemma advances_create services c l p l' : create_sync_session (E := E) services c l = Ok (p, l') -> advances l l'.
Proof.
  unfold create_sync_session. intros Hc. apply bind_Ok in Hc as (i & Hi & Hc). apply bind_Ok in Hc as (ps & Hp & [= <- <-]). split; [done|].
  apply DbSpec.ucheck_inv in Hi as [-> _]. unfold Peers.insert in Hp. apply bind_Ok in Hp as (u & _ & [= <-]).
  intros [Hq Hps Hc]. split; [done| |cbn; lia]. intros p. cbn. rewrite lookup_insert_is_Some. intros [<-|[_ Hp]]; [lia|]. apply Hps in Hp. lia.
Qed.

Lemma advances_receive now t p message l l' : receive (E := E) consensus nonce now t p message l = Ok l' -> advances l l'.
Proof.
  destruct message; cbn [receive]; intros Hr;
    try (injection Hr as <-; first [apply advances_serve|apply advances_peers; first [apply fewer_disconnect|apply fewer_update|apply fewer_blocks|apply fewer_filterload]]).
  - eapply advances_guarded; [|exact Hr]. intros l1 l2. apply advances_client. intros. by eapply SyncNode.step_inventory.
  - eapply advances_guarded; [|exact Hr]. intros l1 l2 [= <-]. apply advances_serve.
  - eapply advances_client; [|exact Hr]. intros. by eapply SyncNode.step_after_peer.
  - unfold on_transaction in Hr. apply bind_Ok in Hr as (n & Hn & Hf). etrans; [apply advances_peers, fewer_update|].
    etrans; [eapply advances_node; by eapply SyncNode.step_transaction|by apply advances_flush].
  - unfold on_block in Hr. apply bind_Ok in Hr as (n & Hn & Hf). etrans; [apply advances_peers, fewer_update|].
    etrans; [eapply advances_node; eapply SyncNode.step_block; [by eexists|exact Hn]|by apply advances_flush].
  - eapply advances_guarded; [|exact Hr]. intros l1 l2. apply advances_client. intros. by eapply SyncNode.step_headers.
  - eapply advances_guarded; [|exact Hr]. intros l1 l2 Hb. apply bind_Ok in Hb as (ps & Hb & [= <-]). apply advances_peers. by eapply fewer_bloom.
  - injection Hr as <-. unfold on_send_compact. destruct (negb _); [done|]. destruct (Message.first _); [apply advances_peers, fewer_blocks|done].
  - injection Hr as <-. unfold on_get_block_txn. destruct (shared_synchronizing _); [done|apply advances_serve].
  - eapply advances_client; [|exact Hr]. intros. by eapply SyncNode.step_notfound.
Qed.

Lemma advances_step l l' : local_step (E := E) consensus nonce l l' -> advances l l'.
Proof.
  intros [services c l1 p l2 Hs|now p version l1 l2 Hs|now p l1 l2 Hs|now t p message l1 l2 Hs|now l1 l2 Hs|tx sink l1 r l2 Hs|l1 l2 Hs|now l1 l2 Hs|fuel l1 l2 Hs|now t fuel l1 l2 Hh Hs].
  - by eapply advances_create.
  - unfold start_sync_session in Hs. etrans; [|eapply advances_client; [|exact Hs]; intros; by eapply SyncNode.step_connect].
    destruct (negb _); [apply advances_peers, fewer_transactions|done].
  - unfold close_session in Hs. etrans; [|eapply advances_client; [|exact Hs]; intros; by eapply SyncNode.step_disconnect]. apply advances_peers, fewer_remove.
  - by eapply advances_receive.
  - eapply advances_client; [|exact Hs]. intros. by eapply SyncNode.step_after_block.
  - unfold accept_transaction in Hs. apply bind_Ok in Hs as ([r1 n] & Hn & Hs). apply bind_Ok in Hs as (l3 & Hf & [= <- <-]).
    etrans; [eapply advances_node; by eapply SyncNode.step_accept|by apply advances_flush].
  - eapply advances_client; [|exact Hs]. intros. by eapply SyncNode.step_listener.
  - eapply advances_client; [|exact Hs]. intros. by eapply SyncNode.step_manage.
  - unfold server_turn in Hs. apply bind_Ok in Hs as ([[s q] ps] & Hw & [= <-]). destruct (server_worker_keeps _ _ _ _ _ _ _ _ _ Hw) as [Hf Hq].
    split; [done|]. intros [Hq0 Hps Hc]. split; [by apply Hq| |done]. intros p Hp. apply Hps, Hf, Hp.
  - unfold verify_turn in Hs. apply bind_Ok in Hs as (n & Hn & Hf). etrans; [eapply advances_node; by eapply SyncNode.step_worker|by apply advances_flush].
Qed.


End local.

(** * A run *)

(** A peer connects and sends a block, which is verified and stored; it asks for headers,
    and the server answers with the header of that block. *)
Module ExampleLocal.
Import Kv ChainVerifierExamples DbExamples ExampleCrypto Keys.ExampleKeys ExampleU256 ExampleBits ExampleRayon ExampleLinked FiltersSpec.ExampleFilters.
Import BlocksWriterSpec.BlocksWriterSpec.ExampleImport.
#[local] Existing Instances MemoryPoolSpec.ExamplePool.elements_order.

Abbreviation example_client := (Node (T := MemoryDatabase) (L := example_linked IndexedTransaction) (LU := example_linked f64)
  (LO := example_linked (OrphanTransactions.OrphanTransaction f64)) (LH := example_linked PeersTasks.HeadersRequest)
  (LB := example_linked PeersTasks.BlocksRequest) (Future := ServerTask) (Sink := Z)).
Definition first_client : outcome unit example_client := SyncNode.new consensus start Full zero_hash.
Abbreviation example_local := (LocalNode (T := MemoryDatabase) (L := example_linked IndexedTransaction) (LU := example_linked f64)
  (LO := example_linked (OrphanTransactions.OrphanTransaction f64)) (LH := example_linked PeersTasks.HeadersRequest)
  (LB := example_linked PeersTasks.BlocksRequest) (LK := example_linked KnownHash.KnownHashType) (connection := Z)).
Definition now : f64 := of_int 10.
Definition ask : Incoming := InGetHeaders (Message.mkLocator 70015 [ih_hash ChainVerifierExamples.genesis] zero_hash) 7.

Definition sent_block : Chain.Block :=
  mkBlock (mkHeader 1 (ih_hash ChainVerifierExamples.genesis) (transaction_hash ChainVerifierExamples.coinbase) 2000 easy_bits 0) [ChainVerifierExamples.coinbase].

(** The verification has stored the block, and the last message is the header. *)
Definition shows (l : example_local) : bool :=
  (best_storage_block_height (shared_state (SyncNode.core (node l))) =? 1) &&
  match last (sent l) with
  | Some (10, SyncExecutor.RespondHeaders [h] 7) => bool_decide (merkle_root_hash h = transaction_hash ChainVerifierExamples.coinbase)
  | _ => false
  end.

End ExampleLocal.
End LocalNodeSpec.
