(* ===== verification/PeerContext.v ===== *)
(** Responses in the order of their requests (src/p2p/src/util/synchronizer.rs,
    response_queue.rs and src/p2p/src/net/peer_context.rs): the synchronizers, the queue of
    responses that are ready too early, and the context of a peer that sends them.

    What is handed to the connection is a list of frames, in the order in which the code
    spawns the writes.  [connected] tells whether the peer still has a channel. *)
From Stdlib Require Import ZArith Lia Strings.Byte.
From stdpp Require Import base decidable numbers countable gmap list.
From S2P Require Import Prelude Crypto Serialization Message.

Local Open Scope Z_scope.

Module PeerContext.
Import Message.

(** * Synchronizers (util/synchronizer.rs) *)

Definition CONFIGURABLE_SYNCHRONIZER_THRESHOLD : Z := 10.

(** Trait [Synchronizer]. *)
Class Synchronizer (S : Type) := {
  declare_response : S -> Z * S;
  is_permitted : S -> Z -> bool;
  permission_for_response : S -> Z -> bool * S;
}.

Record FifoSynchronizer := mkFifo { fifo_declared : Z; next_to_grant : Z }.

#[export] Instance fifo_synchronizer : Synchronizer FifoSynchronizer := {|
  declare_response self :=
    (fifo_declared self, mkFifo (wrap 32 (fifo_declared self + 1)) (next_to_grant self));
  is_permitted self id := id =? next_to_grant self;
  permission_for_response self id :=
    if id =? next_to_grant self
    then (true, mkFifo (fifo_declared self) (wrap 32 (next_to_grant self + 1)))
    else (false, self);
|}.

Record NoopSynchronizer := mkNoop { noop_declared : Z }.

#[export] Instance noop_synchronizer : Synchronizer NoopSynchronizer := {|
  declare_response self := (noop_declared self, mkNoop (wrap 32 (noop_declared self + 1)));
  is_permitted _ _ := true;
  permission_for_response self _ := (true, self);
|}.

Record ThresholdSynchronizer := mkThreshold {
  th_inner : FifoSynchronizer;
  to_grant_min : Z;
  to_grant_max : Z;
}.

Definition threshold_new (declared threshold : Z) : ThresholdSynchronizer :=
  mkThreshold (mkFifo declared declared) (wrap 32 (declared - threshold)) declared.

Definition within_threshold (self : ThresholdSynchronizer) (id : Z) : bool :=
  if to_grant_min self <=? to_grant_max self
  then (to_grant_min self <=? id) && (id <? to_grant_max self)
  else (to_grant_min self <=? id) || (id <? to_grant_max self).

#[export] Instance threshold_synchronizer : Synchronizer ThresholdSynchronizer := {|
  declare_response self :=
    let '(id, inner) := declare_response (th_inner self) in
    (id, mkThreshold inner (to_grant_min self) (to_grant_max self));
  is_permitted self id := is_permitted (th_inner self) id || within_threshold self id;
  permission_for_response self id :=
    let '(granted, inner) := permission_for_response (th_inner self) id in
    let self := mkThreshold inner (to_grant_min self) (to_grant_max self) in
    (granted || within_threshold self id, self);
|}.

Inductive InnerSynchronizer :=
  | Noop (s : NoopSynchronizer)
  | Threshold (s : ThresholdSynchronizer).

Definition inner_new (sync : bool) : InnerSynchronizer :=
  if sync then Threshold (threshold_new 0 0) else Noop (mkNoop 0).

(** [ConfigurableSynchronizer] has the inner synchronizer as its only field. *)
Definition ConfigurableSynchronizer := InnerSynchronizer.

Definition configurable_new (sync : bool) : ConfigurableSynchronizer := inner_new sync.

Definition change_sync_policy (self : ConfigurableSynchronizer) (sync : bool) : ConfigurableSynchronizer :=
  match self, sync with
  | Threshold s, false => Noop (mkNoop (fifo_declared (th_inner s)))
  | Noop s, true => Threshold (threshold_new (noop_declared s) CONFIGURABLE_SYNCHRONIZER_THRESHOLD)
  | _, _ => self
  end.

#[export] Instance configurable_synchronizer : Synchronizer ConfigurableSynchronizer := {|
  declare_response self :=
    match self with
    | Noop s => let '(id, s) := declare_response s in (id, Noop s)
    | Threshold s => let '(id, s) := declare_response s in (id, Threshold s)
    end;
  is_permitted self id :=
    match self with
    | Noop s => is_permitted s id
    | Threshold s => is_permitted s id
    end;
  permission_for_response self id :=
    match self with
    | Threshold s => let '(granted, s) := permission_for_response s id in (granted, Threshold s)
    | Noop s => let '(granted, s) := permission_for_response s id in (granted, Noop s)
    end;
|}.

(** * The queue of responses (util/response_queue.rs) *)

Record ResponseQueue := mkQueue {
  unfinished : gmap Z (list bytes);
  finished : gmap Z (list bytes);
  ignored : gset Z;
}.

Definition queue_default : ResponseQueue := mkQueue ∅ ∅ ∅.

Inductive Responses :=
  | Unfinished (messages : list bytes)
  | Finished (messages : list bytes)
  | Ignored.

Definition push_unfinished_response (self : ResponseQueue) (id : Z) (response : bytes) : ResponseQueue :=
  mkQueue (<[id := default [] (unfinished self !! id) ++ [response]]> (unfinished self))
    (finished self) (ignored self).

Definition push_finished_response {E} (self : ResponseQueue) (id : Z) (response : bytes) : outcome E ResponseQueue :=
  let responses := default [] (unfinished self !! id) ++ [response] in
  let previous := finished self !! id in
  _ ← rust_assert (bool_decide (previous = None));
  Ok (mkQueue (delete id (unfinished self)) (<[id := responses]> (finished self)) (ignored self)).

Definition push_ignored_response {E} (self : ResponseQueue) (id : Z) : outcome E ResponseQueue :=
  _ ← rust_assert (bool_decide (id ∉ ignored self));
  Ok (mkQueue (unfinished self) (finished self) ({[id]} ∪ ignored self)).

Definition responses (self : ResponseQueue) (id : Z) : option (Responses * ResponseQueue) :=
  match unfinished self !! id with
  | Some messages =>
      Some (Unfinished messages, mkQueue (delete id (unfinished self)) (finished self) (ignored self))
  | None =>
      match finished self !! id with
      | Some messages =>
          Some (Finished messages, mkQueue (unfinished self) (delete id (finished self)) (ignored self))
      | None =>
          if decide (id ∈ ignored self)
          then Some (Ignored, mkQueue (unfinished self) (finished self) (ignored self ∖ {[id]}))
          else None
      end
  end.

(** * The context of a peer (net/peer_context.rs) *)

Record PeerContext := mkContext {
  pc_magic : Z;
  pc_version : Z;
  synchronizer : ConfigurableSynchronizer;
  response_queue : ResponseQueue;
}.

Definition context_new (magic version : Z) (synchronous : bool) : PeerContext :=
  mkContext magic version (configurable_new synchronous) queue_default.

Definition with_sync (self : PeerContext) (s : ConfigurableSynchronizer) : PeerContext :=
  mkContext (pc_magic self) (pc_version self) s (response_queue self).

Section context.
Context `{Crypto} {E : Type} (connected : bool).
Abbreviation result := (outcome E (list bytes * PeerContext)).

(** A message that can not be created is a failed [expect]. *)
Definition expect_message (m : outcome Error bytes) : outcome E bytes :=
  match m with Ok frame => Ok frame | Err _ | Panic => Panic | Diverge => Diverge end.

Definition to_message {T} (self : PeerContext) (p : Payload T) (payload : T) : outcome E bytes :=
  expect_message (message_new p (pc_magic self) (pc_version self) payload).

(** [Context::send_to_peer] and [Context::send_message_to_peer]: a peer without a channel
    is sent nothing. *)
Definition send_to_peer {T} (self : PeerContext) (p : Payload T) (payload : T) (serialization_flags : Z)
    : outcome E (list bytes) :=
  if connected
  then message ← expect_message (message_with_flags p (pc_magic self) (pc_version self) payload serialization_flags);
       Ok [message]
  else Ok [].
Definition send_messages_to_peer (messages : list bytes) : list bytes := if connected then messages else [].

(** The loop of [send_awaiting]: every round but the last takes an entry out of the queue. *)
Fixpoint send_awaiting_loop (fuel : nat) (sync : ConfigurableSynchronizer) (queue : ResponseQueue) (next_id : Z)
    : outcome E (list bytes * ConfigurableSynchronizer * ResponseQueue) :=
  match fuel with
  | O => Diverge
  | S fuel' =>
      let next_id := wrap 32 (next_id + 1) in
      match responses queue next_id with
      | Some (Finished messages, queue) =>
          let '(granted, sync) := permission_for_response sync next_id in
          _ ← rust_assert granted;
          '(sent, sync, queue) ← send_awaiting_loop fuel' sync queue next_id;
          Ok (send_messages_to_peer messages ++ sent, sync, queue)
      | Some (Ignored, queue) =>
          let '(granted, sync) := permission_for_response sync next_id in
          _ ← rust_assert granted;
          send_awaiting_loop fuel' sync queue next_id
      | Some (Unfinished messages, queue) =>
          _ ← rust_assert (is_permitted sync next_id);
          Ok (send_messages_to_peer messages, sync, queue)
      | None => Ok ([], sync, queue)
      end
  end.

Definition queue_size (queue : ResponseQueue) : nat :=
  size (unfinished queue) + size (finished queue) + size (ignored queue).

Definition send_awaiting (self : PeerContext) (sync : ConfigurableSynchronizer) (start_id : Z) : result :=
  '(sent, sync, queue) ← send_awaiting_loop (S (queue_size (response_queue self))) sync (response_queue self) start_id;
  Ok (sent, mkContext (pc_magic self) (pc_version self) sync queue).

Definition send_request_with_flags {T} (self : PeerContext) (p : Payload T) (payload : T) (serialization_flags : Z)
    : outcome E (list bytes) := send_to_peer self p payload serialization_flags.

Definition send_request {T} (self : PeerContext) (p : Payload T) (payload : T) : outcome E (list bytes) :=
  send_request_with_flags self p payload 0.

Definition context_declare_response (self : PeerContext) : Z * PeerContext :=
  let '(d, sync) := declare_response (synchronizer self) in (d, with_sync self sync).

Definition ignore_response (self : PeerContext) (id : Z) : result :=
  let '(granted, sync) := permission_for_response (synchronizer self) id in
  if granted then send_awaiting self sync id
  else queue ← push_ignored_response (response_queue self) id;
       Ok ([], mkContext (pc_magic self) (pc_version self) sync queue).

Definition send_response {T} (self : PeerContext) (p : Payload T) (payload : T) (id : Z) (is_final : bool) : result :=
  if is_final then
    let '(granted, sync) := permission_for_response (synchronizer self) id in
    if granted then
      sent ← send_to_peer self p payload 0;
      '(awaiting, self) ← send_awaiting self sync id;
      Ok (sent ++ awaiting, self)
    else
      message ← to_message self p payload;
      queue ← push_finished_response (response_queue self) id message;
      Ok ([], mkContext (pc_magic self) (pc_version self) sync queue)
  else if is_permitted (synchronizer self) id then
    sent ← send_to_peer self p payload 0; Ok (sent, self)
  else
    message ← to_message self p payload;
    Ok ([], mkContext (pc_magic self) (pc_version self) (synchronizer self)
              (push_unfinished_response (response_queue self) id message)).

Definition send_response_inline {T} (self : PeerContext) (p : Payload T) (payload : T) : result :=
  let '(id, self) := context_declare_response self in send_response self p payload id true.

End context.
End PeerContext.
