(* ===== verification/PeerContextSpec.v ===== *)
(** What the context of a peer promises: with synchronous responses, which every
    connection has, the frames are handed to the connection in the order of the requests,
    however the answers become ready.  The writing of the frames itself, which the pool of
    threads does, is not modelled. *)
From Stdlib Require Import ZArith Lia Strings.Byte.
From stdpp Require Import base decidable numbers countable gmap list.
From S2P Require Import Prelude Crypto Serialization Message PeerContext.

Local Open Scope Z_scope.

Module PeerContextSpec.
Import Message PeerContext.

(** * Requests and their answers, in the order of the requests *)

(** The frames answered so far, and whether the answer is complete. *)
Abbreviation entry := (list bytes * bool)%type.

(** The complete answers at the front, and what there is of the next one. *)
Fixpoint visible (rs : list entry) : list bytes :=
  match rs with
  | [] => []
  | (parts, true) :: rs' => parts ++ visible rs'
  | (parts, false) :: _ => parts
  end.

Fixpoint granted (rs : list entry) : nat :=
  match rs with
  | (_, true) :: rs' => S (granted rs')
  | _ => 0
  end.

Inductive op :=
  | Request
  | Respond {T : Type} (i : nat) (p : Payload T) (payload : T) (is_final : bool)
  | Ignore (i : nat).

Section spec.
Context `{Crypto} {E : Type} (magic version : Z).

(** The operation in terms of the answers, where it is allowed: fewer than [2 ^ 32]
    requests are open, an answer is not touched once it is complete, the payload has a
    frame, and an answer that has been started is not ignored while it waits. *)
Definition spec_step (rs : list entry) (o : op) : option (list entry) :=
  match o with
  | Request => if zlen rs - Z.of_nat (granted rs) <? 2 ^ 32 then Some (rs ++ [([], false)]) else None
  | Respond i p payload is_final =>
      match rs !! i, message_new p magic version payload with
      | Some (parts, false), Ok frame => Some (<[i := (parts ++ [frame], is_final)]> rs)
      | _, _ => None
      end
  | Ignore i =>
      match rs !! i with
      | Some (parts, false) =>
          if bool_decide (parts = []) || (i =? granted rs)%nat then Some (<[i := (parts, true)]> rs) else None
      | _ => None
      end
  end.

Fixpoint spec_run (rs : list entry) (ops : list op) : option (list entry) :=
  match ops with
  | [] => Some rs
  | o :: ops => rs ← spec_step rs o; spec_run rs ops
  end.

(** The operation of the context: an answer has the number its request was given. *)
Definition context_step (ids : list Z) (self : PeerContext) (o : op)
    : outcome E (list Z * list bytes * PeerContext) :=
  match o with
  | Request => let '(id, self) := context_declare_response self in Ok (ids ++ [id], [], self)
  | Respond i p payload is_final =>
      id ← index ids i; '(sent, self) ← send_response true self p payload id is_final; Ok (ids, sent, self)
  | Ignore i => id ← index ids i; '(sent, self) ← ignore_response true self id; Ok (ids, sent, self)
  end.

Fixpoint context_run (ids : list Z) (self : PeerContext) (ops : list op) : outcome E (list bytes) :=
  match ops with
  | [] => Ok []
  | o :: ops =>
      '(ids, sent, self) ← context_step ids self o;
      rest ← context_run ids self ops;
      Ok (sent ++ rest)
  end.

(** * Answers *)

Lemma granted_le rs : (granted rs <= length rs)%nat.
Proof. induction rs as [|[ps []] rs IH]; cbn; lia. Qed.

Lemma granted_finished rs i ps : (i < granted rs)%nat -> rs !! i <> Some (ps, false).
Proof.
  revert i. induction rs as [|[q []] rs IH]; intros i Hi; cbn in Hi; [lia| |lia].
  destruct i as [|i]; [done|]. cbn. apply IH. lia.
Qed.

Lemma granted_open rs i ps : rs !! i = Some (ps, false) -> (granted rs <= i)%nat.
Proof. intros Hl. destruct (decide (granted rs <= i)%nat); [done|]. exfalso. apply (granted_finished rs i ps); [lia|done]. Qed.

Lemma granted_snoc rs ps : granted (rs ++ [(ps, false)]) = granted rs.
Proof. induction rs as [|[q []] rs IH]; cbn; [done|by rewrite IH|done]. Qed.

Lemma visible_snoc rs : visible (rs ++ [([], false)]) = visible rs.
Proof. induction rs as [|[q []] rs IH]; cbn; [done|by rewrite IH|done]. Qed.

(** Changing an answer behind the first open one. *)
Lemma insert_behind rs i e : (granted rs < i)%nat ->
  visible (<[i := e]> rs) = visible rs /\ granted (<[i := e]> rs) = granted rs.
Proof.
  revert i. induction rs as [|[q []] rs IH]; intros i Hi; cbn in Hi; [done| |].
  - destruct i as [|i]; [lia|]. change (<[S i := e]> ((q, true) :: rs)) with ((q, true) :: <[i := e]> rs).
    cbn [visible granted]. destruct (IH i) as [-> ->]; [lia|done].
  - by destruct i as [|i]; [lia|].
Qed.

(** Changing the first open answer. *)
Lemma insert_first rs i parts more b : i = granted rs -> rs !! i = Some (parts, false) ->
  let rs' := <[i := (parts ++ more, b)]> rs in
  visible rs' = visible rs ++ more ++ (if b : bool then visible (drop (S i) rs) else []) /\
  granted rs' = (if b : bool then S i + granted (drop (S i) rs) else i)%nat.
Proof.
  revert i. induction rs as [|[q []] rs IH]; intros i -> Hl; cbn [granted] in *; [done| |].
  - destruct (IH (granted rs) eq_refl Hl) as [Hv Hg].
    change (<[S (granted rs) := (parts ++ more, b)]> ((q, true) :: rs))
      with ((q, true) :: <[granted rs := (parts ++ more, b)]> rs).
    cbn [visible granted drop]. rewrite Hv, Hg. destruct b; by rewrite <- ?app_assoc.
  - injection Hl as ->. destruct b; cbn; rewrite ?drop_0, ?app_nil_r, <- ?app_assoc; done.
Qed.

(** * The queue holds what waits behind the first open answer *)

Definition queue_at (q : ResponseQueue) (id : Z) : option (list bytes) * option (list bytes) * bool :=
  (unfinished q !! id, finished q !! id, bool_decide (id ∈ ignored q)).

Definition waiting (e : option entry) : option (list bytes) * option (list bytes) * bool :=
  match e with
  | None | Some ([], false) => (None, None, false)
  | Some ([], true) => (None, None, true)
  | Some (parts, false) => (Some parts, None, false)
  | Some (parts, true) => (None, Some parts, false)
  end.

(** The queue at the numbers from that of the [k]-th request on. *)
Definition queue_from (q : ResponseQueue) (rs : list entry) (k : nat) : Prop :=
  forall j : nat, Z.of_nat j < 2 ^ 32 -> queue_at q (wrap 32 (Z.of_nat (k + j))) = waiting (rs !! (k + j)%nat).

(** The same, where the [k]-th request is the first open one and does not wait. *)
Definition queue_ok (q : ResponseQueue) (rs : list entry) (k : nat) : Prop :=
  forall j : nat, Z.of_nat j < 2 ^ 32 ->
    queue_at q (wrap 32 (Z.of_nat (k + j))) = if decide (j = 0%nat) then waiting None else waiting (rs !! (k + j)%nat).

Lemma wrap_window (k i j : nat) : Z.of_nat i < 2 ^ 32 -> Z.of_nat j < 2 ^ 32 ->
  wrap 32 (Z.of_nat (k + i)) = wrap 32 (Z.of_nat (k + j)) -> i = j.
Proof.
  unfold wrap. intros Hi Hj He. rewrite !Nat2Z.inj_add in He.
  assert ((Z.of_nat i - Z.of_nat j) mod 2 ^ 32 = 0) as Hm.
  { replace (Z.of_nat i - Z.of_nat j) with ((Z.of_nat k + Z.of_nat i) - (Z.of_nat k + Z.of_nat j)) by lia.
    by rewrite Zminus_mod, He, Z.sub_diag. }
  apply Z.mod_divide in Hm as [c Hc]; [|done]. nia.
Qed.

Lemma wrap_succ z : wrap 32 (wrap 32 z + 1) = wrap 32 (z + 1).
Proof. unfold wrap. by rewrite Zplus_mod_idemp_l. Qed.

(** Only the entry of [id] differs, and it is [e]. *)
Definition changed (q q' : ResponseQueue) (id : Z) (e : option entry) : Prop :=
  queue_at q' id = waiting e /\ forall id', id' <> id -> queue_at q' id' = queue_at q id'.

Definition answer_of (e : option entry) : option Responses :=
  match e with
  | None | Some ([], false) => None
  | Some ([], true) => Some Ignored
  | Some (parts, false) => Some (Unfinished parts)
  | Some (parts, true) => Some (Finished parts)
  end.

Ltac queue_ext :=
  split; [|intros id' Hne]; unfold queue_at; cbn [unfinished finished ignored waiting];
  rewrite ?lookup_delete_eq, ?lookup_insert_eq, ?lookup_delete_ne, ?lookup_insert_ne by done;
  repeat match goal with H : _ !! _ = _ |- _ => rewrite H end;
  first [done | f_equal; try done;
    first [apply bool_decide_eq_false_2; set_solver | apply bool_decide_eq_true_2; set_solver
          | apply bool_decide_ext; set_solver]].

Lemma responses_waiting q id e : queue_at q id = waiting e ->
  match answer_of e with
  | None => responses q id = None
  | Some r => exists q', responses q id = Some (r, q') /\ changed q q' id None /\ queue_size q = S (queue_size q')
  end.
Proof.
  unfold queue_at, responses. intros Hq. destruct e as [[[|m parts] []]|]; cbn in *; injection Hq as Hu Hf Hi; rewrite Hu, ?Hf.
  - apply bool_decide_eq_true in Hi. rewrite decide_True by done. eexists. split; [done|]. split.
    + queue_ext.
    + unfold queue_size. cbn. rewrite (size_difference (ignored q) {[id]}), size_singleton by set_solver.
      assert (size (ignored q) <> 0%nat) by (intros Hs; apply size_empty_inv in Hs; set_solver). lia.
  - apply bool_decide_eq_false in Hi. by rewrite decide_False.
  - eexists. split; [done|]. apply bool_decide_eq_false in Hi. split; [queue_ext|].
    unfold queue_size. cbn. rewrite map_size_delete, Hf.
    assert (size (finished q) <> 0%nat) by (intros Hs; apply map_size_empty_inv in Hs; by rewrite Hs in Hf). lia.
  - eexists. split; [done|]. apply bool_decide_eq_false in Hi. split; [queue_ext|].
    unfold queue_size. cbn. rewrite map_size_delete, Hu.
    assert (size (unfinished q) <> 0%nat) by (intros Hs; apply map_size_empty_inv in Hs; by rewrite Hs in Hu). lia.
  - apply bool_decide_eq_false in Hi. by rewrite decide_False.
Qed.

(** ** Sending what waits *)

(** The synchronizer of a connection that has granted the requests before [k]. *)
Definition sync_at (n k : nat) : ConfigurableSynchronizer :=
  Threshold (mkThreshold (mkFifo (wrap 32 (Z.of_nat n)) (wrap 32 (Z.of_nat k))) 0 0).

Lemma no_threshold id : (0 <=? id) && (id <? 0) = false.
Proof. destruct (Z.leb_spec 0 id), (Z.ltb_spec id 0); (done || lia). Qed.

Lemma sync_at_permitted n k id : is_permitted (sync_at n k) id = (id =? wrap 32 (Z.of_nat k)).
Proof. cbn. by rewrite no_threshold, orb_false_r. Qed.

Lemma sync_at_permission n k id :
  permission_for_response (sync_at n k) id =
  if id =? wrap 32 (Z.of_nat k) then (true, sync_at n (S k)) else (false, sync_at n k).
Proof.
  unfold sync_at. cbn -[wrap Z.of_nat]. destruct (id =? _); cbn -[wrap Z.of_nat].
  - by rewrite wrap_succ, Nat2Z.inj_succ.
  - unfold within_threshold. cbn -[wrap Z.of_nat]. by rewrite no_threshold.
Qed.

(** Taking the entry of the [k]-th request out of the queue. *)
Lemma queue_from_next q q' rs k : queue_from q rs k -> zlen rs <= Z.of_nat k + 2 ^ 32 ->
  changed q q' (wrap 32 (Z.of_nat k)) None -> queue_from q' rs (S k).
Proof.
  intros Hq Hl [H1 H2] j Hj. replace (S k + j)%nat with (k + S j)%nat by lia.
  destruct (decide (Z.of_nat (S j) < 2 ^ 32)) as [Hlt|Hge].
  - rewrite H2; [by apply Hq|]. rewrite <- (Nat.add_0_r k) at 2. intros He.
    apply wrap_window in He; lia.
  - assert (wrap 32 (Z.of_nat (k + S j)) = wrap 32 (Z.of_nat k)) as ->.
    { replace (Z.of_nat (k + S j)) with (Z.of_nat k + 1 * 2 ^ 32) by lia. apply Z_mod_plus_full. }
    rewrite H1. by rewrite lookup_ge_None_2 by lia.
Qed.

Lemma queue_from_ok q q' rs k : queue_from q rs k -> changed q q' (wrap 32 (Z.of_nat k)) None -> queue_ok q' rs k.
Proof.
  intros Hq [H1 H2] j Hj. destruct (decide (j = 0%nat)) as [->|Hne]; [by rewrite Nat.add_0_r|].
  rewrite H2; [by apply Hq|]. rewrite <- (Nat.add_0_r k) at 2. intros He. apply wrap_window in He; lia.
Qed.

Lemma send_awaiting_spec fuel q rs n k : queue_from q rs k -> zlen rs <= Z.of_nat k + 2 ^ 32 ->
  (queue_size q < fuel)%nat ->
  let g := granted (drop k rs) in
  exists q', send_awaiting_loop (E := E) true fuel (sync_at n k) q (wrap 32 (Z.of_nat k - 1)) =
    Ok (visible (drop k rs), sync_at n (k + g), q') /\ queue_ok q' rs (k + g).
Proof.
  revert q k. induction fuel as [|fuel IH]; intros q k Hq Hl Hf; [lia|]. cbn [send_awaiting_loop].
  replace (wrap 32 (wrap 32 (Z.of_nat k - 1) + 1)) with (wrap 32 (Z.of_nat k)) by (rewrite wrap_succ; f_equal; lia).
  pose proof (Hq 0%nat eq_refl) as H0. rewrite Nat.add_0_r in H0. pose proof (responses_waiting q _ _ H0) as Hr.
  destruct (rs !! k) as [[parts b]|] eqn:Hk.
  - rewrite (drop_S rs (parts, b) k Hk). destruct parts as [|m parts], b; cbn [answer_of] in Hr.
    + destruct Hr as (q' & -> & Hc & Hs). rewrite sync_at_permission, Z.eqb_refl. cbn [rust_assert mbind outcome_bind].
      destruct (IH q' (S k)) as (q2 & He & Hok); [by eapply queue_from_next|lia|lia|].
      exists q2. cbn [granted visible app]. replace (k + S (granted (drop (S k) rs)))%nat with (S k + granted (drop (S k) rs))%nat by lia.
      split; [|done]. rewrite <- He. do 2 f_equal. lia.
    + rewrite Hr. exists q. cbn [granted visible]. rewrite Nat.add_0_r. split; [done|]. by eapply queue_from_ok.
    + destruct Hr as (q' & -> & Hc & Hs). rewrite sync_at_permission, Z.eqb_refl. cbn [rust_assert mbind outcome_bind].
      destruct (IH q' (S k)) as (q2 & He & Hok); [by eapply queue_from_next|lia|lia|].
      replace (wrap 32 (Z.of_nat (S k) - 1)) with (wrap 32 (Z.of_nat k)) in He by (f_equal; lia). rewrite He.
      exists q2. cbn [granted visible app]. replace (k + S (granted (drop (S k) rs)))%nat with (S k + granted (drop (S k) rs))%nat by lia.
      done.
    + destruct Hr as (q' & -> & Hc & Hs). rewrite sync_at_permitted, Z.eqb_refl. cbn [rust_assert mbind outcome_bind].
      exists q'. cbn [granted visible]. rewrite Nat.add_0_r. split; [done|]. by eapply queue_from_ok.
  - cbn in Hr. rewrite Hr, drop_ge by (by apply lookup_ge_None_1). exists q. cbn [granted visible].
    rewrite Nat.add_0_r. split; [done|]. by eapply queue_from_ok.
Qed.

(** ** The steps *)

Lemma queue_ok_next q rs k : queue_ok q rs k -> zlen rs <= Z.of_nat k + 2 ^ 32 -> queue_from q rs (S k).
Proof.
  intros Hq Hl. assert (changed q q (wrap 32 (Z.of_nat k)) None) as Hc.
  { split; [|done]. pose proof (Hq 0%nat eq_refl) as Hq0. by rewrite Nat.add_0_r in Hq0. }
  intros j Hj. replace (S k + j)%nat with (k + S j)%nat by lia.
  destruct (decide (Z.of_nat (S j) < 2 ^ 32)) as [Hlt|Hge]; [by rewrite Hq|].
  replace (wrap 32 (Z.of_nat (k + S j))) with (wrap 32 (Z.of_nat k)).
  - rewrite (proj1 Hc). by rewrite lookup_ge_None_2 by lia.
  - replace (Z.of_nat (k + S j)) with (Z.of_nat k + 1 * 2 ^ 32) by lia. symmetry. apply Z_mod_plus_full.
Qed.

Lemma queue_ok_ext q rs rs' k : queue_ok q rs k ->
  (forall j, (k < j)%nat -> waiting (rs' !! j) = waiting (rs !! j)) -> queue_ok q rs' k.
Proof. intros Hq He j Hj. rewrite Hq by done. destruct (decide _); [done|]. rewrite He by lia. done. Qed.

Lemma queue_ok_changed q q' rs k i e : queue_ok q rs k -> (k < i < length rs)%nat -> zlen rs <= Z.of_nat k + 2 ^ 32 ->
  changed q q' (wrap 32 (Z.of_nat i)) (Some e) -> queue_ok q' (<[i := e]> rs) k.
Proof.
  intros Hq Hi Hl [H1 H2] j Hj. destruct (decide (k + j = i)%nat) as [<-|Hne].
  - rewrite H1, decide_False by lia. by rewrite list_lookup_insert_eq by lia.
  - rewrite H2, Hq by (first [done | intros He; replace i with (k + (i - k))%nat in He by lia; apply wrap_window in He; lia]).
    by rewrite list_lookup_insert_ne by lia.
Qed.

Lemma queue_ok_at q rs k i : queue_ok q rs k -> (k < i < length rs)%nat -> zlen rs <= Z.of_nat k + 2 ^ 32 ->
  queue_at q (wrap 32 (Z.of_nat i)) = waiting (rs !! i).
Proof.
  intros Hq Hi Hl. pose proof (Hq (i - k)%nat ltac:(lia)) as Hk. rewrite decide_False in Hk by lia.
  by replace (k + (i - k))%nat with i in Hk by lia.
Qed.

(** What is answered and what is in the context. *)
Record related (rs : list entry) (ids : list Z) (self : PeerContext) : Prop := {
  re_magic : pc_magic self = magic;
  re_version : pc_version self = version;
  re_ids : ids = map (fun i => wrap 32 (Z.of_nat i)) (seq 0 (length rs));
  re_sync : synchronizer self = sync_at (length rs) (granted rs);
  re_queue : queue_ok (response_queue self) rs (granted rs);
  re_open : zlen rs <= Z.of_nat (granted rs) + 2 ^ 32;
}.

Lemma related_id rs ids self i e : related rs ids self -> rs !! i = Some e -> ids !! i = Some (wrap 32 (Z.of_nat i)).
Proof.
  intros Hr Hi. rewrite (re_ids _ _ _ Hr), list_lookup_fmap, lookup_seq_lt by (by eapply lookup_lt_Some). done.
Qed.

(** Completing the first open answer sends what waits behind it. *)
Lemma complete_first rs ids self i parts more :
  related rs ids self -> rs !! i = Some (parts, false) -> i = granted rs ->
  let rs' := <[i := (parts ++ more, true)]> rs in
  exists sent self', send_awaiting (E := E) true self (sync_at (length rs) (S i)) (wrap 32 (Z.of_nat i)) = Ok (sent, self') /\
    related rs' ids self' /\ visible rs' = visible rs ++ more ++ sent.
Proof.
  intros [Hm Hv Hids Hs Hq Hl] Hi Hg rs'.
  destruct (insert_first rs i parts more true Hg Hi) as [Hvis Hgr]. fold rs' in Hvis, Hgr.
  assert (queue_from (response_queue self) rs' (S i)) as Hf.
  { apply queue_ok_next; [|unfold rs'; rewrite length_insert; lia].
    subst i. eapply queue_ok_ext; [done|]. intros j Hj. unfold rs'. by rewrite list_lookup_insert_ne by lia. }
  assert (drop (S i) rs' = drop (S i) rs) as Hd by (unfold rs'; by rewrite drop_insert_lt by lia).
  destruct (send_awaiting_spec (S (queue_size (response_queue self))) (response_queue self) rs' (length rs) (S i))
    as (q' & He & Hok); [done|unfold rs'; rewrite length_insert; lia|lia|].
  replace (wrap 32 (Z.of_nat (S i) - 1)) with (wrap 32 (Z.of_nat i)) in He by (f_equal; lia).
  rewrite Hd in He, Hok. unfold send_awaiting. rewrite He. cbn [mbind outcome_bind].
  do 2 eexists. split; [done|]. split; [|done]. rewrite <- Hgr in *.
  split; cbn; [done|done| | |done|]; unfold rs' in *; rewrite ?length_insert; [done|done|]. lia.
Qed.

(** An answer behind the first open one goes to the queue. *)
Lemma behind rs ids self q' i e : related rs ids self -> (granted rs < i < length rs)%nat ->
  changed (response_queue self) q' (wrap 32 (Z.of_nat i)) (Some e) ->
  related (<[i := e]> rs) ids (mkContext (pc_magic self) (pc_version self) (synchronizer self) q').
Proof.
  intros [Hm Hv Hids Hs Hq Hl] Hi Hc. destruct (insert_behind rs i e (proj1 Hi)) as [_ Hg].
  split; cbn; rewrite ?length_insert, ?Hg; [done..| |done]. by eapply queue_ok_changed.
Qed.

Lemma not_first rs i : (granted rs < i < length rs)%nat -> zlen rs <= Z.of_nat (granted rs) + 2 ^ 32 ->
  (wrap 32 (Z.of_nat i) =? wrap 32 (Z.of_nat (granted rs))) = false.
Proof.
  intros Hi Hl. apply Z.eqb_neq. intros He. replace i with (granted rs + (i - granted rs))%nat in He by lia.
  rewrite <- (Nat.add_0_r (granted rs)) in He at 3. apply wrap_window in He; lia.
Qed.

Lemma push_unfinished_changed q id parts frame : queue_at q id = waiting (Some (parts, false)) ->
  changed q (push_unfinished_response q id frame) id (Some (parts ++ [frame], false)).
Proof.
  intros Hq. unfold queue_at in Hq. destruct parts as [|m parts]; injection Hq as Hu Hf Hi;
    unfold push_unfinished_response; rewrite Hu; apply bool_decide_eq_false in Hi; queue_ext.
Qed.

Lemma push_finished_changed q id parts frame : queue_at q id = waiting (Some (parts, false)) ->
  exists q', push_finished_response (E := E) q id frame = Ok q' /\ changed q q' id (Some (parts ++ [frame], true)).
Proof.
  intros Hq. unfold queue_at in Hq. destruct parts as [|m parts]; injection Hq as Hu Hf Hi;
    unfold push_finished_response; rewrite Hu, Hf; apply bool_decide_eq_false in Hi; (eexists; split; [done|queue_ext]).
Qed.

Lemma push_ignored_changed q id : queue_at q id = waiting (Some ([], false)) ->
  exists q', push_ignored_response (E := E) q id = Ok q' /\ changed q q' id (Some ([], true)).
Proof.
  intros Hq. unfold queue_at in Hq. injection Hq as Hu Hf Hi. unfold push_ignored_response.
  apply bool_decide_eq_false in Hi. rewrite bool_decide_eq_true_2 by done. eexists. split; [done|queue_ext].
Qed.

(** The operation of the context does what the operation on the answers says, and sends
    what becomes visible by it. *)
Definition simulated (rs rs' : list entry) (step : outcome E (list Z * list bytes * PeerContext)) : Prop :=
  exists ids' sent self', step = Ok (ids', sent, self') /\ related rs' ids' self' /\ visible rs' = visible rs ++ sent.

Lemma request_simulated rs rs' ids self : related rs ids self -> spec_step rs Request = Some rs' ->
  simulated rs rs' (context_step ids self Request).
Proof.
  intros [Hm Hv Hids Hs Hq Hl] Hst. cbn in Hst. destruct (Z.ltb_spec (zlen rs - Z.of_nat (granted rs)) (2 ^ 32)) as [Hlt|]; [|done].
  injection Hst as <-. cbn [context_step]. unfold context_declare_response. rewrite Hs.
  do 3 eexists. split; [done|]. rewrite visible_snoc, app_nil_r. split; [|done].
  split; cbn -[wrap Z.of_nat]; rewrite ?granted_snoc, ?length_app; [done|done| | | |cbn; lia].
  - rewrite Hids. cbn [length]. by rewrite seq_app, map_app.
  - cbn [length]. unfold sync_at. by rewrite wrap_succ, Nat2Z.inj_add.
  - eapply queue_ok_ext; [done|]. intros j _. destruct (decide (j < length rs)%nat).
    + by rewrite lookup_app_l.
    + rewrite lookup_app_r, (lookup_ge_None_2 rs) by lia. by destruct (j - length rs)%nat.
Qed.

Lemma respond_simulated {T} rs rs' ids self i (p : Payload T) payload is_final :
  related rs ids self -> spec_step rs (Respond i p payload is_final) = Some rs' ->
  simulated rs rs' (context_step ids self (Respond i p payload is_final)).
Proof.
  intros Hr Hst. cbn [spec_step] in Hst. destruct (rs !! i) as [[parts []]|] eqn:Hi; [done| |done].
  destruct (message_new p magic version payload) as [frame| | |] eqn:Hf; [|done..]. injection Hst as <-.
  cbn [context_step]. unfold index. rewrite (related_id _ _ _ _ _ Hr Hi). cbn [expect]. rewrite ok_bind.
  pose proof Hr as [Hm Hv Hids Hs Hq Hl]. pose proof (granted_open rs i parts Hi) as Hge. apply lookup_lt_Some in Hi as Hlt.
  unfold send_response, send_to_peer, to_message. rewrite Hm, Hv. change (message_with_flags p magic version payload 0)
    with (message_new p magic version payload). rewrite Hf, Hs, sync_at_permission, sync_at_permitted.
  destruct (decide (i = granted rs)) as [Hg|Hne].
  - rewrite <- Hg, Z.eqb_refl. destruct is_final; cbn [expect_message mbind outcome_bind].
    + destruct (complete_first rs ids self i parts [frame] Hr Hi Hg) as (sent & self' & -> & Hr' & Hvis).
      exists ids, (frame :: sent), self'. done.
    + do 3 eexists. split; [done|]. destruct (insert_first rs i parts [frame] false Hg Hi) as [-> Hg']. split; [|by rewrite app_nil_r].
      split; rewrite ?length_insert, ?Hg', ?Hg; [done..| |done]. eapply queue_ok_ext; [done|].
      intros j Hj. by rewrite list_lookup_insert_ne by lia.
  - rewrite not_first by lia. destruct (insert_behind rs i (parts ++ [frame], is_final) ltac:(lia)) as [Hvis _].
    pose proof (queue_ok_at _ _ _ i Hq ltac:(lia) Hl) as Hat. rewrite Hi in Hat.
    destruct is_final; cbn [expect_message mbind outcome_bind].
    + destruct (push_finished_changed _ _ _ frame Hat) as (q' & -> & Hc). do 3 eexists. split; [done|].
      rewrite Hvis, app_nil_r, <- Hs, <- Hm, <- Hv. split; [|done]. apply (behind rs); [done|lia|done].
    + do 3 eexists. split; [done|]. rewrite Hvis, app_nil_r, <- Hs, <- Hm, <- Hv. split; [|done].
      apply (behind rs); [done|lia|]. by apply push_unfinished_changed.
Qed.

Lemma ignore_simulated rs rs' ids self i : related rs ids self -> spec_step rs (Ignore i) = Some rs' ->
  simulated rs rs' (context_step ids self (Ignore i)).
Proof.
  intros Hr Hst. cbn [spec_step] in Hst. destruct (rs !! i) as [[parts []]|] eqn:Hi; [done| |done].
  destruct (bool_decide (parts = []) || (i =? granted rs)%nat) eqn:Hb; [|done]. injection Hst as <-.
  cbn [context_step]. unfold index. rewrite (related_id _ _ _ _ _ Hr Hi). cbn [expect]. rewrite ok_bind.
  pose proof Hr as [Hm Hv Hids Hs Hq Hl]. pose proof (granted_open rs i parts Hi) as Hge. apply lookup_lt_Some in Hi as Hlt.
  unfold ignore_response. rewrite Hs, sync_at_permission. destruct (decide (i = granted rs)) as [Hg|Hne].
  - rewrite <- Hg, Z.eqb_refl.
    destruct (complete_first rs ids self i parts [] Hr Hi Hg) as (sent & self' & -> & Hr' & Hvis).
    rewrite app_nil_r in Hr', Hvis. exists ids, sent, self'. done.
  - rewrite not_first by lia. apply orb_true_iff in Hb as [Hb%bool_decide_eq_true|Hb%Nat.eqb_eq]; [subst parts|done].
    pose proof (queue_ok_at _ _ _ i Hq ltac:(lia) Hl) as Hat. rewrite Hi in Hat.
    destruct (push_ignored_changed _ _ Hat) as (q' & -> & Hc). cbn [mbind outcome_bind]. do 3 eexists. split; [done|].
    destruct (insert_behind rs i ([], true) ltac:(lia)) as [-> _]. rewrite app_nil_r, <- Hs. split; [|done].
    apply (behind rs); [done|lia|done].
Qed.

Lemma step_simulated rs rs' ids self o : related rs ids self -> spec_step rs o = Some rs' ->
  simulated rs rs' (context_step ids self o).
Proof. destruct o; eauto using request_simulated, respond_simulated, ignore_simulated. Qed.

Lemma run_simulated ops rs rs' ids self : related rs ids self -> spec_run rs ops = Some rs' ->
  exists sent, context_run ids self ops = Ok sent /\ visible rs' = visible rs ++ sent.
Proof.
  revert rs ids self. induction ops as [|o ops IH]; intros rs ids self Hr Hrun; cbn [spec_run context_run] in *.
  - injection Hrun as ->. exists []. by rewrite app_nil_r.
  - destruct (spec_step rs o) as [rs1|] eqn:Hst; [|done]. cbn in Hrun.
    destruct (step_simulated _ _ _ _ _ Hr Hst) as (ids1 & sent & self1 & -> & Hr1 & Hv1). cbn [mbind outcome_bind].
    destruct (IH _ _ _ Hr1 Hrun) as (rest & -> & Hv2). exists (sent ++ rest). split; [done|].
    by rewrite Hv2, Hv1, app_assoc.
Qed.

Lemma related_new : related [] [] (context_new magic version true).
Proof.
  split; try done. intros j _. cbn [response_queue context_new queue_default]. unfold queue_at. cbn.
  rewrite !lookup_empty. by destruct (decide _).
Qed.

(** C26: However requests come in and their answers become ready, in parts, whole or not at
    all, nothing panics, and what has been handed to the connection at the end is the
    answers in the order of their requests: every answer up to the first that is not complete, and the parts of
    that one.  At most [2 ^ 32] requests are open at a time. *)
Theorem responses_in_order ops rs : spec_run [] ops = Some rs ->
  context_run [] (context_new magic version true) ops = Ok (visible rs).
Proof.
  intros Hrun. destruct (run_simulated ops [] rs [] _ related_new Hrun) as (sent & -> & Hv). by rewrite Hv.
Qed.

End spec.

(** * Examples *)

Module ExampleResponses.
Import ExampleCrypto.

Definition pong (i : nat) (nonce : Z) (is_final : bool) : op := Respond i pong_payload nonce is_final.
Definition frame (nonce : Z) : list bytes :=
  match message_new pong_payload 1 70014 nonce with Ok f => [f] | _ => [] end.

(** Four requests; the second is answered first, in two parts, the third is ignored, the
    fourth is still open. *)
Definition out_of_order : list op :=
  [Request; Request; pong 1 11 false; Request; Ignore 2; pong 1 12 true; Request; pong 3 14 false; pong 0 10 true].

Lemma responses_in_order_witness :
  exists rs, spec_run 1 70014 [] out_of_order = Some rs /\
    visible rs = frame 10 ++ frame 11 ++ frame 12 ++ frame 14 /\
    context_run (E := unit) [] (context_new 1 70014 true) out_of_order = Ok (visible rs).
Proof.
  eexists. split; [vm_compute; reflexivity|]. split; [vm_compute; reflexivity|].
  apply (responses_in_order (E := unit) 1 70014). vm_compute. reflexivity.
Defined.

(** An answer that has been given in part while it waited, and is then ignored, is never
    granted: its parts go out, but everything behind it waits for ever. *)
Definition part_ignored : list op :=
  [Request; Request; Request; pong 1 11 false; Ignore 1; pong 0 10 true; pong 2 12 true].

Theorem ignored_part_blocks :
  context_run (E := unit) [] (context_new 1 70014 true) part_ignored = Ok (frame 10 ++ frame 11).
Proof. vm_compute. reflexivity. Qed.
End ExampleResponses.
End PeerContextSpec.
